(* ===== verification/_CoqProject ===== *)
-Q . S2P
Prelude.v
Message.v
Ring.v
MQ.v
Sched.v
Timer.v
TimerSpec.v
Handle.v
HandleSpec.v
CString.v
Module.v
Node.v
Server.v
NodeSafe.v
ServerSpec.v
DispatchSpec.v
DataBuffer.v
HashId.v
Framing.v
Gate.v
GateSpec.v
Netpack.v
NetpackSpec.v
LuaError.v
Seri.v
SeriSpec.v
SeriRead.v
Crypt.v
CryptSpec.v
DhSpec.v
Des.v
DesSpec.v
Sha1.v
Sha1Spec.v
Socket.v
SocketSpec.v
SocketSafe.v
Buffer.v
SprotoPack.v
SprotoPackSpec.v
Sproto.v
SprotoCode.v
SprotoLua.v
SprotoSpec.v
SprotoWire.v
SprotoInts.v
SprotoEncode.v
SprotoDecode.v
SprotoTrip.v
SprotoDefault.v
Harbor.v
HarborSpec.v
Sums.v
Start.v
StartSpec.v
Cluster.v
ClusterSpec.v
RwLock.v
Stm.v
StmSpec.v
SkynetSocket.v
SkynetSocketSpec.v
LuaSocket.v
LuaSocketSpec.v
Multicast.v
MulticastSpec.v
Bson.v
BsonSpec.v
BsonIndex.v
ShareData.v
ShareHash.v
ShareDataSpec.v
