(* ===== verification/Prelude.v ===== *)
(** * A verified model of the skynet runtime

    The repository is a game server; its C code is the skynet runtime under
    [src/skynet]: an actor system in which services with 32-bit handles exchange messages, with a timer,
    sockets, and libraries for the Lua services.  This library models its own C code, function by function, and proves
    what it relies on.  The Lua and Go code of the games and the vendored C code ([3rd]) are outside it.

    ** Parts of the program and where they are modelled

    - Messages ([skynet.h], [skynet_mq.h]): [Message].
    - Message queues ([skynet_mq.c]): [MQ], on the ring buffers of [Ring].  A heap maps addresses to queues, the
      global queue is linked through their [next] fields, and each function is one atomic step, as its spinlock makes it.
      [Sched] interleaves the steps of all worker threads.
    - Timer ([skynet_timer.c]): [Timer], and its specification in [TimerSpec].  Clock readings are arguments, and so is
      what other threads add in the unlocked window of [timer_execute].
    - Handles and names ([skynet_handle.c]): [Handle], [HandleSpec].
    - Modules ([skynet_module.c]): [Module]; [dlopen] and [dlsym] are arguments.
    - The node: contexts, reference counts, harbor, log and environment ([skynet_server.c], [skynet_harbor.c],
      [skynet_error.c], [skynet_env.c], [skynet_log.c]): [Node].  Commands, sending and dispatching ([skynet_server.c],
      [skynet_monitor.c]): [Server].  The proofs are in [NodeSafe] (the interleaving of all threads), [ServerSpec]
      (sending, handles as text) and [DispatchSpec] (one turn of a worker).
    - The gate service ([service_gate.c], [databuffer.h], [hashid.h]): [DataBuffer], [HashId], [Gate], [GateSpec]; the wire
      format it shares with netpack is [Framing].  What the gate asks of the system is a list of actions.
    - Packet assembly for Lua services ([lua-netpack.c]): [Netpack], [NetpackSpec].
    - Serialisation of Lua values ([lua-seri.c]): [Seri], [SeriSpec], [SeriRead].
    - What functions called from Lua return ([LuaError]): values, a Lua error, or undefined behaviour.
    - Cryptography ([lua-crypt.c], [lsha1.c]): [Crypt] (codecs, hashes, Diffie-Hellman, authentication codes) with [CryptSpec] and
      [DhSpec], [Des] with [DesSpec], [Sha1] with [Sha1Spec].
    - The socket server ([socket_server.c]): [Socket].  System calls are the operations of the class [Kernel]; what the
      server writes, closes and frees is logged.  [SocketSpec] is about the data path of a TCP connection, [SocketSafe] about the
      interleaving of the socket thread with the threads that send it requests.
    - Zero-packing of sproto messages ([sproto/sproto.c], [sproto/lsproto.c]): [SprotoPack], [SprotoPackSpec]; [Buffer] is the
      theory of writes into a buffer.
    - Sproto's schemas and messages: [Sproto] (import of a bundle, queries), [SprotoCode] ([sproto_encode] and [sproto_decode], the callback is an argument),
      [SprotoLua] (the callbacks for Lua tables, [lencode], [ldecode]), [SprotoDefault] (default values, protocols, global slots).  [SprotoSpec] is about
      schemas; [SprotoWire] is the reference for messages, which [SprotoInts], [SprotoEncode] and [SprotoDecode] relate to the code and [SprotoTrip] to the functions
      called from Lua.  Buffers double from at least one byte: 25 doublings reach the largest; messages nest 64 levels.
    - The harbor service ([service_harbor.c]): [Harbor], with the blocks of memory it owns and a log of what it asks for; [HarborSpec] is about the traffic
      between two nodes.  Whether [skynet_send] succeeds is an argument, from what happened before.
    - The threads of a process ([skynet_start.c]): [Start], a step relation in which each step is one access to what the threads share, the mutex and the condition
      variable being those of POSIX; [StartSpec] has their invariant.
    - Messages between clusters ([lua-cluster.c]): [Cluster], with blocks of memory as their bytes; [ClusterSpec] shows that what one side packs the other reads.
    - Shared memory between services ([lua-stm.c]): [Stm], in which a step is one access other threads can see; [StmSpec] has the counts.
    - The locks ([rwlock.h], [spinlock.h]): [RwLock], one step for each access to a lock.  [Sums] has what these files share with [StartSpec].
    - The socket layer of a node ([skynet_socket.c]): [SkynetSocket], which composes [Socket] with [Node] and [Server]; [SkynetSocketSpec].
    - What a Lua service has received ([lua-socket.c]): [LuaSocket], the chains of blocks of its sockets and their pool of nodes; [LuaSocketSpec] refines them to streams.
    - Multicast ([lua-multicast.c]): [Multicast], the packages in a memory of their own and what publisher and subscribers do with them; [MulticastSpec] has the counts.
    - Shared configuration ([lua-sharedata.c]): [ShareData], the copy of a Lua table and its readers; [ShareHash] has the hash table as keys and links; [ShareDataSpec] relates the copy to the table.
    - Documents for MongoDB ([lua-bson.c]): [Bson], its buffer, reader and index; [BsonSpec] has the reference and the round trip, [BsonIndex] the fields replaced in place.

    ** Conventions

    A [w]-bit integer is a [Z] with its wrap-around written out ([u8], [u32], [i32], ...).  Partial C code returns [option]:
    [None] is a failed assertion, an access outside an array, or a use of memory that is not there (notations [let!] and
    [assert!] below).  Code that can raise a Lua error returns a [res], with the error as a value and [Stuck] for
    undefined behaviour.  Loops are recursive functions on a fuel that is computed from their input; running out of it is
    a failure like the others, so the theorems that give a result also show that the fuel is enough.
    Freed memory leaves the heaps; the node keeps a trace of the blocks of message data freed ([n_freed]).  Reference
    counts are unbounded.

    Code that is not part of the repository enters through classes: [Services] is what the modules of the
    services do when they are created, called and released; [ServicesOk] says that they only change the node through
    the functions they may call, [QuietCallback] that one callback only takes its message.  [Kernel] is the operating system, [KernelOk] says that interruptions end.  Each class has an instance in the
    file that uses it.

    ** What is shown

    - Queues: the ring buffer is an unbounded FIFO; no interleaving of workers loses a wakeup or
      dispatches one service twice at a time, and no assertion of the queue code fails.
    - Contexts: under every interleaving the reference count is the number of references, what is
      referred to is allocated, and looking up, retiring, releasing and sending never fail.  Creating a service assumes
      that the handle given is not in use by a thread that still refers to a deleted context (a handle is reused only after
      2^24 registrations).
    - Sending and dispatching: what [skynet_send] does to a local or dead handle, and which messages one turn of a worker
      hands over.
    - Timer: each tick fires exactly the due nodes in order; a timeout of [d] ticks fires in the [d]-th tick.
    - Handles: registering, looking up, retiring and naming refine finite maps.
    - Gate and netpack: wherever packet boundaries fall, the framed messages come out whole and in order; the gate
      handles every socket message without failure.
    - Serialisation: unpacking what was packed gives the values back; unpacking any buffer is safe and ends.
    - Cryptography: decoding inverts encoding for base64 and DES, whatever the text the decoders stay within their buffers,
      [powmodp] and SHA-1 compute what their standards say (strings below 2^29 bytes for SHA-1, below [INT_MAX] for the codecs), and both sides of a key exchange
      agree.
    - Sockets: no interleaving of requests with the socket thread fails an assertion or leaves an event of a closed socket;
      packages of either priority leave a connection whole and in order, and a graceful close ends with everything written.
    - Sproto: what is packed unpacks to the same bytes, whatever the buffers, which are large enough; what is imported is a well-formed schema; a
      table that fits its type is encoded to the bytes of a reference and decoded again; the default table has every field.
    - Harbor: messages for another node, held back before the connection is made or sent over it, leave whole and in order; what comes in is forwarded
      message by message wherever it is cut; no block is left over.
    - Threads: with a worker waiting, a tick of the timer wakes one; when no service is left the process can always come to its end, and once the timer has ended
      the workers take finitely many steps more and none waits.
    - Clusters: requests and responses are read back as they were packed, in one piece or in parts; whatever bytes come, they are read within the string.
    - Shared memory: counts are exact and nothing is used after it is freed, but for one race of two readers, which is shown; the locks exclude under every interleaving.
    - Socket layer: each report of the socket server is typed and reaches the queue of the service that owns the socket, or leaves no memory behind.
    - Multicast: under every interleaving of the subscribers each reads what was published, and all of it is freed, once.
    - Shared configuration: the copy of a table of strings, numbers, booleans and tables has exactly its pairs for lookups and for walks, whatever the hashes of the keys.
    - BSON: a table is encoded to the bytes of a reference and decoded again; a field that is replaced gives the document of the new value.
    - Received data: whatever blocks arrive and whatever is taken off, each socket is a stream; a line ends at the first separator, and the shared pool loses no node.
    - Where the code does not do what it means to: lemmas that compute a run of it, such as [stm_reader_race] and [wide_key_overwrites].

    ** Not modelled

    The poll wrappers ([socket_epoll.h], [socket_kqueue.h]) pass calls on to the system; of the process start, what comes before the threads ([skynet_main.c], [skynet_daemon.c], the bootstrap); [service_snlua.c],
    [service_logger.c] and the remaining Lua bindings of [lualib-src] (those that pass socket calls on, the other databases,
    profiling, debugging) are not modelled: they wrap a Lua state, a file or a library; of sproto, the pool of the schema's memory and the printing of a schema are left out.  [malloc_hook.c] counts allocations.  Outside [RwLock] and [Stm] locks appear as
    the atomicity of the steps.

    This file is the prelude: notations for partial C code, fixed-width integers, arrays, loops and tactics. *)

From stdpp Require Export prelude gmap list numbers sorting strings.
From Stdlib Require Export ZArith Lia.
From Stdlib Require Export Zbitwise.

Global Open Scope Z_scope.

(** ** Partial C code

    A C function that can hit a failing [assert], an out-of-range array access
    or a null dereference returns [option]: [None] is that failure.  A boolean
    test guarding the rest of a computation is written [assert! b ;; k], and sequencing [let! p := m in k]. *)
Declare Scope c_scope.
Delimit Scope c_scope with C.
Notation "'assert!' b ;; k" := (if b%Z then k else None)
  (at level 100, b at level 99, k at level 200, right associativity,
   format "'[v' 'assert!'  b  ;; '/' k ']'") : c_scope.
Notation "'let!' p ':=' m 'in' k" := (match m with Some p => k | None => None end)
  (at level 100, p pattern, m at level 200, k at level 200, right associativity,
   format "'[v' 'let!'  p  ':='  m  'in' '/' k ']'") : c_scope.
Global Open Scope c_scope.

(** ** Fixed-width integers *)

Definition u8 (z : Z) : Z := z mod 2 ^ 8.
Definition u16 (z : Z) : Z := z mod 2 ^ 16.
Definition u32 (z : Z) : Z := z mod 2 ^ 32.
Definition u64 (z : Z) : Z := z mod 2 ^ 64.
Definition i32 (z : Z) : Z := (z + 2 ^ 31) mod 2 ^ 32 - 2 ^ 31.
Definition i64 (z : Z) : Z := (z + 2 ^ 63) mod 2 ^ 64 - 2 ^ 63.

Definition INT_MAX : Z := 2 ^ 31 - 1.

(** Constant powers of two are folded before calling [lia]. *)
Ltac zpow :=
  repeat match goal with
    | |- context [2 ^ Zpos ?p] =>
        let v := eval vm_compute in (2 ^ Zpos p) in change (2 ^ Zpos p) with v
    | H : context [2 ^ Zpos ?p] |- _ =>
        let v := eval vm_compute in (2 ^ Zpos p) in change (2 ^ Zpos p) with v in H
    end.
Ltac zlia := zpow; lia.

(** Boolean comparisons as propositions. *)
Ltac zbool :=
  repeat match goal with
    | H : (_ <? _) = true |- _ => apply Z.ltb_lt in H
    | H : (_ <? _) = false |- _ => apply Z.ltb_ge in H
    | H : (_ <=? _) = true |- _ => apply Z.leb_le in H
    | H : (_ <=? _) = false |- _ => apply Z.leb_gt in H
    | H : (_ >? _) = true |- _ => rewrite Z.gtb_ltb in H
    | H : (_ >? _) = false |- _ => rewrite Z.gtb_ltb in H
    | H : (_ >=? _) = true |- _ => rewrite Z.geb_leb in H
    | H : (_ >=? _) = false |- _ => rewrite Z.geb_leb in H
    | H : (_ =? _) = true |- _ => apply Z.eqb_eq in H
    | H : (_ =? _) = false |- _ => apply Z.eqb_neq in H
    | H : negb _ = true |- _ => apply negb_true_iff in H
    | H : negb _ = false |- _ => apply negb_false_iff in H
    | H : (_ && _) = true |- _ => apply andb_true_iff in H as [? ?]
    | H : (_ || _) = false |- _ => apply orb_false_iff in H as [? ?]
    | H : (_ && _) = false |- _ => apply andb_false_iff in H as [H|H]
    | H : (_ || _) = true |- _ => apply orb_true_iff in H as [H|H]
    | H : bool_decide _ = true |- _ => apply bool_decide_eq_true in H
    | H : bool_decide _ = false |- _ => apply bool_decide_eq_false in H
    end.
Ltac blia := zbool; lia.

(** Splits every boolean or option test of the goal, keeping the equation. *)
Ltac split_match :=
  match goal with
  | |- context [match ?x with _ => _ end] =>
      lazymatch x with
      | context [match _ with _ => _ end] => fail
      | _ => destruct x eqn:?
      end
  end.
Ltac split_match_in H :=
  match type of H with
  | context [match ?x with _ => _ end] =>
      lazymatch x with
      | context [match _ with _ => _ end] => fail
      | _ => destruct x eqn:?
      end
  end.

(** Inverts a successful run of a sequence of partial steps. *)
Ltac run_inv H := repeat (split_match_in H; try discriminate H); simplify_eq.

Create HintDb skynet discriminated.
#[export] Hint Extern 5 (_ <= _) => lia : skynet.
#[export] Hint Extern 5 (_ < _) => lia : skynet.
#[export] Hint Extern 5 (_ <= _ < _) => lia : skynet.
#[export] Hint Extern 5 ((_ <= _)%nat) => lia : skynet.
#[export] Hint Extern 5 ((_ < _)%nat) => lia : skynet.

Lemma u32_range z : 0 <= u32 z < 2 ^ 32.
Proof. unfold u32. apply Z.mod_pos_bound. lia. Qed.

Lemma u32_small z : 0 <= z < 2 ^ 32 -> u32 z = z.
Proof. unfold u32. apply Z.mod_small. Qed.

Lemma u8_range z : 0 <= u8 z < 256.
Proof. unfold u8. apply Z.mod_pos_bound. lia. Qed.

Lemma u8_small z : 0 <= z < 256 -> u8 z = z.
Proof. unfold u8. apply Z.mod_small. Qed.

Lemma u64_range z : 0 <= u64 z < 2 ^ 64.
Proof. unfold u64. apply Z.mod_pos_bound. lia. Qed.

Lemma u64_small z : 0 <= z < 2 ^ 64 -> u64 z = z.
Proof. unfold u64. apply Z.mod_small. Qed.

Lemma i32_range z : - 2 ^ 31 <= i32 z < 2 ^ 31.
Proof. unfold i32. pose proof (Z.mod_pos_bound (z + 2 ^ 31) (2 ^ 32)). zlia. Qed.

Lemma i32_small z : - 2 ^ 31 <= z < 2 ^ 31 -> i32 z = z.
Proof. intros. unfold i32. rewrite Z.mod_small; zlia. Qed.

Lemma i64_range z : - 2 ^ 63 <= i64 z < 2 ^ 63.
Proof. unfold i64. pose proof (Z.mod_pos_bound (z + 2 ^ 63) (2 ^ 64)). zlia. Qed.

Lemma i64_small z : - 2 ^ 63 <= z < 2 ^ 63 -> i64 z = z.
Proof. intros. unfold i64. rewrite Z.mod_small; zlia. Qed.

#[export] Hint Resolve u32_range u8_range u64_range i32_range i64_range : skynet.

Lemma land_low ct k : 0 <= k -> Z.land ct (2 ^ k - 1) = ct mod 2 ^ k.
Proof.
  intros. replace (2 ^ k - 1) with (Z.ones k) by (rewrite Z.ones_equiv; lia).
  by apply Z.land_ones.
Qed.

(** Disjoint bit fields are added. *)
Lemma lor_fields a b k : 0 <= k -> 0 <= a < 2 ^ k -> Z.lor a (b * 2 ^ k) = a + b * 2 ^ k.
Proof.
  intros Hk Ha. rewrite <- Z.add_lor_land.
  assert (Z.land a (b * 2 ^ k) = 0) as ->; [|lia].
  apply Z.bits_inj'. intros n Hn. rewrite Z.land_spec, Z.bits_0.
  destruct (Z.ltb_spec n k).
  - rewrite Z.mul_pow2_bits_low by lia. apply andb_false_r.
  - rewrite <- (Z.mod_small a (2 ^ k)) by lia. by rewrite Z.mod_pow2_bits_high by lia.
Qed.

Lemma lor_fields_up a b k j : 0 <= k -> 0 <= j -> 0 <= a < 2 ^ k ->
  Z.lor (a * 2 ^ j) (b * 2 ^ k * 2 ^ j) = (a + b * 2 ^ k) * 2 ^ j.
Proof. intros. rewrite <- !(Z.shiftl_mul_pow2 _ j) by done. by rewrite <- Z.shiftl_lor, lor_fields. Qed.

Lemma testbit_u32 x n : 0 <= n -> Z.testbit (u32 x) n = (n <? 32) && Z.testbit x n.
Proof.
  intros. unfold u32. destruct (Z.ltb_spec n 32); [by rewrite Z.mod_pow2_bits_low | by rewrite Z.mod_pow2_bits_high by lia].
Qed.

(** ** C arrays

    An array of [n] cells is a list of [n] values; an index is a C [int].
    Reads and writes outside the array fail. *)
Section Arrays.
Context {A : Type}.
Implicit Types (a : list A) (i : Z) (x : A).

Definition aget (a : list A) (i : Z) : option A :=
  if 0 <=? i then a !! Z.to_nat i else None.

Definition aset (a : list A) (i : Z) (x : A) : option (list A) :=
  if (0 <=? i) && (i <? Z.of_nat (length a)) then Some (<[Z.to_nat i := x]> a) else None.

Lemma aget_Some a i x : aget a i = Some x <-> 0 <= i /\ a !! Z.to_nat i = Some x.
Proof. unfold aget. destruct (Z.leb_spec 0 i); naive_solver lia. Qed.

Lemma aget_lt a i x : aget a i = Some x -> 0 <= i < Z.of_nat (length a).
Proof. rewrite aget_Some. intros [? ?%lookup_lt_Some]. lia. Qed.

Lemma aget_is_Some a i : 0 <= i < Z.of_nat (length a) -> is_Some (aget a i).
Proof.
  intros ?. unfold aget. destruct (Z.leb_spec 0 i); [|lia].
  apply lookup_lt_is_Some. lia.
Qed.

Lemma aget_nat a (n : nat) : aget a (Z.of_nat n) = a !! n.
Proof. unfold aget. destruct (Z.leb_spec 0 (Z.of_nat n)); [by rewrite Nat2Z.id | lia]. Qed.

Lemma aset_Some a i x : 0 <= i < Z.of_nat (length a) ->
  aset a i x = Some (<[Z.to_nat i := x]> a).
Proof.
  intros. unfold aset. destruct (Z.leb_spec 0 i), (Z.ltb_spec i (Z.of_nat (length a)));
    simpl; done || lia.
Qed.

Lemma aset_inv a i x a' : aset a i x = Some a' ->
  0 <= i < Z.of_nat (length a) /\ a' = <[Z.to_nat i := x]> a.
Proof.
  unfold aset. destruct (Z.leb_spec 0 i), (Z.ltb_spec i (Z.of_nat (length a)));
    simpl; naive_solver lia.
Qed.

Lemma aset_length a i x a' : aset a i x = Some a' -> length a' = length a.
Proof. intros [? ->]%aset_inv. apply length_insert. Qed.

Lemma aget_aset a i x a' j : aset a i x = Some a' ->
  aget a' j = if j =? i then Some x else aget a j.
Proof.
  intros [? ->]%aset_inv. unfold aget.
  destruct (Z.leb_spec 0 j), (Z.eqb_spec j i); subst; try lia; try done.
  - apply list_lookup_insert_eq. lia.
  - apply list_lookup_insert_ne. lia.
Qed.

Lemma aget_aset_eq a i x a' : aset a i x = Some a' -> aget a' i = Some x.
Proof. intros H. by rewrite (aget_aset _ _ _ _ i H), Z.eqb_refl. Qed.

Lemma aget_aset_ne a i x a' j : aset a i x = Some a' -> j <> i -> aget a' j = aget a j.
Proof. intros H ?. rewrite (aget_aset _ _ _ _ j H). by destruct (Z.eqb_spec j i). Qed.
End Arrays.

(** [mapM] over an index range reads the cells in order. *)
Lemma mapM_seqZ {B} (f : Z -> option B) (n : Z) :
  (forall i, 0 <= i < n -> is_Some (f i)) ->
  exists l, mapM f (seqZ 0 n) = Some l /\ length l = Z.to_nat n /\
    forall i, 0 <= i < n -> aget l i = f i.
Proof.
  intros Hf. destruct (mapM f (seqZ 0 n)) as [l|] eqn:E.
  - exists l. apply mapM_Some in E.
    assert (length l = Z.to_nat n) as Hl
      by (rewrite <- (Forall2_length _ _ _ E), length_seqZ; done).
    split_and!; [done..|]. intros i Hi.
    destruct (aget_is_Some l i ltac:(lia)) as [y Hy]. rewrite Hy.
    apply aget_Some in Hy as [_ Hy].
    destruct (Forall2_lookup_r _ _ _ _ _ E Hy) as (x & Hx & <-).
    apply lookup_seqZ in Hx as [-> ?]. f_equal. lia.
  - exfalso. assert (is_Some (mapM f (seqZ 0 n))) as [? ?]; [|congruence].
    apply mapM_is_Some, Forall_forall. intros i Hi%elem_of_seqZ. apply Hf. lia.
Qed.

(** ** Counted loops

    [for_loop n i body s] runs [body] for [i], [i + 1], ..., [i + n - 1]; it fails
    as soon as the body fails. *)
Fixpoint for_loop {St} (n : nat) (i : Z) (body : Z -> St -> option St) (s : St) : option St :=
  match n with
  | O => Some s
  | S n => let! s := body i s in for_loop n (i + 1) body s
  end.

Lemma for_loop_inv {St} (P : Z -> St -> Prop) n i body s :
  P i s ->
  (forall j s, i <= j < i + Z.of_nat n -> P j s -> exists s', body j s = Some s' /\ P (j + 1) s') ->
  exists s', for_loop n i body s = Some s' /\ P (i + Z.of_nat n) s'.
Proof.
  revert i s. induction n as [|n IH]; intros i s Hs Hb; simpl.
  - exists s. by rewrite Z.add_0_r.
  - destruct (Hb i s) as (s1 & -> & H1); [lia | done |].
    destruct (IH (i + 1) s1 H1) as (s' & -> & Hs'); [intros; apply Hb; auto; lia|].
    exists s'. split; [done|]. replace (i + Z.of_nat (S n)) with (i + 1 + Z.of_nat n) by lia. done.
Qed.

Lemma aget_ext {A} (a b : list A) : length a = length b ->
  (forall i, 0 <= i < Z.of_nat (length a) -> aget a i = aget b i) -> a = b.
Proof.
  intros Hl Hi. apply list_eq_same_length with (n := length b); [done..|].
  intros i x y Hlt Ha Hb. specialize (Hi (Z.of_nat i)). rewrite !aget_nat in Hi.
  rewrite Ha, Hb in Hi. assert (Some x = Some y) by (apply Hi; lia). congruence.
Qed.

Lemma aget_app_l {A} (a b : list A) i : i < Z.of_nat (length a) -> aget (a ++ b) i = aget a i.
Proof. intros. unfold aget. destruct (Z.leb_spec 0 i); [|done]. apply lookup_app_l. lia. Qed.

Lemma aget_app_r {A} (a b : list A) i : Z.of_nat (length a) <= i ->
  aget (a ++ b) i = aget b (i - Z.of_nat (length a)).
Proof.
  intros. unfold aget. destruct (Z.leb_spec 0 i), (Z.leb_spec 0 (i - Z.of_nat (length a))); try lia.
  rewrite lookup_app_r by lia. f_equal. lia.
Qed.

Lemma aget_mid {A} (a b : list A) x : aget (a ++ x :: b) (Z.of_nat (length a)) = Some x.
Proof. rewrite aget_nat, lookup_app_r, Nat.sub_diag by lia. done. Qed.

Lemma aset_mid {A} (a b : list A) x y :
  aset (a ++ x :: b) (Z.of_nat (length a)) y = Some (a ++ y :: b).
Proof.
  rewrite aset_Some by (rewrite length_app; simpl; lia). rewrite Nat2Z.id.
  by rewrite insert_app_r_alt, Nat.sub_diag by lia.
Qed.

(** ** Lists *)

Lemma snoc_split {B} (l l1 l2 : list B) x y : l ++ [x] = l1 ++ y :: l2 ->
  (l1 = l /\ y = x /\ l2 = []) \/ (exists l2', l2 = l2' ++ [x] /\ l = l1 ++ y :: l2').
Proof.
  destruct l2 as [|z l2 _] using rev_ind.
  - intros [-> [= ->]]%app_inj_2; [auto | done].
  - rewrite app_comm_cons, app_assoc. intros [-> [= ->]]%app_inj_2; [|done]. eauto.
Qed.

Lemma NoDup_snoc {B} (l : list B) x : NoDup (l ++ [x]) <-> NoDup l /\ x ∉ l.
Proof.
  rewrite NoDup_app. split; [intros (? & H & _) | intros [? ?]; split_and!].
  - split; [done|]. intros Hx. apply (H _ Hx). set_solver.
  - done.
  - intros y Hy ->%list_elem_of_singleton. done.
  - apply NoDup_singleton.
Qed.

Lemma NoDup_mid {B} (l1 l2 l1' l2' : list B) x : NoDup (l1 ++ x :: l2) ->
  l1 ++ x :: l2 = l1' ++ x :: l2' -> l1 = l1' /\ l2 = l2'.
Proof.
  revert l1'. induction l1 as [|a l1 IH]; intros [|b l1'] Hnd E; simplify_eq/=.
  - done.
  - apply NoDup_cons in Hnd as [Hx _]. set_solver.
  - apply NoDup_cons in Hnd as [Hx _]. set_solver.
  - apply NoDup_cons in Hnd as [_ Hnd]. edestruct IH as [-> ->]; [exact Hnd | eassumption | done].
Qed.
