(* ===== verification/Message.v ===== *)
(** * Messages ([skynet-src/skynet.h], [skynet-src/skynet_mq.h])

    The message record, the message types, and the encoding of the type in the
    top byte of the size field of a 64-bit [size_t]. *)

From S2P Require Import Prelude.

Definition PTYPE_TEXT : Z := 0.
Definition PTYPE_RESPONSE : Z := 1.
Definition PTYPE_MULTICAST : Z := 2.
Definition PTYPE_CLIENT : Z := 3.
Definition PTYPE_SYSTEM : Z := 4.
Definition PTYPE_HARBOR : Z := 5.
Definition PTYPE_SOCKET : Z := 6.
Definition PTYPE_ERROR : Z := 7.

Definition GLOBALNAME_LENGTH : Z := 16.

Definition SKYNET_SOCKET_TYPE_DATA : Z := 1.
Definition SKYNET_SOCKET_TYPE_CONNECT : Z := 2.
Definition SKYNET_SOCKET_TYPE_CLOSE : Z := 3.
Definition SKYNET_SOCKET_TYPE_ACCEPT : Z := 4.
Definition SKYNET_SOCKET_TYPE_ERROR : Z := 5.
Definition SKYNET_SOCKET_TYPE_WARNING : Z := 7.

Definition PTYPE_TAG_DONTCOPY : Z := 0x10000.
Definition PTYPE_TAG_ALLOCSESSION : Z := 0x20000.

Definition SIZE_MAX : Z := 2 ^ 64 - 1.
Definition MESSAGE_TYPE_MASK : Z := Z.shiftr SIZE_MAX 8.
Definition MESSAGE_TYPE_SHIFT : Z := (8 - 1) * 8.

(** [data] is the address of the payload, 0 for [NULL]. *)
Record skynet_message := Msg {
  source : Z;
  session : Z;
  data : Z;
  sz : Z;
}.

#[export] Instance skynet_message_eq_dec : EqDecision skynet_message.
Proof. solve_decision. Defined.

(** [sz | (size_t)type << MESSAGE_TYPE_SHIFT], and its two projections. *)
Definition message_sz (sz type : Z) : Z := Z.lor sz (u64 (Z.shiftl type MESSAGE_TYPE_SHIFT)).
Definition message_type (sz : Z) : Z := Z.shiftr sz MESSAGE_TYPE_SHIFT.
Definition message_size (sz : Z) : Z := Z.land sz MESSAGE_TYPE_MASK.

(** The response message a timer sends. *)
Definition timer_message (session : Z) : skynet_message :=
  Msg 0 session 0 (u64 (Z.shiftl PTYPE_RESPONSE MESSAGE_TYPE_SHIFT)).

(** ** Pushing a message to a service by handle

    What [skynet_context_push] offers to its clients (the timer, the socket
    server, the monitor): a result, 0 for success, and a new state of the rest of
    the system. *)
Class ContextPush (W : Type) := context_push : Z -> skynet_message -> W -> Z * W.

(** A log of the pushed messages: the simplest such system. *)
#[export] Instance log_push : ContextPush (list (Z * skynet_message)) :=
  fun handle m w => (0, w ++ [(handle, m)]).

Lemma mask_mod z : Z.land z MESSAGE_TYPE_MASK = z mod 2 ^ 56.
Proof. change MESSAGE_TYPE_MASK with (Z.ones 56). apply Z.land_ones. lia. Qed.

Lemma message_sz_add sz type : 0 <= sz < 2 ^ 56 -> 0 <= type < 256 ->
  message_sz sz type = sz + type * 2 ^ 56.
Proof.
  intros. unfold message_sz, MESSAGE_TYPE_SHIFT. rewrite Z.shiftl_mul_pow2 by lia.
  change ((8 - 1) * 8) with 56. rewrite u64_small by zlia.
  apply lor_fields; lia.
Qed.

Lemma message_sz_type sz type : 0 <= sz < 2 ^ 56 -> 0 <= type < 256 ->
  message_type (message_sz sz type) = type.
Proof.
  intros. rewrite message_sz_add by done. unfold message_type, MESSAGE_TYPE_SHIFT.
  rewrite Z.shiftr_div_pow2 by lia. change ((8 - 1) * 8) with 56.
  rewrite Z.div_add, Z.div_small by lia. lia.
Qed.

Lemma message_sz_size sz type : 0 <= sz < 2 ^ 56 -> 0 <= type < 256 ->
  message_size (message_sz sz type) = sz.
Proof.
  intros. rewrite message_sz_add by done. unfold message_size. rewrite mask_mod.
  rewrite Z.mod_add by lia. by apply Z.mod_small.
Qed.
