(* ===== verification/Ring.v ===== *)
(** * Ring buffers

    Both [skynet-src/skynet_mq.c] (one queue of messages per service) and
    [lualib-src/lua-netpack.c] (the queue of complete packets) keep a circular
    array with a [head] and a [tail] index and grow it when it fills up.  This
    file relates such an array to the list of its live elements. *)

From S2P Require Import Prelude.

(** Indices wrap at most once. *)
Lemma mod_wrap x c : 0 <= x < 2 * c -> x mod c = if x <? c then x else x - c.
Proof.
  intros. destruct (Z.ltb_spec x c).
  - apply Z.mod_small. lia.
  - symmetry. apply (Z.mod_unique_pos _ _ 1); lia.
Qed.

Lemma ring_succ h c : 0 <= h < c -> (if h + 1 >=? c then 0 else h + 1) = (h + 1) mod c.
Proof. intros. rewrite mod_wrap by lia. repeat case_match; lia. Qed.

Section Ring.
Context {A : Type}.
Implicit Types (buf : list (option A)) (h t : Z) (l : list A).

(** The cells of [buf] from [h] on, wrapping at the end, hold [l].  A cell is
    [None] while it is uninitialised memory. *)
Definition ring_seg (buf : list (option A)) (h : Z) (l : list A) : Prop :=
  0 <= h < Z.of_nat (length buf) /\ (length l <= length buf)%nat /\
  forall i x, l !! i = Some x ->
    aget buf ((h + Z.of_nat i) mod Z.of_nat (length buf)) = Some (Some x).

(** A ring never fills completely between operations, so that [head = tail]
    means empty. *)
Definition ring_rep (buf : list (option A)) (h t : Z) (l : list A) : Prop :=
  ring_seg buf h l /\ (length l < length buf)%nat /\
  t = (h + Z.of_nat (length l)) mod Z.of_nat (length buf).

Lemma ring_rep_nil n : (0 < n)%nat -> ring_rep (replicate n (@None A)) 0 0 [].
Proof.
  intros. unfold ring_rep, ring_seg. rewrite length_replicate. simpl.
  repeat split; try lia; naive_solver.
Qed.

Lemma ring_rep_len buf h t l : ring_rep buf h t l ->
  Z.of_nat (length l) = if h <=? t then t - h else t + Z.of_nat (length buf) - h.
Proof.
  intros ((?&_&_)&?&->). rewrite mod_wrap by lia.
  repeat case_match; lia.
Qed.

Lemma ring_rep_tail_range buf h t l : ring_rep buf h t l -> 0 <= t < Z.of_nat (length buf).
Proof. intros ((?&_&_)&?&->). apply Z.mod_pos_bound. lia. Qed.

Lemma ring_rep_empty buf h t l : ring_rep buf h t l -> h = t <-> l = [].
Proof.
  intros H. pose proof (ring_rep_len _ _ _ _ H). pose proof (ring_rep_tail_range _ _ _ _ H).
  destruct H as ((?&_&_)&?&_).
  split; [|intros ->; simpl in *; case_match; lia].
  intros ->. apply length_zero_iff_nil. case_match; lia.
Qed.

Lemma ring_seg_snoc buf h l x buf' : ring_seg buf h l -> (length l < length buf)%nat ->
  aset buf ((h + Z.of_nat (length l)) mod Z.of_nat (length buf)) (Some x) = Some buf' ->
  ring_seg buf' h (l ++ [x]).
Proof.
  intros (?&?&Hc) ? Hs. pose proof (aset_length _ _ _ _ Hs) as Hl.
  unfold ring_seg. rewrite Hl, length_app. simpl.
  repeat split; try lia. intros i y [Hi|[Hge Hi]]%lookup_app_Some.
  - rewrite (aget_aset_ne _ _ _ _ _ Hs); [by apply Hc|].
    apply lookup_lt_Some in Hi. rewrite !mod_wrap by lia. repeat case_match; lia.
  - apply list_lookup_singleton_Some in Hi as [Hi ->].
    replace i with (length l) by lia. by apply (aget_aset_eq _ _ _ _ Hs).
Qed.

Lemma ring_seg_head buf h x l : ring_seg buf h (x :: l) -> aget buf h = Some (Some x).
Proof.
  intros (?&_&Hc). rewrite <- (Hc O x eq_refl). f_equal.
  rewrite Z.add_0_r. symmetry. by apply Z.mod_small.
Qed.

Lemma ring_seg_rest buf h x l : ring_seg buf h (x :: l) ->
  ring_seg buf ((h + 1) mod Z.of_nat (length buf)) l.
Proof.
  intros (?&Hl&Hc). simpl in Hl. split; [|split].
  - apply Z.mod_pos_bound. lia.
  - lia.
  - intros i y Hi. rewrite <- (Hc (S i) y Hi). f_equal.
    rewrite Z.add_mod_idemp_l by lia. f_equal. lia.
Qed.

(** Copying the cells of a segment in order to the start of a longer array. *)
Lemma ring_seg_copy buf h l buf' : ring_seg buf h l ->
  (length l < length buf')%nat ->
  (forall i, (i < length l)%nat ->
     aget buf' (Z.of_nat i) = aget buf ((h + Z.of_nat i) mod Z.of_nat (length buf))) ->
  ring_seg buf' 0 l.
Proof.
  intros (?&?&Hc) ? He. split; [lia|split; [lia|]]. intros i x Hi.
  pose proof (lookup_lt_Some _ _ _ Hi).
  rewrite Z.mod_small by lia. rewrite Z.add_0_l, He by lia. by apply Hc.
Qed.

Lemma ring_rep_fun buf h t l l' : ring_rep buf h t l -> ring_rep buf h t l' -> l = l'.
Proof.
  intros H H'. pose proof (ring_rep_len _ _ _ _ H). pose proof (ring_rep_len _ _ _ _ H').
  destruct H as ((?&_&Hc)&?&_), H' as ((?&_&Hc')&?&_).
  apply list_eq_same_length with (n := length l); [lia|lia|].
  intros i x y ? Hx Hy. apply Hc in Hx. apply Hc' in Hy. congruence.
Qed.
End Ring.

#[export] Hint Resolve ring_rep_tail_range : skynet.
