(* ===== verification/MQ.v ===== *)
(** * Message queues ([skynet-src/skynet_mq.c])

    Every service owns a [message_queue], a ring buffer of messages; the queues
    that have work are linked through their [next] field into one global queue
    from which the worker threads take them.  Queues live in a heap of addresses
    ([positive]); each operation runs under the queue's or the global spinlock
    and is therefore one atomic function on the heap. *)

From S2P Require Import Prelude Ring Message.

Definition DEFAULT_QUEUE_SIZE : Z := 64.
Definition MQ_IN_GLOBAL : Z := 1.
Definition MQ_OVERLOAD : Z := 1024.

Record message_queue := MkMQ {
  mq_handle : Z;
  mq_cap : Z;
  mq_head : Z;
  mq_tail : Z;
  mq_release : Z;
  mq_in_global : Z;
  mq_overload : Z;
  mq_overload_threshold : Z;
  mq_queue : list (option skynet_message);
  mq_next : option positive;
}.

(** The heap of queues, with the [head] and [tail] of the global queue [Q]. *)
Record mq_state := MkMQState {
  Q_head : option positive;
  Q_tail : option positive;
  mqs : gmap positive message_queue;
}.

(** ** Field updates *)

Definition set_next (n : option positive) (q : message_queue) : message_queue :=
  MkMQ (mq_handle q) (mq_cap q) (mq_head q) (mq_tail q) (mq_release q) (mq_in_global q)
       (mq_overload q) (mq_overload_threshold q) (mq_queue q) n.

Definition set_in_global (g : Z) (q : message_queue) : message_queue :=
  MkMQ (mq_handle q) (mq_cap q) (mq_head q) (mq_tail q) (mq_release q) g
       (mq_overload q) (mq_overload_threshold q) (mq_queue q) (mq_next q).

Definition set_release (r : Z) (q : message_queue) : message_queue :=
  MkMQ (mq_handle q) (mq_cap q) (mq_head q) (mq_tail q) r (mq_in_global q)
       (mq_overload q) (mq_overload_threshold q) (mq_queue q) (mq_next q).

Definition set_overload (o : Z) (q : message_queue) : message_queue :=
  MkMQ (mq_handle q) (mq_cap q) (mq_head q) (mq_tail q) (mq_release q) (mq_in_global q)
       o (mq_overload_threshold q) (mq_queue q) (mq_next q).

(** Replaces the ring part of a queue: capacity, indices and cells. *)
Definition set_ring (c h t : Z) (cells : list (option skynet_message)) (q : message_queue)
  : message_queue :=
  MkMQ (mq_handle q) c h t (mq_release q) (mq_in_global q)
       (mq_overload q) (mq_overload_threshold q) cells (mq_next q).

Definition set_overload_threshold (o thr : Z) (q : message_queue) : message_queue :=
  MkMQ (mq_handle q) (mq_cap q) (mq_head q) (mq_tail q) (mq_release q) (mq_in_global q)
       o thr (mq_queue q) (mq_next q).

(** Writes a queue back to the heap. *)
Definition store (p : positive) (q : message_queue) (w : mq_state) : mq_state :=
  MkMQState (Q_head w) (Q_tail w) (<[p := q]> (mqs w)).

(** ** The global queue *)

Definition skynet_globalmq_push (queue : positive) (w : mq_state) : option mq_state :=
  let! q := mqs w !! queue in
  assert! bool_decide (mq_next q = None) ;;
  match Q_tail w with
  | Some t =>
      let! tq := mqs w !! t in
      Some (MkMQState (Q_head w) (Some queue) (<[t := set_next (Some queue) tq]> (mqs w)))
  | None => Some (MkMQState (Some queue) (Some queue) (mqs w))
  end.

Definition skynet_globalmq_pop (w : mq_state) : option (option positive * mq_state) :=
  match Q_head w with
  | Some p =>
      let! mq := mqs w !! p in
      match mq_next mq with
      | Some h =>
          Some (Some p, MkMQState (Some h) (Q_tail w) (<[p := set_next None mq]> (mqs w)))
      | None =>
          assert! bool_decide (Q_tail w = Some p) ;;
          Some (Some p, MkMQState None None (<[p := set_next None mq]> (mqs w)))
      end
  | None => Some (None, w)
  end.

(** [skynet_malloc] returns some unused address [p]. *)
Definition skynet_mq_create (p : positive) (handle : Z) (w : mq_state) : option mq_state :=
  assert! bool_decide (mqs w !! p = None) ;;
  Some (store p
    (MkMQ handle DEFAULT_QUEUE_SIZE 0 0 0 MQ_IN_GLOBAL 0 MQ_OVERLOAD
       (replicate (Z.to_nat DEFAULT_QUEUE_SIZE) None) None) w).

Definition skynet_mq_init : mq_state := MkMQState None None ∅.

Definition _release (p : positive) (w : mq_state) : option mq_state :=
  let! q := mqs w !! p in
  assert! bool_decide (mq_next q = None) ;;
  Some (MkMQState (Q_head w) (Q_tail w) (delete p (mqs w))).

Definition skynet_mq_handle (q : message_queue) : Z := mq_handle q.

(** ** One service queue *)

Definition skynet_mq_length (q : message_queue) : Z :=
  if mq_head q <=? mq_tail q then mq_tail q - mq_head q
  else mq_tail q + mq_cap q - mq_head q.

Definition skynet_mq_overload (q : message_queue) : Z * message_queue :=
  if negb (mq_overload q =? 0) then (mq_overload q, set_overload 0 q) else (0, q).

(** [while (length > q->overload_threshold)]: [None] when the fuel runs out. *)
Fixpoint overload_loop (fuel : nat) (length overload threshold : Z) : option (Z * Z) :=
  if length >? threshold then
    match fuel with
    | O => None
    | S fuel => overload_loop fuel length length (threshold * 2)
    end
  else Some (overload, threshold).

(** The body of [skynet_mq_pop] on the fields of the queue: the returned flag
    (0 for success), the message, and the queue afterwards. *)
Definition mq_pop_fields (q : message_queue)
  : option (Z * option skynet_message * message_queue) :=
  if negb (mq_head q =? mq_tail q) then
    let! cell := aget (mq_queue q) (mq_head q) in
    let! message := cell in
    let head := mq_head q + 1 in
    let head := if head >=? mq_cap q then 0 else head in
    let length := mq_tail q - head in
    let length := if length <? 0 then length + mq_cap q else length in
    let! (overload, threshold) :=
      overload_loop (Z.to_nat length) length (mq_overload q) (mq_overload_threshold q) in
    Some (0, Some message,
      set_overload_threshold overload threshold
        (set_ring (mq_cap q) head (mq_tail q) (mq_queue q) q))
  else
    Some (1, None, set_in_global 0 (set_overload_threshold (mq_overload q) MQ_OVERLOAD q)).

Definition skynet_mq_pop (p : positive) (w : mq_state)
  : option (Z * option skynet_message * mq_state) :=
  let! q := mqs w !! p in
  let! (ret, message, q') := mq_pop_fields q in
  Some (ret, message, store p q' w).

Definition expand_queue (q : message_queue) : option message_queue :=
  let! cells := mapM (fun i => aget (mq_queue q) ((mq_head q + i) mod mq_cap q))
                     (seqZ 0 (mq_cap q)) in
  Some (set_ring (mq_cap q * 2) 0 (mq_cap q)
          (cells ++ replicate (Z.to_nat (mq_cap q)) None) q).

(** The ring part of [skynet_mq_push]. *)
Definition mq_push_fields (q : message_queue) (message : skynet_message)
  : option message_queue :=
  let! cells := aset (mq_queue q) (mq_tail q) (Some message) in
  let tail := mq_tail q + 1 in
  let tail := if tail >=? mq_cap q then 0 else tail in
  let q := set_ring (mq_cap q) (mq_head q) tail cells q in
  if mq_head q =? mq_tail q then expand_queue q else Some q.

Definition skynet_mq_push (p : positive) (message : skynet_message) (w : mq_state)
  : option mq_state :=
  let! q := mqs w !! p in
  let! q := mq_push_fields q message in
  if mq_in_global q =? 0 then
    skynet_globalmq_push p (store p (set_in_global MQ_IN_GLOBAL q) w)
  else Some (store p q w).

Definition skynet_mq_mark_release (p : positive) (w : mq_state) : option mq_state :=
  let! q := mqs w !! p in
  assert! (mq_release q =? 0) ;;
  let w := store p (set_release 1 q) w in
  if negb (mq_in_global q =? MQ_IN_GLOBAL) then skynet_globalmq_push p w else Some w.

(** ** Dropping a queue

    [drop_func] runs arbitrary code on the state of the whole system (it sends an error message
    to the source of the dropped message), of which the queues are a part. *)
Class HasMQ (W : Type) := {
  mq_of : W -> mq_state;
  with_mq : mq_state -> W -> W;
  mq_of_with w s : mq_of (with_mq s w) = s;
}.

#[export, refine] Instance mq_state_has_mq : HasMQ mq_state := {| mq_of w := w; with_mq s _ := s |}.
Proof. done. Defined.

Section Drop.
Context {W : Type} `{!HasMQ W}.

(** The messages [drop_func] is called on, in order, are returned beside the state. *)
Fixpoint _drop_queue (fuel : nat) (p : positive)
  (drop_func : skynet_message -> W -> option W) (w : W) : option (list skynet_message * W) :=
  match fuel with
  | O => None
  | S fuel =>
      let! (ret, message, s) := skynet_mq_pop p (mq_of w) in
      let w := with_mq s w in
      if ret =? 0 then
        let! msg := message in
        let! w := drop_func msg w in
        let! (dropped, w) := _drop_queue fuel p drop_func w in
        Some (msg :: dropped, w)
      else
        let! s := _release p (mq_of w) in
        Some ([], with_mq s w)
  end.

Definition skynet_mq_release (fuel : nat) (p : positive)
  (drop_func : skynet_message -> W -> option W) (w : W) : option (list skynet_message * W) :=
  let! q := mqs (mq_of w) !! p in
  if negb (mq_release q =? 0) then _drop_queue fuel p drop_func w
  else
    let! s := skynet_globalmq_push p (mq_of w) in
    Some ([], with_mq s w).
End Drop.

(** ** A queue as the list of its pending messages *)

Definition mq_rep (q : message_queue) (l : list skynet_message) : Prop :=
  mq_cap q = Z.of_nat (length (mq_queue q)) /\
  ring_rep (mq_queue q) (mq_head q) (mq_tail q) l /\
  1 <= mq_overload_threshold q.

Lemma mq_rep_fun q l l' : mq_rep q l -> mq_rep q l' -> l = l'.
Proof. intros (_ & H & _) (_ & H' & _). eapply ring_rep_fun; eauto. Qed.

(** Updates outside the ring keep the content. *)
Lemma mq_rep_set_next n q l : mq_rep (set_next n q) l <-> mq_rep q l.
Proof. reflexivity. Qed.
Lemma mq_rep_set_in_global g q l : mq_rep (set_in_global g q) l <-> mq_rep q l.
Proof. reflexivity. Qed.
Lemma mq_rep_set_release r q l : mq_rep (set_release r q) l <-> mq_rep q l.
Proof. reflexivity. Qed.

Lemma overload_loop_spec fuel length overload threshold :
  1 <= threshold -> length <= threshold + Z.of_nat fuel ->
  exists overload' threshold',
    overload_loop fuel length overload threshold = Some (overload', threshold') /\
    length <= threshold' /\ 1 <= threshold' /\
    (length <= threshold -> overload' = overload /\ threshold' = threshold) /\
    (threshold < length -> overload' = length /\ threshold' < 2 * length).
Proof.
  revert overload threshold. induction fuel as [|fuel IH]; intros o thr ? ?; simpl;
    destruct (Z.gtb_spec length thr); try lia.
  - exists o, thr. split_and!; done || lia.
  - destruct (IH length (thr * 2)) as (o' & thr' & -> & ? & ? & Hle & Hgt); [lia..|].
    exists o', thr'. split_and!; done || lia.
  - exists o, thr. split_and!; done || lia.
Qed.

Lemma skynet_mq_length_rep q l : mq_rep q l -> skynet_mq_length q = Z.of_nat (length l).
Proof.
  intros (Hc & Hr & _). unfold skynet_mq_length. rewrite Hc.
  by rewrite (ring_rep_len _ _ _ _ Hr).
Qed.

Lemma mq_pop_fields_nil q : mq_rep q [] ->
  mq_pop_fields q =
    Some (1, None, set_in_global 0 (set_overload_threshold (mq_overload q) MQ_OVERLOAD q)).
Proof.
  intros (_ & Hr & _). unfold mq_pop_fields.
  apply ring_rep_empty in Hr as [_ Hr]. rewrite Hr by done. by rewrite Z.eqb_refl.
Qed.

Lemma mq_pop_fields_cons q m l : mq_rep q (m :: l) ->
  exists q', mq_pop_fields q = Some (0, Some m, q') /\ mq_rep q' l /\
    mq_cap q' = mq_cap q /\ mq_handle q' = mq_handle q /\ mq_release q' = mq_release q /\
    mq_in_global q' = mq_in_global q /\ mq_next q' = mq_next q /\
    Z.of_nat (length l) <= mq_overload_threshold q' /\
    (mq_overload_threshold q < Z.of_nat (length l) ->
       mq_overload q' = Z.of_nat (length l) /\
       mq_overload_threshold q' < 2 * Z.of_nat (length l)) /\
    (Z.of_nat (length l) <= mq_overload_threshold q ->
       mq_overload q' = mq_overload q /\ mq_overload_threshold q' = mq_overload_threshold q).
Proof.
  intros (Hc & Hr & Ht).
  pose proof (ring_rep_tail_range _ _ _ _ Hr). pose proof (ring_rep_empty _ _ _ _ Hr) as He.
  destruct Hr as (Hseg & Hlen & Htail). pose proof Hseg as (Hh & _ & _).
  unfold mq_pop_fields. destruct (Z.eqb_spec (mq_head q) (mq_tail q)) as [E|E]; simpl.
  { apply He in E. discriminate. }
  rewrite (ring_seg_head _ _ _ _ Hseg).
  set (h' := if _ >=? _ then _ else _).
  assert (h' = (mq_head q + 1) mod Z.of_nat (length (mq_queue q))) as Hh'.
  { unfold h'. rewrite Hc. by apply ring_succ. }
  assert (ring_rep (mq_queue q) h' (mq_tail q) l) as Hr'.
  { rewrite Hh'. split; [by eapply ring_seg_rest|]. simpl in Hlen. split; [lia|].
    rewrite Htail, Z.add_mod_idemp_l by lia. f_equal. simpl. lia. }
  pose proof (ring_rep_len _ _ _ _ Hr') as Hl.
  set (n := if _ <? 0 then _ else _).
  assert (n = Z.of_nat (length l)) as ->.
  { unfold n. rewrite Hc. repeat case_match; lia. }
  destruct (overload_loop_spec (Z.to_nat (Z.of_nat (length l))) (Z.of_nat (length l))
              (mq_overload q) (mq_overload_threshold q)) as (o' & t' & -> & ? & ? & ? & ?); [lia..|].
  eexists. split; [reflexivity|]. split; [by split; [|split]|]. by split_and!.
Qed.

Lemma expand_queue_spec q l : 0 < mq_cap q ->
  mq_cap q = Z.of_nat (length (mq_queue q)) ->
  ring_seg (mq_queue q) (mq_head q) l -> length l = length (mq_queue q) ->
  1 <= mq_overload_threshold q ->
  exists q', expand_queue q = Some q' /\ mq_rep q' l /\ mq_cap q' = 2 * mq_cap q /\
    mq_handle q' = mq_handle q /\ mq_release q' = mq_release q /\
    mq_in_global q' = mq_in_global q /\ mq_next q' = mq_next q.
Proof.
  intros Hpos Hc Hseg Hl Ht. unfold expand_queue.
  destruct (mapM_seqZ (fun i => aget (mq_queue q) ((mq_head q + i) mod mq_cap q)) (mq_cap q))
    as (cells & -> & Hlc & Hcell).
  { intros i _. apply aget_is_Some. rewrite <- Hc. apply Z.mod_pos_bound. lia. }
  eexists. split; [reflexivity|]. unfold mq_rep, ring_rep. simpl.
  rewrite length_app, length_replicate. split_and!; try done; try lia.
  - eapply ring_seg_copy; [exact Hseg | rewrite length_app, length_replicate; lia |].
    intros i Hi. rewrite aget_nat, lookup_app_l by lia. rewrite <- aget_nat, Hcell by lia.
    by rewrite <- Hc.
  - rewrite Z.mod_small; lia.
Qed.

Lemma mq_push_fields_spec q l m : mq_rep q l ->
  exists q', mq_push_fields q m = Some q' /\ mq_rep q' (l ++ [m]) /\
    mq_handle q' = mq_handle q /\ mq_release q' = mq_release q /\
    mq_in_global q' = mq_in_global q /\ mq_next q' = mq_next q /\
    (mq_cap q' = mq_cap q \/ mq_cap q' = 2 * Z.of_nat (length (l ++ [m]))).
Proof.
  intros (Hc & Hr & Ht). pose proof (ring_rep_tail_range _ _ _ _ Hr).
  destruct Hr as (Hseg & Hlen & Htail). pose proof Hseg as (Hh & _ & _).
  unfold mq_push_fields. rewrite aset_Some by lia.
  set (cells := <[_ := _]> _). set (t' := if _ >=? _ then _ else _).
  assert (aset (mq_queue q) (mq_tail q) (Some m) = Some cells) as Hset by (by apply aset_Some).
  assert (length cells = length (mq_queue q)) as Hcl by (apply length_insert).
  assert (ring_seg cells (mq_head q) (l ++ [m])) as Hseg'.
  { rewrite Htail in Hset. by eapply ring_seg_snoc. }
  assert (t' = (mq_head q + Z.of_nat (length (l ++ [m]))) mod Z.of_nat (length cells)) as Ht'.
  { unfold t'. rewrite Hc, ring_succ, Htail, Hcl, length_app by lia.
    rewrite Z.add_mod_idemp_l by lia. f_equal. simpl. lia. }
  rewrite length_app in Ht'. simpl in *.
  destruct (Z.eqb_spec (mq_head q) t') as [E|E].
  - assert (length (l ++ [m]) = length cells) as Hfull.
    { rewrite length_app. simpl. rewrite mod_wrap in Ht' by lia.
      case_match; lia. }
    destruct (expand_queue_spec
      (set_ring (mq_cap q) (mq_head q) t' cells q) (l ++ [m])) as (q' & Hq' & Hrep & Hcap & ?); simpl in *;
      [lia..|done|done|lia|].
    exists q'. split; [exact Hq'|]. split; [done|]. rewrite Hfull, Hcap, Hc, Hcl. destruct_and!. split_and!; auto.
  - eexists. split; [reflexivity|]. unfold mq_rep, ring_rep. simpl.
    rewrite length_app, Hcl. simpl. split_and!; try done; try lia.
    + destruct (decide (S (length l) = length (mq_queue q))); [|lia].
      exfalso. apply E. rewrite Ht', Hcl, mod_wrap by lia. case_match; blia.
    + by rewrite Ht', Hcl.
Qed.

(** ** The global queue as the list of the addresses it links *)

Record gq_rep (w : mq_state) (l : list positive) : Prop := {
  gq_nodup : NoDup l;
  gq_head : Q_head w = head l;
  gq_tail : Q_tail w = last l;
  gq_link : forall l1 p l2, l = l1 ++ p :: l2 ->
    exists q, mqs w !! p = Some q /\ mq_next q = head l2;
  gq_off : forall p q, mqs w !! p = Some q -> p ∉ l -> mq_next q = None;
}.

(** A queue without its link field: what the global queue never changes. *)
Definition payload (w : mq_state) (p : positive) : option message_queue :=
  set_next None <$> mqs w !! p.

Lemma payload_Some w p q : mqs w !! p = Some q -> payload w p = Some (set_next None q).
Proof. unfold payload. by intros ->. Qed.

Lemma payload_inv w p q : payload w p = Some q ->
  exists q', mqs w !! p = Some q' /\ q = set_next None q'.
Proof. unfold payload. destruct (mqs w !! p); naive_solver. Qed.

(** Relinking one queue changes no payload. *)
Lemma payload_relink h t w p q n r : mqs w !! p = Some q ->
  payload (MkMQState h t (<[p := set_next n q]> (mqs w))) r = payload w r.
Proof.
  intros Hq. unfold payload. simpl. destruct (decide (p = r)) as [->|Hne].
  - by rewrite lookup_insert_eq, Hq.
  - by rewrite lookup_insert_ne.
Qed.

Lemma globalmq_push_spec w l p q : gq_rep w l -> mqs w !! p = Some q -> p ∉ l ->
  exists w', skynet_globalmq_push p w = Some w' /\ gq_rep w' (l ++ [p]) /\
    forall r, payload w' r = payload w r.
Proof.
  intros [Hnd Hh Ht Hlink Hoff] Hq Hp. unfold skynet_globalmq_push.
  rewrite Hq. pose proof (Hoff _ _ Hq Hp) as Hnext.
  rewrite bool_decide_eq_true_2 by done. rewrite Ht.
  assert (NoDup (l ++ [p])) as Hnd' by (by apply NoDup_snoc).
  destruct l as [|a l _] using rev_ind; simpl.
  { eexists. split; [reflexivity|]. split; [|done]. split; simpl; try done.
    - intros [|? l1] r l2 Hr; simplify_eq/=; [eauto | by destruct l1].
    - intros r q' Hr _. eapply Hoff; [exact Hr | set_solver]. }
  rewrite last_snoc. destruct (Hlink l a []) as (tq & Htq & _); [done|].
  rewrite Htq. eexists. split; [reflexivity|].
  split; [|intros r; by apply payload_relink].
  split; simpl; [done | rewrite Hh; by destruct l | by rewrite last_snoc | |].
  - intros l1 r l2 Hr. destruct (decide (a = r)) as [->|Hne].
    + rewrite lookup_insert_eq. eexists. split; [reflexivity|]. simpl.
      rewrite <- app_assoc in Hr, Hnd'. simpl in *.
      destruct (NoDup_mid _ _ _ _ _ Hnd' Hr) as [_ <-]. done.
    + rewrite lookup_insert_ne by done.
      apply snoc_split in Hr as [(-> & -> & ->)|(l2' & -> & E)]; [by exists q|].
      destruct (Hlink _ _ _ E) as (q' & -> & Hn). exists q'. split; [done|].
      rewrite Hn. destruct l2' as [|b l2']; [|done].
      apply app_inj_2 in E as [_ [= ->]]; done.
  - intros r q' Hr Hni. rewrite lookup_insert_ne in Hr by set_solver.
    eapply Hoff; [exact Hr | set_solver].
Qed.

Lemma globalmq_pop_nil w : gq_rep w [] -> skynet_globalmq_pop w = Some (None, w).
Proof. intros [_ Hh _ _ _]. unfold skynet_globalmq_pop. by rewrite Hh. Qed.

Lemma globalmq_pop_cons w p l : gq_rep w (p :: l) ->
  exists w', skynet_globalmq_pop w = Some (Some p, w') /\ gq_rep w' l /\
    forall r, payload w' r = payload w r.
Proof.
  intros [Hnd Hh Ht Hlink Hoff]. unfold skynet_globalmq_pop. rewrite Hh. simpl.
  destruct (Hlink [] p l eq_refl) as (q & Hq & Hn). rewrite Hq, Hn.
  apply NoDup_cons in Hnd as [Hp Hnd].
  assert (forall h t, h = head l -> t = last l ->
    gq_rep (MkMQState h t (<[p := set_next None q]> (mqs w))) l) as Hrep.
  { intros h t -> ->. split; simpl; try done.
    - intros l1 r l2 ->. rewrite lookup_insert_ne by set_solver.
      by apply (Hlink (p :: l1)).
    - intros r q' Hr Hr'. destruct (decide (p = r)) as [->|Hne].
      + rewrite lookup_insert_eq in Hr. by simplify_eq.
      + rewrite lookup_insert_ne in Hr by done. eapply Hoff; [exact Hr | set_solver]. }
  destruct l as [|p' l]; simpl in *.
  - rewrite bool_decide_eq_true_2 by done. eexists. split; [reflexivity|].
    split; [by apply Hrep | intros; by apply payload_relink].
  - eexists. split; [reflexivity|].
    split; [by apply Hrep | intros; by apply payload_relink].
Qed.

(** Storing a queue that keeps its link keeps the global queue. *)
Lemma gq_rep_store w g p q q' : gq_rep w g -> mqs w !! p = Some q ->
  mq_next q' = mq_next q -> gq_rep (store p q' w) g.
Proof.
  intros [Hnd Hh Ht Hlink Hoff] Hq Hn. split; simpl; try done.
  - intros l1 r l2 Hr. destruct (Hlink _ _ _ Hr) as (qr & Hqr & Hl).
    destruct (decide (p = r)) as [->|Hne].
    + rewrite lookup_insert_eq. eexists. split; [done|]. congruence.
    + rewrite lookup_insert_ne by done. eauto.
  - intros r qr Hr Hni. destruct (decide (p = r)) as [->|Hne].
    + rewrite lookup_insert_eq in Hr. simplify_eq. rewrite Hn. eauto.
    + rewrite lookup_insert_ne in Hr by done. eauto.
Qed.

Lemma payload_store w p q r :
  payload (store p q w) r = if decide (p = r) then Some (set_next None q) else payload w r.
Proof.
  unfold payload, store. simpl. rewrite lookup_insert. by case_decide.
Qed.

(** Adding a fresh queue, and freeing one that is not linked. *)
Lemma gq_rep_create w g p h w' : gq_rep w g -> skynet_mq_create p h w = Some w' -> gq_rep w' g.
Proof.
  intros [Hnd Hh Ht Hlink Hoff] Hc. unfold skynet_mq_create in Hc. run_inv Hc.
  apply bool_decide_eq_true in Heqb. split; simpl; try done.
  - intros l1 r l2 Hr. destruct (Hlink _ _ _ Hr) as (qr & Hqr & Hl).
    rewrite lookup_insert_ne by congruence. eauto.
  - intros r qr Hr Hni. rewrite lookup_insert in Hr. case_decide; simplify_eq; [done|eauto].
Qed.

Lemma gq_rep_free w g p : gq_rep w g -> p ∉ g ->
  gq_rep (MkMQState (Q_head w) (Q_tail w) (delete p (mqs w))) g.
Proof.
  intros [Hnd Hh Ht Hlink Hoff] Hp. split; simpl; try done.
  - intros l1 r l2 Hr. destruct (Hlink _ _ _ Hr) as (qr & Hqr & Hl).
    rewrite lookup_delete_ne by set_solver. eauto.
  - intros r qr [_ Hr]%lookup_delete_Some Hni. eauto.
Qed.

(** ** Refinement of the abstract FIFO queue *)

(** The pending messages, oldest first, read off the ring. *)
Definition mq_contents (q : message_queue) : list skynet_message :=
  omap (fun i => mjoin (aget (mq_queue q) ((mq_head q + i) mod mq_cap q)))
       (seqZ 0 (skynet_mq_length q)).

Definition mq_wf (q : message_queue) : Prop := mq_rep q (mq_contents q).

Lemma omap_seqZ_list {A} (f : Z -> option A) (l : list A) k :
  (forall i x, l !! i = Some x -> f (k + Z.of_nat i) = Some x) ->
  omap f (seqZ k (Z.of_nat (length l))) = l.
Proof.
  revert k. induction l as [|x l IH]; intros k Hf; [done|].
  change (length (x :: l)) with (S (length l)). rewrite Nat2Z.inj_succ, seqZ_cons by lia. simpl.
  pose proof (Hf O x eq_refl) as H0. replace (k + Z.of_nat 0) with k in H0 by lia.
  rewrite H0. f_equal. replace (Z.pred (Z.succ (Z.of_nat (length l)))) with (Z.of_nat (length l)) by lia.
  apply IH. intros i y Hi. replace (Z.succ k + Z.of_nat i) with (k + Z.of_nat (S i)) by lia.
  by apply Hf.
Qed.

Lemma mq_rep_contents q l : mq_rep q l -> mq_contents q = l.
Proof.
  intros Hr. unfold mq_contents. rewrite (skynet_mq_length_rep _ _ Hr).
  destruct Hr as (Hc & ((_ & _ & Hcell) & _) & _).
  apply omap_seqZ_list. intros i x Hi. rewrite Hc, Z.add_0_l. by rewrite (Hcell i x Hi).
Qed.

Lemma mq_rep_wf q l : mq_rep q l -> mq_wf q.
Proof. intros H. unfold mq_wf. by rewrite (mq_rep_contents _ _ H). Qed.

Lemma mq_create_wf p h w w' : skynet_mq_create p h w = Some w' ->
  exists q, mqs w' !! p = Some q /\ mq_rep q [].
Proof.
  unfold skynet_mq_create. intros Hc. run_inv Hc. simpl. rewrite lookup_insert_eq.
  eexists. split; [reflexivity|]. split; [reflexivity|]. split; [|done].
  apply (ring_rep_nil (Z.to_nat DEFAULT_QUEUE_SIZE)). unfold DEFAULT_QUEUE_SIZE. lia.
Qed.

Inductive queue_op := Push (m : skynet_message) | Pop.

(** A sequence of operations on one queue, with the results of the pops. *)
Fixpoint run_ops (ops : list queue_op) (q : message_queue)
  : option (list (option skynet_message) * message_queue) :=
  match ops with
  | [] => Some ([], q)
  | Push m :: ops =>
      let! q := mq_push_fields q m in
      run_ops ops q
  | Pop :: ops =>
      let! (_, r, q) := mq_pop_fields q in
      let! (rs, q) := run_ops ops q in
      Some (r :: rs, q)
  end.

(** The same sequence on an unbounded FIFO list. *)
Fixpoint spec_ops (ops : list queue_op) (l : list skynet_message)
  : list (option skynet_message) * list skynet_message :=
  match ops with
  | [] => ([], l)
  | Push m :: ops => spec_ops ops (l ++ [m])
  | Pop :: ops => let '(rs, l') := spec_ops ops (tail l) in (head l :: rs, l')
  end.


Lemma mq_push_heap w g p q m :
  gq_rep w g -> mqs w !! p = Some q -> mq_wf q -> (mq_in_global q = 0 -> p ∉ g) ->
  exists w' q', skynet_mq_push p m w = Some w' /\ payload w' p = Some q' /\ mq_wf q' /\
    mq_contents q' = mq_contents q ++ [m] /\ mq_in_global q' <> 0 /\
    gq_rep w' (if mq_in_global q =? 0 then g ++ [p] else g) /\
    (forall r, r <> p -> payload w' r = payload w r) /\
    mq_cap q' <= Z.max (mq_cap q) (2 * Z.of_nat (length (mq_contents q'))).
Proof.
  intros Hg Hq Hwf Hp. unfold skynet_mq_push. rewrite Hq.
  destruct (mq_push_fields_spec _ _ m Hwf) as (q1 & -> & Hq1 & _ & _ & Hf & Hn & Hcap).
  rewrite Hf. destruct (Z.eqb_spec (mq_in_global q) 0) as [E|E].
  - destruct (globalmq_push_spec (store p (set_in_global MQ_IN_GLOBAL q1) w) g p
      (set_in_global MQ_IN_GLOBAL q1)) as (w' & -> & Hg' & Hpay);
      [by eapply gq_rep_store | simpl; by rewrite lookup_insert_eq | auto |].
    exists w', (set_next None (set_in_global MQ_IN_GLOBAL q1)).
    rewrite Hpay, payload_store, decide_True by done. split_and!; try done.
    + by eapply mq_rep_wf.
    + by apply mq_rep_contents.
    + intros r Hr. rewrite Hpay, payload_store. by case_decide.
    + rewrite (mq_rep_contents (set_next None (set_in_global MQ_IN_GLOBAL q1)) _ Hq1). simpl. lia.
  - exists (store p q1 w), (set_next None q1).
    rewrite payload_store, decide_True by done. split_and!; try done.
    + by eapply mq_rep_wf.
    + by apply mq_rep_contents.
    + simpl. congruence.
    + by eapply gq_rep_store.
    + intros r Hr. rewrite payload_store. by case_decide.
    + rewrite (mq_rep_contents (set_next None q1) _ Hq1). simpl. lia.
Qed.

(** [skynet_mq_push] on the heap: the message is appended, the queue is linked
    at the end of the global queue exactly when its flag was clear, other
    queues are untouched, and the ring only grows to twice its content. *)
Theorem skynet_mq_push_spec w g p q m :
  gq_rep w g -> mqs w !! p = Some q -> mq_wf q -> (mq_in_global q = 0 -> p ∉ g) ->
  exists w' q', skynet_mq_push p m w = Some w' /\ payload w' p = Some q' /\ mq_wf q' /\
    mq_contents q' = mq_contents q ++ [m] /\ mq_in_global q' <> 0 /\
    gq_rep w' (if mq_in_global q =? 0 then g ++ [p] else g) /\
    (forall r, r <> p -> payload w' r = payload w r) /\
    mq_cap q' <= Z.max (mq_cap q) (2 * Z.of_nat (length (mq_contents q'))).
Proof. apply mq_push_heap. Qed.

(** [skynet_mq_pop]: the oldest message leaves the queue and the overload mark
    records a length above the threshold; on an empty queue the flag is
    cleared and the threshold reset. *)
Theorem skynet_mq_pop_spec w p q : mqs w !! p = Some q -> mq_wf q ->
  match mq_contents q with
  | [] => exists q', skynet_mq_pop p w = Some (1, None, store p q' w) /\ mq_wf q' /\
      mq_contents q' = [] /\ mq_in_global q' = 0 /\ mq_overload_threshold q' = MQ_OVERLOAD
  | m :: l => exists q', skynet_mq_pop p w = Some (0, Some m, store p q' w) /\ mq_wf q' /\
      mq_contents q' = l /\ mq_in_global q' = mq_in_global q /\
      Z.of_nat (length l) <= mq_overload_threshold q' /\
      (mq_overload_threshold q < Z.of_nat (length l) -> mq_overload q' = Z.of_nat (length l))
  end.
Proof.
  intros Hq Hwf. unfold skynet_mq_pop. rewrite Hq. unfold mq_wf in Hwf.
  destruct (mq_contents q) as [|m l].
  - rewrite (mq_pop_fields_nil _ Hwf). eexists. split; [reflexivity|].
    set (q' := set_in_global 0 (set_overload_threshold (mq_overload q) MQ_OVERLOAD q)).
    assert (mq_rep q' []) as Hq' by (by destruct Hwf as (?&?&?)).
    split; [by eapply mq_rep_wf|]. split; [by apply mq_rep_contents|]. done.
  - destruct (mq_pop_fields_cons _ _ _ Hwf)
      as (q' & -> & Hq' & _ & _ & _ & Hf & _ & Hthr & Hov & _).
    eexists. split; [reflexivity|]. split; [by eapply mq_rep_wf|].
    split; [by apply mq_rep_contents|]. split; [done|]. split; [done|].
    intros Hlt. by destruct (Hov Hlt).
Qed.

(** C6: [skynet_mq_release] on a marked queue: [drop_func] is called on every pending
    message, oldest first, and the queue is freed.  [drop_func] is any code
    that succeeds and leaves this queue alone (it sends to other services). *)
Theorem skynet_mq_release_drops {W} `{!HasMQ W} (drop_func : skynet_message -> W -> option W) fuel p q w :
  (forall m w q, mqs (mq_of w) !! p = Some q ->
     exists w', drop_func m w = Some w' /\ mqs (mq_of w') !! p = Some q) ->
  mqs (mq_of w) !! p = Some q -> mq_wf q -> mq_release q <> 0 -> mq_next q = None ->
  (length (mq_contents q) < fuel)%nat ->
  exists w', skynet_mq_release fuel p drop_func w = Some (mq_contents q, w') /\
    mqs (mq_of w') !! p = None.
Proof.
  intros Hdrop Hq Hwf Hrel Hnext Hfuel. unfold skynet_mq_release. rewrite Hq.
  destruct (Z.eqb_spec (mq_release q) 0); [done|]. simpl. clear Hrel n.
  unfold mq_wf in Hwf. remember (mq_contents q) as l eqn:El. clear El.
  revert fuel w q Hq Hwf Hnext Hfuel. induction l as [|m l IH];
    intros [|fuel] w q Hq Hwf Hnext Hfuel; simpl in *; try lia.
  - unfold skynet_mq_pop. rewrite Hq, (mq_pop_fields_nil _ Hwf). simpl. rewrite mq_of_with.
    unfold _release. simpl. rewrite lookup_insert_eq. simpl.
    rewrite bool_decide_eq_true_2 by done. eexists. split; [reflexivity|]. rewrite mq_of_with. simpl.
    apply lookup_delete_eq.
  - unfold skynet_mq_pop. rewrite Hq.
    destruct (mq_pop_fields_cons _ _ _ Hwf) as (q1 & -> & Hq1 & _ & _ & _ & _ & Hn1 & _). simpl.
    destruct (Hdrop m (with_mq (store p q1 (mq_of w)) w) q1) as (w1 & -> & Hw1);
      [rewrite mq_of_with; simpl; by rewrite lookup_insert_eq|].
    destruct (IH fuel w1 q1) as (w' & -> & Hw'); [done..|congruence|lia|]. eauto.
Qed.

(** ** Concrete instances *)

Definition ex_msg (n : Z) : skynet_message := Msg 1 n 0 0.
Definition ex_queue (in_global release : Z) : message_queue :=
  MkMQ 7 64 0 0 release in_global 0 1024 (replicate 64 None) None.
Definition ex_heap (q : message_queue) : mq_state := store 1 q skynet_mq_init.

Lemma ex_queue_rep g r : mq_rep (ex_queue g r) [].
Proof. split; [reflexivity|]. split; [|simpl; lia]. apply (ring_rep_nil 64). lia. Qed.

Lemma ex_queue_rep1 q : mq_push_fields (ex_queue 1 1) (ex_msg 5) = Some q -> mq_rep q [ex_msg 5].
Proof.
  intros H. destruct (mq_push_fields_spec _ _ (ex_msg 5) (ex_queue_rep 1 1)) as (q' & H' & Hq' & _).
  rewrite H in H'. injection H' as ->. exact Hq'.
Qed.

Lemma ex_heap_gq q : mq_next q = None -> gq_rep (ex_heap q) [].
Proof.
  intros Hn. split; simpl; try done; [constructor | by intros [] |].
  intros p q' Hp _. rewrite lookup_insert in Hp. case_decide; by simplify_eq.
Qed.


Lemma skynet_mq_push_spec_witness : exists w' q',
  skynet_mq_push 1 (ex_msg 3) (ex_heap (ex_queue 0 0)) = Some w' /\
  payload w' 1 = Some q' /\ mq_contents q' = [ex_msg 3] /\ gq_rep w' [1%positive].
Proof.
  destruct (skynet_mq_push_spec (ex_heap (ex_queue 0 0)) [] 1 (ex_queue 0 0) (ex_msg 3))
    as (w' & q' & H1 & H2 & _ & H3 & _ & H4 & _).
  - apply ex_heap_gq. reflexivity.
  - reflexivity.
  - exact (mq_rep_wf _ _ (ex_queue_rep 0 0)).
  - intros _. apply not_elem_of_nil.
  - exists w', q'. split; [exact H1|]. split; [exact H2|]. split; [exact H3 | exact H4].
Defined.

Lemma skynet_mq_pop_spec_witness : exists q',
  skynet_mq_pop 1 (ex_heap (ex_queue 1 0)) = Some (1, None, store 1 q' (ex_heap (ex_queue 1 0))) /\
  mq_in_global q' = 0.
Proof.
  destruct (skynet_mq_pop_spec (ex_heap (ex_queue 1 0)) 1 (ex_queue 1 0))
    as (q' & H & _ & _ & Hg & _).
  - reflexivity.
  - exact (mq_rep_wf _ _ (ex_queue_rep 1 0)).
  - exists q'. split; [exact H | exact Hg].
Defined.

Lemma skynet_mq_release_drops_witness : exists q w',
  mq_push_fields (ex_queue 1 1) (ex_msg 5) = Some q /\
  skynet_mq_release 2 1 (fun _ w => Some w) (ex_heap q) = Some ([ex_msg 5], w') /\
  mqs w' !! 1%positive = None.
Proof.
  destruct (mq_push_fields (ex_queue 1 1) (ex_msg 5)) as [q|] eqn:E; [|discriminate E].
  exists q. pose proof (ex_queue_rep1 q E) as Hrep.
  destruct (skynet_mq_release_drops (fun _ w => Some w) 2 1 q (ex_heap q)) as (w' & H & Hf).
  - intros m w q' Hq'. exists w. split; [reflexivity | exact Hq'].
  - reflexivity.
  - exact (mq_rep_wf _ _ Hrep).
  - vm_compute in E. injection E as <-. discriminate.
  - vm_compute in E. injection E as <-. reflexivity.
  - rewrite (mq_rep_contents _ _ Hrep). simpl. lia.
  - rewrite (mq_rep_contents _ _ Hrep) in H. exists w'. split; [reflexivity|]. split; [exact H | exact Hf].
Defined.
