(* ===== verification/Sched.v ===== *)
(** * The queue protocol of the worker threads

    [skynet_mq.c] and its callers in [skynet_server.c] move a service queue
    between three places: linked in the global queue, held by exactly one
    thread (the worker dispatching it, or the thread creating the service), or
    idle.  Every lock-protected operation is one step; the steps of all threads
    interleave freely.  The invariant below is what makes the lock-free parts of
    [skynet_context_message_dispatch] correct: a service is never dispatched by
    two workers at once, and a queue with pending messages is never forgotten. *)

From S2P Require Import Prelude Ring Message MQ.

(** [held] is the set of queues some thread owns. *)
Record sched := MkSched {
  heap : mq_state;
  held : gset positive;
}.

Definition sched_init : sched := MkSched skynet_mq_init ∅.

Inductive sched_step : sched -> sched -> Prop :=
| step_create p h w w' H :            (* skynet_context_new: the creator owns the queue *)
    skynet_mq_create p h w = Some w' ->
    sched_step (MkSched w H) (MkSched w' ({[p]} ∪ H))
| step_publish p w w' H :             (* skynet_globalmq_push by the owner *)
    p ∈ H -> skynet_globalmq_push p w = Some w' ->
    sched_step (MkSched w H) (MkSched w' (H ∖ {[p]}))
| step_take p w w' H :                (* skynet_globalmq_pop by a worker *)
    skynet_globalmq_pop w = Some (Some p, w') ->
    sched_step (MkSched w H) (MkSched w' ({[p]} ∪ H))
| step_push p q m w w' H :            (* skynet_mq_push through a live context *)
    mqs w !! p = Some q -> mq_release q = 0 ->
    skynet_mq_push p m w = Some w' ->
    sched_step (MkSched w H) (MkSched w' H)
| step_pop p m w w' H :               (* the owner takes a message *)
    p ∈ H -> skynet_mq_pop p w = Some (0, m, w') ->
    sched_step (MkSched w H) (MkSched w' H)
| step_pop_empty p q w w' H :         (* the owner finds the queue empty and lets go *)
    p ∈ H -> mqs w !! p = Some q -> mq_release q = 0 ->
    skynet_mq_pop p w = Some (1, None, w') ->
    sched_step (MkSched w H) (MkSched w' (H ∖ {[p]}))
| step_mark_release p w w' H :        (* delete_context *)
    skynet_mq_mark_release p w = Some w' ->
    sched_step (MkSched w H) (MkSched w' H)
| step_requeue p q w w' H :           (* skynet_mq_release before the mark *)
    p ∈ H -> mqs w !! p = Some q -> mq_release q = 0 ->
    skynet_globalmq_push p w = Some w' ->
    sched_step (MkSched w H) (MkSched w' (H ∖ {[p]}))
| step_drop_last p q w w1 w' H :      (* the end of _drop_queue *)
    p ∈ H -> mqs w !! p = Some q -> mq_release q <> 0 ->
    skynet_mq_pop p w = Some (1, None, w1) -> _release p w1 = Some w' ->
    sched_step (MkSched w H) (MkSched w' (H ∖ {[p]})).

Definition reachable (s : sched) : Prop := rtc sched_step sched_init s.

(** ** The invariant *)

(** What holds of one queue, given the global queue [g] and the owned set [H]. *)
Record queue_ok (g : list positive) (H : gset positive) (p : positive) (q : message_queue)
  : Prop := {
  ok_rep : exists l, mq_rep q l;
  ok_flag : mq_in_global q = 0 \/ mq_in_global q = MQ_IN_GLOBAL;
  ok_release : mq_release q = 0 \/ mq_release q = 1;
  ok_placed : p ∈ g \/ p ∈ H \/ (mq_in_global q = 0 /\ mq_release q = 0 /\ mq_rep q []);
  ok_idle : mq_in_global q = 0 -> mq_release q = 0 -> p ∉ g /\ p ∉ H;
}.

Record sched_inv (g : list positive) (s : sched) : Prop := {
  inv_gq : gq_rep (heap s) g;
  inv_disj : forall p, p ∈ g -> p ∉ held s;
  inv_dom : forall p, p ∈ held s -> is_Some (payload (heap s) p);
  inv_queue : forall p q, payload (heap s) p = Some q -> queue_ok g (held s) p q;
}.

Lemma inv_init : sched_inv [] sched_init.
Proof.
  split; simpl; try set_solver.
  split; simpl; try done; [constructor | by intros []].
Qed.

(** The invariant seen from one queue of the heap. *)
Lemma inv_lookup g s p q : sched_inv g s -> mqs (heap s) !! p = Some q -> queue_ok g (held s) p q.
Proof.
  intros [_ _ _ Hq] Hp. pose proof (Hq _ _ (payload_Some _ _ _ Hp)) as [[l Hl] ? ? ? ?].
  split; eauto.
Qed.

Lemma inv_held_lookup g s p : sched_inv g s -> p ∈ held s -> exists q, mqs (heap s) !! p = Some q.
Proof.
  intros Hi Hp. destruct (inv_dom _ _ Hi _ Hp) as [q (q' & ? & _)%payload_inv]. eauto.
Qed.

Lemma inv_global_lookup g s p : sched_inv g s -> p ∈ g -> exists q, mqs (heap s) !! p = Some q.
Proof.
  intros Hi (l1 & l2 & ->)%list_elem_of_split.
  destruct (gq_link _ _ (inv_gq _ _ Hi) _ _ _ eq_refl) as (q & ? & _). eauto.
Qed.

(** A queue other than the one moved keeps its status. *)
Lemma queue_ok_frame g g' H H' p q :
  queue_ok g H p q -> (p ∈ g' <-> p ∈ g) -> (p ∈ H' <-> p ∈ H) -> queue_ok g' H' p q.
Proof. intros [? ? ? ? ?] Hg HH. split; try done; rewrite ?Hg, ?HH; done. Qed.

(** A step that touches one queue [p] only has to be checked at [p]. *)
Lemma inv_update g g' w w' H H' p : sched_inv g (MkSched w H) -> gq_rep w' g' ->
  (forall r, r <> p -> payload w' r = payload w r) ->
  (forall r, r <> p -> (r ∈ g' <-> r ∈ g) /\ (r ∈ H' <-> r ∈ H)) ->
  (p ∈ g' -> p ∉ H') -> (p ∈ H' -> is_Some (payload w' p)) ->
  (forall q, payload w' p = Some q -> queue_ok g' H' p q) ->
  sched_inv g' (MkSched w' H').
Proof.
  intros [Hg Hd Hdom Hq] Hg' Hpay Hset Hdp Hdomp Hqp. simpl in *. split; simpl; [done| | |].
  - intros r. destruct (decide (r = p)) as [->|Hne]; [done|].
    destruct (Hset r Hne) as [-> ->]. apply Hd.
  - intros r. destruct (decide (r = p)) as [->|Hne]; [done|].
    destruct (Hset r Hne) as [_ ->]. rewrite Hpay by done. apply Hdom.
  - intros r q. destruct (decide (r = p)) as [->|Hne]; [apply Hqp|].
    rewrite Hpay by done. intros Hr. destruct (Hset r Hne).
    eapply queue_ok_frame; eauto.
Qed.

(** ** Every step preserves it *)

Lemma inv_create g w H p h w' : sched_inv g (MkSched w H) ->
  skynet_mq_create p h w = Some w' -> sched_inv g (MkSched w' ({[p]} ∪ H)).
Proof.
  intros Hi Hc. pose proof (gq_rep_create _ _ _ _ _ (inv_gq _ _ Hi) Hc) as Hg'.
  unfold skynet_mq_create in Hc. run_inv Hc. apply bool_decide_eq_true in Heqb.
  assert (p ∉ g) as Hp.
  { intros Hp. destruct (inv_global_lookup _ _ _ Hi Hp) as [q ?]. simpl in *. congruence. }
  eapply inv_update with (p := p); eauto.
  - intros r ?. rewrite payload_store. by case_decide.
  - set_solver.
  - intros _. rewrite payload_store. case_decide; [eauto|done].
  - intros q. rewrite payload_store. case_decide; [|done]. intros [= <-].
    split; simpl; [| by right | by left | set_solver | unfold MQ_IN_GLOBAL; lia].
    exists []. split; [reflexivity|]. split; [|done].
    apply (ring_rep_nil (Z.to_nat DEFAULT_QUEUE_SIZE)). unfold DEFAULT_QUEUE_SIZE. lia.
Qed.

(** Linking a queue that is owned, or idle and marked in the same step. *)
Lemma inv_link g w H p q w' : sched_inv g (MkSched w H) -> mqs w !! p = Some q -> p ∉ g ->
  skynet_globalmq_push p w = Some w' -> (mq_in_global q = 0 -> mq_release q <> 0) ->
  sched_inv (g ++ [p]) (MkSched w' (H ∖ {[p]})).
Proof.
  intros Hi Hq Hp Hpush Hflag.
  destruct (globalmq_push_spec _ _ _ _ (inv_gq _ _ Hi) Hq Hp) as (w1 & Hw1 & Hg' & Hpay).
  simpl in Hw1. rewrite Hpush in Hw1. simplify_eq.
  eapply inv_update with (p := p); eauto; try set_solver.
  intros q' Hq'. rewrite Hpay in Hq'. apply (inv_queue _ _ Hi) in Hq' as Hok.
  apply payload_inv in Hq' as (q0 & Hq0 & ->). simpl in *. simplify_eq.
  destruct Hok as [? ? ? ? ?]. split; try done; set_solver.
Qed.

Lemma inv_take g w H p w' : sched_inv g (MkSched w H) ->
  skynet_globalmq_pop w = Some (Some p, w') ->
  exists l, g = p :: l /\ sched_inv l (MkSched w' ({[p]} ∪ H)).
Proof.
  intros Hi Hpop. destruct g as [|p0 l].
  { rewrite (globalmq_pop_nil w (inv_gq _ _ Hi)) in Hpop. done. }
  destruct (globalmq_pop_cons _ _ _ (inv_gq _ _ Hi)) as (w1 & Hw1 & Hg' & Hpay).
  simpl in *. rewrite Hpop in Hw1. simplify_eq. exists l. split; [done|].
  pose proof (gq_nodup _ _ (inv_gq _ _ Hi)) as [Hp0 _]%NoDup_cons.
  eapply inv_update with (p := p0); eauto; try set_solver.
  - intros _. rewrite Hpay.
    destruct (inv_global_lookup _ _ p0 Hi) as [q Hq]; [set_solver|]. simpl in *.
    rewrite (payload_Some _ _ _ Hq). eauto.
  - intros q' Hq'. rewrite Hpay in Hq'. apply (inv_queue _ _ Hi) in Hq' as [? ? ? ? Hidle].
    split; try done; [set_solver|]. intros H1 H2. destruct (Hidle H1 H2). set_solver.
Qed.

(** Replacing the fields of an owned or idle queue, its link kept. *)
Lemma inv_store g w H H' p q q' : sched_inv g (MkSched w H) -> mqs w !! p = Some q ->
  mq_next q' = mq_next q -> (forall r, r <> p -> r ∈ H' <-> r ∈ H) ->
  (p ∈ H' -> p ∈ H) -> queue_ok g H' p (set_next None q') ->
  sched_inv g (MkSched (store p q' w) H').
Proof.
  intros Hi Hq Hn HH Hp Hok. eapply inv_update with (p := p); [exact Hi|..].
  - eapply gq_rep_store; eauto. apply (inv_gq _ _ Hi).
  - intros r ?. rewrite payload_store. by case_decide.
  - intros r Hne. split; [done|auto].
  - intros Hg Hin. by apply (inv_disj _ _ Hi p Hg), Hp.
  - intros _. rewrite payload_store. case_decide; [eauto|done].
  - intros q0. rewrite payload_store. case_decide; [|done]. by intros [= <-].
Qed.

Lemma inv_push g w H p q m w' : sched_inv g (MkSched w H) -> mqs w !! p = Some q ->
  mq_release q = 0 -> skynet_mq_push p m w = Some w' ->
  sched_inv (if mq_in_global q =? 0 then g ++ [p] else g) (MkSched w' H).
Proof.
  intros Hi Hq Hr Hpush.
  destruct (inv_lookup _ _ _ _ Hi Hq) as [[l Hl] Hf Hrel Hpl Hidle]. simpl in *.
  destruct (mq_push_fields_spec q l m Hl) as (q1 & Hq1 & Hl1 & _ & Hr1 & Hf1 & Hn1 & _).
  unfold skynet_mq_push in Hpush. rewrite Hq, Hq1, Hf1 in Hpush.
  destruct (Z.eqb_spec (mq_in_global q) 0) as [E|E].
  - destruct (Hidle E Hr) as [Hpg HpH].
    assert (H = H ∖ {[p]}) as -> by set_solver.
    assert (gq_rep (store p (set_in_global MQ_IN_GLOBAL q1) w) g) as Hg1
      by (eapply gq_rep_store; [apply (inv_gq _ _ Hi) | exact Hq | done]).
    destruct (globalmq_push_spec _ _ p (set_in_global MQ_IN_GLOBAL q1) Hg1)
      as (w1 & Hw1 & Hg' & Hpay); [simpl; by rewrite lookup_insert_eq | done |].
    rewrite Hpush in Hw1. simplify_eq.
    eapply inv_update with (p := p); [exact Hi | exact Hg' | ..].
    + intros r ?. rewrite Hpay, payload_store. by case_decide.
    + intros r Hne. clear -Hne. set_solver.
    + intros _. clear -HpH. set_solver.
    + intros Hin. clear -Hin HpH. set_solver.
    + intros q0. rewrite Hpay, payload_store. case_decide; [|done]. intros [= <-].
      split; simpl; [eauto | by right | left; congruence | set_solver | unfold MQ_IN_GLOBAL; lia].
  - simplify_eq. eapply inv_store; eauto. split; simpl; rewrite ?Hf1, ?Hr1; try done; eauto.
    destruct Hpl as [?|[?|(?&_)]]; auto. done.
Qed.

Lemma inv_pop g w H p m w' : sched_inv g (MkSched w H) -> p ∈ H ->
  skynet_mq_pop p w = Some (0, m, w') -> sched_inv g (MkSched w' H).
Proof.
  intros Hi Hp Hpop. destruct (inv_held_lookup _ _ _ Hi Hp) as [q Hq].
  destruct (inv_lookup _ _ _ _ Hi Hq) as [[l Hl] Hf Hrel Hpl Hidle]. simpl in *.
  unfold skynet_mq_pop in Hpop. rewrite Hq in Hpop.
  destruct l as [|m' l]; [rewrite (mq_pop_fields_nil _ Hl) in Hpop; done|].
  destruct (mq_pop_fields_cons _ _ _ Hl) as (q' & Hq' & Hl' & _ & _ & Hr' & Hf' & Hn' & _).
  rewrite Hq' in Hpop. simplify_eq. eapply inv_store; eauto.
  split; simpl; rewrite ?Hf', ?Hr'; eauto.
Qed.

Lemma inv_pop_empty g w H p q w' : sched_inv g (MkSched w H) -> p ∈ H ->
  mqs w !! p = Some q -> skynet_mq_pop p w = Some (1, None, w') ->
  mq_rep q [] /\ (mq_release q = 0 -> sched_inv g (MkSched w' (H ∖ {[p]}))) /\
  exists q', mqs w' = <[p := q']> (mqs w) /\ Q_head w' = Q_head w /\ Q_tail w' = Q_tail w.
Proof.
  intros Hi Hp Hq Hpop.
  destruct (inv_lookup _ _ _ _ Hi Hq) as [[l Hl] Hf Hrel Hpl Hidle]. simpl in *.
  unfold skynet_mq_pop in Hpop. rewrite Hq in Hpop.
  destruct l as [|m' l];
    [|destruct (mq_pop_fields_cons _ _ _ Hl) as (q' & Hq' & _); rewrite Hq' in Hpop; done].
  rewrite (mq_pop_fields_nil _ Hl) in Hpop. simplify_eq.
  split; [done|]. split; [|eexists; eauto]. intros Hr.
  assert (mq_rep (set_overload_threshold (mq_overload q) MQ_OVERLOAD q) []) as Hl'.
  { destruct Hl as (?&?&?). split_and!; done. }
  eapply inv_store; eauto; [set_solver..|].
  split; simpl; eauto; try set_solver.
  intros _ _. split; [|set_solver]. intros Hg. by apply (inv_disj _ _ Hi p Hg).
Qed.

Lemma inv_mark_release g w H p w' : sched_inv g (MkSched w H) ->
  skynet_mq_mark_release p w = Some w' ->
  exists g', sched_inv g' (MkSched w' H) /\ (g' = g \/ g' = g ++ [p]).
Proof.
  intros Hi Hm. unfold skynet_mq_mark_release in Hm.
  destruct (mqs w !! p) as [q|] eqn:Hq; [|done].
  destruct (Z.eqb_spec (mq_release q) 0) as [Hr|]; [|done].
  destruct (inv_lookup _ _ _ _ Hi Hq) as [[l Hl] Hf Hrel Hpl Hidle]. simpl in *.
  destruct (Z.eqb_spec (mq_in_global q) MQ_IN_GLOBAL) as [E|E]; simpl in Hm.
  - simplify_eq. exists g. split; [|by left].
    eapply inv_store; eauto. split; simpl; eauto.
    destruct Hpl as [?|[?|(?&_)]]; auto. rewrite E in H0. done.
  - assert (mq_in_global q = 0) as E0 by (by destruct Hf).
    destruct (Hidle E0 Hr) as [Hpg HpH].
    assert (gq_rep (store p (set_release 1 q) w) g) as Hg1
      by (eapply gq_rep_store; [apply (inv_gq _ _ Hi) | exact Hq | done]).
    destruct (globalmq_push_spec _ _ p (set_release 1 q) Hg1)
      as (w1 & Hw1 & Hg' & Hpay); [simpl; by rewrite lookup_insert_eq | done |].
    rewrite Hm in Hw1. simplify_eq. exists (g ++ [p]). split; [|by right].
    eapply inv_update with (p := p); [exact Hi | exact Hg' | ..].
    + intros r ?. rewrite Hpay, payload_store. by case_decide.
    + intros r Hne. clear -Hne. set_solver.
    + intros _. clear -HpH. set_solver.
    + intros Hin. clear -Hin HpH. set_solver.
    + intros q0. rewrite Hpay, payload_store. case_decide; [|done]. intros [= <-].
      split; simpl; eauto; [set_solver | lia].
Qed.

Lemma inv_drop_last g w H p q w1 w' : sched_inv g (MkSched w H) -> p ∈ H ->
  mqs w !! p = Some q -> skynet_mq_pop p w = Some (1, None, w1) ->
  _release p w1 = Some w' -> sched_inv g (MkSched w' (H ∖ {[p]})).
Proof.
  intros Hi Hp Hq Hpop Hrel.
  destruct (inv_pop_empty _ _ _ _ _ _ Hi Hp Hq Hpop) as (_ & _ & q' & Hm & Hh & Ht).
  assert (p ∉ g) as Hpg by (intros Hg; by apply (inv_disj _ _ Hi p Hg)).
  unfold _release in Hrel. run_inv Hrel. rewrite Hm, Hh, Ht, delete_insert_eq.
  eapply inv_update with (p := p); eauto; try set_solver.
  - apply gq_rep_free; [apply (inv_gq _ _ Hi) | done].
  - intros r ?. unfold payload. simpl. by rewrite lookup_delete_ne.
  - intros q0. unfold payload. simpl. by rewrite lookup_delete_eq.
Qed.

Lemma sched_step_inv s s' g : sched_step s s' -> sched_inv g s -> exists g', sched_inv g' s'.
Proof.
  intros Hs Hi. destruct Hs as
    [p h w w' H Hc|p w w' H Hp Hpush|p w w' H Hpop|p q m w w' H Hq Hr Hpush|p m w w' H Hp Hpop
    |p q w w' H Hp Hq Hr Hpop|p w w' H Hm|p q w w' H Hp Hq Hr Hpush|p q w w1 w' H Hp Hq Hr Hpop Hrel].
  - eauto using inv_create.
  - destruct (inv_held_lookup _ _ _ Hi Hp) as [q Hq].
    destruct (inv_lookup _ _ _ _ Hi Hq) as [_ _ _ _ Hidle]. simpl in *.
    eexists. eapply inv_link; eauto.
    + intros Hg. by apply (inv_disj _ _ Hi p Hg).
    + intros H0 H1. by destruct (Hidle H0 H1).
  - destruct (inv_take _ _ _ _ _ Hi Hpop) as (l & _ & ?). eauto.
  - eauto using inv_push.
  - eauto using inv_pop.
  - destruct (inv_pop_empty _ _ _ _ _ _ Hi Hp Hq Hpop) as (_ & ? & _). eauto.
  - destruct (inv_mark_release _ _ _ _ _ Hi Hm) as (g' & ? & _). eauto.
  - destruct (inv_lookup _ _ _ _ Hi Hq) as [_ _ _ _ Hidle]. simpl in *.
    eexists. eapply inv_link; eauto.
    + intros Hg. by apply (inv_disj _ _ Hi p Hg).
    + intros H0. by destruct (Hidle H0 Hr).
  - eauto using inv_drop_last.
Qed.

Lemma reachable_inv s : reachable s -> exists g, sched_inv g s.
Proof.
  apply (rtc_ind_r (fun s => exists g, sched_inv g s) sched_init).
  - exists []. apply inv_init.
  - intros s1 s2 _ Hs [g Hg]. eapply sched_step_inv; eauto.
Qed.

(** ** Consequences for reachable states *)

(** Whether a queue has pending messages. *)
Definition pending (w : mq_state) (p : positive) : bool :=
  match mqs w !! p with
  | Some q => 0 <? skynet_mq_length q
  | None => false
  end.

(** C3: No lost wake-up and no double dispatch.  In every reachable state the global
    queue links each address at most once and none that a thread owns, and a
    queue with pending messages is linked or owned, so some worker will get to it. *)
Theorem no_lost_wakeup s : reachable s ->
  exists g, gq_rep (heap s) g /\ NoDup g /\ (forall p, p ∈ g -> p ∉ held s) /\
    forall p, pending (heap s) p = true -> p ∈ g \/ p ∈ held s.
Proof.
  intros [g Hi]%reachable_inv. exists g.
  split; [apply (inv_gq _ _ Hi)|]. split; [apply (gq_nodup _ _ (inv_gq _ _ Hi))|].
  split; [apply (inv_disj _ _ Hi)|]. intros p. unfold pending.
  destruct (mqs (heap s) !! p) as [q|] eqn:Hq; [|done]. intros Hlen%Z.ltb_lt.
  destruct (inv_lookup _ _ _ _ Hi Hq) as [_ _ _ [?|[?|(_ & _ & Hnil)]] _]; auto.
  rewrite (skynet_mq_length_rep _ _ Hnil) in Hlen. simpl in Hlen. lia.
Qed.


(** ** Concrete instances *)

(** A created queue, owned by its creator, that already has one message. *)
Definition ex_state : sched :=
  MkSched (default skynet_mq_init
             (w ← skynet_mq_create 1 7 skynet_mq_init; skynet_mq_push 1 (ex_msg 5) w))
          ({[1%positive]} ∪ ∅).

Lemma ex_state_reachable : reachable ex_state.
Proof.
  destruct (skynet_mq_create 1 7 skynet_mq_init) as [w1|] eqn:E1; [|discriminate E1].
  eapply rtc_l; [exact (step_create 1 7 _ _ _ E1)|].
  destruct (mqs w1 !! 1%positive) as [q|] eqn:Eq;
    [|vm_compute in E1; injection E1 as <-; vm_compute in Eq; discriminate Eq].
  apply rtc_once. apply (step_push 1 q (ex_msg 5)); [exact Eq | |].
  - vm_compute in E1. injection E1 as <-. vm_compute in Eq. injection Eq as <-. reflexivity.
  - vm_compute in E1. injection E1 as <-. vm_compute. reflexivity.
Qed.

Lemma no_lost_wakeup_witness : pending (heap ex_state) 1 = true /\
  exists g, gq_rep (heap ex_state) g /\ NoDup g /\ (forall p, p ∈ g -> p ∉ held ex_state) /\
    forall p, pending (heap ex_state) p = true -> p ∈ g \/ p ∈ held ex_state.
Proof.
  split; [vm_compute; reflexivity|]. exact (no_lost_wakeup ex_state ex_state_reachable).
Defined.

