(* ===== verification/Timer.v ===== *)
(** * The timing wheel ([skynet-src/skynet_timer.c])

    A hierarchical wheel: 256 near slots indexed by the low byte of the expiry
    tick and four levels of 64 slots for the remaining digits.  A [link_list] is
    the list of its nodes in link order.  The spinlock makes every critical
    section atomic; the unlocked window in [timer_execute], in which other
    threads may add timers, is an explicit argument: the list of additions made
    in each successive window. *)

From S2P Require Import Prelude Message.

Definition TIME_NEAR_SHIFT : Z := 8.
Definition TIME_NEAR : Z := Z.shiftl 1 TIME_NEAR_SHIFT.
Definition TIME_LEVEL_SHIFT : Z := 6.
Definition TIME_LEVEL : Z := Z.shiftl 1 TIME_LEVEL_SHIFT.
Definition TIME_NEAR_MASK : Z := TIME_NEAR - 1.
Definition TIME_LEVEL_MASK : Z := TIME_LEVEL - 1.

Record timer_event := MkEvent {
  te_handle : Z;
  te_session : Z;
}.

Record timer_node := MkNode {
  expire : Z;
  event : timer_event;
}.

Notation link_list := (list timer_node).

Record timer := MkTimer {
  near : list link_list;
  t : list (list link_list);
  time : Z;
  starttime : Z;
  current : Z;
  current_point : Z;
}.

Definition set_wheel (n : list link_list) (l : list (list link_list)) (T : timer) : timer :=
  MkTimer n l (time T) (starttime T) (current T) (current_point T).
Definition set_time (c : Z) (T : timer) : timer :=
  MkTimer (near T) (t T) c (starttime T) (current T) (current_point T).
Definition set_clock (cur cp : Z) (T : timer) : timer :=
  MkTimer (near T) (t T) (time T) (starttime T) cur cp.

(** The nodes of a list, and the list emptied. *)
Definition link_clear (l : link_list) : link_list * link_list := (l, []).

Definition link (l : link_list) (node : timer_node) : link_list := l ++ [node].

(** [link] into [T->near[idx]] and [T->t[level][idx]]. *)
Definition link_near (T : timer) (idx : Z) (node : timer_node) : option timer :=
  let! l := aget (near T) idx in
  let! n := aset (near T) idx (link l node) in
  Some (set_wheel n (t T) T).

Definition link_level (T : timer) (level idx : Z) (node : timer_node) : option timer :=
  let! row := aget (t T) level in
  let! l := aget row idx in
  let! row := aset row idx (link l node) in
  let! rows := aset (t T) level row in
  Some (set_wheel (near T) rows T).

(** [for (i=0;i<3;i++)]: the first level whose prefix the two times share. *)
Fixpoint level_loop (n : nat) (i mask time current_time : Z) : Z :=
  match n with
  | O => i
  | S n =>
      if Z.lor time (mask - 1) =? Z.lor current_time (mask - 1) then i
      else level_loop n (i + 1) (u32 (Z.shiftl mask TIME_LEVEL_SHIFT)) time current_time
  end.

Definition add_node (T : timer) (node : timer_node) : option timer :=
  let time := expire node in
  let current_time := Timer.time T in
  if Z.lor time TIME_NEAR_MASK =? Z.lor current_time TIME_NEAR_MASK then
    link_near T (Z.land time TIME_NEAR_MASK) node
  else
    let i := level_loop 3 0 (Z.shiftl TIME_NEAR TIME_LEVEL_SHIFT) time current_time in
    link_level T i
      (Z.land (Z.shiftr time (TIME_NEAR_SHIFT + i * TIME_LEVEL_SHIFT)) TIME_LEVEL_MASK) node.

Definition timer_add (T : timer) (arg : timer_event) (time : Z) : option timer :=
  add_node T (MkNode (u32 (time + Timer.time T)) arg).

Fixpoint add_nodes (T : timer) (nodes : link_list) : option timer :=
  match nodes with
  | [] => Some T
  | node :: nodes =>
      let! T := add_node T node in
      add_nodes T nodes
  end.

Definition move_list (T : timer) (level idx : Z) : option timer :=
  let! row := aget (t T) level in
  let! l := aget row idx in
  let '(current, l) := link_clear l in
  let! row := aset row idx l in
  let! rows := aset (t T) level row in
  add_nodes (set_wheel (near T) rows T) current.

(** The [while] loop of [timer_shift]; [mask] is a C [int].  [None] when the
    fuel runs out. *)
Fixpoint shift_loop (fuel : nat) (T : timer) (ct mask time i : Z) : option timer :=
  if Z.land ct (mask - 1) =? 0 then
    match fuel with
    | O => None
    | S fuel =>
        let idx := Z.land time TIME_LEVEL_MASK in
        if negb (idx =? 0) then move_list T i idx
        else shift_loop fuel T ct (i32 (Z.shiftl mask TIME_LEVEL_SHIFT))
               (Z.shiftr time TIME_LEVEL_SHIFT) (i + 1)
    end
  else Some T.

Definition timer_shift (T : timer) : option timer :=
  let mask := TIME_NEAR in
  let ct := u32 (time T + 1) in
  let T := set_time ct T in
  if ct =? 0 then move_list T 3 0
  else shift_loop 4 T ct mask (Z.shiftr ct TIME_NEAR_SHIFT) 0.

Definition timer_create_timer : timer :=
  MkTimer (replicate (Z.to_nat TIME_NEAR) [])
          (replicate 4 (replicate (Z.to_nat TIME_LEVEL) [])) 0 0 0 0.

(** ** Running the wheel

    [W] is the state of the rest of the system, which receives the messages. *)
Section Run.
Context {W : Type} `{ContextPush W}.

Definition dispatch_list (current : link_list) (w : W) : W :=
  foldl (fun w node =>
           snd (context_push (te_handle (event node)) (timer_message (te_session (event node))) w))
        w current.

(** Additions by other threads while the lock is free. *)
Fixpoint add_window (T : timer) (adds : list (timer_event * Z)) : option timer :=
  match adds with
  | [] => Some T
  | (e, time) :: adds =>
      let! T := timer_add T e time in
      add_window T adds
  end.

Fixpoint timer_execute (fuel : nat) (T : timer) (w : W)
  (windows : list (list (timer_event * Z)))
  : option (timer * W * list (list (timer_event * Z))) :=
  let idx := Z.land (time T) TIME_NEAR_MASK in
  let! l := aget (near T) idx in
  match l with
  | [] => Some (T, w, windows)
  | _ :: _ =>
      match fuel with
      | O => None
      | S fuel =>
          let '(current, l) := link_clear l in
          let! n := aset (near T) idx l in
          let T := set_wheel n (t T) T in
          let w := dispatch_list current w in
          let! T := add_window T (default [] (head windows)) in
          timer_execute fuel T w (tail windows)
      end
  end.

Definition timer_update (fuel : nat) (T : timer) (w : W)
  (windows : list (list (timer_event * Z)))
  : option (timer * W * list (list (timer_event * Z))) :=
  let! (T, w, windows) := timer_execute fuel T w windows in
  let! T := timer_shift T in
  timer_execute fuel T w windows.

(** [for (i=0;i<diff;i++) timer_update(TI)], with no additions in between. *)
Fixpoint timer_updates (n : nat) (T : timer) (w : W) : option (timer * W) :=
  match n with
  | O => Some (T, w)
  | S n =>
      let! (T, w, _) := timer_update 1 T w [] in
      timer_updates n T w
  end.

(** [cp] is what [gettime] returns. *)
Definition skynet_updatetime (cp : Z) (T : timer) (w : W) : option (timer * W) :=
  if cp <? current_point T then Some (set_clock (current T) cp T, w)
  else if negb (cp =? current_point T) then
    let diff := u32 (cp - current_point T) in
    timer_updates (Z.to_nat diff) (set_clock (u64 (current T + diff)) cp T) w
  else Some (T, w).

Definition skynet_timeout (handle time session : Z) (T : timer) (w : W)
  : option (Z * timer * W) :=
  if time <=? 0 then
    let '(r, w) := context_push handle (timer_message session) w in
    if negb (r =? 0) then Some (-1, T, w) else Some (session, T, w)
  else
    let! T := timer_add T (MkEvent handle session) time in
    Some (session, T, w).
End Run.

Definition skynet_starttime (T : timer) : Z := starttime T.
Definition skynet_now (T : timer) : Z := current T.

(** Clock readings: [tv_sec], [tv_nsec] are the fields [clock_gettime] fills. *)
Definition systime (tv_sec tv_nsec : Z) : Z * Z := (u32 tv_sec, u32 (Z.quot tv_nsec 10000000)).
Definition gettime (tv_sec tv_nsec : Z) : Z :=
  u64 (u64 (tv_sec * 100) + Z.quot tv_nsec 10000000).

Definition NANOSEC : Z := 1000000000.
Definition MICROSEC : Z := 1000000.
Definition skynet_thread_time (tv_sec tv_nsec : Z) : Z :=
  u64 (u64 (tv_sec * MICROSEC) + Z.quot tv_nsec (NANOSEC / MICROSEC)).

(** [rt] is the real-time clock, [mono] the monotonic one. *)
Definition skynet_timer_init (rt mono : Z * Z) : timer :=
  let TI := timer_create_timer in
  let '(sec, cs) := systime (fst rt) (snd rt) in
  MkTimer (near TI) (t TI) (time TI) sec cs (gettime (fst mono) (snd mono)).

(** ** Where a node sits

    [place c e] is the slot of a node expiring at [e] when the clock shows [c]. *)
Inductive loc := Near (i : Z) | Level (l i : Z).

#[export] Instance loc_eq_dec : EqDecision loc.
Proof. solve_decision. Defined.

Definition place (c e : Z) : loc :=
  if e / 2 ^ 8 =? c / 2 ^ 8 then Near (e mod 2 ^ 8)
  else if e / 2 ^ 14 =? c / 2 ^ 14 then Level 0 (e / 2 ^ 8 mod 64)
  else if e / 2 ^ 20 =? c / 2 ^ 20 then Level 1 (e / 2 ^ 14 mod 64)
  else if e / 2 ^ 26 =? c / 2 ^ 26 then Level 2 (e / 2 ^ 20 mod 64)
  else Level 3 (e / 2 ^ 26 mod 64).

Definition slot (T : timer) (p : loc) : option link_list :=
  match p with
  | Near i => aget (near T) i
  | Level l i => aget (t T) l ≫= fun row => aget row i
  end.

Definition link_at (T : timer) (p : loc) (node : timer_node) : option timer :=
  match p with
  | Near i => link_near T i node
  | Level l i => link_level T l i node
  end.

Lemma lor_ones_eqb x y k : 0 <= k -> 0 <= x -> 0 <= y ->
  (Z.lor x (2 ^ k - 1) =? Z.lor y (2 ^ k - 1)) = (x / 2 ^ k =? y / 2 ^ k).
Proof.
  intros Hk Hx Hy. replace (2 ^ k - 1) with (Z.ones k) by (rewrite Z.ones_equiv; lia).
  rewrite <- !Z.shiftr_div_pow2 by done.
  apply eq_bool_prop_intro. rewrite !Is_true_true, !Z.eqb_eq. split; intros E.
  - apply Z.bits_inj'. intros n Hn. apply (f_equal (fun z => Z.testbit z (n + k))) in E.
    rewrite !Z.lor_spec, !Z.ones_spec_high, !orb_false_r in E by lia.
    by rewrite !Z.shiftr_spec by lia.
  - apply Z.bits_inj'. intros n Hn. rewrite !Z.lor_spec.
    destruct (Z.ltb_spec n k).
    + rewrite Z.ones_spec_low by lia. by rewrite !orb_true_r.
    + apply (f_equal (fun z => Z.testbit z (n - k))) in E.
      rewrite !Z.shiftr_spec in E by lia. replace (n - k + k) with n in E by lia. by rewrite E.
Qed.

Lemma land_63 z : Z.land z TIME_LEVEL_MASK = z mod 64.
Proof. change TIME_LEVEL_MASK with (Z.ones 6). by rewrite Z.land_ones by lia. Qed.

Lemma land_255 z : Z.land z TIME_NEAR_MASK = z mod 2 ^ 8.
Proof. change TIME_NEAR_MASK with (Z.ones 8). by rewrite Z.land_ones by lia. Qed.

(** [add_node] links at the end of the slot [place] computes. *)
Lemma add_node_place T node : 0 <= expire node -> 0 <= time T ->
  add_node T node = link_at T (place (time T) (expire node)) node.
Proof.
  intros He Hc. unfold add_node, place.
  change TIME_NEAR_MASK with (2 ^ 8 - 1) at 1 2. rewrite lor_ones_eqb by lia.
  case_match; [simpl; by rewrite land_255|].
  unfold level_loop. change (Z.shiftl TIME_NEAR TIME_LEVEL_SHIFT) with (2 ^ 14).
  rewrite lor_ones_eqb by lia. case_match; simpl.
  { by rewrite land_63, Z.shiftr_div_pow2. }
  change (u32 (Z.shiftl (2 ^ 14) TIME_LEVEL_SHIFT)) with (2 ^ 20).
  rewrite lor_ones_eqb by lia. case_match; simpl.
  { by rewrite land_63, Z.shiftr_div_pow2. }
  change (u32 (Z.shiftl (2 ^ 20) TIME_LEVEL_SHIFT)) with (2 ^ 26).
  rewrite lor_ones_eqb by lia. case_match; simpl; by rewrite land_63, Z.shiftr_div_pow2.
Qed.

(** ** Slots as an array indexed by [loc] *)

Definition set_slot (T : timer) (p : loc) (l : link_list) : option timer :=
  match p with
  | Near i => let! n := aset (near T) i l in Some (set_wheel n (t T) T)
  | Level lv i =>
      let! row := aget (t T) lv in
      let! row := aset row i l in
      let! rows := aset (t T) lv row in
      Some (set_wheel (near T) rows T)
  end.

Definition valid_loc (p : loc) : Prop :=
  match p with
  | Near i => 0 <= i < 256
  | Level l i => 0 <= l < 4 /\ 0 <= i < 64
  end.

Definition shape (T : timer) : Prop :=
  length (near T) = 256%nat /\ length (t T) = 4%nat /\
  forall l row, aget (t T) l = Some row -> length row = 64%nat.

(** The fields of the clock, which wheel updates leave alone. *)
Definition same_clock (T T' : timer) : Prop :=
  time T' = time T /\ starttime T' = starttime T /\ current T' = current T /\
  current_point T' = current_point T.

#[export] Instance same_clock_preorder : PreOrder same_clock.
Proof.
  split; [by repeat split|]. intros T1 T2 T3 (?&?&?&?) (?&?&?&?).
  repeat split; congruence.
Qed.

Lemma slot_is_Some T p : shape T -> valid_loc p -> is_Some (slot T p).
Proof.
  intros (Hn & Ht & Hr) Hp. destruct p as [i|l i]; simpl in *.
  - apply aget_is_Some. lia.
  - destruct (aget_is_Some (t T) l) as [row Hrow]; [lia|]. rewrite Hrow. simpl.
    apply aget_is_Some. rewrite (Hr _ _ Hrow). lia.
Qed.

Lemma set_slot_spec T p l : shape T -> valid_loc p ->
  exists T', set_slot T p l = Some T' /\ shape T' /\ same_clock T T' /\
    forall p', slot T' p' = if decide (p' = p) then Some l else slot T p'.
Proof.
  intros (Hn & Ht & Hr) Hp. destruct p as [i|lv i]; simpl in *.
  - destruct (aset (near T) i l) as [n|] eqn:E; [|rewrite aset_Some in E by lia; done].
    eexists. split; [reflexivity|]. split; [|split; [by repeat split|]].
    + split; simpl; [by rewrite (aset_length _ _ _ _ E) | done].
    + intros [j|lv j]; cbn [slot near t set_wheel]; [|by rewrite decide_False].
      rewrite (aget_aset _ _ _ _ j E). destruct (Z.eqb_spec j i); case_decide; congruence.
  - destruct (aget_is_Some (t T) lv) as [row Hrow]; [lia|]. rewrite Hrow. pose proof (Hr _ _ Hrow).
    destruct (aset row i l) as [row'|] eqn:E; [|rewrite aset_Some in E by lia; done].
    destruct (aset (t T) lv row') as [rows|] eqn:E'; [|rewrite aset_Some in E' by lia; done].
    eexists. split; [reflexivity|]. split; [|split; [by repeat split|]].
    + split; simpl; [done|]. split; [by rewrite (aset_length _ _ _ _ E')|].
      intros k r. rewrite (aget_aset _ _ _ _ k E'). case_match; [|apply Hr].
      intros [= <-]. by rewrite (aset_length _ _ _ _ E).
    + intros [j|k j]; cbn [slot near t set_wheel]; [by rewrite decide_False|].
      rewrite (aget_aset _ _ _ _ k E'). destruct (Z.eqb_spec k lv) as [->|]; cbn [mbind option_bind].
      * rewrite (aget_aset _ _ _ _ j E), Hrow. cbn [mbind option_bind].
        destruct (Z.eqb_spec j i); case_decide; congruence.
      * rewrite decide_False by congruence. done.
Qed.

Lemma link_at_set_slot T p node :
  link_at T p node = let! l := slot T p in set_slot T p (l ++ [node]).
Proof.
  destruct p as [i|lv i]; simpl; unfold link_near, link_level, link.
  - by destruct (aget (near T) i).
  - destruct (aget (t T) lv) as [row|]; simpl; [|done]. by destruct (aget row i).
Qed.

Lemma move_list_set_slot T lv i : move_list T lv i =
  let! l := slot T (Level lv i) in
  let! T' := set_slot T (Level lv i) [] in
  add_nodes T' l.
Proof.
  unfold move_list, link_clear. simpl. destruct (aget (t T) lv) as [row|]; simpl; [|done].
  destruct (aget row i) as [l|]; simpl; [|done]. by repeat case_match; simplify_eq.
Qed.

(** ** Arithmetic of the wheel *)

(** A pending expiry: a 32-bit tick less than 2^31 ticks ahead of the clock. *)
Definition ahead (c e : Z) : Prop :=
  0 <= e < 2 ^ 32 /\ (e - c) mod 2 ^ 32 < 2 ^ 31.

(** The slot [timer_shift] empties when the clock reaches [ct]. *)
Definition moved (ct : Z) : option loc :=
  if ct =? 0 then Some (Level 3 0)
  else if negb (ct mod 2 ^ 8 =? 0) then None
  else if negb (ct / 2 ^ 8 mod 64 =? 0) then Some (Level 0 (ct / 2 ^ 8 mod 64))
  else if negb (ct / 2 ^ 14 mod 64 =? 0) then Some (Level 1 (ct / 2 ^ 14 mod 64))
  else if negb (ct / 2 ^ 20 mod 64 =? 0) then Some (Level 2 (ct / 2 ^ 20 mod 64))
  else Some (Level 3 (ct / 2 ^ 26 mod 64)).

Lemma place_valid c e : 0 <= c < 2 ^ 32 -> 0 <= e < 2 ^ 32 -> valid_loc (place c e).
Proof.
  intros Hc He. unfold place. repeat case_match; simpl; zpow; Z.div_mod_to_equations; lia.
Qed.


Lemma place_near c e : place c e = Near (c mod 2 ^ 8) <-> e = c.
Proof.
  unfold place. split.
  - repeat case_match; zbool; try discriminate. intros [= E]. zpow. Z.div_mod_to_equations. lia.
  - intros ->. by rewrite Z.eqb_refl.
Qed.

(** The quotients of a 32-bit tick by the slot widths, linked linearly. *)
Record chain (x x8 x14 x20 x26 : Z) : Prop := {
  ch8 : 256 * x8 <= x < 256 * x8 + 256;
  ch14 : 64 * x14 <= x8 < 64 * x14 + 64;
  ch20 : 64 * x20 <= x14 < 64 * x20 + 64;
  ch26 : 64 * x26 <= x20 < 64 * x26 + 64;
}.

Lemma chain_div x : chain x (x / 2 ^ 8) (x / 2 ^ 14) (x / 2 ^ 20) (x / 2 ^ 26).
Proof. split; zpow; Z.div_mod_to_equations; lia. Qed.

(** Digits as differences of quotients. *)
Lemma digit_eqs x : 0 <= x < 2 ^ 32 ->
  x mod 2 ^ 8 = x - 256 * (x / 2 ^ 8) /\ x / 2 ^ 8 mod 64 = x / 2 ^ 8 - 64 * (x / 2 ^ 14) /\
  x / 2 ^ 14 mod 64 = x / 2 ^ 14 - 64 * (x / 2 ^ 20) /\
  x / 2 ^ 20 mod 64 = x / 2 ^ 20 - 64 * (x / 2 ^ 26) /\ x / 2 ^ 26 mod 64 = x / 2 ^ 26.
Proof. intros. zpow. Z.div_mod_to_equations. lia. Qed.

Lemma next_tick c : 0 <= c < 2 ^ 32 -> 0 <= u32 (c + 1) < 2 ^ 32 /\
  (u32 (c + 1) = c + 1 \/ (u32 (c + 1) = 0 /\ c = 2 ^ 32 - 1)).
Proof. intros. unfold u32. zpow. Z.div_mod_to_equations. lia. Qed.

Lemma ahead_cases c e : 0 <= c < 2 ^ 32 -> ahead c e -> e <> c ->
  0 <= e < 2 ^ 32 /\ ((c < e /\ e - c < 2 ^ 31) \/ (e < c /\ e + 2 ^ 32 - c < 2 ^ 31)).
Proof. intros ? [He Hd] ?. split; [done|]. zpow. Z.div_mod_to_equations. lia. Qed.

(** Rewrites the digits of [x] and generalises its quotients. *)
Ltac quotients x :=
  let H := fresh in
  pose proof (digit_eqs x ltac:(assumption)) as H;
  rewrite ?(proj1 H), ?(proj1 (proj2 H)), ?(proj1 (proj2 (proj2 H))),
    ?(proj1 (proj2 (proj2 (proj2 H)))), ?(proj2 (proj2 (proj2 (proj2 H)))); clear H;
  pose proof (chain_div x) as H; revert H;
  generalize (x / 2 ^ 8) (x / 2 ^ 14) (x / 2 ^ 20) (x / 2 ^ 26); intros ? ? ? ? [].

(** When the clock advances, a pending node keeps its slot unless that slot is
    the one [timer_shift] empties. *)
Lemma place_tick c e : 0 <= c < 2 ^ 32 -> ahead c e -> e <> c ->
  moved (u32 (c + 1)) <> Some (place c e) -> place (u32 (c + 1)) e = place c e.
Proof.
  intros Hc Ha Hne. destruct (ahead_cases c e Hc Ha Hne) as [He He']. clear Ha.
  destruct (next_tick c Hc) as [Hct Hcc]. revert Hct Hcc. generalize (u32 (c + 1)).
  intros ct Hct Hcc. unfold place, moved. quotients c. quotients e. quotients ct. zpow.
  destruct Hcc as [->|[-> ->]]; [destruct He' as [He'|He']|]; repeat case_match; zbool;
    try reflexivity; try (intros; exfalso; lia);
    intros Hn; exfalso; apply Hn; f_equal; f_equal; lia.
Qed.

(** The prefix a slot's nodes share with the clock [c], below the top level. *)
Definition same_block (p : loc) (x c : Z) : Prop :=
  match p with
  | Near _ => x / 2 ^ 8 = c / 2 ^ 8
  | Level l _ =>
      (l = 0 /\ x / 2 ^ 14 = c / 2 ^ 14) \/ (l = 1 /\ x / 2 ^ 20 = c / 2 ^ 20) \/
      (l = 2 /\ x / 2 ^ 26 = c / 2 ^ 26) \/ l = 3
  end.

Lemma place_block c e : same_block (place c e) e c.
Proof. unfold place. repeat case_match; simpl; zbool; auto 6. Qed.

(** A node of the emptied slot lands in a block that has just begun. *)
Lemma moved_lands c e : 0 <= c < 2 ^ 32 -> ahead c e -> e <> c ->
  moved (u32 (c + 1)) = Some (place c e) -> ~ same_block (place (u32 (c + 1)) e) (u32 (c + 1)) c.
Proof.
  intros Hc Ha Hne. destruct (ahead_cases c e Hc Ha Hne) as [He He']. clear Ha.
  destruct (next_tick c Hc) as [Hct Hcc]. revert Hct Hcc. generalize (u32 (c + 1)).
  intros ct Hct Hcc. unfold place, moved, same_block.
  quotients c. quotients e. quotients ct. zpow.
  destruct Hcc as [->|[-> ->]]; [destruct He' as [He'|He']|];
    repeat (case_match; try discriminate); zbool; intros; simplify_eq; lia.
Qed.

(** The nodes of the emptied slot move to slots that hold no other node. *)
Lemma moved_fresh c e e' : 0 <= c < 2 ^ 32 -> ahead c e -> e <> c -> ahead c e' -> e' <> c ->
  moved (u32 (c + 1)) = Some (place c e) -> place c e' <> place (u32 (c + 1)) e.
Proof.
  intros Hc Ha Hne Ha' Hne' Hm Heq. pose proof (moved_lands c e Hc Ha Hne Hm) as Hl.
  destruct (ahead_cases c e' Hc Ha' Hne') as [He' Hd'].
  pose proof (place_block c e') as Hb. rewrite Heq in Hb.
  destruct (next_tick c Hc) as [Hct Hcc]. revert Hct Hcc Hl Hb. generalize (place (u32 (c + 1)) e).
  generalize (u32 (c + 1)). clear -Hc He' Hd'. intros ct p Hct Hcc Hl Hb.
  destruct p; simpl in *; zpow; Z.div_mod_to_equations; lia.
Qed.
