(* ===== verification/TimerSpec.v ===== *)
(** * Correctness of the timing wheel

    The wheel of [Timer.v] refines an abstract timer that keeps its pending
    nodes in one list: a tick fires exactly the nodes that expire at the new
    time, in the order they were added, whatever other threads add meanwhile
    and also when the 32-bit clock wraps around. *)

From S2P Require Import Prelude Message Timer.

(** ** The wheel as the list of its pending nodes, oldest first *)

Definition at_slot (c : Z) (p : loc) (n : timer_node) : Prop := place c (expire n) = p.

#[export] Instance at_slot_dec c p n : Decision (at_slot c p n).
Proof. unfold at_slot. apply _. Defined.

Record wheel_rep (T : timer) (pend : list timer_node) : Prop := {
  wr_shape : shape T;
  wr_time : 0 <= time T < 2 ^ 32;
  wr_ahead : Forall (fun n => ahead (time T) (expire n)) pend;
  wr_slot : forall p, valid_loc p -> slot T p = Some (filter (at_slot (time T) p) pend);
}.

Lemma wheel_rep_create : wheel_rep timer_create_timer [].
Proof.
  split; simpl.
  - split; [done|]. split; [done|]. intros l row [_ Hl]%aget_Some. simpl in Hl.
    apply list_elem_of_lookup_2 in Hl. set_solver.
  - lia.
  - constructor.
  - intros [i|l i] Hv; cbn [slot valid_loc] in *.
    + apply aget_Some. split; [lia|]. apply lookup_replicate. split; [done|].
      change (Z.to_nat TIME_NEAR) with 256%nat. lia.
    + destruct (aget_is_Some (t timer_create_timer) l) as [row Hrow]; [simpl; lia|].
      rewrite Hrow. simpl. apply aget_Some in Hrow as [_ Hrow].
      change (t timer_create_timer) with (replicate 4 (replicate (Z.to_nat TIME_LEVEL) (@nil timer_node))) in Hrow.
      apply lookup_replicate in Hrow as [-> _].
      apply aget_Some. split; [lia|]. apply lookup_replicate. split; [done|].
      change (Z.to_nat TIME_LEVEL) with 64%nat. lia.
Qed.

(** Re-adding nodes one by one appends each to the slot of its place. *)
Lemma add_nodes_spec T nodes : shape T -> 0 <= time T < 2 ^ 32 ->
  Forall (fun n => 0 <= expire n < 2 ^ 32) nodes ->
  (forall p, valid_loc p -> is_Some (slot T p)) ->
  exists T', add_nodes T nodes = Some T' /\ shape T' /\ same_clock T T' /\
    forall p l, valid_loc p -> slot T p = Some l ->
      slot T' p = Some (l ++ filter (at_slot (time T) p) nodes).
Proof.
  revert T. induction nodes as [|n nodes IH]; intros T HT Ht Hn Hs; simpl.
  { exists T. split_and!; try done. intros p l _ ->. by rewrite app_nil_r. }
  apply Forall_cons in Hn as [Hn Hns].
  rewrite add_node_place, link_at_set_slot by lia.
  destruct (Hs (place (time T) (expire n))) as [l0 Hl0]; [by apply place_valid|]. rewrite Hl0.
  destruct (set_slot_spec T (place (time T) (expire n)) (l0 ++ [n]))
    as (T1 & -> & HT1 & Hc1 & Hs1); [done | by apply place_valid |].
  pose proof Hc1 as (Ht1 & _). destruct (IH T1) as (T' & -> & HT' & Hc' & Hs'); try done.
  - by rewrite Ht1.
  - intros p Hp. rewrite Hs1. case_decide; eauto.
  - exists T'. split_and!; try done; [by etrans|]. intros p l Hp Hl. rewrite Ht1 in Hs'.
    rewrite filter_cons. unfold at_slot at 1.
    destruct (decide (place (time T) (expire n) = p)) as [E|E].
    + rewrite (Hs' p (l ++ [n])); [by rewrite <- app_assoc | done |].
      rewrite Hs1, decide_True by done. congruence.
    + rewrite (Hs' p l); [done | done |]. by rewrite Hs1, decide_False.
Qed.

Lemma timer_add_rep T pend e d : wheel_rep T pend -> 0 < d <= INT_MAX ->
  exists T', timer_add T e d = Some T' /\ same_clock T T' /\
    wheel_rep T' (pend ++ [MkNode (u32 (d + time T)) e]).
Proof.
  intros [Hsh Ht Ha Hs] Hd. unfold INT_MAX in Hd. pose proof (u32_range (d + time T)).
  destruct (add_nodes_spec T [MkNode (u32 (d + time T)) e]) as (T' & HT' & Hsh' & Hc' & Hs');
    [done | done | by apply Forall_singleton | |].
  { intros p Hp. rewrite Hs by done. eauto. }
  unfold timer_add. simpl in HT'. destruct (add_node _ _) as [T0|] eqn:E; simplify_eq.
  exists T'. split_and!; try done. pose proof Hc' as (Ht' & _). split; rewrite ?Ht'; try done.
  - apply Forall_app. split; [done|]. constructor; [|done]. split; [done|]. simpl.
    unfold u32. rewrite Zminus_mod_idemp_l. rewrite Z.mod_small; zlia.
  - intros p Hp. rewrite (Hs' p _ Hp (Hs p Hp)). by rewrite filter_app.
Qed.

(** ** The abstract timer

    The pending nodes in the order they were added; a tick fires those that
    expire at the new time. *)
Definition due (c : Z) (n : timer_node) : Prop := expire n = c.

#[export] Instance due_dec c n : Decision (due c n).
Proof. unfold due. apply _. Defined.

Definition not_due (c : Z) (n : timer_node) : Prop := expire n <> c.

#[export] Instance not_due_dec c n : Decision (not_due c n).
Proof. unfold not_due. apply _. Defined.

Lemma filter_ext_Forall {A} (P Q : A -> Prop) `{!forall x, Decision (P x), !forall x, Decision (Q x)}
  (l : list A) : Forall (fun x => P x <-> Q x) l -> filter P l = filter Q l.
Proof.
  induction 1 as [|x l Hx _ IH]; [done|]. rewrite !filter_cons, IH.
  destruct (decide (P x)), (decide (Q x)); tauto.
Qed.

Lemma filter_filter_ext {A} (P Q R : A -> Prop)
  `{!forall x, Decision (P x), !forall x, Decision (Q x), !forall x, Decision (R x)} (l : list A) :
  Forall (fun x => (P x /\ Q x) <-> R x) l -> filter P (filter Q l) = filter R l.
Proof.
  induction 1 as [|x l Hx _ IH]; [done|]. rewrite !filter_cons, <- IH.
  destruct (decide (Q x)) as [HQ|HQ]; [rewrite filter_cons; destruct (decide (P x))|];
    destruct (decide (R x)); try tauto.
Qed.

Lemma filter_none {A} (P : A -> Prop) `{!forall x, Decision (P x)} (l : list A) :
  Forall (fun x => ~ P x) l -> filter P l = [].
Proof. induction 1 as [|x l Hx _ IH]; [done|]. rewrite filter_cons. by destruct (decide (P x)). Qed.

Lemma filter_all {A} (P : A -> Prop) `{!forall x, Decision (P x)} (l : list A) :
  Forall P l -> filter P l = l.
Proof. induction 1 as [|x l Hx _ IH]; [done|]. rewrite filter_cons, decide_True by done. by f_equal. Qed.

(** ** [timer_shift] *)

(** The loop ends within its four iterations, before [mask] can overflow, and
    moves the slot [moved] names. *)
Lemma timer_shift_moved T : 0 <= time T < 2 ^ 32 ->
  timer_shift T =
    let ct := u32 (time T + 1) in
    match moved ct with
    | Some (Level l i) => move_list (set_time ct T) l i
    | _ => Some (set_time ct T)
    end.
Proof.
  intros Ht. unfold timer_shift, moved. pose proof (u32_range (time T + 1)) as Hr.
  generalize dependent (u32 (time T + 1)). intros ct Hr. clear Ht. cbv zeta.
  destruct (Z.eqb_spec ct 0) as [|Hnz]; [done|].
  assert (forall a b, 0 <= a -> 0 <= b -> Z.shiftr (ct / 2 ^ a) b = ct / 2 ^ (a + b)) as Hsh.
  { intros a b Ha Hb. rewrite Z.shiftr_div_pow2, Z.div_div, Z.pow_add_r by lia. done. }
  unfold shift_loop. rewrite Z.shiftr_div_pow2 by (unfold TIME_NEAR_SHIFT; lia).
  change TIME_NEAR with (2 ^ 8). change TIME_NEAR_SHIFT with 8. change TIME_LEVEL_SHIFT with 6.
  change (i32 (Z.shiftl (2 ^ 8) 6)) with (2 ^ 14).
  change (i32 (Z.shiftl (2 ^ 14) 6)) with (2 ^ 20).
  change (i32 (Z.shiftl (2 ^ 20) 6)) with (2 ^ 26).
  rewrite !land_low, !land_63, !Hsh by lia.
  change (8 + 6) with 14. change (14 + 6) with 20. change (20 + 6) with 26.
  destruct (Z.eqb_spec (ct mod 2 ^ 8) 0) as [E8|]; simpl; [|done].
  destruct (Z.eqb_spec (ct / 2 ^ 8 mod 64) 0) as [E14|]; simpl; [|done].
  destruct (Z.eqb_spec (ct mod 2 ^ 14) 0) as [E14'|]; [|exfalso; zpow; Z.div_mod_to_equations; lia].
  destruct (Z.eqb_spec (ct / 2 ^ 14 mod 64) 0) as [E20|]; simpl; [|done].
  destruct (Z.eqb_spec (ct mod 2 ^ 20) 0) as [E20'|]; [|exfalso; zpow; Z.div_mod_to_equations; lia].
  destruct (Z.eqb_spec (ct / 2 ^ 20 mod 64) 0) as [E26|]; simpl; [|done].
  destruct (Z.eqb_spec (ct mod 2 ^ 26) 0) as [E26'|]; [|exfalso; zpow; Z.div_mod_to_equations; lia].
  destruct (Z.eqb_spec (ct / 2 ^ 26 mod 64) 0) as [E32|]; simpl; [|done].
  exfalso. clear Hsh. zpow. Z.div_mod_to_equations. lia.
Qed.

Lemma moved_level ct p : 0 <= ct < 2 ^ 32 -> moved ct = Some p ->
  exists l i, p = Level l i /\ valid_loc p.
Proof.
  intros Hc. unfold moved. repeat case_match; intros [= <-]; do 2 eexists; (split; [reflexivity|]);
    simpl; zpow; Z.div_mod_to_equations; lia.
Qed.

Lemma ahead_tick c e : 0 <= c < 2 ^ 32 -> ahead c e -> e <> c -> ahead (u32 (c + 1)) e.
Proof.
  intros Hc [He Hd] Hne. split; [done|]. unfold u32. revert He Hd Hc Hne. zpow. clear. intros.
  rewrite Zminus_mod_idemp_r. Z.div_mod_to_equations. lia.
Qed.

(** What a slot holds after the emptied slot's nodes are added again is what it
    should hold at the new time. *)
Lemma filter_moved c pend M p : 0 <= c < 2 ^ 32 ->
  Forall (fun n => ahead c (expire n)) pend -> Forall (not_due c) pend ->
  moved (u32 (c + 1)) = Some M ->
  (if decide (p = M) then [] else filter (at_slot c p) pend) ++
    filter (at_slot (u32 (c + 1)) p) (filter (at_slot c M) pend)
  = filter (at_slot (u32 (c + 1)) p) pend.
Proof.
  intros Hc Ha Hnd HM. set (ct := u32 (c + 1)).
  assert (Hstay : forall n, n ∈ pend -> place c (expire n) <> M ->
    place ct (expire n) = place c (expire n)).
  { intros n Hn Hne. rewrite Forall_forall in Ha, Hnd.
    apply place_tick; [done | by apply Ha | by apply Hnd | congruence]. }
  assert (Hfresh : forall n n', n ∈ pend -> n' ∈ pend -> place c (expire n) = M ->
    place c (expire n') <> place ct (expire n)).
  { intros n n' Hn Hn' Hp. rewrite Forall_forall in Ha, Hnd.
    apply moved_fresh; try done; try (by apply Ha); try (by apply Hnd). congruence. }
  destruct (decide (Exists (fun n => at_slot c M n /\ at_slot ct p n) pend)) as [Hex|Hno].
  - apply Exists_exists in Hex as (n & Hn & Hc1 & Hc2). unfold at_slot in Hc1, Hc2.
    assert ((if decide (p = M) then [] else filter (at_slot c p) pend) = []) as ->.
    { case_decide; [done|]. apply filter_none, Forall_forall. intros n' Hn' Hp.
      apply (Hfresh n n' Hn Hn' Hc1). unfold at_slot in Hp. congruence. }
    simpl. apply filter_filter_ext, Forall_forall. intros n' Hn'. unfold at_slot.
    split; [tauto|]. intros Hp. split; [done|].
    destruct (decide (place c (expire n') = M)) as [|Hne]; [done|]. exfalso.
    apply (Hfresh n n' Hn Hn' Hc1). rewrite <- (Hstay n' Hn' Hne). congruence.
  - rewrite (filter_none _ (filter (at_slot c M) pend)), app_nil_r.
    2:{ apply Forall_forall. intros n [Hn1 Hn2]%list_elem_of_filter Hp. apply Hno, Exists_exists. eauto. }
    case_decide as Hp.
    + symmetry. apply filter_none, Forall_forall. intros n Hn Hat. unfold at_slot in Hat.
      destruct (decide (place c (expire n) = M)) as [E|E].
      * apply (Hfresh n n Hn Hn E). congruence.
      * rewrite (Hstay n Hn E) in Hat. congruence.
    + apply filter_ext_Forall, Forall_forall. intros n Hn. unfold at_slot.
      destruct (decide (place c (expire n) = M)) as [E|E].
      * split; [congruence|]. intros Hct. exfalso. apply Hno, Exists_exists. exists n.
        unfold at_slot. done.
      * by rewrite (Hstay n Hn E).
Qed.

Lemma timer_shift_rep T pend : wheel_rep T pend -> Forall (not_due (time T)) pend ->
  exists T', timer_shift T = Some T' /\ same_clock (set_time (u32 (time T + 1)) T) T' /\
    wheel_rep T' pend.
Proof.
  intros [Hsh Ht Ha Hs] Hnd. rewrite timer_shift_moved by done. cbv zeta.
  set (ct := u32 (time T + 1)). pose proof (u32_range (time T + 1)) as Hct.
  assert (Forall (fun n => ahead ct (expire n)) pend) as Ha'.
  { rewrite Forall_forall in Ha, Hnd |- *. intros n Hn.
    apply ahead_tick; [done | by apply Ha | by apply Hnd]. }
  destruct (moved ct) as [M|] eqn:EM.
  - destruct (moved_level _ _ Hct EM) as (l & i & -> & Hv). rewrite move_list_set_slot.
    change (slot (set_time ct T) (Level l i)) with (slot T (Level l i)). rewrite Hs by done.
    destruct (set_slot_spec (set_time ct T) (Level l i) []) as (T1 & -> & Hsh1 & Hc1 & Hs1); [done..|].
    pose proof Hc1 as (Ht1 & _). simpl in Ht1.
    destruct (add_nodes_spec T1 (filter (at_slot (time T) (Level l i)) pend))
      as (T' & -> & Hsh' & Hc' & Hs'); try done; [by rewrite Ht1 | | |].
    { apply Forall_forall. intros n [_ Hn]%list_elem_of_filter.
      rewrite Forall_forall in Ha. by destruct (Ha n Hn). }
    { intros p Hp. rewrite Hs1. case_decide; [eauto|].
      change (slot (set_time ct T) p) with (slot T p). rewrite Hs by done. eauto. }
    exists T'. split; [done|]. split; [by etrans|]. pose proof Hc' as (Ht' & _).
    rewrite Ht1 in Ht'. split; rewrite ?Ht'; try done.
    intros p Hp. subst ct. rewrite <- (filter_moved (time T) pend (Level l i) p) by done.
    rewrite <- Ht1. apply Hs'; [done|]. rewrite Hs1.
    case_decide; [done|]. by apply (Hs p).
  - exists (set_time ct T). split; [done|]. split; [reflexivity|]. split; simpl; try done.
    intros p Hp. change (slot (set_time ct T) p) with (slot T p). rewrite Hs by done. f_equal.
    apply filter_ext_Forall, Forall_forall. intros n Hn. unfold at_slot.
    rewrite Forall_forall in Ha, Hnd. unfold ct.
    rewrite place_tick; [done | done | by apply Ha | by apply Hnd | unfold ct in EM; congruence].
Qed.

(** ** [timer_execute] and [timer_update] *)

Definition window_ok (adds : list (timer_event * Z)) : Prop :=
  Forall (fun a => 0 < snd a <= INT_MAX) adds.

Definition window_nodes (c : Z) (adds : list (timer_event * Z)) : list timer_node :=
  map (fun a => MkNode (u32 (snd a + c)) (fst a)) adds.

(** Firing the nodes due at [c]: the nodes left, with those added in the
    unlocked window, and the windows left. *)
Definition spec_execute (c : Z) (pend : list timer_node)
  (windows : list (list (timer_event * Z)))
  : list timer_node * list (list (timer_event * Z)) :=
  match filter (due c) pend with
  | [] => (pend, windows)
  | _ :: _ => (filter (not_due c) pend ++ window_nodes c (default [] (head windows)), tail windows)
  end.

Lemma near_slot T pend : wheel_rep T pend ->
  aget (near T) (Z.land (time T) TIME_NEAR_MASK) = Some (filter (due (time T)) pend).
Proof.
  intros [Hsh Ht Ha Hs]. rewrite land_255.
  specialize (Hs (Near (time T mod 2 ^ 8))). simpl in Hs. rewrite Hs.
  - f_equal. apply filter_ext_Forall, Forall_forall. intros n _. apply place_near.
  - pose proof (Z.mod_pos_bound (time T) (2 ^ 8)). zlia.
Qed.

Lemma clear_near T pend : wheel_rep T pend ->
  exists n, aset (near T) (Z.land (time T) TIME_NEAR_MASK) [] = Some n /\
    wheel_rep (set_wheel n (t T) T) (filter (not_due (time T)) pend).
Proof.
  intros [Hsh Ht Ha Hs]. rewrite land_255. set (p := Near (time T mod 2 ^ 8)).
  assert (valid_loc p) as Hp.
  { simpl. pose proof (Z.mod_pos_bound (time T) (2 ^ 8)). zlia. }
  destruct (set_slot_spec T p [] Hsh Hp) as (T1 & HT1 & Hsh1 & Hc1 & Hs1). simpl in HT1.
  destruct (aset (near T) (time T mod 2 ^ 8) []) as [n|]; [|done]. simplify_eq.
  exists n. split; [done|]. split; try done.
  - apply Forall_forall. intros x [_ Hx]%list_elem_of_filter. rewrite Forall_forall in Ha. by apply Ha.
  - intros p' Hp'. rewrite Hs1. change (time (set_wheel n (t T) T)) with (time T). case_decide as E.
    + f_equal. symmetry. apply filter_none, Forall_forall. intros x [Hx _]%list_elem_of_filter Hat.
      unfold at_slot in Hat. rewrite E in Hat. apply place_near in Hat. done.
    + rewrite Hs by done. f_equal. symmetry. apply filter_filter_ext, Forall_forall. intros x _.
      split; [tauto|]. intros Hx. split; [done|]. intros Hd. apply E. unfold at_slot in Hx.
      rewrite <- Hx, Hd. by apply place_near.
Qed.

Lemma add_window_rep T pend adds : wheel_rep T pend -> window_ok adds ->
  exists T', add_window T adds = Some T' /\ same_clock T T' /\
    wheel_rep T' (pend ++ window_nodes (time T) adds).
Proof.
  intros HT Ha. revert T pend HT. induction Ha as [|[e d] adds Hd Ha IH]; intros T pend HT; simpl.
  - exists T. rewrite app_nil_r. split_and!; done.
  - destruct (timer_add_rep T pend e d HT Hd) as (T1 & -> & Hc1 & HT1).
    destruct (IH T1 _ HT1) as (T' & -> & Hc' & HT'). exists T'. split; [done|].
    split; [by etrans|]. destruct Hc1 as (Ht1 & _). rewrite Ht1, <- app_assoc in HT'. done.
Qed.

Lemma window_nodes_not_due c adds : 0 <= c < 2 ^ 32 -> window_ok adds ->
  Forall (not_due c) (window_nodes c adds).
Proof.
  intros Hc Ha. apply Forall_map. eapply Forall_impl; [exact Ha|]. intros [e d] Hd. simpl in *.
  unfold not_due, INT_MAX, u32 in *. simpl. zpow. Z.div_mod_to_equations. lia.
Qed.

Lemma spec_execute_not_due c pend windows : 0 <= c < 2 ^ 32 -> Forall window_ok windows ->
  Forall (not_due c) (spec_execute c pend windows).1 /\
  Forall window_ok (spec_execute c pend windows).2.
Proof.
  intros Hc Hw. unfold spec_execute. destruct (filter (due c) pend) eqn:E; simpl.
  - split; [|done]. apply Forall_forall. intros n Hn Hd.
    assert (n ∈ filter (due c) pend) as Hin by (by apply list_elem_of_filter).
    rewrite E in Hin. set_solver.
  - split.
    + apply Forall_app. split.
      * apply Forall_forall. by intros n [? _]%list_elem_of_filter.
      * apply window_nodes_not_due; [done|]. destruct Hw; simpl; [constructor|done].
    + by destruct Hw.
Qed.

Section Refinement.
Context {W : Type} `{ContextPush W}.

Lemma timer_execute_rep T pend (w : W) windows fuel :
  wheel_rep T pend -> Forall window_ok windows -> (1 <= fuel)%nat ->
  exists T', timer_execute fuel T w windows =
      Some (T', dispatch_list (filter (due (time T)) pend) w,
            (spec_execute (time T) pend windows).2) /\
    same_clock T T' /\ wheel_rep T' (spec_execute (time T) pend windows).1.
Proof.
  intros HT Hw Hf. destruct fuel as [|fuel]; [lia|].
  pose proof (spec_execute_not_due (time T) pend windows (wr_time _ _ HT) Hw) as [Hnd _].
  cbn [timer_execute]. rewrite (near_slot _ _ HT). unfold spec_execute in *.
  destruct (filter (due (time T)) pend) as [|n l] eqn:E; simpl.
  { exists T. by split_and!. }
  destruct (clear_near _ _ HT) as (nr & -> & HT1).
  destruct (add_window_rep _ _ (default [] (head windows)) HT1) as (T2 & -> & Hc2 & HT2).
  { destruct Hw; [constructor | done]. }
  simpl in Hnd. pose proof Hc2 as (Ht2 & _). simpl in *.
  assert (timer_execute fuel T2 (dispatch_list (n :: l) w) (tail windows) =
    Some (T2, dispatch_list (n :: l) w, tail windows)) as Hend.
  { destruct fuel; cbn [timer_execute]; rewrite (near_slot _ _ HT2), Ht2;
      (rewrite filter_none; [done|]; eapply Forall_impl; [exact Hnd|]; by unfold not_due, due). }
  simpl in Hend. rewrite Hend. exists T2. by split_and!.
Qed.

Lemma timer_update_sim T pend (w : W) windows fuel :
  wheel_rep T pend -> Forall window_ok windows -> (1 <= fuel)%nat ->
  let c := time T in let ct := u32 (c + 1) in
  let '(pend1, windows1) := spec_execute c pend windows in
  let '(pend2, windows2) := spec_execute ct pend1 windows1 in
  exists T', timer_update fuel T w windows =
      Some (T', dispatch_list (filter (due ct) pend1) (dispatch_list (filter (due c) pend) w),
            windows2) /\
    same_clock (set_time ct T) T' /\ wheel_rep T' pend2.
Proof.
  intros HT Hw Hf. cbv zeta.
  pose proof (spec_execute_not_due (time T) pend windows (wr_time _ _ HT) Hw) as [Hnd Hw1].
  destruct (timer_execute_rep T pend w windows fuel HT Hw Hf) as (T1 & HT1 & Hc1 & Hr1).
  destruct (spec_execute (time T) pend windows) as [pend1 windows1] eqn:E1. simpl in *.
  unfold timer_update. rewrite HT1. pose proof Hc1 as (Ht1 & Hs1 & Hcu1 & Hcp1).
  destruct (timer_shift_rep T1 pend1 Hr1) as (T2 & -> & Hc2 & Hr2); [by rewrite Ht1|].
  pose proof Hc2 as (Ht2 & Hs2 & Hcu2 & Hcp2). simpl in *. rewrite Ht1 in Ht2.
  destruct (timer_execute_rep T2 pend1 (dispatch_list (filter (due (time T)) pend) w)
    windows1 fuel Hr2 Hw1 Hf) as (T3 & HT3 & Hc3 & Hr3).
  rewrite Ht2 in HT3, Hr3.
  destruct (spec_execute (u32 (time T + 1)) pend1 windows1) as [pend2 windows2]. simpl in *.
  exists T3. split; [done|]. split; [|done]. destruct Hc3 as (?&?&?&?).
  repeat split; simpl; congruence.
Qed.

(** C14: One [timer_update] refines one tick of the abstract timer, for every set of
    additions other threads make in the unlocked windows: it dispatches the
    nodes due now and then the nodes due at the next tick, each group in the
    order of addition, and the wheel holds exactly the other nodes. *)
Theorem timer_update_refines T pend (w : W) windows fuel :
  wheel_rep T pend -> Forall window_ok windows -> (1 <= fuel)%nat ->
  let c := time T in let ct := u32 (c + 1) in
  let '(pend1, windows1) := spec_execute c pend windows in
  let '(pend2, windows2) := spec_execute ct pend1 windows1 in
  exists T', timer_update fuel T w windows =
      Some (T', dispatch_list (filter (due ct) pend1) (dispatch_list (filter (due c) pend) w),
            windows2) /\
    same_clock (set_time ct T) T' /\ wheel_rep T' pend2.
Proof. apply timer_update_sim. Qed.
End Refinement.

(** ** Many ticks *)

(** What the next [n] ticks fire: tick by tick, each in the order of addition. *)
Definition fired (c : Z) (n : nat) (pend : list timer_node) : list timer_node :=
  concat ((fun j => filter (due (u32 (c + j))) pend) <$> seqZ 1 (Z.of_nat n)).

(** What is still pending after [n] ticks. *)
Definition later (c : Z) (n : nat) (x : timer_node) : Prop :=
  Z.of_nat n < (expire x - c) mod 2 ^ 32.

#[export] Instance later_dec c n x : Decision (later c n x).
Proof. unfold later. apply _. Defined.

Lemma u32_add_l a b : u32 (u32 a + b) = u32 (a + b).
Proof. unfold u32. apply Zplus_mod_idemp_l. Qed.

Lemma fired_S c n pend : Z.of_nat (S n) < 2 ^ 32 ->
  fired c (S n) pend =
    filter (due (u32 (c + 1))) pend ++ fired (u32 (c + 1)) n (filter (not_due (u32 (c + 1))) pend).
Proof.
  intros Hn. unfold fired. rewrite Nat2Z.inj_succ, seqZ_cons, Z.pred_succ by lia. simpl. f_equal.
  change (Z.succ 1) with (1 + 1). rewrite <- (fmap_add_seqZ 1 1), <- list_fmap_compose. f_equal.
  apply list_fmap_ext. intros i j [-> Hj]%lookup_seqZ. unfold compose.
  assert (1 <= 1 + Z.of_nat i < 2 ^ 32 - 1) as Hj' by lia. clear Hj Hn. revert Hj'.
  generalize (1 + Z.of_nat i). intros j Hj.
  rewrite u32_add_l. replace (c + 1 + j) with (c + (1 + j)) by lia. symmetry.
  apply filter_filter_ext, Forall_forall. intros x _. unfold due, not_due. split; [tauto|].
  intros Hx. split; [done|]. rewrite Hx. unfold u32. zpow. Z.div_mod_to_equations. lia.
Qed.

(** What is pending after one tick and then [n] more. *)
Lemma later_S c n pend : 0 <= c < 2 ^ 32 -> Forall (fun x => ahead c (expire x)) pend ->
  Forall (not_due c) pend ->
  filter (later (u32 (c + 1)) n) (filter (not_due (u32 (c + 1))) pend) = filter (later c (S n)) pend.
Proof.
  intros Hc Ha Hnd. apply filter_filter_ext, Forall_forall. intros x Hx.
  rewrite Forall_forall in Ha, Hnd. destruct (Ha x Hx) as [He Hd]. specialize (Hnd x Hx).
  unfold later, not_due, u32 in *. rewrite Zminus_mod_idemp_r. revert Hc He Hd Hnd. zpow. clear.
  intros. Z.div_mod_to_equations. lia.
Qed.

Lemma dispatch_list_app `{ContextPush W} l1 l2 (w : W) :
  dispatch_list (l1 ++ l2) w = dispatch_list l2 (dispatch_list l1 w).
Proof. unfold dispatch_list. apply foldl_app. Qed.

Lemma filter_due_none c pend : Forall (not_due c) pend -> filter (due c) pend = [].
Proof. intros H. apply filter_none. eapply Forall_impl; [exact H|]. by unfold not_due, due. Qed.

Lemma fired_app c a b pend :
  fired c (a + b) pend = fired c a pend ++ fired (u32 (c + Z.of_nat a)) b pend.
Proof.
  unfold fired. rewrite Nat2Z.inj_add, seqZ_app, fmap_app, concat_app by lia. f_equal. f_equal.
  replace (1 + Z.of_nat a) with (Z.of_nat a + 1) by lia.
  rewrite <- (fmap_add_seqZ (Z.of_nat a) 1), <- list_fmap_compose.
  apply list_fmap_ext. intros i j _. unfold compose. by rewrite u32_add_l, Z.add_assoc.
Qed.

(** A node expiring at tick [d] is fired by tick [d] only, after the older ones
    that expire with it. *)
Lemma fired_snoc_other c n pend x :
  (forall j, 1 <= j <= Z.of_nat n -> expire x <> u32 (c + j)) ->
  fired c n (pend ++ [x]) = fired c n pend.
Proof.
  intros Hx. unfold fired. f_equal. apply list_fmap_ext. intros i j [-> Hj]%lookup_seqZ.
  rewrite filter_app, (filter_none _ [x]), app_nil_r; [done|].
  constructor; [|constructor]. unfold due. apply Hx. lia.
Qed.

Lemma fired_1 c pend : fired c 1 pend = filter (due (u32 (c + 1))) pend.
Proof. unfold fired. change (seqZ 1 (Z.of_nat 1)) with [1]. simpl. by rewrite app_nil_r. Qed.

Lemma fired_snoc c n d pend e : 0 < d <= Z.of_nat n -> Z.of_nat n < 2 ^ 32 ->
  let x := MkNode (u32 (d + c)) e in
  fired c n (pend ++ [x]) =
    fired c (Z.to_nat d) pend ++ [x] ++ fired (u32 (c + d)) (n - Z.to_nat d) pend.
Proof.
  intros Hd Hn x. assert (exists a b : nat, Z.of_nat a + 1 = d /\ n = (a + (1 + b))%nat) as (a & b & Ha & ->).
  { exists (Z.to_nat (d - 1)), (n - Z.to_nat d)%nat. lia. }
  replace (Z.to_nat d) with (a + 1)%nat by lia.
  replace (a + (1 + b) - (a + 1))%nat with b by lia.
  rewrite !fired_app, !u32_add_l, !fired_1, !u32_add_l, filter_app.
  replace (c + Z.of_nat a + Z.of_nat 1) with (c + d) by lia.
  replace (c + Z.of_nat a + 1) with (c + d) by lia.
  rewrite !fired_snoc_other, <- !app_assoc.
  - f_equal. f_equal. rewrite filter_cons, decide_True; [done|]. unfold due. simpl. by rewrite Z.add_comm.
  - intros j Hj. simpl. rewrite u32_add_l. unfold u32. revert Hd Hn Ha Hj. zpow. clear. intros.
    Z.div_mod_to_equations. lia.
  - intros j Hj. simpl. unfold u32. revert Hd Hn Ha Hj. zpow. clear. intros.
    Z.div_mod_to_equations. lia.
Qed.

Section Ticks.
Context {W : Type} `{ContextPush W}.

Lemma timer_updates_rep n T pend (w : W) :
  wheel_rep T pend -> Forall (not_due (time T)) pend -> Z.of_nat n < 2 ^ 32 ->
  exists T', timer_updates n T w = Some (T', dispatch_list (fired (time T) n pend) w) /\
    same_clock (set_time (u32 (time T + Z.of_nat n)) T) T' /\
    wheel_rep T' (filter (later (time T) n) pend) /\
    Forall (not_due (time T')) (filter (later (time T) n) pend).
Proof.
  revert T pend w. induction n as [|n IH]; intros T pend w HT Hnd Hn.
  - exists T. pose proof (wr_time _ _ HT) as Ht.
    assert (filter (later (time T) 0) pend = pend) as ->.
    { apply filter_all, Forall_forall. intros x Hx. pose proof (wr_ahead _ _ HT) as Ha.
      rewrite Forall_forall in Ha, Hnd. destruct (Ha x Hx) as [He _]. specialize (Hnd x Hx).
      unfold later, not_due in *. revert He Ht Hnd. zpow. clear. intros. Z.div_mod_to_equations. lia. }
    simpl. rewrite Z.add_0_r, (u32_small _ Ht). by destruct T.
  - pose proof (timer_update_sim T pend w [] 1 HT ltac:(constructor) ltac:(lia)) as Hstep. cbv zeta in Hstep.
    unfold spec_execute in Hstep. rewrite (filter_due_none _ _ Hnd) in Hstep.
    set (ct := u32 (time T + 1)) in *.
    assert (exists T1, timer_update 1 T w [] = Some (T1, dispatch_list (filter (due ct) pend) w, []) /\
      same_clock (set_time ct T) T1 /\ wheel_rep T1 (filter (not_due ct) pend))
      as (T1 & HT1 & Hc1 & Hr1).
    { destruct (filter (due ct) pend) as [|y l] eqn:E; destruct Hstep as (T1 & HT1 & Hc1 & Hr1);
        simpl in *; exists T1; split_and!; try done; [|by rewrite app_nil_r in Hr1].
      rewrite filter_all; [done|]. apply Forall_forall. intros x Hx Hd.
      assert (x ∈ filter (due ct) pend) as Hin by (by apply list_elem_of_filter). rewrite E in Hin. set_solver. }
    pose proof Hc1 as (Ht1 & Hs1 & Hcu1 & Hcp1). simpl in *.
    destruct (IH T1 (filter (not_due ct) pend) (dispatch_list (filter (due ct) pend) w) Hr1)
      as (T' & HT' & Hc' & Hr' & Hnd'); [|lia|].
    { rewrite Ht1. apply Forall_forall. by intros x [? _]%list_elem_of_filter. }
    rewrite HT1, HT'. rewrite Ht1 in *. exists T'. unfold ct in *.
    rewrite (later_S _ _ _ (wr_time _ _ HT) (wr_ahead _ _ HT) Hnd) in Hr', Hnd'.
    rewrite fired_S, dispatch_list_app by done. split; [done|]. split; [|done].
    destruct Hc' as (Ht' & ? & ? & ?). simpl in *. split_and!; simpl; try congruence.
    rewrite Ht', u32_add_l. f_equal. lia.
Qed.

(** C22: [skynet_timeout] is exact: a timer set for [d] ticks is silent for every
    shorter run of the clock, and a run of [n >= d] ticks dispatches it exactly
    once, in tick [d], after the older timers due then and before those of
    tick [d + 1]; the clock may wrap around meanwhile. *)
Theorem skynet_timeout_exact n T pend (w : W) handle d session :
  wheel_rep T pend -> Forall (not_due (time T)) pend -> 0 < d <= INT_MAX -> Z.of_nat n < 2 ^ 32 ->
  let c := time T in
  let x := MkNode (u32 (d + c)) (MkEvent handle session) in
  exists T1 T2, skynet_timeout handle d session T w = Some (session, T1, w) /\
    timer_updates n T1 w = Some (T2, dispatch_list
      (if d <=? Z.of_nat n
       then fired c (Z.to_nat d) pend ++ [x] ++ fired (u32 (c + d)) (n - Z.to_nat d) pend
       else fired c n pend) w).
Proof.
  intros HT Hnd Hd Hn c x. unfold skynet_timeout. destruct (Z.leb_spec d 0); [lia|].
  destruct (timer_add_rep T pend (MkEvent handle session) d HT Hd) as (T1 & -> & Hc1 & HT1).
  pose proof Hc1 as (Ht1 & _). pose proof (wr_time _ _ HT) as Hc.
  destruct (timer_updates_rep n T1 _ w HT1) as (T2 & HT2 & _); [|done|].
  { rewrite Ht1. apply Forall_app. split; [done|]. constructor; [|constructor].
    unfold not_due, INT_MAX, u32 in *. simpl. revert Hc Hd. zpow. clear. intros.
    Z.div_mod_to_equations. lia. }
  exists T1, T2. split; [done|]. rewrite HT2, Ht1. f_equal. f_equal. f_equal.
  destruct (Z.leb_spec d (Z.of_nat n)); [by apply fired_snoc; lia|].
  apply fired_snoc_other. intros j Hj. simpl. unfold u32, INT_MAX in *.
  revert Hd Hj H1. zpow. clear. intros. Z.div_mod_to_equations. lia.
Qed.

(** [skynet_updatetime] catches up with the clock: it runs one tick for each
    centisecond passed, fires what they fire, and records the reading; a clock
    that went backwards fires nothing and only moves the reference point. *)
Theorem skynet_updatetime_spec cp T pend (w : W) :
  wheel_rep T pend -> Forall (not_due (time T)) pend -> cp - current_point T < 2 ^ 32 ->
  let diff := cp - current_point T in
  if cp <? current_point T then
    skynet_updatetime cp T w = Some (set_clock (current T) cp T, w)
  else exists T', skynet_updatetime cp T w =
      Some (T', dispatch_list (fired (time T) (Z.to_nat diff) pend) w) /\
    time T' = u32 (time T + diff) /\ current_point T' = cp /\
    (0 < diff -> current T' = u64 (current T + diff)) /\
    wheel_rep T' (filter (later (time T) (Z.to_nat diff)) pend) /\
    Forall (not_due (time T')) (filter (later (time T) (Z.to_nat diff)) pend).
Proof.
  intros HT Hnd Hcp diff. unfold skynet_updatetime. destruct (Z.ltb_spec cp (current_point T)); [done|].
  fold diff. destruct (Z.eqb_spec cp (current_point T)) as [E|E]; simpl.
  - destruct (timer_updates_rep 0 T pend w HT Hnd) as (T' & HT' & Hc' & Hr' & Hnd'); [lia|].
    injection HT' as <-. replace diff with 0 by lia. exists T. destruct Hc' as (? & _).
    split_and!; try done; lia.
  - rewrite (u32_small diff) by lia.
    set (T1 := set_clock (u64 (current T + diff)) cp T).
    assert (wheel_rep T1 pend) as HT1 by (destruct HT; split; done).
    destruct (timer_updates_rep (Z.to_nat diff) T1 pend w HT1 Hnd) as (T' & HT' & Hc' & Hr' & Hnd'); [lia|].
    rewrite HT'. exists T'. destruct Hc' as (Ht' & _ & Hcu & Hp). simpl in *.
    rewrite Z2Nat.id in Ht' by lia. split_and!; done.
Qed.
End Ticks.

(** ** Witnesses *)

Lemma timer_update_refines_witness :
  exists T', timer_update 1 timer_create_timer [] [[(MkEvent 1 2, 1)]] =
    Some (T', dispatch_list [] ([] : list (Z * skynet_message)), [[(MkEvent 1 2, 1)]]) /\
    same_clock (set_time 1 timer_create_timer) T' /\ wheel_rep T' [].
Proof.
  apply (timer_update_refines timer_create_timer [] ([] : list (Z * skynet_message))
    [[(MkEvent 1 2, 1)]] 1); [apply wheel_rep_create | | lia].
  constructor; [|constructor]. constructor; [|constructor]. simpl. unfold INT_MAX. zlia.
Defined.

(** A timer of 300 ticks, which crosses from the first level to the near slots. *)
Lemma skynet_timeout_exact_witness :
  exists T1 T2, skynet_timeout 7 300 9 timer_create_timer [] = Some (9, T1, [] : list (Z * skynet_message)) /\
    timer_updates 300 T1 [] = Some (T2, [(7, timer_message 9)]).
Proof.
  destruct (skynet_timeout_exact 300 timer_create_timer [] ([] : list (Z * skynet_message)) 7 300 9)
    as (T1 & T2 & H1 & H2); [apply wheel_rep_create | constructor | unfold INT_MAX; zlia | zlia |].
  exists T1, T2. split; [exact H1|]. rewrite H2. vm_compute. reflexivity.
Defined.

Lemma skynet_updatetime_spec_witness :
  exists T', skynet_updatetime 5 timer_create_timer ([] : list (Z * skynet_message)) = Some (T', []) /\
    time T' = 5 /\ current_point T' = 5.
Proof.
  destruct (skynet_updatetime_spec 5 timer_create_timer [] ([] : list (Z * skynet_message)))
    as (T' & H1 & H2 & H3 & _); [apply wheel_rep_create | constructor | simpl; zlia |].
  exists T'. split; [exact H1|]. split; [exact H2 | exact H3].
Defined.
