(* ===== verification/Handle.v ===== *)
(** * The handle table ([skynet-src/skynet_handle.c])

    A hash table from 32-bit handles to service contexts and a sorted array of
    names.  A context is the address of its record, [ctx]; the handle field of
    that record belongs to the context and is read through [context_handle].  The
    write and read locks make each operation one step. *)

From S2P Require Import Prelude.

Definition DEFAULT_SLOT_SIZE : Z := 4.
Definition MAX_SLOT_SIZE : Z := 0x40000000.
Definition HANDLE_MASK : Z := 0xffffff.
Definition HANDLE_REMOTE_SHIFT : Z := 24.

Notation ctx := positive.

Record handle_name := MkName {
  hn_name : string;
  hn_handle : Z;
}.

(** A [None] cell of [slot] is [NULL]; a [None] cell of [name] is not initialised. *)
Record handle_storage := MkStorage {
  harbor : Z;
  handle_index : Z;
  slot_size : Z;
  hslot : list (option ctx);
  name_cap : Z;
  name_count : Z;
  name : list (option handle_name);
}.

Definition set_slots (sz : Z) (sl : list (option ctx)) (s : handle_storage) : handle_storage :=
  MkStorage (harbor s) (handle_index s) sz sl (name_cap s) (name_count s) (name s).
Definition set_index (ix : Z) (s : handle_storage) : handle_storage :=
  MkStorage (harbor s) ix (slot_size s) (hslot s) (name_cap s) (name_count s) (name s).
Definition set_names (cap count : Z) (nm : list (option handle_name)) (s : handle_storage)
  : handle_storage :=
  MkStorage (harbor s) (handle_index s) (slot_size s) (hslot s) cap count nm.

(** [strcmp], on bytes compared as unsigned. *)
Fixpoint strcmp (a b : string) : Z :=
  match a, b with
  | EmptyString, EmptyString => 0
  | EmptyString, String _ _ => -1
  | String _ _, EmptyString => 1
  | String x a, String y b =>
      let i := Z.of_N (Ascii.N_of_ascii x) in
      let j := Z.of_N (Ascii.N_of_ascii y) in
      if i =? j then strcmp a b else if i <? j then -1 else 1
  end.

(** [(uint32_t)(harbor & 0xff) << HANDLE_REMOTE_SHIFT]. *)
Definition skynet_handle_init (hb : Z) : handle_storage :=
  MkStorage (u32 (Z.shiftl (Z.land hb 0xff) HANDLE_REMOTE_SHIFT)) 1
    DEFAULT_SLOT_SIZE (replicate (Z.to_nat DEFAULT_SLOT_SIZE) None) 2 0 (replicate 2 None).

Section Table.
(** The handle field of each context. *)
Variable context_handle : ctx -> Z.

(** The inner [for] loop of [skynet_handle_register]: the first candidate handle
    whose slot is empty, with that slot. *)
Fixpoint register_scan (n : nat) (i : Z) (s : handle_storage) : option (option (Z * Z)) :=
  match n with
  | O => Some None
  | S n =>
      let handle := Z.land (u32 (i + handle_index s)) HANDLE_MASK in
      let hash := Z.land handle (slot_size s - 1) in
      let! c := aget (hslot s) hash in
      match c with
      | None => Some (Some (handle, hash))
      | Some _ => register_scan n (i + 1) s
      end
  end.

(** One iteration of the rehash loop. *)
Definition rehash_body (s : handle_storage) (i : Z) (new_slot : list (option ctx))
  : option (list (option ctx)) :=
  let! c := aget (hslot s) i in
  let! c := c in
  let hash := Z.land (context_handle c) (slot_size s * 2 - 1) in
  let! old := aget new_slot hash in
  assert! (bool_decide (old = None)) ;;
  aset new_slot hash (Some c).

Definition expand_slots (s : handle_storage) : option handle_storage :=
  assert! (slot_size s * 2 - 1 <=? HANDLE_MASK) ;;
  let! new_slot := for_loop (Z.to_nat (slot_size s)) 0 (rehash_body s)
                     (replicate (Z.to_nat (slot_size s * 2)) None) in
  Some (set_slots (slot_size s * 2) new_slot s).

(** [for (;;)]: the second iteration always finds a slot, see
    [skynet_handle_register_spec]. *)
Fixpoint register_loop (fuel : nat) (c : ctx) (s : handle_storage) : option (Z * handle_storage) :=
  match fuel with
  | O => None
  | S fuel =>
      let! r := register_scan (Z.to_nat (slot_size s)) 0 s in
      match r with
      | Some (handle, hash) =>
          let! sl := aset (hslot s) hash (Some c) in
          let s := set_index (u32 (handle + 1)) (set_slots (slot_size s) sl s) in
          Some (Z.lor handle (harbor s), s)
      | None =>
          let! s := expand_slots s in
          register_loop fuel c s
      end
  end.

Definition skynet_handle_register (c : ctx) (s : handle_storage) : option (Z * handle_storage) :=
  register_loop 2 c s.

(** The lookup [skynet_handle_grab] makes; the reference it takes is counted in
    [Server.v]. *)
Definition skynet_handle_grab (handle : Z) (s : handle_storage) : option (option ctx) :=
  let hash := Z.land handle (slot_size s - 1) in
  let! c := aget (hslot s) hash in
  Some (match c with
        | Some c => if context_handle c =? handle then Some c else None
        | None => None
        end).

(** One iteration of the loop that removes the names of a handle; the state is
    [(j, name)]. *)
Definition compact_body (handle : Z) (i : Z) (st : Z * list (option handle_name))
  : option (Z * list (option handle_name)) :=
  let '(j, nm) := st in
  let! cell := aget nm i in
  let! n := cell in
  if hn_handle n =? handle then Some (j, nm)
  else if negb (i =? j) then
    let! nm := aset nm j (Some n) in
    Some (j + 1, nm)
  else Some (j + 1, nm).

(** [skynet_handle_retire] up to the unlock: the result and the context the caller then releases. *)
Definition skynet_handle_retire (handle : Z) (s : handle_storage)
  : option (Z * option ctx * handle_storage) :=
  let hash := Z.land handle (slot_size s - 1) in
  let! c := aget (hslot s) hash in
  match c with
  | Some c =>
      if context_handle c =? handle then
        let! sl := aset (hslot s) hash None in
        let! (j, nm) := for_loop (Z.to_nat (name_count s)) 0 (compact_body handle) (0, name s) in
        Some (1, Some c, set_names (name_cap s) j nm (set_slots (slot_size s) sl s))
      else Some (0, None, s)
  | None => Some (0, None, s)
  end.
End Table.

(** The binary search shared by [skynet_handle_findname] and [_insert_name]:
    the entry found, or the insertion point. *)
Fixpoint name_search (fuel : nat) (nm : list (option handle_name)) (key : string) (b e : Z)
  : option (handle_name + Z) :=
  if b <=? e then
    match fuel with
    | O => None
    | S fuel =>
        let mid := Z.quot (b + e) 2 in
        let! cell := aget nm mid in
        let! n := cell in
        let c := strcmp (hn_name n) key in
        if c =? 0 then Some (inl n)
        else if c <? 0 then name_search fuel nm key (mid + 1) e
        else name_search fuel nm key b (mid - 1)
    end
  else Some (inr b).

Definition skynet_handle_findname (key : string) (s : handle_storage) : option Z :=
  let! r := name_search (Z.to_nat (name_count s)) (name s) key 0 (name_count s - 1) in
  Some (match r with inl n => hn_handle n | inr _ => 0 end).

(** Cell copies [n[i + d] = from[i]]. *)
Definition copy_body (from : list (option handle_name)) (d i : Z) (n : list (option handle_name))
  : option (list (option handle_name)) :=
  let! x := aget from i in
  aset n (i + d) x.

(** [for (i=count;i>before;i--) name[i] = name[i-1]], the [k]-th iteration. *)
Definition shift_body (count k : Z) (n : list (option handle_name))
  : option (list (option handle_name)) :=
  let! x := aget n (count - k - 1) in
  aset n (count - k) x.

(** Leaves the cell [before] free, in a doubled array when the old one is full:
    the new capacity and the new cells. *)
Definition make_room (s : handle_storage) (before : Z) : option (Z * list (option handle_name)) :=
  let count := name_count s in
  if name_cap s <=? count then
    let cap := name_cap s * 2 in
    assert! (cap <=? MAX_SLOT_SIZE) ;;
    let! n := for_loop (Z.to_nat before) 0 (copy_body (name s) 0) (replicate (Z.to_nat cap) None) in
    let! n := for_loop (Z.to_nat (count - before)) before (copy_body (name s) 1) n in
    Some (cap, n)
  else
    let! n := for_loop (Z.to_nat (count - before)) 0 (shift_body count) (name s) in
    Some (name_cap s, n).

Definition _insert_name_before (s : handle_storage) (key : string) (handle before : Z)
  : option handle_storage :=
  let! (cap, nm) := make_room s before in
  let! nm := aset nm before (Some (MkName key handle)) in
  Some (set_names cap (name_count s + 1) nm s).

Definition _insert_name (s : handle_storage) (key : string) (handle : Z)
  : option (option string * handle_storage) :=
  let! r := name_search (Z.to_nat (name_count s)) (name s) key 0 (name_count s - 1) in
  match r with
  | inl _ => Some (None, s)
  | inr b =>
      let! s := _insert_name_before s key handle b in
      Some (Some key, s)
  end.

Definition skynet_handle_namehandle (handle : Z) (key : string) (s : handle_storage)
  : option (option string * handle_storage) := _insert_name s key handle.
