(* ===== verification/HandleSpec.v ===== *)
(** * Correctness of the handle table

    The slots refine a finite set of contexts that know their handles, the names
    a finite map from strings to handles.  The last part shows what goes wrong
    when the handle field of a context is read before it is written. *)

From S2P Require Import Prelude Handle.

(** ** The slots *)

Definition registered (s : handle_storage) (c : ctx) : Prop :=
  exists i, aget (hslot s) i = Some (Some c).

(** Every registered context sits in the slot of its handle. *)
Record table_wf (context_handle : ctx -> Z) (s : handle_storage) : Prop := {
  tw_size : exists k, slot_size s = 2 ^ k /\ 2 <= k <= 24;
  tw_len : Z.of_nat (length (hslot s)) = slot_size s;
  tw_harbor : exists hb, 0 <= hb < 256 /\ harbor s = hb * 2 ^ 24;
  tw_index : 0 <= handle_index s <= 2 ^ 24;
  tw_slot : forall i c, aget (hslot s) i = Some (Some c) ->
    0 <= context_handle c < 2 ^ 32 /\ context_handle c mod slot_size s = i /\
    context_handle c / 2 ^ 24 * 2 ^ 24 = harbor s;
}.

(** A slot is empty. *)
Definition free_slot (s : handle_storage) : Prop := exists i, aget (hslot s) i = Some None.

Lemma free_slot_alt s : free_slot s <-> None ∈ hslot s.
Proof.
  unfold free_slot. rewrite list_elem_of_lookup. split.
  - intros [i [_ Hi]%aget_Some]. eauto.
  - intros [i Hi]. exists (Z.of_nat i). by rewrite aget_nat.
Qed.

#[export] Instance free_slot_dec s : Decision (free_slot s).
Proof. refine (cast_if (decide (None ∈ hslot s))); by rewrite free_slot_alt. Defined.

(** The handle fields after a context is given handle [h]. *)
Definition assign (context_handle : ctx -> Z) (c : ctx) (h : Z) : ctx -> Z :=
  fun c' => if decide (c' = c) then h else context_handle c'.

Lemma pow2_cases k : 2 <= k <= 24 -> 4 <= 2 ^ k <= 2 ^ 24 /\ (2 ^ k | 2 ^ 24).
Proof.
  intros. split.
  - change 4 with (2 ^ 2). split; apply Z.pow_le_mono_r; lia.
  - exists (2 ^ (24 - k)). rewrite <- Z.pow_add_r by lia. f_equal. lia.
Qed.

Section Table.
Context (context_handle : ctx -> Z).
Implicit Types (s : handle_storage) (c : ctx).

Lemma tw_size_pos s : table_wf context_handle s -> 4 <= slot_size s <= 2 ^ 24 /\ (slot_size s | 2 ^ 24).
Proof. intros [(k & -> & Hk) _ _ _ _]. by apply pow2_cases. Qed.

Lemma hash_mod s h : table_wf context_handle s -> Z.land h (slot_size s - 1) = h mod slot_size s.
Proof. intros [(k & -> & Hk) _ _ _ _]. apply land_low. lia. Qed.

Lemma hash_slot s h : table_wf context_handle s -> is_Some (aget (hslot s) (Z.land h (slot_size s - 1))).
Proof.
  intros Hs. rewrite hash_mod by done. apply aget_is_Some. rewrite (tw_len _ _ Hs).
  apply Z.mod_pos_bound. destruct (tw_size_pos s Hs). lia.
Qed.

Lemma registered_slot s c : table_wf context_handle s -> registered s c ->
  aget (hslot s) (Z.land (context_handle c) (slot_size s - 1)) = Some (Some c).
Proof. intros Hs [i Hi]. rewrite hash_mod by done. by destruct (tw_slot _ _ Hs i c Hi) as (_ & -> & _). Qed.

(** A handle names at most one registered context. *)
Lemma registered_inj s c c' : table_wf context_handle s -> registered s c -> registered s c' ->
  context_handle c = context_handle c' -> c = c'.
Proof. intros Hs Hc%registered_slot Hc'%registered_slot E; [|done..]. rewrite E in Hc. congruence. Qed.

(** ** Registration *)

Definition candidate s (i : Z) : Z := (i + handle_index s) mod 2 ^ 24.

Lemma register_scan_spec n i s : table_wf context_handle s -> 0 <= i -> i + Z.of_nat n <= 2 ^ 24 ->
  (exists j, i <= j < i + Z.of_nat n /\ aget (hslot s) (candidate s j mod slot_size s) = Some None /\
     register_scan n i s = Some (Some (candidate s j, candidate s j mod slot_size s))) \/
  (register_scan n i s = Some None /\
   forall j, i <= j < i + Z.of_nat n -> aget (hslot s) (candidate s j mod slot_size s) <> Some None).
Proof.
  intros Hs. revert i. induction n as [|n IH]; intros i Hi Hn; simpl.
  { right. split; [done|]. intros j. lia. }
  assert (Z.land (u32 (i + handle_index s)) HANDLE_MASK = candidate s i) as ->.
  { change HANDLE_MASK with (2 ^ 24 - 1). rewrite land_low, u32_small by (pose proof (tw_index _ _ Hs); zlia). done. }
  destruct (hash_slot s (candidate s i) Hs) as [o Ho]. rewrite hash_mod in * by done. rewrite Ho.
  destruct o as [c|]; [|left; exists i; split_and!; [lia..|done|done]].
  destruct (IH (i + 1)) as [(j & Hj & E & ->)|[-> Hall]]; [lia..| |].
  - left. exists j. split_and!; [lia..|done|done].
  - right. split; [done|]. intros j Hj. destruct (decide (j = i)) as [->|]; [congruence|]. apply Hall. lia.
Qed.

(** The candidates of a full scan visit every slot. *)
Lemma candidate_slot s p : table_wf context_handle s -> 0 <= p < slot_size s ->
  exists j, 0 <= j < slot_size s /\ candidate s j mod slot_size s = p.
Proof.
  intros Hs Hp. destruct (tw_size_pos s Hs) as [? Hd].
  exists ((p - handle_index s) mod slot_size s). split; [apply Z.mod_pos_bound; lia|].
  unfold candidate. rewrite <- Znumtheory.Zmod_div_mod; [|lia..|done].
  rewrite Zplus_mod_idemp_l. replace (p - handle_index s + handle_index s) with p by lia.
  by apply Z.mod_small.
Qed.

Lemma free_slot_lt s i : table_wf context_handle s -> aget (hslot s) i = Some None -> 0 <= i < slot_size s.
Proof. intros Hs Hi%aget_lt. by rewrite (tw_len _ _ Hs) in Hi. Qed.

(** What a registration achieves. *)
Definition register_post s c h s' : Prop :=
  table_wf (assign context_handle c h) s' /\
  0 <= h < 2 ^ 32 /\ h / 2 ^ 24 * 2 ^ 24 = harbor s /\
  (forall c', registered s c' -> context_handle c' <> h) /\
  (forall c', registered s' c' <-> c' = c \/ registered s c') /\
  harbor s' = harbor s /\ name_cap s' = name_cap s /\ name_count s' = name_count s /\ name s' = name s.

Lemma put_slot s c h hash sl ix : table_wf context_handle s -> ~ registered s c ->
  0 <= h < 2 ^ 24 -> hash = h mod slot_size s -> aget (hslot s) hash = Some None ->
  0 <= ix <= 2 ^ 24 -> aset (hslot s) hash (Some c) = Some sl ->
  register_post s c (Z.lor h (harbor s)) (set_index ix (set_slots (slot_size s) sl s)).
Proof.
  intros Hs Hnew Hh -> Hfree Hix Hset. pose proof (tw_size_pos s Hs) as [Hsz [q Hq]].
  destruct (tw_harbor _ _ Hs) as (hb & Hhb & Eh). rewrite Eh, lor_fields by lia.
  assert ((h + hb * 2 ^ 24) mod slot_size s = h mod slot_size s) as Hm.
  { rewrite Hq, Z.mul_assoc. apply Z.mod_add. lia. }
  assert (forall i c', aget sl i = Some (Some c') <->
    (i = h mod slot_size s /\ c' = c) \/ aget (hslot s) i = Some (Some c')) as Hsl.
  { intros i c'. rewrite (aget_aset _ _ _ _ i Hset). destruct (Z.eqb_spec i (h mod slot_size s)); naive_solver. }
  assert ((h + hb * 2 ^ 24) / 2 ^ 24 = hb) as Hdiv by (rewrite Z.div_add, Z.div_small; lia).
  split_and!; simpl; try done; try zlia.
  - split; simpl; try apply Hs; [by rewrite (aset_length _ _ _ _ Hset); apply Hs | done |].
    intros i c' [[-> ->]|Hi]%Hsl; unfold assign.
    + rewrite decide_True by done. rewrite Hdiv, Hm, Eh. split_and!; zlia.
    + rewrite decide_False; [by apply Hs|]. intros ->. apply Hnew. by exists i.
  - intros c' Hc' E. apply (registered_slot _ _ Hs) in Hc'. rewrite hash_mod, E, Hm in Hc' by done. congruence.
  - intros c'. unfold registered. simpl. setoid_rewrite Hsl. naive_solver.
Qed.

Lemma register_free fuel s c : table_wf context_handle s -> ~ registered s c -> free_slot s ->
  exists h s', register_loop context_handle (S fuel) c s = Some (h, s') /\ register_post s c h s'.
Proof.
  intros Hs Hnew [p Hp]. pose proof (tw_size_pos s Hs) as [Hsz Hd]. simpl.
  destruct (register_scan_spec (Z.to_nat (slot_size s)) 0 s Hs) as [(j & Hj & E & ->)|[_ Hall]]; [lia..| |].
  - destruct (aget_lt _ _ _ E) as [? ?]. rewrite aset_Some by lia.
    eexists _, _. split; [reflexivity|].
    assert (0 <= candidate s j < 2 ^ 24) by (apply Z.mod_pos_bound; lia).
    eapply put_slot; [done..| |apply aset_Some; lia]. rewrite u32_small; zlia.
  - destruct (candidate_slot s p Hs) as (j & Hj & E); [by apply (free_slot_lt s p)|].
    destruct (Hall j); [lia|]. by rewrite E.
Qed.

(** Rehashing: the new array holds the contexts of the first [i] slots, each in
    the slot of its handle. *)
Definition rehashed s (i : Z) (ns : list (option ctx)) : Prop :=
  Z.of_nat (length ns) = slot_size s * 2 /\
  forall j c, aget ns j = Some (Some c) <->
    (exists i', 0 <= i' < i /\ aget (hslot s) i' = Some (Some c)) /\
    context_handle c mod (slot_size s * 2) = j.

Lemma mod_double a b n : 0 < n -> a mod (n * 2) = b mod (n * 2) -> a mod n = b mod n.
Proof.
  intros Hn E. assert (forall x, x mod n = (x mod (n * 2)) mod n) as H.
  { intros x. apply Znumtheory.Zmod_div_mod; [lia | lia | exists 2; lia]. }
  by rewrite (H a), (H b), E.
Qed.

Lemma hash_double s h : table_wf context_handle s ->
  Z.land h (slot_size s * 2 - 1) = h mod (slot_size s * 2).
Proof.
  intros Hs. destruct (tw_size _ _ Hs) as (k & -> & Hk).
  replace (2 ^ k * 2) with (2 ^ (k + 1)) by (rewrite Z.pow_add_r; lia). apply land_low. lia.
Qed.

Lemma rehash_step s i ns : table_wf context_handle s -> ~ free_slot s ->
  0 <= i < slot_size s -> rehashed s i ns ->
  exists ns', rehash_body context_handle s i ns = Some ns' /\ rehashed s (i + 1) ns'.
Proof.
  intros Hs Hfull Hi [Hl Hc]. pose proof (tw_size_pos s Hs) as [Hsz _]. unfold rehash_body.
  destruct (aget_is_Some (hslot s) i) as [o Ho]; [rewrite (tw_len _ _ Hs); lia|]. rewrite Ho.
  destruct o as [c|]; [|by destruct Hfull; exists i]. rewrite hash_double by done.
  pose proof (Z.mod_pos_bound (context_handle c) (slot_size s * 2)) as Hb.
  set (hash := context_handle c mod (slot_size s * 2)) in *.
  destruct (aget_is_Some ns hash) as [old Hold]; [lia|]. rewrite Hold. destruct old as [c'|].
  { exfalso. apply Hc in Hold as [(i' & Hi' & Hs') E].
    destruct (tw_slot _ _ Hs _ _ Ho) as (_ & Em & _), (tw_slot _ _ Hs _ _ Hs') as (_ & Em' & _).
    apply mod_double in E; lia. }
  rewrite bool_decide_true by done.
  assert (aset ns hash (Some c) = Some (<[Z.to_nat hash := Some c]> ns)) as Hset by (apply aset_Some; lia).
  rewrite Hset. eexists. split; [done|].
  split; [by rewrite (aset_length _ _ _ _ Hset)|]. intros j c'. rewrite (aget_aset _ _ _ _ j Hset).
  destruct (Z.eqb_spec j hash) as [->|Hne].
  - split; [intros [= <-]; split; [exists i; split; [lia|done]|done]|].
    intros [(i' & Hi' & Hs') E]. destruct (decide (i' = i)) as [->|]; [congruence|].
    exfalso. assert (aget ns hash = Some (Some c')); [|congruence].
    apply Hc. split; [|done]. exists i'. split; [lia|done].
  - rewrite Hc. split; intros [(i' & Hi' & Hs') E]; (split; [|done]); exists i'; (split; [|done]).
    + lia.
    + destruct (decide (i' = i)) as [->|]; [|lia]. unfold hash in Hne. congruence.
Qed.

Lemma rehash_spec s : table_wf context_handle s -> ~ free_slot s ->
  exists ns, for_loop (Z.to_nat (slot_size s)) 0 (rehash_body context_handle s)
      (replicate (Z.to_nat (slot_size s * 2)) None) = Some ns /\
    Z.of_nat (length ns) = slot_size s * 2 /\
    forall j c, aget ns j = Some (Some c) <-> registered s c /\ context_handle c mod (slot_size s * 2) = j.
Proof.
  intros Hs Hfull. pose proof (tw_size_pos s Hs) as [Hsz _].
  destruct (for_loop_inv (rehashed s) (Z.to_nat (slot_size s)) 0 (rehash_body context_handle s)
    (replicate (Z.to_nat (slot_size s * 2)) None)) as (ns & Hns & Hl & Hc).
  - split; [rewrite length_replicate; lia|]. intros j c. split.
    + intros [_ Hj]%aget_Some. apply lookup_replicate in Hj as [? _]. done.
    + intros [(i' & ? & _) _]. lia.
  - intros i ns Hi Hns. apply rehash_step; [done..|lia|done].
  - exists ns. split; [done|]. split; [done|]. intros j c. rewrite Hc. unfold registered.
    split; intros [(i & Hi) E]; (split; [|done]); exists i; [naive_solver|]. split; [|done].
    apply aget_lt in Hi. rewrite (tw_len _ _ Hs) in Hi. lia.
Qed.

(** Doubling a full table keeps its contexts, never fails its assertions and leaves a slot free. *)
Lemma expand_slots_spec s : table_wf context_handle s -> ~ free_slot s -> slot_size s < 2 ^ 24 ->
  exists s', expand_slots context_handle s = Some s' /\ table_wf context_handle s' /\ free_slot s' /\
    slot_size s' = slot_size s * 2 /\ (forall c, registered s' c <-> registered s c) /\
    harbor s' = harbor s /\ name_cap s' = name_cap s /\ name_count s' = name_count s /\ name s' = name s.
Proof.
  intros Hs Hfull Hlt. pose proof (tw_size_pos s Hs) as [Hsz _]. destruct (tw_size _ _ Hs) as (k & Hk & Hk2).
  assert (k < 24). { apply (Z.pow_lt_mono_r_iff 2); lia. }
  assert (slot_size s * 2 = 2 ^ (k + 1)) as Hk' by (rewrite Z.pow_add_r, <- Hk; lia).
  assert (slot_size s * 2 <= 2 ^ 24) by (rewrite Hk'; apply Z.pow_le_mono_r; lia).
  unfold expand_slots. destruct (Z.leb_spec (slot_size s * 2 - 1) HANDLE_MASK) as [_|Hbad];
    [|unfold HANDLE_MASK in Hbad; zlia].
  destruct (rehash_spec s Hs Hfull) as (ns & -> & Hl & Hns).
  eexists. split; [done|]. split_and!; simpl; try done.
  - split; simpl; try apply Hs; [exists (k + 1); split; [done|lia] | done |].
    intros i c [[i' Hi'] <-]%Hns. destruct (tw_slot _ _ Hs _ _ Hi') as (? & _ & ?). done.
  - unfold free_slot; simpl. destruct (aget_is_Some ns 0) as [[c|] Hz0]; [lia| |by exists 0].
    destruct (aget_is_Some ns (slot_size s)) as [[c'|] Hz1]; [lia| |by exists (slot_size s)].
    exfalso. apply Hns in Hz0 as [[i Hi] E0], Hz1 as [[i' Hi'] E1].
    destruct (tw_slot _ _ Hs _ _ Hi) as (_ & Em & _), (tw_slot _ _ Hs _ _ Hi') as (_ & Em' & _).
    assert (i = i') as <-; [|rewrite Hi in Hi'; injection Hi' as <-; lia].
    rewrite (mod_double _ 0 (slot_size s)) in Em; [|lia|by rewrite E0, Z.mod_small by lia].
    rewrite (mod_double _ (slot_size s) (slot_size s)) in Em'; [|lia|by rewrite E1, Z.mod_small by lia].
    rewrite Z.mod_same in Em' by lia. rewrite Z.mod_0_l in Em by lia. lia.
  - intros c. unfold registered at 1. simpl. setoid_rewrite Hns. naive_solver.
Qed.

(** Registration finds a free handle in at most two passes, unless the table has all
    [2 ^ 24] slots taken. *)
Lemma register_loop_spec s c : table_wf context_handle s -> ~ registered s c ->
  free_slot s \/ slot_size s < 2 ^ 24 ->
  exists h s', skynet_handle_register context_handle c s = Some (h, s') /\ register_post s c h s'.
Proof.
  intros Hs Hnew Hroom. unfold skynet_handle_register.
  destruct (decide (free_slot s)) as [Hf|Hfull]; [by apply register_free|].
  destruct Hroom as [|Hlt]; [done|]. pose proof (tw_size_pos s Hs) as [Hsz _]. simpl.
  destruct (register_scan_spec (Z.to_nat (slot_size s)) 0 s Hs) as [(j & _ & E & _)|[-> _]]; [lia..| |].
  { destruct Hfull. by eexists. }
  destruct (expand_slots_spec s Hs Hfull Hlt) as (s1 & -> & Hs1 & Hf1 & _ & Hr1 & Hh1 & Hc1 & Hn1 & Ha1).
  destruct (register_free 0 s1 c Hs1) as (h & s' & Hreg & Hw & Hr & Hb & Hfr & Hr' & Hh' & Hc' & Hn' & Ha');
    [by rewrite Hr1 | done |].
  exists h, s'. split; [exact Hreg|]. split_and!; try done; try congruence; try lia.
  - intros c' Hc. apply Hfr. by apply Hr1.
  - intros c'. by rewrite Hr', Hr1.
Qed.
End Table.

(** ** Names *)

Lemma strcmp_refl a : strcmp a a = 0.
Proof. induction a as [|x a IH]; simpl; [done|]. by rewrite Z.eqb_refl. Qed.

Lemma strcmp_eq a b : strcmp a b = 0 -> a = b.
Proof.
  revert b. induction a as [|x a IH]; intros [|y b]; simpl; try done.
  destruct (Z.eqb_spec (Z.of_N (Ascii.N_of_ascii x)) (Z.of_N (Ascii.N_of_ascii y))) as [E|].
  - intros H. f_equal; [|by apply IH]. apply N2Z.inj in E.
    rewrite <- (Ascii.ascii_N_embedding x), <- (Ascii.ascii_N_embedding y). by rewrite E.
  - case_match; lia.
Qed.

Lemma strcmp_antisym a b : strcmp b a = - strcmp a b.
Proof.
  revert b. induction a as [|x a IH]; intros [|y b]; simpl; try done.
  generalize (Z.of_N (Ascii.N_of_ascii x)) (Z.of_N (Ascii.N_of_ascii y)). intros i j.
  destruct (Z.eqb_spec i j), (Z.eqb_spec j i), (Z.ltb_spec i j), (Z.ltb_spec j i); subst; try lia; apply IH.
Qed.

Lemma strcmp_trans a b c : strcmp a b < 0 -> strcmp b c < 0 -> strcmp a c < 0.
Proof.
  revert b c. induction a as [|x a IH]; intros [|y b] [|z c]; simpl; try lia.
  generalize (Z.of_N (Ascii.N_of_ascii x)) (Z.of_N (Ascii.N_of_ascii y)) (Z.of_N (Ascii.N_of_ascii z)).
  intros i j k. destruct (Z.eqb_spec i j), (Z.eqb_spec j k), (Z.eqb_spec i k); subst; try lia;
    [apply IH|..]; repeat case_match; zbool; lia.
Qed.

Definition name_lt (x y : handle_name) : Prop := strcmp (hn_name x) (hn_name y) < 0.

#[export] Instance name_lt_trans : Transitive name_lt.
Proof. intros x y z. apply strcmp_trans. Qed.

Definition entry (n : handle_name) : string * Z := (hn_name n, hn_handle n).

(** The initialised cells of the array are the sorted list [l]. *)
Record names_list (s : handle_storage) (l : list handle_name) : Prop := {
  nl_len : Z.of_nat (length (name s)) = name_cap s;
  nl_cap : 2 <= name_cap s <= MAX_SLOT_SIZE;
  nl_count : name_count s = Z.of_nat (length l);
  nl_cells : exists junk, name s = (Some <$> l) ++ junk;
  nl_sorted : StronglySorted name_lt l;
}.

(** The array implements the finite map [M]. *)
Definition names_rep (s : handle_storage) (M : gmap string Z) : Prop :=
  exists l, names_list s l /\ M = list_to_map (entry <$> l).

Lemma sorted_NoDup l : StronglySorted name_lt l -> NoDup (entry <$> l).*1.
Proof.
  induction 1 as [|x l _ IH Hx]; simpl; constructor; [|done].
  rewrite <- list_fmap_compose, list_elem_of_fmap. intros (y & E & Hy). simpl in E.
  rewrite Forall_forall in Hx. specialize (Hx y Hy). unfold name_lt in Hx.
  rewrite E, strcmp_refl in Hx. lia.
Qed.

Lemma names_lookup l k h : StronglySorted name_lt l ->
  (list_to_map (entry <$> l) : gmap string Z) !! k = Some h <-> MkName k h ∈ l.
Proof.
  intros Hs. rewrite <- elem_of_list_to_map by (by apply sorted_NoDup).
  rewrite list_elem_of_fmap. split.
  - intros ([k' h'] & [= -> ->] & ?). done.
  - intros ?. by exists (MkName k h).
Qed.

Lemma names_lookup_None l k : 
  (list_to_map (entry <$> l) : gmap string Z) !! k = None <-> Forall (fun n => hn_name n <> k) l.
Proof.
  rewrite <- not_elem_of_list_to_map, Forall_forall, <- list_fmap_compose, list_elem_of_fmap.
  split.
  - intros H n Hn <-. apply H. by exists n.
  - intros H (n & -> & Hn). by apply (H n Hn).
Qed.

Lemma cells_get (l : list handle_name) junk i n : aget l i = Some n ->
  aget ((Some <$> l) ++ junk) i = Some (Some n).
Proof.
  intros Hi. pose proof (aget_lt _ _ _ Hi). rewrite aget_app_l by (rewrite length_fmap; lia).
  apply aget_Some in Hi as [? Hi]. apply aget_Some. split; [done|]. by rewrite list_lookup_fmap, Hi.
Qed.

Lemma sorted_get l i j x y : StronglySorted name_lt l ->
  aget l i = Some x -> aget l j = Some y -> i < j -> name_lt x y.
Proof.
  intros Hs [Hi Ex]%aget_Some [Hj Ey]%aget_Some Hij.
  rewrite <- (take_drop_middle _ _ _ Ex) in Hs. apply StronglySorted_app_1_r in Hs.
  apply StronglySorted_cons in Hs as [Hx _]. rewrite Forall_forall in Hx. apply Hx.
  apply list_elem_of_lookup. exists (Z.to_nat j - S (Z.to_nat i))%nat. rewrite lookup_drop, <- Ey. f_equal. lia.
Qed.

(** The two outcomes of the binary search. *)
Definition search_post (l : list handle_name) (key : string) (r : handle_name + Z) : Prop :=
  match r with
  | inl n => n ∈ l /\ hn_name n = key
  | inr b => 0 <= b <= Z.of_nat (length l) /\
      Forall (fun n => strcmp (hn_name n) key < 0) (take (Z.to_nat b) l) /\
      Forall (fun n => 0 < strcmp (hn_name n) key) (drop (Z.to_nat b) l)
  end.

Lemma name_search_spec fuel l junk key b e : StronglySorted name_lt l ->
  0 <= b -> e < Z.of_nat (length l) -> b <= e + 1 -> e - b < Z.of_nat fuel ->
  (forall i n, aget l i = Some n -> i < b -> strcmp (hn_name n) key < 0) ->
  (forall i n, aget l i = Some n -> e < i -> 0 < strcmp (hn_name n) key) ->
  exists r, name_search fuel ((Some <$> l) ++ junk) key b e = Some r /\ search_post l key r.
Proof.
  intros Hs. revert b e. induction fuel as [|fuel IH]; intros b e Hb He Hbe Hf Hlo Hhi; simpl;
    destruct (Z.leb_spec b e) as [Hle|Hgt]; try lia.
  1, 3: exists (inr b); split; [done|]; split_and!; [lia|lia|..]; apply Forall_lookup; intros i n Hi.
  1, 3: apply lookup_take_Some in Hi as [Hi ?]; apply (Hlo (Z.of_nat i)); [by rewrite aget_nat | lia].
  1, 2: rewrite lookup_drop in Hi; eapply (Hhi (Z.of_nat (Z.to_nat b + i))); [by rewrite aget_nat | lia].
  rewrite Z.quot_div_nonneg by lia. set (mid := (b + e) / 2).
  assert (b <= mid <= e) as Hmid by (unfold mid; Z.div_mod_to_equations; lia).
  destruct (aget_is_Some l mid) as [n Hn]; [lia|]. rewrite (cells_get _ _ _ _ Hn).
  destruct (Z.eqb_spec (strcmp (hn_name n) key) 0) as [E|E].
  { exists (inl n). split; [done|]. split; [|by apply strcmp_eq].
    apply aget_Some in Hn as [_ Hn]. by eapply list_elem_of_lookup_2. }
  destruct (Z.ltb_spec (strcmp (hn_name n) key) 0) as [Hlt|Hge]; apply IH; try lia; try done.
  - intros i n' Hn' Hi. destruct (decide (i = mid)) as [->|]; [congruence|].
    eapply strcmp_trans; [|exact Hlt]. apply (sorted_get l i mid); [done..|lia].
  - intros i n' Hn' Hi. destruct (decide (i = mid)) as [->|]; [assert (n' = n) as -> by congruence; lia|].
    rewrite strcmp_antisym. assert (strcmp key (hn_name n') < 0); [|lia].
    apply (strcmp_trans _ (hn_name n)); [rewrite strcmp_antisym; lia|].
    apply (sorted_get l mid i); [done..|lia].
Qed.

Lemma name_search_names s l key : names_list s l ->
  exists r, name_search (Z.to_nat (name_count s)) (name s) key 0 (name_count s - 1) = Some r /\
    search_post l key r.
Proof.
  intros [_ _ Hc [junk ->] Hs]. rewrite Hc. apply name_search_spec; try lia; try done.
  - intros i n Hi. apply aget_lt in Hi. lia.
  - intros i n Hi. apply aget_lt in Hi. lia.
Qed.

Lemma cells_intro (l : list handle_name) (nm : list (option handle_name)) :
  (forall i n, aget l i = Some n -> aget nm i = Some (Some n)) -> exists junk, nm = (Some <$> l) ++ junk.
Proof.
  intros H. exists (drop (length l) nm). rewrite <- (take_drop (length l) nm) at 1. f_equal.
  apply list_eq. intros i. rewrite list_lookup_fmap. destruct (l !! i) as [n|] eqn:E; simpl.
  - specialize (H (Z.of_nat i) n). rewrite !aget_nat in H. rewrite lookup_take_lt; [by apply H|].
    by eapply lookup_lt_Some.
  - apply lookup_take_ge. by apply lookup_ge_None.
Qed.

(** A copying loop moves the cells [a .. a + n - 1] up by [d]. *)
Lemma copy_loop_spec from d n a nm : 0 <= a -> 0 <= d -> a + Z.of_nat n <= Z.of_nat (length from) ->
  a + d + Z.of_nat n <= Z.of_nat (length nm) ->
  exists nm', for_loop n a (copy_body from d) nm = Some nm' /\ length nm' = length nm /\
    forall j, aget nm' j = if (a + d <=? j) && (j <? a + d + Z.of_nat n) then aget from (j - d) else aget nm j.
Proof.
  intros Ha Hd Hf Hn.
  set (P i nm' := length nm' = length nm /\ forall j,
    aget nm' j = if (a + d <=? j) && (j <? i + d) then aget from (j - d) else aget nm j).
  destruct (for_loop_inv P n a (copy_body from d) nm) as (nm' & -> & Hl & Hc).
  - split; [done|]. intros j. destruct (Z.leb_spec (a + d) j), (Z.ltb_spec j (a + d)); simpl; done || lia.
  - intros i nm1 Hi [Hl Hc]. unfold copy_body.
    destruct (aget_is_Some from i) as [x Hx]; [lia|]. rewrite Hx.
    destruct (aset nm1 (i + d) x) as [nm2|] eqn:E; [|rewrite aset_Some in E by lia; done].
    exists nm2. split; [done|]. split; [by rewrite (aset_length _ _ _ _ E)|]. intros j.
    rewrite (aget_aset _ _ _ _ j E), Hc.
    destruct (Z.eqb_spec j (i + d)), (Z.leb_spec (a + d) j), (Z.ltb_spec j (i + d)),
      (Z.ltb_spec j (i + 1 + d)); simpl; try lia; try done.
    subst j. by replace (i + d - d) with i by lia.
  - exists nm'. split; [done|]. split; [done|]. intros j. rewrite Hc.
    by replace (a + Z.of_nat n + d) with (a + d + Z.of_nat n) by lia.
Qed.

(** The downward loop moves the cells [count - n .. count - 1] up by one. *)
Lemma shift_loop_spec count n nm : 0 <= count - Z.of_nat n -> count < Z.of_nat (length nm) ->
  exists nm', for_loop n 0 (shift_body count) nm = Some nm' /\ length nm' = length nm /\
    forall j, aget nm' j = if (count - Z.of_nat n <? j) && (j <=? count) then aget nm (j - 1) else aget nm j.
Proof.
  intros Hn Hc.
  set (P k nm' := length nm' = length nm /\ forall j,
    aget nm' j = if (count - k <? j) && (j <=? count) then aget nm (j - 1) else aget nm j).
  destruct (for_loop_inv P n 0 (shift_body count) nm) as (nm' & -> & Hl & Hg).
  - split; [done|]. intros j. destruct (Z.ltb_spec (count - 0) j), (Z.leb_spec j count); simpl; done || lia.
  - intros k nm1 Hk [Hl Hg]. unfold shift_body.
    destruct (aget_is_Some nm1 (count - k - 1)) as [x Hx]; [lia|]. rewrite Hx. rewrite Hg in Hx.
    destruct (aset nm1 (count - k) x) as [nm2|] eqn:E; [|rewrite aset_Some in E by lia; done].
    exists nm2. split; [done|]. split; [by rewrite (aset_length _ _ _ _ E)|]. intros j.
    rewrite (aget_aset _ _ _ _ j E), Hg.
    destruct (Z.ltb_spec (count - k) (count - k - 1)); [lia|]. simpl in Hx.
    destruct (Z.eqb_spec j (count - k)), (Z.ltb_spec (count - k) j), (Z.leb_spec j count),
      (Z.ltb_spec (count - (k + 1)) j); simpl; try lia; try done. subst j. done.
  - exists nm'. done.
Qed.

(** Both ways of making room leave a hole at [b]. *)
Lemma make_room_spec s b : Z.of_nat (length (name s)) = name_cap s -> 2 <= name_cap s <= MAX_SLOT_SIZE ->
  name_count s <= name_cap s -> 0 <= b <= name_count s ->
  name_count s < name_cap s \/ name_cap s <= 2 ^ 29 ->
  exists cap nm, make_room s b = Some (cap, nm) /\
    Z.of_nat (length nm) = cap /\ 2 <= cap <= MAX_SLOT_SIZE /\ name_count s < cap /\
    forall j, 0 <= j < name_count s -> aget nm (if j <? b then j else j + 1) = aget (name s) j.
Proof.
  intros Hlen Hcap Hle Hb Hroom. unfold make_room. destruct (Z.leb_spec (name_cap s) (name_count s)).
  - unfold MAX_SLOT_SIZE in *. destruct (Z.leb_spec (name_cap s * 2) 0x40000000); [|zlia].
    destruct (copy_loop_spec (name s) 0 (Z.to_nat b) 0 (replicate (Z.to_nat (name_cap s * 2)) None))
      as (nm1 & -> & Hl1 & Hg1); rewrite ?length_replicate in *; [lia..|].
    destruct (copy_loop_spec (name s) 1 (Z.to_nat (name_count s - b)) b nm1)
      as (nm2 & -> & Hl2 & Hg2); [lia..|].
    exists (name_cap s * 2), nm2. split_and!; [done|lia..|]. intros j Hj. rewrite Hg2, Hg1.
    destruct (Z.ltb_spec j b); repeat case_match; blia || (f_equal; lia).
  - destruct (shift_loop_spec (name_count s) (Z.to_nat (name_count s - b)) (name s))
      as (nm1 & -> & Hl1 & Hg1); [lia..|].
    exists (name_cap s), nm1. split_and!; [done|lia..|]. intros j Hj. rewrite Hg1.
    destruct (Z.ltb_spec j b); repeat case_match; blia || (f_equal; lia).
Qed.

Lemma insert_cells (l1 l2 : list handle_name) junk nm nm' x :
  (forall j, 0 <= j < Z.of_nat (length (l1 ++ l2)) ->
     aget nm (if j <? Z.of_nat (length l1) then j else j + 1) = aget ((Some <$> l1 ++ l2) ++ junk) j) ->
  aset nm (Z.of_nat (length l1)) (Some x) = Some nm' ->
  exists junk', nm' = (Some <$> l1 ++ x :: l2) ++ junk'.
Proof.
  intros Hget E. rewrite length_app in Hget. set (b := Z.of_nat (length l1)) in *.
  apply cells_intro. intros i n Hi. rewrite (aget_aset _ _ _ _ i E).
  destruct (Z.lt_trichotomy i b) as [Hib|[Hib|Hib]].
  - destruct (Z.eqb_spec i b); [lia|]. rewrite aget_app_l in Hi by lia.
    pose proof (aget_lt _ _ _ Hi). specialize (Hget i ltac:(lia)).
    destruct (Z.ltb_spec i b); [|lia]. rewrite Hget. apply cells_get. by rewrite aget_app_l by lia.
  - rewrite Hib, Z.eqb_refl. rewrite Hib, aget_app_r in Hi by lia. fold b in Hi.
    rewrite Z.sub_diag in Hi. unfold aget in Hi. simpl in Hi. congruence.
  - destruct (Z.eqb_spec i b); [lia|]. pose proof (aget_lt _ _ _ Hi) as Hil. rewrite length_app in Hil.
    simpl in Hil. specialize (Hget (i - 1) ltac:(lia)). destruct (Z.ltb_spec (i - 1) b); [lia|].
    replace (i - 1 + 1) with i in Hget by lia. rewrite Hget. apply cells_get.
    rewrite aget_app_r in Hi |- * by lia. apply aget_Some in Hi as [_ Hi]. apply aget_Some. split; [lia|].
    fold b in Hi |- *. replace (Z.to_nat (i - b)) with (S (Z.to_nat (i - 1 - b))) in Hi by lia. done.
Qed.

Lemma insert_name_before_spec s l1 l2 key h : names_list s (l1 ++ l2) ->
  Forall (fun n => strcmp (hn_name n) key < 0) l1 -> Forall (fun n => 0 < strcmp (hn_name n) key) l2 ->
  name_count s < name_cap s \/ name_cap s <= 2 ^ 29 ->
  exists cap nm s', _insert_name_before s key h (Z.of_nat (length l1)) = Some s' /\
    names_list s' (l1 ++ MkName key h :: l2) /\ s' = set_names cap (name_count s + 1) nm s.
Proof.
  intros [Hlen Hcap Hcount [junk Hcells] Hs] H1 H2 Hroom.
  assert (name_count s <= name_cap s) as Hle by (rewrite <- Hlen, Hcells, length_app, length_fmap; lia).
  destruct (make_room_spec s (Z.of_nat (length l1))) as (cap & nm & Hrun & Hl & Hc & Hlt & Hget);
    try done; [rewrite Hcount, length_app; lia|].
  unfold _insert_name_before. rewrite Hrun.
  destruct (aset nm (Z.of_nat (length l1)) (Some (MkName key h))) as [nm'|] eqn:E;
    [|rewrite aset_Some in E by (rewrite length_app in Hcount; lia); done].
  exists cap, nm'. eexists. split; [done|]. split; [|done].
  split; simpl; [by rewrite (aset_length _ _ _ _ E) | done | rewrite Hcount, !length_app; simpl; lia | |].
  - eapply insert_cells; [|exact E]. rewrite <- Hcount, <- Hcells. exact Hget.
  - apply StronglySorted_app in Hs as (Hx & Hs1 & Hs2). apply StronglySorted_app. split_and!.
    + intros x y Hin1 [->|Hin2]%elem_of_cons; [|by apply Hx]. rewrite Forall_forall in H1. by apply H1.
    + done.
    + apply StronglySorted_cons. split; [|done]. eapply Forall_impl; [exact H2|]. intros n. unfold name_lt.
      simpl. rewrite strcmp_antisym. lia.
Qed.

(** ** Retiring *)

Definition kept (h : Z) (n : handle_name) : Prop := hn_handle n <> h.

#[export] Instance kept_dec h n : Decision (kept h n).
Proof. unfold kept. apply _. Defined.

(** The in-place compaction keeps the names of the other handles, in order. *)
Lemma compact_spec h l2 p mid junk : exists mid',
  for_loop (length l2) (Z.of_nat (length p + length mid)) (compact_body h)
    (Z.of_nat (length p), (Some <$> p) ++ mid ++ (Some <$> l2) ++ junk)
  = Some (Z.of_nat (length (p ++ filter (kept h) l2)), (Some <$> p ++ filter (kept h) l2) ++ mid' ++ junk) /\
  (length mid' + length (filter (kept h) l2) = length mid + length l2)%nat.
Proof.
  revert p mid. induction l2 as [|n l2 IH]; intros p mid.
  { exists mid. simpl. rewrite app_nil_r. split; [done | lia]. }
  rewrite fmap_cons. cbn [for_loop length app].
  assert (aget ((Some <$> p) ++ mid ++ Some n :: (Some <$> l2) ++ junk)
    (Z.of_nat (length p + length mid)) = Some (Some n)) as Hread.
  { replace (length p + length mid)%nat with (length ((Some <$> p) ++ mid)) by (rewrite length_app, length_fmap; lia).
    rewrite app_assoc. apply aget_mid. }
  unfold compact_body at 1. rewrite Hread, filter_cons. clear Hread.
  destruct (Z.eqb_spec (hn_handle n) h) as [E|E].
  - rewrite decide_False by (unfold kept; tauto). destruct (IH p (mid ++ [Some n])) as (mid' & Hrun & Hl).
    exists mid'. rewrite (length_app mid) in *. simpl in Hrun, Hl. split; [|simpl; lia].
    etrans; [|exact Hrun]. f_equal; [lia|]. by rewrite <- app_assoc.
  - rewrite decide_True by done.
    replace (p ++ n :: filter (kept h) l2) with ((p ++ [n]) ++ filter (kept h) l2) by (by rewrite <- app_assoc).
    destruct mid as [|m mid].
    + destruct (IH (p ++ [n]) []) as (mid' & Hrun & Hl). exists mid'. split; [|simpl in *; lia].
      etrans; [|exact Hrun]. simpl. rewrite Nat.add_0_r, Z.eqb_refl. simpl. rewrite fmap_app, <- app_assoc.
      f_equal; [|f_equal]; rewrite length_app; simpl; lia.
    + destruct (IH (p ++ [n]) (mid ++ [Some n])) as (mid' & Hrun & Hl). exists mid'.
      rewrite (length_app mid) in *. split; [|simpl in *; lia]. etrans; [|exact Hrun].
      destruct (Z.eqb_spec (Z.of_nat (length p + length (m :: mid))) (Z.of_nat (length p))) as [E'|_];
        [simpl in E'; lia|]. cbn [negb].
      replace (Z.of_nat (length p)) with (Z.of_nat (length (Some <$> p))) at 1 by (by rewrite length_fmap).
      cbn [app]. rewrite aset_mid, fmap_app, <- !app_assoc.
      f_equal; [|f_equal]; rewrite length_app; simpl; lia.
Qed.

Lemma sorted_filter h l : StronglySorted name_lt l -> StronglySorted name_lt (filter (kept h) l).
Proof.
  induction 1 as [|x l _ IH Hx]; [constructor|]. rewrite filter_cons. case_decide; [|done].
  apply StronglySorted_cons. split; [|done]. rewrite Forall_forall in *.
  intros y [_ Hy]%list_elem_of_filter. by apply Hx.
Qed.

Lemma names_filter h l : StronglySorted name_lt l ->
  list_to_map (entry <$> filter (kept h) l) =
    filter (fun kv => kv.2 <> h) (list_to_map (entry <$> l) : gmap string Z).
Proof.
  intros Hs. apply map_eq. intros k. apply option_eq. intros v.
  rewrite map_lookup_filter_Some, !names_lookup by (try apply sorted_filter; done).
  rewrite list_elem_of_filter. unfold kept. simpl. tauto.
Qed.

Lemma retire_names s l h : names_list s l ->
  exists j nm, for_loop (Z.to_nat (name_count s)) 0 (compact_body h) (0, name s) = Some (j, nm) /\
    forall sl, names_list (set_names (name_cap s) j nm (set_slots (slot_size s) sl s)) (filter (kept h) l).
Proof.
  intros [Hlen Hcap Hcount [junk Hcells] Hs].
  destruct (compact_spec h l [] [] junk) as (mid & Hrun & Hl). simpl in *.
  rewrite Hcount, Nat2Z.id, Hcells. eexists _, _. split; [exact Hrun|]. intros sl. split; simpl; try done.
  - rewrite <- Hlen, Hcells, !length_app, !length_fmap. lia.
  - by eexists.
  - by apply sorted_filter.
Qed.

(** ** The abstract handle service: contexts by handle, handles by name *)

Record handle_rep (context_handle : ctx -> Z) (s : handle_storage)
  (M : gmap Z ctx) (N : gmap string Z) : Prop := {
  hr_wf : table_wf context_handle s;
  hr_ctx : forall h c, M !! h = Some c <-> registered s c /\ context_handle c = h;
  hr_names : names_rep s N;
}.

Lemma handle_rep_init hb ch : handle_rep ch (skynet_handle_init hb) ∅ ∅.
Proof.
  assert (forall i c, aget (hslot (skynet_handle_init hb)) i <> Some (Some c)) as Hnone.
  { intros i c [_ H]%aget_Some. change (hslot _) with (replicate 4 (@None ctx)) in H.
    apply lookup_replicate in H as [? _]. done. }
  split.
  - split; [exists 2; split; [done|lia] | done | | simpl; zlia | by intros i c ?%Hnone].
    exists (Z.land hb 255). change 255 with (Z.ones 8). rewrite Z.land_ones by lia.
    pose proof (Z.mod_pos_bound hb (2 ^ 8)). split; [zlia|]. simpl. change 255 with (Z.ones 8).
    rewrite Z.land_ones, Z.shiftl_mul_pow2 by (unfold HANDLE_REMOTE_SHIFT; lia).
    unfold HANDLE_REMOTE_SHIFT. rewrite u32_small; zlia.
  - intros h c. rewrite lookup_empty. split; [done|]. intros [[i Hi] _]. by apply Hnone in Hi.
  - exists []. split; [|done]. split; [done | unfold MAX_SLOT_SIZE; simpl; lia | done | by eexists | constructor].
Qed.

(** A table without a free slot holds as many contexts as it has slots. *)
Lemma full_size ch s M N : handle_rep ch s M N -> ~ free_slot s -> slot_size s <= Z.of_nat (size M).
Proof.
  intros [Hwf Hctx _] Hfull. rewrite <- (tw_len _ _ Hwf). rewrite free_slot_alt in Hfull.
  set (keys := (fun o => ch (default 1%positive o)) <$> hslot s).
  assert (forall i o, hslot s !! i = Some o -> exists c, o = Some c /\ aget (hslot s) (Z.of_nat i) = Some (Some c))
    as Hsome.
  { intros i [c|] Hi; [exists c; by rewrite aget_nat|]. destruct Hfull. by eapply list_elem_of_lookup_2. }
  assert (NoDup keys) as Hnd.
  { apply NoDup_alt. intros i j h Hi Hj. unfold keys in Hi, Hj. rewrite list_lookup_fmap in Hi, Hj.
    destruct (hslot s !! i) as [o|] eqn:Eo, (hslot s !! j) as [o'|] eqn:Eo'; try done.
    injection Hi as <-. injection Hj as Hj.
    destruct (Hsome _ _ Eo) as (c & -> & Hc), (Hsome _ _ Eo') as (c' & -> & Hc'). simpl in *.
    destruct (tw_slot _ _ Hwf _ _ Hc) as (_ & Em & _), (tw_slot _ _ Hwf _ _ Hc') as (_ & Em' & _).
    rewrite Hj in Em'. lia. }
  apply Nat2Z.inj_le. replace (length (hslot s)) with (size (list_to_set keys : gset Z)).
  2:{ rewrite size_list_to_set by done. unfold keys. by rewrite length_fmap. }
  rewrite <- size_dom. apply subseteq_size. intros h Hh.
  apply elem_of_list_to_set, list_elem_of_fmap in Hh as (o & -> & Ho).
  apply list_elem_of_lookup in Ho as [i Hi]. destruct (Hsome _ _ Hi) as (c & -> & Hc).
  apply elem_of_dom. exists c. apply Hctx. split; [by eexists | done].
Qed.

Lemma register_rep ch s M N c : handle_rep ch s M N ->
  (forall h, M !! h <> Some c) -> free_slot s \/ slot_size s < 2 ^ 24 ->
  exists h s', skynet_handle_register ch c s = Some (h, s') /\ M !! h = None /\
    0 <= h < 2 ^ 32 /\ h / 2 ^ 24 * 2 ^ 24 = harbor s /\ harbor s' = harbor s /\
    handle_rep (assign ch c h) s' (<[h := c]> M) N.
Proof.
  intros HR Hnew Hroom. pose proof HR as [Hwf Hctx (l & [Hl1 Hl2 Hl3 Hl4 Hl5] & ->)].
  assert (~ registered s c) as Hnr by (intros Hc; by apply (Hnew (ch c)), Hctx).
  destruct (register_loop_spec ch s c Hwf Hnr) as (h & s' & Hrun & Hw & Hr & Hb & Hfr & Hreg & Hh & Hcap & Hcnt & Hnm); [done|].
  assert (M !! h = None) as HM.
  { destruct (M !! h) as [c'|] eqn:E; [|done]. apply Hctx in E as [E1 E2]. by destruct (Hfr c' E1). }
  exists h, s'. split_and!; try done; try lia. split; [done| |exists l; split; [by split; rewrite ?Hnm, ?Hcap, ?Hcnt|done]].
  intros h' c'. rewrite lookup_insert, Hreg. unfold assign. case_decide as E1; [subst h'|].
  - split; [intros [= ->]; by rewrite decide_True; auto|]. case_decide; [naive_solver|].
    intros [[->|Hc'] E]; [done|]. by destruct (Hfr c' Hc').
  - rewrite Hctx. case_decide as E2; [subst c'|naive_solver]. split; [|naive_solver].
    intros [Hc' _]. done.
Qed.



(** A registration that succeeds found room. *)
Lemma register_success ch s M N c h s' : handle_rep ch s M N -> (forall h, M !! h <> Some c) ->
  skynet_handle_register ch c s = Some (h, s') ->
  M !! h = None /\ handle_rep (assign ch c h) s' (<[h := c]> M) N.
Proof.
  intros HR Hnew Hrun. pose proof (hr_wf _ _ _ _ HR) as Hwf. destruct (tw_size_pos ch s Hwf) as [Hsz _].
  assert (free_slot s \/ slot_size s < 2 ^ 24) as Hroom.
  { destruct (decide (free_slot s)) as [|Hfull]; [by left|]. right. destruct (decide (slot_size s = 2 ^ 24)) as [E|]; [|lia].
    exfalso. revert Hrun. unfold skynet_handle_register. cbn [register_loop].
    destruct (register_scan_spec ch (Z.to_nat (slot_size s)) 0 s Hwf) as [(j & _ & Hj & _)|[-> _]]; [lia..| |].
    - destruct Hfull. by eexists.
    - unfold expand_slots. rewrite E. done. }
  destruct (register_rep ch s M N c HR Hnew Hroom) as (h0 & s0 & Hrun0 & HM & _ & _ & _ & HR'). by simplify_eq.
Qed.

Lemma retire_rep ch s M N h : handle_rep ch s M N ->
  skynet_handle_grab ch h s = Some (M !! h) /\
  match M !! h with
  | Some c => exists s', skynet_handle_retire ch h s = Some (1, Some c, s') /\
      handle_rep ch s' (delete h M) (filter (fun kv => kv.2 <> h) N) /\ harbor s' = harbor s
  | None => skynet_handle_retire ch h s = Some (0, None, s)
  end.
Proof.
  intros [Hwf Hctx (l & Hl & ->)]. unfold skynet_handle_grab, skynet_handle_retire.
  destruct (hash_slot ch s h Hwf) as [o Ho]. rewrite Ho. set (hash := Z.land h (slot_size s - 1)) in *.
  assert (forall c, M !! h = Some c -> o = Some c) as HM.
  { intros c [Hc <-]%Hctx. apply (registered_slot _ _ _ Hwf) in Hc. unfold hash in Ho. congruence. }
  destruct o as [c|]; [|destruct (M !! h) eqn:E; [by specialize (HM _ eq_refl)|done]].
  destruct (Z.eqb_spec (ch c) h) as [E|E].
  2:{ destruct (M !! h) as [c'|] eqn:E'; [|done]. specialize (HM _ eq_refl) as [= ->].
      apply Hctx in E' as [_ ?]. done. }
  assert (M !! h = Some c) as -> by (apply Hctx; split; [by eexists|done]). split; [done|].
  destruct (aset (hslot s) hash None) as [sl|] eqn:Eset;
    [|rewrite aset_Some in Eset by (by eapply aget_lt); done].
  destruct (retire_names s l h Hl) as (j & nm & -> & Hl'). eexists. split; [done|]. split; [|done].
  assert (forall i c', aget sl i = Some (Some c') <-> aget (hslot s) i = Some (Some c') /\ c' <> c) as Hsl.
  { intros i c'. rewrite (aget_aset _ _ _ _ i Eset). destruct (Z.eqb_spec i hash) as [->|Hi]; [naive_solver|].
    split; [|tauto]. intros Hc. split; [done|]. intros ->. apply Hi.
    destruct (tw_slot _ _ Hwf _ _ Hc) as (_ & <- & _), (tw_slot _ _ Hwf _ _ Ho) as (_ & <- & _). done. }
  split; simpl.
  - split; simpl; try apply Hwf; [by rewrite (aset_length _ _ _ _ Eset); apply Hwf|].
    intros i c' [Hc _]%Hsl. by apply Hwf.
  - intros h' c'. rewrite lookup_delete_Some, Hctx. unfold registered. simpl. setoid_rewrite Hsl. split.
    + intros (Hne & [i Hi] & Eh). split; [|done]. exists i. split; [done|]. congruence.
    + intros [(i & Hi & Hne) Eh]. split; [|split; [by eexists|done]]. intros ->. apply Hne.
      eapply registered_inj; [done|by eexists|by eexists|]. congruence.
  - exists (filter (kept h) l). split; [apply Hl'|]. symmetry. apply names_filter. apply Hl.
Qed.

(** C24: Lookup and retirement by handle: [skynet_handle_grab] finds exactly the
    context that has the handle; [skynet_handle_retire] hands out that context for release
    and removes it together with all its names, keeping all others, and does
    nothing for a handle not in use. *)
Theorem skynet_handle_retire_spec ch s M N h : handle_rep ch s M N ->
  skynet_handle_grab ch h s = Some (M !! h) /\
  match M !! h with
  | Some c => exists s', skynet_handle_retire ch h s = Some (1, Some c, s') /\
      handle_rep ch s' (delete h M) (filter (fun kv => kv.2 <> h) N) /\ harbor s' = harbor s
  | None => skynet_handle_retire ch h s = Some (0, None, s)
  end.
Proof. apply retire_rep. Qed.

Lemma name_table_rep ch s M N key h : handle_rep ch s M N ->
  name_count s < name_cap s \/ name_cap s <= 2 ^ 29 ->
  skynet_handle_findname key s = Some (default 0 (N !! key)) /\
  match N !! key with
  | Some _ => skynet_handle_namehandle h key s = Some (None, s)
  | None => exists s', skynet_handle_namehandle h key s = Some (Some key, s') /\
      handle_rep ch s' M (<[key := h]> N) /\ harbor s' = harbor s
  end.
Proof.
  intros [Hwf Hctx (l & Hl & ->)] Hroom. destruct (name_search_names s l key Hl) as (r & Hrun & Hr).
  unfold skynet_handle_findname, skynet_handle_namehandle, _insert_name. rewrite Hrun.
  destruct r as [[k v]|b]; simpl in Hr.
  - destruct Hr as [Hn <-]. apply (names_lookup l k v) in Hn; [|apply Hl]. simpl in *. by rewrite Hn.
  - destruct Hr as (Hb & Hlo & Hhi).
    assert ((list_to_map (entry <$> l) : gmap string Z) !! key = None) as HN.
    { apply names_lookup_None. rewrite <- (take_drop (Z.to_nat b) l).
      apply Forall_app. split; (eapply Forall_impl; [eassumption|]); intros n Hn <-; rewrite strcmp_refl in Hn; lia. }
    rewrite HN. split; [done|]. pose proof Hl as Hl0. rewrite <- (take_drop (Z.to_nat b) l) in Hl0.
    destruct (insert_name_before_spec s _ _ key h Hl0 Hlo Hhi Hroom) as (cap & nm & s' & Hins & Hl' & Es').
    rewrite length_take in Hins. replace (Z.of_nat (Z.to_nat b `min` length l)) with b in Hins by lia.
    rewrite Hins. exists s'. split; [done|]. subst s'. split; [|done]. split.
    + destruct Hwf; split; done.
    + exact Hctx.
    + eexists. split; [exact Hl'|]. rewrite <- (take_drop (Z.to_nat b) l) at 1.
      symmetry. transitivity (list_to_map (entry <$> MkName key h :: (take (Z.to_nat b) l ++ drop (Z.to_nat b) l)) : gmap string Z);
        [|done]. apply list_to_map_proper; [apply sorted_NoDup, Hl'|].
      apply fmap_Permutation. symmetry. apply Permutation_middle.
Qed.

(** C25: Names form a finite map: [skynet_handle_findname] returns the handle bound
    to a name, 0 if there is none; [skynet_handle_namehandle] binds a new name
    and refuses, with [NULL] and no change, a name already bound. *)
Theorem skynet_handle_names_spec ch s M N key h : handle_rep ch s M N ->
  name_count s < name_cap s \/ name_cap s <= 2 ^ 29 ->
  skynet_handle_findname key s = Some (default 0 (N !! key)) /\
  match N !! key with
  | Some _ => skynet_handle_namehandle h key s = Some (None, s)
  | None => exists s', skynet_handle_namehandle h key s = Some (Some key, s') /\
      handle_rep ch s' M (<[key := h]> N) /\ harbor s' = harbor s
  end.
Proof. apply name_table_rep. Qed.

(** ** Two corner cases *)

(** Registers a context and retires it at once. *)
Definition cycle (c : ctx) (s : handle_storage) : option handle_storage :=
  let! (h, s) := skynet_handle_register (fun _ => 0) c s in
  let! (_, _, s) := skynet_handle_retire (fun _ => h) h s in
  Some s.

Fixpoint cycles (n : nat) (c : ctx) (s : handle_storage) : option handle_storage :=
  match n with
  | O => Some s
  | S n => let! s := cycle c s in cycles n c s
  end.

Definition empty_at (ix : Z) : handle_storage := set_index ix (skynet_handle_init 0).

Lemma empty_register ch c ix : 0 <= ix <= 2 ^ 24 ->
  skynet_handle_register ch c (empty_at ix) =
    Some (ix mod 2 ^ 24, set_index (ix mod 2 ^ 24 + 1)
      (set_slots 4 (<[Z.to_nat (ix mod 2 ^ 24 mod 4) := Some c]> (replicate 4 None)) (empty_at ix))).
Proof.
  intros Hix. unfold skynet_handle_register. cbn [register_loop].
  change (Z.to_nat (slot_size (empty_at ix))) with 4%nat. cbn [register_scan].
  change (handle_index (empty_at ix)) with ix. change (slot_size (empty_at ix)) with (2 ^ 2).
  change (hslot (empty_at ix)) with (replicate 4 (@None ctx)). change HANDLE_MASK with (2 ^ 24 - 1).
  rewrite Z.add_0_l, u32_small, !land_low by zlia. change (2 ^ 2) with 4.
  pose proof (Z.mod_pos_bound (ix mod 2 ^ 24) 4) as H4. pose proof (Z.mod_pos_bound ix (2 ^ 24)) as H24.
  assert (aget (replicate 4 (@None ctx)) (ix mod 2 ^ 24 mod 4) = Some None) as ->.
  { apply aget_Some. split; [lia|]. apply lookup_replicate. split; [done|lia]. }
  rewrite aset_Some by (simpl; lia). rewrite u32_small by zlia. change (harbor _) with 0. by rewrite Z.lor_0_r.
Qed.

Lemma empty_cycle c ix : 0 <= ix <= 2 ^ 24 -> cycle c (empty_at ix) = Some (empty_at (ix mod 2 ^ 24 + 1)).
Proof.
  intros Hix. unfold cycle. rewrite empty_register by done. unfold skynet_handle_retire.
  cbn [slot_size hslot set_index set_slots name_count name name_cap empty_at skynet_handle_init].
  change (4 - 1) with (2 ^ 2 - 1). rewrite land_low by lia. change (2 ^ 2) with 4.
  pose proof (Z.mod_pos_bound (ix mod 2 ^ 24) 4) as H4.
  assert (aget (<[Z.to_nat (ix mod 2 ^ 24 mod 4):=Some c]> (replicate 4 None)) (ix mod 2 ^ 24 mod 4) = Some (Some c)) as ->.
  { apply aget_Some. split; [lia|]. apply list_lookup_insert_eq. rewrite length_replicate. lia. }
  rewrite Z.eqb_refl, aset_Some by (rewrite length_insert, length_replicate; lia).
  rewrite list_insert_insert_eq, list_insert_id; [done|]. apply lookup_replicate. split; [done|lia].
Qed.

Lemma empty_cycles n c ix : 0 <= ix -> ix + Z.of_nat n <= 2 ^ 24 ->
  cycles n c (empty_at ix) = Some (empty_at (ix + Z.of_nat n)).
Proof.
  revert ix. induction n as [|n IH]; intros ix Hix Hn; cbn [cycles].
  - by rewrite Z.add_0_r.
  - rewrite empty_cycle, Z.mod_small, IH by lia. do 2 f_equal. lia.
Qed.

(** Handle 0 is not reserved for ever: in process 0, after [2 ^ 24 - 1]
    registrations each followed by a retirement, the index has wrapped and the
    next registration returns handle 0. *)
Theorem handle_zero_allocated c :
  exists s s', cycles (Z.to_nat (2 ^ 24 - 1)) c (skynet_handle_init 0) = Some s /\
    skynet_handle_register (fun _ => 0) c s = Some (0, s').
Proof.
  exists (empty_at (2 ^ 24)). eexists. split.
  - assert (exists n : nat, n = Z.to_nat (2 ^ 24 - 1)) as [n En] by eauto. rewrite <- En.
    pose proof (empty_cycles n c 1) as H. replace (1 + Z.of_nat n) with (2 ^ 24) in H by lia.
    apply H; lia.
  - rewrite empty_register by lia. reflexivity.
Qed.

(** Registers the contexts [cs]; the caller has not yet written any handle field. *)
Fixpoint register_all (cs : list ctx) (s : handle_storage) : option handle_storage :=
  match cs with
  | [] => Some s
  | c :: cs => let! (_, s) := skynet_handle_register (fun _ => 0) c s in register_all cs s
  end.

(** The rehash reads the handle fields of all contexts, which the creating
    threads write only after registration has released the lock: if two of four
    new contexts do not have their handles yet when a fifth one makes the table
    grow, the assertion of the rehash fails. *)
Theorem register_race :
  exists s, register_all [1; 2; 3; 4]%positive (skynet_handle_init 0) = Some s /\
    skynet_handle_register (fun c => if decide (c ∈ [1; 2]%positive) then Zpos c else 0) 5%positive s = None.
Proof. eexists. split; [vm_compute; reflexivity|]. vm_compute. reflexivity. Qed.

(** ** Witnesses *)


Lemma skynet_handle_retire_spec_witness :
  skynet_handle_grab (fun _ => 0) 7 (skynet_handle_init 2) = Some None /\
  skynet_handle_retire (fun _ => 0) 7 (skynet_handle_init 2) = Some (0, None, skynet_handle_init 2).
Proof.
  exact (skynet_handle_retire_spec (fun _ => 0) (skynet_handle_init 2) ∅ ∅ 7 (handle_rep_init 2 (fun _ => 0))).
Defined.

Lemma skynet_handle_names_spec_witness :
  exists s', skynet_handle_namehandle 9 "launcher" (skynet_handle_init 2) = Some (Some "launcher"%string, s') /\
    handle_rep (fun _ => 0) s' ∅ {["launcher" := 9]}.
Proof.
  destruct (skynet_handle_names_spec (fun _ => 0) (skynet_handle_init 2) ∅ ∅ "launcher" 9)
    as [_ (s' & H1 & H2 & _)].
  - apply handle_rep_init.
  - left. reflexivity.
  - exists s'. split; [exact H1 | exact H2].
Defined.
