(* ===== verification/CString.v ===== *)
(** * C strings and numbers in text

    What the services use of [string.h], [stdlib.h] and [stdio.h], on arrays of
    bytes: a byte is a [Z] in [0 .. 255], a string in memory ends at a NUL byte.  Blocks of memory
    and copies between them fail outside their bounds. *)

From S2P Require Import Prelude.

(** The bytes of a literal, without the NUL. *)
Definition str (s : string) : list Z :=
  map (fun c => Z.of_N (Ascii.N_of_ascii c)) (String.list_ascii_of_string s).

(** The bytes up to the first NUL; [None] when there is no NUL. *)
Fixpoint until_nul (l : list Z) : option (list Z) :=
  match l with
  | [] => None
  | b :: l => if b =? 0 then Some [] else let! r := until_nul l in Some (b :: r)
  end.

(** The string at offset [p] of the array [a]. *)
Definition cstr (a : list Z) (p : Z) : option (list Z) :=
  assert! (0 <=? p) ;; until_nul (drop (Z.to_nat p) a).

(** [memcmp(p, lit, n) == 0] for a literal [lit], which has one more byte, its
    NUL; the comparison stops at the first difference and fails past the literal. *)
Fixpoint memcmp_eq (p lit : list Z) (n : nat) : option bool :=
  match n, p, lit with
  | O, _, _ => Some true
  | S n, b :: p, c :: lit => if b =? c then memcmp_eq p lit n else Some false
  | _, _, _ => None
  end.

Definition isspace (b : Z) : bool := (b =? 32) || ((9 <=? b) && (b <=? 13)).

Fixpoint skip_space (l : list Z) : list Z :=
  match l with
  | b :: r => if isspace b then skip_space r else l
  | [] => []
  end.

Definition digit_value (base b : Z) : option Z :=
  let d := if (48 <=? b) && (b <=? 57) then b - 48
           else if (97 <=? b) && (b <=? 122) then b - 87
           else if (65 <=? b) && (b <=? 90) then b - 55
           else base in
  if d <? base then Some d else None.

(** The value of the leading digits, their number, and what follows. *)
Fixpoint digits_value (base acc : Z) (n : nat) (l : list Z) : Z * nat * list Z :=
  match l with
  | b :: r =>
      match digit_value base b with
      | Some d => digits_value base (acc * base + d) (S n) r
      | None => (acc, n, l)
      end
  | [] => (acc, n, [])
  end.

Definition sign_of (l : list Z) : bool * list Z :=
  match l with
  | b :: r => if b =? 45 then (true, r) else if b =? 43 then (false, r) else (false, l)
  | [] => (false, l)
  end.

Definition LONG_MAX : Z := 2 ^ 63 - 1.
Definition LONG_MIN : Z := - 2 ^ 63.
Definition ULONG_MAX : Z := 2 ^ 64 - 1.

(** A decimal number with optional sign: the value, the number of digits, the rest. *)
Definition scan_decimal (l : list Z) : Z * nat * list Z :=
  let '(neg, l) := sign_of (skip_space l) in
  let '(v, n, r) := digits_value 10 0 0 l in
  ((if neg : bool then Z.max LONG_MIN (- v) else Z.min LONG_MAX v), n, r).

(** [strtol(s, NULL, 10)]. *)
Definition strtol10 (l : list Z) : Z := fst (fst (scan_decimal l)).

(** Whether digits after an optional [0x] prefix follow. *)
Definition has_0x (l : list Z) : bool :=
  match l with
  | z :: x :: h :: _ => (z =? 48) && ((x =? 120) || (x =? 88)) && bool_decide (is_Some (digit_value 16 h))
  | _ => false
  end.

(** [strtoul(s, NULL, 16)], with the optional [0x] prefix. *)
Definition strtoul16 (l : list Z) : Z :=
  let '(neg, l) := sign_of (skip_space l) in
  let l := if has_0x l then tail (tail l) else l in
  let '(v, _, _) := digits_value 16 0 0 l in
  if ULONG_MAX <? v then ULONG_MAX else if neg : bool then u64 (- v) else v.

(** The decimal digits of a number, [%d] and [%u]. *)
Fixpoint decimal_loop (fuel : nat) (z : Z) (acc : list Z) : list Z :=
  match fuel with
  | O => acc
  | S fuel =>
      let acc := (48 + z mod 10) :: acc in
      if z / 10 =? 0 then acc else decimal_loop fuel (z / 10) acc
  end.

Definition decimal (z : Z) : list Z :=
  if z <? 0 then 45 :: decimal_loop 20 (- z) [] else decimal_loop 20 z [].

(** [%s] of [scanf]: the leading non-space bytes and the rest. *)
Fixpoint scan_word (l : list Z) : list Z * list Z :=
  match l with
  | b :: r => if isspace b then ([], l) else let '(w, r) := scan_word r in (b :: w, r)
  | [] => ([], [])
  end.

(** [snprintf(buf, n, ...)]: at most [n - 1] bytes are stored. *)
Definition snprintf (n : nat) (text : list Z) : list Z := take (n - 1) text.

(** ** Blocks of memory *)

Definition byte (b : Z) : Prop := 0 <= b < 2 ^ 8.

(** [memcpy] of [n] bytes from [p + off]; reading past the block fails. *)
Definition memcpy (p : list Z) (off n : Z) : option (list Z) :=
  assert! (0 <=? off) && (0 <=? n) && (off + n <=? Z.of_nat (length p)) ;;
  Some (take (Z.to_nat n) (drop (Z.to_nat off) p)).

(** [skynet_malloc(n)]: the content is not specified, here zeros. *)
Definition malloc (n : Z) : list Z := replicate (Z.to_nat n) 0.

(** [memcpy(buf + off, data, length data)]. *)
Definition memcpy_at (buf : list Z) (off : Z) (data : list Z) : option (list Z) :=
  assert! (0 <=? off) && (off + Z.of_nat (length data) <=? Z.of_nat (length buf)) ;;
  Some (take (Z.to_nat off) buf ++ data ++ drop (Z.to_nat off + length data) buf).

Lemma memcpy_Some p off n : 0 <= off -> 0 <= n -> off + n <= Z.of_nat (length p) ->
  memcpy p off n = Some (take (Z.to_nat n) (drop (Z.to_nat off) p)).
Proof.
  intros. unfold memcpy. destruct (Z.leb_spec 0 off), (Z.leb_spec 0 n),
    (Z.leb_spec (off + n) (Z.of_nat (length p))); simpl; done || lia.
Qed.

Lemma memcpy_at_spec buf off data : 0 <= off -> off + Z.of_nat (length data) <= Z.of_nat (length buf) ->
  exists buf', memcpy_at buf off data = Some buf' /\ length buf' = length buf /\
    take (Z.to_nat off + length data) buf' = take (Z.to_nat off) buf ++ data.
Proof.
  intros. unfold memcpy_at. destruct (Z.leb_spec 0 off),
    (Z.leb_spec (off + Z.of_nat (length data)) (Z.of_nat (length buf))); simpl; try lia.
  eexists. split; [done|]. split.
  - rewrite !length_app, length_take, length_drop. lia.
  - rewrite app_assoc, take_app_le by (rewrite length_app, length_take; lia).
    apply take_ge. rewrite length_app, length_take. lia.
Qed.

Example strtol10_ex : strtol10 (str " -12x") = -12.
Proof. reflexivity. Qed.
Example strtoul16_ex : strtoul16 (str "0x1fz") = 31 /\ strtoul16 (str "ff") = 255 /\ strtoul16 (str "0xg") = 0.
Proof. repeat split. Qed.
Example decimal_ex : decimal (-120) = str "-120" /\ decimal 0 = str "0".
Proof. split; reflexivity. Qed.
