(* ===== verification/Module.v ===== *)
(** * Service modules ([skynet-src/skynet_module.c])

    The table of loaded service modules.  [dlopen] and [dlsym] are arguments: the
    handle of the library a file name denotes, the address of a symbol in it.  The
    lock makes a query one step. *)

From S2P Require Import Prelude CString.

Definition MAX_MODULE_TYPE : Z := 32.

(** The function pointers are addresses, [None] for [NULL]. *)
Record skynet_module := MkMod {
  m_name : list Z;
  m_module : Z;
  m_create : option Z;
  m_init : option Z;
  m_release : option Z;
  m_signal : option Z;
}.

Record modules := MkModules {
  m_count : Z;
  m_path : list Z;
  m_m : list (option skynet_module);
}.

(** What a search for a library ends with; a template without [?] ends the process. *)
Inductive opened := Found (dl : Z) | NotFound | Exit.

(** Skips leading semicolons. *)
Fixpoint skip_semi (path : list Z) : list Z :=
  match path with
  | b :: r => if b =? 59 then skip_semi r else path
  | [] => []
  end.

(** The bytes before the first [c], and their number when there is none. *)
Fixpoint index_of (c : Z) (l : list Z) : nat :=
  match l with
  | b :: r => if b =? c then O else S (index_of c r)
  | [] => O
  end.

Section Open.
Context (dlopen : list Z -> option Z) (dlsym : Z -> list Z -> option Z).

(** The [do] loop; [sz] is the size of [tmp]. *)
Fixpoint open_loop (fuel : nat) (sz : Z) (path name : list Z) : option opened :=
  match fuel with
  | O => None
  | S fuel =>
      let path := skip_semi path in
      match path with
      | [] => Some NotFound
      | _ =>
          let len := index_of 59 path in
          let i := Nat.min (index_of 63 path) len in
          let! tmp := memcpy_at (malloc sz) 0 (take i path) in
          let! tmp := memcpy_at tmp (Z.of_nat i) name in
          if bool_decide (path !! i = Some 63) then
            let! tmp := memcpy_at tmp (Z.of_nat (i + length name)) (take (len - i - 1) (drop (i + 1) path)) in
            let! file := cstr tmp 0 in
            match dlopen file with
            | Some dl => Some (Found dl)
            | None => open_loop fuel sz (drop len path) name
            end
          else Some Exit
      end
  end.

Definition _try_open (m : modules) (name : list Z) : option opened :=
  open_loop (S (length (m_path m))) (Z.of_nat (length (m_path m)) + Z.of_nat (length name)) (m_path m) name.

(** The module of that name among the first [n] cells from [i] on, with its index. *)
Fixpoint query_loop (n : nat) (i : Z) (m : list (option skynet_module)) (name : list Z)
  : option (option (Z * skynet_module)) :=
  match n with
  | O => Some None
  | S n =>
      let! cell := aget m i in
      let! x := cell in
      if bool_decide (m_name x = name) then Some (Some (i, x)) else query_loop n (i + 1) m name
  end.

Definition _query (m : modules) (name : list Z) : option (option (Z * skynet_module)) :=
  query_loop (Z.to_nat (m_count m)) 0 (m_m m) name.

(** The module with its symbols, and the result. *)
Definition _open_sym (md : skynet_module) : Z * skynet_module :=
  let sym s := dlsym (m_module md) (m_name md ++ str s) in
  let md := MkMod (m_name md) (m_module md) (sym "_create"%string) (sym "_init"%string)
               (sym "_release"%string) (sym "_signal"%string) in
  (match m_init md with None => 1 | Some _ => 0 end, md).

(** The module found or loaded, and the table; [inr tt] when the process exits. *)
Definition skynet_module_query (name : list Z) (m : modules)
  : option ((option skynet_module * modules) + unit) :=
  let! result := _query m name in
  match result with
  | Some (_, x) => Some (inl (Some x, m))
  | None =>
      if m_count m <? MAX_MODULE_TYPE then
        let index := m_count m in
        let! dl := _try_open m name in
        match dl with
        | Exit => Some (inr tt)
        | NotFound => Some (inl (None, m))
        | Found dl =>
            let '(r, md) := _open_sym (MkMod name dl None None None None) in
            let! cells := aset (m_m m) index (Some md) in
            if r =? 0 then Some (inl (Some md, MkModules (m_count m + 1) (m_path m) cells))
            else Some (inl (None, MkModules (m_count m) (m_path m) cells))
        end
      else Some (inl (None, m))
  end.
End Open.

Definition skynet_module_insert (md : skynet_module) (M : modules) : option modules :=
  let! m := _query M (m_name md) in
  assert! bool_decide (m = None) && (m_count M <? MAX_MODULE_TYPE) ;;
  let index := m_count M in
  let! cells := aset (m_m M) index (Some md) in
  Some (MkModules (m_count M + 1) (m_path M) cells).

Definition skynet_module_init (path : list Z) : modules :=
  MkModules 0 path (replicate (Z.to_nat MAX_MODULE_TYPE) None).

(** ** What a search for a library tries *)

(** The templates of a path, between semicolons, empty ones left out. *)
Fixpoint templates (fuel : nat) (path : list Z) : list (list Z) :=
  match fuel with
  | O => []
  | S fuel =>
      match skip_semi path with
      | [] => []
      | path => take (index_of 59 path) path :: templates fuel (drop (index_of 59 path) path)
      end
  end.

(** The file name of a template: its first [?] replaced by the name. *)
Definition instantiate (name tmpl : list Z) : option (list Z) :=
  let i := index_of 63 tmpl in
  match tmpl !! i with
  | Some _ => Some (take i tmpl ++ name ++ drop (i + 1) tmpl)
  | None => None
  end.

(** The first template that opens wins; one without [?] ends the search. *)
Fixpoint search (dlopen : list Z -> option Z) (name : list Z) (ts : list (list Z)) : opened :=
  match ts with
  | [] => NotFound
  | t :: ts =>
      match instantiate name t with
      | None => Exit
      | Some file => match dlopen file with Some dl => Found dl | None => search dlopen name ts end
      end
  end.

Definition no_nul (l : list Z) : Prop := Forall (fun b => b <> 0) l.

Lemma memcpy_at_zeros l d n : (length d <= n)%nat ->
  memcpy_at (l ++ replicate n 0) (Z.of_nat (length l)) d = Some ((l ++ d) ++ replicate (n - length d) 0).
Proof.
  intros Hd. unfold memcpy_at. rewrite length_app, length_replicate.
  destruct (Z.leb_spec 0 (Z.of_nat (length l))); [|lia].
  destruct (Z.leb_spec (Z.of_nat (length l) + Z.of_nat (length d)) (Z.of_nat (length l + n))); [|lia]. simpl.
  rewrite Nat2Z.id, take_app_length, drop_app_ge by lia. rewrite drop_replicate.
  replace (length l + length d - length l)%nat with (length d) by lia. by rewrite <- app_assoc.
Qed.

Lemma until_nul_zeros l n : no_nul l -> (0 < n)%nat -> until_nul (l ++ replicate n 0) = Some l.
Proof.
  intros Hl Hn. induction Hl as [|b l Hb _ IH]; cbn [app until_nul].
  - destruct n as [|n]; [lia|]. done.
  - destruct (Z.eqb_spec b 0); [done|]. by rewrite IH.
Qed.

Lemma index_of_le c l : (index_of c l <= length l)%nat.
Proof. induction l as [|b l IH]; simpl; [done|]. destruct (b =? c); lia. Qed.

Lemma index_of_lookup c l : (index_of c l < length l)%nat -> l !! index_of c l = Some c.
Proof.
  induction l as [|b l IH]; simpl; [lia|]. destruct (Z.eqb_spec b c) as [->|]; [done|].
  intros Hl. apply IH. lia.
Qed.

Lemma index_of_take c n l : (n <= length l)%nat -> index_of c (take n l) = Nat.min (index_of c l) n.
Proof.
  revert n. induction l as [|b l IH]; intros [|n] Hn; simpl in *; [done..| |].
  - destruct (b =? c); lia.
  - destruct (b =? c); [done|]. rewrite IH by lia. lia.
Qed.

Lemma skip_semi_no_nul path : no_nul path -> no_nul (skip_semi path).
Proof. induction 1 as [|b l Hb Hl IH]; simpl; [constructor|]. destruct (b =? 59); [done|]. by constructor. Qed.

Lemma skip_semi_length path : (length (skip_semi path) <= length path)%nat.
Proof. induction path as [|b l IH]; simpl; [done|]. destruct (b =? 59); simpl; lia. Qed.

Lemma skip_semi_head path b r : skip_semi path = b :: r -> b <> 59.
Proof.
  induction path as [|b' l IH]; simpl; [done|]. destruct (Z.eqb_spec b' 59); [done|]. by intros [= <- <-].
Qed.

(** The first part of the file name fits the buffer. *)
Lemma open_prefix sz path name i : (i <= length path)%nat ->
  Z.of_nat (length path) + Z.of_nat (length name) <= sz ->
  memcpy_at (malloc sz) 0 (take i path) = Some (take i path ++ replicate (Z.to_nat sz - i) 0) /\
  memcpy_at (take i path ++ replicate (Z.to_nat sz - i) 0) (Z.of_nat i) name =
    Some ((take i path ++ name) ++ replicate (Z.to_nat sz - i - length name) 0).
Proof.
  intros Hi Hsz. assert (length (take i path) = i) as Hti by (rewrite length_take; lia). unfold malloc. split.
  - pose proof (memcpy_at_zeros [] (take i path) (Z.to_nat sz)) as E. rewrite Hti in E. apply E. lia.
  - pose proof (memcpy_at_zeros (take i path) name (Z.to_nat sz - i)) as E. rewrite Hti in E. apply E. lia.
Qed.

(** The buffer ends up with the file name of the template and a NUL after it. *)
Lemma open_file sz path name i len : no_nul path -> no_nul name -> (i < len <= length path)%nat ->
  Z.of_nat (length path) + Z.of_nat (length name) <= sz ->
  exists tmp, memcpy_at ((take i path ++ name) ++ replicate (Z.to_nat sz - i - length name) 0)
      (Z.of_nat (i + length name)) (take (len - i - 1) (drop (i + 1) path)) = Some tmp /\
    cstr tmp 0 = Some (take i (take len path) ++ name ++ drop (i + 1) (take len path)).
Proof.
  intros Hp Hn Hi Hsz. assert (length (take i path) = i) as Hti by (rewrite length_take; lia).
  assert (length (take (len - i - 1) (drop (i + 1) path)) = len - i - 1)%nat as Htr.
  { rewrite length_take, length_drop. lia. }
  pose proof (memcpy_at_zeros (take i path ++ name) (take (len - i - 1) (drop (i + 1) path))
    (Z.to_nat sz - i - length name)) as E. rewrite length_app, Hti, Htr in E. rewrite E by lia.
  eexists. split; [done|]. unfold cstr. change (0 <=? 0) with true. change (drop (Z.to_nat 0) ?l) with l. cbv iota.
  rewrite take_take, Nat.min_l by lia. rewrite take_drop_commute.
  replace (i + 1 + (len - i - 1))%nat with len by lia. rewrite (app_assoc (take i path)).
  apply until_nul_zeros; [|lia]. repeat (apply Forall_app_2); [by apply Forall_take|done|].
  by apply Forall_drop, Forall_take.
Qed.

Lemma open_loop_spec dlopen fuel sz path name : no_nul path -> no_nul name -> (length path < fuel)%nat ->
  Z.of_nat (length path) + Z.of_nat (length name) <= sz ->
  open_loop dlopen fuel sz path name = Some (search dlopen name (templates fuel path)).
Proof.
  revert path. induction fuel as [|fuel IH]; intros path Hp Hn Hf Hsz; [lia|]. cbn [open_loop templates].
  pose proof (skip_semi_no_nul _ Hp) as Hp'. pose proof (skip_semi_length path) as Hlen.
  destruct (skip_semi path) as [|b r] eqn:Es; [done|]. pose proof (skip_semi_head _ _ _ Es) as Hb.
  remember (b :: r) as path' eqn:Ep.
  pose proof (index_of_le 59 path') as Hl. set (len := index_of 59 path') in *.
  assert (0 < len)%nat as Hpos by (unfold len; subst path'; simpl; destruct (Z.eqb_spec b 59); [done|lia]).
  cbn [search]. unfold instantiate. rewrite (index_of_take 63 len path' Hl).
  set (i := Nat.min (index_of 63 path') len). destruct (open_prefix sz path' name i) as [-> ->]; [lia..|].
  destruct (decide (i < len)%nat) as [Hi|Hi].
  - assert (path' !! i = Some 63) as Hat.
    { replace i with (index_of 63 path') by lia. apply index_of_lookup. lia. }
    rewrite bool_decide_eq_true_2 by done. rewrite lookup_take_lt, Hat by lia.
    destruct (open_file sz path' name i len) as (tmp & -> & ->); [done|done|lia|lia|].
    destruct (dlopen _); [done|]. apply IH; [by apply Forall_drop|done| |]; rewrite length_drop; lia.
  - assert (i = len) as Ei by lia. rewrite lookup_take_ge by lia. rewrite bool_decide_eq_false_2; [done|].
    rewrite Ei. intros Hat. pose proof (lookup_lt_Some _ _ _ Hat) as Hlt. apply index_of_lookup in Hlt.
    fold len in Hlt. congruence.
Qed.

(** ** The table as a list of modules *)

Record module_rep (m : modules) (l : list skynet_module) : Prop := {
  mr_count : m_count m = Z.of_nat (length l);
  mr_max : (length l <= 32)%nat;
  mr_len : length (m_m m) = 32%nat;
  mr_cells : forall i x, l !! i = Some x -> aget (m_m m) (Z.of_nat i) = Some (Some x);
  mr_names : NoDup (m_name <$> l);
}.

Definition has_name (name : list Z) (x : skynet_module) : Prop := m_name x = name.

#[export] Instance has_name_dec name x : Decision (has_name name x).
Proof. unfold has_name. apply _. Defined.

Lemma query_loop_spec cells name l k : (forall i x, l !! i = Some x -> aget cells (k + Z.of_nat i) = Some (Some x)) ->
  exists r, query_loop (length l) k cells name = Some r /\
    snd <$> r = head (filter (has_name name) l).
Proof.
  revert k. induction l as [|x l IH]; intros k Hl; simpl; [by exists None|].
  pose proof (Hl O x eq_refl) as Hx. rewrite Z.add_0_r in Hx. rewrite Hx. rewrite filter_cons.
  destruct (decide (has_name name x)) as [Hn|Hn].
  - rewrite bool_decide_eq_true_2 by done. by exists (Some (k, x)).
  - rewrite bool_decide_eq_false_2 by done. apply IH. intros i y Hy.
    rewrite <- (Hl (S i) y Hy). f_equal. lia.
Qed.

Lemma query_rep m l name : module_rep m l ->
  exists r, _query m name = Some r /\ snd <$> r = head (filter (has_name name) l).
Proof.
  intros Hr. unfold _query. rewrite (mr_count _ _ Hr), Nat2Z.id. apply query_loop_spec. apply Hr.
Qed.

(** The symbols looked up in a library. *)
Definition loaded (dlsym : Z -> list Z -> option Z) (name : list Z) (dl : Z) : skynet_module :=
  let sym s := dlsym dl (name ++ str s) in
  MkMod name dl (sym "_create"%string) (sym "_init"%string) (sym "_release"%string) (sym "_signal"%string).

Lemma module_rep_keep m l cells x : module_rep m l -> aset (m_m m) (m_count m) x = Some cells ->
  module_rep (MkModules (m_count m) (m_path m) cells) l.
Proof.
  intros [Hc Hm Hl Hx Hn] Hs. split; cbn [m_count m_m]; try done; [by rewrite (aset_length _ _ _ _ Hs)|].
  intros i y Hi. rewrite (aget_aset_ne _ _ _ _ _ Hs); [by apply Hx|].
  apply lookup_lt_Some in Hi. lia.
Qed.

Lemma module_rep_add m l cells x : module_rep m l -> aset (m_m m) (m_count m) (Some x) = Some cells ->
  filter (has_name (m_name x)) l = [] ->
  module_rep (MkModules (m_count m + 1) (m_path m) cells) (l ++ [x]).
Proof.
  intros Hr Hs Hf. pose proof (module_rep_keep _ _ _ _ Hr Hs) as [_ Hm Hl Hx Hn]. cbn [m_m] in *.
  pose proof (aset_inv _ _ _ _ Hs) as [Hin _]. rewrite (mr_count _ _ Hr) in *.
  split; cbn [m_count m_m]; rewrite ?length_app; cbn [length]; try lia; [| |].
  - rewrite (mr_len _ _ Hr) in Hin. lia.
  - intros i y [[_ Hi]|[Hi <-]]%lookup_snoc_Some; [by apply Hx|]. subst i. by apply (aget_aset_eq _ _ _ _ Hs).
  - rewrite fmap_app. apply NoDup_snoc. split; [done|]. intros (y & Hy & Hin')%list_elem_of_fmap.
    assert (y ∈ filter (has_name (m_name x)) l) as Hbad by (by apply list_elem_of_filter).
    rewrite Hf in Hbad. by apply elem_of_nil in Hbad.
Qed.

(** [skynet_module_query] keeps a table of at most 32 modules with distinct names: a known name
    gives its module; an unknown one is searched for along the path, template by template, and is added
    exactly when a library opens and has an init function.  The name buffer never overflows. *)
Theorem skynet_module_query_spec dlopen dlsym name m l : module_rep m l -> no_nul (m_path m) -> no_nul name ->
  let loaded_from dl :=
    let md := loaded dlsym name dl in
    if decide (is_Some (m_init md)) then exists m', skynet_module_query dlopen dlsym name m = Some (inl (Some md, m')) /\
      module_rep m' (l ++ [md]) /\ m_path m' = m_path m
    else exists m', skynet_module_query dlopen dlsym name m = Some (inl (None, m')) /\ module_rep m' l /\ m_path m' = m_path m in
  match filter (has_name name) l with
  | x :: _ => skynet_module_query dlopen dlsym name m = Some (inl (Some x, m))
  | [] =>
      if decide (length l < 32)%nat then
        match search dlopen name (templates (S (length (m_path m))) (m_path m)) with
        | Exit => skynet_module_query dlopen dlsym name m = Some (inr tt)
        | NotFound => skynet_module_query dlopen dlsym name m = Some (inl (None, m))
        | Found dl => loaded_from dl
        end
      else skynet_module_query dlopen dlsym name m = Some (inl (None, m))
  end.
Proof.
  intros Hr Hp Hn loaded_from. unfold loaded_from, skynet_module_query.
  destruct (query_rep m l name Hr) as (r & -> & Hq).
  destruct (filter (has_name name) l) as [|x ?] eqn:Ef; simpl in Hq;
    [|destruct r as [[i y]|]; by simplify_eq/=].
  destruct r; [done|]. pose proof (mr_count _ _ Hr) as Hc. unfold MAX_MODULE_TYPE.
  case_decide as Hlt; destruct (Z.ltb_spec (m_count m) 32); try lia; [|done].
  unfold _try_open. rewrite open_loop_spec by (done || lia).
  destruct (search _ _ _) as [dl| |]; [|done..].
  destruct (aset (m_m m) (m_count m) (Some (loaded dlsym name dl))) as [cells|] eqn:Es.
  2:{ rewrite aset_Some in Es; [done|]. rewrite (mr_len _ _ Hr). lia. }
  change (_open_sym dlsym (MkMod name dl None None None None)) with
    (match m_init (loaded dlsym name dl) with None => 1 | Some _ => 0 end, loaded dlsym name dl).
  cbv beta iota zeta. rewrite Es. destruct (m_init (loaded dlsym name dl)) as [f|] eqn:Ei.
  - rewrite decide_True by eauto. eexists. split; [done|]. split; [|done].
    by apply (module_rep_add _ _ _ (loaded dlsym name dl) Hr).
  - rewrite decide_False by (by intros [? [=]]). eexists. split; [done|]. split; [|done].
    by eapply module_rep_keep.
Qed.

(** [skynet_module_query] on an empty table loads the module the second template names. *)
Definition ex_dlopen (file : list Z) : option Z := if decide (file = str "b/gate.so") then Some 7 else None.
Definition ex_dlsym (dl : Z) (sym : list Z) : option Z := if decide (sym = str "gate_init") then Some 1 else None.

Lemma module_rep_init path : module_rep (skynet_module_init path) [].
Proof. split; cbn; try done; try lia; constructor. Qed.

Lemma skynet_module_query_spec_witness : exists m',
  skynet_module_query ex_dlopen ex_dlsym (str "gate") (skynet_module_init (str "a/?.so;b/?.so")) =
    Some (inl (Some (MkMod (str "gate") 7 None (Some 1) None None), m')) /\
  module_rep m' [MkMod (str "gate") 7 None (Some 1) None None].
Proof.
  destruct (skynet_module_query_spec ex_dlopen ex_dlsym (str "gate") (skynet_module_init (str "a/?.so;b/?.so")) [])
    as (m' & H1 & H2 & _).
  - apply module_rep_init.
  - unfold no_nul. apply (bool_decide_unpack _). reflexivity.
  - unfold no_nul. apply (bool_decide_unpack _). reflexivity.
  - exists m'. split; [exact H1|exact H2].
Defined.
