(* ===== verification/Node.v ===== *)
(** * A node: contexts and what they share

    The state of one skynet process and the operations the rest of the server is built from:
    memory of messages, service contexts with their reference counts ([skynet-src/skynet_server.c]),
    the harbor ([skynet-src/skynet_harbor.c]), the log ([skynet-src/skynet_error.c]) and the environment
    ([skynet-src/skynet_env.c]).  The code of the services is not part of the server: it is the class
    [Services].  A [None] result is a failed assertion or a use of memory that is not there. *)

From S2P Require Import Prelude Message MQ Timer Handle CString Module.


(** [struct remote_message]; its size is 40 bytes. *)
Record remote_message := MkRemote {
  r_name : list Z;
  r_handle : Z;
  r_message : Z;
  r_sz : Z;
}.

Definition sizeof_remote_message : Z := 40.

(** What [skynet_malloc] hands out to messages. *)
Inductive block := Bytes (l : list Z) | Remote (r : remote_message).

(** A function pointer, an instance or a file is its address; [c_result] is the string in the
    buffer [result[32]]. *)
Record skynet_context := MkCtx {
  c_instance : Z;
  c_mod : skynet_module;
  c_cb_ud : Z;
  c_cb : option Z;
  c_queue : positive;
  c_logfile : option Z;
  c_cpu_cost : Z;
  c_cpu_start : Z;
  c_result : list Z;
  c_handle : Z;
  c_session_id : Z;
  c_ref : Z;
  c_message_count : Z;
  c_init : bool;
  c_endless : bool;
  c_profile : bool;
}.

Definition set_cb (cb : option Z) (ud : Z) (s : skynet_context) : skynet_context :=
  MkCtx (c_instance s) (c_mod s) ud cb (c_queue s) (c_logfile s) (c_cpu_cost s) (c_cpu_start s) (c_result s)
    (c_handle s) (c_session_id s) (c_ref s) (c_message_count s) (c_init s) (c_endless s) (c_profile s).

Definition set_queue (q : positive) (s : skynet_context) : skynet_context :=
  MkCtx (c_instance s) (c_mod s) (c_cb_ud s) (c_cb s) q (c_logfile s) (c_cpu_cost s) (c_cpu_start s)
    (c_result s) (c_handle s) (c_session_id s) (c_ref s) (c_message_count s) (c_init s) (c_endless s)
    (c_profile s).

Definition set_logfile (f : option Z) (s : skynet_context) : skynet_context :=
  MkCtx (c_instance s) (c_mod s) (c_cb_ud s) (c_cb s) (c_queue s) f (c_cpu_cost s) (c_cpu_start s) (c_result s)
    (c_handle s) (c_session_id s) (c_ref s) (c_message_count s) (c_init s) (c_endless s) (c_profile s).

Definition set_cpu (cost : Z) (start : Z) (s : skynet_context) : skynet_context :=
  MkCtx (c_instance s) (c_mod s) (c_cb_ud s) (c_cb s) (c_queue s) (c_logfile s) cost start (c_result s)
    (c_handle s) (c_session_id s) (c_ref s) (c_message_count s) (c_init s) (c_endless s) (c_profile s).

Definition set_result (r : list Z) (s : skynet_context) : skynet_context :=
  MkCtx (c_instance s) (c_mod s) (c_cb_ud s) (c_cb s) (c_queue s) (c_logfile s) (c_cpu_cost s) (c_cpu_start s) r
    (c_handle s) (c_session_id s) (c_ref s) (c_message_count s) (c_init s) (c_endless s) (c_profile s).

Definition set_handle (h : Z) (s : skynet_context) : skynet_context :=
  MkCtx (c_instance s) (c_mod s) (c_cb_ud s) (c_cb s) (c_queue s) (c_logfile s) (c_cpu_cost s) (c_cpu_start s)
    (c_result s) h (c_session_id s) (c_ref s) (c_message_count s) (c_init s) (c_endless s) (c_profile s).

Definition set_session_id (i : Z) (s : skynet_context) : skynet_context :=
  MkCtx (c_instance s) (c_mod s) (c_cb_ud s) (c_cb s) (c_queue s) (c_logfile s) (c_cpu_cost s) (c_cpu_start s)
    (c_result s) (c_handle s) i (c_ref s) (c_message_count s) (c_init s) (c_endless s) (c_profile s).

Definition set_ref (r : Z) (s : skynet_context) : skynet_context :=
  MkCtx (c_instance s) (c_mod s) (c_cb_ud s) (c_cb s) (c_queue s) (c_logfile s) (c_cpu_cost s) (c_cpu_start s)
    (c_result s) (c_handle s) (c_session_id s) r (c_message_count s) (c_init s) (c_endless s) (c_profile s).

Definition set_message_count (n : Z) (s : skynet_context) : skynet_context :=
  MkCtx (c_instance s) (c_mod s) (c_cb_ud s) (c_cb s) (c_queue s) (c_logfile s) (c_cpu_cost s) (c_cpu_start s)
    (c_result s) (c_handle s) (c_session_id s) (c_ref s) n (c_init s) (c_endless s) (c_profile s).

Definition set_init (b : bool) (s : skynet_context) : skynet_context :=
  MkCtx (c_instance s) (c_mod s) (c_cb_ud s) (c_cb s) (c_queue s) (c_logfile s) (c_cpu_cost s) (c_cpu_start s)
    (c_result s) (c_handle s) (c_session_id s) (c_ref s) (c_message_count s) b (c_endless s) (c_profile s).

Definition set_endless (b : bool) (s : skynet_context) : skynet_context :=
  MkCtx (c_instance s) (c_mod s) (c_cb_ud s) (c_cb s) (c_queue s) (c_logfile s) (c_cpu_cost s) (c_cpu_start s)
    (c_result s) (c_handle s) (c_session_id s) (c_ref s) (c_message_count s) (c_init s) b (c_profile s).

(** [G_NODE], the statics of the other files, and the heap.  [n_current] is the handle in the
    thread's [handle_key]; [n_freed] lists the message blocks freed so far. *)
Record node := MkNode {
  n_total : Z;
  n_monitor_exit : Z;
  n_profile : bool;
  n_current : Z;
  n_remote : option ctx;
  n_HARBOR : Z;
  n_logger : Z;
  n_ctxs : gmap ctx skynet_context;
  n_handles : handle_storage;
  n_mq : mq_state;
  n_timer : timer;
  n_modules : modules;
  n_env : gmap (list Z) (list Z);
  n_mem : gmap Z block;
  n_brk : Z;
  n_freed : list Z;
}.

Definition set_total (x : Z) (n : node) : node :=
  MkNode x (n_monitor_exit n) (n_profile n) (n_current n) (n_remote n) (n_HARBOR n) (n_logger n) (n_ctxs n)
    (n_handles n) (n_mq n) (n_timer n) (n_modules n) (n_env n) (n_mem n) (n_brk n) (n_freed n).

Definition set_monitor_exit (x : Z) (n : node) : node :=
  MkNode (n_total n) x (n_profile n) (n_current n) (n_remote n) (n_HARBOR n) (n_logger n) (n_ctxs n)
    (n_handles n) (n_mq n) (n_timer n) (n_modules n) (n_env n) (n_mem n) (n_brk n) (n_freed n).

Definition set_profile (x : bool) (n : node) : node :=
  MkNode (n_total n) (n_monitor_exit n) x (n_current n) (n_remote n) (n_HARBOR n) (n_logger n) (n_ctxs n)
    (n_handles n) (n_mq n) (n_timer n) (n_modules n) (n_env n) (n_mem n) (n_brk n) (n_freed n).

Definition set_current (x : Z) (n : node) : node :=
  MkNode (n_total n) (n_monitor_exit n) (n_profile n) x (n_remote n) (n_HARBOR n) (n_logger n) (n_ctxs n)
    (n_handles n) (n_mq n) (n_timer n) (n_modules n) (n_env n) (n_mem n) (n_brk n) (n_freed n).

Definition set_remote (x : option ctx) (n : node) : node :=
  MkNode (n_total n) (n_monitor_exit n) (n_profile n) (n_current n) x (n_HARBOR n) (n_logger n) (n_ctxs n)
    (n_handles n) (n_mq n) (n_timer n) (n_modules n) (n_env n) (n_mem n) (n_brk n) (n_freed n).

Definition set_HARBOR (x : Z) (n : node) : node :=
  MkNode (n_total n) (n_monitor_exit n) (n_profile n) (n_current n) (n_remote n) x (n_logger n) (n_ctxs n)
    (n_handles n) (n_mq n) (n_timer n) (n_modules n) (n_env n) (n_mem n) (n_brk n) (n_freed n).

Definition set_logger (x : Z) (n : node) : node :=
  MkNode (n_total n) (n_monitor_exit n) (n_profile n) (n_current n) (n_remote n) (n_HARBOR n) x (n_ctxs n)
    (n_handles n) (n_mq n) (n_timer n) (n_modules n) (n_env n) (n_mem n) (n_brk n) (n_freed n).

Definition set_ctxs (x : gmap ctx skynet_context) (n : node) : node :=
  MkNode (n_total n) (n_monitor_exit n) (n_profile n) (n_current n) (n_remote n) (n_HARBOR n) (n_logger n) x
    (n_handles n) (n_mq n) (n_timer n) (n_modules n) (n_env n) (n_mem n) (n_brk n) (n_freed n).

Definition set_handles (x : handle_storage) (n : node) : node :=
  MkNode (n_total n) (n_monitor_exit n) (n_profile n) (n_current n) (n_remote n) (n_HARBOR n) (n_logger n)
    (n_ctxs n) x (n_mq n) (n_timer n) (n_modules n) (n_env n) (n_mem n) (n_brk n) (n_freed n).

Definition set_mq (x : mq_state) (n : node) : node :=
  MkNode (n_total n) (n_monitor_exit n) (n_profile n) (n_current n) (n_remote n) (n_HARBOR n) (n_logger n)
    (n_ctxs n) (n_handles n) x (n_timer n) (n_modules n) (n_env n) (n_mem n) (n_brk n) (n_freed n).

Definition set_timer (x : timer) (n : node) : node :=
  MkNode (n_total n) (n_monitor_exit n) (n_profile n) (n_current n) (n_remote n) (n_HARBOR n) (n_logger n)
    (n_ctxs n) (n_handles n) (n_mq n) x (n_modules n) (n_env n) (n_mem n) (n_brk n) (n_freed n).

Definition set_modules (x : modules) (n : node) : node :=
  MkNode (n_total n) (n_monitor_exit n) (n_profile n) (n_current n) (n_remote n) (n_HARBOR n) (n_logger n)
    (n_ctxs n) (n_handles n) (n_mq n) (n_timer n) x (n_env n) (n_mem n) (n_brk n) (n_freed n).

Definition set_env (x : gmap (list Z) (list Z)) (n : node) : node :=
  MkNode (n_total n) (n_monitor_exit n) (n_profile n) (n_current n) (n_remote n) (n_HARBOR n) (n_logger n)
    (n_ctxs n) (n_handles n) (n_mq n) (n_timer n) (n_modules n) x (n_mem n) (n_brk n) (n_freed n).

Definition set_mem (x : gmap Z block) (b : Z) (f : list Z) (n : node) : node :=
  MkNode (n_total n) (n_monitor_exit n) (n_profile n) (n_current n) (n_remote n) (n_HARBOR n) (n_logger n)
    (n_ctxs n) (n_handles n) (n_mq n) (n_timer n) (n_modules n) (n_env n) x b f.

#[export, refine] Instance node_has_mq : HasMQ node := {| mq_of := n_mq; with_mq := set_mq |}.
Proof. done. Defined.

(** The code of the services and of the C library the server calls. *)
Class Services := {
  sv_dlopen : list Z -> option Z;
  sv_dlsym : Z -> list Z -> option Z;
  sv_create : Z -> node -> option (Z * node);
  sv_init : Z -> Z -> ctx -> option (list Z) -> node -> option (Z * node);
  sv_release : Z -> Z -> node -> option node;
  sv_signal : Z -> Z -> Z -> node -> option node;
  sv_cb : Z -> ctx -> Z -> Z -> Z -> Z -> Z -> Z -> node -> option (Z * node);
  sv_thread_time : node -> Z;
  sv_fopen : list Z -> node -> option Z;
}.

(** ** Memory *)

Definition alloc (b : block) (nd : node) : Z * node :=
  (n_brk nd, set_mem (<[n_brk nd := b]> (n_mem nd)) (n_brk nd + 1) (n_freed nd) nd).

Definition skynet_free (p : Z) (nd : node) : node :=
  if p =? 0 then nd else set_mem (delete p (n_mem nd)) (n_brk nd) (n_freed nd ++ [p]) nd.

(** ** Contexts *)

Definition context_handle (nd : node) (c : ctx) : Z :=
  match n_ctxs nd !! c with Some k => c_handle k | None => 0 end.

Definition upd_ctx (c : ctx) (f : skynet_context -> skynet_context) (nd : node) : option node :=
  let! k := n_ctxs nd !! c in
  Some (set_ctxs (<[c := f k]> (n_ctxs nd)) nd).

Definition skynet_context_total (nd : node) : Z := n_total nd.
Definition context_inc (nd : node) : node := set_total (n_total nd + 1) nd.
Definition context_dec (nd : node) : node := set_total (n_total nd - 1) nd.

Definition skynet_context_handle (c : ctx) (nd : node) : option Z :=
  let! k := n_ctxs nd !! c in Some (c_handle k).

(** The counter of an [int]: it restarts at 1. *)
Definition skynet_context_newsession (c : ctx) (nd : node) : option (Z * node) :=
  let! k := n_ctxs nd !! c in
  let session := i32 (c_session_id k + 1) in
  if session <=? 0 then
    let! nd := upd_ctx c (set_session_id 1) nd in Some (1, nd)
  else
    let! nd := upd_ctx c (set_session_id session) nd in Some (session, nd).

Definition skynet_context_grab (c : ctx) (nd : node) : option node :=
  upd_ctx c (fun k => set_ref (c_ref k + 1) k) nd.

Definition skynet_context_reserve (c : ctx) (nd : node) : option node :=
  let! nd := skynet_context_grab c nd in
  Some (context_dec nd).

(** [skynet_handle_grab] with the reference it takes under the read lock. *)
Definition handle_grab (handle : Z) (nd : node) : option (option ctx * node) :=
  let! r := skynet_handle_grab (context_handle nd) handle (n_handles nd) in
  match r with
  | Some c => let! nd := skynet_context_grab c nd in Some (Some c, nd)
  | None => Some (None, nd)
  end.

Section Node.
Context `{Services}.

Definition skynet_module_instance_release (m : skynet_module) (inst : Z) (nd : node) : option node :=
  match m_release m with
  | Some f => sv_release f inst nd
  | None => Some nd
  end.

Definition delete_context (c : ctx) (nd : node) : option node :=
  let! k := n_ctxs nd !! c in
  let! nd := skynet_module_instance_release (c_mod k) (c_instance k) nd in
  let! w := skynet_mq_mark_release (c_queue k) (n_mq nd) in
  Some (context_dec (set_ctxs (delete c (n_ctxs nd)) (set_mq w nd))).

Definition skynet_context_release (c : ctx) (nd : node) : option (option ctx * node) :=
  let! nd := upd_ctx c (fun k => set_ref (c_ref k - 1) k) nd in
  let! k := n_ctxs nd !! c in
  if c_ref k =? 0 then
    let! nd := delete_context c nd in
    Some (None, nd)
  else Some (Some c, nd).

Definition skynet_context_push (handle : Z) (message : skynet_message) (nd : node) : option (Z * node) :=
  let! (r, nd) := handle_grab handle nd in
  match r with
  | None => Some (-1, nd)
  | Some c =>
      let! k := n_ctxs nd !! c in
      let! w := skynet_mq_push (c_queue k) message (n_mq nd) in
      let! (_, nd) := skynet_context_release c (set_mq w nd) in
      Some (0, nd)
  end.

(** What the timer sees of a node. *)
#[export] Instance node_push : ContextPush (option node) :=
  fun handle m w =>
    match w with
    | Some nd => match skynet_context_push handle m nd with
                 | Some (r, nd) => (r, Some nd)
                 | None => (0, None)
                 end
    | None => (0, None)
    end.

Definition skynet_context_endless (handle : Z) (nd : node) : option node :=
  let! (r, nd) := handle_grab handle nd in
  match r with
  | None => Some nd
  | Some c =>
      let! nd := upd_ctx c (set_endless true) nd in
      let! (_, nd) := skynet_context_release c nd in
      Some nd
  end.

(** [skynet_handle_retire], the release after the unlock included. *)
Definition handle_retire (handle : Z) (nd : node) : option (Z * node) :=
  let! (ret, r, s) := skynet_handle_retire (context_handle nd) handle (n_handles nd) in
  let nd := set_handles s nd in
  match r with
  | Some c => let! (_, nd) := skynet_context_release c nd in Some (ret, nd)
  | None => Some (ret, nd)
  end.

(** One pass of [skynet_handle_retireall] over the slots from [i] on: the handles retired.  [None] when the
    fuel runs out, that is when the table has grown meanwhile. *)
Fixpoint retire_pass (fuel : nat) (i : Z) (nd : node) : option (Z * node) :=
  if i <? slot_size (n_handles nd) then
    match fuel with
    | O => None
    | S fuel =>
        let! cell := aget (hslot (n_handles nd)) i in
        let handle := match cell with Some c => context_handle nd c | None => 0 end in
        let! (r, nd) := if negb (handle =? 0) then handle_retire handle nd else Some (0, nd) in
        let! (n, nd) := retire_pass fuel (i + 1) nd in
        Some (r + n, nd)
    end
  else Some (0, nd).

(** The [for (;;)] of [skynet_handle_retireall]. *)
Fixpoint skynet_handle_retireall (fuel : nat) (nd : node) : option node :=
  match fuel with
  | O => None
  | S fuel =>
      let! (n, nd) := retire_pass (Z.to_nat (slot_size (n_handles nd))) 0 nd in
      if n =? 0 then Some nd else skynet_handle_retireall fuel nd
  end.

(** ** The log *)

Definition LOG_MESSAGE_SIZE : Z := 256.

(** The size of the buffer that holds a text of [len] bytes. *)
Fixpoint log_loop (fuel : nat) (len max_size : Z) : option Z :=
  match fuel with
  | O => None
  | S fuel =>
      let max_size := max_size * 2 in
      if len <? max_size then Some max_size else log_loop fuel len max_size
  end.

(** [text] is what the format and its arguments give. *)
Definition skynet_error (context : option ctx) (text : list Z) (nd : node) : option node :=
  let! nd :=
    if n_logger nd =? 0 then
      let! h := skynet_handle_findname "logger" (n_handles nd) in Some (set_logger h nd)
    else Some nd in
  if n_logger nd =? 0 then Some nd
  else
    let len := Z.of_nat (length text) in
    let! size := if len <? LOG_MESSAGE_SIZE then Some (len + 1) else log_loop (length text) len LOG_MESSAGE_SIZE in
    let '(data, nd) := alloc (Bytes (text ++ replicate (Z.to_nat (size - len)) 0)) nd in
    let! source := match context with Some c => skynet_context_handle c nd | None => Some 0 end in
    let! (_, nd) := skynet_context_push (n_logger nd) (Msg source 0 data (message_sz len PTYPE_TEXT)) nd in
    Some nd.

(** ** The harbor *)

Definition skynet_context_send (c : ctx) (msg sz source type session : Z) (nd : node) : option node :=
  let! k := n_ctxs nd !! c in
  let! w := skynet_mq_push (c_queue k) (Msg source session msg (message_sz sz type)) (n_mq nd) in
  Some (set_mq w nd).

(** [rmsg] is the address of the block [r]. *)
Definition skynet_harbor_send (rmsg source session : Z) (nd : node) : option node :=
  let! b := n_mem nd !! rmsg in
  match b with
  | Remote r =>
      let type := message_type (r_sz r) in
      let r := MkRemote (r_name r) (r_handle r) (r_message r) (message_size (r_sz r)) in
      let nd := set_mem (<[rmsg := Remote r]> (n_mem nd)) (n_brk nd) (n_freed nd) nd in
      assert! negb (type =? PTYPE_SYSTEM) && negb (type =? PTYPE_HARBOR) ;;
      let! c := n_remote nd in
      skynet_context_send c rmsg sizeof_remote_message source type session nd
  | Bytes _ => None
  end.

Definition skynet_harbor_message_isremote (handle : Z) (nd : node) : option bool :=
  assert! negb (n_HARBOR nd =? 2 ^ 32 - 1) ;;
  let h := Z.land handle (2 ^ 32 - 1 - HANDLE_MASK) in
  Some (negb (h =? n_HARBOR nd) && negb (h =? 0)).

Definition skynet_harbor_init (harbor : Z) (nd : node) : node :=
  set_HARBOR (u32 (Z.shiftl harbor HANDLE_REMOTE_SHIFT)) nd.

Definition skynet_harbor_start (c : ctx) (nd : node) : option node :=
  let! nd := skynet_context_reserve c nd in
  Some (set_remote (Some c) nd).

Definition skynet_harbor_exit (nd : node) : option node :=
  let r := n_remote nd in
  let nd := set_remote None nd in
  match r with
  | Some c => let! (_, nd) := skynet_context_release c nd in Some nd
  | None => Some nd
  end.
End Node.

(** ** The environment *)

Definition skynet_getenv (key : list Z) (nd : node) : option (list Z) := n_env nd !! key.

Definition skynet_setenv (key value : list Z) (nd : node) : option node :=
  assert! bool_decide (n_env nd !! key = None) ;;
  Some (set_env (<[key := value]> (n_env nd)) nd).
