(* ===== verification/Server.v ===== *)
(** * The server ([skynet-src/skynet_server.c], [skynet-src/skynet_monitor.c])

    Creating services, sending messages, dispatching the messages of a queue, and the commands a
    service can give.  One thread runs an operation at a time here; [NodeSafe.v] interleaves
    their steps. *)

From S2P Require Import Prelude Message MQ Timer Handle CString Module Node.

(** ** Text *)

(** A C string as a key of the name table. *)
Definition of_bytes (l : list Z) : string :=
  String.string_of_list_ascii (map (fun b => Ascii.ascii_of_N (Z.to_N b)) l).

Definition hex_digit (upper : bool) (d : Z) : Z := if d <? 10 then 48 + d else (if upper then 55 else 87) + d.

(** [%x]: the digits of a 32-bit number without leading zeros. *)
Fixpoint hex_loop (fuel : nat) (z : Z) (acc : list Z) : list Z :=
  match fuel with
  | O => acc
  | S fuel =>
      let acc := hex_digit false (z mod 16) :: acc in
      if z / 16 =? 0 then acc else hex_loop fuel (z / 16) acc
  end.

Definition hex (z : Z) : list Z := hex_loop 8 z [].

(** [%08x]. *)
Definition hex08 (z : Z) : list Z := map (fun i => hex_digit false (Z.land (Z.shiftr z ((7 - i) * 4)) 0xf)) (seqZ 0 8).

Definition id_to_hex (id : Z) : list Z :=
  58 :: map (fun i => hex_digit true (Z.land (Z.shiftr id ((7 - i) * 4)) 0xf)) (seqZ 0 8).

(** [%lf] of [z / 1000000.0], exact as long as [z < 2 ^ 52]. *)
Definition micros (z : Z) : list Z :=
  decimal (z / 1000000) ++ 46 ::
  map (fun k => 48 + z / 10 ^ k mod 10) [5; 4; 3; 2; 1; 0].

(** The string is stored in [result[32]] with its NUL. *)
Definition sprintf_result (c : ctx) (text : list Z) (nd : node) : option (option (list Z) * node) :=
  assert! (Z.of_nat (length text) <? 32) ;;
  let! nd := upd_ctx c (set_result text) nd in
  Some (Some text, nd).

(** The byte at the start of a C string. *)
Definition first (l : list Z) : Z := match l with b :: _ => b | [] => 0 end.

(** [strtol(s, NULL, 0)] for the signal number. *)
Definition strtol0 (l : list Z) : Z :=
  let '(neg, l) := sign_of (skip_space l) in
  let base := if has_0x l then 16 else if bool_decide (head l = Some 48) then 8 else 10 in
  let l := if base =? 16 then tail (tail l) else l in
  let '(v, _, _) := digits_value base 0 0 l in
  if neg : bool then Z.max LONG_MIN (- v) else Z.min LONG_MAX v.

(** The bytes before the first one in [delim], and what follows it: [strsep]. *)
Fixpoint split_word (delim l : list Z) : list Z * option (list Z) :=
  match l with
  | [] => ([], None)
  | b :: r => if bool_decide (b ∈ delim) then ([], Some r)
              else let '(w, rest) := split_word delim r in (b :: w, rest)
  end.

(** ** The monitor of a worker *)

Record skynet_monitor := MkMonitor {
  sm_version : Z;
  sm_check_version : Z;
  sm_source : Z;
  sm_destination : Z;
}.

Definition skynet_monitor_new : skynet_monitor := MkMonitor 0 0 0 0.

Definition skynet_monitor_trigger (source destination : Z) (sm : skynet_monitor) : skynet_monitor :=
  MkMonitor (i32 (sm_version sm + 1)) (sm_check_version sm) source destination.

Section Server.
Context `{Services}.

Definition skynet_monitor_check (sm : skynet_monitor) (nd : node) : option (skynet_monitor * node) :=
  if sm_version sm =? sm_check_version sm then
    if negb (sm_destination sm =? 0) then
      let! nd := skynet_context_endless (sm_destination sm) nd in
      let! nd := skynet_error None (str "A message from [ :" ++ hex08 (sm_source sm) ++ str " ] to [ :" ++
        hex08 (sm_destination sm) ++ str " ] maybe in an endless loop (version = " ++
        decimal (sm_version sm) ++ str ")") nd in
      Some (sm, nd)
    else Some (sm, nd)
  else Some (MkMonitor (sm_version sm) (sm_version sm) (sm_source sm) (sm_destination sm), nd).

(** ** Sending *)

(** The copy [_filter_args] makes: the bytes and a NUL. *)
Definition copy_data (data sz : Z) (nd : node) : option (Z * node) :=
  let! b := n_mem nd !! data in
  match b with
  | Bytes l => let! msg := memcpy l 0 sz in Some (alloc (Bytes (msg ++ [0])) nd)
  | Remote _ => None
  end.

(** The session, the data and the size to send. *)
Definition _filter_args (context : option ctx) (type session data sz : Z) (nd : node)
  : option (Z * Z * Z * node) :=
  let needcopy := Z.land type PTYPE_TAG_DONTCOPY =? 0 in
  let allocsession := negb (Z.land type PTYPE_TAG_ALLOCSESSION =? 0) in
  let type := Z.land type 0xff in
  let! (session, nd) :=
    if allocsession then
      assert! (session =? 0) ;;
      let! c := context in
      skynet_context_newsession c nd
    else Some (session, nd) in
  let! (data, nd) := if needcopy && negb (data =? 0) then copy_data data sz nd else Some (data, nd) in
  Some (session, data, message_sz sz type, nd).

Definition source_handle (context : option ctx) (source : Z) (nd : node) : option Z :=
  if source =? 0 then let! c := context in skynet_context_handle c nd else Some source.

Definition skynet_send (context : option ctx) (source destination type session data sz : Z) (nd : node)
  : option (Z * node) :=
  if negb (Z.land sz MESSAGE_TYPE_MASK =? sz) then
    let! nd := skynet_error context (str "The message to " ++ hex destination ++ str " is too large") nd in
    let nd := if negb (Z.land type PTYPE_TAG_DONTCOPY =? 0) then skynet_free data nd else nd in
    Some (-1, nd)
  else
    let! (session, data, sz, nd) := _filter_args context type session data sz nd in
    let! source := source_handle context source nd in
    if destination =? 0 then Some (session, nd)
    else
      let! remote := skynet_harbor_message_isremote destination nd in
      if remote : bool then
        let '(rmsg, nd) := alloc (Remote (MkRemote [] destination data sz)) nd in
        let! nd := skynet_harbor_send rmsg source session nd in
        Some (session, nd)
      else
        let! (r, nd) := skynet_context_push destination (Msg source session data sz) nd in
        if negb (r =? 0) then Some (-1, skynet_free data nd) else Some (session, nd).

(** 16 bytes of the name, padded with NULs. *)
Definition copy_name (addr : list Z) : list Z :=
  let n := take (Z.to_nat GLOBALNAME_LENGTH) addr in
  n ++ replicate (Z.to_nat GLOBALNAME_LENGTH - length n) 0.

Definition skynet_sendname (context : option ctx) (source : Z) (addr : list Z) (type session data sz : Z) (nd : node)
  : option (Z * node) :=
  let! source := source_handle context source nd in
  if first addr =? 58 then
    skynet_send context source (u32 (strtoul16 (tail addr))) type session data sz nd
  else if first addr =? 46 then
    let! des := skynet_handle_findname (of_bytes (tail addr)) (n_handles nd) in
    if des =? 0 then
      Some (-1, if negb (Z.land type PTYPE_TAG_DONTCOPY =? 0) then skynet_free data nd else nd)
    else skynet_send context source des type session data sz nd
  else
    let! (session, data, sz, nd) := _filter_args context type session data sz nd in
    let '(rmsg, nd) := alloc (Remote (MkRemote (copy_name addr) 0 data sz)) nd in
    let! nd := skynet_harbor_send rmsg source session nd in
    Some (session, nd).

Definition drop_message (handle : Z) (msg : skynet_message) (nd : node) : option node :=
  let nd := skynet_free (data msg) nd in
  assert! negb (handle =? 0) ;;
  let! (_, nd) := skynet_send None handle (source msg) PTYPE_ERROR 0 0 0 nd in
  Some nd.

(** Enough to empty the queue: [drop_message] sends to other queues. *)
Definition drop_fuel (p : positive) (nd : node) : nat :=
  match mqs (n_mq nd) !! p with Some q => S (Z.to_nat (skynet_mq_length q)) | None => O end.

(** ** Dispatching *)

Definition skynet_isremote (handle : Z) (nd : node) : option (bool * Z) :=
  let! ret := skynet_harbor_message_isremote handle nd in
  Some (ret, Z.shiftr handle HANDLE_REMOTE_SHIFT).

(** The call of the callback, timed when the context is profiled: what it returns. *)
Definition run_callback (c : ctx) (k : skynet_context) (cb : Z) (msg : skynet_message) (nd : node) : option (Z * node) :=
  let type := message_type (sz msg) in
  let size := message_size (sz msg) in
  if c_profile k then
    let! nd := upd_ctx c (fun k => set_cpu (c_cpu_cost k) (sv_thread_time nd) k) nd in
    let! (r, nd) := sv_cb cb c (c_cb_ud k) type (session msg) (source msg) (data msg) size nd in
    let t := sv_thread_time nd in
    let! nd := upd_ctx c (fun k => set_cpu (u64 (c_cpu_cost k + u64 (t - c_cpu_start k))) (c_cpu_start k) k) nd in
    Some (r, nd)
  else sv_cb cb c (c_cb_ud k) type (session msg) (source msg) (data msg) size nd.

(** [dispatch_message] of [skynet_server.c]: the callback runs and the data are freed unless it
    keeps them.  What [skynet_log_output] writes to the log file is not part of the node. *)
Definition ctx_dispatch (c : ctx) (msg : skynet_message) (nd : node) : option node :=
  let! k := n_ctxs nd !! c in
  assert! c_init k ;;
  let nd := set_current (c_handle k) nd in
  let! nd := upd_ctx c (fun k => set_message_count (i32 (c_message_count k + 1)) k) nd in
  let! cb := c_cb k in
  let! (reserve_msg, nd) := run_callback c k cb msg nd in
  Some (if reserve_msg =? 0 then skynet_free (data msg) nd else nd).

(** Until the queue is empty; [None] when the fuel runs out. *)
Fixpoint skynet_context_dispatchall (fuel : nat) (c : ctx) (nd : node) : option node :=
  match fuel with
  | O => None
  | S fuel =>
      let! k := n_ctxs nd !! c in
      let! (ret, msg, w) := skynet_mq_pop (c_queue k) (n_mq nd) in
      let nd := set_mq w nd in
      if ret =? 0 then
        let! msg := msg in
        let! nd := ctx_dispatch c msg nd in
        skynet_context_dispatchall fuel c nd
      else Some nd
  end.

Definition globalmq_pop (nd : node) : option (option positive * node) :=
  let! (q, w) := skynet_globalmq_pop (n_mq nd) in
  Some (q, set_mq w nd).

(** The [for] loop of [skynet_context_message_dispatch], [i] of [n] messages done: [true] when it found the
    queue empty.  At most [fuel] rounds, where the queue had [fuel - 1] messages left. *)
Fixpoint dispatch_rounds (fuel : nat) (i n weight handle : Z) (q : positive) (c : ctx) (sm : skynet_monitor) (nd : node)
  : option (bool * skynet_monitor * node) :=
  if i <? n then
    match fuel with
    | O => None
    | S fuel =>
        let! (ret, msg, w) := skynet_mq_pop q (n_mq nd) in
        let nd := set_mq w nd in
        if ret =? 0 then
          let! msg := msg in
          let! mq := mqs (n_mq nd) !! q in
          let n := if (i =? 0) && (0 <=? weight) then Z.shiftr (skynet_mq_length mq) weight else n in
          let '(overload, mq) := skynet_mq_overload mq in
          let nd := set_mq (store q mq (n_mq nd)) nd in
          let! nd := if negb (overload =? 0) then
                       skynet_error (Some c) (str "May overload, message queue length = " ++ decimal overload) nd
                     else Some nd in
          let sm := skynet_monitor_trigger (source msg) handle sm in
          let! k := n_ctxs nd !! c in
          let! nd := match c_cb k with
                     | None => Some (skynet_free (data msg) nd)
                     | Some _ => ctx_dispatch c msg nd
                     end in
          dispatch_rounds fuel (i + 1) n weight handle q c (skynet_monitor_trigger 0 0 sm) nd
        else Some (true, sm, nd)
    end
  else Some (false, sm, nd).

(** The rounds a dispatch can take: one, or as many as messages are pending. *)
Definition dispatch_fuel (q : positive) (nd : node) : nat :=
  match mqs (n_mq nd) !! q with Some mq => S (Z.to_nat (skynet_mq_length mq)) | None => O end.

(** The next queue to work on, the monitor and the node. *)
Definition skynet_context_message_dispatch (sm : skynet_monitor) (q : option positive) (weight : Z) (nd : node)
  : option (option positive * skynet_monitor * node) :=
  let! (q, nd) := match q with Some q => Some (Some q, nd) | None => globalmq_pop nd end in
  match q with
  | None => Some (None, sm, nd)
  | Some q =>
      let! mq := mqs (n_mq nd) !! q in
      let handle := skynet_mq_handle mq in
      let! (r, nd) := handle_grab handle nd in
      match r with
      | None =>
          let! (_, nd) := skynet_mq_release (drop_fuel q nd) q (drop_message handle) nd in
          let! (nq, nd) := globalmq_pop nd in
          Some (nq, sm, nd)
      | Some c =>
          let! (empty, sm, nd) := dispatch_rounds (dispatch_fuel q nd) 0 1 weight handle q c sm nd in
          if empty : bool then
            let! (_, nd) := skynet_context_release c nd in
            let! (nq, nd) := globalmq_pop nd in
            Some (nq, sm, nd)
          else
            let! k := n_ctxs nd !! c in
            assert! bool_decide (q = c_queue k) ;;
            let! (nq, nd) := globalmq_pop nd in
            let! (q, nd) :=
              match nq with
              | Some nq => let! w := skynet_globalmq_push q (n_mq nd) in Some (nq, set_mq w nd)
              | None => Some (q, nd)
              end in
            let! (_, nd) := skynet_context_release c nd in
            Some (Some q, sm, nd)
      end
  end.

(** ** Creating a service *)

Definition skynet_module_instance_create (m : skynet_module) (nd : node) : option (Z * node) :=
  match m_create m with
  | Some f => sv_create f nd
  | None => Some (2 ^ 64 - 1, nd)
  end.

Definition skynet_module_instance_init (m : skynet_module) (inst : Z) (c : ctx) (parm : option (list Z)) (nd : node)
  : option (Z * node) :=
  let! f := m_init m in sv_init f inst c parm nd.

Definition skynet_module_instance_signal (m : skynet_module) (inst signal : Z) (nd : node) : option node :=
  match m_signal m with
  | Some f => sv_signal f inst signal nd
  | None => Some nd
  end.

(** Registers a new context with two references and its queue: all but the call of the init function. *)
Definition context_create (m : skynet_module) (inst : Z) (nd : node) : option (ctx * positive * node) :=
  let c := fresh (dom (n_ctxs nd)) in
  let queue := fresh (dom (mqs (n_mq nd))) in
  let k := MkCtx inst m 0 None queue None 0 0 [] 0 0 2 0 false false (n_profile nd) in
  let nd := set_ctxs (<[c := k]> (n_ctxs nd)) nd in
  let! (handle, s) := skynet_handle_register (context_handle nd) c (n_handles nd) in
  let! nd := upd_ctx c (set_handle handle) (set_handles s nd) in
  let! w := skynet_mq_create queue handle (n_mq nd) in
  Some (c, queue, context_inc (set_mq w nd)).

(** The module of a name, or [NULL]; the process can exit instead. *)
Definition module_query (name : list Z) (nd : node) : option (option skynet_module * node) :=
  let! r := skynet_module_query sv_dlopen sv_dlsym name (n_modules nd) in
  match r with
  | inl (m, ms) => Some (m, set_modules ms nd)
  | inr _ => None
  end.

Definition skynet_context_new (name : list Z) (param : option (list Z)) (nd : node) : option (option ctx * node) :=
  let! (m, nd) := module_query name nd in
  match m with
  | None => Some (None, nd)
  | Some m =>
      let! (inst, nd) := skynet_module_instance_create m nd in
      if inst =? 0 then Some (None, nd)
      else
        let! (c, queue, nd) := context_create m inst nd in
        let! (r, nd) := skynet_module_instance_init m inst c param nd in
        if r =? 0 then
          let! (ret, nd) := skynet_context_release c nd in
          let! nd := match ret with Some c => upd_ctx c (set_init true) nd | None => Some nd end in
          let! w := skynet_globalmq_push queue (n_mq nd) in
          let nd := set_mq w nd in
          let! nd := match ret with
                     | Some c => skynet_error (Some c) (str "LAUNCH " ++ name ++ str " " ++ default [] param) nd
                     | None => Some nd
                     end in
          Some (ret, nd)
        else
          let! nd := skynet_error (Some c) (str "FAILED launch " ++ name) nd in
          let! handle := skynet_context_handle c nd in
          let! (_, nd) := skynet_context_release c nd in
          let! (_, nd) := handle_retire handle nd in
          let! (_, nd) := skynet_mq_release (drop_fuel queue nd) queue (drop_message handle) nd in
          Some (None, nd)
  end.

(** ** Commands *)

Definition skynet_queryname (context : ctx) (name : list Z) (nd : node) : option (Z * node) :=
  if first name =? 58 then Some (u32 (strtoul16 (tail name)), nd)
  else if first name =? 46 then
    let! h := skynet_handle_findname (of_bytes (tail name)) (n_handles nd) in Some (h, nd)
  else
    let! nd := skynet_error (Some context) (str "Don't support query global name " ++ name) nd in
    Some (0, nd).

Definition handle_exit (context : ctx) (handle : Z) (nd : node) : option node :=
  let! (handle, nd) :=
    if handle =? 0 then
      let! handle := skynet_context_handle context nd in
      let! nd := skynet_error (Some context) (str "KILL self") nd in
      Some (handle, nd)
    else
      let! nd := skynet_error (Some context) (str "KILL :" ++ hex handle) nd in
      Some (handle, nd) in
  let! nd :=
    if negb (n_monitor_exit nd =? 0) then
      let! (_, nd) := skynet_send (Some context) handle (n_monitor_exit nd) PTYPE_CLIENT 0 0 0 nd in Some nd
    else Some nd in
  let! (_, nd) := handle_retire handle nd in
  Some nd.

(** A command gives its result string, [None] for [NULL]; [param] is [None] for [NULL]. *)
Definition command : Type := ctx -> option (list Z) -> node -> option (option (list Z) * node).

Definition cmd_timeout : command := fun context param nd =>
  let! param := param in
  let ti := i32 (strtol10 param) in
  let! (session, nd) := skynet_context_newsession context nd in
  let! handle := skynet_context_handle context nd in
  let! (_, T, w) := skynet_timeout (W := option node) handle ti session (n_timer nd) (Some nd) in
  let! nd := w in
  sprintf_result context (decimal session) (set_timer T nd).

Definition cmd_reg : command := fun context param nd =>
  if first (default [] param) =? 0 then
    let! handle := skynet_context_handle context nd in
    sprintf_result context (58 :: hex handle) nd
  else if first (default [] param) =? 46 then
    let! handle := skynet_context_handle context nd in
    let! (r, s) := skynet_handle_namehandle handle (of_bytes (tail (default [] param))) (n_handles nd) in
    Some (match r with Some _ => Some (tail (default [] param)) | None => None end, set_handles s nd)
  else
    let! nd := skynet_error (Some context) (str "Can't register global name " ++ default [] param ++ str " in C") nd in
    Some (None, nd).

Definition cmd_query : command := fun context param nd =>
  let! param := param in
  if first param =? 46 then
    let! handle := skynet_handle_findname (of_bytes (tail param)) (n_handles nd) in
    if negb (handle =? 0) then sprintf_result context (58 :: hex handle) nd else Some (None, nd)
  else Some (None, nd).

(** [sscanf(param, "%s %s", name, handle)]: with fewer than two words [handle] is read
    without having been written. *)
Definition cmd_name : command := fun context param nd =>
  let! param := param in
  let '(name, rest) := scan_word (skip_space param) in
  let '(handle, _) := scan_word (skip_space rest) in
  assert! negb (bool_decide (handle = [])) ;;
  if negb (first handle =? 58) then Some (None, nd)
  else
    let handle_id := u32 (strtoul16 (tail handle)) in
    if handle_id =? 0 then Some (None, nd)
    else if first name =? 46 then
      let! (r, s) := skynet_handle_namehandle handle_id (of_bytes (tail name)) (n_handles nd) in
      Some (match r with Some _ => Some (tail name) | None => None end, set_handles s nd)
    else
      let! nd := skynet_error (Some context) (str "Can't set global name " ++ name ++ str " in C") nd in
      Some (None, nd).

Definition cmd_exit : command := fun context param nd =>
  let! nd := handle_exit context 0 nd in
  Some (None, nd).

Definition tohandle (context : ctx) (param : list Z) (nd : node) : option (Z * node) :=
  if first param =? 58 then Some (u32 (strtoul16 (tail param)), nd)
  else if first param =? 46 then
    let! h := skynet_handle_findname (of_bytes (tail param)) (n_handles nd) in Some (h, nd)
  else
    let! nd := skynet_error (Some context) (str "Can't convert " ++ param ++ str " to handle") nd in
    Some (0, nd).

Definition cmd_kill : command := fun context param nd =>
  let! param := param in
  let! (handle, nd) := tohandle context param nd in
  let! nd := if negb (handle =? 0) then handle_exit context handle nd else Some nd in
  Some (None, nd).

Definition cmd_launch : command := fun context param nd =>
  let! param := param in
  let '(md, args) := split_word [32; 9; 13; 10] param in
  let args := match args with Some a => Some (fst (split_word [13; 10] a)) | None => None end in
  let! (inst, nd) := skynet_context_new md args nd in
  match inst with
  | None => Some (None, nd)
  | Some c =>
      let! handle := skynet_context_handle c nd in
      sprintf_result context (id_to_hex handle) nd
  end.

Definition cmd_getenv : command := fun context param nd =>
  let! param := param in
  Some (skynet_getenv param nd, nd).

Definition cmd_setenv : command := fun context param nd =>
  let! param := param in
  let i := index_of 32 param in
  match drop i param with
  | [] => Some (None, nd)
  | _ :: value =>
      let! nd := skynet_setenv (take i param) value nd in
      Some (None, nd)
  end.

Definition cmd_starttime : command := fun context param nd =>
  sprintf_result context (decimal (skynet_starttime (n_timer nd))) nd.

(** One pass retires all services; the fuel allows for services that appear meanwhile. *)
Definition cmd_abort (fuel : nat) : command := fun context param nd =>
  let! nd := skynet_handle_retireall fuel nd in
  Some (None, nd).

Definition cmd_monitor : command := fun context param nd =>
  if first (default [] param) =? 0 then
    if negb (n_monitor_exit nd =? 0) then sprintf_result context (58 :: hex (n_monitor_exit nd)) nd
    else Some (None, nd)
  else
    let! (handle, nd) := tohandle context (default [] param) nd in
    Some (None, set_monitor_exit handle nd).

Definition cmd_stat : command := fun context param nd =>
  let! param := param in
  let! k := n_ctxs nd !! context in
  if bool_decide (param = str "mqlen") then
    let! q := mqs (n_mq nd) !! c_queue k in
    sprintf_result context (decimal (skynet_mq_length q)) nd
  else if bool_decide (param = str "endless") then
    if c_endless k then
      let! nd := upd_ctx context (set_endless false) nd in
      sprintf_result context (str "1") nd
    else sprintf_result context (str "0") nd
  else if bool_decide (param = str "cpu") then sprintf_result context (micros (c_cpu_cost k)) nd
  else if bool_decide (param = str "time") then
    if c_profile k then sprintf_result context (micros (u64 (sv_thread_time nd - c_cpu_start k))) nd
    else sprintf_result context (str "0") nd
  else if bool_decide (param = str "message") then sprintf_result context (decimal (c_message_count k)) nd
  else sprintf_result context [] nd.

(** [skynet_log_open]: the name of the file and what is logged about it. *)
Definition skynet_log_open (context : ctx) (handle : Z) (nd : node) : option (option Z * node) :=
  match skynet_getenv (str "logpath") nd with
  | None => Some (None, nd)
  | Some logpath =>
      let tmp := logpath ++ str "/" ++ hex08 handle ++ str ".log" in
      let f := sv_fopen tmp nd in
      let! nd := skynet_error (Some context)
        (str "Open log file " ++ tmp ++ match f with Some _ => [] | None => str " fail" end) nd in
      Some (f, nd)
  end.

Definition skynet_log_close (context : ctx) (handle : Z) (nd : node) : option node :=
  skynet_error (Some context) (str "Close log file :" ++ hex08 handle) nd.

(** Runs [f] on the context of the handle a command names, holding a reference to it. *)
Definition with_handle (context : ctx) (param : option (list Z)) (f : ctx -> Z -> node -> option node) (nd : node)
  : option (option (list Z) * node) :=
  let! param := param in
  let! (handle, nd) := tohandle context param nd in
  if handle =? 0 then Some (None, nd)
  else
    let! (r, nd) := handle_grab handle nd in
    match r with
    | None => Some (None, nd)
    | Some c =>
        let! nd := f c handle nd in
        let! (_, nd) := skynet_context_release c nd in
        Some (None, nd)
    end.

Definition cmd_logon : command := fun context param nd =>
  with_handle context param (fun c handle nd =>
    let! k := n_ctxs nd !! c in
    match c_logfile k with
    | Some _ => Some nd
    | None =>
        let! (f, nd) := skynet_log_open context handle nd in
        match f with
        | Some f => upd_ctx c (set_logfile (Some f)) nd
        | None => Some nd
        end
    end) nd.

Definition cmd_logoff : command := fun context param nd =>
  with_handle context param (fun c handle nd =>
    let! k := n_ctxs nd !! c in
    match c_logfile k with
    | Some _ =>
        let! nd := upd_ctx c (set_logfile None) nd in
        skynet_log_close context handle nd
    | None => Some nd
    end) nd.

Definition cmd_signal : command := fun context param nd =>
  with_handle context param (fun c handle nd =>
    let! k := n_ctxs nd !! c in
    let arg := drop (index_of 32 (default [] param)) (default [] param) in
    let sig := if bool_decide (arg = []) then 0 else i32 (strtol0 arg) in
    skynet_module_instance_signal (c_mod k) (c_instance k) sig nd) nd.

Definition cmd_funcs (fuel : nat) : list (list Z * command) :=
  [(str "TIMEOUT", cmd_timeout); (str "REG", cmd_reg); (str "QUERY", cmd_query); (str "NAME", cmd_name);
   (str "EXIT", cmd_exit); (str "KILL", cmd_kill); (str "LAUNCH", cmd_launch); (str "GETENV", cmd_getenv);
   (str "SETENV", cmd_setenv); (str "STARTTIME", cmd_starttime); (str "ABORT", cmd_abort fuel);
   (str "MONITOR", cmd_monitor); (str "STAT", cmd_stat); (str "LOGON", cmd_logon); (str "LOGOFF", cmd_logoff);
   (str "SIGNAL", cmd_signal)].

(** The search through [cmd_funcs]. *)
Fixpoint find_command (cmd : list Z) (fs : list (list Z * command)) : option command :=
  match fs with
  | [] => None
  | (name, f) :: fs => if bool_decide (cmd = name) then Some f else find_command cmd fs
  end.

Definition skynet_command (fuel : nat) (context : ctx) (cmd : list Z) (param : option (list Z)) (nd : node)
  : option (option (list Z) * node) :=
  match find_command cmd (cmd_funcs fuel) with
  | Some f => f context param nd
  | None => Some (None, nd)
  end.

(** ** Starting a node *)

Definition skynet_callback (context : ctx) (ud : Z) (cb : option Z) (nd : node) : option node :=
  upd_ctx context (set_cb cb ud) nd.

Definition THREAD_MAIN : Z := 1.

Definition skynet_initthread (m : Z) (nd : node) : node := set_current (u32 (- m)) nd.

Definition skynet_globalinit (nd : node) : node :=
  skynet_initthread THREAD_MAIN (set_monitor_exit 0 (set_total 0 nd)).

Definition skynet_profile_enable (enable : bool) (nd : node) : node := set_profile enable nd.

Definition skynet_current_handle (nd : node) : Z := n_current nd.
End Server.

(** The process after [skynet_globalinit], [skynet_harbor_init], [skynet_handle_init], [skynet_mq_init],
    [skynet_module_init], [skynet_timer_init] and [skynet_env_init]. *)
Definition node_init (harbor : Z) (path : list Z) (T : timer) : node :=
  skynet_globalinit (skynet_harbor_init harbor
    (MkNode 0 0 false 0 None (2 ^ 32 - 1) 0 ∅ (skynet_handle_init harbor) skynet_mq_init T
       (skynet_module_init path) ∅ ∅ 1 [])).
