(* ===== verification/NodeSafe.v ===== *)
(** * Reference counts and queues of a node

    A context lives as long as the handle table, the harbor or a running thread refers to it; its
    queue lives at least as long.  The steps of all threads interleave freely here: taking a reference
    by handle, giving it back, sending through it, creating and retiring services, and the workers' operations
    on queues. *)

From stdpp Require Import gmultiset.
From S2P Require Import Prelude Ring Message MQ Sched Timer Handle HandleSpec CString Module Node Server.

(** ** What the queue operations keep *)

(** The handle and the release mark of a queue. *)
Definition queue_id (w : mq_state) (p : positive) : option (Z * Z) :=
  (fun q => (mq_handle q, mq_release q)) <$> mqs w !! p.

Lemma queue_id_store w p q r : queue_id (store p q w) r =
  if decide (p = r) then Some (mq_handle q, mq_release q) else queue_id w r.
Proof. unfold queue_id, store. simpl. rewrite lookup_insert. by case_decide. Qed.

Lemma queue_id_lookup w p q : mqs w !! p = Some q -> queue_id w p = Some (mq_handle q, mq_release q).
Proof. unfold queue_id. by intros ->. Qed.

Lemma queue_id_inv w p h r : queue_id w p = Some (h, r) ->
  exists q, mqs w !! p = Some q /\ mq_handle q = h /\ mq_release q = r.
Proof. unfold queue_id. destruct (mqs w !! p) as [q|]; simpl; [|done]. intros [= <- <-]. eauto. Qed.

Lemma queue_id_relink w t q n r : mqs w !! t = Some q ->
  queue_id (MkMQState (Q_head w) (Q_tail w) (<[t := set_next n q]> (mqs w))) r = queue_id w r.
Proof.
  intros Hq. unfold queue_id. simpl. rewrite lookup_insert. case_decide as E; [subst r|done]. by rewrite Hq.
Qed.

Lemma globalmq_push_id p w w' r : skynet_globalmq_push p w = Some w' -> queue_id w' r = queue_id w r.
Proof.
  unfold skynet_globalmq_push. intros Hp. run_inv Hp; [|done]. by apply (queue_id_relink w p0 _ (Some p)).
Qed.

Lemma globalmq_pop_id o w w' r : skynet_globalmq_pop w = Some (o, w') -> queue_id w' r = queue_id w r.
Proof.
  unfold skynet_globalmq_pop. intros Hp. run_inv Hp; [by apply (queue_id_relink w p _ None)..|done].
Qed.

Lemma push_fields_id q m q' : mq_push_fields q m = Some q' ->
  mq_handle q' = mq_handle q /\ mq_release q' = mq_release q.
Proof. unfold mq_push_fields, expand_queue. intros Hp. by run_inv Hp. Qed.

Lemma pop_fields_id q r m q' : mq_pop_fields q = Some (r, m, q') ->
  mq_handle q' = mq_handle q /\ mq_release q' = mq_release q.
Proof. unfold mq_pop_fields. intros Hp. by run_inv Hp. Qed.

Lemma mq_push_id p m w w' r : skynet_mq_push p m w = Some w' -> queue_id w' r = queue_id w r.
Proof.
  unfold skynet_mq_push. destruct (mqs w !! p) as [q|] eqn:Hq; [|done].
  destruct (mq_push_fields q m) as [q1|] eqn:E; [|done]. destruct (push_fields_id _ _ _ E) as [Hh Hr].
  pose proof (queue_id_lookup _ _ _ Hq). destruct (mq_in_global q1 =? 0).
  - intros Hw. rewrite (globalmq_push_id _ _ _ r Hw), queue_id_store. case_decide; [subst r|done]. simpl. congruence.
  - intros [= <-]. rewrite queue_id_store. case_decide; [subst r|done]. congruence.
Qed.

Lemma mq_pop_id p w ret m w' r : skynet_mq_pop p w = Some (ret, m, w') -> queue_id w' r = queue_id w r.
Proof.
  unfold skynet_mq_pop. destruct (mqs w !! p) as [q|] eqn:Hq; [|done].
  destruct (mq_pop_fields q) as [[[? ?] q1]|] eqn:E; [|done]. destruct (pop_fields_id _ _ _ _ E) as [Hh Hr].
  intros [= _ _ <-]. pose proof (queue_id_lookup _ _ _ Hq). rewrite queue_id_store.
  case_decide; [subst r|done]. congruence.
Qed.

Lemma mark_release_id p w w' r : skynet_mq_mark_release p w = Some w' ->
  exists h, queue_id w p = Some (h, 0) /\ queue_id w' r = if decide (p = r) then Some (h, 1) else queue_id w r.
Proof.
  unfold skynet_mq_mark_release. destruct (mqs w !! p) as [q|] eqn:Hq; [|done].
  destruct (Z.eqb_spec (mq_release q) 0) as [Hr|]; [|done]. intros Hm. exists (mq_handle q). split.
  - rewrite (queue_id_lookup _ _ _ Hq). congruence.
  - destruct (negb _); [apply (globalmq_push_id _ _ _ r) in Hm; rewrite Hm|injection Hm as <-];
      rewrite queue_id_store; by case_decide.
Qed.

(** ** The workers' steps *)

Inductive worker_step : sched -> sched -> Prop :=
| wk_publish p w w' H :
    p ∈ H -> skynet_globalmq_push p w = Some w' -> worker_step (MkSched w H) (MkSched w' (H ∖ {[p]}))
| wk_take p w w' H :
    skynet_globalmq_pop w = Some (Some p, w') -> worker_step (MkSched w H) (MkSched w' ({[p]} ∪ H))
| wk_pop p m w w' H :
    p ∈ H -> skynet_mq_pop p w = Some (0, m, w') -> worker_step (MkSched w H) (MkSched w' H)
| wk_pop_empty p q w w' H :
    p ∈ H -> mqs w !! p = Some q -> mq_release q = 0 ->
    skynet_mq_pop p w = Some (1, None, w') -> worker_step (MkSched w H) (MkSched w' (H ∖ {[p]}))
| wk_drop_last p q w w1 w' H :
    p ∈ H -> mqs w !! p = Some q -> mq_release q <> 0 ->
    skynet_mq_pop p w = Some (1, None, w1) -> _release p w1 = Some w' ->
    worker_step (MkSched w H) (MkSched w' (H ∖ {[p]})).

Lemma worker_sched s s' : worker_step s s' -> sched_step s s'.
Proof. destruct 1; eauto using step_publish, step_take, step_pop, step_pop_empty, step_drop_last. Qed.

Lemma worker_id s s' r : worker_step s s' ->
  (forall h, queue_id (heap s) r = Some (h, 0) -> queue_id (heap s') r = Some (h, 0)) /\
  (forall x, queue_id (heap s') r = Some x -> queue_id (heap s) r = Some x).
Proof.
  destruct 1 as [p w w' H Hp Hpush|p w w' H Hpop|p m w w' H Hp Hpop|p q w w' H Hp Hq Hr Hpop
    |p q w w1 w' H Hp Hq Hr Hpop Hrel]; simpl.
  - rewrite (globalmq_push_id _ _ _ r Hpush). by split.
  - rewrite (globalmq_pop_id _ _ _ r Hpop). by split.
  - rewrite (mq_pop_id _ _ _ _ _ r Hpop). by split.
  - rewrite (mq_pop_id _ _ _ _ _ r Hpop). by split.
  - rewrite <- (mq_pop_id _ _ _ _ _ r Hpop). unfold _release in Hrel.
    pose proof (mq_pop_id _ _ _ _ _ p Hpop) as Hid. rewrite (queue_id_lookup _ _ _ Hq) in Hid.
    destruct (mqs w1 !! p) as [q1|] eqn:Hq1; [|done]. destruct (bool_decide _); [|done]. injection Hrel as <-.
    unfold queue_id in *. simpl. rewrite lookup_delete. case_decide as E; [subst r|by split].
    rewrite Hq1 in *. simpl in *. split; [|done]. intros h [= _ Hz]. congruence.
Qed.

(** ** The invariant *)

(** What matters of a context: its references, its handle and its queue. *)
Notation core_map := (gmap ctx (Z * Z * positive)).

Definition core (k : skynet_context) : Z * Z * positive := (c_ref k, c_handle k, c_queue k).

Definition cores (nd : node) : core_map := core <$> n_ctxs nd.

Definition core_handle (K : core_map) (c : ctx) : Z :=
  match K !! c with Some (_, h, _) => h | None => 0 end.

(** The references to [c]: from the table, from threads, from the harbor. *)
Definition refs (M : gmap Z ctx) (hd : gmultiset ctx) (rem : option ctx) (c : ctx) (h : Z) : Z :=
  (if decide (M !! h = Some c) then 1 else 0) + Z.of_nat (multiplicity c hd) + (if decide (rem = Some c) then 1 else 0).

(** [hd] are the references the threads hold, [H] the queues they own, [g] the global queue, [M] the
    registered contexts and [N] the names. *)
Record core_inv (hd : gmultiset ctx) (H : gset positive) (g : list positive) (M : gmap Z ctx) (N : gmap string Z)
    (K : core_map) (s : handle_storage) (w : mq_state) (rem : option ctx) : Prop := {
  ci_handles : handle_rep (core_handle K) s M N;
  ci_sched : sched_inv g (MkSched w H);
  ci_refs : forall c r h q, K !! c = Some (r, h, q) -> r = refs M hd rem c h /\ 0 < r;
  ci_table : forall h c, M !! h = Some c -> exists r q, K !! c = Some (r, h, q);
  ci_held : forall c, c ∈ hd -> is_Some (K !! c);
  ci_remote : forall c, rem = Some c -> is_Some (K !! c);
  ci_queue : forall c r h q, K !! c = Some (r, h, q) -> queue_id w q = Some (h, 0);
  ci_inj : forall c c' r r' h q q', K !! c = Some (r, h, q) -> K !! c' = Some (r', h, q') -> c = c';
  ci_uniq : forall p p' h r r', queue_id w p = Some (h, r) -> queue_id w p' = Some (h, r') -> p = p';
}.

#[global] Arguments ci_handles {hd H g M N K s w rem}.
#[global] Arguments ci_sched {hd H g M N K s w rem}.
#[global] Arguments ci_refs {hd H g M N K s w rem}.
#[global] Arguments ci_table {hd H g M N K s w rem}.
#[global] Arguments ci_held {hd H g M N K s w rem}.
#[global] Arguments ci_remote {hd H g M N K s w rem}.
#[global] Arguments ci_queue {hd H g M N K s w rem}.
#[global] Arguments ci_inj {hd H g M N K s w rem}.
#[global] Arguments ci_uniq {hd H g M N K s w rem}.

Definition node_inv hd H g M N (nd : node) : Prop :=
  core_inv hd H g M N (cores nd) (n_handles nd) (n_mq nd) (n_remote nd).

Lemma cores_lookup nd c k : n_ctxs nd !! c = Some k -> cores nd !! c = Some (core k).
Proof. unfold cores. rewrite lookup_fmap. by intros ->. Qed.

Lemma cores_inv nd c x : cores nd !! c = Some x -> exists k, n_ctxs nd !! c = Some k /\ x = core k.
Proof. unfold cores. rewrite lookup_fmap. destruct (n_ctxs nd !! c) as [k|]; simpl; [|done]. intros [= <-]. eauto. Qed.

Lemma context_handle_core nd c : context_handle nd c = core_handle (cores nd) c.
Proof.
  unfold context_handle, core_handle, cores. rewrite lookup_fmap. by destruct (n_ctxs nd !! c).
Qed.

(** The table only depends on the handles of its own contexts. *)
Lemma handle_rep_ext ch ch' s M N : (forall c, registered s c -> ch' c = ch c) ->
  handle_rep ch s M N -> handle_rep ch' s M N.
Proof.
  intros He [Hwf Hctx Hn]. split; [| |done].
  - destruct Hwf as [H1 H2 H3 H4 H5]. split; try done. intros i c Hc. rewrite He by (by exists i). by apply H5.
  - intros h c. rewrite Hctx. split; intros [Hr Hh]; (split; [done|]); [rewrite He by done|rewrite He in Hh by done]; done.
Qed.

Lemma node_handles hd H g M N nd : node_inv hd H g M N nd -> handle_rep (context_handle nd) (n_handles nd) M N.
Proof. intros Hi. apply (handle_rep_ext _ _ _ _ _ (fun c _ => context_handle_core nd c)), Hi. Qed.

(** ** Moving references *)

(** A step that changes the references to [c] only, and leaves at least one. *)
Lemma core_move hd H g M N K s w rem hd' M' N' s' rem' c r h q r' :
  core_inv hd H g M N K s w rem -> K !! c = Some (r, h, q) ->
  handle_rep (core_handle K) s' M' N' -> (forall h c', M' !! h = Some c' -> M !! h = Some c') ->
  (forall c', c' ∈ hd' -> c' = c \/ c' ∈ hd) -> (forall c', rem' = Some c' -> c' = c \/ rem = Some c') ->
  (forall c' h', c' <> c -> refs M' hd' rem' c' h' = refs M hd rem c' h') ->
  r' = refs M' hd' rem' c h -> 0 < r' ->
  core_inv hd' H g M' N' (<[c := (r', h, q)]> K) s' w rem'.
Proof.
  intros Hi Hc Hs' HM Hhd Hrem Hother Hr' Hpos.
  assert (forall c' x, <[c := (r', h, q)]> K !! c' = Some x -> exists r0, K !! c' = Some (r0, x.1.2, x.2)) as Hback.
  { intros c' x. rewrite lookup_insert. case_decide as E; [subst c'; intros [= <-]; eauto|].
    destruct x as [[??]?]. eauto. }
  assert (forall c', is_Some (K !! c') -> is_Some (<[c := (r', h, q)]> K !! c')) as Hlive.
  { intros c'. rewrite lookup_insert. case_decide; eauto. }
  split.
  - apply (handle_rep_ext (core_handle K)); [|done]. intros c' _. unfold core_handle. rewrite lookup_insert.
    case_decide as E; [subst c'; by rewrite Hc|done].
  - apply Hi.
  - intros c' r0 h0 q0. rewrite lookup_insert. case_decide as E; [subst c'; intros [= <- <- <-]; by split|].
    intros Hc'. rewrite Hother by done. by eapply Hi.
  - intros h0 c' Hh%HM. destruct (ci_table Hi _ _ Hh) as (r0 & q0 & Hc').
    rewrite lookup_insert. case_decide as E; [subst c'|eauto]. simplify_eq. eauto.
  - intros c' [->|Hc']%Hhd; apply Hlive; [eauto|]. by apply Hi.
  - intros c' [->|Hc']%Hrem; apply Hlive; [eauto|]. by eapply ci_remote.
  - intros c' r0 h0 q0 [r1 Hc']%Hback. by eapply Hi.
  - intros c1 c2 r1 r2 h0 q1 q2 [? H1]%Hback [? H2]%Hback. by eapply Hi.
  - apply Hi.
Qed.

(** The last reference goes: the context is freed and its queue marked. *)
Lemma core_drop hd H g M N K s w rem hd' M' N' s' rem' w' g' c r h q :
  core_inv hd H g M N K s w rem -> K !! c = Some (r, h, q) ->
  handle_rep (core_handle K) s' M' N' -> (forall h c', M' !! h = Some c' -> M !! h = Some c') ->
  (forall c', c' ∈ hd' -> c' ∈ hd) -> (forall c', rem' = Some c' -> rem = Some c') ->
  (forall c' h', c' <> c -> refs M' hd' rem' c' h' = refs M hd rem c' h') ->
  refs M' hd' rem' c h = 0 ->
  skynet_mq_mark_release q w = Some w' -> sched_inv g' (MkSched w' H) ->
  core_inv hd' H g' M' N' (delete c K) s' w' rem'.
Proof.
  intros Hi Hc Hs' HM Hhd Hrem Hother Hzero Hmark Hg'.
  assert (M' !! h <> Some c /\ multiplicity c hd' = O /\ rem' <> Some c) as (HMc & Hhc & Hremc).
  { clear -Hzero. unfold refs in Hzero. repeat case_decide; split_and!; done || lia. }
  assert (c ∉ hd') as Hnin by (rewrite elem_of_multiplicity; lia).
  assert (forall p, queue_id w' p = if decide (q = p) then Some (h, 1) else queue_id w p) as Hid.
  { intros p. destruct (mark_release_id q w w' p Hmark) as (h0 & Hq & ->). rewrite (ci_queue Hi _ _ _ _ Hc) in Hq.
    by injection Hq as <-. }
  assert (forall c' r0 h0 q0, K !! c' = Some (r0, h0, q0) -> c' <> c -> q0 <> q) as Hne.
  { intros c' r0 h0 q0 Hc' Hcc ->. pose proof (ci_queue Hi _ _ _ _ Hc') as E1.
    rewrite (ci_queue Hi _ _ _ _ Hc) in E1. injection E1 as <-. apply Hcc. by eapply Hi. }
  assert (forall h0 c', M' !! h0 = Some c' -> c' <> c) as HMne.
  { intros h0 c' Hh ->. destruct (ci_table Hi _ _ (HM _ _ Hh)) as (? & ? & ?). by simplify_eq. }
  split.
  - apply (handle_rep_ext (core_handle K)); [|done]. intros c' Hreg. unfold core_handle.
    rewrite lookup_delete_ne; [done|]. intros <-. apply (HMne (core_handle K c) c); [|done].
    apply (hr_ctx _ _ _ _ Hs'). done.
  - done.
  - intros c' r0 h0 q0 [Hcc Hc']%lookup_delete_Some. rewrite Hother by done. by eapply Hi.
  - intros h0 c' Hh. destruct (ci_table Hi _ _ (HM _ _ Hh)) as (r0 & q0 & Hc').
    exists r0, q0. rewrite lookup_delete_ne; [done|]. intros <-. by apply (HMne _ _ Hh).
  - intros c' Hc'. rewrite lookup_delete_ne; [by apply Hi, Hhd|]. by intros <-.
  - intros c' Hc'. rewrite lookup_delete_ne; [by eapply ci_remote, Hrem|]. by intros <-.
  - intros c' r0 h0 q0 [Hcc Hc']%lookup_delete_Some. rewrite Hid. destruct (decide (q = q0)) as [<-|_]; [|by eapply Hi].
    by destruct (Hne _ _ _ _ Hc' (not_eq_sym Hcc)).
  - intros c1 c2 r1 r2 h0 q1 q2 [_ H1]%lookup_delete_Some [_ H2]%lookup_delete_Some. by eapply Hi.
  - assert (forall p h0 r0, queue_id w' p = Some (h0, r0) -> exists r1, queue_id w p = Some (h0, r1)) as Hb.
    { intros p h0 r0. rewrite Hid. destruct (decide (q = p)) as [<-|_]; [intros [= <- <-]|eauto].
      rewrite (ci_queue Hi _ _ _ _ Hc). eauto. }
    intros p p' h0 r0 r1 [? H1]%Hb [? H2]%Hb. by eapply (ci_uniq Hi).
Qed.

(** ** The operations on references *)

Lemma refs_add M hd rem c c' h :
  refs M (hd ⊎ {[+ c +]}) rem c' h = refs M hd rem c' h + (if decide (c' = c) then 1 else 0).
Proof.
  unfold refs. rewrite multiplicity_disj_union, multiplicity_singleton. destruct (decide (c' = c)); lia.
Qed.

Lemma refs_sub M hd rem c c' h : c ∈ hd ->
  refs M (hd ∖ {[+ c +]}) rem c' h = refs M hd rem c' h - (if decide (c' = c) then 1 else 0).
Proof.
  intros Hc. pose proof (refs_add M (hd ∖ {[+ c +]}) rem c c' h) as Ha.
  replace ((hd ∖ {[+ c +]}) ⊎ {[+ c +]}) with hd in Ha by multiset_solver. lia.
Qed.

Lemma mark_release_ok g w H q h : sched_inv g (MkSched w H) -> queue_id w q = Some (h, 0) ->
  exists w' g', skynet_mq_mark_release q w = Some w' /\ sched_inv g' (MkSched w' H).
Proof.
  intros Hi (mq & Hq & _ & Hr)%queue_id_inv.
  assert (exists w', skynet_mq_mark_release q w = Some w') as [w' Hw].
  { unfold skynet_mq_mark_release. rewrite Hq, Hr. simpl.
    destruct (Z.eqb_spec (mq_in_global mq) MQ_IN_GLOBAL); simpl; [eauto|].
    destruct (inv_lookup _ _ _ _ Hi Hq) as [_ [E|E] _ _ Hidle]; [|done]. destruct (Hidle E Hr) as [Hg _].
    destruct (globalmq_push_spec (store q (set_release 1 mq) w) g q (set_release 1 mq)) as (w' & Hw & _);
      [eapply gq_rep_store; [apply (inv_gq _ _ Hi)|done|done]|simpl; by rewrite lookup_insert_eq|done|eauto]. }
  destruct (inv_mark_release _ _ _ _ _ Hi Hw) as (g' & Hg' & _). eauto.
Qed.

Lemma upd_ctx_lookup c f nd k : n_ctxs nd !! c = Some k ->
  upd_ctx c f nd = Some (set_ctxs (<[c := f k]> (n_ctxs nd)) nd).
Proof. unfold upd_ctx. by intros ->. Qed.

Lemma cores_upd c k nd : cores (set_ctxs (<[c := k]> (n_ctxs nd)) nd) = <[c := core k]> (cores nd).
Proof. unfold cores. simpl. apply fmap_insert. Qed.

(** A context that is referred to has a queue that is not marked. *)
Lemma node_live hd H g M N nd c : node_inv hd H g M N nd -> is_Some (cores nd !! c) ->
  exists k, n_ctxs nd !! c = Some k /\ queue_id (n_mq nd) (c_queue k) = Some (c_handle k, 0) /\
    c_ref k = refs M hd (n_remote nd) c (c_handle k) /\ 0 < c_ref k.
Proof.
  intros Hi [x Hx]. destruct (cores_inv _ _ _ Hx) as (k & Hk & ->). exists k. split; [done|].
  split; [by eapply (ci_queue Hi)|]. by eapply (ci_refs Hi).
Qed.

(** Taking a reference by handle. *)
Lemma handle_grab_ok hd H g M N nd h : node_inv hd H g M N nd ->
  match M !! h with
  | None => handle_grab h nd = Some (None, nd)
  | Some c => exists k, n_ctxs nd !! c = Some k /\ c_handle k = h /\
      handle_grab h nd = Some (Some c, set_ctxs (<[c := set_ref (c_ref k + 1) k]> (n_ctxs nd)) nd) /\
      node_inv (hd ⊎ {[+ c +]}) H g M N (set_ctxs (<[c := set_ref (c_ref k + 1) k]> (n_ctxs nd)) nd)
  end.
Proof.
  intros Hi. destruct (retire_rep _ _ _ _ h (node_handles _ _ _ _ _ _ Hi)) as [Hgrab _].
  unfold handle_grab. rewrite Hgrab. destruct (M !! h) as [c|] eqn:HM; [|done].
  destruct (ci_table Hi _ _ HM) as (r & q & Hc). destruct (cores_inv _ _ _ Hc) as (k & Hk & Ek).
  injection Ek as -> -> ->. exists k. split; [done|]. split; [done|]. unfold skynet_context_grab.
  rewrite (upd_ctx_lookup _ _ _ _ Hk). split; [done|]. unfold node_inv. rewrite cores_upd. cbn [n_handles n_mq n_remote set_ctxs].
  destruct (ci_refs Hi _ _ _ _ Hc) as [Hr Hpos].
  eapply core_move; [exact Hi|exact Hc|apply Hi|done| | | |simpl|simpl].
  - intros c'. multiset_solver.
  - eauto.
  - intros c' h' Hne. rewrite refs_add. destruct (decide (c' = c)); [done|lia].
  - rewrite refs_add. destruct (decide (c = c)); [lia|done].
  - lia.
Qed.

(** What the code of services must do for the reference counts: the function that releases an instance
    returns, and leaves contexts, handles and queues alone. *)
Class ServicesOk `{Services} := release_frame : forall f inst nd, exists nd', sv_release f inst nd = Some nd' /\
  n_ctxs nd' = n_ctxs nd /\ n_handles nd' = n_handles nd /\ n_mq nd' = n_mq nd /\ n_remote nd' = n_remote nd.

Section Ops.
Context `{ServicesOk}.

Lemma instance_release_ok m inst nd : exists nd', skynet_module_instance_release m inst nd = Some nd' /\
  n_ctxs nd' = n_ctxs nd /\ n_handles nd' = n_handles nd /\ n_mq nd' = n_mq nd /\ n_remote nd' = n_remote nd.
Proof. unfold skynet_module_instance_release. destruct (m_release m); [apply release_frame|]. by exists nd. Qed.

(** Giving up one of the references a thread holds. *)
Lemma context_release_ok hd own g M N nd c : node_inv hd own g M N nd -> c ∈ hd ->
  exists r nd' g', skynet_context_release c nd = Some (r, nd') /\ node_inv (hd ∖ {[+ c +]}) own g' M N nd'.
Proof.
  intros Hi Hc. destruct (node_live _ _ _ _ _ _ c Hi (ci_held Hi _ Hc)) as (k & Hk & Hq & Hr & Hpos).
  pose proof (cores_lookup _ _ _ Hk) as HK. unfold skynet_context_release. rewrite (upd_ctx_lookup _ _ _ _ Hk).
  cbn [n_ctxs set_ctxs]. rewrite lookup_insert_eq. cbn [c_ref set_ref].
  pose proof (refs_sub M hd (n_remote nd) c c (c_handle k) Hc) as Hsub. rewrite decide_True, <- Hr in Hsub by done.
  assert (forall c' h', c' <> c -> refs M (hd ∖ {[+ c +]}) (n_remote nd) c' h' = refs M hd (n_remote nd) c' h') as Hoth.
  { intros c' h' Hne. rewrite refs_sub, decide_False by done. lia. }
  destruct (Z.eqb_spec (c_ref k - 1) 0) as [Hz|Hnz].
  - unfold delete_context. cbn [n_ctxs set_ctxs]. rewrite lookup_insert_eq. cbn [c_mod c_instance c_queue set_ref].
    destruct (instance_release_ok (c_mod k) (c_instance k) (set_ctxs (<[c := set_ref (c_ref k - 1) k]> (n_ctxs nd)) nd))
      as (nd1 & -> & E1 & E2 & E3 & E4). cbn [n_ctxs n_handles n_mq n_remote set_ctxs] in *. rewrite E3.
    destruct (mark_release_ok _ _ _ _ _ (ci_sched Hi) Hq) as (w' & g' & Hw & Hg'). rewrite Hw.
    eexists None, _, g'. split; [done|]. unfold node_inv, cores.
    cbn [n_ctxs n_handles n_mq n_remote context_dec set_total set_ctxs set_mq]. rewrite E1, E2, E4, delete_insert_eq, fmap_delete.
    eapply core_drop; [exact Hi|exact HK|apply Hi|done| |done|exact Hoth|congruence|exact Hw|exact Hg'].
    multiset_solver.
  - eexists (Some c), _, g. split; [done|]. unfold node_inv. rewrite cores_upd.
    cbn [n_handles n_mq n_remote set_ctxs].
    eapply core_move; [exact Hi|exact HK|apply Hi|done| |eauto|exact Hoth|cbn; congruence|cbn; lia].
    multiset_solver.
Qed.

(** Sending through a reference. *)
Lemma mq_push_ok g w own q h m : sched_inv g (MkSched w own) -> queue_id w q = Some (h, 0) ->
  exists w' g', skynet_mq_push q m w = Some w' /\ sched_inv g' (MkSched w' own).
Proof.
  intros Hi (mq & Hq & _ & Hr)%queue_id_inv.
  assert (exists w', skynet_mq_push q m w = Some w') as [w' Hw].
  { destruct (inv_lookup _ _ _ _ Hi Hq) as [[l Hl] _ _ _ Hidle].
    destruct (mq_push_fields_spec mq l m Hl) as (q1 & Hq1 & _ & _ & _ & Hf1 & Hn1 & _).
    unfold skynet_mq_push. rewrite Hq, Hq1, Hf1. destruct (Z.eqb_spec (mq_in_global mq) 0) as [E|E]; [|eauto].
    destruct (Hidle E Hr) as [Hg _].
    destruct (globalmq_push_spec (store q (set_in_global MQ_IN_GLOBAL q1) w) g q (set_in_global MQ_IN_GLOBAL q1))
      as (w' & Hw & _); [eapply gq_rep_store; [apply (inv_gq _ _ Hi)|done|done]|simpl; by rewrite lookup_insert_eq|done|eauto]. }
  exists w'. eexists. split; [done|]. eapply inv_push; eauto.
Qed.

(** A queue operation that keeps every handle and mark. *)
Lemma node_set_mq hd own own' g g' M N nd w' : node_inv hd own g M N nd ->
  sched_inv g' (MkSched w' own') -> (forall p, queue_id w' p = queue_id (n_mq nd) p) ->
  node_inv hd own' g' M N (set_mq w' nd).
Proof.
  intros [? ? ? ? ? ? Hq ? Hu] Hg Hid. split; try done.
  - intros c r h q Hc. cbn [n_mq set_mq]. rewrite Hid. by eapply Hq.
  - intros p p' h r r'. cbn [n_mq set_mq]. rewrite !Hid. apply Hu.
Qed.
End Ops.

(** ** Creating and retiring *)

Lemma mq_create_id p h w w' r : skynet_mq_create p h w = Some w' ->
  queue_id w p = None /\ queue_id w' r = if decide (p = r) then Some (h, 0) else queue_id w r.
Proof.
  unfold skynet_mq_create. intros Hc. run_inv Hc. apply bool_decide_eq_true in Heqb. split.
  - unfold queue_id. by rewrite Heqb.
  - rewrite queue_id_store. by case_decide.
Qed.

(** A fresh context with a fresh queue and an unused handle. *)
Lemma core_create hd own g M N K s w rem c p h s' w' :
  core_inv hd own g M N K s w rem -> K !! c = None -> M !! h = None ->
  handle_rep (core_handle (<[c := (2, h, p)]> K)) s' (<[h := c]> M) N ->
  skynet_mq_create p h w = Some w' -> (forall q x, queue_id w q = Some x -> x.1 <> h) ->
  core_inv (hd ⊎ {[+ c +]}) ({[p]} ∪ own) g (<[h := c]> M) N (<[c := (2, h, p)]> K) s' w' rem.
Proof.
  intros Hi Hc Hh Hs' Hw Hfresh.
  assert (forall q, queue_id w' q = if decide (p = q) then Some (h, 0) else queue_id w q) as Hid
    by (intros q; by apply mq_create_id).
  assert (queue_id w p = None) as Hp by (by apply (mq_create_id p h w w' p)).
  assert (c ∉ hd) as Hhd by (intros Hx; apply (ci_held Hi) in Hx as [x Hx]; congruence).
  assert (rem <> Some c) as Hrem by (intros ->; destruct (ci_remote Hi c eq_refl); congruence).
  assert (forall c' r0 h0 q0, K !! c' = Some (r0, h0, q0) -> h0 <> h /\ p <> q0) as Hold.
  { intros c' r0 h0 q0 Hc'%(ci_queue Hi). split; [by apply (Hfresh _ _ Hc')|]. intros ->. congruence. }
  assert (forall c', is_Some (K !! c') -> is_Some (<[c := (2, h, p)]> K !! c')) as Hlive.
  { intros c'. rewrite lookup_insert. case_decide; eauto. }
  split.
  - done.
  - by eapply inv_create; [apply Hi|].
  - intros c' r0 h0 q0. rewrite lookup_insert, refs_add. destruct (decide (c = c')) as [<-|Hne].
    + intros [= <- <- <-]. split; [|lia]. unfold refs. rewrite (decide_True (P := c = c)) by done.
      rewrite decide_True by (by rewrite lookup_insert_eq). rewrite (decide_False (P := rem = Some c)) by done.
      rewrite elem_of_multiplicity in Hhd. lia.
    + intros Hc'. rewrite (decide_False (P := c' = c)) by congruence. destruct (Hold _ _ _ _ Hc') as [Hh0 _].
      destruct (ci_refs Hi _ _ _ _ Hc') as [-> Hpos]. split; [|done]. unfold refs. rewrite lookup_insert_ne by done. lia.
  - intros h0 c'. rewrite lookup_insert. destruct (decide (h = h0)) as [<-|Hne].
    + intros [= <-]. rewrite lookup_insert_eq. eauto.
    + intros (r0 & q0 & Hc')%(ci_table Hi). exists r0, q0. rewrite lookup_insert_ne by (intros ->; congruence). done.
  - intros c' [Hc'|Hc']%gmultiset_elem_of_disj_union; [by apply Hlive, (ci_held Hi)|].
    apply gmultiset_elem_of_singleton in Hc' as ->. rewrite lookup_insert_eq. eauto.
  - intros c' Hc'. by apply Hlive, (ci_remote Hi).
  - intros c' r0 h0 q0. rewrite lookup_insert, Hid. destruct (decide (c = c')) as [<-|Hne].
    + intros [= <- <- <-]. by rewrite decide_True.
    + intros Hc'. rewrite decide_False by (by apply (Hold _ _ _ _ Hc')). by eapply (ci_queue Hi).
  - intros c1 c2 r1 r2 h0 q1 q2. rewrite !lookup_insert. destruct (decide (c = c1)) as [<-|], (decide (c = c2)) as [<-|].
    + done.
    + intros [= <- <- <-] H2. by destruct (Hold _ _ _ _ H2).
    + intros H1 [= <- <- <-]. by destruct (Hold _ _ _ _ H1).
    + apply (ci_inj Hi).
  - intros p1 p2 h0 r1 r2. rewrite !Hid. destruct (decide (p = p1)) as [<-|], (decide (p = p2)) as [<-|].
    + done.
    + intros [= <- <-] H2. by destruct (Hfresh _ _ H2).
    + intros H1 [= <- <-]. by destruct (Hfresh _ _ H1).
    + apply (ci_uniq Hi).
Qed.

Lemma context_create_ok hd own g M N nd m inst c p nd' : node_inv hd own g M N nd ->
  context_create m inst nd = Some (c, p, nd') ->
  (forall q x, queue_id (n_mq nd) q = Some x -> x.1 <> context_handle nd' c) ->
  node_inv (hd ⊎ {[+ c +]}) ({[p]} ∪ own) g (<[context_handle nd' c := c]> M) N nd'.
Proof.
  intros Hi Hrun Hfresh. unfold context_create in Hrun.
  set (k := MkCtx _ _ _ _ _ _ _ _ _ _ _ _ _ _ _ _) in Hrun.
  set (c0 := fresh (dom (n_ctxs nd))) in *. set (nd1 := set_ctxs (<[c0 := k]> (n_ctxs nd)) nd) in *.
  assert (n_ctxs nd !! c0 = None) as Hc0 by (apply not_elem_of_dom, is_fresh).
  assert (cores nd !! c0 = None) as HK by (unfold cores; by rewrite lookup_fmap, Hc0).
  assert (forall h, M !! h <> Some c0) as Hnew.
  { intros h (r & q & Hx)%(ci_table Hi). congruence. }
  assert (handle_rep (context_handle nd1) (n_handles nd) M N) as HR.
  { apply (handle_rep_ext (context_handle nd)); [|by eapply node_handles]. intros c' Hreg.
    unfold context_handle, nd1. cbn [n_ctxs set_ctxs]. rewrite lookup_insert_ne; [done|]. intros <-.
    pose proof (node_handles _ _ _ _ _ _ Hi) as HR. apply (Hnew (context_handle nd c0)). by apply (hr_ctx _ _ _ _ HR). }
  destruct (skynet_handle_register _ _ _) as [[h s]|] eqn:Ereg; [|done].
  destruct (register_success _ _ _ _ _ _ _ HR Hnew Ereg) as [HM HR'].
  unfold upd_ctx, nd1 in Hrun. cbn [n_ctxs set_handles set_ctxs] in Hrun. rewrite lookup_insert_eq in Hrun.
  destruct (skynet_mq_create _ _ _) as [w'|] eqn:Ew; [|done]. injection Hrun as <- <- <-.
  unfold context_handle in Hfresh |- *. unfold nd1 in *.
  cbn [n_ctxs n_mq set_ctxs set_handles set_mq context_inc set_total] in *. rewrite insert_insert_eq in Hfresh |- *.
  rewrite lookup_insert_eq in Hfresh |- *. cbn [c_handle set_handle] in *.
  unfold node_inv, cores. cbn [n_ctxs n_handles n_mq n_remote set_ctxs set_handles set_mq context_inc set_total].
  rewrite fmap_insert. eapply core_create; [exact Hi|exact HK|exact HM| |exact Ew|exact Hfresh].
  refine (handle_rep_ext _ _ _ _ _ _ HR'). intros c' _. unfold core_handle, assign, cores.
  rewrite lookup_insert, lookup_fmap. unfold context_handle. cbn [n_ctxs set_ctxs].
  destruct (decide (c0 = c')) as [<-|Hne]; [by rewrite decide_True|]. rewrite decide_False by congruence.
  rewrite lookup_insert_ne by done. by destruct (n_ctxs nd !! c').
Qed.

(** Retiring a handle hands the reference of the table to the caller. *)
Lemma retire_ok hd own g M N nd h : node_inv hd own g M N nd ->
  match M !! h with
  | None => skynet_handle_retire (context_handle nd) h (n_handles nd) = Some (0, None, n_handles nd)
  | Some c => exists s, skynet_handle_retire (context_handle nd) h (n_handles nd) = Some (1, Some c, s) /\
      node_inv (hd ⊎ {[+ c +]}) own g (delete h M) (filter (fun kv => kv.2 <> h) N) (set_handles s nd)
  end.
Proof.
  intros Hi. destruct (retire_rep _ _ _ _ h (node_handles _ _ _ _ _ _ Hi)) as [_ Hret].
  destruct (M !! h) as [c|] eqn:HM; [|done]. destruct Hret as (s & -> & HR & _). exists s. split; [done|].
  destruct (ci_table Hi _ _ HM) as (r & q & Hc). destruct (ci_refs Hi _ _ _ _ Hc) as [Hr Hpos].
  assert (forall c' h', refs (delete h M) (hd ⊎ {[+ c +]}) (n_remote nd) c' h' =
    (if decide (c' = c) then 1 else 0) + (if decide (delete h M !! h' = Some c') then 1 else 0) +
    Z.of_nat (multiplicity c' hd) + (if decide (n_remote nd = Some c') then 1 else 0)) as Hrefs.
  { intros c' h'. rewrite refs_add. unfold refs. lia. }
  unfold node_inv. cbn [n_handles n_mq n_remote set_handles]. change (cores (set_handles s nd)) with (cores nd).
  rewrite <- (insert_id (cores nd) c (r, h, q)) by done.
  assert (forall h' c', delete h M !! h' = Some c' <-> M !! h' = Some c' /\ c' <> c) as Hdel.
  { intros h' c'. rewrite lookup_delete_Some. split.
    - intros [Hne Hc']. split; [done|]. intros ->. apply Hne.
      destruct (ci_table Hi _ _ Hc') as (? & ? & ?). by simplify_eq.
    - intros [Hc' Hne]. split; [|done]. intros <-. congruence. }
  eapply core_move; [exact Hi|exact Hc| | | | | | |exact Hpos].
  - apply (handle_rep_ext (context_handle nd)); [|exact HR]. intros c' _. by rewrite context_handle_core.
  - intros h' c' [Hc' _]%Hdel. done.
  - multiset_solver.
  - eauto.
  - intros c' h' Hne. rewrite Hrefs. rewrite decide_False by done. unfold refs.
    rewrite (decide_ext (delete h M !! h' = Some c') (M !! h' = Some c')) by (rewrite Hdel; naive_solver). lia.
  - rewrite Hrefs, (decide_True (P := c = c)) by done. rewrite decide_False by (rewrite Hdel; naive_solver).
    rewrite Hr. unfold refs. rewrite (decide_True (P := M !! h = Some c)) by done. lia.
Qed.

(** The harbor keeps a reference of its own; a thread gets it back when the harbor stops. *)
Lemma remote_set_ok hd own g M N nd c k : node_inv hd own g M N nd -> n_ctxs nd !! c = Some k -> n_remote nd = None ->
  node_inv hd own g M N (set_remote (Some c) (set_ctxs (<[c := set_ref (c_ref k + 1) k]> (n_ctxs nd)) nd)).
Proof.
  intros Hi Hk Hrem. pose proof (cores_lookup _ _ _ Hk) as HK. destruct (ci_refs Hi _ _ _ _ HK) as [Hr Hpos].
  unfold node_inv. cbn [n_handles n_mq n_remote set_ctxs set_remote].
  change (cores (set_remote ?a ?b)) with (cores b). rewrite cores_upd.
  eapply core_move; [exact Hi|exact HK|apply Hi|done|eauto| | | |cbn; lia].
  - intros c' [= <-]. by left.
  - intros c' h' Hne. unfold refs. rewrite Hrem.
    rewrite (decide_False (P := Some c = Some c')), (decide_False (P := None = Some c')) by congruence. done.
  - cbn [c_ref c_handle set_ref]. rewrite Hr. unfold refs. rewrite Hrem. rewrite (decide_True (P := Some c = Some c)) by done.
    rewrite (decide_False (P := None = Some c)) by done. lia.
Qed.

Lemma remote_clear_ok hd own g M N nd c : node_inv hd own g M N nd -> n_remote nd = Some c ->
  node_inv (hd ⊎ {[+ c +]}) own g M N (set_remote None nd).
Proof.
  intros Hi Hrem. destruct (ci_remote Hi c Hrem) as [[[r h] q] HK]. destruct (ci_refs Hi _ _ _ _ HK) as [Hr Hpos].
  unfold node_inv. cbn [n_handles n_mq n_remote set_remote]. change (cores (set_remote None nd)) with (cores nd).
  rewrite <- (insert_id (cores nd) c (r, h, q)) by done.
  eapply core_move; [exact Hi|exact HK|apply Hi|done|multiset_solver|done| | |done].
  - intros c' h' Hne. rewrite refs_add, decide_False by done. unfold refs. rewrite Hrem.
    rewrite (decide_False (P := Some c = Some c')), (decide_False (P := None = Some c')) by congruence. lia.
  - rewrite Hr, refs_add, decide_True by done. unfold refs. rewrite Hrem.
    rewrite (decide_True (P := Some c = Some c)) by done. rewrite (decide_False (P := None = Some c)) by done. lia.
Qed.

(** Everything else of the state is free to change, the names included. *)
Lemma node_frame hd own g M N nd nd' : node_inv hd own g M N nd -> cores nd' = cores nd ->
  n_handles nd' = n_handles nd -> n_mq nd' = n_mq nd -> n_remote nd' = n_remote nd -> node_inv hd own g M N nd'.
Proof. unfold node_inv. by intros Hi -> -> -> ->. Qed.

Lemma node_names hd own g M N N' nd s : node_inv hd own g M N nd ->
  handle_rep (context_handle nd) s M N' -> node_inv hd own g M N' (set_handles s nd).
Proof.
  intros [? ? ? ? ? ? ? ? ?] Hs. split; try done. cbn [n_handles set_handles].
  refine (handle_rep_ext _ _ _ _ _ _ Hs). intros c _. by rewrite context_handle_core.
Qed.

Lemma namehandle_success ch s M N h key r s' : handle_rep ch s M N ->
  skynet_handle_namehandle h key s = Some (r, s') -> exists N', handle_rep ch s' M N'.
Proof.
  intros HR Hrun.
  destruct (decide (name_count s < name_cap s \/ name_cap s <= 2 ^ 29)) as [Hroom|Hfull].
  - destruct (name_table_rep _ _ _ _ key h HR Hroom) as [_ Hn]. destruct (N !! key); [by simplify_eq; eauto|].
    destruct Hn as (s1 & Hs1 & HR1 & _). simplify_eq. eauto.
  - unfold skynet_handle_namehandle, _insert_name in Hrun. destruct (name_search _ _ _ _ _) as [[n|b]|]; [|exfalso|done].
    + simplify_eq. eauto.
    + revert Hrun. unfold _insert_name_before, make_room. destruct (Z.leb_spec (name_cap s) (name_count s)); [|lia].
      destruct (Z.leb_spec (name_cap s * 2) MAX_SLOT_SIZE) as [Hle|]; [|done]. unfold MAX_SLOT_SIZE in Hle. lia.
Qed.

(** ** All threads together *)

(** A node with the references its threads hold and the queues they own. *)
Record world := MkWorld {
  w_node : node;
  w_refs : gmultiset ctx;
  w_own : gset positive;
}.

Section Interleaving.
Context `{ServicesOk}.

(** The steps of all threads.  A new handle must not be that of a queue still to be dropped: the handles
    of a process come round after [2 ^ 24] registrations. *)
Inductive node_step : world -> world -> Prop :=
| ns_grab h c nd nd' hd own :          (* skynet_handle_grab *)
    handle_grab h nd = Some (Some c, nd') ->
    node_step (MkWorld nd hd own) (MkWorld nd' (hd ⊎ {[+ c +]}) own)
| ns_release c r nd nd' hd own :       (* skynet_context_release *)
    c ∈ hd -> skynet_context_release c nd = Some (r, nd') ->
    node_step (MkWorld nd hd own) (MkWorld nd' (hd ∖ {[+ c +]}) own)
| ns_push c k m w' nd hd own :         (* skynet_mq_push(ctx->queue, ...) *)
    c ∈ hd \/ n_remote nd = Some c -> n_ctxs nd !! c = Some k -> skynet_mq_push (c_queue k) m (n_mq nd) = Some w' ->
    node_step (MkWorld nd hd own) (MkWorld (set_mq w' nd) hd own)
| ns_create m inst c p nd nd' hd own : (* skynet_context_new up to the init function *)
    context_create m inst nd = Some (c, p, nd') ->
    (forall q x, queue_id (n_mq nd) q = Some x -> x.1 <> context_handle nd' c) ->
    node_step (MkWorld nd hd own) (MkWorld nd' (hd ⊎ {[+ c +]}) ({[p]} ∪ own))
| ns_retire h c s nd hd own :          (* skynet_handle_retire under the lock *)
    skynet_handle_retire (context_handle nd) h (n_handles nd) = Some (1, Some c, s) ->
    node_step (MkWorld nd hd own) (MkWorld (set_handles s nd) (hd ⊎ {[+ c +]}) own)
| ns_name h key r s nd hd own :        (* skynet_handle_namehandle *)
    skynet_handle_namehandle h key (n_handles nd) = Some (r, s) ->
    node_step (MkWorld nd hd own) (MkWorld (set_handles s nd) hd own)
| ns_harbor_start c nd nd' hd own :    (* skynet_harbor_start *)
    c ∈ hd -> n_remote nd = None -> skynet_harbor_start c nd = Some nd' ->
    node_step (MkWorld nd hd own) (MkWorld nd' hd own)
| ns_harbor_exit c nd hd own :         (* skynet_harbor_exit, before the release *)
    n_remote nd = Some c ->
    node_step (MkWorld nd hd own) (MkWorld (set_remote None nd) (hd ⊎ {[+ c +]}) own)
| ns_worker w' own' nd hd own :        (* a worker on a queue *)
    worker_step (MkSched (n_mq nd) own) (MkSched w' own') ->
    node_step (MkWorld nd hd own) (MkWorld (set_mq w' nd) hd own')
| ns_local c f nd nd' hd own :         (* the other fields of a context *)
    c ∈ hd -> (forall k, core (f k) = core k) -> upd_ctx c f nd = Some nd' ->
    node_step (MkWorld nd hd own) (MkWorld nd' hd own)
| ns_other nd nd' hd own :             (* memory, timer, modules, environment *)
    n_ctxs nd' = n_ctxs nd -> n_handles nd' = n_handles nd -> n_mq nd' = n_mq nd -> n_remote nd' = n_remote nd ->
    node_step (MkWorld nd hd own) (MkWorld nd' hd own).

Definition world_inv (wd : world) : Prop := exists g M N, node_inv (w_refs wd) (w_own wd) g M N (w_node wd).

Lemma worker_node_inv hd own own' g M N nd w' : node_inv hd own g M N nd ->
  worker_step (MkSched (n_mq nd) own) (MkSched w' own') -> exists g', node_inv hd own' g' M N (set_mq w' nd).
Proof.
  intros Hi Hs. destruct (sched_step_inv _ _ _ (worker_sched _ _ Hs) (ci_sched Hi)) as [g' Hg']. exists g'.
  destruct Hi as [? ? ? ? ? ? Hq ? Hu]. split; try done; cbn [n_mq set_mq].
  - intros c r h q Hc. apply (worker_id _ _ q Hs). by eapply Hq.
  - intros p p' h r r' H1 H2. apply (worker_id _ _ _ Hs) in H1, H2. by eapply Hu.
Qed.

Lemma node_step_inv wd wd' : node_step wd wd' -> world_inv wd -> world_inv wd'.
Proof.
  intros Hs (g & M & N & Hi). destruct Hs as [h c nd nd' hd own Hg|c r nd nd' hd own Hc Hr|c k m w' nd hd own Hc Hk Hp
    |m inst c p nd nd' hd own Hc Hf|h c s nd hd own Hr|h key r s nd hd own Hn|c nd nd' hd own Hc Hrem Hst|c nd hd own Hrem
    |w' own' nd hd own Hw|c f nd nd' hd own Hc Hf Hu|nd nd' hd own E1 E2 E3 E4]; unfold world_inv; cbn [w_node w_refs w_own] in *.
  - pose proof (handle_grab_ok _ _ _ _ _ _ h Hi) as Hok. destruct (M !! h) as [c'|]; [|congruence].
    destruct Hok as (k & _ & _ & E & Hi'). simplify_eq. eauto.
  - destruct (context_release_ok _ _ _ _ _ _ c Hi Hc) as (r' & nd1 & g' & E & Hi'). simplify_eq. eauto.
  - assert (is_Some (cores nd !! c)) as Hl by (destruct Hc; [by apply (ci_held Hi)|by apply (ci_remote Hi)]).
    destruct (node_live _ _ _ _ _ _ c Hi Hl) as (k' & Hk' & Hq & _). simplify_eq.
    destruct (mq_push_ok _ _ _ _ _ m (ci_sched Hi) Hq) as (w1 & g' & E & Hg'). simplify_eq.
    exists g', M, N. apply (node_set_mq _ _ _ _ _ _ _ _ _ Hi Hg'). intros p. by eapply mq_push_id.
  - exists g. eexists _, N. by eapply context_create_ok.
  - pose proof (retire_ok _ _ _ _ _ _ h Hi) as Hok. destruct (M !! h) as [c'|]; [|congruence].
    destruct Hok as (s' & E & Hi'). simplify_eq. eauto.
  - destruct (namehandle_success _ _ _ _ _ _ _ _ (node_handles _ _ _ _ _ _ Hi) Hn) as [N' HN'].
    exists g, M, N'. by eapply node_names.
  - unfold skynet_harbor_start, skynet_context_reserve, skynet_context_grab, upd_ctx in Hst.
    destruct (n_ctxs nd !! c) as [k|] eqn:Hk; [|done]. injection Hst as <-. exists g, M, N.
    apply (node_frame _ _ _ _ _ _ _ (remote_set_ok _ _ _ _ _ _ _ _ Hi Hk Hrem)); done.
  - eauto using remote_clear_ok.
  - destruct (worker_node_inv _ _ _ _ _ _ _ _ Hi Hw) as [g' Hi']. eauto.
  - unfold upd_ctx in Hu. destruct (n_ctxs nd !! c) as [k|] eqn:Hk; [|done]. injection Hu as <-. exists g, M, N.
    apply (node_frame _ _ _ _ _ _ _ Hi); try done. rewrite cores_upd, Hf. by apply insert_id, cores_lookup.
  - exists g, M, N. apply (node_frame _ _ _ _ _ _ _ Hi); try done. unfold cores. congruence.
Qed.

Definition node_reachable (nd0 : node) (wd : world) : Prop := rtc node_step (MkWorld nd0 ∅ ∅) wd.

Lemma node_init_inv harbor path T : world_inv (MkWorld (node_init harbor path T) ∅ ∅).
Proof.
  exists [], ∅, ∅. unfold node_inv, cores. cbn. split; try done.
  - apply handle_rep_init.
  - apply inv_init.
  - intros c Hc. by apply gmultiset_not_elem_of_empty in Hc.
Qed.

Lemma node_reachable_inv harbor path T wd : node_reachable (node_init harbor path T) wd -> world_inv wd.
Proof.
  apply (rtc_ind_r world_inv (MkWorld (node_init harbor path T) ∅ ∅)); [apply node_init_inv|].
  intros wd1 wd2 _ Hs Hi. by eapply node_step_inv.
Qed.

(** ** The claims *)


End Interleaving.

(** ** A small system *)

(** Services whose init function sets a callback and whose callback does nothing. *)
#[export] Instance idle_services : Services := {|
  sv_dlopen f := Some 7;
  sv_dlsym dl s := Some 9;
  sv_create f nd := Some (5, nd);
  sv_init f inst c parm nd := let! nd := skynet_callback c 0 (Some 1) nd in Some (0, nd);
  sv_release f inst nd := Some nd;
  sv_signal f inst sig nd := Some nd;
  sv_cb cb c ud type session source data sz nd := Some (0, nd);
  sv_thread_time nd := 0;
  sv_fopen f nd := None;
|}.

#[export] Instance idle_services_ok : ServicesOk.
Proof. intros f inst nd. by exists nd. Qed.

Definition ex_node : node := node_init 1 (str "./?.so") timer_create_timer.
Definition ex_module : skynet_module := MkMod (str "logger") 7 (Some 9) (Some 9) (Some 9) (Some 9).

Definition ex_world : world :=
  match context_create ex_module 5 ex_node with
  | Some (c, p, nd) => MkWorld nd (∅ ⊎ {[+ c +]}) ({[p]} ∪ ∅)
  | None => MkWorld ex_node ∅ ∅
  end.

Lemma ex_reachable : node_reachable ex_node ex_world.
Proof.
  apply rtc_once. unfold ex_world. destruct (context_create ex_module 5 ex_node) as [[[c p] nd]|] eqn:E.
  - apply (ns_create _ _ _ _ _ _ _ _ E). intros q x Hq. done.
  - vm_compute in E. done.
Qed.


