(* ===== verification/ServerSpec.v ===== *)
(** * What the server does with messages

    Sending by handle, the handles as text, and the batches a worker takes from a queue. *)

From stdpp Require Import gmultiset.
From S2P Require Import Prelude Ring Message MQ Sched Timer Handle HandleSpec CString Module Node Server NodeSafe.

(** The messages waiting at a queue. *)
Definition waiting (w : mq_state) (p : positive) : list skynet_message :=
  match mqs w !! p with Some q => mq_contents q | None => [] end.

Lemma waiting_payload w p q : payload w p = Some q -> waiting w p = mq_contents q.
Proof. intros (q' & Hq & ->)%payload_inv. unfold waiting. by rewrite Hq. Qed.

Lemma set_ctxs_id nd : set_ctxs (n_ctxs nd) nd = nd.
Proof. by destruct nd. Qed.

Section Send.
Context `{ServicesOk}.

Lemma mq_push_waiting g w own p h m : sched_inv g (MkSched w own) -> queue_id w p = Some (h, 0) ->
  exists w' g', skynet_mq_push p m w = Some w' /\ sched_inv g' (MkSched w' own) /\
    (forall r, queue_id w' r = queue_id w r) /\ waiting w' p = waiting w p ++ [m] /\
    (forall r, r <> p -> payload w' r = payload w r).
Proof.
  intros Hi Hid. destruct (mq_push_ok _ _ _ _ _ m Hi Hid) as (w' & g' & Hw & Hg').
  exists w', g'. split; [done|]. split; [done|]. split; [intros r; by eapply mq_push_id|].
  apply queue_id_inv in Hid as (q & Hq & _ & Hr).
  destruct (inv_lookup _ _ _ _ Hi Hq) as [[l Hl] _ _ _ Hidle].
  destruct (mq_push_heap w g p q m (inv_gq _ _ Hi) Hq (mq_rep_wf _ _ Hl)) as (w1 & q1 & Hw1 & Hp1 & _ & Hc1 & _ & _ & Hfr & _).
  { intros E. by apply Hidle. }
  rewrite Hw in Hw1. injection Hw1 as <-. split; [|done]. rewrite (waiting_payload _ _ _ Hp1), Hc1.
  unfold waiting. by rewrite Hq.
Qed.

(** A message to a handle: appended to the queue of its context, or refused. *)
Lemma context_push_spec hd own g M N nd h m : node_inv hd own g M N nd ->
  match M !! h with
  | None => skynet_context_push h m nd = Some (-1, nd)
  | Some c => exists k w g', n_ctxs nd !! c = Some k /\ c_handle k = h /\
      skynet_context_push h m nd = Some (0, set_mq w nd) /\ node_inv hd own g' M N (set_mq w nd) /\
      waiting w (c_queue k) = waiting (n_mq nd) (c_queue k) ++ [m] /\
      (forall p, p <> c_queue k -> payload w p = payload (n_mq nd) p)
  end.
Proof.
  intros Hi. pose proof (handle_grab_ok _ _ _ _ _ _ h Hi) as Hg. unfold skynet_context_push.
  destruct (M !! h) as [c|] eqn:HM; [|by rewrite Hg].
  destruct Hg as (k & Hk & Hh & -> & Hi'). exists k. cbn [n_ctxs n_mq set_ctxs]. rewrite lookup_insert_eq.
  cbn [c_queue set_ref]. pose proof (ci_queue Hi _ _ _ _ (cores_lookup _ _ _ Hk)) as Hid.
  destruct (mq_push_waiting _ _ _ _ _ m (ci_sched Hi) Hid) as (w & g' & -> & Hg' & Hids & Hwait & Hfr).
  exists w, g'. split; [done|]. split; [done|]. unfold skynet_context_release, upd_ctx.
  cbn [n_ctxs n_mq set_ctxs set_mq]. rewrite lookup_insert_eq. cbn [c_ref set_ref].
  destruct (ci_refs Hi _ _ _ _ (cores_lookup _ _ _ Hk)) as [_ Hpos]. rewrite insert_insert_eq.
  replace (set_ref (c_ref k + 1 - 1) (set_ref (c_ref k + 1) k)) with k.
  2:{ destruct k. unfold set_ref. cbn. f_equal. lia. }
  rewrite (insert_id _ c k) by done. cbn [n_ctxs set_ctxs]. rewrite Hk.
  destruct (Z.eqb_spec (c_ref k) 0); [lia|]. split; [by destruct nd|]. split; [|done].
  by apply (node_set_mq _ _ _ _ _ _ _ _ _ Hi Hg').
Qed.

(** ** The arguments of a message *)

Definition dontcopy (type : Z) : bool := negb (Z.land type PTYPE_TAG_DONTCOPY =? 0).
Definition allocsession (type : Z) : bool := negb (Z.land type PTYPE_TAG_ALLOCSESSION =? 0).

(** The next session of a context: positive, starting again at 1 after the largest [int]. *)
Definition next_session (i : Z) : Z := let s := i32 (i + 1) in if s <=? 0 then 1 else s.

(** What a caller must provide: a context with no session yet when one is to be allocated, [sz] readable bytes
    when they are to be copied. *)
Definition args_ok (context : option ctx) (type session data sz : Z) (nd : node) : Prop :=
  (allocsession type = true -> session = 0 /\ exists c k, context = Some c /\ n_ctxs nd !! c = Some k) /\
  (dontcopy type = false -> data <> 0 -> exists l, n_mem nd !! data = Some (Bytes l) /\ sz <= Z.of_nat (length l)).

(** The session and the data that go into the message: a new session if asked for, and a copy of the bytes
    with a NUL after them unless the caller gives its block away. *)
Definition filtered (context : option ctx) (type session data sz : Z) (nd : node) (session' data' : Z) (nd' : node) : Prop :=
  (if allocsession type
   then exists c k, context = Some c /\ n_ctxs nd !! c = Some k /\ session' = next_session (c_session_id k) /\ 0 < session'
   else session' = session) /\
  (if dontcopy type || (data =? 0) then data' = data
   else data' = n_brk nd /\ exists l, n_mem nd !! data = Some (Bytes l) /\
     n_mem nd' !! data' = Some (Bytes (take (Z.to_nat sz) l ++ [0]))) /\
  n_mq nd' = n_mq nd /\ n_handles nd' = n_handles nd /\ n_HARBOR nd' = n_HARBOR nd /\ n_freed nd' = n_freed nd.

Lemma next_session_pos i : 0 < next_session i.
Proof. unfold next_session. destruct (Z.leb_spec (i32 (i + 1)) 0); lia. Qed.

Lemma newsession_spec c k nd : n_ctxs nd !! c = Some k ->
  skynet_context_newsession c nd = Some (next_session (c_session_id k),
    set_ctxs (<[c := set_session_id (next_session (c_session_id k)) k]> (n_ctxs nd)) nd).
Proof.
  intros Hk. unfold skynet_context_newsession, next_session. rewrite Hk.
  destruct (_ <=? 0); by rewrite (upd_ctx_lookup _ _ _ _ Hk).
Qed.

Lemma filter_args_spec hd own g M N context type session data sz nd : node_inv hd own g M N nd ->
  args_ok context type session data sz nd -> 0 <= sz < 2 ^ 56 ->
  exists session' data' nd', _filter_args context type session data sz nd =
      Some (session', data', sz + Z.land type 0xff * 2 ^ 56, nd') /\
    filtered context type session data sz nd session' data' nd' /\ node_inv hd own g M N nd'.
Proof.
  intros Hi [Halloc Hcopy] Hsz. unfold _filter_args.
  fold (allocsession type). replace (Z.land type PTYPE_TAG_DONTCOPY =? 0) with (negb (dontcopy type))
    by (unfold dontcopy; by rewrite negb_involutive).
  rewrite message_sz_add; [|done|change 0xff with (2 ^ 8 - 1); rewrite land_low by lia; apply Z.mod_pos_bound; lia].
  assert (exists session' nd1, (if allocsession type then assert! (session =? 0) ;; let! c := context in
      skynet_context_newsession c nd else Some (session, nd)) = Some (session', nd1) /\
    (if allocsession type then exists c k, context = Some c /\ n_ctxs nd !! c = Some k /\
       session' = next_session (c_session_id k) /\ 0 < session' else session' = session) /\
    node_inv hd own g M N nd1 /\ n_mem nd1 = n_mem nd /\ n_brk nd1 = n_brk nd /\ n_mq nd1 = n_mq nd /\
    n_handles nd1 = n_handles nd /\ n_HARBOR nd1 = n_HARBOR nd /\ n_freed nd1 = n_freed nd)
    as (session' & nd1 & -> & Hs & Hi1 & E1 & E2 & E3 & E4 & E5 & E6).
  { destruct (allocsession type); [|exists session, nd; by split_and!]. destruct (Halloc eq_refl) as (-> & c & k & -> & Hk).
    rewrite Z.eqb_refl, (newsession_spec _ _ _ Hk). eexists _, _. split; [done|].
    split; [eauto 10 using next_session_pos|]. split; [|done].
    apply (node_frame _ _ _ _ _ _ _ Hi); try done. rewrite cores_upd. apply insert_id. exact (cores_lookup _ _ _ Hk). }
  unfold filtered. destruct (dontcopy type) eqn:Ed; cbn [negb andb orb].
  { exists session', data, nd1. by split_and!. }
  destruct (Z.eqb_spec data 0) as [->|Hd]; cbn [negb]; [exists session', 0, nd1; by split_and!|].
  destruct (Hcopy eq_refl Hd) as (l & Hl & Hlen). unfold copy_data. rewrite E1, Hl.
  rewrite memcpy_Some by lia. change (drop (Z.to_nat 0) l) with l. unfold alloc.
  eexists session', (n_brk nd1), _. split; [done|]. cbn [n_mem n_mq n_handles n_HARBOR n_freed set_mem]. split.
  - split_and!; try done. exists l. split; [done|]. apply lookup_insert_eq.
  - apply (node_frame _ _ _ _ _ _ _ Hi1); done.
Qed.

Lemma too_large sz : 0 <= sz < 2 ^ 56 -> negb (Z.land sz MESSAGE_TYPE_MASK =? sz) = false.
Proof. intros Hsz. rewrite mask_mod, Z.mod_small by done. by rewrite Z.eqb_refl. Qed.
End Send.


(** A message to handle 0 is dropped without being freed: [skynet_send] has copied the data by then, the copy
    is in no queue, and no caller gets its address. *)
Theorem skynet_send_zero_leaks `{ServicesOk} context source type session data sz l nd :
  source <> 0 -> 0 <= sz < 2 ^ 56 -> allocsession type = false -> dontcopy type = false -> data <> 0 ->
  n_mem nd !! data = Some (Bytes l) -> sz <= Z.of_nat (length l) ->
  exists nd', skynet_send context source 0 type session data sz nd = Some (session, nd') /\
    n_mem nd' = <[n_brk nd := Bytes (take (Z.to_nat sz) l ++ [0])]> (n_mem nd) /\
    n_mq nd' = n_mq nd /\ n_freed nd' = n_freed nd.
Proof.
  intros Hsrc Hsz Ha Hd Hdata Hl Hlen. unfold skynet_send. rewrite too_large by done. unfold _filter_args.
  fold (allocsession type). rewrite Ha. unfold dontcopy in Hd. apply negb_false_iff in Hd as ->.
  apply Z.eqb_neq in Hdata as ->. cbn [negb andb]. unfold copy_data. rewrite Hl, memcpy_Some by lia.
  change (drop (Z.to_nat 0) l) with l. unfold alloc, source_handle. apply Z.eqb_neq in Hsrc as ->.
  eexists. split; [done|]. done.
Qed.

(** ** Handles as text *)

Lemma digit_value_hex b d : 0 <= d < 16 -> digit_value 16 (hex_digit b d) = Some d.
Proof.
  intros Hd. assert (d ∈ seqZ 0 16) as Hin by (apply elem_of_seqZ; lia).
  clear Hd. revert d Hin. apply Forall_forall. destruct b; repeat constructor.
Qed.

(** The value of a list of digits, most significant first. *)
Definition digits (acc : Z) (ds : list Z) : Z := foldl (fun a d => a * 16 + d) acc ds.

Lemma digits_value_hex b ds acc n : Forall (fun d => 0 <= d < 16) ds ->
  digits_value 16 acc n (map (hex_digit b) ds) = (digits acc ds, (n + length ds)%nat, []).
Proof.
  intros Hds. revert acc n. induction Hds as [|d ds Hd _ IH]; intros acc n; cbn [map digits_value digits foldl].
  - by rewrite Nat.add_0_r.
  - rewrite digit_value_hex by done. rewrite IH. cbn [length]. unfold digits. do 2 f_equal. lia.
Qed.

Lemma hex_digit_range b d : 0 <= d < 16 -> 48 <= hex_digit b d <= 57 \/ 65 <= hex_digit b d <= 70 \/ 97 <= hex_digit b d <= 102.
Proof. intros Hd. unfold hex_digit. destruct b, (Z.ltb_spec d 10); lia. Qed.

(** [strtoul] reads hexadecimal digits back. *)
Lemma strtoul16_hex b ds : Forall (fun d => 0 <= d < 16) ds -> ds <> [] -> digits 0 ds < 2 ^ 64 ->
  strtoul16 (map (hex_digit b) ds) = digits 0 ds.
Proof.
  intros Hds Hne Hlt. destruct ds as [|d ds]; [done|]. pose proof Hds as [Hd _]%Forall_cons.
  pose proof (hex_digit_range b d Hd) as Hr. unfold strtoul16. cbn [map].
  assert (skip_space (hex_digit b d :: map (hex_digit b) ds) = hex_digit b d :: map (hex_digit b) ds) as ->.
  { cbn [skip_space]. unfold isspace.
    destruct (Z.eqb_spec (hex_digit b d) 32); [lia|]. destruct (Z.leb_spec 9 (hex_digit b d)), (Z.leb_spec (hex_digit b d) 13); done || lia. }
  assert (forall r, sign_of (hex_digit b d :: r) = (false, hex_digit b d :: r)) as ->.
  { intros r. cbn [sign_of]. destruct (Z.eqb_spec (hex_digit b d) 45), (Z.eqb_spec (hex_digit b d) 43); done || lia. }
  assert (has_0x (hex_digit b d :: map (hex_digit b) ds) = false) as ->.
  { destruct ds as [|d2 [|d3 ds]]; [done..|]. apply Forall_cons in Hds as [_ [Hd2 _]%Forall_cons].
    pose proof (hex_digit_range b d2 Hd2). cbn [map has_0x].
    destruct (Z.eqb_spec (hex_digit b d2) 120), (Z.eqb_spec (hex_digit b d2) 88); [lia..|]. by rewrite andb_false_r. }
  change (hex_digit b d :: map (hex_digit b) ds) with (map (hex_digit b) (d :: ds)).
  rewrite digits_value_hex by done. destruct (Z.ltb_spec ULONG_MAX (digits 0 (d :: ds))) as [Hbig|]; [|done].
  unfold ULONG_MAX in Hbig. lia.
Qed.

Lemma digits_snoc acc ds d : digits acc (ds ++ [d]) = digits acc ds * 16 + d.
Proof. unfold digits. by rewrite foldl_app. Qed.

Lemma hex_loop_spec n z acc : (0 < n)%nat -> 0 <= z < 16 ^ Z.of_nat n ->
  exists ds, hex_loop n z acc = map (hex_digit false) ds ++ acc /\ Forall (fun d => 0 <= d < 16) ds /\
    ds <> [] /\ digits 0 ds = z.
Proof.
  revert z acc. induction n as [|n IH]; intros z acc Hn Hz; [lia|]. cbn [hex_loop].
  pose proof (Z.mod_pos_bound z 16). pose proof (Z.div_mod z 16).
  destruct (Z.eqb_spec (z / 16) 0) as [E|E].
  - exists [z mod 16]. split; [done|]. split; [by repeat constructor; lia|]. split; [done|]. cbn. lia.
  - rewrite Nat2Z.inj_succ, Z.pow_succ_r in Hz by lia.
    assert (0 <= z / 16 < 16 ^ Z.of_nat n) as Hz' by (split; [apply Z.div_pos; lia|apply Z.div_lt_upper_bound; lia]).
    assert (0 < n)%nat as Hn'. { destruct n; [|lia]. change (16 ^ Z.of_nat 0) with 1 in Hz'. lia. }
    destruct (IH (z / 16) (hex_digit false (z mod 16) :: acc) Hn' Hz') as (ds & -> & Hds & Hne & Hv).
    exists (ds ++ [z mod 16]). rewrite map_app, <- app_assoc. split; [done|]. split; [|split].
    + apply Forall_app. split; [done|]. repeat constructor; lia.
    + by destruct ds.
    + rewrite digits_snoc, Hv. lia.
Qed.

Lemma hex08_digits h : 0 <= h < 2 ^ 32 ->
  digits 0 (map (fun i => Z.land (Z.shiftr h ((7 - i) * 4)) 0xf) (seqZ 0 8)) = h.
Proof.
  intros Hh. change (seqZ 0 8) with [0; 1; 2; 3; 4; 5; 6; 7]. cbn [map digits foldl].
  change 0xf with (2 ^ 4 - 1). rewrite !land_low, !Z.shiftr_div_pow2 by lia.
  repeat match goal with |- context [2 ^ ?e] => let v := eval vm_compute in (2 ^ e) in
    progress change (2 ^ e) with v end.
  change (2 ^ 32) with 4294967296 in Hh. Z.div_mod_to_equations. lia.
Qed.

(** A handle printed by the server is read back as the same handle: the upper case [LAUNCH] result and the
    lower case one of [REG], [QUERY] and [MONITOR], by [skynet_queryname] and as the address of a message. *)
Theorem handle_text_roundtrip `{Services} context h nd : 0 <= h < 2 ^ 32 ->
  skynet_queryname context (id_to_hex h) nd = Some (h, nd) /\
  skynet_queryname context (58 :: hex h) nd = Some (h, nd) /\
  forall source type session data sz, source <> 0 ->
    skynet_sendname (Some context) source (id_to_hex h) type session data sz nd =
    skynet_send (Some context) source h type session data sz nd.
Proof.
  intros Hh.
  assert (strtoul16 (tail (id_to_hex h)) = h) as E1.
  { unfold id_to_hex. cbn [tail]. rewrite <- (map_map (fun i => Z.land (Z.shiftr h ((7 - i) * 4)) 0xf) (hex_digit true)).
    rewrite strtoul16_hex; rewrite ?hex08_digits; try done; [|zlia].
    apply Forall_fmap, Forall_forall. intros i _. cbv [compose]. change 0xf with (2 ^ 4 - 1). rewrite land_low by lia.
    apply Z.mod_pos_bound. lia. }
  assert (strtoul16 (hex h) = h) as E2.
  { unfold hex. destruct (hex_loop_spec 8 h [] ltac:(lia)) as (ds & -> & Hds & Hne & Hv); [change (16 ^ Z.of_nat 8) with (2 ^ 32); done|].
    rewrite app_nil_r, strtoul16_hex; [done..|]. rewrite Hv. zlia. }
  split; [|split].
  - unfold skynet_queryname. change (first (id_to_hex h) =? 58) with true. cbv iota. rewrite E1. by rewrite u32_small.
  - unfold skynet_queryname. cbn [first tail]. rewrite Z.eqb_refl, E2. by rewrite u32_small.
  - intros source type session data sz Hs. unfold skynet_sendname, source_handle.
    apply Z.eqb_neq in Hs as ->. change (first (id_to_hex h) =? 58) with true. cbv iota. rewrite E1. by rewrite u32_small.
Qed.

(** ** Witnesses *)


Definition ex_mem_node : node := snd (alloc (Bytes [104; 105]) ex_node).

Lemma skynet_send_zero_leaks_witness : exists nd',
  skynet_send None 9 0 PTYPE_TEXT 5 1 2 ex_mem_node = Some (5, nd') /\
  n_mem nd' = <[2 := Bytes [104; 105; 0]]> (n_mem ex_mem_node) /\ n_freed nd' = [].
Proof.
  destruct (skynet_send_zero_leaks None 9 PTYPE_TEXT 5 1 2 [104; 105] ex_mem_node) as (nd' & H1 & H2 & _ & H3).
  - discriminate.
  - lia.
  - reflexivity.
  - reflexivity.
  - discriminate.
  - reflexivity.
  - vm_compute. discriminate.
  - exists nd'. split; [exact H1|]. split; [exact H2 | exact H3].
Defined.

Lemma handle_text_roundtrip_witness :
  skynet_queryname 1 (id_to_hex 0x0100000a) ex_node = Some (0x0100000a, ex_node).
Proof. apply handle_text_roundtrip. lia. Defined.
