(* ===== verification/DispatchSpec.v ===== *)
(** * The batches of the dispatcher

    How many messages a worker takes from a queue before it turns to the next one
    ([skynet_context_message_dispatch]), and what becomes of the queue. *)

From stdpp Require Import gmultiset.
From S2P Require Import Prelude Ring Message MQ Sched Timer Handle HandleSpec CString Module Node Server NodeSafe ServerSpec.

(** Services whose callbacks leave contexts, handles and queues alone. *)
Class QuietCallback `{Services} := callback_frame : forall cb c ud type session source data sz nd,
  exists r nd', sv_cb cb c ud type session source data sz nd = Some (r, nd') /\
    n_ctxs nd' = n_ctxs nd /\ n_handles nd' = n_handles nd /\ n_mq nd' = n_mq nd /\ n_remote nd' = n_remote nd.

Lemma i32_add a b : i32 (i32 a + b) = i32 (a + b).
Proof.
  unfold i32. replace ((a + 2 ^ 31) mod 2 ^ 32 - 2 ^ 31 + b + 2 ^ 31) with ((a + 2 ^ 31) mod 2 ^ 32 + b) by lia.
  rewrite Zplus_mod_idemp_l. do 2 f_equal. lia.
Qed.

Section Dispatch.
Context `{ServicesOk} `{!QuietCallback}.

(** What a callback leaves of the node. *)
Definition same_tables (nd nd' : node) : Prop :=
  n_handles nd' = n_handles nd /\ n_mq nd' = n_mq nd /\ n_remote nd' = n_remote nd.

Definition after_message (k k' : skynet_context) : Prop :=
  core k' = core k /\ c_cb k' = c_cb k /\ c_init k' = c_init k /\ c_message_count k' = i32 (c_message_count k + 1).

Lemma skynet_free_tables p nd : n_ctxs (skynet_free p nd) = n_ctxs nd /\ same_tables nd (skynet_free p nd).
Proof. unfold skynet_free, same_tables. by destruct (p =? 0). Qed.

Lemma run_callback_ok c k k1 cb msg nd : n_ctxs nd !! c = Some k1 ->
  exists r nd' k', run_callback c k cb msg nd = Some (r, nd') /\ n_ctxs nd' = <[c := k']> (n_ctxs nd) /\
    core k' = core k1 /\ c_cb k' = c_cb k1 /\ c_init k' = c_init k1 /\ c_message_count k' = c_message_count k1 /\
    same_tables nd nd'.
Proof.
  intros Hk. unfold run_callback. destruct (c_profile k).
  - rewrite (upd_ctx_lookup _ _ _ _ Hk). set (nd1 := set_ctxs _ nd).
    destruct (callback_frame cb c (c_cb_ud k) (message_type (sz msg)) (session msg) (source msg) (data msg) (message_size (sz msg)) nd1)
      as (r & nd2 & -> & E1 & E2 & E3 & E4).
    assert (n_ctxs nd2 !! c = Some (set_cpu (c_cpu_cost k1) (sv_thread_time nd) k1)) as Hk2
      by (rewrite E1; apply lookup_insert_eq).
    rewrite (upd_ctx_lookup _ _ _ _ Hk2). eexists r, _, _. split; [done|]. cbn [n_ctxs set_ctxs]. rewrite E1.
    split; [apply insert_insert_eq|]. done.
  - destruct (callback_frame cb c (c_cb_ud k) (message_type (sz msg)) (session msg) (source msg) (data msg) (message_size (sz msg)) nd)
      as (r & nd2 & -> & E1 & E2 & E3 & E4).
    exists r, nd2, k1. split; [done|]. split; [by rewrite E1, insert_id|]. done.
Qed.

Lemma ctx_dispatch_ok c k cb msg nd : n_ctxs nd !! c = Some k -> c_init k = true -> c_cb k = Some cb ->
  exists nd' k', ctx_dispatch c msg nd = Some nd' /\ n_ctxs nd' = <[c := k']> (n_ctxs nd) /\
    after_message k k' /\ same_tables nd nd'.
Proof.
  intros Hk Hinit Hcb. unfold ctx_dispatch. rewrite Hk, Hinit, Hcb.
  rewrite (upd_ctx_lookup c _ (set_current (c_handle k) nd) k Hk). set (nd1 := set_ctxs _ _).
  destruct (run_callback_ok c k (set_message_count (i32 (c_message_count k + 1)) k) cb msg nd1)
    as (r & nd2 & k2 & -> & E1 & Hc2 & Hcb2 & Hi2 & Hm2 & E2 & E3 & E4); [apply lookup_insert_eq|].
  destruct (skynet_free_tables (data msg) nd2) as [F1 (F2 & F3 & F4)].
  exists (if r =? 0 then skynet_free (data msg) nd2 else nd2), k2. split; [done|].
  assert (n_ctxs (if r =? 0 then skynet_free (data msg) nd2 else nd2) = n_ctxs nd2) as -> by (by destruct (r =? 0)).
  split; [rewrite E1; apply insert_insert_eq|]. split; [done|].
  cbn [n_handles n_mq n_remote set_ctxs set_current nd1] in E2, E3, E4. subst nd1.
  unfold same_tables. destruct (r =? 0); split_and!; congruence.
Qed.

Lemma i32_idem a : i32 (i32 a) = i32 a.
Proof. pose proof (i32_add a 0) as E. by rewrite !Z.add_0_r in E. Qed.

(** The state of the worker in the middle of a batch: the messages [l] wait, [cnt] have been handled. *)
Record batch (hd : gmultiset ctx) (own : gset positive) (g : list positive) (M : gmap Z ctx) (N : gmap string Z)
    (c : ctx) (q : positive) (K : Z * Z * positive) (l : list skynet_message) (cnt : Z) (nd : node) : Prop := {
  bt_inv : node_inv hd own g M N nd;
  bt_own : q ∈ own;
  bt_ctx : exists k, n_ctxs nd !! c = Some k /\ core k = K /\ c_init k = true /\ is_Some (c_cb k) /\ c_message_count k = cnt;
  bt_cnt : i32 cnt = cnt;
  bt_mq : exists mq, mqs (n_mq nd) !! q = Some mq /\ mq_rep mq l /\ mq_overload mq = 0 /\
    Z.of_nat (length l) <= mq_overload_threshold mq;
}.

(** One round of the loop. *)
Lemma batch_round fuel i n weight handle hd own g M N c q K m l cnt sm nd :
  batch hd own g M N c q K (m :: l) cnt nd -> i < n ->
  exists sm' nd', batch hd own g M N c q K l (i32 (cnt + 1)) nd' /\
    dispatch_rounds (S fuel) i n weight handle q c sm nd =
    dispatch_rounds fuel (i + 1) (if (i =? 0) && (0 <=? weight) then Z.shiftr (Z.of_nat (length l)) weight else n)
      weight handle q c sm' nd'.
Proof.
  intros [Hi Hown (k & Hk & HK & Hinit & [cb Hcb] & Hcnt) _ (mq & Hmq & Hl & Hov & Hthr)] Hin.
  cbn [dispatch_rounds]. destruct (Z.ltb_spec i n); [|lia].
  destruct (mq_pop_fields_cons _ _ _ Hl) as (mq1 & Hpop & Hl1 & _ & _ & _ & _ & _ & _ & _ & Hkeep).
  destruct Hkeep as [Hov1 Hthr1]; [cbn [length] in Hthr; lia|].
  assert (skynet_mq_pop q (n_mq nd) = Some (0, Some m, store q mq1 (n_mq nd))) as Hp.
  { unfold skynet_mq_pop. by rewrite Hmq, Hpop. }
  rewrite Hp. cbn [Z.eqb n_mq set_mq mqs store]. rewrite lookup_insert_eq.
  rewrite (skynet_mq_length_rep _ _ Hl1). unfold skynet_mq_overload. rewrite Hov1, Hov. cbn [Z.eqb negb n_ctxs set_mq].
  set (nd1 := set_mq _ (set_mq _ nd)). rewrite Hk, Hcb.
  assert (n_mq nd1 = store q mq1 (n_mq nd)) as Hmq1.
  { unfold nd1, store. cbn. by rewrite insert_insert_eq. }
  assert (node_inv hd own g M N nd1) as Hi1.
  { apply (node_frame _ _ _ _ _ (set_mq (store q mq1 (n_mq nd)) nd)); try done.
    apply (node_set_mq _ _ _ _ _ _ _ _ _ Hi); [|intros p; by eapply mq_pop_id].
    by eapply inv_pop; [apply (ci_sched Hi)| |exact Hp]. }
  destruct (ctx_dispatch_ok c k cb m nd1 Hk Hinit Hcb) as (nd2 & k2 & -> & E1 & (Hc2 & Hcb2 & Hi2 & Hm2) & E2 & E3 & E4).
  eexists _, nd2. split; [|done]. split; [|done| |by rewrite i32_idem|].
  - apply (node_frame _ _ _ _ _ nd1); try done. unfold cores. rewrite E1, fmap_insert, Hc2.
    change (n_ctxs nd1) with (n_ctxs nd). apply insert_id. exact (cores_lookup _ _ _ Hk).
  - exists k2. rewrite E1, lookup_insert_eq. split_and!; try congruence. rewrite Hcb2, Hcb. eauto.
  - exists mq1. rewrite E3, Hmq1. cbn. rewrite lookup_insert_eq. split_and!; try done; [congruence|].
    rewrite Hthr1. cbn [length] in Hthr. lia.
Qed.

(** The rest of a batch. *)
Lemma batch_rest r fuel i n weight handle hd own g M N c q K l cnt sm nd :
  batch hd own g M N c q K l cnt nd -> 0 < i -> n = i + Z.of_nat r -> (r <= length l)%nat -> (r <= fuel)%nat ->
  exists sm' nd', dispatch_rounds fuel i n weight handle q c sm nd = Some (false, sm', nd') /\
    batch hd own g M N c q K (drop r l) (i32 (cnt + Z.of_nat r)) nd'.
Proof.
  revert fuel i l cnt sm nd. induction r as [|r IH]; intros fuel i l cnt sm nd Hb Hi0 Hn Hr Hf.
  - exists sm, nd. subst n. split.
    + destruct fuel; cbn [dispatch_rounds]; (destruct (Z.ltb_spec i (i + Z.of_nat 0)); [lia|done]).
    + by rewrite Z.add_0_r, (bt_cnt _ _ _ _ _ _ _ _ _ _ _ Hb).
  - destruct l as [|m l]; [cbn in Hr; lia|]. destruct fuel as [|fuel]; [lia|].
    destruct (batch_round fuel i n weight handle _ _ _ _ _ _ _ _ _ _ _ sm _ Hb) as (sm1 & nd1 & Hb1 & ->); [lia|].
    destruct (Z.eqb_spec i 0); [lia|]. cbn [andb]. cbn [length] in Hr.
    destruct (IH fuel (i + 1) l (i32 (cnt + 1)) sm1 nd1 Hb1) as (sm2 & nd2 & -> & Hb2); [lia..|].
    exists sm2, nd2. split; [done|]. rewrite i32_add in Hb2. cbn [drop].
    replace (cnt + Z.of_nat (S r)) with (cnt + 1 + Z.of_nat r) by lia. done.
Qed.

(** The messages of a batch: one, then a share of those left. *)
Definition batch_size (left weight : Z) : Z := Z.max 1 (if 0 <=? weight then Z.shiftr left weight else 1).

Lemma batch_loop weight handle hd own g M N c q K m l cnt sm nd fuel :
  batch hd own g M N c q K (m :: l) cnt nd -> (S (length l) <= fuel)%nat ->
  exists sm' nd', dispatch_rounds (S fuel) 0 1 weight handle q c sm nd = Some (false, sm', nd') /\
    batch hd own g M N c q K (drop (Z.to_nat (batch_size (Z.of_nat (length l)) weight)) (m :: l))
      (i32 (cnt + batch_size (Z.of_nat (length l)) weight)) nd'.
Proof.
  intros Hb Hf. unfold batch_size.
  destruct (batch_round fuel 0 1 weight handle _ _ _ _ _ _ _ _ _ _ _ sm _ Hb) as (sm1 & nd1 & Hb1 & ->); [lia|].
  cbn [Z.eqb andb]. set (n := if 0 <=? weight then Z.shiftr (Z.of_nat (length l)) weight else 1).
  assert (n <= 1 \/ n <= Z.of_nat (length l)) as Hn.
  { unfold n. destruct (Z.leb_spec 0 weight); [right|lia]. rewrite Z.shiftr_div_pow2 by done.
    apply Z.div_le_upper_bound; [lia|]. assert (1 <= 2 ^ weight) by (pose proof (Z.pow_pos_nonneg 2 weight); lia). nia. }
  destruct (Z.le_gt_cases n 1) as [Hn1|Hn1].
  - exists sm1, nd1. rewrite Z.max_l by lia. split; [|done].
    destruct fuel; cbn [dispatch_rounds]; (destruct (Z.ltb_spec (0 + 1) n); [lia|done]).
  - destruct (batch_rest (Z.to_nat (n - 1)) fuel (0 + 1) n weight handle _ _ _ _ _ _ _ _ _ _ sm1 _ Hb1)
      as (sm2 & nd2 & -> & Hb2); [lia..|]. exists sm2, nd2. split; [done|]. rewrite Z.max_r by lia.
    rewrite i32_add in Hb2. replace (cnt + 1 + Z.of_nat (Z.to_nat (n - 1))) with (cnt + n) in Hb2 by lia.
    replace (Z.to_nat n) with (S (Z.to_nat (n - 1))) by lia. done.
Qed.

(** Giving up a reference while others are left. *)
Lemma release_shared c k nd : n_ctxs nd !! c = Some k -> c_ref k <> 1 ->
  skynet_context_release c nd = Some (Some c, set_ctxs (<[c := set_ref (c_ref k - 1) k]> (n_ctxs nd)) nd).
Proof.
  intros Hk Hr. unfold skynet_context_release. rewrite (upd_ctx_lookup _ _ _ _ Hk). cbn [n_ctxs set_ctxs].
  rewrite lookup_insert_eq. cbn [c_ref set_ref]. destruct (Z.eqb_spec (c_ref k - 1) 0); [lia|done].
Qed.

(** Handing the queue back when another one waits. *)
Lemma requeue_ok hd own g M N nd p q : node_inv hd own (p :: g) M N nd -> q ∈ own ->
  exists w1 w2, skynet_globalmq_pop (n_mq nd) = Some (Some p, w1) /\ skynet_globalmq_push q w1 = Some w2 /\
    node_inv hd (({[p]} ∪ own) ∖ {[q]}) (g ++ [q]) M N (set_mq w2 nd) /\ (forall r, payload w2 r = payload (n_mq nd) r).
Proof.
  intros Hi Hq. destruct (globalmq_pop_cons _ _ _ (inv_gq _ _ (ci_sched Hi))) as (w1 & Hpop & Hg1 & Hpay1). cbn [heap] in *.
  destruct (inv_take _ _ _ _ _ (ci_sched Hi) Hpop) as (l & [= <-] & Hs1).
  assert (q ∈ {[p]} ∪ own) as Hq1 by set_solver.
  destruct (inv_held_lookup _ _ _ Hs1 Hq1) as [mq Hmq]. cbn [heap] in Hmq.
  assert (q ∉ g) as Hng by (intros Hg; by apply (inv_disj _ _ Hs1 q Hg)).
  destruct (globalmq_push_spec _ _ _ _ Hg1 Hmq Hng) as (w2 & Hpush & _ & Hpay2).
  exists w1, w2. split; [done|]. split; [done|]. split; [|intros r; by rewrite Hpay2, Hpay1].
  apply (node_set_mq _ _ _ _ _ _ _ _ _ Hi).
  - eapply inv_link; [exact Hs1|exact Hmq|exact Hng|exact Hpush|]. intros Hf Hr.
    by destruct (ok_idle _ _ _ _ (inv_lookup _ _ _ _ Hs1 Hmq) Hf Hr).
  - intros r. by rewrite (globalmq_push_id _ _ _ r Hpush), (globalmq_pop_id _ _ _ r Hpop).
Qed.

(** The release at the end of a batch, when the context is still registered. *)
Lemma batch_release hd own g M N nd c k h : node_inv (hd ⊎ {[+ c +]}) own g M N nd -> n_ctxs nd !! c = Some k ->
  M !! h = Some c -> c_handle k = h -> exists k', core k' = (c_ref k - 1, c_handle k, c_queue k) /\
  c_message_count k' = c_message_count k /\
  skynet_context_release c nd = Some (Some c, set_ctxs (<[c := k']> (n_ctxs nd)) nd) /\
  node_inv hd own g M N (set_ctxs (<[c := k']> (n_ctxs nd)) nd).
Proof.
  intros Hi Hk HM Hh. exists (set_ref (c_ref k - 1) k). split; [done|]. split; [done|].
  destruct (ci_refs Hi _ _ _ _ (cores_lookup _ _ _ Hk)) as [Hr _].
  assert (c_ref k <> 1) as Hne.
  { rewrite Hr, refs_add, decide_True by done. unfold refs. rewrite decide_True by congruence.
    destruct (decide (n_remote nd = Some c)); lia. }
  rewrite (release_shared _ _ _ Hk Hne). split; [done|].
  assert (c ∈ hd ⊎ {[+ c +]}) as Hin by multiset_solver.
  destruct (context_release_ok _ _ _ _ _ _ c Hi Hin) as (r & nd' & g' & E & Hi').
  rewrite (release_shared _ _ _ Hk Hne) in E. injection E as <- <-.
  replace ((hd ⊎ {[+ c +]}) ∖ {[+ c +]}) with hd in Hi' by multiset_solver.
  apply (node_set_mq _ own own g' g _ _ _ (n_mq nd)) in Hi'; [|apply (ci_sched Hi)|done].
  by apply (node_frame _ _ _ _ _ _ _ Hi').
Qed.

End Dispatch.

(** ** A small system *)

#[export] Instance idle_callback : QuietCallback.
Proof. intros cb c ud type session source data sz nd. by exists 0, nd. Qed.

(** One service, initialised, with one message waiting at its queue, which a worker owns. *)
Definition ex_n1 : node := default ex_node (upd_ctx 1 (set_cb (Some 1) 0) (w_node ex_world)).
Definition ex_n2 : node := default ex_node (upd_ctx 1 (set_init true) ex_n1).
Definition ex_turn : node :=
  match n_ctxs ex_n2 !! 1%positive with
  | Some k => match skynet_mq_push (c_queue k) (Msg 9 4 0 0) (n_mq ex_n2) with Some w => set_mq w ex_n2 | None => ex_n2 end
  | None => ex_n2
  end.

Lemma ex_turn_reachable : node_reachable ex_node (MkWorld ex_turn (w_refs ex_world) (w_own ex_world)).
Proof.
  assert (1%positive ∈ w_refs ex_world) as H1.
  { assert (w_refs ex_world = ∅ ⊎ {[+ 1%positive +]}) as -> by (vm_compute; reflexivity). multiset_solver. }
  assert (ex_world = MkWorld (w_node ex_world) (w_refs ex_world) (w_own ex_world)) as Ew by (by destruct ex_world).
  apply (rtc_r _ (MkWorld ex_n2 (w_refs ex_world) (w_own ex_world)));
    [apply (rtc_r _ (MkWorld ex_n1 (w_refs ex_world) (w_own ex_world)));
       [apply (rtc_r _ (MkWorld (w_node ex_world) (w_refs ex_world) (w_own ex_world))); [rewrite <- Ew; exact ex_reachable|]|]|].
  - apply (ns_local 1 (set_cb (Some 1) 0)); [exact H1|done|]. unfold ex_n1.
    destruct (upd_ctx 1 _ _) eqn:E; [done|]. vm_compute in E. done.
  - apply (ns_local 1 (set_init true)); [exact H1|done|]. unfold ex_n2.
    destruct (upd_ctx 1 _ _) eqn:E; [done|]. vm_compute in E. done.
  - unfold ex_turn. destruct (n_ctxs ex_n2 !! 1%positive) as [k|] eqn:Ek; [|vm_compute in Ek; done].
    destruct (skynet_mq_push (c_queue k) (Msg 9 4 0 0) (n_mq ex_n2)) as [w|] eqn:Ep.
    + by apply (ns_push 1 k (Msg 9 4 0 0)); [left| |].
    + exfalso. vm_compute in Ek. injection Ek as <-. vm_compute in Ep. done.
Qed.

