(* ===== verification/DataBuffer.v ===== *)
(** * Receive buffers ([service-src/databuffer.h])

    Incoming packets are queued as a chain of blocks and read back as one byte
    stream, cut into messages by a 2 or 4 byte length header.  The chain from
    [head] to [tail] is a list of blocks; a block knows the pool node it lives in,
    so that the node can be followed through the free list. *)

From S2P Require Import Prelude CString.

Definition MESSAGEPOOL : Z := 1023.

Record message := MkMessage {
  m_node : Z;
  m_buffer : list Z;
}.

(** [current->size]. *)
Definition m_size (m : message) : Z := Z.of_nat (length (m_buffer m)).

Record databuffer := MkBuffer {
  header : Z;
  offset : Z;
  db_size : Z;
  chain : list message;
}.

(** [pool] is the number of chunks allocated, chunk [k] holding the nodes
    [k * MESSAGEPOOL ..]; [freelist] the free nodes in link order. *)
Record messagepool := MkPool {
  pool : Z;
  freelist : list Z;
}.

Definition databuffer_zero : databuffer := MkBuffer 0 0 0 [].
Definition messagepool_zero : messagepool := MkPool 0 [].

Definition messagepool_free (mp : messagepool) : messagepool := MkPool 0 [].

(** The head block goes back to the pool. *)
Definition _return_message (db : databuffer) (mp : messagepool)
  : option (databuffer * messagepool) :=
  match chain db with
  | [] => None
  | m :: c => Some (MkBuffer (header db) (offset db) (db_size db) c,
                    MkPool (pool mp) (m_node m :: freelist mp))
  end.

(** The [for (;;)] loop of [databuffer_read]; each round but the last returns a block, so
    the length of the chain bounds the rounds. *)
Fixpoint read_loop (fuel : nat) (db : databuffer) (mp : messagepool) (sz : Z)
  : option (list Z * databuffer * messagepool) :=
  match fuel, chain db with
  | S fuel, current :: _ =>
      let bsz := m_size current - offset db in
      if sz <? bsz then
        let! out := memcpy (m_buffer current) (offset db) sz in
        Some (out, MkBuffer (header db) (offset db + sz) (db_size db) (chain db), mp)
      else if bsz =? sz then
        let! out := memcpy (m_buffer current) (offset db) sz in
        let! (db, mp) := _return_message (MkBuffer (header db) 0 (db_size db) (chain db)) mp in
        Some (out, db, mp)
      else
        let! out := memcpy (m_buffer current) (offset db) bsz in
        let! (db, mp) := _return_message db mp in
        let! (rest, db, mp) :=
          read_loop fuel (MkBuffer (header db) 0 (db_size db) (chain db)) mp (sz - bsz) in
        Some (out ++ rest, db, mp)
  | _, _ => None
  end.

Definition databuffer_read (db : databuffer) (mp : messagepool) (sz : Z)
  : option (list Z * databuffer * messagepool) :=
  assert! (sz <=? db_size db) ;;
  read_loop (length (chain db)) (MkBuffer (header db) (offset db) (db_size db - sz) (chain db)) mp sz.

(** A node from the free list, or the first of a new chunk. *)
Definition pool_alloc (mp : messagepool) : Z * messagepool :=
  match freelist mp with
  | m :: l => (m, MkPool (pool mp) l)
  | [] => (pool mp * MESSAGEPOOL,
           MkPool (pool mp + 1) (seqZ (pool mp * MESSAGEPOOL + 1) (MESSAGEPOOL - 1)))
  end.

Definition databuffer_push (db : databuffer) (mp : messagepool) (data : list Z)
  : databuffer * messagepool :=
  let '(m, mp) := pool_alloc mp in
  (MkBuffer (header db) (offset db) (db_size db + Z.of_nat (length data))
     (chain db ++ [MkMessage m data]), mp).

(** The big-endian length; [plen[0] << 24] is an [int]. *)
Definition header_value (header_size : Z) (plen : list Z) : Z :=
  let b := fun i => nth i plen 0 in
  if header_size =? 2 then Z.lor (Z.shiftl (b 0%nat) 8) (b 1%nat)
  else i32 (Z.lor (Z.lor (Z.lor (Z.shiftl (b 0%nat) 24) (Z.shiftl (b 1%nat) 16))
                         (Z.shiftl (b 2%nat) 8)) (b 3%nat)).

Definition databuffer_readheader (db : databuffer) (mp : messagepool) (header_size : Z)
  : option (Z * databuffer * messagepool) :=
  let finish := fun (db : databuffer) (mp : messagepool) =>
    if db_size db <? header db then Some (-1, db, mp) else Some (header db, db, mp) in
  if header db =? 0 then
    if db_size db <? header_size then Some (-1, db, mp)
    else
      let! (plen, db, mp) := databuffer_read db mp header_size in
      finish (MkBuffer (header_value header_size plen) (offset db) (db_size db) (chain db)) mp
  else finish db mp.

Definition databuffer_reset (db : databuffer) : databuffer :=
  MkBuffer 0 (offset db) (db_size db) (chain db).

(** [while (db->head) _return_message(db,mp)]. *)
Fixpoint clear_loop (c : list message) (mp : messagepool) : messagepool :=
  match c with
  | [] => mp
  | m :: c => clear_loop c (MkPool (pool mp) (m_node m :: freelist mp))
  end.

Definition databuffer_clear (db : databuffer) (mp : messagepool) : databuffer * messagepool :=
  (databuffer_zero, clear_loop (chain db) mp).

(** ** The buffer as a byte stream *)

Definition contents (db : databuffer) : list Z :=
  drop (Z.to_nat (offset db)) (concat (m_buffer <$> chain db)).

Record db_wf (db : databuffer) : Prop := {
  db_size_ok : db_size db = Z.of_nat (length (contents db));
  db_offset_ok : 0 <= offset db <= match chain db with [] => 0 | m :: _ => m_size m end;
}.

(** Every node the pool has given out is free or holds one block. *)
Definition pool_wf (mp : messagepool) (used : list Z) : Prop :=
  0 <= pool mp /\ Permutation (freelist mp ++ used) (seqZ 0 (pool mp * MESSAGEPOOL)).

Definition nodes (db : databuffer) : list Z := m_node <$> chain db.

Lemma db_wf_zero : db_wf databuffer_zero.
Proof. split; simpl; lia. Qed.

Lemma pool_wf_zero : pool_wf messagepool_zero [].
Proof. split; [simpl; lia|]. done. Qed.

Lemma contents_cons h o s m c : 0 <= o <= m_size m ->
  contents (MkBuffer h o s (m :: c)) = drop (Z.to_nat o) (m_buffer m) ++ concat (m_buffer <$> c).
Proof. intros. unfold contents. simpl. apply drop_app_le. unfold m_size in *. lia. Qed.

Lemma contents_0 h s c : contents (MkBuffer h 0 s c) = concat (m_buffer <$> c).
Proof. done. Qed.

(** Reading from a non-empty stream takes a prefix of it and keeps the header;
    the blocks read through go to the free list. *)
Definition read_post (db db' : databuffer) (mp mp' : messagepool) (sz : Z) (out : list Z) : Prop :=
  out = take (Z.to_nat sz) (contents db) /\ contents db' = drop (Z.to_nat sz) (contents db) /\
  0 <= offset db' <= match chain db' with [] => 0 | m :: _ => m_size m end /\
  header db' = header db /\ db_size db' = db_size db /\
  pool mp' = pool mp /\ Permutation (freelist mp' ++ nodes db') (freelist mp ++ nodes db).

Lemma read_loop_spec fuel db mp sz : (length (chain db) <= fuel)%nat ->
  0 <= offset db <= match chain db with [] => 0 | m :: _ => m_size m end ->
  0 < sz <= Z.of_nat (length (contents db)) ->
  exists out db' mp', read_loop fuel db mp sz = Some (out, db', mp') /\ read_post db db' mp mp' sz out.
Proof.
  revert db mp sz. induction fuel as [|fuel IH]; intros [h o s c] mp sz Hf Ho Hsz; simpl in *.
  { destruct c; [|simpl in Hf; lia]. unfold contents in Hsz. simpl in Hsz. rewrite drop_nil in Hsz. simpl in Hsz. lia. }
  destruct c as [|m c]; [unfold contents in Hsz; simpl in Hsz; rewrite drop_nil in Hsz; simpl in Hsz; lia|].
  unfold read_post. rewrite contents_cons in * by done. rewrite length_app, length_drop in Hsz.
  unfold m_size in *. destruct (Z.ltb_spec sz (Z.of_nat (length (m_buffer m)) - o)).
  - rewrite memcpy_Some by lia. eexists _, _, _. split; [done|]. simpl. split_and!; try done; try lia.
    + rewrite take_app_le; [done|]. rewrite length_drop. lia.
    + rewrite contents_cons by (unfold m_size; lia).
      rewrite drop_app_le by (rewrite length_drop; lia). rewrite drop_drop. do 2 f_equal. lia.
  - destruct (Z.eqb_spec (Z.of_nat (length (m_buffer m)) - o) sz) as [E|E].
    + rewrite memcpy_Some by lia. simpl. eexists _, _, _. split; [done|]. simpl. split_and!; try done; try lia.
      * rewrite take_app_le; [done|]. rewrite length_drop. lia.
      * rewrite contents_0, drop_app_ge by (rewrite length_drop; lia).
        rewrite length_drop. by replace (Z.to_nat sz - (length (m_buffer m) - Z.to_nat o))%nat with 0%nat by lia.
      * destruct c; simpl; unfold m_size; lia.
      * unfold nodes. simpl. by rewrite Permutation_middle.
    + simpl in Hf. rewrite memcpy_Some by lia. simpl.
      destruct (IH (MkBuffer h 0 s c) (MkPool (pool mp) (m_node m :: freelist mp))
        (sz - (Z.of_nat (length (m_buffer m)) - o))) as (out & db' & mp' & -> & Hp); simpl; try lia.
      { destruct c; [lia|]. unfold m_size. lia. }
      { rewrite contents_0. lia. }
      destruct Hp as (-> & Hc & Ho' & Hh & Hs & Hpl & Hperm). eexists _, _, _. split; [done|].
      rewrite contents_0 in *. simpl in *. rewrite Hc. split_and!; try done; try lia.
      * rewrite take_app_ge by (rewrite length_drop; lia). rewrite length_drop.
        rewrite (take_ge (drop _ _)) by (rewrite length_drop; lia). f_equal. f_equal. lia.
      * rewrite drop_app_ge by (rewrite length_drop; lia). rewrite length_drop. f_equal. lia.
      * apply Ho'.
      * rewrite Hperm. unfold nodes. simpl. by rewrite Permutation_middle.
Qed.

(** [databuffer_read] takes the next [sz] bytes off the stream, across any
    block boundaries, and never fails when the buffer holds that many; the
    blocks used up return to the pool, and no pool node is lost or doubly used. *)
Lemma databuffer_read_spec db mp sz other : db_wf db -> pool_wf mp (nodes db ++ other) ->
  0 < sz <= db_size db ->
  exists db' mp', databuffer_read db mp sz = Some (take (Z.to_nat sz) (contents db), db', mp') /\
    contents db' = drop (Z.to_nat sz) (contents db) /\ header db' = header db /\
    db_wf db' /\ pool_wf mp' (nodes db' ++ other).
Proof.
  intros [Hs Ho] [Hp Hperm] Hsz. unfold databuffer_read. destruct (Z.leb_spec sz (db_size db)); [|lia].
  destruct (read_loop_spec (length (chain db)) (MkBuffer (header db) (offset db) (db_size db - sz) (chain db)) mp sz)
    as (out & db' & mp' & -> & -> & Hc & Ho' & Hh & Hs' & Hpl & Hperm'); [done | done | |].
  { change (contents (MkBuffer _ _ _ _)) with (contents db). lia. }
  change (contents (MkBuffer _ _ _ _)) with (contents db) in *. exists db', mp'. simpl in *.
  split_and!; try done.
  - split; [|done]. rewrite Hs', Hc, length_drop. lia.
  - split; [by rewrite Hpl|]. rewrite Hpl, app_assoc, Hperm'. change (nodes (MkBuffer _ _ _ _)) with (nodes db).
    by rewrite <- app_assoc.
Qed.

Lemma chunk_perm (k n : Z) : 0 <= k -> 1 <= n ->
  Permutation (seqZ (k * n + 1) (n - 1) ++ k * n :: seqZ 0 (k * n)) (seqZ 0 ((k + 1) * n)).
Proof.
  intros Hk Hn. rewrite Z.mul_add_distr_r, seqZ_app by lia. rewrite Z.add_0_l, Z.mul_1_l.
  rewrite (seqZ_cons (k * n) n) by lia.
  change (Z.succ (k * n)) with (k * n + 1). change (Z.pred n) with (n - 1).
  rewrite <- Permutation_middle, Permutation_app_comm. apply Permutation_middle.
Qed.

Lemma pool_alloc_spec mp used : pool_wf mp used ->
  let '(m, mp') := pool_alloc mp in pool_wf mp' (m :: used).
Proof.
  intros [Hp Hperm]. unfold pool_alloc. destruct (freelist mp) as [|m l] eqn:E.
  - split; cbn [pool freelist]; [lia|]. rewrite app_nil_l in Hperm. rewrite Hperm.
    apply chunk_perm; [done | by unfold MESSAGEPOOL].
  - split; cbn [pool freelist]; [done|]. rewrite <- Hperm. simpl. by rewrite Permutation_middle.
Qed.

(** [databuffer_push] appends the packet to the stream and takes a node no
    block uses, from a new chunk when the free list is empty. *)
Lemma databuffer_push_spec db mp data other : db_wf db -> pool_wf mp (nodes db ++ other) ->
  let '(db', mp') := databuffer_push db mp data in
  contents db' = contents db ++ data /\ header db' = header db /\
  db_size db' = db_size db + Z.of_nat (length data) /\ db_wf db' /\ pool_wf mp' (nodes db' ++ other).
Proof.
  intros [Hs Ho] Hp. unfold databuffer_push. apply pool_alloc_spec in Hp.
  destruct (pool_alloc mp) as [m mp']. destruct Hp as [Hp Hperm]. cbn [header db_size].
  assert (Z.to_nat (offset db) <= length (concat (m_buffer <$> chain db)))%nat as Hle.
  { destruct (chain db) as [|x c]; simpl; [lia|]. rewrite length_app. unfold m_size in Ho. lia. }
  assert (contents (MkBuffer (header db) (offset db) (db_size db + Z.of_nat (length data))
    (chain db ++ [MkMessage m data])) = contents db ++ data) as Hc.
  { unfold contents. simpl. rewrite fmap_app, concat_app, drop_app_le by done. simpl. by rewrite app_nil_r. }
  rewrite Hc. split_and!; try done.
  - split; simpl; [rewrite Hc, length_app; lia|]. destruct (chain db) as [|x c]; simpl in *; [|done].
    unfold m_size. simpl. lia.
  - split; [done|]. unfold nodes. simpl. rewrite fmap_app, <- app_assoc. simpl. rewrite <- Hperm.
    apply Permutation_app_head. symmetry. apply Permutation_middle.
Qed.

(** ** The buffer refines a byte stream *)

Inductive db_op := Push (data : list Z) | Read (sz : Z).

Fixpoint db_run (ops : list db_op) (db : databuffer) (mp : messagepool)
  : option (list (list Z) * databuffer * messagepool) :=
  match ops with
  | [] => Some ([], db, mp)
  | Push data :: ops =>
      let '(db, mp) := databuffer_push db mp data in
      db_run ops db mp
  | Read sz :: ops =>
      let! (out, db, mp) := databuffer_read db mp sz in
      let! (outs, db, mp) := db_run ops db mp in
      Some (out :: outs, db, mp)
  end.

(** The same operations on a list of bytes; [None] when a read asks for nothing
    or for more than there is. *)
Fixpoint stream_run (ops : list db_op) (l : list Z) : option (list (list Z) * list Z) :=
  match ops with
  | [] => Some ([], l)
  | Push data :: ops => stream_run ops (l ++ data)
  | Read sz :: ops =>
      assert! (0 <? sz) && (sz <=? Z.of_nat (length l)) ;;
      let! (outs, r) := stream_run ops (drop (Z.to_nat sz) l) in
      Some (take (Z.to_nat sz) l :: outs, r)
  end.

(** The chain of blocks refines a byte stream: every sequence of pushes and of
    reads the stream can serve runs without failure and returns the bytes in
    the order pushed, wherever the block boundaries fall, and every pool node
    stays either free or in use by one block. *)
Theorem databuffer_refines_stream ops db mp other outs rest :
  db_wf db -> pool_wf mp (nodes db ++ other) -> stream_run ops (contents db) = Some (outs, rest) ->
  exists db' mp', db_run ops db mp = Some (outs, db', mp') /\ contents db' = rest /\
    header db' = header db /\ db_wf db' /\ pool_wf mp' (nodes db' ++ other).
Proof.
  revert db mp outs. induction ops as [|[data|sz] ops IH]; intros db mp outs Hdb Hmp Hrun; simpl in *.
  - simplify_eq. by eexists _, _.
  - pose proof (databuffer_push_spec db mp data other Hdb Hmp) as Hpush.
    destruct (databuffer_push db mp data) as [db1 mp1]. destruct Hpush as (Hc & Hh & _ & Hdb1 & Hmp1).
    rewrite <- Hc in Hrun. destruct (IH db1 mp1 outs Hdb1 Hmp1 Hrun) as (db' & mp' & H). rewrite Hh in H. eauto.
  - destruct (Z.ltb_spec 0 sz), (Z.leb_spec sz (Z.of_nat (length (contents db)))); try done. simpl in Hrun.
    destruct (stream_run ops _) as [[outs1 r]|] eqn:E; simplify_eq.
    destruct (databuffer_read_spec db mp sz other Hdb Hmp) as (db1 & mp1 & -> & Hc & Hh & Hdb1 & Hmp1);
      [rewrite (db_size_ok _ Hdb); lia|].
    rewrite <- Hc in E. destruct (IH db1 mp1 outs1 Hdb1 Hmp1 E) as (db' & mp' & -> & ? & ? & ? & ?).
    exists db', mp'. split_and!; try done. congruence.
Qed.

Lemma databuffer_refines_stream_witness :
  exists db' mp', db_run [Push [1; 2; 3]; Push [4; 5]; Read 4] databuffer_zero messagepool_zero =
      Some ([[1; 2; 3; 4]], db', mp') /\ contents db' = [5].
Proof.
  destruct (databuffer_refines_stream [Push [1; 2; 3]; Push [4; 5]; Read 4] databuffer_zero messagepool_zero []
    [[1; 2; 3; 4]] [5]) as (db' & mp' & H1 & H2 & _).
  - apply db_wf_zero.
  - apply pool_wf_zero.
  - reflexivity.
  - exists db', mp'. split; [exact H1 | exact H2].
Defined.
