(* ===== verification/HashId.v ===== *)
(** * Connection ids to slots ([service-src/hashid.h])

    A fixed array of nodes, chained by hash.  A node pointer is the index of the
    node in the array ([c - hi->id]). *)

From S2P Require Import Prelude.

Record hashid_node := MkHNode {
  n_id : Z;
  n_next : option Z;
}.

Record hashid := MkHashid {
  hashmod : Z;
  cap : Z;
  count : Z;
  ids : list hashid_node;
  hash : list (option Z);
}.

(** [while (hashcap < max) hashcap *= 2], from 16, within the range of [int]. *)
Fixpoint hashcap_loop (fuel : nat) (hashcap max : Z) : option Z :=
  if hashcap <? max then
    match fuel with
    | O => None
    | S fuel => hashcap_loop fuel (hashcap * 2) max
    end
  else Some hashcap.

Definition hashid_init (max : Z) : option hashid :=
  let! hashcap := hashcap_loop 26 16 max in
  Some (MkHashid (hashcap - 1) max 0 (replicate (Z.to_nat max) (MkHNode (-1) None))
          (replicate (Z.to_nat hashcap) None)).

Definition hashid_clear (hi : hashid) : hashid := MkHashid 1 0 0 [] [].

(** The [while(c)] loop; [None] when a pointer leaves the array or the fuel runs out. *)
Fixpoint lookup_loop (fuel : nat) (nodes : list hashid_node) (c : option Z) (id : Z) : option Z :=
  match c with
  | None => Some (-1)
  | Some i =>
      match fuel with
      | O => None
      | S fuel =>
          let! n := aget nodes i in
          if n_id n =? id then Some i else lookup_loop fuel nodes (n_next n) id
      end
  end.

Definition hashid_lookup (hi : hashid) (id : Z) : option Z :=
  let h := Z.land id (hashmod hi) in
  let! c := aget (hash hi) h in
  lookup_loop (length (ids hi)) (ids hi) c id.

(** [while(c->next)]: unlinks the node after [c] that has the id; the node and
    the array, or [None] in the inner option when there is none. *)
Fixpoint unlink_loop (fuel : nat) (nodes : list hashid_node) (c : Z) (id : Z)
  : option (option (Z * list hashid_node)) :=
  let! n := aget nodes c in
  match n_next n with
  | None => Some None
  | Some d =>
      match fuel with
      | O => None
      | S fuel =>
          let! temp := aget nodes d in
          if n_id temp =? id then
            let! nodes := aset nodes c (MkHNode (n_id n) (n_next temp)) in
            Some (Some (d, nodes))
          else unlink_loop fuel nodes d id
      end
  end.

(** The [_clear] label. *)
Definition clear_node (hi : hashid) (nodes : list hashid_node) (hs : list (option Z)) (c : Z)
  : option (Z * hashid) :=
  let! nodes := aset nodes c (MkHNode (-1) None) in
  Some (c, MkHashid (hashmod hi) (cap hi) (count hi - 1) nodes hs).

Definition hashid_remove (hi : hashid) (id : Z) : option (Z * hashid) :=
  let h := Z.land id (hashmod hi) in
  let! c := aget (hash hi) h in
  match c with
  | None => Some (-1, hi)
  | Some c =>
      let! n := aget (ids hi) c in
      if n_id n =? id then
        let! hs := aset (hash hi) h (n_next n) in
        clear_node hi (ids hi) hs c
      else
        let! r := unlink_loop (length (ids hi)) (ids hi) c id in
        match r with
        | None => Some (-1, hi)
        | Some (d, nodes) => clear_node hi nodes (hash hi) d
        end
  end.

(** The scan for a free node; [Some None] when there is none.  [(i+id) % cap] is an
    [int] computation. *)
Fixpoint insert_scan (n : nat) (i : Z) (hi : hashid) (id : Z) : option (option Z) :=
  match n with
  | O => Some None
  | S n =>
      assert! (i + id <=? INT_MAX) ;;
      let index := Z.rem (i + id) (cap hi) in
      let! nd := aget (ids hi) index in
      if n_id nd =? -1 then Some (Some index) else insert_scan n (i + 1) hi id
  end.

Definition hashid_insert (hi : hashid) (id : Z) : option (Z * hashid) :=
  let! r := insert_scan (Z.to_nat (cap hi)) 0 hi id in
  let! c := r in
  let! nd := aget (ids hi) c in
  assert! (bool_decide (n_next nd = None)) ;;
  let h := Z.land id (hashmod hi) in
  let! first := aget (hash hi) h in
  let! nodes := aset (ids hi) c (MkHNode id first) in
  let! hs := aset (hash hi) h (Some c) in
  Some (c, MkHashid (hashmod hi) (cap hi) (count hi + 1) nodes hs).

Definition hashid_full (hi : hashid) : bool := count hi =? cap hi.

(** ** Chains *)

Fixpoint chained (nodes : list hashid_node) (c : option Z) (l : list Z) : Prop :=
  match l with
  | [] => c = None
  | i :: l => c = Some i /\ exists n, aget nodes i = Some n /\ chained nodes (n_next n) l
  end.

(** The node at [i] is in use and hashes to [h]. *)
Definition in_bucket (hi : hashid) (h i : Z) : Prop :=
  exists n, aget (ids hi) i = Some n /\ n_id n <> -1 /\ Z.land (n_id n) (hashmod hi) = h.

(** The table holds the ids of [M], each at its slot, and every bucket chains the nodes
    that hash to it. *)
Record hash_rep (hi : hashid) (M : gmap Z Z) : Prop := {
  hp_mod : exists k, hashmod hi = 2 ^ k - 1 /\ 0 <= k /\ Z.of_nat (length (hash hi)) = 2 ^ k;
  hp_cap : Z.of_nat (length (ids hi)) = cap hi /\ 0 < cap hi;
  hp_count : count hi = Z.of_nat (size M);
  hp_bucket : forall h c, aget (hash hi) h = Some c ->
    exists l, chained (ids hi) c l /\ NoDup l /\ forall i, i ∈ l <-> in_bucket hi h i;
  hp_free : forall i n, aget (ids hi) i = Some n -> n_id n = -1 -> n_next n = None;
  hp_map : forall x i, M !! x = Some i <-> x <> -1 /\ exists n, aget (ids hi) i = Some n /\ n_id n = x;
}.

Lemma chained_frame nodes nodes' c l : chained nodes c l ->
  (forall i, i ∈ l -> aget nodes' i = aget nodes i) -> chained nodes' c l.
Proof.
  revert c. induction l as [|i l IH]; intros c; simpl; [done|].
  intros (-> & n & Hn & Hc) Heq. split; [done|]. exists n. split.
  - rewrite Heq by set_solver. done.
  - apply IH; [done|]. intros j Hj. apply Heq. set_solver.
Qed.

Lemma chained_lt nodes c l i : chained nodes c l -> i ∈ l -> 0 <= i < Z.of_nat (length nodes).
Proof.
  revert c. induction l as [|j l IH]; intros c; simpl; [set_solver|].
  intros (-> & n & Hn & Hc) [->|Hi]%elem_of_cons; [by eapply aget_lt | by eapply IH].
Qed.

(** A chain without repetition is no longer than the array. *)
Lemma chained_length nodes c l : chained nodes c l -> NoDup l -> (length l <= length nodes)%nat.
Proof.
  intros Hc Hnd. assert (l ⊆ seqZ 0 (Z.of_nat (length nodes))) as Hsub.
  { intros i Hi. apply elem_of_seqZ. pose proof (chained_lt _ _ _ _ Hc Hi). lia. }
  pose proof (submseteq_length _ _ (NoDup_submseteq _ _ Hnd Hsub)) as H. rewrite length_seqZ in H. lia.
Qed.

Lemma bucket_get hi M id : hash_rep hi M -> exists c, aget (hash hi) (Z.land id (hashmod hi)) = Some c.
Proof.
  intros H. destruct (hp_mod _ _ H) as (k & -> & Hk & Hl). rewrite land_low by done.
  apply aget_is_Some. rewrite Hl. apply Z.mod_pos_bound. lia.
Qed.

(** The node of an id is where the map says. *)
Lemma in_bucket_id hi M id i n : hash_rep hi M -> id <> -1 ->
  aget (ids hi) i = Some n -> n_id n = id -> M !! id = Some i.
Proof. intros H ? ? ?. apply (hp_map _ _ H). eauto. Qed.

Lemma lookup_loop_spec hi M fuel c l id : hash_rep hi M -> chained (ids hi) c l ->
  (length l <= fuel)%nat -> id <> -1 ->
  lookup_loop fuel (ids hi) c id =
    Some (match M !! id with Some i => if bool_decide (i ∈ l) then i else -1 | None => -1 end).
Proof.
  intros H. revert fuel c. induction l as [|i l IH]; intros fuel c; simpl.
  - intros -> _ _. destruct fuel, (M !! id); done.
  - intros (-> & n & Hn & Hc) Hf Hid. destruct fuel as [|fuel]; [simpl in Hf; lia|]. simpl. rewrite Hn.
    destruct (Z.eqb_spec (n_id n) id) as [E|E].
    + rewrite (in_bucket_id _ _ _ _ _ H Hid Hn E), bool_decide_true; [done|]. set_solver.
    + rewrite (IH _ _ Hc) by (simpl in Hf; lia || done). f_equal. destruct (M !! id) as [j|] eqn:EM; [|done].
      assert (j <> i) as Hji. { intros ->. apply (hp_map _ _ H) in EM as (_ & n' & Hn' & <-). congruence. }
      rewrite (bool_decide_ext (j ∈ i :: l) (j ∈ l)); [done|]. rewrite elem_of_cons. tauto.
Qed.

Lemma hashid_lookup_rep hi M id : hash_rep hi M -> id <> -1 ->
  hashid_lookup hi id = Some (default (-1) (M !! id)).
Proof.
  intros H Hid. unfold hashid_lookup. destruct (bucket_get hi M id H) as [c Hc]. rewrite Hc.
  destruct (hp_bucket _ _ H _ _ Hc) as (l & Hl & Hnd & Hin).
  rewrite (lookup_loop_spec _ M _ _ l) by (done || by eapply chained_length). f_equal.
  destruct (M !! id) as [i|] eqn:E; [|done]. simpl. rewrite bool_decide_true; [done|]. apply Hin.
  apply (hp_map _ _ H) in E as (? & n & Hn & <-). by exists n.
Qed.

(** ** Insertion *)

Lemma hashid_room hi M : hash_rep hi M -> Z.of_nat (size M) < cap hi ->
  exists i n, aget (ids hi) i = Some n /\ n_id n = -1.
Proof.
  intros H Hsz. destruct (decide (Exists (fun n => n_id n = -1) (ids hi))) as [Hex|Hno].
  { apply Exists_exists in Hex as (n & Hn & E). apply list_elem_of_lookup in Hn as [i Hi].
    exists (Z.of_nat i), n. by rewrite aget_nat. }
  exfalso. rewrite <- Forall_Exists_neg, Forall_lookup in Hno.
  assert (forall i n, ids hi !! i = Some n -> M !! n_id n = Some (Z.of_nat i)) as HM.
  { intros i n Hi. apply (hp_map _ _ H). split; [by eapply Hno|]. exists n. by rewrite aget_nat. }
  assert (NoDup (n_id <$> ids hi)) as Hnd.
  { apply NoDup_alt. intros i j x Hi Hj. rewrite list_lookup_fmap in Hi, Hj.
    destruct (ids hi !! i) as [n|] eqn:Ei, (ids hi !! j) as [n'|] eqn:Ej; try done.
    injection Hi as Hi. injection Hj as Hj. apply HM in Ei, Ej. rewrite Hi in Ei. rewrite Hj in Ej.
    rewrite Ei in Ej. injection Ej. lia. }
  assert (size (list_to_set (n_id <$> ids hi) : gset Z) <= size M)%nat as Hle.
  { rewrite <- size_dom. apply subseteq_size. intros x Hx.
    apply elem_of_list_to_set, list_elem_of_fmap in Hx as (n & -> & Hn).
    apply list_elem_of_lookup in Hn as [i Hi]. apply elem_of_dom. eauto. }
  rewrite size_list_to_set, length_fmap in Hle by done. destruct (hp_cap _ _ H). lia.
Qed.

Lemma insert_scan_spec hi M id n i : hash_rep hi M -> 0 <= id -> 0 <= i ->
  i + Z.of_nat n <= cap hi -> id + cap hi <= 2 ^ 31 ->
  (exists c nd, insert_scan n i hi id = Some (Some c) /\ aget (ids hi) c = Some nd /\ n_id nd = -1) \/
  (insert_scan n i hi id = Some None /\ forall j nd, i <= j < i + Z.of_nat n ->
     aget (ids hi) ((j + id) mod cap hi) = Some nd -> n_id nd <> -1).
Proof.
  intros H Hid. destruct (hp_cap _ _ H) as [Hl Hc]. revert i. induction n as [|n IH]; intros i Hi Hn Hov; simpl.
  { right. split; [done|]. intros j. lia. }
  destruct (Z.leb_spec (i + id) INT_MAX) as [_|Hbad]; [|unfold INT_MAX in Hbad; lia].
  rewrite Z.rem_mod_nonneg by lia.
  destruct (aget_is_Some (ids hi) ((i + id) mod cap hi)) as [nd Hnd].
  { rewrite Hl. apply Z.mod_pos_bound. lia. }
  rewrite Hnd. destruct (Z.eqb_spec (n_id nd) (-1)) as [E|E]; [left; by eexists _, _|].
  destruct (IH (i + 1)) as [Hs|[-> Hall]]; [lia..|by left|]. right. split; [done|].
  intros j nd' Hj Hnd'. destruct (decide (j = i)) as [->|]; [congruence|]. apply (Hall j nd'); [lia|done].
Qed.

(** [hashid_insert] puts a new id in a free slot and finds it there afterwards. *)
Lemma hashid_insert_rep hi M id : hash_rep hi M -> 0 <= id -> id + cap hi <= 2 ^ 31 ->
  M !! id = None -> Z.of_nat (size M) < cap hi ->
  exists c hi', hashid_insert hi id = Some (c, hi') /\ 0 <= c < cap hi /\
    (forall x, M !! x <> Some c) /\ cap hi' = cap hi /\ hash_rep hi' (<[id := c]> M).
Proof.
  intros H Hid Hov HM Hsz. destruct (hp_cap _ _ H) as [Hlen Hcap]. unfold hashid_insert.
  destruct (insert_scan_spec hi M id (Z.to_nat (cap hi)) 0 H Hid) as [(c & nd & -> & Hc & Efree)|[_ Hall]]; [lia..| |].
  2:{ exfalso. destruct (hashid_room hi M H Hsz) as (i & nd & Hi & E).
      apply (Hall ((i - id) mod cap hi) nd).
      - pose proof (Z.mod_pos_bound (i - id) (cap hi)). lia.
      - rewrite Zplus_mod_idemp_l. replace (i - id + id) with i by lia.
        rewrite Z.mod_small; [done|]. rewrite <- Hlen. by eapply aget_lt.
      - done. }
  rewrite Hc, (hp_free _ _ H _ _ Hc Efree), bool_decide_true by done.
  destruct (bucket_get hi M id H) as [first Hf]. rewrite Hf. set (h := Z.land id (hashmod hi)) in *.
  destruct (aset (ids hi) c (MkHNode id first)) as [nodes|] eqn:En;
    [|rewrite aset_Some in En by (by eapply aget_lt); done].
  destruct (aset (hash hi) h (Some c)) as [hs|] eqn:Eh;
    [|rewrite aset_Some in Eh by (by eapply aget_lt); done].
  pose proof (fun i => aget_aset _ _ _ _ i En) as Hn. pose proof (fun i => aget_aset _ _ _ _ i Eh) as Hh.
  exists c. eexists. split; [done|]. split; [rewrite <- Hlen; by eapply aget_lt|]. split.
  { intros x (? & n & Hx & <-)%(hp_map _ _ H). congruence. }
  split; [done|]. split; simpl.
  - rewrite (aset_length _ _ _ _ Eh). apply H.
  - rewrite (aset_length _ _ _ _ En). done.
  - rewrite map_size_insert_None, (hp_count _ _ H) by done. lia.
  - assert (forall h' i, in_bucket (MkHashid (hashmod hi) (cap hi) (count hi + 1) nodes hs) h' i <->
      (i = c /\ h' = h) \/ in_bucket hi h' i) as Hib.
    { intros h' i. unfold in_bucket. simpl. rewrite Hn. destruct (Z.eqb_spec i c) as [->|].
      - split; [intros (n & [= <-] & _ & <-); by left|].
        intros [[_ ->]|(n & Hn' & ? & _)]; [|congruence].
        exists (MkHNode id first). simpl. split_and!; [done|lia|done].
      - split; [eauto|]. intros [[? _]|?]; done. }
    intros h' c' Hc'. rewrite Hh in Hc'. setoid_rewrite Hib. destruct (Z.eqb_spec h' h) as [->|Hne].
    + injection Hc' as <-. destruct (hp_bucket _ _ H _ _ Hf) as (l & Hl & Hnd & Hin). exists (c :: l).
      assert (c ∉ l) as Hcl. { rewrite Hin. intros (n & Hn' & ? & _). congruence. }
      split; [|split; [by constructor|]].
      * split; [done|]. eexists. rewrite Hn, Z.eqb_refl. split; [done|]. simpl.
        eapply chained_frame; [exact Hl|]. intros i Hi. rewrite Hn. destruct (Z.eqb_spec i c); [by subst|done].
      * intros i. rewrite elem_of_cons, Hin. naive_solver.
    + destruct (hp_bucket _ _ H _ _ Hc') as (l & Hl & Hnd & Hin). exists l. split; [|split; [done|]].
      * eapply chained_frame; [exact Hl|]. intros i (n & Hn' & ? & _)%Hin. rewrite Hn.
        destruct (Z.eqb_spec i c); [subst; congruence|done].
      * intros i. rewrite Hin. naive_solver.
  - intros i n. rewrite Hn. destruct (Z.eqb_spec i c); [intros [= <-]; simpl; lia|]. apply H.
  - intros x i. rewrite lookup_insert, Hn. case_decide as Ex; [subst x|].
    + split; [intros [= <-]; rewrite Z.eqb_refl; split; [lia|by eexists]|].
      intros (_ & n & Hi & E). destruct (Z.eqb_spec i c); [by subst|].
      assert (id <> -1) as Hid' by lia. rewrite (in_bucket_id _ _ _ _ _ H Hid' Hi E) in HM. done.
    + rewrite (hp_map _ _ H). destruct (Z.eqb_spec i c) as [->|]; [|done].
      split; [intros (? & n & Hi & <-); congruence|]. intros (_ & n & [= <-] & E). done.
Qed.

(** ** Removal *)

(** The nodes keep their ids; those outside [l] and the node [d] keep everything. *)
Definition relinked (nodes nodes' : list hashid_node) (l : list Z) (d : Z) : Prop :=
  length nodes' = length nodes /\
  (forall i, n_id <$> aget nodes' i = n_id <$> aget nodes i) /\
  (forall i, i ∉ l \/ i = d -> aget nodes' i = aget nodes i).

Lemma unlink_loop_spec fuel nodes c l id : chained nodes (Some c) (c :: l) -> NoDup (c :: l) ->
  (length l <= fuel)%nat ->
  (exists d l1 l2 nodes' nd, l = l1 ++ d :: l2 /\ aget nodes d = Some nd /\ n_id nd = id /\
     unlink_loop fuel nodes c id = Some (Some (d, nodes')) /\
     chained nodes' (Some c) (c :: l1 ++ l2) /\ relinked nodes nodes' (c :: l) d) \/
  (unlink_loop fuel nodes c id = Some None /\ forall i n, i ∈ l -> aget nodes i = Some n -> n_id n <> id).
Proof.
  revert fuel c. induction l as [|d l IH]; intros fuel c (_ & n & Hn & Hc) Hnd Hf.
  { right. simpl in Hc. destruct fuel; simpl; rewrite Hn, Hc; (split; [done|set_solver]). }
  destruct fuel as [|fuel]; [simpl in Hf; lia|]. pose proof Hc as (Enx & t & Ht & Hct).
  apply NoDup_cons in Hnd as [Hcl Hnd]. cbn [unlink_loop]. rewrite Hn, Enx, Ht.
  destruct (Z.eqb_spec (n_id t) id) as [E|E].
  - left. destruct (aset nodes c (MkHNode (n_id n) (n_next t))) as [nodes'|] eqn:Es;
      [|rewrite aset_Some in Es by (by eapply aget_lt); done].
    pose proof (fun i => aget_aset _ _ _ _ i Es) as Hs.
    exists d, [], l, nodes', t. unfold relinked. split_and!; try done.
    + split; [done|]. eexists. rewrite Hs, Z.eqb_refl. split; [done|]. simpl.
      eapply chained_frame; [exact Hct|]. intros i Hi. rewrite Hs.
      destruct (Z.eqb_spec i c) as [->|]; [|done]. destruct Hcl. by right.
    + by apply aset_length in Es.
    + intros i. rewrite Hs. destruct (Z.eqb_spec i c) as [->|]; [|done]. by rewrite Hn.
    + intros i Hi. rewrite Hs. destruct (Z.eqb_spec i c) as [->|]; [|done].
      destruct Hi as [Hi|<-]; [destruct Hi|destruct Hcl]; by left.
  - rewrite Enx in Hc. destruct (IH fuel d Hc Hnd) as [(d' & l1 & l2 & nodes' & nd & -> & Hd' & Eid & -> & Hch & Hlen & Hids & Hrest)|[-> Hall]];
      [simpl in Hf; lia| |].
    + left. exists d', (d :: l1), l2, nodes', nd. unfold relinked. split_and!; try done.
      * split; [done|]. exists n. rewrite Hrest; [rewrite Hn; split; [done|]; by rewrite Enx|by left].
      * intros i [Hi|Hi]; apply Hrest; [left|by right]. intros Hi'. apply Hi. by right.
    + right. split; [done|]. intros i n' [->|Hi]%elem_of_cons Hn'; [congruence|by eapply Hall].
Qed.

(** Clearing a node that has been unlinked from its bucket. *)
Lemma clear_node_rep hi M id c c' nodes hs l1 d l2 nd :
  let h := Z.land id (hashmod hi) in
  hash_rep hi M -> id <> -1 ->
  chained (ids hi) c (l1 ++ d :: l2) -> NoDup (l1 ++ d :: l2) ->
  (forall i, i ∈ l1 ++ d :: l2 <-> in_bucket hi h i) ->
  aget (ids hi) d = Some nd -> n_id nd = id ->
  relinked (ids hi) nodes (l1 ++ d :: l2) d -> chained nodes c' (l1 ++ l2) ->
  length hs = length (hash hi) ->
  (forall h', aget hs h' = if h' =? h then Some c' else aget (hash hi) h') ->
  exists hi', clear_node hi nodes hs d = Some (d, hi') /\ cap hi' = cap hi /\ hash_rep hi' (delete id M).
Proof.
  intros h H Hid Hl Hnd Hin Hd Eid (Hlen & Hids & Hrest) Hl' Hlh Hhs. unfold clear_node.
  destruct (aset nodes d (MkHNode (-1) None)) as [nodes'|] eqn:En;
    [|rewrite aset_Some in En by (rewrite Hlen; by eapply aget_lt); done].
  eexists. split; [done|]. split; [done|]. pose proof (fun i => aget_aset _ _ _ _ i En) as Hn.
  assert (M !! id = Some d) as HM by (by eapply in_bucket_id).
  (* away from [d] the ids are those of [hi] *)
  assert (Hsame : forall (Q : Z -> Prop) i, i <> d ->
    (exists n, aget nodes' i = Some n /\ Q (n_id n)) <-> (exists n, aget (ids hi) i = Some n /\ Q (n_id n))).
  { intros Q i Hi. rewrite Hn. destruct (Z.eqb_spec i d); [done|]. specialize (Hids i).
    destruct (aget nodes i), (aget (ids hi) i); simpl in Hids; try done.
    injection Hids as E. split; intros (? & [= <-] & HQ); eexists; (split; [done|]); congruence. }
  assert (Hib : forall h' i, in_bucket (MkHashid (hashmod hi) (cap hi) (count hi - 1) nodes' hs) h' i <->
    i <> d /\ in_bucket hi h' i).
  { intros h' i. unfold in_bucket. simpl. destruct (decide (i = d)) as [->|Hi].
    - rewrite Hn, Z.eqb_refl. split; [intros (n & [= <-] & ? & _); done | tauto].
    - rewrite (Hsame (fun x => x <> -1 /\ Z.land x (hashmod hi) = h') i Hi). tauto. }
  apply NoDup_app in Hnd as (Hnd1 & Hdisj & [Hd2 Hnd2]%NoDup_cons).
  assert (d ∉ l1 ++ l2) as Hdl. { rewrite elem_of_app. intros [Hx|Hx]; [|done]. apply (Hdisj d Hx). by left. }
  split; simpl.
  - rewrite Hlh. apply H.
  - rewrite (aset_length _ _ _ _ En), Hlen. apply H.
  - rewrite map_size_delete_Some, (hp_count _ _ H) by (by eexists).
    assert (size M <> 0)%nat; [|lia]. intros E%map_size_empty_inv. by rewrite E in HM.
  - intros h' x Hx. rewrite Hhs in Hx. setoid_rewrite Hib. destruct (Z.eqb_spec h' h) as [->|Hne].
    + injection Hx as <-. exists (l1 ++ l2). split_and!.
      * eapply chained_frame; [exact Hl'|]. intros i Hi. rewrite Hn.
        destruct (Z.eqb_spec i d); [subst; done|done].
      * apply NoDup_app. split_and!; try done. intros i Hi1 Hi2. apply (Hdisj i Hi1). by right.
      * intros i. rewrite <- Hin, !elem_of_app, elem_of_cons. rewrite elem_of_app in Hdl. naive_solver.
    + destruct (hp_bucket _ _ H _ _ Hx) as (l & Hlc & Hlnd & Hlin). exists l.
      assert (forall i, i ∈ l -> i ∉ l1 ++ d :: l2) as Hout.
      { intros i (n & Hi & _ & <-)%Hlin (n' & Hi' & _ & ?)%Hin. congruence. }
      split_and!; [|done|].
      * eapply chained_frame; [exact Hlc|]. intros i Hi. rewrite Hn. specialize (Hout i Hi).
        destruct (Z.eqb_spec i d) as [->|]; [set_solver|]. apply Hrest. by left.
      * intros i. rewrite Hlin. split; [|tauto]. intros Hi. split; [|done]. intros ->.
        apply Hlin in Hi. apply (Hout d Hi). set_solver.
  - intros i n. rewrite Hn. destruct (Z.eqb_spec i d); [by intros [= <-]|]. intros Hi E.
    assert (i ∉ l1 ++ d :: l2) as Hout.
    { intros (n' & Hi' & ? & _)%Hin. specialize (Hids i). rewrite Hi, Hi' in Hids. simpl in Hids. congruence. }
    rewrite Hrest in Hi by (by left). by apply (hp_free _ _ H _ _ Hi).
  - intros x i. rewrite lookup_delete_Some, (hp_map _ _ H). destruct (decide (i = d)) as [->|Hi].
    + rewrite Hn, Z.eqb_refl. split; [|by intros (? & n & [= <-] & <-)].
      intros (Hne & _ & n & Hx & <-). congruence.
    + rewrite (Hsame (fun y => y = x) i Hi). split; [tauto|]. intros (Hx & n & Hi' & E). split_and!; eauto.
      intros ->. rewrite (in_bucket_id _ _ _ _ _ H Hid Hi' E) in HM. congruence.
Qed.

Lemma hashid_remove_rep hi M id : hash_rep hi M -> id <> -1 ->
  match M !! id with
  | Some d => exists hi', hashid_remove hi id = Some (d, hi') /\ cap hi' = cap hi /\ hash_rep hi' (delete id M)
  | None => hashid_remove hi id = Some (-1, hi)
  end.
Proof.
  intros H Hid. unfold hashid_remove. destruct (bucket_get hi M id H) as [c Hc]. rewrite Hc.
  destruct (hp_bucket _ _ H _ _ Hc) as (l & Hl & Hnd & Hin).
  assert (forall d, M !! id = Some d -> d ∈ l) as HM.
  { intros d (_ & n & Hd & <-)%(hp_map _ _ H). apply Hin. by exists n. }
  destruct l as [|c0 l]; simpl in Hl.
  { rewrite Hl. destruct (M !! id) as [d|]; [|done]. specialize (HM d eq_refl). set_solver. }
  destruct Hl as (-> & n & Hn & Hl). rewrite Hn. destruct (Z.eqb_spec (n_id n) id) as [E|E].
  - rewrite (in_bucket_id _ _ _ _ _ H Hid Hn E).
    destruct (aset (hash hi) (Z.land id (hashmod hi)) (n_next n)) as [hs|] eqn:Eh;
      [|rewrite aset_Some in Eh by (by eapply aget_lt); done].
    eapply (clear_node_rep hi M id (Some c0) (n_next n) (ids hi) hs [] c0 l n); try done.
    + split; [done|]. by exists n.
    + by apply aset_length in Eh.
    + intros h'. by rewrite (aget_aset _ _ _ _ h' Eh).
  - destruct (unlink_loop_spec (length (ids hi)) (ids hi) c0 l id)
      as [(d & l1 & l2 & nodes & nd & -> & Hd & Eid & -> & Hch & Hrel)|[-> Hall]].
    + split; [done|]. by exists n.
    + done.
    + assert (chained (ids hi) (Some c0) (c0 :: l)) as Hch by (split; [done|]; by exists n).
      pose proof (chained_length _ _ _ Hch Hnd). simpl in *. lia.
    + rewrite (in_bucket_id _ _ _ _ _ H Hid Hd Eid).
      eapply (clear_node_rep hi M id (Some c0) (Some c0) nodes (hash hi) (c0 :: l1) d l2 nd); try done.
      * split; [done|]. by exists n.
      * intros h'. destruct (Z.eqb_spec h' (Z.land id (hashmod hi))); by subst.
    + destruct (M !! id) as [d|] eqn:EM; [|done]. exfalso. pose proof (HM d eq_refl) as Hdl.
      apply (hp_map _ _ H) in EM as (_ & nd & Hd & Eid).
      apply elem_of_cons in Hdl as [->|Hdl]; [congruence|]. by apply (Hall d nd).
Qed.

(** ** Initialisation *)

Lemma hashcap_loop_spec fuel j max : 0 <= j -> max <= 2 ^ (j + Z.of_nat fuel) ->
  exists k, hashcap_loop fuel (2 ^ j) max = Some (2 ^ k) /\ 0 <= k.
Proof.
  revert j. induction fuel as [|fuel IH]; intros j Hj Hmax; simpl; destruct (Z.ltb_spec (2 ^ j) max); eauto.
  - rewrite Z.add_0_r in Hmax. lia.
  - replace (2 ^ j * 2) with (2 ^ (j + 1)) by (rewrite Z.pow_add_r; lia). apply IH; [lia|].
    replace (j + 1 + Z.of_nat fuel) with (j + Z.of_nat (S fuel)) by lia. done.
Qed.

Lemma hashid_init_rep max : 0 < max <= 2 ^ 30 ->
  exists hi, hashid_init max = Some hi /\ cap hi = max /\ hash_rep hi ∅.
Proof.
  intros Hmax. unfold hashid_init. destruct (hashcap_loop_spec 26 4 max) as (k & Hk & Hk0); [lia|zlia|].
  change (2 ^ 4) with 16 in Hk. rewrite Hk. eexists. split; [done|]. split; [done|].
  assert (forall i n, aget (replicate (Z.to_nat max) (MkHNode (-1) None)) i = Some n -> n = MkHNode (-1) None) as Hn.
  { intros i n [_ Hi]%aget_Some. by apply lookup_replicate in Hi as [? _]. }
  split; cbn [hashmod cap count ids hash].
  - exists k. rewrite length_replicate. split_and!; lia.
  - rewrite length_replicate. lia.
  - done.
  - intros h c [_ Hc]%aget_Some. apply lookup_replicate in Hc as [-> _]. exists [].
    split_and!; [done|constructor|]. intros i. split; [set_solver|].
    intros (n & Hi & ? & _). apply Hn in Hi as ->. done.
  - by intros i n ->%Hn.
  - intros x i. rewrite lookup_empty. split; [done|]. by intros (Hx & n & ->%Hn & <-).
Qed.

Lemma hash_rep_size hi M : hash_rep hi M -> Z.of_nat (size M) <= cap hi.
Proof.
  intros H. destruct (hp_cap _ _ H) as [Hl Hc].
  assert (NoDup (map_to_list M).*2) as Hnd.
  { apply NoDup_fmap_2_strong; [|apply NoDup_map_to_list]. intros [x i] [y j] Hx Hy E. simpl in E. subst j.
    apply elem_of_map_to_list in Hx, Hy. apply (hp_map _ _ H) in Hx as (_ & n & Hn & <-), Hy as (_ & n' & Hn' & <-).
    congruence. }
  assert ((map_to_list M).*2 ⊆ seqZ 0 (cap hi)) as Hsub.
  { intros i ([x j] & -> & Hx%elem_of_map_to_list)%list_elem_of_fmap. simpl.
    apply (hp_map _ _ H) in Hx as (_ & n & Hn%aget_lt & _). apply elem_of_seqZ. lia. }
  pose proof (submseteq_length _ _ (NoDup_submseteq _ _ Hnd Hsub)) as Hle.
  rewrite length_seqZ, length_fmap, length_map_to_list in Hle. lia.
Qed.

(** The id table refines a finite map from ids to distinct slots: lookup finds
    the slot of an id or -1, removal frees it, and insertion, which never fails on a
    table that is not full, puts a new id in a slot no other id has. *)
Theorem hashid_refines_map hi M id : hash_rep hi M -> 0 <= id -> id + cap hi <= 2 ^ 31 ->
  hashid_lookup hi id = Some (default (-1) (M !! id)) /\
  (hashid_full hi = true <-> Z.of_nat (size M) = cap hi) /\
  match M !! id with
  | Some d => 0 <= d < cap hi /\
      exists hi', hashid_remove hi id = Some (d, hi') /\ cap hi' = cap hi /\ hash_rep hi' (delete id M)
  | None => hashid_remove hi id = Some (-1, hi) /\
      (hashid_full hi = false ->
       exists c hi', hashid_insert hi id = Some (c, hi') /\ 0 <= c < cap hi /\
         (forall x, M !! x <> Some c) /\ cap hi' = cap hi /\ hash_rep hi' (<[id := c]> M))
  end.
Proof.
  intros H Hid Hov. pose proof (hash_rep_size _ _ H) as Hsz. unfold hashid_full. rewrite (hp_count _ _ H).
  split; [apply hashid_lookup_rep; [done|lia]|]. split; [by rewrite Z.eqb_eq|].
  pose proof (hashid_remove_rep hi M id H ltac:(lia)) as Hrem. destruct (M !! id) as [d|] eqn:E.
  - split; [|done]. apply (hp_map _ _ H) in E as (_ & n & Hn%aget_lt & _). destruct (hp_cap _ _ H). lia.
  - split; [done|]. intros Hne%Z.eqb_neq. apply hashid_insert_rep; try done. lia.
Qed.

Lemma hashid_refines_map_witness :
  exists hi c hi', hashid_init 3 = Some hi /\ hashid_insert hi 7 = Some (c, hi') /\
    0 <= c < 3 /\ hash_rep hi' {[7 := c]}.
Proof.
  destruct (hashid_init_rep 3) as (hi & H1 & H2 & H3); [lia|].
  destruct (hashid_refines_map hi ∅ 7) as (_ & _ & _ & H4); [exact H3 | lia | rewrite H2; lia |].
  destruct H4 as (c & hi' & H4 & H5 & _ & _ & H6).
  - injection H1 as <-. reflexivity.
  - exists hi, c, hi'. rewrite H2 in H5. split; [exact H1|]. split; [exact H4|]. split; [exact H5 | exact H6].
Defined.
