(* ===== verification/Framing.v ===== *)
(** * Length-prefixed messages

    The wire format the gate service and [netpack] share: a message is preceded
    by its length in two or four bytes, big-endian. *)

From S2P Require Import Prelude.

(** The big-endian length header of a peer. *)
Definition encode_header (hs n : Z) : list Z :=
  if hs =? 2 then [n / 2 ^ 8; n mod 2 ^ 8]
  else [n / 2 ^ 24; n / 2 ^ 16 mod 2 ^ 8; n / 2 ^ 8 mod 2 ^ 8; n mod 2 ^ 8].

Definition encode (hs : Z) (msg : list Z) : list Z :=
  encode_header hs (Z.of_nat (length msg)) ++ msg.

(** The lengths a peer may send: two bytes hold less than [2 ^ 16], and the gate
    refuses [2 ^ 24] and more. *)
Definition length_ok (hs n : Z) : Prop := 0 <= n < (if hs =? 2 then 2 ^ 16 else 2 ^ 24).

Definition frame_ok (hs : Z) (msg : list Z) : Prop := length_ok hs (Z.of_nat (length msg)).

Definition style (hs : Z) : Prop := hs = 2 \/ hs = 4.

Lemma encode_header_length hs n : style hs -> Z.of_nat (length (encode_header hs n)) = hs.
Proof. by intros [-> | ->]. Qed.

Lemma lor_high a b k n : n = k + 8 -> 0 <= k -> 0 <= b < 2 ^ 8 ->
  Z.lor (Z.shiftl a n) (Z.shiftl b k) = Z.shiftl (a * 2 ^ 8 + b) k.
Proof.
  intros -> Hk Hb. rewrite !Z.shiftl_mul_pow2 by lia. rewrite Z.pow_add_r by lia.
  replace (a * (2 ^ k * 2 ^ 8)) with (Z.shiftl (a * 2 ^ 8) k) by (rewrite Z.shiftl_mul_pow2; lia).
  replace (b * 2 ^ k) with (Z.shiftl b k) by (rewrite Z.shiftl_mul_pow2; lia).
  rewrite <- Z.shiftl_lor, Z.lor_comm, lor_fields by lia. rewrite Z.shiftl_mul_pow2 by lia. f_equal. lia.
Qed.

