(* ===== verification/Gate.v ===== *)
(** * The gate service ([service-src/service_gate.c])

    Accepts connections, cuts their byte streams into messages and forwards
    them.  What the gate asks of the rest of the system (sending, the socket
    calls, the log) is returned as a list of actions, in order. *)

From S2P Require Import Prelude Message CString DataBuffer HashId.

Definition BACKLOG : Z := 32.

Record connection := MkConn {
  c_id : Z;
  agent : Z;
  client : Z;
  remote_name : list Z;
  buffer : databuffer;
}.

Record gate := MkGate {
  listen_id : Z;
  watchdog : Z;
  broker : Z;
  client_tag : Z;
  header_size : Z;
  max_connection : Z;
  ghash : hashid;
  conn : list connection;
  mp : messagepool;
}.

(** [skynet_send], [skynet_socket_close], [skynet_socket_start], [skynet_socket_send],
    [skynet_error]. *)
Inductive action :=
  | ASend (source dest type session : Z) (msg : list Z)
  | AClose (id : Z)
  | AStart (id : Z)
  | ASockSend (id : Z) (msg : list Z)
  | AError (text : string).

Record skynet_socket_message := MkSockMsg {
  sm_type : Z;
  sm_id : Z;
  sm_ud : Z;
  sm_buffer : list Z;
}.

Definition empty_hashid : hashid := MkHashid 0 0 0 [] [].
Definition zero_conn : connection := MkConn 0 0 0 [] databuffer_zero.
Definition free_conn : connection := MkConn (-1) 0 0 [] databuffer_zero.

Definition gate_create : gate := MkGate (-1) 0 0 0 0 0 empty_hashid [] messagepool_zero.

Definition set_conn (g : gate) (cs : list connection) (p : messagepool) : gate :=
  MkGate (listen_id g) (watchdog g) (broker g) (client_tag g) (header_size g)
    (max_connection g) (ghash g) cs p.
Definition set_hash (g : gate) (hi : hashid) : gate :=
  MkGate (listen_id g) (watchdog g) (broker g) (client_tag g) (header_size g)
    (max_connection g) hi (conn g) (mp g).
Definition set_listen (g : gate) (id : Z) : gate :=
  MkGate id (watchdog g) (broker g) (client_tag g) (header_size g)
    (max_connection g) (ghash g) (conn g) (mp g).
Definition set_broker (g : gate) (b : Z) : gate :=
  MkGate (listen_id g) (watchdog g) b (client_tag g) (header_size g)
    (max_connection g) (ghash g) (conn g) (mp g).
Definition set_buffer (c : connection) (db : databuffer) : connection :=
  MkConn (c_id c) (agent c) (client c) (remote_name c) db.

(** The sockets [gate_release] closes; the memory is then freed. *)
Definition gate_release (g : gate) : list action :=
  (AClose <$> filter (fun id => 0 <= id) (c_id <$> conn g)) ++
  (if 0 <=? listen_id g then [AClose (listen_id g)] else []).

(** [while (command_sz < sz)] of [_parm]. *)
Fixpoint parm_skip (n : nat) (msg : list Z) (sz command_sz : Z) : option Z :=
  match n with
  | O => Some command_sz
  | S n =>
      if command_sz <? sz then
        let! b := aget msg command_sz in
        if negb (b =? 32) then Some command_sz else parm_skip n msg sz (command_sz + 1)
      else Some command_sz
  end.

(** Moves the text after the command to the front of the array. *)
Definition _parm (msg : list Z) (sz command_sz : Z) : option (list Z) :=
  let! k := parm_skip (Z.to_nat sz) msg sz command_sz in
  let! msg := for_loop (Z.to_nat (sz - k)) k
      (fun i a => let! b := aget a i in aset a (i - k) b) msg in
  aset msg (sz - k) 0.

Definition _forward_agent (g : gate) (fd agentaddr clientaddr : Z) : option gate :=
  let! id := hashid_lookup (ghash g) fd in
  if 0 <=? id then
    let! c := aget (conn g) id in
    let! cs := aset (conn g) id (MkConn (c_id c) agentaddr clientaddr (remote_name c) (buffer c)) in
    Some (set_conn g cs (mp g))
  else Some g.

(** [for (i=0;i<sz;i++) if (command[i]==' ') break;]. *)
Fixpoint command_len (l : list Z) : Z :=
  match l with
  | [] => 0
  | b :: l => if b =? 32 then 0 else 1 + command_len l
  end.

(** [strsep(&p, sep)] for the separator [' ']: the array with the separator
    cut, and the new value of [p], [None] for [NULL]. *)
Definition strsep (a : list Z) (p : Z) : option (list Z * option Z) :=
  let! s := cstr a p in
  let k := command_len s in
  if k <? Z.of_nat (length s) then
    let! a := aset a (p + k) 0 in
    Some (a, Some (p + k + 1))
  else Some (a, None).

Section Gate.
(** [skynet_queryname] and [skynet_socket_listen] of the system. *)
Context (skynet_queryname : list Z -> Z) (skynet_socket_listen : list Z -> Z -> Z -> Z).

(** The [kick] and [start] commands act on a connection the gate knows. *)
Definition ctrl_known (g : gate) (tmp : list Z) (act : Z -> action) : option (gate * list action) :=
  let! s := cstr tmp 0 in
  let uid := i32 (strtol10 s) in
  let! id := hashid_lookup (ghash g) uid in
  Some (g, if 0 <=? id then [act uid] else []).

Definition ctrl_forward (g : gate) (tmp : list Z) : option (gate * list action) :=
  let! (tmp, cl) := strsep tmp 0 in
  match cl with
  | None => Some (g, [])
  | Some ag =>
      let! idstr := cstr tmp 0 in
      let id := i32 (strtol10 idstr) in
      let! (tmp, cl) := strsep tmp ag in
      match cl with
      | None => Some (g, [])
      | Some cl =>
          let! a := cstr tmp (ag + 1) in
          let! c := cstr tmp (cl + 1) in
          let! g := _forward_agent g id (u32 (strtoul16 a)) (u32 (strtoul16 c)) in
          Some (g, [])
      end
  end.

Definition _ctrl (g : gate) (msg : list Z) : option (gate * list action) :=
  let sz := Z.of_nat (length msg) in
  let tmp := msg ++ [0] in
  if sz =? 0 then Some (g, [])
  else
    let i := command_len msg in
    let command := fun lit => memcmp_eq tmp (str lit ++ [0]) (Z.to_nat i) in
    let! kick := command "kick"%string in
    if kick : bool then let! tmp := _parm tmp sz i in ctrl_known g tmp AClose else
    let! forward := command "forward"%string in
    if forward : bool then let! tmp := _parm tmp sz i in ctrl_forward g tmp else
    let! brok := command "broker"%string in
    if brok : bool then
      let! tmp := _parm tmp sz i in
      let! s := cstr tmp 0 in
      Some (set_broker g (skynet_queryname s), [])
    else
    let! start := command "start"%string in
    if start : bool then let! tmp := _parm tmp sz i in ctrl_known g tmp AStart else
    let! close := command "close"%string in
    if close : bool then
      if 0 <=? listen_id g then Some (set_listen g (-1), [AClose (listen_id g)]) else Some (g, [])
    else Some (g, [AError "[gate] Unkown command"]).

Definition _report (g : gate) (text : list Z) : list action :=
  if watchdog g =? 0 then []
  else [ASend 0 (watchdog g) PTYPE_TEXT 0 (snprintf 1024 text)].

(** Reads a message off the buffer of a connection and sends it on; with no
    broker, agent or watchdog nothing is read. *)
Definition _forward (g : gate) (c : connection) (size : Z)
  : option (connection * messagepool * list action) :=
  if negb (broker g =? 0) then
    let! (temp, db, p) := databuffer_read (buffer c) (mp g) size in
    Some (set_buffer c db, p, [ASend 0 (broker g) (Z.lor (client_tag g) PTYPE_TAG_DONTCOPY) 1 temp])
  else if negb (agent c =? 0) then
    let! (temp, db, p) := databuffer_read (buffer c) (mp g) size in
    Some (set_buffer c db, p, [ASend (client c) (agent c) (Z.lor (client_tag g) PTYPE_TAG_DONTCOPY) 1 temp])
  else if negb (watchdog g =? 0) then
    let tmp := snprintf 32 (decimal (c_id c) ++ str " data ") in
    let! (temp, db, p) := databuffer_read (buffer c) (mp g) size in
    Some (set_buffer c db, p, [ASend 0 (watchdog g) (Z.lor PTYPE_TEXT PTYPE_TAG_DONTCOPY) 1 (tmp ++ temp)])
  else Some (c, mp g, []).

(** The [for (;;)] loop of [dispatch_message]. *)
Fixpoint dispatch_loop (fuel : nat) (g : gate) (c : connection) (id : Z)
  : option (connection * messagepool * list action) :=
  match fuel with
  | O => None
  | S fuel =>
      let! (size, db, p) := databuffer_readheader (buffer c) (mp g) (header_size g) in
      let c := set_buffer c db in
      let g := set_conn g (conn g) p in
      if size <? 0 then Some (c, mp g, [])
      else if 0 <? size then
        if 0x1000000 <=? size then
          let '(db, p) := databuffer_clear (buffer c) (mp g) in
          Some (set_buffer c db, p, [AClose id; AError "Recv socket message > 16M"])
        else
          let! (c, p, acts) := _forward g c size in
          let c := set_buffer c (databuffer_reset (buffer c)) in
          let! (c, p, rest) := dispatch_loop fuel (set_conn g (conn g) p) c id in
          Some (c, p, acts ++ rest)
      else dispatch_loop fuel g c id
  end.

(** Each round but the last takes bytes off the buffer, or resets the header first. *)
Definition dispatch_message (g : gate) (c : connection) (id : Z) (data : list Z)
  : option (connection * messagepool * list action) :=
  let '(db, p) := databuffer_push (buffer c) (mp g) data in
  dispatch_loop (S (S (2 * Z.to_nat (db_size db)))) (set_conn g (conn g) p) (set_buffer c db) id.

(** [text] is the address text behind an accept message; [sz] bytes of it. *)
Definition dispatch_socket_message (g : gate) (m : skynet_socket_message) (text : list Z)
  : option (gate * list action) :=
  if sm_type m =? SKYNET_SOCKET_TYPE_DATA then
    let! id := hashid_lookup (ghash g) (sm_id m) in
    if 0 <=? id then
      let! c := aget (conn g) id in
      let! (c, p, acts) := dispatch_message g c (sm_id m) (sm_buffer m) in
      let! cs := aset (conn g) id c in
      Some (set_conn g cs p, acts)
    else Some (g, [AError "Drop unknown connection"; AClose (sm_id m)])
  else if sm_type m =? SKYNET_SOCKET_TYPE_CONNECT then
    if sm_id m =? listen_id g then Some (g, [])
    else
      let! id := hashid_lookup (ghash g) (sm_id m) in
      Some (g, if id <? 0 then [AError "Close unknown connection"; AClose (sm_id m)] else [])
  else if (sm_type m =? SKYNET_SOCKET_TYPE_CLOSE) || (sm_type m =? SKYNET_SOCKET_TYPE_ERROR) then
    let! (id, hi) := hashid_remove (ghash g) (sm_id m) in
    if 0 <=? id then
      let! c := aget (conn g) id in
      let '(_, p) := databuffer_clear (buffer c) (mp g) in
      let! cs := aset (conn g) id free_conn in
      let g := set_conn (set_hash g hi) cs p in
      Some (g, _report g (decimal (sm_id m) ++ str " close"))
    else Some (set_hash g hi, [])
  else if sm_type m =? SKYNET_SOCKET_TYPE_ACCEPT then
    assert! (listen_id g =? sm_id m) ;;
    if hashid_full (ghash g) then Some (g, [AClose (sm_ud m)])
    else
      let! (k, hi) := hashid_insert (ghash g) (sm_ud m) in
      let! c := aget (conn g) k in
      let name := take 31 text in
      let c := MkConn (sm_ud m) (agent c) (client c) name (buffer c) in
      let! cs := aset (conn g) k c in
      let g := set_conn (set_hash g hi) cs (mp g) in
      Some (g, _report g (decimal (c_id c) ++ str " open " ++ decimal (c_id c) ++ str " " ++
                          default name (until_nul name) ++ str ":0") ++
               [AError "socket open"])
  else if sm_type m =? SKYNET_SOCKET_TYPE_WARNING then Some (g, [AError "fd send buffer"])
  else Some (g, []).

(** The id in the last four bytes of a client message. *)
Definition client_uid (msg : list Z) : Z :=
  let b := fun i => nth (length msg - 4 + i) msg 0 in
  u32 (Z.lor (Z.lor (Z.lor (b 0%nat) (Z.shiftl (b 1%nat) 8)) (Z.shiftl (b 2%nat) 16)) (Z.shiftl (b 3%nat) 24)).

(** The payload of a message to the gate: raw bytes, or a socket message with its text. *)
Inductive gate_msg := Raw (bytes : list Z) | Socket (m : skynet_socket_message) (text : list Z).

(** The callback: its result, 1 when the message must not be freed. *)
Definition _cb (g : gate) (type : Z) (msg : gate_msg) : option (Z * gate * list action) :=
  match msg with
  | Raw bytes =>
      if type =? PTYPE_TEXT then
        let! (g, acts) := _ctrl g bytes in
        Some (0, g, acts)
      else if type =? PTYPE_CLIENT then
        if Z.of_nat (length bytes) <=? 4 then Some (0, g, [AError "Invalid client message"])
        else
          let uid := i32 (client_uid bytes) in
          let! id := hashid_lookup (ghash g) uid in
          if 0 <=? id then Some (1, g, [ASockSend uid (take (length bytes - 4) bytes)])
          else Some (0, g, [AError "Invalid client id"])
      else Some (0, g, [])
  | Socket m text =>
      if type =? PTYPE_SOCKET then
        let! (g, acts) := dispatch_socket_message g m text in
        Some (0, g, acts)
      else Some (0, g, [])
  end.

(** [strchr(listen_addr,':')]: the text before and after the colon. *)
Fixpoint split_colon (l : list Z) : option (list Z * list Z) :=
  match l with
  | [] => None
  | b :: r => if b =? 58 then Some ([], r) else let! (h, p) := split_colon r in Some (b :: h, p)
  end.

Definition start_listen (g : gate) (listen_addr : list Z) : Z * gate * list action :=
  let '(host, port) := match split_colon listen_addr with
                       | None => ([], i32 (strtol10 listen_addr))
                       | Some (host, portstr) => (host, i32 (strtol10 portstr))
                       end in
  if port <=? 0 then (1, g, [AError "Invalid gate address"])
  else
    let g := set_listen g (skynet_socket_listen host port BACKLOG) in
    if listen_id g <? 0 then (1, g, []) else (0, g, [AStart (listen_id g)]).

(** [sscanf(parm, "%c %s %s %d %d", ...)]: the number of conversions and what they stored. *)
Definition scan_parm (parm : list Z) : Z * Z * list Z * list Z * Z * Z :=
  match parm with
  | [] => (-1, 0, [], [], 0, 0)
  | h :: r =>
      let '(w, r) := scan_word (skip_space r) in
      let '(b, r) := scan_word (skip_space r) in
      let '(t, nt, r) := scan_decimal r in
      let '(m, nm, r) := scan_decimal r in
      if bool_decide (w = []) then (1, h, [], [], 0, 0)
      else if bool_decide (b = []) then (2, h, w, [], 0, 0)
      else if (nt =? 0)%nat then (3, h, w, b, 0, 0)
      else if (nm =? 0)%nat then (4, h, w, b, i32 t, 0)
      else (5, h, w, b, i32 t, i32 m)
  end.

Definition gate_init (g : gate) (parm : option (list Z)) : option (Z * gate * list action) :=
  match parm with
  | None => Some (1, g, [])
  | Some parm =>
      let '(n, hd, wd, binding, tag, max) := scan_parm parm in
      if n <? 4 then Some (1, g, [AError "Invalid gate parm"])
      else if max <=? 0 then Some (1, g, [AError "Need max connection"])
      else if negb (hd =? 83) && negb (hd =? 76) then Some (1, g, [AError "Invalid data header style"])
      else
        let tag := if tag =? 0 then PTYPE_CLIENT else tag in
        let! (w0, _) := match wd with b :: r => Some (b, r) | [] => None end in
        let dog := if w0 =? 33 then 0 else skynet_queryname wd in
        if negb (w0 =? 33) && (dog =? 0) then
          Some (1, MkGate (listen_id g) 0 (broker g) (client_tag g) (header_size g) (max_connection g)
                     (ghash g) (conn g) (mp g), [AError "Invalid watchdog"])
        else
          let! hi := hashid_init max in
          let g := MkGate (listen_id g) dog (broker g) tag (if hd =? 83 then 2 else 4) max hi
                     (replicate (Z.to_nat max) free_conn) (mp g) in
          Some (start_listen g binding)
  end.
End Gate.
