(* ===== verification/GateSpec.v ===== *)
(** * Correctness of the gate

    The byte stream of a connection is cut into the messages the peer framed,
    wherever the packet boundaries fall; every message to the gate is handled
    without failure and keeps the connection table, the receive buffers and the
    block pool consistent. *)

From S2P Require Import Prelude Message CString Framing DataBuffer HashId Gate.

(** ** One header *)

Definition buffer_ok (db : databuffer) (p : messagepool) (other : list Z) : Prop :=
  db_wf db /\ pool_wf p (nodes db ++ other).

Lemma reset_ok db p other : buffer_ok db p other -> buffer_ok (databuffer_reset db) p other.
Proof. intros [[Hs Ho] Hp]. split; [split; [exact Hs | exact Ho] | exact Hp]. Qed.

(** The header and the stream after it, once the header can be read. *)
Definition header_state (hs : Z) (db : databuffer) : option (Z * list Z) :=
  if header db =? 0 then
    if Z.of_nat (length (contents db)) <? hs then None
    else Some (header_value hs (take (Z.to_nat hs) (contents db)), drop (Z.to_nat hs) (contents db))
  else Some (header db, contents db).

Lemma readheader_spec db p hs other : buffer_ok db p other -> 0 < hs ->
  exists db' p', buffer_ok db' p' other /\
    match header_state hs db with
    | None => databuffer_readheader db p hs = Some (-1, db, p) /\ db' = db /\ p' = p
    | Some (h, rest) =>
        databuffer_readheader db p hs =
          Some (if Z.of_nat (length rest) <? h then -1 else h, db', p') /\
        header db' = h /\ contents db' = rest
    end.
Proof.
  intros [Hdb Hp] Hhs. unfold databuffer_readheader, header_state. rewrite <- (db_size_ok _ Hdb).
  destruct (Z.eqb_spec (header db) 0) as [E|E].
  - destruct (Z.ltb_spec (db_size db) hs); [by exists db, p|].
    destruct (databuffer_read_spec db p hs other Hdb Hp) as (db1 & p1 & -> & Hc & _ & Hdb1 & Hp1); [lia|].
    eexists (MkBuffer _ (offset db1) (db_size db1) (chain db1)), p1. split; [split; [destruct Hdb1; by split|done]|].
    rewrite <- Hc, <- (db_size_ok _ Hdb1). cbn [db_size header].
    split; [by destruct (db_size db1 <? _)|]. done.
  - exists db, p. split; [done|]. rewrite <- (db_size_ok _ Hdb). by destruct (db_size db <? header db).
Qed.

(** ** Forwarding *)

Definition receiver (g : gate) (c : connection) : bool :=
  negb (broker g =? 0) || negb (agent c =? 0) || negb (watchdog g =? 0).

(** What a complete message makes the gate send. *)
Definition deliver (g : gate) (c : connection) (msg : list Z) : list action :=
  if bool_decide (msg = []) then []
  else if negb (broker g =? 0) then
    [ASend 0 (broker g) (Z.lor (client_tag g) PTYPE_TAG_DONTCOPY) 1 msg]
  else if negb (agent c =? 0) then
    [ASend (client c) (agent c) (Z.lor (client_tag g) PTYPE_TAG_DONTCOPY) 1 msg]
  else
    [ASend 0 (watchdog g) (Z.lor PTYPE_TEXT PTYPE_TAG_DONTCOPY) 1
       (snprintf 32 (decimal (c_id c) ++ str " data ") ++ msg)].

(** The fields of a connection other than its buffer. *)
Definition same_peer (c c' : connection) : Prop :=
  c_id c' = c_id c /\ agent c' = agent c /\ client c' = client c /\ remote_name c' = remote_name c.

#[export] Instance same_peer_preorder : PreOrder same_peer.
Proof. split; [by repeat split|]. intros c1 c2 c3 (?&?&?&?) (?&?&?&?). repeat split; congruence. Qed.

Lemma forward_spec g c size other : buffer_ok (buffer c) (mp g) other ->
  0 < size <= Z.of_nat (length (contents (buffer c))) ->
  exists c' p' acts, _forward g c size = Some (c', p', acts) /\ same_peer c c' /\
    buffer_ok (buffer c') p' other /\ header (buffer c') = header (buffer c) /\
    if receiver g c then
      acts = deliver g c (take (Z.to_nat size) (contents (buffer c))) /\
      contents (buffer c') = drop (Z.to_nat size) (contents (buffer c))
    else acts = [] /\ c' = c.
Proof.
  intros [Hdb Hp] Hsz.
  destruct (databuffer_read_spec (buffer c) (mp g) size other Hdb Hp) as (db & p & Hrd & Hc & Hh & Hdb' & Hp');
    [by rewrite (db_size_ok _ Hdb)|].
  assert (take (Z.to_nat size) (contents (buffer c)) <> []) as Hne.
  { intros E%(f_equal length). rewrite length_take in E. simpl in E. lia. }
  unfold _forward, receiver, deliver. rewrite Hrd, bool_decide_false by done.
  destruct (negb (broker g =? 0)), (negb (agent c =? 0)), (negb (watchdog g =? 0));
    eexists _, _, _; (split; [reflexivity|]); (split; [by repeat split|]); (split; [by split|]); done.
Qed.

(** ** Safety and termination of the dispatch loop *)

Lemma clear_loop_pool ch q l : pool (clear_loop ch q) = pool q /\
  Permutation (freelist (clear_loop ch q) ++ l) (freelist q ++ (m_node <$> ch) ++ l).
Proof.
  revert q. induction ch as [|m ch IHc]; intros q; simpl; [done|].
  destruct (IHc (MkPool (pool q) (m_node m :: freelist q))) as [-> ->]. simpl. by rewrite Permutation_middle.
Qed.

(** Each round takes bytes off the stream or clears a pending header. *)
Definition work (db : databuffer) : nat :=
  (2 * length (contents db) + if (header db =? 0)%Z then 0 else 1)%nat.

Lemma dispatch_loop_safe fuel g c id other : buffer_ok (buffer c) (mp g) other -> 0 < header_size g ->
  (work (buffer c) < fuel)%nat ->
  exists c' p' acts, dispatch_loop fuel g c id = Some (c', p', acts) /\ same_peer c c' /\
    buffer_ok (buffer c') p' other.
Proof.
  revert g c. induction fuel as [|fuel IH]; intros g c Hok Hhs Hw; [lia|]. cbn [dispatch_loop].
  destruct (readheader_spec _ _ (header_size g) other Hok Hhs) as (db & p & Hok1 & Hrd).
  destruct (header_state (header_size g) (buffer c)) as [[h rest]|] eqn:Ehs.
  2:{ destruct Hrd as (-> & -> & ->). simpl. eexists _, _, _. split; [reflexivity|]. by split; [|destruct c]. }
  destruct Hrd as (-> & Hh & Hc). cbn [buffer set_buffer mp set_conn conn header_size].
  assert ((h = 0 \/ 0 < h) -> (2 * length rest < work (buffer c))%nat) as Hless.
  { intros Hhp. unfold header_state in Ehs. unfold work.
    destruct (Z.eqb_spec (header (buffer c)) 0) as [E|E].
    - destruct (Z.ltb_spec (Z.of_nat (length (contents (buffer c)))) (header_size g)); [done|].
      injection Ehs as _ <-. rewrite length_drop. lia.
    - injection Ehs as <- <-. lia. }
  destruct (Z.ltb_spec (Z.of_nat (length rest)) h) as [Hshort|Hfull].
  { simpl. eexists _, _, _. split; [reflexivity|]. split; [by destruct c|done]. }
  destruct (Z.ltb_spec h 0); [eexists _, _, _; split; [reflexivity|]; split; [by destruct c|done]|].
  destruct (Z.ltb_spec 0 h).
  - destruct (Z.leb_spec 0x1000000 h).
    { simpl. eexists _, _, _. split; [reflexivity|]. split; [by destruct c|].
      split; [apply db_wf_zero|]. destruct Hok1 as [_ [Hp Hperm]].
      destruct (clear_loop_pool (chain db) p other) as [Hpl Hpm]. split; [by rewrite Hpl|]. rewrite Hpl.
      etrans; [exact Hpm|]. exact Hperm. }
    destruct (forward_spec (set_conn g (conn g) p) (set_buffer c db) h other) as (c1 & p1 & acts & -> & Hsame & Hok2 & _ & Hfw);
      [done|simpl; rewrite Hc; lia|]. cbv beta iota zeta.
    destruct (IH (set_conn (set_conn g (conn g) p) (conn g) p1)
      (set_buffer c1 (databuffer_reset (buffer c1)))) as (c' & p' & rest' & Hrun & Hsame' & Hok').
    + by apply reset_ok.
    + done.
    + unfold work. simpl. change (contents (databuffer_reset (buffer c1))) with (contents (buffer c1)).
      assert (length (contents (buffer c1)) <= length rest)%nat; [|specialize (Hless ltac:(lia)); lia].
      destruct (receiver _ _); destruct Hfw as [_ Hfw]; [rewrite Hfw, length_drop|subst c1]; simpl; rewrite Hc; lia.
    + rewrite Hrun. eexists _, _, _. split; [reflexivity|]. split; [|done]. etrans; [|exact Hsame']. exact Hsame.
  - destruct (IH (set_conn g (conn g) p) (set_buffer c db)) as (c' & p' & acts & -> & Hsame & Hok'); try done.
    + unfold work. simpl. rewrite Hh, Hc. destruct (Z.eqb_spec h 0); [|lia]. specialize (Hless ltac:(lia)). lia.
    + eexists _, _, _. split; [reflexivity|]. done.
Qed.

Lemma dispatch_message_safe g c id data other : buffer_ok (buffer c) (mp g) other -> 0 < header_size g ->
  exists c' p' acts, dispatch_message g c id data = Some (c', p', acts) /\ same_peer c c' /\
    buffer_ok (buffer c') p' other.
Proof.
  intros [Hdb Hp] Hhs. unfold dispatch_message.
  pose proof (databuffer_push_spec (buffer c) (mp g) data other Hdb Hp) as Hpush.
  destruct (databuffer_push (buffer c) (mp g) data) as [db p]. destruct Hpush as (Hc & _ & _ & Hdb' & Hp').
  destruct (dispatch_loop_safe (S (S (2 * Z.to_nat (db_size db)))) (set_conn g (conn g) p) (set_buffer c db) id other)
    as (c' & p' & acts & -> & Hsame & Hok); [done|done| |by eexists _, _, _].
  unfold work. simpl. rewrite (db_size_ok _ Hdb'). case_match; lia.
Qed.

(** ** Framing *)

(** [readheader] decodes what the peer encoded. *)
Lemma header_value_encode hs n : style hs -> length_ok hs n -> header_value hs (encode_header hs n) = n.
Proof.
  intros [-> | ->] Hn; unfold length_ok, header_value, encode_header in *; cbn [nth Z.eqb Pos.eqb] in Hn |- *.
  - replace (n mod 2 ^ 8) with (Z.shiftl (n mod 2 ^ 8) 0) by apply Z.shiftl_0_r.
    rewrite lor_high, Z.shiftl_0_r; [|lia|lia|apply Z.mod_pos_bound; lia].
    pose proof (Z.div_mod n (2 ^ 8)). zlia.
  - replace (n mod 2 ^ 8) with (Z.shiftl (n mod 2 ^ 8) 0) by apply Z.shiftl_0_r.
    rewrite !lor_high, Z.shiftl_0_r; try lia; try (apply Z.mod_pos_bound; lia).
    rewrite i32_small; revert Hn; zpow; clear; intros; Z.div_mod_to_equations; lia.
Qed.

(** The part of the stream not yet forwarded: a header already read counts. *)
Definition pending (hs : Z) (db : databuffer) : list Z :=
  (if header db =? 0 then [] else encode_header hs (header db)) ++ contents db.

(** Splits a stream at the first message. *)
Lemma header_state_frame hs db msg future rest : style hs -> length_ok hs (header db) -> frame_ok hs msg ->
  pending hs db ++ future = encode hs msg ++ rest ->
  match header_state hs db with
  | None => (length (pending hs db) < length (encode hs msg))%nat
  | Some (h, r) => h = Z.of_nat (length msg) /\ r ++ future = msg ++ rest /\
      Z.of_nat (length (pending hs db)) = hs + Z.of_nat (length r) /\
      pending hs db = encode_header hs h ++ r
  end.
Proof.
  intros Hst Hh Hm E. unfold pending, header_state, encode in *. rewrite <- !app_assoc in E.
  pose proof (encode_header_length hs (Z.of_nat (length msg)) Hst) as Hle.
  destruct (Z.eqb_spec (header db) 0) as [E0|E0]; cbn [app] in *.
  - destruct (Z.ltb_spec (Z.of_nat (length (contents db))) hs); [rewrite length_app; lia|].
    assert (contents db = encode_header hs (Z.of_nat (length msg)) ++ drop (Z.to_nat hs) (contents db)) as Hc.
    { rewrite <- (take_drop (Z.to_nat hs) (contents db)) at 1. f_equal.
      apply (f_equal (take (Z.to_nat hs))) in E. rewrite take_app_le in E by lia.
      rewrite E, take_app_length'; [done|lia]. }
    set (r := drop (Z.to_nat hs) (contents db)) in *.
    assert (header_value hs (take (Z.to_nat hs) (contents db)) = Z.of_nat (length msg)) as ->.
    { rewrite Hc, take_app_length' by lia. by apply header_value_encode. }
    rewrite Hc, <- app_assoc in E. apply app_inv_head in E. split_and!; try done. rewrite Hc, length_app. lia.
  - pose proof (encode_header_length hs (header db) Hst).
    apply app_inj_1 in E as [Eh E]; [|lia].
    assert (header db = Z.of_nat (length msg)) as ->.
    { rewrite <- (header_value_encode hs (header db)), <- (header_value_encode hs (Z.of_nat _)) by done. by rewrite Eh. }
    split_and!; try done. rewrite length_app. lia.
Qed.

(** What is left of the stream is less than its next message. *)
Definition incomplete (hs : Z) (l : list Z) (msgs : list (list Z)) : Prop :=
  match msgs with
  | [] => l = []
  | msg :: _ => (length l < length (encode hs msg))%nat
  end.

(** A round of the loop on a stream that starts with [msg]: it stops if [msg] is
    not complete, and otherwise forwards it and goes on behind it. *)
Lemma dispatch_round fuel g c id other future rest msg :
  let hs := header_size g in
  buffer_ok (buffer c) (mp g) other -> style hs -> receiver g c = true ->
  length_ok hs (header (buffer c)) -> frame_ok hs msg ->
  pending hs (buffer c) ++ future = encode hs msg ++ rest ->
  (exists c' p', dispatch_loop (S fuel) g c id = Some (c', p', []) /\ same_peer c c' /\
     buffer_ok (buffer c') p' other /\ length_ok hs (header (buffer c')) /\
     pending hs (buffer c') = pending hs (buffer c) /\
     (length (pending hs (buffer c)) < length (encode hs msg))%nat) \/
  (exists c1 p1, dispatch_loop (S fuel) g c id =
       (let! (c', p', acts) := dispatch_loop fuel (set_conn g (conn g) p1) c1 id in
        Some (c', p', deliver g c msg ++ acts)) /\ same_peer c c1 /\
     buffer_ok (buffer c1) p1 other /\ header (buffer c1) = 0 /\
     pending hs (buffer c) = encode hs msg ++ pending hs (buffer c1) /\
     (work (buffer c1) < work (buffer c))%nat).
Proof.
  cbv zeta. intros Hok Hst Hrc Hh Hm E. set (hs := header_size g) in *.
  assert (0 < hs) as Hhs by (destruct Hst; lia).
  pose proof (encode_header_length hs (Z.of_nat (length msg)) Hst) as Hle.
  destruct (readheader_spec _ _ hs other Hok Hhs) as (db & p & Hok1 & Hrd).
  pose proof (header_state_frame _ _ _ _ _ Hst Hh Hm E) as Hfr. cbn [dispatch_loop]. fold hs.
  destruct (header_state hs (buffer c)) as [[h r]|] eqn:Ehs.
  2:{ left. destruct Hrd as (-> & -> & ->). simpl. exists (set_buffer c (buffer c)), (mp g).
      by split_and!; try done; destruct c. }
  destruct Hfr as (-> & Er & Hlen & Hpend), Hrd as (-> & Hhdb & Hcdb).
  destruct (Z.ltb_spec (Z.of_nat (length r)) (Z.of_nat (length msg))) as [Hshort|Hfull].
  { left. cbv beta iota. exists (set_buffer c db), p. split; [reflexivity|].
    assert (pending hs db = pending hs (buffer c)) as Hpe.
    { rewrite Hpend. unfold pending. rewrite Hhdb, Hcdb.
      destruct (Z.eqb_spec (Z.of_nat (length msg)) 0); [lia|done]. }
    cbn [buffer set_buffer]. rewrite Hhdb, Hpe. split; [by destruct c|]. split_and!; try done.
    rewrite Hpend. unfold encode. rewrite !length_app. lia. }
  right. assert (r = msg ++ drop (length msg) r) as Hr.
  { rewrite <- (take_drop (length msg) r) at 1. f_equal.
    apply (f_equal (take (length msg))) in Er. rewrite take_app_le in Er by lia. by rewrite Er, take_app_length. }
  assert (2 * length r < work (buffer c))%nat as Hless.
  { unfold header_state in Ehs. unfold work. destruct (Z.eqb_spec (header (buffer c)) 0) as [E0|E0].
    - destruct (Z.ltb_spec (Z.of_nat (length (contents (buffer c)))) hs); [done|].
      injection Ehs as _ <-. rewrite length_drop. lia.
    - injection Ehs as _ <-. lia. }
  rewrite Hpend. destruct (Z.ltb_spec (Z.of_nat (length msg)) 0); [lia|]. cbv beta iota zeta.
  destruct (Z.ltb_spec 0 (Z.of_nat (length msg))) as [Hpos|Hz].
  - destruct (Z.leb_spec 0x1000000 (Z.of_nat (length msg))) as [Hbig|_].
    { exfalso. unfold frame_ok, length_ok in Hm. revert Hm Hbig. clear. case_match; zlia. }
    destruct (forward_spec (set_conn g (conn g) p) (set_buffer c db) (Z.of_nat (length msg)) other)
      as (c1 & p1 & acts & -> & Hsame & Hok2 & _ & Hfw); [done|simpl; rewrite Hcdb; lia|].
    change (receiver (set_conn g (conn g) p) (set_buffer c db)) with (receiver g c) in Hfw.
    rewrite Hrc in Hfw. destruct Hfw as [-> Hc1]. cbn [buffer set_buffer] in Hc1 |- *.
    rewrite Hcdb, Nat2Z.id in Hc1 |- *.
    assert (take (length msg) r = msg) as -> by (by rewrite Hr, take_app_length).
    exists (set_buffer c1 (databuffer_reset (buffer c1))), p1. split; [reflexivity|].
    assert (contents (databuffer_reset (buffer c1)) = drop (length msg) r) as Hc1' by exact Hc1.
    split; [exact Hsame|]. split; [by apply reset_ok|]. split; [done|].
    assert (work (databuffer_reset (buffer c1)) = 2 * length (drop (length msg) r))%nat as Hw1
      by (unfold work; rewrite Hc1'; simpl; lia).
    cbn [buffer set_buffer]. rewrite Hw1, length_drop. split; [|lia]. unfold pending. simpl. rewrite Hc1'.
    unfold encode. rewrite <- app_assoc. by rewrite <- Hr.
  - assert (msg = []) as -> by (destruct msg; simpl in *; [done|lia]).
    exists (set_buffer c db), p. simpl in Hr, Hhdb. cbn [buffer set_buffer]. split.
    { simpl. by destruct (dispatch_loop _ _ _ _) as [[[? ?] ?]|]. }
    split; [by destruct c|]. split; [done|]. split; [done|].
    assert (work db = 2 * length r)%nat as Hw1 by (unfold work; rewrite Hhdb, Hcdb; simpl; lia).
    rewrite Hw1. split; [|done]. unfold pending. rewrite Hhdb, Hcdb. simpl. unfold encode. by rewrite app_nil_r.
Qed.

Lemma pending_nil hs db : style hs -> pending hs db = [] -> header db = 0 /\ contents db = [].
Proof.
  intros Hst E. unfold pending in E. destruct (Z.eqb_spec (header db) 0); [by split|].
  apply app_eq_nil in E as [E%(f_equal length) _]. pose proof (encode_header_length _ (header db) Hst).
  rewrite E in *. simpl in *. destruct Hst; lia.
Qed.

Lemma dispatch_empty fuel g c id other : style (header_size g) -> buffer_ok (buffer c) (mp g) other ->
  pending (header_size g) (buffer c) = [] ->
  dispatch_loop (S fuel) g c id = Some (set_buffer c (buffer c), mp g, []).
Proof.
  intros Hst [Hdb _] [E1 E2]%pending_nil; [|done]. cbn [dispatch_loop]. unfold databuffer_readheader.
  rewrite E1, (db_size_ok _ Hdb), E2. cbn [Z.eqb length]. change (Z.of_nat 0) with 0.
  destruct (Z.ltb_spec 0 (header_size g)); [done|destruct Hst; lia].
Qed.

Lemma dispatch_loop_frames fuel g c id other future msgs :
  let hs := header_size g in
  buffer_ok (buffer c) (mp g) other -> style hs -> receiver g c = true ->
  length_ok hs (header (buffer c)) -> Forall (frame_ok hs) msgs -> (work (buffer c) < fuel)%nat ->
  pending hs (buffer c) ++ future = concat (encode hs <$> msgs) ->
  exists c' p' sent todo, dispatch_loop fuel g c id = Some (c', p', concat (deliver g c <$> sent)) /\
    same_peer c c' /\ buffer_ok (buffer c') p' other /\ length_ok hs (header (buffer c')) /\
    msgs = sent ++ todo /\ incomplete hs (pending hs (buffer c')) todo /\
    pending hs (buffer c) = concat (encode hs <$> sent) ++ pending hs (buffer c').
Proof.
  cbv zeta. revert g c msgs. induction fuel as [|fuel IH]; intros g c msgs Hok Hst Hrc Hh Hms Hw E; [lia|].
  destruct msgs as [|msg msgs].
  { apply app_eq_nil in E as [E _]. rewrite (dispatch_empty _ _ _ _ other) by done.
    exists (set_buffer c (buffer c)), (mp g), [], []. cbn [buffer set_buffer]. rewrite E.
    split; [done|]. split; [by destruct c|]. by split_and!. }
  apply Forall_cons in Hms as [Hm Hms]. rewrite fmap_cons in E. cbn [concat] in E.
  destruct (dispatch_round fuel g c id other future _ msg Hok Hst Hrc Hh Hm E)
    as [(c' & p' & Hrun & Hs & Hok' & Hh' & Hpe & Hlt)|(c1 & p1 & Hrun & Hs & Hok1 & Hh1 & Hpe & Hwk)].
  { exists c', p', [], (msg :: msgs). rewrite Hrun, Hpe. by split_and!. }
  rewrite Hpe, <- app_assoc in E. apply app_inv_head in E.
  assert (deliver (set_conn g (conn g) p1) c1 = deliver g c) as Hd.
  { destruct Hs as (E1 & E2 & E3 & E4). unfold deliver. simpl. by rewrite E1, E2, E3. }
  destruct (IH (set_conn g (conn g) p1) c1 msgs) as (c' & p' & sent & todo & Hrun' & Hs' & Hok' & Hh' & -> & Hinc & Hpe');
    try done.
  - destruct Hs as (E1 & E2 & E3 & E4). unfold receiver in *. simpl. by rewrite E2.
  - change (header_size (set_conn g (conn g) p1)) with (header_size g). rewrite Hh1. unfold length_ok.
    destruct (header_size g =? 2); zlia.
  - lia.
  - cbn [header_size set_conn] in *. exists c', p', (msg :: sent), todo. rewrite Hrun, Hrun', Hd. split; [done|]. split; [by etrans|].
    split_and!; try done. rewrite Hpe, Hpe'. simpl. by rewrite <- app_assoc.
Qed.

(** ** A whole connection *)

(** The packets of a connection, handled one after the other. *)
Fixpoint feed (g : gate) (c : connection) (id : Z) (packets : list (list Z))
  : option (connection * messagepool * list action) :=
  match packets with
  | [] => Some (c, mp g, [])
  | data :: packets =>
      let! (c, p, acts) := dispatch_message g c id data in
      let! (c, p, rest) := feed (set_conn g (conn g) p) c id packets in
      Some (c, p, acts ++ rest)
  end.

Lemma dispatch_message_frames g c id other data future msgs :
  let hs := header_size g in
  buffer_ok (buffer c) (mp g) other -> style hs -> receiver g c = true ->
  length_ok hs (header (buffer c)) -> Forall (frame_ok hs) msgs ->
  pending hs (buffer c) ++ data ++ future = concat (encode hs <$> msgs) ->
  exists c' p' sent todo, dispatch_message g c id data = Some (c', p', concat (deliver g c <$> sent)) /\
    same_peer c c' /\ buffer_ok (buffer c') p' other /\ length_ok hs (header (buffer c')) /\
    msgs = sent ++ todo /\ incomplete hs (pending hs (buffer c')) todo /\
    pending hs (buffer c) ++ data = concat (encode hs <$> sent) ++ pending hs (buffer c').
Proof.
  cbv zeta. intros [Hdb Hp] Hst Hrc Hh Hms E. unfold dispatch_message.
  pose proof (databuffer_push_spec (buffer c) (mp g) data other Hdb Hp) as Hpush.
  destruct (databuffer_push (buffer c) (mp g) data) as [db p]. destruct Hpush as (Hc & Hhd & _ & Hdb' & Hp').
  assert (pending (header_size g) db = pending (header_size g) (buffer c) ++ data) as Hpe.
  { unfold pending. by rewrite Hhd, Hc, app_assoc. }
  destruct (dispatch_loop_frames (S (S (2 * Z.to_nat (db_size db)))) (set_conn g (conn g) p) (set_buffer c db)
    id other future msgs) as (c' & p' & sent & todo & Hrun & H); try done.
  - simpl. by rewrite Hhd.
  - unfold work. simpl. rewrite (db_size_ok _ Hdb'). case_match; lia.
  - simpl. by rewrite Hpe, <- app_assoc.
  - exists c', p', sent, todo. rewrite Hrun. split; [done|]. cbn [header_size set_conn buffer set_buffer] in H.
    rewrite <- Hpe. exact H.
Qed.

Lemma feed_frames packets g c id other future msgs :
  let hs := header_size g in
  buffer_ok (buffer c) (mp g) other -> style hs -> receiver g c = true ->
  length_ok hs (header (buffer c)) -> Forall (frame_ok hs) msgs ->
  incomplete hs (pending hs (buffer c)) msgs ->
  pending hs (buffer c) ++ concat packets ++ future = concat (encode hs <$> msgs) ->
  exists c' p' sent todo, feed g c id packets = Some (c', p', concat (deliver g c <$> sent)) /\
    msgs = sent ++ todo /\ incomplete hs (pending hs (buffer c')) todo /\
    pending hs (buffer c) ++ concat packets = concat (encode hs <$> sent) ++ pending hs (buffer c') /\
    buffer_ok (buffer c') p' other.
Proof.
  cbv zeta. revert g c msgs. induction packets as [|data packets IH]; intros g c msgs Hok Hst Hrc Hh Hms Hinc E.
  { exists c, (mp g), [], msgs. simpl. rewrite app_nil_r. by split_and!. }
  cbn [concat feed] in *. rewrite <- app_assoc in E.
  destruct (dispatch_message_frames g c id other data _ msgs Hok Hst Hrc Hh Hms E)
    as (c1 & p1 & sent1 & todo1 & -> & Hs1 & Hok1 & Hh1 & -> & Hinc1 & Hpe1).
  rewrite app_assoc, Hpe1, <- app_assoc, fmap_app, concat_app in E. apply app_inv_head in E.
  apply Forall_app in Hms as [_ Hms].
  assert (deliver (set_conn g (conn g) p1) c1 = deliver g c /\ receiver (set_conn g (conn g) p1) c1 = true) as [Hd Hrc1].
  { destruct Hs1 as (E1 & E2 & E3 & E4). unfold deliver, receiver in *. simpl. by rewrite E1, E2, E3. }
  destruct (IH (set_conn g (conn g) p1) c1 todo1) as (c' & p' & sent & todo & Hrun & -> & Hinc' & Hpe' & Hok'); try done.
  cbn [header_size set_conn] in *. exists c', p', (sent1 ++ sent), todo.
  rewrite Hrun, Hd, fmap_app, concat_app. split; [done|]. split; [by rewrite app_assoc|]. split; [done|]. split; [|done].
  by rewrite app_assoc, Hpe1, <- app_assoc, Hpe', fmap_app, concat_app, <- app_assoc.
Qed.

(** C27: Framing.  However the stream of a connection is cut into packets, the gate
    forwards exactly the messages the peer framed, whole and in order: those that
    are complete so far, the empty ones excepted; the bytes of a message still
    incomplete stay in the buffer. *)
Theorem gate_framing g c id other packets future msgs :
  let hs := header_size g in
  buffer_ok (buffer c) (mp g) other -> style hs -> receiver g c = true ->
  pending hs (buffer c) = [] -> Forall (frame_ok hs) msgs ->
  concat packets ++ future = concat (encode hs <$> msgs) ->
  exists c' p' sent todo, feed g c id packets = Some (c', p', concat (deliver g c <$> sent)) /\
    msgs = sent ++ todo /\ incomplete hs (pending hs (buffer c')) todo /\
    concat packets = concat (encode hs <$> sent) ++ pending hs (buffer c') /\
    buffer_ok (buffer c') p' other.
Proof.
  cbv zeta. intros Hok Hst Hrc Hpe Hms E.
  assert (length_ok (header_size g) (header (buffer c))) as Hh.
  { destruct (pending_nil _ _ Hst Hpe) as [-> _]. unfold length_ok. destruct (header_size g =? 2); zlia. }
  assert (pending (header_size g) (buffer c) ++ concat packets ++ future = concat (encode (header_size g) <$> msgs)) as E'
    by (by rewrite Hpe).
  assert (incomplete (header_size g) (pending (header_size g) (buffer c)) msgs) as Hinc.
  { rewrite Hpe. destruct msgs as [|msg]; [done|]. simpl. unfold encode. rewrite length_app.
    pose proof (encode_header_length _ (Z.of_nat (length msg)) Hst). destruct Hst; simpl; lia. }
  destruct (feed_frames packets g c id other future msgs Hok Hst Hrc Hh Hms Hinc E')
    as (c' & p' & sent & todo & Hrun & H1 & H2 & H3 & H4).
  rewrite Hpe in H3. by exists c', p', sent, todo.
Qed.

(** ** The connection table *)

Definition conn_nodes (cs : list connection) : list Z := concat ((fun c => nodes (buffer c)) <$> cs).

(** [M] maps the ids of the open connections to their slots. *)
Record gate_wf (g : gate) (M : gmap Z Z) : Prop := {
  gw_hash : hash_rep (ghash g) M;
  gw_len : Z.of_nat (length (conn g)) = cap (ghash g);
  gw_style : style (header_size g);
  gw_conn : forall i c, aget (conn g) i = Some c -> db_wf (buffer c) /\
    (forall x, M !! x = Some i -> c_id c = x) /\ ((forall x, M !! x <> Some i) -> c = free_conn);
  gw_pool : pool_wf (mp g) (conn_nodes (conn g));
}.

#[export] Instance pool_wf_proper p : Proper (Permutation ==> iff) (pool_wf p).
Proof. intros l l' Hl. unfold pool_wf. by rewrite Hl. Qed.

(** A connection can be taken out of the table, its blocks apart from those of
    the others, and put back. *)
Lemma conn_split cs i c : aget cs i = Some c ->
  exists other, Permutation (conn_nodes cs) (nodes (buffer c) ++ other) /\
    forall c' cs', aset cs i c' = Some cs' -> Permutation (conn_nodes cs') (nodes (buffer c') ++ other).
Proof.
  intros [Hi Hc]%aget_Some. pose proof (take_drop_middle _ _ _ Hc) as Hsp.
  exists (conn_nodes (take (Z.to_nat i) cs) ++ conn_nodes (drop (S (Z.to_nat i)) cs)).
  assert (forall x, Permutation (conn_nodes (take (Z.to_nat i) cs ++ x :: drop (S (Z.to_nat i)) cs))
    (nodes (buffer x) ++ conn_nodes (take (Z.to_nat i) cs) ++ conn_nodes (drop (S (Z.to_nat i)) cs))) as Hx.
  { intros x. unfold conn_nodes. rewrite fmap_app, concat_app. simpl. rewrite !app_assoc.
    apply Permutation_app_tail, Permutation_app_comm. }
  split; [rewrite <- Hsp at 1; apply Hx|]. intros c' cs' [Hlt ->]%aset_inv.
  rewrite insert_take_drop by lia. apply Hx.
Qed.

Lemma slot_conn g M x i : gate_wf g M -> M !! x = Some i -> exists c, aget (conn g) i = Some c.
Proof.
  intros Hg Hx. apply aget_is_Some. rewrite (gw_len _ _ Hg), <- (proj1 (hp_cap _ _ (gw_hash _ _ Hg))).
  apply (hp_map _ _ (gw_hash _ _ Hg)) in Hx as (_ & n & Hn & _). by eapply aget_lt.
Qed.

Lemma slot_inj hi M x y i : hash_rep hi M -> M !! x = Some i -> M !! y = Some i -> x = y.
Proof.
  intros H (_ & n & Hn & <-)%(hp_map _ _ H) (_ & n' & Hn' & <-)%(hp_map _ _ H). congruence.
Qed.

(** Replaces the connection of a slot, in a table with ids [M']. *)
Lemma put_conn g M M' hi i c c' cs p other : gate_wf g M -> hash_rep hi M' -> cap hi = cap (ghash g) ->
  aget (conn g) i = Some c -> aset (conn g) i c' = Some cs ->
  (forall l, aset (conn g) i c' = Some l -> Permutation (conn_nodes l) (nodes (buffer c') ++ other)) ->
  buffer_ok (buffer c') p other ->
  (forall x, M' !! x = Some i -> c_id c' = x) -> ((forall x, M' !! x <> Some i) -> c' = free_conn) ->
  (forall j x, j <> i -> M' !! x = Some j <-> M !! x = Some j) ->
  gate_wf (set_conn (set_hash g hi) cs p) M'.
Proof.
  intros Hg Hhi Hcap Hc Hset Hperm [Hdb Hp] Hid Hfree Hother. split; simpl; try done.
  - rewrite (aset_length _ _ _ _ Hset), Hcap. apply Hg.
  - apply Hg.
  - intros j d Hj. rewrite (aget_aset _ _ _ _ j Hset) in Hj. destruct (Z.eqb_spec j i) as [->|Hne].
    + by injection Hj as <-.
    + destruct (gw_conn _ _ Hg j d Hj) as (? & Hx & Hf). split_and!; [done|..].
      * intros x Hx'. apply Hx. by apply Hother.
      * intros Hn. apply Hf. intros x Hx'. apply (Hn x). by apply Hother.
  - by rewrite (Hperm cs Hset).
Qed.

(** The ids after a socket message. *)
Definition ids_after (g : gate) (M : gmap Z Z) (m : skynet_socket_message) (M' : gmap Z Z) : Prop :=
  if (sm_type m =? SKYNET_SOCKET_TYPE_CLOSE) || (sm_type m =? SKYNET_SOCKET_TYPE_ERROR) then
    M' = delete (sm_id m) M
  else if sm_type m =? SKYNET_SOCKET_TYPE_ACCEPT then
    if hashid_full (ghash g) then M' = M
    else exists slot, (forall x, M !! x <> Some slot) /\ M' = <[sm_ud m := slot]> M
  else M' = M.

(** What the socket layer guarantees: ids are not negative, and an accept comes
    from the listening socket and brings a new id. *)
Definition socket_msg_ok (g : gate) (M : gmap Z Z) (m : skynet_socket_message) : Prop :=
  0 <= sm_id m /\
  (sm_type m = SKYNET_SOCKET_TYPE_ACCEPT ->
   sm_id m = listen_id g /\ 0 <= sm_ud m /\ sm_ud m + cap (ghash g) <= 2 ^ 31 /\ M !! sm_ud m = None).

Lemma gate_data g M m text : gate_wf g M -> 0 <= sm_id m -> sm_type m = SKYNET_SOCKET_TYPE_DATA ->
  exists g' acts, dispatch_socket_message g m text = Some (g', acts) /\ gate_wf g' M.
Proof.
  intros Hg Hid Ht. unfold dispatch_socket_message. rewrite Ht. simpl.
  rewrite (hashid_lookup_rep _ _ _ (gw_hash _ _ Hg)) by lia.
  destruct (M !! sm_id m) as [i|] eqn:EM; simpl; [|by eexists _, _].
  destruct (slot_conn g M _ i Hg EM) as [c Hc]. pose proof (aget_lt _ _ _ Hc) as Hi.
  destruct (Z.leb_spec 0 i); [|lia]. rewrite Hc.
  destruct (conn_split _ _ _ Hc) as (other & Hperm & Hput). pose proof (gw_pool _ _ Hg) as Hp. rewrite Hperm in Hp.
  destruct (gw_conn _ _ Hg i c Hc) as (Hdb & Hcid & _).
  destruct (dispatch_message_safe g c (sm_id m) (sm_buffer m) other) as (c' & p & acts & -> & Hsame & Hok);
    [done | destruct (gw_style _ _ Hg); lia |].
  destruct (aset (conn g) i c') as [cs|] eqn:Es; [|by rewrite aset_Some in Es].
  eexists _, _. split; [done|].
  change (set_conn g cs p) with (set_conn (set_hash g (ghash g)) cs p).
  eapply (put_conn g M M (ghash g) i c c' cs p other); try done.
  - apply (gw_hash _ _ Hg).
  - intros l Hl. apply Hput. congruence.
  - intros x Hx. destruct Hsame as [-> _]. by apply Hcid.
  - intros Hn. by destruct (Hn (sm_id m)).
Qed.

Lemma gate_close g M m text : gate_wf g M -> 0 <= sm_id m ->
  sm_type m = SKYNET_SOCKET_TYPE_CLOSE \/ sm_type m = SKYNET_SOCKET_TYPE_ERROR ->
  exists g' acts, dispatch_socket_message g m text = Some (g', acts) /\ gate_wf g' (delete (sm_id m) M).
Proof.
  intros Hg Hid Ht. unfold dispatch_socket_message.
  assert ((sm_type m =? SKYNET_SOCKET_TYPE_DATA) = false /\ (sm_type m =? SKYNET_SOCKET_TYPE_CONNECT) = false /\
    (sm_type m =? SKYNET_SOCKET_TYPE_CLOSE) || (sm_type m =? SKYNET_SOCKET_TYPE_ERROR) = true) as (-> & -> & ->)
    by (by destruct Ht as [-> | ->]).
  pose proof (hashid_remove_rep _ M (sm_id m) (gw_hash _ _ Hg) ltac:(lia)) as Hrem.
  destruct (M !! sm_id m) as [i|] eqn:EM.
  2:{ rewrite Hrem. simpl. eexists _, _. split; [done|]. rewrite delete_id by done. by destruct g, Hg; split. }
  destruct Hrem as (hi & -> & Hcap & Hhi). destruct (slot_conn g M _ i Hg EM) as [c Hc].
  pose proof (aget_lt _ _ _ Hc) as Hi. destruct (Z.leb_spec 0 i); [|lia]. rewrite Hc. unfold databuffer_clear.
  destruct (conn_split _ _ _ Hc) as (other & Hperm & Hput).
  destruct (aset (conn g) i free_conn) as [cs|] eqn:Es; [|by rewrite aset_Some in Es].
  eexists _, _. split; [done|]. eapply put_conn; try done.
  - intros l Hl. apply Hput. congruence.
  - split; [apply db_wf_zero|]. pose proof (gw_pool _ _ Hg) as Hp. rewrite Hperm in Hp. destruct Hp as [Hp0 Hp].
    destruct (clear_loop_pool (chain (buffer c)) (mp g) other) as [Hpl Hpm].
    split; [by rewrite Hpl|]. rewrite Hpl. etrans; [exact Hpm | exact Hp].
  - intros x [Hne Hx]%lookup_delete_Some. destruct Hne. by eapply slot_inj; [apply (gw_hash _ _ Hg)| |].
  - intros j x Hj. rewrite lookup_delete_Some. split; [tauto|]. intros Hx. split; [|done]. congruence.
Qed.

Lemma gate_accept g M m text : gate_wf g M -> socket_msg_ok g M m ->
  sm_type m = SKYNET_SOCKET_TYPE_ACCEPT -> hashid_full (ghash g) = false ->
  exists g' acts slot, dispatch_socket_message g m text = Some (g', acts) /\
    (forall x, M !! x <> Some slot) /\ gate_wf g' (<[sm_ud m := slot]> M).
Proof.
  intros Hg [Hid Hacc] Ht Hfull. destruct (Hacc Ht) as (El & Hud & Hov & EM). unfold dispatch_socket_message.
  rewrite Ht. simpl. rewrite El, Z.eqb_refl, Hfull. pose proof (gw_hash _ _ Hg) as Hh.
  destruct (hashid_insert_rep (ghash g) M (sm_ud m) Hh Hud Hov EM) as (k & hi & -> & Hk & Hnew & Hcap & Hhi).
  { pose proof (hash_rep_size _ _ Hh). unfold hashid_full in Hfull. rewrite (hp_count _ _ Hh) in Hfull. blia. }
  destruct (aget_is_Some (conn g) k) as [c Hc]; [rewrite (gw_len _ _ Hg); lia|]. rewrite Hc.
  destruct (gw_conn _ _ Hg k c Hc) as (Hdb & _ & Hfree).
  destruct (conn_split _ _ _ Hc) as (other & Hperm & Hput).
  destruct (aset (conn g) k _) as [cs|] eqn:Es; [|rewrite aset_Some in Es by (by eapply aget_lt); done].
  eexists _, _, k. split; [done|]. split; [done|]. eapply put_conn; try done.
  - intros l Hl. apply Hput. congruence.
  - split; [done|]. pose proof (gw_pool _ _ Hg) as Hp. by rewrite Hperm in Hp.
  - intros x. rewrite lookup_insert. case_decide; [by simpl|]. intros Hx. by destruct (Hnew x).
  - intros Hn. destruct (Hn (sm_ud m)). apply lookup_insert_eq.
  - intros j x Hj. rewrite lookup_insert. case_decide as E; [|done]. subst x. rewrite EM. split; congruence.
Qed.


(** ** Initialisation *)

Lemma conn_nodes_free n : conn_nodes (replicate n free_conn) = [].
Proof. induction n as [|n IH]; [done|]. simpl. unfold conn_nodes in *. simpl. exact IH. Qed.

Lemma init_wf max hi dog brk tag hs lid : hashid_init max = Some hi -> 0 < max <= 2 ^ 30 -> style hs ->
  gate_wf (MkGate lid dog brk tag hs max hi (replicate (Z.to_nat max) free_conn) messagepool_zero) ∅.
Proof.
  intros Hhi Hmax Hst. destruct (hashid_init_rep max Hmax) as (hi' & E & Hcap & Hrep).
  assert (hi' = hi) as -> by congruence. split; simpl; try done.
  - rewrite length_replicate. lia.
  - intros i c [_ Hc]%aget_Some. apply lookup_replicate in Hc as [-> _]. split; [apply db_wf_zero|]. by split.
  - rewrite conn_nodes_free. apply pool_wf_zero.
Qed.

(** A gate that starts successfully is consistent and has no connections. *)
Lemma gate_init_wf qn listen parm g acts : gate_init qn listen gate_create parm = Some (0, g, acts) ->
  max_connection g <= 2 ^ 30 -> gate_wf g ∅.
Proof.
  unfold gate_init. destruct parm as [parm|]; [|done].
  destruct (scan_parm parm) as [[[[[n hd] wd] binding] tag] max].
  destruct (n <? 4); [done|]. destruct (Z.leb_spec max 0); [done|].
  destruct (negb (hd =? 83) && negb (hd =? 76)); [done|]. destruct wd as [|w0 wd]; [done|].
  destruct (negb (w0 =? 33) && _); [done|]. destruct (hashid_init max) as [hi|] eqn:Ehi; [|done].
  unfold start_listen. destruct (match split_colon binding with None => _ | Some _ => _ end) as [host port].
  destruct (port <=? 0); [done|]. simpl. destruct (_ <? 0); [done|]. intros [= <- _] Hmax. simpl in Hmax.
  apply (init_wf max hi); [done|lia|]. destruct (hd =? 83); [by left | by right].
Qed.

(** ** Two streams the gate does not survive *)

(** A four byte header with its top bit set is read as a negative length; from
    then on the connection forwards nothing, whatever arrives, and keeps all of
    it in memory. *)
Theorem gate_negative_header g c id other packets : buffer_ok (buffer c) (mp g) other ->
  header (buffer c) < 0 ->
  exists c' p', feed g c id packets = Some (c', p', []) /\ buffer_ok (buffer c') p' other /\
    contents (buffer c') = contents (buffer c) ++ concat packets /\ header (buffer c') < 0.
Proof.
  revert g c. induction packets as [|data packets IH]; intros g c Hok Hneg; cbn [feed].
  { exists c, (mp g). simpl. rewrite app_nil_r. by split_and!. }
  destruct Hok as [Hdb Hp]. unfold dispatch_message.
  pose proof (databuffer_push_spec (buffer c) (mp g) data other Hdb Hp) as Hpush.
  destruct (databuffer_push (buffer c) (mp g) data) as [db p]. destruct Hpush as (Hc & Hh & _ & Hdb' & Hp').
  cbn [dispatch_loop buffer set_buffer]. unfold databuffer_readheader. rewrite Hh.
  destruct (Z.eqb_spec (header (buffer c)) 0); [lia|].
  destruct (Z.ltb_spec (db_size db) (header (buffer c))); [rewrite (db_size_ok _ Hdb') in *; lia|].
  destruct (Z.ltb_spec (header (buffer c)) 0); [|lia]. cbv beta iota zeta.
  destruct (IH (set_conn g (conn g) p) (set_buffer (set_buffer c db) db)) as (c' & p' & Hrun & Hok' & Hc' & Hneg');
    [done | simpl; lia |].
  exists c', p'. cbn [mp set_conn conn] in *. rewrite Hrun. split; [done|]. split; [done|]. split; [|done].
  rewrite Hc'. cbn [buffer set_buffer]. by rewrite Hc, <- app_assoc.
Qed.

(** With neither broker, agent nor watchdog a complete message is not taken off
    the stream: its payload is then read as a header, and the connection is out
    of step with its peer. *)
Theorem gate_no_receiver_desync : exists g c' p' acts,
  gate_wf g {[9 := 0]} /\ receiver g (MkConn 9 0 0 [] databuffer_zero) = false /\
  feed g (MkConn 9 0 0 [] databuffer_zero) 9 [encode 2 [0; 3; 97]] = Some (c', p', acts) /\
  pending 2 (buffer c') = [0; 3; 97].
Proof.
  destruct (hashid_init_rep 1) as (hi & Hhi & Hcap & Hrep); [lia|].
  destruct (hashid_insert_rep hi ∅ 9 Hrep) as (k & hi' & Hins & Hk & _ & Hcap' & Hrep'); [lia | lia | done | by rewrite Hcap|].
  assert (k = 0) as -> by lia.
  exists (MkGate 5 0 0 3 2 1 hi' [MkConn 9 0 0 [] databuffer_zero] messagepool_zero).
  eexists _, _, _. split; [|split; [done|split; [reflexivity|reflexivity]]].
  split; simpl; [done | lia | by left | | apply pool_wf_zero].
  intros i c [Hi Hc]%aget_Some. destruct (Z.to_nat i) eqn:Ei; [|done]. assert (i = 0) as -> by lia.
  injection Hc as <-. split; [apply db_wf_zero|]. split.
  - by intros x [<- _]%lookup_singleton_Some.
  - intros Hn. destruct (Hn 9). apply lookup_singleton_eq.
Qed.

(** ** Witnesses *)

Definition demo_gate (hs : Z) : gate :=
  MkGate 5 7 0 3 hs 1 (MkHashid 15 1 0 [MkHNode (-1) None] (replicate 16 None)) [free_conn] messagepool_zero.

Definition demo_conn : connection := MkConn 9 0 0 [] databuffer_zero.

Lemma gate_framing_witness :
  exists c' p' sent todo, feed (demo_gate 2) demo_conn 9 [[0; 2; 97]; [98; 0]] =
      Some (c', p', concat (deliver (demo_gate 2) demo_conn <$> sent)) /\
    [[97; 98]; [99]] = sent ++ todo /\ incomplete 2 (pending 2 (buffer c')) todo.
Proof.
  destruct (gate_framing (demo_gate 2) demo_conn 9 [] [[0; 2; 97]; [98; 0]] [1; 99] [[97; 98]; [99]])
    as (c' & p' & sent & todo & H1 & H2 & H3 & _).
  - split; [apply db_wf_zero | apply pool_wf_zero].
  - left. reflexivity.
  - reflexivity.
  - reflexivity.
  - repeat constructor; vm_compute; congruence.
  - reflexivity.
  - exists c', p', sent, todo. split; [exact H1|]. split; [exact H2 | exact H3].
Defined.


Lemma gate_negative_header_witness :
  exists db p c' p', databuffer_readheader (MkBuffer 0 0 4 [MkMessage 0 [128; 0; 0; 0]]) (MkPool 1 (seqZ 1 1022)) 4 =
      Some (- 2 ^ 31, db, p) /\
    feed (set_conn (demo_gate 4) [] p) (set_buffer demo_conn db) 9 [[1; 2]; [3]] = Some (c', p', []) /\
    contents (buffer c') = [1; 2; 3].
Proof.
  eexists _, _. destruct (gate_negative_header (set_conn (demo_gate 4) [] (MkPool 1 (0 :: seqZ 1 1022)))
    (set_buffer demo_conn (MkBuffer (- 2 ^ 31) 0 0 [])) 9 [] [[1; 2]; [3]]) as (c' & p' & H1 & _ & H2 & _).
  - split; [split; simpl; lia|]. split; [simpl; lia|]. change (freelist _ ++ _) with (0 :: seqZ 1 1022 ++ []).
    rewrite app_nil_r. reflexivity.
  - simpl. lia.
  - exists c', p'. split; [reflexivity|]. split; [exact H1 | exact H2].
Defined.
