(* ===== verification/Netpack.v ===== *)
(** * Packet assembly for Lua services ([lualib-src/lua-netpack.c])

    The packets of all connections of a service are cut into messages.  Complete
    ones wait in a ring buffer, the incomplete one of each connection in a hash
    table.  The chain of a hash bucket is a list; the userdata the Lua side keeps at
    index 1 is an [option queue], [None] for [nil]. *)

From S2P Require Import Prelude Message Ring CString Framing DataBuffer Gate.

Definition QUEUESIZE : Z := 1024.
Definition HASHSIZE : Z := 4096.

Record netpack := MkPack {
  np_id : Z;
  np_size : Z;
  np_buffer : list Z;
}.

Record uncomplete := MkUc {
  uc_pack : netpack;
  uc_read : Z;
  uc_header : Z;
}.

Record queue := MkQueue {
  q_cap : Z;
  q_head : Z;
  q_tail : Z;
  q_hash : list (list uncomplete);
  q_queue : list (option netpack);
}.

Definition set_qhash (hs : list (list uncomplete)) (q : queue) : queue :=
  MkQueue (q_cap q) (q_head q) (q_tail q) hs (q_queue q).

(** What a call leaves on the Lua stack above the queue. *)
Inductive filter_result :=
  | FNone
  | FData (fd : Z) (msg : list Z) (size : Z)
  | FMore
  | FError (fd : Z) (msg : list Z)
  | FOpen (fd : Z) (msg : list Z)
  | FClose (fd : Z)
  | FWarning (fd size : Z).

#[export] Instance filter_result_eq_dec : EqDecision filter_result.
Proof. solve_decision. Defined.

(** The buffers freed, in order. *)
Definition clear_list (uc : list uncomplete) : list (list Z) := (fun u => np_buffer (uc_pack u)) <$> uc.

(** Frees every buffer the queue still owns. *)
Definition lclear (ud : option queue) : option (list (list Z) * option queue) :=
  match ud with
  | None => Some ([], None)
  | Some q =>
      let freed := concat (clear_list <$> q_hash q) in
      let tail := if q_tail q <? q_head q then q_tail q + q_cap q else q_tail q in
      let! packs := mapM (fun i => let! c := aget (q_queue q) (Z.rem i (q_cap q)) in c)
                      (seqZ (q_head q) (tail - q_head q)) in
      Some (freed ++ (np_buffer <$> packs),
            Some (MkQueue (q_cap q) 0 0 (replicate (length (q_hash q)) []) (q_queue q)))
  end.

Definition hash_fd (fd : Z) : Z :=
  u32 (Z.shiftr fd 24 + Z.shiftr fd 12 + fd) mod HASHSIZE.

(** The first node of a chain with the id, and the chain without it. *)
Fixpoint unchain (fd : Z) (l : list uncomplete) : option (uncomplete * list uncomplete) :=
  match l with
  | [] => None
  | uc :: l =>
      if np_id (uc_pack uc) =? fd then Some (uc, l)
      else match unchain fd l with
           | Some (u, l) => Some (u, uc :: l)
           | None => None
           end
  end.

(** Unlinks the incomplete message of [fd]. *)
Definition find_uncomplete (ud : option queue) (fd : Z) : option (option uncomplete * option queue) :=
  match ud with
  | None => Some (None, None)
  | Some q =>
      let h := hash_fd fd in
      let! l := aget (q_hash q) h in
      match unchain fd l with
      | None => Some (None, ud)
      | Some (uc, l) =>
          let! hs := aset (q_hash q) h l in
          Some (Some uc, Some (set_qhash hs q))
      end
  end.

Definition new_queue : queue :=
  MkQueue QUEUESIZE 0 0 (replicate (Z.to_nat HASHSIZE) []) (replicate (Z.to_nat QUEUESIZE) None).
#[global] Arguments new_queue : simpl never.

Definition get_queue (ud : option queue) : queue :=
  match ud with
  | Some q => q
  | None => new_queue
  end.

Definition expand_queue (q : queue) : option queue :=
  let! cells := mapM (fun i => aget (q_queue q) (Z.rem (q_head q + i) (q_cap q))) (seqZ 0 (q_cap q)) in
  Some (MkQueue (q_cap q + QUEUESIZE) 0 (q_cap q) (q_hash q)
          (cells ++ replicate (Z.to_nat QUEUESIZE) None)).

(** [clone] only says whether the bytes are copied. *)
Definition push_data (ud : option queue) (fd : Z) (buffer : list Z) (size : Z) : option queue :=
  let q := get_queue ud in
  let tail := if q_tail q + 1 >=? q_cap q then q_tail q + 1 - q_cap q else q_tail q + 1 in
  let! cells := aset (q_queue q) (q_tail q) (Some (MkPack fd size buffer)) in
  let q := MkQueue (q_cap q) (q_head q) tail (q_hash q) cells in
  if q_head q =? q_tail q then expand_queue q else Some q.

(** Links a new node at the head of its chain; [fill] sets its fields. *)
Definition save_uncomplete (ud : option queue) (fd : Z) (fill : uncomplete -> uncomplete) : option queue :=
  let q := get_queue ud in
  let h := hash_fd fd in
  let! l := aget (q_hash q) h in
  let! hs := aset (q_hash q) h (fill (MkUc (MkPack fd 0 []) 0 0) :: l) in
  Some (set_qhash hs q).

Definition read_size (b0 b1 : Z) : Z := Z.lor (Z.shiftl b0 8) b1.

(** [uc->read = -1; uc->header = b]. *)
Definition fill_header (b : Z) (uc : uncomplete) : uncomplete := MkUc (uc_pack uc) (-1) b.
(** [uc->read], [uc->pack.size] and [uc->pack.buffer] set. *)
Definition fill_body (size read : Z) (buf : list Z) (uc : uncomplete) : uncomplete :=
  MkUc (MkPack (np_id (uc_pack uc)) size buf) read (uc_header uc).

(** The tail recursion of [push_more] consumes at least two bytes each time. *)
Fixpoint push_more (fuel : nat) (ud : option queue) (fd : Z) (buffer : list Z) : option queue :=
  match fuel, buffer with
  | S _, [b] => save_uncomplete ud fd (fill_header b)
  | S fuel, b0 :: b1 :: buffer =>
      let pack_size := read_size b0 b1 in
      let size := Z.of_nat (length buffer) in
      if size <? pack_size then
        let! buf := memcpy_at (malloc pack_size) 0 buffer in
        save_uncomplete ud fd (fill_body pack_size size buf)
      else
        let! msg := memcpy buffer 0 pack_size in
        let! q := push_data ud fd msg pack_size in
        let rest := drop (Z.to_nat pack_size) buffer in
        if size - pack_size >? 0 then push_more fuel (Some q) fd rest else Some q
  | _, _ => None
  end.

Definition close_uncomplete (ud : option queue) (fd : Z) : option (option queue) :=
  let! (_, ud) := find_uncomplete ud fd in
  Some ud.

(** [if (uc->read < 0)]: the second byte of the length. *)
Definition fill_size (uc : uncomplete) (buffer : list Z) : option (uncomplete * list Z) :=
  if uc_read uc <? 0 then
    assert! (uc_read uc =? -1) ;;
    let! (b, buffer) := match buffer with b :: l => Some (b, l) | [] => None end in
    let pack_size := Z.lor b (Z.shiftl (uc_header uc) 8) in
    Some (fill_body pack_size 0 (malloc pack_size) uc, buffer)
  else Some (uc, buffer).

(** The body of a message begun earlier. *)
Definition fill_rest (ud : option queue) (uc : uncomplete) (fd : Z) (buffer : list Z)
  : option (filter_result * option queue) :=
  let size := Z.of_nat (length buffer) in
  let need := np_size (uc_pack uc) - uc_read uc in
  if size <? need then
    let! buf := memcpy_at (np_buffer (uc_pack uc)) (uc_read uc) buffer in
    let uc := fill_body (np_size (uc_pack uc)) (uc_read uc + size) buf uc in
    let! q := ud in
    let! l := aget (q_hash q) (hash_fd fd) in
    let! hs := aset (q_hash q) (hash_fd fd) (uc :: l) in
    Some (FNone, Some (set_qhash hs q))
  else
    let! part := memcpy buffer 0 need in
    let! buf := memcpy_at (np_buffer (uc_pack uc)) (uc_read uc) part in
    let buffer := drop (Z.to_nat need) buffer in
    if size - need =? 0 then Some (FData fd buf (np_size (uc_pack uc)), ud)
    else
      let! q := push_data ud fd buf (np_size (uc_pack uc)) in
      let! q := push_more (length buffer) (Some q) fd buffer in
      Some (FMore, Some q).

(** The branch of [filter_data_] that completes a message begun earlier. *)
Definition filter_fill (ud : option queue) (uc : uncomplete) (fd : Z) (buffer : list Z)
  : option (filter_result * option queue) :=
  let! (uc, buffer) := fill_size uc buffer in
  fill_rest ud uc fd buffer.

(** The branch for a connection with nothing pending. *)
Definition filter_fresh (ud : option queue) (fd : Z) (buffer : list Z)
  : option (filter_result * option queue) :=
  match buffer with
  | [] => None
  | [b] => let! q := save_uncomplete ud fd (fill_header b) in Some (FNone, Some q)
  | b0 :: b1 :: buffer =>
      let pack_size := read_size b0 b1 in
      let size := Z.of_nat (length buffer) in
      if size <? pack_size then
        let! buf := memcpy_at (malloc pack_size) 0 buffer in
        let! q := save_uncomplete ud fd (fill_body pack_size size buf) in
        Some (FNone, Some q)
      else if size =? pack_size then
        let! result := memcpy buffer 0 size in
        Some (FData fd result size, ud)
      else
        let! msg := memcpy buffer 0 pack_size in
        let! q := push_data ud fd msg pack_size in
        let buffer := drop (Z.to_nat pack_size) buffer in
        let! q := push_more (length buffer) (Some q) fd buffer in
        Some (FMore, Some q)
  end.

Definition filter_data_ (ud : option queue) (fd : Z) (buffer : list Z)
  : option (filter_result * option queue) :=
  let! (uc, ud) := find_uncomplete ud fd in
  match uc with
  | Some uc => filter_fill ud uc fd buffer
  | None => filter_fresh ud fd buffer
  end.

(** The packet is freed after the call. *)
Definition filter_data (ud : option queue) (fd : Z) (buffer : list Z)
  : option (filter_result * option queue) := filter_data_ ud fd buffer.

(** [padding] is the text behind a message whose [buffer] is [NULL]. *)
Definition lfilter (ud : option queue) (m : skynet_socket_message) (padding : option (list Z))
  : option (filter_result * option queue) :=
  if sm_type m =? SKYNET_SOCKET_TYPE_DATA then
    assert! (bool_decide (padding = None)) ;;
    filter_data ud (sm_id m) (sm_buffer m)
  else if sm_type m =? SKYNET_SOCKET_TYPE_CONNECT then Some (FNone, ud)
  else if sm_type m =? SKYNET_SOCKET_TYPE_CLOSE then
    let! ud := close_uncomplete ud (sm_id m) in
    Some (FClose (sm_id m), ud)
  else if sm_type m =? SKYNET_SOCKET_TYPE_ACCEPT then
    let! text := padding in
    Some (FOpen (sm_ud m) text, ud)
  else if sm_type m =? SKYNET_SOCKET_TYPE_ERROR then
    let! ud := close_uncomplete ud (sm_id m) in
    let! text := padding in
    Some (FError (sm_id m) text, ud)
  else if sm_type m =? SKYNET_SOCKET_TYPE_WARNING then Some (FWarning (sm_id m) (sm_ud m), ud)
  else Some (FNone, ud).

(** The oldest message, [None] in the inner option when there is none. *)
Definition lpop (ud : option queue) : option (option (Z * list Z * Z) * option queue) :=
  match ud with
  | None => Some (None, None)
  | Some q =>
      if q_head q =? q_tail q then Some (None, ud)
      else
        let! c := aget (q_queue q) (q_head q) in
        let! np := c in
        let head := if q_head q + 1 >=? q_cap q then 0 else q_head q + 1 in
        Some (Some (np_id np, np_buffer np, np_size np),
              Some (MkQueue (q_cap q) head (q_tail q) (q_hash q) (q_queue q)))
  end.

Definition write_size (len : Z) : list Z := [Z.land (Z.shiftr len 8) 0xff; Z.land len 0xff].

(** The framed message; [None] is the Lua error for a message too long. *)
Definition lpack (msg : list Z) : option (list Z) :=
  if 0x10000 <=? Z.of_nat (length msg) then None
  else Some (write_size (Z.of_nat (length msg)) ++ msg).

Definition ltostring (ptr : option (list Z)) : list Z := default [] ptr.
