(* ===== verification/NetpackSpec.v ===== *)
(** * Correctness of packet assembly

    Cutting the stream of each connection at its length headers, independently
    of the other connections and of the packet boundaries. *)

From S2P Require Import Prelude Ring CString Framing DataBuffer Gate Netpack.

(** ** The reference decoder *)

Fixpoint decode (fuel : nat) (l : list Z) : list (list Z) * list Z :=
  match fuel, l with
  | S fuel, b0 :: b1 :: r =>
      let n := Z.to_nat (read_size b0 b1) in
      if (length r <? n)%nat then ([], l)
      else
        let '(ms, rest) := decode fuel (drop n r) in
        (take n r :: ms, rest)
  | _, _ => ([], l)
  end.

(** The complete messages at the front of a stream and what follows them. *)
Definition frames (l : list Z) : list (list Z) * list Z := decode (length l) l.

Lemma decode_fuel f1 f2 l : (length l <= f1)%nat -> (length l <= f2)%nat -> decode f1 l = decode f2 l.
Proof.
  revert f2 l. induction f1 as [|f1 IH]; intros f2 l H1 H2.
  - destruct l; [|simpl in H1; lia]. by destruct f2.
  - destruct l as [|b0 [|b1 r]]; [by destruct f2 | by destruct f2 |].
    destruct f2 as [|f2]; [simpl in H2; lia|]. simpl in *.
    destruct (length r <? _)%nat; [done|].
    rewrite (IH f2); [done | rewrite length_drop; lia..].
Qed.

Lemma frames_cons b0 b1 r : frames (b0 :: b1 :: r) =
  let n := Z.to_nat (read_size b0 b1) in
  if (length r <? n)%nat then ([], b0 :: b1 :: r)
  else let '(ms, rest) := frames (drop n r) in (take n r :: ms, rest).
Proof.
  unfold frames. change (length (b0 :: b1 :: r)) with (S (S (length r))).
  generalize (le_n (S (length r))). generalize (S (length r)) at 2 3. intros f Hf. cbn [decode].
  destruct (length r <? _)%nat; [done|].
  rewrite (decode_fuel f (length (drop (Z.to_nat (read_size b0 b1)) r))); [done| |done].
  rewrite length_drop. lia.
Qed.

Lemma read_size_bytes b0 b1 : byte b0 -> byte b1 ->
  read_size b0 b1 = b0 * 2 ^ 8 + b1 /\ encode_header 2 (read_size b0 b1) = [b0; b1] /\
  0 <= read_size b0 b1 < 2 ^ 16.
Proof.
  intros H0 H1. assert (read_size b0 b1 = b0 * 2 ^ 8 + b1) as E.
  { unfold read_size. rewrite <- (Z.shiftl_0_r b1) at 1. by rewrite lor_high, Z.shiftl_0_r by (done || lia). }
  rewrite E. unfold byte in *. split; [done|]. split; [|zlia]. unfold encode_header. cbn [Z.eqb Pos.eqb].
  f_equal; [|f_equal]; zpow; Z.div_mod_to_equations; lia.
Qed.

Lemma read_size_encode n : 0 <= n < 2 ^ 16 ->
  exists b0 b1, encode_header 2 n = [b0; b1] /\ byte b0 /\ byte b1 /\ read_size b0 b1 = n.
Proof.
  intros Hn. exists (n / 2 ^ 8), (n mod 2 ^ 8). split; [done|].
  assert (byte (n / 2 ^ 8)) by (unfold byte; zpow; Z.div_mod_to_equations; lia).
  assert (byte (n mod 2 ^ 8)) by (apply Z.mod_pos_bound; lia).
  split; [done|]. split; [done|]. destruct (read_size_bytes (n / 2 ^ 8) (n mod 2 ^ 8)) as (-> & _); [done..|].
  zpow. Z.div_mod_to_equations. lia.
Qed.

(** Encoded messages decode to themselves. *)
Lemma frames_encode msg l : frame_ok 2 msg ->
  frames (encode 2 msg ++ l) = let '(ms, rest) := frames l in (msg :: ms, rest).
Proof.
  intros Hm. unfold frame_ok, length_ok in Hm. simpl in Hm.
  destruct (read_size_encode (Z.of_nat (length msg)) Hm) as (b0 & b1 & E & _ & _ & Hr).
  unfold encode. rewrite E. cbn [app]. rewrite frames_cons, Hr, Nat2Z.id. cbv zeta.
  rewrite length_app. destruct (Nat.ltb_spec (length msg + length l) (length msg)); [lia|].
  by rewrite drop_app_length, take_app_length.
Qed.

(** ** Pending bytes of a connection *)

Definition partial_bytes (uc : uncomplete) : list Z :=
  if uc_read uc =? -1 then [uc_header uc]
  else encode_header 2 (np_size (uc_pack uc)) ++ take (Z.to_nat (uc_read uc)) (np_buffer (uc_pack uc)).

Definition uc_ok (uc : uncomplete) : Prop :=
  (uc_read uc = -1 /\ byte (uc_header uc)) \/
  (0 <= uc_read uc < np_size (uc_pack uc) /\ np_size (uc_pack uc) < 2 ^ 16 /\
   Z.of_nat (length (np_buffer (uc_pack uc))) = np_size (uc_pack uc)).

Definition uc_id (uc : uncomplete) : Z := np_id (uc_pack uc).

Definition bucket_ok (h : Z) (l : list uncomplete) : Prop :=
  NoDup (uc_id <$> l) /\ Forall (fun uc => hash_fd (uc_id uc) = h /\ uc_ok uc) l.

(** The queue holds the messages [F], oldest first. *)
Record queue_wf (q : queue) (F : list netpack) : Prop := {
  qw_ring : ring_rep (q_queue q) (q_head q) (q_tail q) F;
  qw_cap : q_cap q = Z.of_nat (length (q_queue q));
  qw_hash : Z.of_nat (length (q_hash q)) = HASHSIZE;
  qw_bucket : forall h l, aget (q_hash q) h = Some l -> bucket_ok h l;
}.

Definition pending_in (hs : list (list uncomplete)) (fd : Z) : list Z :=
  match aget hs (hash_fd fd) ≫= unchain fd with
  | Some (uc, _) => partial_bytes uc
  | None => []
  end.

(** The bytes of [fd] received but not delivered. *)
Definition partial (ud : option queue) (fd : Z) : list Z := pending_in (q_hash (get_queue ud)) fd.

Definition ud_wf (ud : option queue) (F : list netpack) : Prop := queue_wf (get_queue ud) F.

Lemma hash_fd_range fd : 0 <= hash_fd fd < HASHSIZE.
Proof. unfold hash_fd. apply Z.mod_pos_bound. unfold HASHSIZE. lia. Qed.

Lemma queue_bucket_get q F fd : queue_wf q F -> exists l, aget (q_hash q) (hash_fd fd) = Some l /\ bucket_ok (hash_fd fd) l.
Proof.
  intros Hq. destruct (aget_is_Some (q_hash q) (hash_fd fd)) as [l Hl].
  { rewrite (qw_hash _ _ Hq). apply hash_fd_range. }
  exists l. split; [done|]. by apply Hq.
Qed.

Lemma unchain_None fd l : unchain fd l = None <-> fd ∉ uc_id <$> l.
Proof.
  induction l as [|uc l IH]; simpl; [set_solver|]. rewrite not_elem_of_cons, <- IH. unfold uc_id at 1.
  destruct (Z.eqb_spec (np_id (uc_pack uc)) fd) as [E|E]; [naive_solver|].
  destruct (unchain fd l) as [[u l']|]; naive_solver.
Qed.

Lemma unchain_Some fd l uc l' : unchain fd l = Some (uc, l') -> uc_id uc = fd /\ Permutation l (uc :: l') /\
  forall fd', fd' <> fd -> fst <$> unchain fd' l' = fst <$> unchain fd' l.
Proof.
  revert l'. induction l as [|u l IH]; intros l'; simpl; [done|].
  destruct (Z.eqb_spec (np_id (uc_pack u)) fd) as [E|E].
  - intros [= -> ->]. split; [done|]. split; [done|]. intros fd' Hne.
    destruct (Z.eqb_spec (np_id (uc_pack uc)) fd'); [congruence|]. by destruct (unchain fd' l') as [[? ?]|].
  - destruct (unchain fd l) as [[u' l1]|]; [|done]. intros [= -> <-].
    destruct (IH l1 eq_refl) as (Eid & Hp & Hother). split; [done|].
    split; [rewrite Hp; constructor|]. intros fd' Hne. simpl.
    destruct (Z.eqb_spec (np_id (uc_pack u)) fd'); [done|]. specialize (Hother fd' Hne).
    destruct (unchain fd' l) as [[? ?]|], (unchain fd' l1) as [[? ?]|]; simpl in *; congruence.
Qed.

Lemma partial_bytes_nonempty uc : partial_bytes uc <> [].
Proof. unfold partial_bytes. by destruct (uc_read uc =? -1). Qed.

(** Replacing one bucket changes only the connections it speaks for. *)
Lemma set_bucket q F fd l l' hs : queue_wf q F -> aget (q_hash q) (hash_fd fd) = Some l ->
  aset (q_hash q) (hash_fd fd) l' = Some hs -> bucket_ok (hash_fd fd) l' ->
  (forall fd', fd' <> fd -> fst <$> unchain fd' l' = fst <$> unchain fd' l) ->
  queue_wf (set_qhash hs q) F /\
  pending_in hs fd = (match unchain fd l' with Some (uc, _) => partial_bytes uc | None => [] end) /\
  forall fd', fd' <> fd -> pending_in hs fd' = pending_in (q_hash q) fd'.
Proof.
  intros Hq Hl Hs Hok Hother. split; [|split].
  - split; simpl; try apply Hq; [by rewrite (aset_length _ _ _ _ Hs); apply Hq|].
    intros h l0 Hh. rewrite (aget_aset _ _ _ _ h Hs) in Hh.
    destruct (Z.eqb_spec h (hash_fd fd)) as [->|]; [by injection Hh as <-|by apply Hq].
  - unfold pending_in. by rewrite (aget_aset_eq _ _ _ _ Hs).
  - intros fd' Hne. unfold pending_in. rewrite (aget_aset _ _ _ _ (hash_fd fd') Hs).
    destruct (Z.eqb_spec (hash_fd fd') (hash_fd fd)) as [E|]; [|done]. rewrite E, Hl. simpl.
    specialize (Hother fd' Hne). destruct (unchain fd' l') as [[? ?]|], (unchain fd' l) as [[? ?]|];
      simpl in Hother; congruence.
Qed.

Lemma get_queue_wf : ud_wf None [].
Proof.
  unfold ud_wf, get_queue, new_queue. split; cbn [q_queue q_head q_tail q_cap q_hash].
  - apply ring_rep_nil. change (Z.to_nat QUEUESIZE) with 1024%nat. lia.
  - rewrite length_replicate. unfold QUEUESIZE. lia.
  - rewrite length_replicate. unfold HASHSIZE. lia.
  - intros h l [_ Hl]%aget_Some. apply lookup_replicate in Hl as [-> _]. split; constructor.
Qed.

(** ** The operations *)

(** Only the pending bytes of [fd] may change. *)
Definition only_fd (fd : Z) (hs hs' : list (list uncomplete)) : Prop :=
  forall fd', fd' <> fd -> pending_in hs' fd' = pending_in hs fd'.

Lemma bucket_perm h l l' : Permutation l l' -> bucket_ok h l -> bucket_ok h l'.
Proof. intros Hp [Hnd Hf]. split; [by rewrite <- Hp | by rewrite <- Hp]. Qed.

Lemma find_uncomplete_spec ud F fd : ud_wf ud F ->
  exists uc ud', find_uncomplete ud fd = Some (uc, ud') /\ ud_wf ud' F /\ partial ud' fd = [] /\
    only_fd fd (q_hash (get_queue ud)) (q_hash (get_queue ud')) /\
    match uc with
    | Some uc => ud <> None /\ ud' <> None /\ uc_ok uc /\ uc_id uc = fd /\ partial ud fd = partial_bytes uc
    | None => ud' = ud /\ partial ud fd = []
    end.
Proof.
  intros Hq. destruct (queue_bucket_get _ _ fd Hq) as (l & Hl & Hok).
  assert (partial ud fd = match unchain fd l with Some (uc, _) => partial_bytes uc | None => [] end) as Hp
    by (unfold partial, pending_in; by rewrite Hl).
  destruct ud as [q|]; cbn [get_queue find_uncomplete] in *.
  2:{ exists None, None. assert (l = []) as ->.
      { unfold new_queue in Hl. cbn [q_hash] in Hl. apply aget_Some in Hl as [_ Hl]. by apply lookup_replicate in Hl as [-> _]. }
      simpl in Hp. by split_and!. }
  rewrite Hl. destruct (unchain fd l) as [[uc l']|] eqn:Eu.
  - destruct (unchain_Some _ _ _ _ Eu) as (Eid & Hperm & Hother).
    pose proof (bucket_perm _ _ _ Hperm Hok) as [[Hni Hnd]%NoDup_cons [[_ Huc] Hf]%Forall_cons].
    destruct (aset (q_hash q) (hash_fd fd) l') as [hs|] eqn:Es;
      [|rewrite aset_Some in Es by (by eapply aget_lt); done].
    destruct (set_bucket q F fd l l' hs Hq Hl Es) as (Hq' & Hp' & Hrest); [by split|done|].
    exists (Some uc), (Some (set_qhash hs q)). split_and!; try done.
    unfold partial. simpl. rewrite Hp'. assert (unchain fd l' = None) as ->; [|done].
    apply unchain_None. by rewrite <- Eid.
  - exists None, (Some q). by split_and!.
Qed.

(** Adds a node for a connection that has none. *)
Lemma add_uncomplete q F fd uc l hs : queue_wf q F -> pending_in (q_hash q) fd = [] ->
  uc_ok uc -> uc_id uc = fd -> aget (q_hash q) (hash_fd fd) = Some l ->
  aset (q_hash q) (hash_fd fd) (uc :: l) = Some hs ->
  queue_wf (set_qhash hs q) F /\ pending_in hs fd = partial_bytes uc /\ only_fd fd (q_hash q) hs.
Proof.
  intros Hq Hno Huc Eid Hl Hs. pose proof (qw_bucket _ _ Hq _ _ Hl) as [Hnd Hf].
  assert (fd ∉ uc_id <$> l) as Hni.
  { apply unchain_None. unfold pending_in in Hno. rewrite Hl in Hno. simpl in Hno.
    destruct (unchain fd l) as [[u ?]|]; [|done]. by apply partial_bytes_nonempty in Hno. }
  destruct (set_bucket q F fd l (uc :: l) hs Hq Hl Hs) as (Hq' & Hp & Hrest).
  - split; [simpl; rewrite Eid; by constructor|]. constructor; [by rewrite Eid|done].
  - intros fd' Hne. simpl. unfold uc_id in Eid. destruct (Z.eqb_spec (np_id (uc_pack uc)) fd'); [congruence|].
    by destruct (unchain fd' l) as [[? ?]|].
  - split; [done|]. split; [|done]. rewrite Hp. simpl. unfold uc_id in Eid. by rewrite Eid, Z.eqb_refl.
Qed.

Lemma save_uncomplete_spec ud F fd fill : ud_wf ud F -> partial ud fd = [] ->
  let uc := fill (MkUc (MkPack fd 0 []) 0 0) in uc_ok uc -> uc_id uc = fd ->
  exists q, save_uncomplete ud fd fill = Some q /\ queue_wf q F /\ pending_in (q_hash q) fd = partial_bytes uc /\
    only_fd fd (q_hash (get_queue ud)) (q_hash q).
Proof.
  intros Hq Hno uc Huc Eid. unfold save_uncomplete. destruct (queue_bucket_get _ _ fd Hq) as (l & Hl & _). rewrite Hl.
  fold uc. destruct (aset _ (hash_fd fd) (uc :: l)) as [hs|] eqn:Es;
    [|rewrite aset_Some in Es by (by eapply aget_lt); done].
  eexists. split; [done|]. by eapply add_uncomplete.
Qed.

Lemma expand_spec q F : queue_wf (MkQueue (q_cap q) 0 0 (q_hash q) (q_queue q)) [] ->
  0 < q_cap q -> q_cap q = Z.of_nat (length (q_queue q)) ->
  ring_seg (q_queue q) (q_head q) F -> length F = length (q_queue q) ->
  exists q', expand_queue q = Some q' /\ queue_wf q' F /\ q_hash q' = q_hash q.
Proof.
  intros [_ _ Hh Hb] Hpos Hc Hseg Hl. unfold expand_queue.
  destruct (mapM_seqZ (fun i => aget (q_queue q) (Z.rem (q_head q + i) (q_cap q))) (q_cap q))
    as (cells & -> & Hlc & Hcell).
  { intros i Hi. apply aget_is_Some. rewrite <- Hc. destruct Hseg as (Hr & _ & _).
    rewrite Z.rem_mod_nonneg by lia. apply Z.mod_pos_bound. lia. }
  eexists. split; [done|]. assert (0 < QUEUESIZE) as HQ by done. split; [|done].
  split; cbn [q_queue q_head q_tail q_cap q_hash]; try done.
  - unfold ring_rep. rewrite length_app, length_replicate. split_and!; [|lia|].
    + eapply ring_seg_copy; [exact Hseg | rewrite length_app, length_replicate; lia |].
      intros i Hi. rewrite aget_nat, lookup_app_l by lia. rewrite <- aget_nat, Hcell by lia.
      destruct Hseg as (Hr & _ & _). rewrite Z.rem_mod_nonneg by lia. by rewrite <- Hc.
    + rewrite Z.mod_small; lia.
  - rewrite length_app, length_replicate. lia.
Qed.

(** A message is appended, whether or not the ring has to grow. *)
Lemma push_data_spec ud F fd msg size : ud_wf ud F ->
  exists q, push_data ud fd msg size = Some q /\ queue_wf q (F ++ [MkPack fd size msg]) /\
    q_hash q = q_hash (get_queue ud).
Proof.
  unfold ud_wf, push_data. generalize (get_queue ud). clear ud. intros q [Hr Hc Hh Hb].
  pose proof (ring_rep_tail_range _ _ _ _ Hr) as Ht. destruct (aset (q_queue q) (q_tail q) _) as [cells|] eqn:Es;
    [|rewrite aset_Some in Es by lia; done].
  pose proof (aset_length _ _ _ _ Es) as Hcl. pose proof Hr as (Hseg & Hlt & Htail). destruct Hseg as (Hhd & Hseg).
  assert (ring_seg cells (q_head q) (F ++ [MkPack fd size msg])) as Hseg'.
  { rewrite Htail in Es. eapply ring_seg_snoc; [by split|done|done]. }
  assert ((if q_tail q + 1 >=? q_cap q then q_tail q + 1 - q_cap q else q_tail q + 1) =
    (q_head q + Z.of_nat (length (F ++ [MkPack fd size msg]))) mod Z.of_nat (length cells)) as ->.
  { rewrite Hcl, length_app, <- Hc. simpl. rewrite Hc, Htail.
    rewrite (mod_wrap (_ + Z.of_nat (length F))), mod_wrap by lia. rewrite !Z.geb_leb.
    repeat case_match; blia. }
  set (t := (_ + _) mod _). cbn [q_head q_tail]. destruct (Z.eqb_spec (q_head q) t) as [E|E].
  - destruct (expand_spec (MkQueue (q_cap q) (q_head q) t (q_hash q) cells) (F ++ [MkPack fd size msg]))
      as (q' & -> & Hq' & Eh); simpl; try lia; try done.
    + split; simpl; try done; [|lia]. split; [|split; [simpl; lia|simpl; rewrite Z.mod_0_l; lia]].
      split; [lia|]. split; [simpl; lia|]. by intros i x ?.
    + rewrite length_app. simpl. unfold t in E. rewrite mod_wrap in E by (rewrite length_app; simpl; lia).
      rewrite length_app in E. simpl in E.
      destruct (Z.ltb_spec (q_head q + Z.of_nat (length F + 1)) (Z.of_nat (length cells))); lia.
    + by exists q'.
  - eexists. split; [done|]. split; [|done]. split; simpl; try done; [|lia].
    split; [done|]. split; [|done].
    rewrite Hcl, length_app. simpl. destruct (decide (length F + 1 = length (q_queue q))%nat) as [El|]; [|lia].
    exfalso. apply E. unfold t. rewrite mod_wrap by (rewrite length_app; simpl; lia).
    rewrite length_app. simpl. destruct (Z.ltb_spec (q_head q + Z.of_nat (length F + 1)) (Z.of_nat (length cells))); lia.
Qed.

Definition pack (fd : Z) (msg : list Z) : netpack := MkPack fd (Z.of_nat (length msg)) msg.

Lemma frames_nil_inv l : frames l = ([], []) -> l = [].
Proof.
  destruct l as [|b0 [|b1 r]]; [done | done |]. rewrite frames_cons. cbv zeta.
  destruct (length r <? _)%nat; [done|]. by destruct (frames _).
Qed.

Lemma frames_short b0 b1 r : Z.of_nat (length r) < read_size b0 b1 ->
  frames (b0 :: b1 :: r) = ([], b0 :: b1 :: r).
Proof. intros. rewrite frames_cons. cbv zeta. destruct (Nat.ltb_spec (length r) (Z.to_nat (read_size b0 b1))); [done|lia]. Qed.

Lemma frames_full b0 b1 r : 0 <= read_size b0 b1 <= Z.of_nat (length r) ->
  frames (b0 :: b1 :: r) =
    let '(ms, rest) := frames (drop (Z.to_nat (read_size b0 b1)) r) in
    (take (Z.to_nat (read_size b0 b1)) r :: ms, rest).
Proof. intros. rewrite frames_cons. cbv zeta. destruct (Nat.ltb_spec (length r) (Z.to_nat (read_size b0 b1))); [lia|done]. Qed.

(** Saving the start of a message whose header is complete. *)
Lemma save_body ud F fd b0 b1 r : ud_wf ud F -> partial ud fd = [] -> byte b0 -> byte b1 ->
  Z.of_nat (length r) < read_size b0 b1 ->
  exists buf q, memcpy_at (malloc (read_size b0 b1)) 0 r = Some buf /\
    save_uncomplete ud fd (fill_body (read_size b0 b1) (Z.of_nat (length r)) buf) = Some q /\
    queue_wf q F /\ pending_in (q_hash q) fd = b0 :: b1 :: r /\ only_fd fd (q_hash (get_queue ud)) (q_hash q).
Proof.
  intros Hq Hno H0 H1 Hlt. destruct (read_size_bytes b0 b1 H0 H1) as (_ & Henc & Hn).
  destruct (memcpy_at_spec (malloc (read_size b0 b1)) 0 r) as (buf & Hcp & Hlen & Htk);
    [lia | unfold malloc; rewrite length_replicate; lia |].
  unfold malloc in Hlen. rewrite length_replicate in Hlen.
  destruct (save_uncomplete_spec ud F fd (fill_body (read_size b0 b1) (Z.of_nat (length r)) buf) Hq Hno)
    as (q & Hsv & Hq' & Hp & Hrest); [|done|].
  - right. simpl. lia.
  - exists buf, q. split_and!; try done. rewrite Hp. unfold partial_bytes, fill_body.
    cbn [uc_read uc_pack np_size np_buffer].
    destruct (Z.eqb_spec (Z.of_nat (length r)) (-1)); [lia|]. rewrite Henc, Nat2Z.id. simpl in Htk. by rewrite Htk.
Qed.

Lemma push_more_spec fuel ud F fd buf : ud_wf ud F -> partial ud fd = [] -> Forall byte buf -> buf <> [] ->
  (length buf <= fuel)%nat ->
  let '(ms, rest) := frames buf in
  exists q, push_more fuel ud fd buf = Some q /\ queue_wf q (F ++ (pack fd <$> ms)) /\
    pending_in (q_hash q) fd = rest /\ only_fd fd (q_hash (get_queue ud)) (q_hash q).
Proof.
  revert ud F buf. induction fuel as [|fuel IH]; intros ud F buf Hq Hno Hb Hne Hf.
  { destruct buf; [done|simpl in Hf; lia]. }
  destruct buf as [|b0 [|b1 r]]; [done| |].
  { change (frames [b0]) with (@nil (list Z), [b0]). cbv iota beta. rewrite app_nil_r.
    apply Forall_cons in Hb as [Hb _].
    destruct (save_uncomplete_spec ud F fd (fill_header b0) Hq Hno) as (q & Hs & H); [left; split; [reflexivity|exact Hb]|done|].
    by exists q. }
  apply Forall_cons in Hb as [Hb0 [Hb1 Hb]%Forall_cons].
  destruct (read_size_bytes b0 b1 Hb0 Hb1) as (_ & _ & Hn). cbn [push_more].
  destruct (Z.ltb_spec (Z.of_nat (length r)) (read_size b0 b1)) as [Hs|Hs].
  { rewrite frames_short by done. cbn [fmap list_fmap app]. rewrite app_nil_r.
    destruct (save_body ud F fd b0 b1 r Hq Hno Hb0 Hb1 Hs) as (buf & q & -> & -> & H). by exists q. }
  rewrite frames_full by lia. rewrite memcpy_Some by lia. change (drop (Z.to_nat 0) r) with r.
  set (n := Z.to_nat (read_size b0 b1)).
  destruct (push_data_spec ud F fd (take n r) (read_size b0 b1) Hq) as (q & -> & Hq' & Eh).
  assert (MkPack fd (read_size b0 b1) (take n r) = pack fd (take n r)) as Epk.
  { unfold pack. f_equal. rewrite length_take. lia. }
  rewrite Epk in Hq'. destruct (Z.gtb_spec (Z.of_nat (length r) - read_size b0 b1) 0) as [Hgt|Hle].
  - assert (partial (Some q) fd = []) as Hno' by (unfold partial; simpl; rewrite Eh; exact Hno).
    specialize (IH (Some q) _ (drop n r) Hq' Hno' (Forall_drop _ _ _ Hb)).
    destruct (frames (drop n r)) as [ms rest]. destruct IH as (q' & -> & Hq'' & Hp & Hrest).
    + intros E%(f_equal length). rewrite length_drop in E. simpl in E. lia.
    + rewrite length_drop. simpl in Hf. lia.
    + exists q'. split; [done|]. rewrite <- app_assoc in Hq''. simpl in *. rewrite Eh in Hrest. done.
  - rewrite (drop_ge r n) by lia. change (frames []) with (@nil (list Z), @nil Z). cbv iota beta.
    exists q. split; [done|]. split; [done|]. rewrite Eh. split; [exact Hno|]. by intros fd' _.
Qed.

(** ** Filtering a packet *)

(** What the Lua side gets, and the queue afterwards, when the stream yields
    [ms] and leaves [rest]. *)
Definition outcome (fd : Z) (F : list netpack) (ms : list (list Z)) (rest : list Z)
  : filter_result * list netpack :=
  match ms, rest with
  | [], _ => (FNone, F)
  | [m], [] => (FData fd m (Z.of_nat (length m)), F)
  | _, _ => (FMore, F ++ (pack fd <$> ms))
  end.

Definition filter_post (ud : option queue) (F : list netpack) (fd : Z) (stream : list Z)
  (run : option (filter_result * option queue)) : Prop :=
  let '(ms, rest) := frames stream in
  let '(res, F') := outcome fd F ms rest in
  exists ud', run = Some (res, ud') /\ ud_wf ud' F' /\ partial ud' fd = rest /\
    only_fd fd (q_hash (get_queue ud)) (q_hash (get_queue ud')).

(** The common end of both branches: a complete message and more bytes behind it. *)
Lemma filter_more ud F fd msg tl : ud_wf ud F -> partial ud fd = [] -> Forall byte tl -> tl <> [] ->
  let '(ms, rest) := frames tl in
  outcome fd F (msg :: ms) rest = (FMore, F ++ (pack fd <$> msg :: ms)) /\
  exists q q', push_data ud fd msg (Z.of_nat (length msg)) = Some q /\
    push_more (length tl) (Some q) fd tl = Some q' /\ ud_wf (Some q') (F ++ (pack fd <$> msg :: ms)) /\
    partial (Some q') fd = rest /\ only_fd fd (q_hash (get_queue ud)) (q_hash q').
Proof.
  intros Hq Hno Hb Hne. destruct (push_data_spec ud F fd msg (Z.of_nat (length msg)) Hq) as (q & Hpd & Hq1 & Eh).
  assert (partial (Some q) fd = []) as Hno1 by (unfold partial; cbn [get_queue]; rewrite Eh; exact Hno).
  pose proof (push_more_spec (length tl) (Some q) _ fd tl Hq1 Hno1 Hb Hne (le_n _)) as Hpm.
  destruct (frames tl) as [ms rest] eqn:Ef. destruct Hpm as (q' & Hpm & Hq2 & Hp & Hrest). split.
  - destruct ms as [|m ms]; [|done]. destruct rest; [|done]. by apply frames_nil_inv in Ef.
  - exists q, q'. cbn [get_queue] in Hrest. rewrite Eh in Hrest. rewrite <- app_assoc in Hq2. by split_and!.
Qed.

Lemma filter_fresh_spec ud F fd buf : ud_wf ud F -> partial ud fd = [] -> Forall byte buf -> buf <> [] ->
  filter_post ud F fd buf (filter_fresh ud fd buf).
Proof.
  intros Hq Hno Hb Hne. unfold filter_post. destruct buf as [|b0 [|b1 r]]; [done| |].
  { change (frames [b0]) with (@nil (list Z), [b0]). cbn [outcome filter_fresh]. apply Forall_cons in Hb as [Hb _].
    destruct (save_uncomplete_spec ud F fd (fill_header b0) Hq Hno) as (q & -> & H);
      [left; split; [reflexivity|exact Hb]|done|]. by exists (Some q). }
  apply Forall_cons in Hb as [Hb0 [Hb1 Hb]%Forall_cons].
  destruct (read_size_bytes b0 b1 Hb0 Hb1) as (_ & _ & Hn). cbn [filter_fresh].
  destruct (Z.ltb_spec (Z.of_nat (length r)) (read_size b0 b1)) as [Hs|Hs].
  { rewrite frames_short by done. cbn [outcome].
    destruct (save_body ud F fd b0 b1 r Hq Hno Hb0 Hb1 Hs) as (buf & q & -> & -> & H). by exists (Some q). }
  rewrite frames_full by lia. destruct (Z.eqb_spec (Z.of_nat (length r)) (read_size b0 b1)) as [E|E].
  - rewrite <- E, Nat2Z.id, drop_ge, firstn_all by done. change (frames []) with (@nil (list Z), @nil Z).
    cbn [outcome]. rewrite memcpy_Some by lia. change (drop (Z.to_nat 0) r) with r. rewrite Nat2Z.id, firstn_all.
    exists ud. split_and!; try done.
  - rewrite memcpy_Some by lia. change (drop (Z.to_nat 0) r) with r. set (n := Z.to_nat (read_size b0 b1)).
    pose proof (filter_more ud F fd (take n r) (drop n r) Hq Hno (Forall_drop _ _ _ Hb)) as Hmore.
    destruct (frames (drop n r)) as [ms rest]. destruct Hmore as (-> & q & q' & Hpd & Hpm & H).
    { intros E'%(f_equal length). rewrite length_drop in E'. simpl in E'. lia. }
    replace (Z.of_nat (length (take n r))) with (read_size b0 b1) in Hpd by (rewrite length_take; lia).
    rewrite Hpd, Hpm. by exists (Some q').
Qed.

(** A node whose length is known, with [pre] received. *)
Record body_state (uc : uncomplete) (b0 b1 : Z) (pre : list Z) : Prop := {
  bs_size : np_size (uc_pack uc) = read_size b0 b1;
  bs_read : uc_read uc = Z.of_nat (length pre) /\ uc_read uc <= read_size b0 b1;
  bs_len : Z.of_nat (length (np_buffer (uc_pack uc))) = read_size b0 b1;
  bs_pre : take (length pre) (np_buffer (uc_pack uc)) = pre;
}.

Lemma fill_rest_spec q F fd uc b0 b1 pre buf : queue_wf q F -> pending_in (q_hash q) fd = [] ->
  uc_id uc = fd -> body_state uc b0 b1 pre -> byte b0 -> byte b1 -> Forall byte buf ->
  filter_post (Some q) F fd (b0 :: b1 :: pre ++ buf) (fill_rest (Some q) uc fd buf).
Proof.
  intros Hq Hno Eid [Esz [Erd Hle] Elen Epre] H0 H1 Hb.
  destruct (read_size_bytes b0 b1 H0 H1) as (_ & Henc & Hn). unfold filter_post, fill_rest. rewrite Esz, Erd.
  destruct (Z.ltb_spec (Z.of_nat (length buf)) (read_size b0 b1 - Z.of_nat (length pre))) as [Hs|Hs].
  - rewrite frames_short by (rewrite length_app; lia). cbn [outcome].
    destruct (memcpy_at_spec (np_buffer (uc_pack uc)) (Z.of_nat (length pre)) buf) as (buf' & -> & Hl' & Htk); [lia..|].
    destruct (queue_bucket_get _ _ fd Hq) as (l & Hl & _). rewrite Hl.
    destruct (aset _ (hash_fd fd) _) as [hs|] eqn:Es; [|rewrite aset_Some in Es by (by eapply aget_lt); done].
    match type of Es with aset _ _ (?u :: _) = _ =>
      destruct (add_uncomplete q F fd u l hs Hq Hno) as (Hq' & Hp & Hrest); [|done|done|done|] end.
    { right. simpl. lia. }
    eexists. split; [done|]. split; [done|]. split; [|done]. unfold partial. cbn [get_queue q_hash set_qhash].
    rewrite Hp. unfold partial_bytes, fill_body. cbn [uc_read uc_pack np_size np_buffer].
    destruct (Z.eqb_spec (Z.of_nat (length pre) + Z.of_nat (length buf)) (-1)); [lia|].
    rewrite Henc. rewrite Nat2Z.id in Htk. replace (Z.to_nat _) with (length pre + length buf)%nat by lia.
    by rewrite Htk, Epre.
  - rewrite frames_full by (rewrite length_app; lia). set (need := read_size b0 b1 - Z.of_nat (length pre)) in *.
    rewrite memcpy_Some by lia. change (drop (Z.to_nat 0) buf) with buf.
    destruct (memcpy_at_spec (np_buffer (uc_pack uc)) (Z.of_nat (length pre)) (take (Z.to_nat need) buf))
      as (buf' & -> & Hl' & Htk); [lia | rewrite length_take; lia |].
    rewrite length_take, Nat2Z.id, Epre, take_ge in Htk by lia.
    replace (Z.to_nat (read_size b0 b1)) with (length pre + Z.to_nat need)%nat by lia.
    rewrite drop_app_add, take_app_add, <- Htk. destruct (Z.eqb_spec (Z.of_nat (length buf) - need) 0) as [E|E].
    + rewrite (drop_ge buf) by lia. change (frames []) with (@nil (list Z), @nil Z). cbn [outcome].
      replace (Z.of_nat (length buf')) with (read_size b0 b1) by lia. exists (Some q). by split_and!.
    + pose proof (filter_more (Some q) F fd buf' (drop (Z.to_nat need) buf) Hq Hno (Forall_drop _ _ _ Hb)) as Hmore.
      destruct (frames (drop (Z.to_nat need) buf)) as [ms rest]. destruct Hmore as (-> & q1 & q2 & Hpd & Hpm & H).
      { intros E'%(f_equal length). rewrite length_drop in E'. simpl in E'. lia. }
      replace (Z.of_nat (length buf')) with (read_size b0 b1) in Hpd by lia.
      rewrite Hpd, Hpm. by exists (Some q2).
Qed.

Lemma filter_fill_spec q F fd uc buf : queue_wf q F -> pending_in (q_hash q) fd = [] ->
  uc_ok uc -> uc_id uc = fd -> Forall byte buf -> buf <> [] ->
  filter_post (Some q) F fd (partial_bytes uc ++ buf) (filter_fill (Some q) uc fd buf).
Proof.
  intros Hq Hno Hok Eid Hb Hne. unfold filter_fill, fill_size, partial_bytes. destruct Hok as [[Er Hh]|(Hr & Hsz & Hlen)].
  - rewrite Er. cbn [Z.ltb Z.eqb Pos.eqb Z.compare]. destruct buf as [|b buf]; [done|].
    apply Forall_cons in Hb as [Hb Hb']. cbn [app].
    assert (Z.lor b (Z.shiftl (uc_header uc) 8) = read_size (uc_header uc) b) as -> by apply Z.lor_comm.
    destruct (read_size_bytes (uc_header uc) b Hh Hb) as (_ & _ & Hn).
    apply (fill_rest_spec q F fd _ (uc_header uc) b [] buf); try done.
    split; simpl; try done; try lia. unfold malloc. rewrite length_replicate. lia.
  - destruct (Z.ltb_spec (uc_read uc) 0); [lia|]. destruct (Z.eqb_spec (uc_read uc) (-1)); [lia|].
    destruct (read_size_encode (np_size (uc_pack uc))) as (b0 & b1 & -> & H0 & H1 & Hrs); [lia|].
    apply (fill_rest_spec q F fd uc b0 b1 (take (Z.to_nat (uc_read uc)) (np_buffer (uc_pack uc))) buf); try done.
    split; rewrite ?length_take, ?Hrs; try lia. f_equal. lia.
Qed.

Lemma filter_data_rep ud F fd buf : ud_wf ud F -> Forall byte buf -> buf <> [] ->
  filter_post ud F fd (partial ud fd ++ buf) (filter_data ud fd buf).
Proof.
  intros Hq Hb Hne. unfold filter_data, filter_data_.
  destruct (find_uncomplete_spec ud F fd Hq) as (uc & ud' & -> & Hq' & Hno & Hrest & Huc).
  destruct uc as [uc|].
  - destruct Huc as (_ & Hud & Hok & Eid & ->). destruct ud' as [q|]; [|done].
    pose proof (filter_fill_spec q F fd uc buf Hq' Hno Hok Eid Hb Hne) as H. unfold filter_post in *.
    destruct (frames _) as [ms rest], (outcome fd F ms rest) as [res F'].
    destruct H as (ud'' & Hrun & Hwf & Hp & Ho). exists ud''. split_and!; try done.
    intros fd' Hfd. rewrite Ho by done. by apply Hrest.
  - destruct Huc as [-> ->]. by apply filter_fresh_spec.
Qed.

(** C29: [filter_data] cuts the stream of a connection, with what was pending, at
    its length headers: it returns a single complete message directly, queues
    several in order behind those already queued, keeps an incomplete one
    pending, and touches no other connection; it never fails on a non-empty packet. *)
Theorem filter_data_spec ud F fd buf : ud_wf ud F -> Forall byte buf -> buf <> [] ->
  let '(ms, rest) := frames (partial ud fd ++ buf) in
  let '(res, F') := outcome fd F ms rest in
  exists ud', filter_data ud fd buf = Some (res, ud') /\ ud_wf ud' F' /\ partial ud' fd = rest /\
    forall fd', fd' <> fd -> partial ud' fd' = partial ud fd'.
Proof. apply filter_data_rep. Qed.

(** ** A service with many connections *)

(** The Lua side: it takes a message returned directly, and empties the queue when
    told there is more. *)
Fixpoint drain (fuel : nat) (ud : option queue) : option (list (Z * list Z) * option queue) :=
  match fuel with
  | O => None
  | S fuel =>
      let! (r, ud) := lpop ud in
      match r with
      | None => Some ([], ud)
      | Some (fd, msg, _) => let! (l, ud) := drain fuel ud in Some ((fd, msg) :: l, ud)
      end
  end.

Definition receive (ud : option queue) (fd : Z) (buf : list Z) : option (list (Z * list Z) * option queue) :=
  let! (res, ud) := filter_data ud fd buf in
  match res with
  | FData fd msg _ => Some ([(fd, msg)], ud)
  | FMore => drain (Z.to_nat (q_cap (get_queue ud))) ud
  | _ => Some ([], ud)
  end.

Fixpoint receive_all (ud : option queue) (packets : list (Z * list Z))
  : option (list (Z * list Z) * option queue) :=
  match packets with
  | [] => Some ([], ud)
  | (fd, buf) :: packets =>
      let! (l1, ud) := receive ud fd buf in
      let! (l2, ud) := receive_all ud packets in
      Some (l1 ++ l2, ud)
  end.

Lemma lpop_spec ud F : ud_wf ud F ->
  match F with
  | [] => lpop ud = Some (None, ud)
  | np :: F => exists ud', lpop ud = Some (Some (np_id np, np_buffer np, np_size np), ud') /\ ud_wf ud' F /\
      q_hash (get_queue ud') = q_hash (get_queue ud)
  end.
Proof.
  intros Hq. destruct ud as [q|].
  2:{ destruct F as [|np F]; [done|]. exfalso. pose proof (qw_ring _ _ Hq) as Hr.
      apply ring_rep_empty in Hr as [Hr _]. by specialize (Hr eq_refl). }
  destruct Hq as [Hr Hc Hh Hb]. cbn [get_queue lpop] in *. pose proof (ring_rep_empty _ _ _ _ Hr) as He.
  destruct F as [|np F].
  { rewrite (proj2 He eq_refl), Z.eqb_refl. done. }
  destruct (Z.eqb_spec (q_head q) (q_tail q)) as [E|_]; [by apply He in E|].
  pose proof Hr as (Hseg & Hlt & Htail). rewrite (ring_seg_head _ _ _ _ Hseg).
  eexists. split; [done|]. split; [|done]. split; cbn [get_queue q_queue q_head q_tail q_cap q_hash]; try done.
  pose proof Hseg as (Hhd & _). rewrite Hc, ring_succ by lia. split; [by eapply ring_seg_rest|]. simpl in Hlt.
  split; [lia|]. rewrite Htail, Z.add_mod_idemp_l by lia. f_equal. simpl. lia.
Qed.

Lemma drain_spec fuel ud F : ud_wf ud F -> (length F < fuel)%nat ->
  exists ud', drain fuel ud = Some ((fun np => (np_id np, np_buffer np)) <$> F, ud') /\ ud_wf ud' [] /\
    q_hash (get_queue ud') = q_hash (get_queue ud).
Proof.
  revert ud F. induction fuel as [|fuel IH]; intros ud F Hq Hf; [lia|]. cbn [drain].
  pose proof (lpop_spec ud F Hq) as Hp. destruct F as [|np F]; [rewrite Hp; by exists ud|].
  destruct Hp as (ud1 & -> & Hq1 & Eh1). destruct (IH ud1 F Hq1) as (ud' & -> & Hq' & Eh'); [simpl in Hf; lia|].
  exists ud'. split; [done|]. split; [done|]. congruence.
Qed.

Lemma frames_app l1 l2 : let '(ms1, rest1) := frames l1 in
  frames (l1 ++ l2) = let '(ms2, rest2) := frames (rest1 ++ l2) in (ms1 ++ ms2, rest2).
Proof.
  induction l1 as [l IH] using (induction_ltof1 _ (@length Z)).
  destruct l as [|b0 [|b1 r]].
  1: change (frames []) with (@nil (list Z), @nil Z); cbn [app]; by destruct (frames _).
  1: change (frames [b0]) with (@nil (list Z), [b0]); cbn [app]; by destruct (frames _).
  rewrite (frames_cons b0 b1 r). cbv zeta. destruct (Nat.ltb_spec (length r) (Z.to_nat (read_size b0 b1))) as [Hs|Hs].
  { by destruct (frames _). }
  specialize (IH (drop (Z.to_nat (read_size b0 b1)) r)). unfold ltof in IH. rewrite length_drop in IH.
  destruct (frames (drop _ r)) as [ms rest]. specialize (IH ltac:(simpl; lia)). cbn [app].
  rewrite frames_cons. cbv zeta. rewrite length_app.
  destruct (Nat.ltb_spec (length r + length l2) (Z.to_nat (read_size b0 b1))); [lia|].
  rewrite drop_app_le, take_app_le, IH by lia. by destruct (frames (rest ++ l2)).
Qed.

(** A stream without a complete message is all rest. *)
Lemma frames_stable l : (frames l).1 = [] -> frames l = ([], l).
Proof.
  destruct l as [|b0 [|b1 r]]; [done..|]. rewrite frames_cons. cbv zeta.
  destruct (length r <? _)%nat; [done|]. by destruct (frames _).
Qed.

(** What a connection sent, and what was delivered for it. *)
Definition stream_of (fd : Z) (packets : list (Z * list Z)) : list Z :=
  concat (filter (fun p => p.1 = fd) packets).*2.
Definition delivered (fd : Z) (out : list (Z * list Z)) : list (list Z) :=
  (filter (fun p => p.1 = fd) out).*2.

Lemma delivered_app fd l1 l2 : delivered fd (l1 ++ l2) = delivered fd l1 ++ delivered fd l2.
Proof. unfold delivered. by rewrite filter_app, fmap_app. Qed.

Lemma delivered_same fd ms : delivered fd (pair fd <$> ms) = ms.
Proof.
  unfold delivered. induction ms as [|m ms IH]; [done|]. rewrite fmap_cons, filter_cons, decide_True by done.
  simpl. by f_equal.
Qed.

Lemma delivered_other fd fd' (ms : list (list Z)) : fd <> fd' -> delivered fd (pair fd' <$> ms) = [].
Proof.
  intros Hne. unfold delivered. induction ms as [|m ms IH]; [done|]. rewrite fmap_cons, filter_cons, decide_False by done.
  done.
Qed.

Lemma receive_spec ud fd buf : ud_wf ud [] -> Forall byte buf -> buf <> [] ->
  let '(ms, rest) := frames (partial ud fd ++ buf) in
  exists ud', receive ud fd buf = Some (pair fd <$> ms, ud') /\ ud_wf ud' [] /\ partial ud' fd = rest /\
    forall fd', fd' <> fd -> partial ud' fd' = partial ud fd'.
Proof.
  intros Hq Hb Hne. pose proof (filter_data_rep ud [] fd buf Hq Hb Hne) as H. unfold filter_post in H.
  destruct (frames _) as [ms rest]. destruct (outcome fd [] ms rest) as [res F'] eqn:Eo.
  destruct H as (ud1 & Hrun & Hq1 & Hp & Ho). unfold receive. rewrite Hrun.
  assert (res = FMore -> F' = pack fd <$> ms) as Hmore.
  { unfold outcome in Eo. repeat case_match; by simplify_eq. }
  destruct (decide (res = FMore)) as [->|Hnm].
  - rewrite (Hmore eq_refl) in *. destruct (drain_spec (Z.to_nat (q_cap (get_queue ud1))) ud1 _ Hq1) as (ud' & -> & Hq' & Eh).
    { pose proof (qw_cap _ _ Hq1). pose proof (qw_ring _ _ Hq1) as (_ & Hlt & _). lia. }
    exists ud'. split; [by rewrite <- list_fmap_compose|]. unfold partial in *. rewrite Eh. done.
  - destruct ms as [|m [|m' ms]]; simpl in Eo; [| |by injection Eo as <- <-].
    + injection Eo as <- <-. by exists ud1.
    + destruct rest; injection Eo as <- <-; [by exists ud1 | done].
Qed.

Lemma receive_all_spec packets ud : ud_wf ud [] ->
  Forall (fun p => Forall byte p.2 /\ p.2 <> []) packets -> (forall fd, (frames (partial ud fd)).1 = []) ->
  exists out ud', receive_all ud packets = Some (out, ud') /\ ud_wf ud' [] /\
    forall fd, (delivered fd out, partial ud' fd) = frames (partial ud fd ++ stream_of fd packets).
Proof.
  revert ud. induction packets as [|[fd buf] packets IH]; intros ud Hq Hps Hst; cbn [receive_all].
  { exists [], ud. split; [done|]. split; [done|]. intros fd. change (stream_of fd []) with (@nil Z).
    rewrite app_nil_r. by rewrite frames_stable. }
  apply Forall_cons in Hps as [[Hb Hne] Hps]. simpl in Hb, Hne.
  pose proof (receive_spec ud fd buf Hq Hb Hne) as Hrc. pose proof (frames_app (partial ud fd ++ buf)) as Hfa.
  destruct (frames (partial ud fd ++ buf)) as [ms rest] eqn:Ef. destruct Hrc as (ud1 & -> & Hq1 & Hp1 & Ho1).
  destruct (IH ud1 Hq1 Hps) as (out & ud' & -> & Hq' & Hall).
  { intros fd'. destruct (decide (fd' = fd)) as [->|Hfd]; [|by rewrite Ho1].
    rewrite Hp1. specialize (Hfa []). rewrite app_nil_r, Ef, app_nil_r in Hfa.
    destruct (frames rest) as [ms2 rest2]. injection Hfa as Hm _. cbn [fst].
    apply (app_inv_head ms). by rewrite <- Hm, app_nil_r. }
  eexists _, ud'. split; [done|]. split; [done|]. intros fd'. rewrite delivered_app. specialize (Hall fd').
  unfold stream_of. rewrite filter_cons. cbn [fst]. destruct (decide (fd = fd')) as [->|Hfd].
  - rewrite delivered_same, fmap_cons. cbn [concat snd]. rewrite app_assoc, Hfa. rewrite Hp1 in Hall.
    unfold stream_of in Hall. rewrite <- Hall. done.
  - rewrite delivered_other by done. rewrite Ho1 in Hall by done. exact Hall.
Qed.

Lemma lpack_encode msg e : lpack msg = Some e -> e = encode 2 msg /\ frame_ok 2 msg.
Proof.
  unfold lpack. destruct (Z.leb_spec 0x10000 (Z.of_nat (length msg))) as [|Hlt]; [done|]. intros [= <-].
  split; [|unfold frame_ok, length_ok; simpl; lia]. unfold encode, encode_header, write_size. cbn [Z.eqb Pos.eqb].
  change 0xff with (Z.ones 8). rewrite !Z.land_ones, Z.shiftr_div_pow2 by lia.
  rewrite (Z.mod_small (_ / _)); [done|]. zpow. Z.div_mod_to_equations. lia.
Qed.

(** C30: A service receives every message its peers packed: when the stream of a
    connection consists of messages framed by [lpack], followed by an incomplete
    one, exactly those messages are delivered for it, in order, however the
    streams are cut into packets and interleaved with those of other connections. *)
Theorem netpack_roundtrip packets :
  Forall (fun p => Forall byte p.2 /\ p.2 <> []) packets ->
  exists out ud, receive_all None packets = Some (out, ud) /\
    forall fd msgs packed tail, Forall2 (fun m e => lpack m = Some e) msgs packed ->
      stream_of fd packets = concat packed ++ tail -> frames tail = ([], tail) ->
      delivered fd out = msgs /\ partial ud fd = tail.
Proof.
  intros Hps. assert (forall fd, partial None fd = []) as Hno.
  { intros fd. destruct (find_uncomplete_spec None [] fd get_queue_wf) as (uc & ud' & _ & _ & _ & _ & H).
    destruct uc; [by destruct H|by destruct H]. }
  destruct (receive_all_spec packets None get_queue_wf Hps) as (out & ud & Hrun & _ & Hall).
  { intros fd. by rewrite Hno. }
  exists out, ud. split; [done|]. intros fd msgs packed tail H2 Es Et. specialize (Hall fd).
  rewrite Hno, Es in Hall. cbn [app] in Hall. clear Es.
  enough (frames (concat packed ++ tail) = (msgs, tail)) as E by (rewrite E in Hall; by injection Hall as -> ->).
  clear Hall. induction H2 as [|m e msgs packed Hm _ IH]; [done|].
  apply lpack_encode in Hm as [-> Hok]. cbn [concat]. by rewrite <- app_assoc, frames_encode, IH.
Qed.

(** ** Witnesses *)

Lemma filter_data_spec_witness :
  exists ud', filter_data None 3 [0; 2; 97; 98; 0] = Some (FMore, ud') /\
    ud_wf ud' [pack 3 [97; 98]] /\ partial ud' 3 = [0].
Proof.
  destruct (filter_data_spec None [] 3 [0; 2; 97; 98; 0]) as (ud' & H1 & H2 & H3 & _).
  - apply get_queue_wf.
  - repeat constructor; unfold byte; lia.
  - discriminate.
  - exists ud'. split; [exact H1|]. split; [exact H2 | exact H3].
Defined.

Lemma netpack_roundtrip_witness :
  exists out ud, receive_all None [(3, [0; 1]); (4, [0; 1; 7]); (3, [97; 0])] = Some (out, ud) /\
    delivered 3 out = [[97]].
Proof.
  destruct (netpack_roundtrip [(3, [0; 1]); (4, [0; 1; 7]); (3, [97; 0])]) as (out & ud & H1 & H2).
  - repeat constructor; try discriminate; unfold byte; simpl; lia.
  - exists out, ud. split; [exact H1|].
    apply (H2 3 [[97]] [[0; 1; 97]] [0]); [|reflexivity..]. constructor; [reflexivity | constructor].
Defined.
