(* ===== verification/LuaError.v ===== *)
(** * C functions called from Lua

    Such a function returns values, raises a Lua error, or is undefined ([Stuck]): a read or write outside a
    buffer, an [int] overflow, or a loop that does not end within its fuel. *)

From S2P Require Import Prelude CString.

(** [Text] is an error raised with that message; [TooBig] is what [lua_pushlstring] raises for a length no string can have. *)
Inductive lua_error := TooDeep | Unsupported | InvalidStream | BadKey | TooBig | Text (msg : string).

Inductive res (A : Type) := Ok (a : A) | Raise (e : lua_error) | Stuck.
#[global] Arguments Ok {A} a.
#[global] Arguments Raise {A} e.
#[global] Arguments Stuck {A}.

Notation "'let*' p ':=' m 'in' k" :=
  (match m with Ok p => k | Raise e => Raise e | Stuck => Stuck end)
  (at level 100, p pattern, m at level 200, k at level 200, right associativity) : c_scope.

(** A partial step of C code. *)
Definition lift {A} (m : option A) : res A := match m with Some a => Ok a | None => Stuck end.

(** The value of an [int] expression. *)
Definition int (z : Z) : res Z := if (- 2 ^ 31 <=? z) && (z <=? INT_MAX) then Ok z else Stuck.

Lemma int_Ok z : - 2 ^ 31 <= z <= INT_MAX -> int z = Ok z.
Proof. intros. unfold int. destruct (Z.leb_spec (- 2 ^ 31) z), (Z.leb_spec z INT_MAX); simpl; done || lia. Qed.

(** A value with property [Q], or an error; never undefined. *)
Definition res_ok {A} (Q : A -> Prop) (r : res A) : Prop :=
  match r with Ok a => Q a | Raise _ => True | Stuck => False end.

Lemma res_ok_bind {A B} (Q : A -> Prop) (R : B -> Prop) (m : res A) (k : A -> res B) :
  res_ok Q m -> (forall a, Q a -> res_ok R (k a)) -> res_ok R (let* a := m in k a).
Proof. destruct m; simpl; auto. Qed.

Lemma res_ok_mono {A} (Q R : A -> Prop) (m : res A) : res_ok Q m -> (forall a, Q a -> R a) -> res_ok R m.
Proof. destruct m; simpl; auto. Qed.

(** ** Loops *)

(** [while (guard) body], with at most [fuel] passes. *)
Fixpoint while {St} (fuel : nat) (guard : St -> bool) (body : St -> res St) (s : St) : res St :=
  if guard s then
    match fuel with
    | O => Stuck
    | S fuel => let* s := body s in while fuel guard body s
    end
  else Ok s.

Section While.
Context {St : Type} (guard : St -> bool) (body : St -> res St) (P : St -> Prop) (m : St -> nat).

(** A loop whose passes keep an invariant and decrease a measure ends. *)
Lemma while_inv fuel s :
  P s -> (m s <= fuel)%nat ->
  (forall s, P s -> guard s = true -> exists s', body s = Ok s' /\ P s' /\ (m s' < m s)%nat) ->
  exists s', while fuel guard body s = Ok s' /\ P s' /\ guard s' = false.
Proof.
  intros Hs Hm Hb. revert s Hs Hm. induction fuel as [|fuel IH]; intros s Hs Hm; simpl; destruct (guard s) eqn:Eg; eauto;
    destruct (Hb s Hs Eg) as (s' & E & Hs' & Hlt); [lia|].
  rewrite E. apply IH; [done | lia].
Qed.

(** The same when a pass may raise an error. *)
Lemma while_ok fuel s :
  P s -> (m s <= fuel)%nat ->
  (forall s, P s -> guard s = true -> (0 < m s)%nat /\ res_ok (fun s' => P s' /\ (m s' < m s)%nat) (body s)) ->
  res_ok (fun s' => P s' /\ guard s' = false) (while fuel guard body s).
Proof.
  intros Hs Hm Hb. revert s Hs Hm. induction fuel as [|fuel IH]; intros s Hs Hm; simpl; destruct (guard s) eqn:Eg; simpl; eauto;
    destruct (Hb s Hs Eg) as [Hpos Hbs]; [lia|].
  apply (res_ok_bind _ _ _ _ Hbs). intros s' [Hs' Hlt]. apply IH; [done | lia].
Qed.
End While.
