(* ===== verification/Seri.v ===== *)
(** * Serialisation of Lua values ([lualib-src/lua-seri.c])

    Values are written to a chain of 128 byte blocks, copied to one buffer and
    read back.  The host is little-endian, [lua_Integer] and pointers have 64 bits.
    A [luaL_error] is a raised error; undefined behaviour, such as a read outside
    a buffer or an [int] overflow, is [Stuck]. *)

From S2P Require Import Prelude CString LuaError.

Definition TYPE_NIL : Z := 0.
Definition TYPE_BOOLEAN : Z := 1.
Definition TYPE_NUMBER : Z := 2.
Definition TYPE_NUMBER_ZERO : Z := 0.
Definition TYPE_NUMBER_BYTE : Z := 1.
Definition TYPE_NUMBER_WORD : Z := 2.
Definition TYPE_NUMBER_DWORD : Z := 4.
Definition TYPE_NUMBER_QWORD : Z := 6.
Definition TYPE_NUMBER_REAL : Z := 8.
Definition TYPE_USERDATA : Z := 3.
Definition TYPE_SHORT_STRING : Z := 4.
Definition TYPE_LONG_STRING : Z := 5.
Definition TYPE_TABLE : Z := 6.
Definition MAX_COOKIE : Z := 32.
Definition COMBINE_TYPE (t v : Z) : Z := Z.lor t (Z.shiftl v 3).
Definition BLOCK_SIZE : Z := 128.
Definition MAX_DEPTH : Z := 32.

(** ** Lua values

    A table is what [lua_rawlen] returns for it and its entries in the order of
    [lua_next]; [LPairs] is a table with a [__pairs] metamethod and the pairs
    that yields; [LOther] is a function, a thread or a full userdata.  A float
    is its 64 bit pattern. *)
Inductive lvalue :=
  | LNil
  | LBoolean (b : bool)
  | LInteger (z : Z)
  | LNumber (bits : Z)
  | LUserdata (p : Z)
  | LString (s : list Z)
  | LTable (rawlen : Z) (entries : list (lvalue * lvalue))
  | LPairs (pairs : list (lvalue * lvalue))
  | LOther.

(** ** Writing *)

(** The blocks from [head] to [current]. *)
Record write_block := MkWb {
  wb_blocks : list (list Z);
  wb_len : Z;
  wb_ptr : Z;
}.

Definition blk_alloc : list Z := malloc BLOCK_SIZE.
#[global] Arguments blk_alloc : simpl never.

(** [memcpy(b->current->buffer + b->ptr, data, ...)]. *)
Definition write_current (blocks : list (list Z)) (ptr : Z) (data : list Z) : option (list (list Z)) :=
  let! cur := last blocks in
  let! cur := memcpy_at cur ptr data in
  Some (removelast blocks ++ [cur]).

(** One pass per block touched; [again] is the [goto]. *)
Fixpoint push_loop (fuel : nat) (b : write_block) (buf : list Z) (again : bool) : option write_block :=
  let b := if again || (wb_ptr b =? BLOCK_SIZE)
           then MkWb (wb_blocks b ++ [blk_alloc]) (wb_len b) 0 else b in
  let sz := Z.of_nat (length buf) in
  if wb_ptr b <=? BLOCK_SIZE - sz then
    let! blocks := write_current (wb_blocks b) (wb_ptr b) buf in
    Some (MkWb blocks (wb_len b + sz) (wb_ptr b + sz))
  else
    match fuel with
    | O => None
    | S fuel =>
        let copy := BLOCK_SIZE - wb_ptr b in
        let! blocks := write_current (wb_blocks b) (wb_ptr b) (take (Z.to_nat copy) buf) in
        push_loop fuel (MkWb blocks (wb_len b + copy) (wb_ptr b)) (drop (Z.to_nat copy) buf) true
    end.

Definition wb_push (b : write_block) (buf : list Z) : res write_block :=
  lift (assert! (wb_len b + Z.of_nat (length buf) <=? INT_MAX) ;;
        push_loop (length buf) b buf false).

Definition wb_init : write_block := MkWb [blk_alloc] 0 0.

(** The low [n] bytes of [z], least significant first. *)
Fixpoint le_bytes (n : nat) (z : Z) : list Z :=
  match n with
  | O => []
  | S n => z mod 2 ^ 8 :: le_bytes n (z / 2 ^ 8)
  end.

Fixpoint le_value (l : list Z) : Z :=
  match l with
  | [] => 0
  | b :: l => b + 2 ^ 8 * le_value l
  end.

Definition wb_nil (wb : write_block) : res write_block := wb_push wb [TYPE_NIL].

Definition wb_boolean (wb : write_block) (b : bool) : res write_block :=
  wb_push wb [COMBINE_TYPE TYPE_BOOLEAN (if b then 1 else 0)].

Definition wb_integer (wb : write_block) (v : Z) : res write_block :=
  if v =? 0 then wb_push wb [COMBINE_TYPE TYPE_NUMBER TYPE_NUMBER_ZERO]
  else if negb (v =? i32 v) then
    let* wb := wb_push wb [COMBINE_TYPE TYPE_NUMBER TYPE_NUMBER_QWORD] in
    wb_push wb (le_bytes 8 v)
  else if v <? 0 then
    let* wb := wb_push wb [COMBINE_TYPE TYPE_NUMBER TYPE_NUMBER_DWORD] in
    wb_push wb (le_bytes 4 (i32 v))
  else if v <? 0x100 then
    let* wb := wb_push wb [COMBINE_TYPE TYPE_NUMBER TYPE_NUMBER_BYTE] in
    wb_push wb (le_bytes 1 (u8 v))
  else if v <? 0x10000 then
    let* wb := wb_push wb [COMBINE_TYPE TYPE_NUMBER TYPE_NUMBER_WORD] in
    wb_push wb (le_bytes 2 (u16 v))
  else
    let* wb := wb_push wb [COMBINE_TYPE TYPE_NUMBER TYPE_NUMBER_DWORD] in
    wb_push wb (le_bytes 4 (u32 v)).

Definition wb_real (wb : write_block) (bits : Z) : res write_block :=
  let* wb := wb_push wb [COMBINE_TYPE TYPE_NUMBER TYPE_NUMBER_REAL] in
  wb_push wb (le_bytes 8 bits).

Definition wb_pointer (wb : write_block) (p : Z) : res write_block :=
  let* wb := wb_push wb [TYPE_USERDATA] in
  wb_push wb (le_bytes 8 p).

Definition wb_string (wb : write_block) (s : list Z) : res write_block :=
  let len := Z.of_nat (length s) in
  if len <? MAX_COOKIE then
    let* wb := wb_push wb [COMBINE_TYPE TYPE_SHORT_STRING len] in
    if 0 <? len then wb_push wb s else Ok wb
  else
    let* wb :=
      if len <? 0x10000 then
        let* wb := wb_push wb [COMBINE_TYPE TYPE_LONG_STRING 2] in
        wb_push wb (le_bytes 2 (u16 len))
      else
        let* wb := wb_push wb [COMBINE_TYPE TYPE_LONG_STRING 4] in
        wb_push wb (le_bytes 4 (u32 len)) in
    wb_push wb s.

(** What [pack_one] does for a value. *)
Definition packer : Type := write_block -> Z -> res write_block.

(** The entries of a table, each with the packers of its key and value. *)
Definition pentry : Type := lvalue * packer * packer.

Definition is_integer (k : lvalue) (i : Z) : bool := match k with LInteger z => z =? i | _ => false end.

(** [pack_one] of [nil]. *)
Definition pack_nil : packer := fun wb depth => if depth >? MAX_DEPTH then Raise TooDeep else wb_nil wb.

(** The packer of [t[i]]. *)
Definition rawgeti (ps : list pentry) (i : Z) : packer :=
  match filter (fun p => is_integer p.1.1 i = true) ps with
  | p :: _ => p.2
  | [] => pack_nil
  end.

(** [for (i=1;i<=array_size;i++)]. *)
Fixpoint array_loop (n : nat) (i : Z) (ps : list pentry) (wb : write_block) (depth : Z) : res write_block :=
  match n with
  | O => Ok wb
  | S n =>
      let* wb := rawgeti ps i wb depth in
      array_loop n (i + 1) ps wb depth
  end.

Definition wb_table_array (array_size : Z) (ps : list pentry) (wb : write_block) (depth : Z) : res write_block :=
  let* wb :=
    if array_size >=? MAX_COOKIE - 1 then
      let* wb := wb_push wb [COMBINE_TYPE TYPE_TABLE (MAX_COOKIE - 1)] in
      wb_integer wb array_size
    else wb_push wb [COMBINE_TYPE TYPE_TABLE array_size] in
  array_loop (Z.to_nat array_size) 1 ps wb depth.

(** An integer key the array part has written already. *)
Definition in_array (k : lvalue) (array_size : Z) : bool :=
  match k with LInteger x => (0 <? x) && (x <=? array_size) | _ => false end.

Fixpoint wb_table_hash (ps : list pentry) (wb : write_block) (depth array_size : Z) : res write_block :=
  match ps with
  | [] => wb_nil wb
  | (k, pk, pv) :: ps =>
      if in_array k array_size then wb_table_hash ps wb depth array_size
      else
        let* wb := pk wb depth in
        let* wb := pv wb depth in
        wb_table_hash ps wb depth array_size
  end.

Fixpoint metapairs_loop (ps : list pentry) (wb : write_block) (depth : Z) : res write_block :=
  match ps with
  | [] => wb_nil wb
  | (_, pk, pv) :: ps =>
      let* wb := pk wb depth in
      let* wb := pv wb depth in
      metapairs_loop ps wb depth
  end.

Definition wb_table_metapairs (ps : list pentry) (wb : write_block) (depth : Z) : res write_block :=
  let* wb := wb_push wb [COMBINE_TYPE TYPE_TABLE 0] in
  metapairs_loop ps wb depth.

(** [meta] says whether the table has [__pairs]. *)
Definition wb_table (meta : bool) (rawlen : Z) (ps : list pentry) (wb : write_block) (depth : Z)
  : res write_block :=
  if meta then wb_table_metapairs ps wb depth
  else
    let array_size := i32 rawlen in
    let* wb := wb_table_array array_size ps wb depth in
    wb_table_hash ps wb depth array_size.

Fixpoint pack_one (v : lvalue) (b : write_block) (depth : Z) {struct v} : res write_block :=
  if depth >? MAX_DEPTH then Raise TooDeep
  else
    match v with
    | LNil => wb_nil b
    | LInteger x => wb_integer b x
    | LNumber bits => wb_real b bits
    | LBoolean x => wb_boolean b x
    | LString s => wb_string b s
    | LUserdata p => wb_pointer b p
    | LTable n es =>
        wb_table false n (map (fun e => (fst e, pack_one (fst e), pack_one (snd e))) es) b (depth + 1)
    | LPairs es =>
        wb_table true 0 (map (fun e => (fst e, pack_one (fst e), pack_one (snd e))) es) b (depth + 1)
    | LOther => Raise Unsupported
    end.

Fixpoint pack_from (vs : list lvalue) (b : write_block) : res write_block :=
  match vs with
  | [] => Ok b
  | v :: vs =>
      let* b := pack_one v b 0 in
      pack_from vs b
  end.

(** Copies the blocks to one buffer. *)
Fixpoint seri (blocks : list (list Z)) (len : Z) : option (list Z) :=
  if 0 <? len then
    match blocks with
    | [] => None
    | b :: blocks =>
        if BLOCK_SIZE <=? len then
          let! p := memcpy b 0 BLOCK_SIZE in
          let! rest := seri blocks (len - BLOCK_SIZE) in
          Some (p ++ rest)
        else memcpy b 0 len
    end
  else Some [].

Definition luaseri_pack (vs : list lvalue) : res (list Z) :=
  let* wb := pack_from vs wb_init in
  lift (seri (wb_blocks wb) (wb_len wb)).

(** ** Reading *)

(** The values read back; a table is its entries. *)
Inductive uvalue :=
  | UNil
  | UBoolean (b : bool)
  | UInteger (z : Z)
  | UNumber (bits : Z)
  | UUserdata (p : Z)
  | UString (s : list Z)
  | UTable (entries : list (uvalue * uvalue)).

Record read_block := MkRb {
  rb_buffer : list Z;
  rb_len : Z;
  rb_ptr : Z;
}.

Definition rball_init (buffer : list Z) (size : Z) : read_block := MkRb buffer size 0.

(** The offset of the bytes read, [None] for [NULL]. *)
Definition rb_read (rb : read_block) (sz : Z) : option Z * read_block :=
  if rb_len rb <? sz then (None, rb)
  else (Some (rb_ptr rb), MkRb (rb_buffer rb) (rb_len rb - sz) (rb_ptr rb + sz)).

(** Reads [sz] bytes, or fails with an invalid stream. *)
Definition read_bytes (rb : read_block) (sz : Z) : res (list Z * read_block) :=
  match rb_read rb sz with
  | (None, _) => Raise InvalidStream
  | (Some p, rb) => let* l := lift (memcpy (rb_buffer rb) p sz) in Ok (l, rb)
  end.

Definition get_integer (rb : read_block) (cookie : Z) : res (Z * read_block) :=
  if cookie =? TYPE_NUMBER_ZERO then Ok (0, rb)
  else if cookie =? TYPE_NUMBER_BYTE then
    let* (l, rb) := read_bytes rb 1 in Ok (le_value l, rb)
  else if cookie =? TYPE_NUMBER_WORD then
    let* (l, rb) := read_bytes rb 2 in Ok (le_value l, rb)
  else if cookie =? TYPE_NUMBER_DWORD then
    let* (l, rb) := read_bytes rb 4 in Ok (i32 (le_value l), rb)
  else if cookie =? TYPE_NUMBER_QWORD then
    let* (l, rb) := read_bytes rb 8 in Ok (i64 (le_value l), rb)
  else Raise InvalidStream.

Definition get_real (rb : read_block) : res (Z * read_block) :=
  let* (l, rb) := read_bytes rb 8 in Ok (le_value l, rb).

Definition get_pointer (rb : read_block) : res (Z * read_block) :=
  let* (l, rb) := read_bytes rb 8 in Ok (le_value l, rb).

(** [len] is an [int]: [rb_read] lets a negative one through, and [lua_pushlstring] refuses the
    [size_t] it becomes. *)
Definition get_buffer (rb : read_block) (len : Z) : res (list Z * read_block) :=
  match rb_read rb len with
  | (None, _) => Raise InvalidStream
  | (Some p, rb) =>
      if len <? 0 then Raise TooBig
      else let* l := lift (memcpy (rb_buffer rb) p len) in Ok (l, rb)
  end.

(** Raw equality of keys; a table just read is a new object. *)
Definition raw_equal (a b : uvalue) : bool :=
  match a, b with
  | UBoolean x, UBoolean y => Bool.eqb x y
  | UInteger x, UInteger y => x =? y
  | UNumber x, UNumber y => x =? y
  | UUserdata x, UUserdata y => x =? y
  | UString x, UString y => bool_decide (x = y)
  | _, _ => false
  end.

Definition is_nil (v : uvalue) : bool := match v with UNil => true | _ => false end.

(** [t[k] = v] on the entries: a [nil] value removes the key. *)
Fixpoint table_set (es : list (uvalue * uvalue)) (k v : uvalue) : list (uvalue * uvalue) :=
  match es with
  | [] => if is_nil v then [] else [(k, v)]
  | (k', v') :: es =>
      if raw_equal k' k then (if is_nil v then es else (k', v) :: es)
      else (k', v') :: table_set es k v
  end.

Definition is_nan (bits : Z) : bool :=
  (Z.land (Z.shiftr bits 52) 0x7ff =? 0x7ff) && negb (Z.land bits (2 ^ 52 - 1) =? 0).

Section Unpack.
(** The integer a float key stands for, if it has an integral value ([luaV_tointeger]). *)
Context (float_integer : Z -> option Z).

(** [lua_rawset]. *)
Definition rawset (es : list (uvalue * uvalue)) (k v : uvalue) : res (list (uvalue * uvalue)) :=
  match k with
  | UNumber bits =>
      if is_nan bits then Raise BadKey
      else match float_integer bits with
           | Some z => Ok (table_set es (UInteger z) v)
           | None => Ok (table_set es k v)
           end
  | UNil => Raise BadKey
  | _ => Ok (table_set es k v)
  end.

(** The length of the array part. *)
Definition table_size (rb : read_block) (array_size : Z) : res (Z * read_block) :=
  if array_size =? MAX_COOKIE - 1 then
    let* (t, rb) := read_bytes rb 1 in
    let type := le_value t in
    let cookie := Z.shiftr type 3 in
    if negb (Z.land type 7 =? TYPE_NUMBER) || (cookie =? TYPE_NUMBER_REAL) then Raise InvalidStream
    else
      let* (n, rb) := get_integer rb cookie in
      Ok (i32 n, rb)
  else Ok (array_size, rb).

(** The length of a long string, a [uint32_t] passed as [int]. *)
Definition long_size (rb : read_block) (cookie : Z) : res (Z * read_block) :=
  if cookie =? 2 then
    let* (l, rb) := read_bytes rb 2 in Ok (le_value l, rb)
  else if negb (cookie =? 4) then Raise InvalidStream
  else let* (l, rb) := read_bytes rb 4 in Ok (i32 (le_value l), rb).

(** The loops of [unpack_table] and the recursion through [unpack_one], on one fuel: every
    round reads at least one byte. *)
Fixpoint push_value (fuel : nat) (rb : read_block) (type cookie : Z) : res (uvalue * read_block) :=
  match fuel with
  | O => Stuck
  | S fuel =>
      if type =? TYPE_NIL then Ok (UNil, rb)
      else if type =? TYPE_BOOLEAN then Ok (UBoolean (negb (cookie =? 0)), rb)
      else if type =? TYPE_NUMBER then
        if cookie =? TYPE_NUMBER_REAL then
          let* (n, rb) := get_real rb in Ok (UNumber n, rb)
        else let* (n, rb) := get_integer rb cookie in Ok (UInteger n, rb)
      else if type =? TYPE_USERDATA then
        let* (p, rb) := get_pointer rb in Ok (UUserdata p, rb)
      else if type =? TYPE_SHORT_STRING then
        let* (s, rb) := get_buffer rb cookie in Ok (UString s, rb)
      else if type =? TYPE_LONG_STRING then
        let* (n, rb) := long_size rb cookie in
        let* (s, rb) := get_buffer rb n in Ok (UString s, rb)
      else if type =? TYPE_TABLE then
        let* (n, rb) := table_size rb cookie in
        unpack_array fuel rb 1 n []
      else Raise InvalidStream
  end
with unpack_array (fuel : nat) (rb : read_block) (i array_size : Z) (es : list (uvalue * uvalue))
  : res (uvalue * read_block) :=
  match fuel with
  | O => Stuck
  | S fuel =>
      if i <=? array_size then
        let* (t, rb) := read_bytes rb 1 in
        let* (v, rb) := push_value fuel rb (Z.land (le_value t) 7) (Z.shiftr (le_value t) 3) in
        unpack_array fuel rb (i + 1) array_size (table_set es (UInteger i) v)
      else unpack_hash fuel rb es
  end
with unpack_hash (fuel : nat) (rb : read_block) (es : list (uvalue * uvalue)) : res (uvalue * read_block) :=
  match fuel with
  | O => Stuck
  | S fuel =>
      let* (t, rb) := read_bytes rb 1 in
      let* (k, rb) := push_value fuel rb (Z.land (le_value t) 7) (Z.shiftr (le_value t) 3) in
      if is_nil k then Ok (UTable es, rb)
      else
        let* (t, rb) := read_bytes rb 1 in
        let* (v, rb) := push_value fuel rb (Z.land (le_value t) 7) (Z.shiftr (le_value t) 3) in
        let* es := rawset es k v in
        unpack_hash fuel rb es
  end.

(** The [for] loop of [luaseri_unpack]. *)
Fixpoint unpack_loop (fuel : nat) (rb : read_block) : res (list uvalue) :=
  match fuel with
  | O => Stuck
  | S fuel =>
      match rb_read rb 1 with
      | (None, _) => Ok []
      | (Some _, _) =>
          let* (t, rb) := read_bytes rb 1 in
          let* (v, rb) := push_value fuel rb (Z.land (le_value t) 7) (Z.shiftr (le_value t) 3) in
          let* vs := unpack_loop fuel rb in
          Ok (v :: vs)
      end
  end.

(** A string argument; three rounds a byte are enough for every buffer, see [luaseri_unpack_safe]. *)
Definition luaseri_unpack (buffer : list Z) : res (list uvalue) :=
  let len := i32 (Z.of_nat (length buffer)) in
  if len =? 0 then Ok []
  else unpack_loop (S (3 * length buffer)) (rball_init buffer len).
End Unpack.
