(* ===== verification/SeriSpec.v ===== *)
(** * Correctness of serialisation

    The chain of blocks holds the bytes of a pure encoding, and reading that
    encoding gives the values back. *)

From S2P Require Import Prelude CString LuaError Seri.

(** ** The chain of blocks is a byte string *)

Definition full_blocks (bs : list (list Z)) : Prop := Forall (fun b => length b = 128%nat) bs.

Record wb_rep (wb : write_block) (l : list Z) : Prop := {
  wr_blocks : exists full cur, wb_blocks wb = full ++ [cur] /\ full_blocks (full ++ [cur]) /\
    l = concat full ++ take (Z.to_nat (wb_ptr wb)) cur;
  wr_ptr : 0 <= wb_ptr wb <= BLOCK_SIZE;
  wr_len : wb_len wb = Z.of_nat (length l);
}.

(** Every block is used up; [ptr] no longer matters. *)
Record wb_full (wb : write_block) (l : list Z) : Prop := {
  wf_blocks : full_blocks (wb_blocks wb) /\ l = concat (wb_blocks wb);
  wf_len : wb_len wb = Z.of_nat (length l);
}.

Lemma blk_alloc_length : length blk_alloc = 128%nat.
Proof. done. Qed.

Lemma wb_init_rep : wb_rep wb_init [].
Proof.
  split; [|unfold BLOCK_SIZE; simpl; lia|done]. exists [], blk_alloc. split; [done|]. split; [|done].
  constructor; [apply blk_alloc_length|constructor].
Qed.

Lemma wb_alloc_rep wb l : wb_full wb l -> wb_rep (MkWb (wb_blocks wb ++ [blk_alloc]) (wb_len wb) 0) l.
Proof.
  intros [[Hb ->] Hl]. split; [|unfold BLOCK_SIZE; simpl; lia|done].
  exists (wb_blocks wb), blk_alloc. split; [done|]. split; [|by rewrite app_nil_r].
  apply Forall_app. split; [done|]. constructor; [apply blk_alloc_length|constructor].
Qed.

Lemma wb_rep_full wb l : wb_rep wb l -> wb_ptr wb = BLOCK_SIZE -> wb_full wb l.
Proof.
  intros [(full & cur & Eb & Hb & ->) _ Hl] Ep. split; [|done]. rewrite Eb. split; [done|].
  rewrite concat_app. simpl. rewrite app_nil_r, Ep, take_ge; [done|].
  apply Forall_app in Hb as [_ [-> _]%Forall_cons]. done.
Qed.

Lemma write_current_spec wb l data : wb_rep wb l -> wb_ptr wb + Z.of_nat (length data) <= BLOCK_SIZE ->
  exists bs, write_current (wb_blocks wb) (wb_ptr wb) data = Some bs /\
    wb_rep (MkWb bs (wb_len wb + Z.of_nat (length data)) (wb_ptr wb + Z.of_nat (length data))) (l ++ data).
Proof.
  intros [(full & cur & Eb & Hb & ->) Hp Hl] Hd. unfold write_current, BLOCK_SIZE in *.
  rewrite Eb, last_snoc, removelast_last. pose proof Hb as [Hf [Hc _]%Forall_cons]%Forall_app.
  destruct (memcpy_at_spec cur (wb_ptr wb) data) as (cur' & -> & Hl' & Ht); [lia..|].
  eexists. split; [done|]. split; simpl; [|unfold BLOCK_SIZE; lia|rewrite length_app; lia].
  exists full, cur'. split; [done|]. split; [apply Forall_app; split; [done|]; constructor; [lia|constructor]|].
  rewrite <- app_assoc. f_equal. rewrite <- Ht. f_equal. lia.
Qed.

Lemma push_loop_spec fuel wb l buf (again : bool) :
  (if again then wb_full wb l else wb_rep wb l) -> (length buf <= fuel)%nat ->
  exists wb', push_loop fuel wb buf again = Some wb' /\ wb_rep wb' (l ++ buf).
Proof.
  revert wb l buf again. induction fuel as [|fuel IH]; intros wb l buf again Hr Hf; cbn [push_loop];
    set (b := if _ : bool then _ else wb);
    (assert (wb_rep b l /\ wb_ptr b < BLOCK_SIZE) as [Hb Hlt];
     [unfold b; destruct again; simpl; [split; [by apply wb_alloc_rep|done]|];
      destruct (Z.eqb_spec (wb_ptr wb) BLOCK_SIZE); simpl;
      [split; [by apply wb_alloc_rep, wb_rep_full|done] | split; [done|destruct (wr_ptr _ _ Hr); lia]]|]);
    clearbody b; destruct (Z.leb_spec (wb_ptr b) (BLOCK_SIZE - Z.of_nat (length buf))) as [Hle|Hgt].
  1, 3: destruct (write_current_spec b l buf Hb) as (bs & -> & Hr'); [lia|]; by eexists.
  - destruct buf; [|simpl in Hf; lia]. simpl in Hgt. lia.
  - set (copy := BLOCK_SIZE - wb_ptr b). pose proof (wr_ptr _ _ Hb) as Hp. unfold BLOCK_SIZE in *.
    destruct (write_current_spec b l (take (Z.to_nat copy) buf) Hb) as (bs & -> & Hr');
      [rewrite length_take; unfold BLOCK_SIZE; lia|].
    assert (Z.of_nat (length (take (Z.to_nat copy) buf)) = copy) as Ec by (rewrite length_take; lia).
    rewrite Ec in Hr'. apply wb_rep_full in Hr'; [|simpl; unfold BLOCK_SIZE; lia].
    destruct (IH (MkWb bs (wb_len b + copy) (wb_ptr b)) (l ++ take (Z.to_nat copy) buf) (drop (Z.to_nat copy) buf) true)
      as (wb' & -> & Hwb').
    + destruct Hr' as [Hx Hy]. by split.
    + rewrite length_drop. lia.
    + exists wb'. split; [done|]. by rewrite <- app_assoc, take_drop in Hwb'.
Qed.

(** [seri] reads back what was pushed. *)
Lemma seri_spec full cur n : full_blocks (full ++ [cur]) -> 0 <= n <= 128 ->
  seri (full ++ [cur]) (Z.of_nat (length full) * 128 + n) = Some (concat full ++ take (Z.to_nat n) cur).
Proof.
  intros Hb Hn. induction full as [|b full IH]; cbn [app].
  - apply Forall_cons in Hb as [Hc _]. cbn [length concat app seri].
    replace (Z.of_nat 0 * 128 + n) with n by lia. destruct (Z.ltb_spec 0 n); [|by replace n with 0 by lia].
    unfold BLOCK_SIZE. destruct (Z.leb_spec 128 n).
    + replace n with 128 by lia. rewrite memcpy_Some by lia. simpl. by rewrite app_nil_r.
    + by rewrite memcpy_Some by lia.
  - apply Forall_cons in Hb as [Hb0 Hb]. specialize (IH Hb). cbn [seri length concat]. unfold BLOCK_SIZE in *.
    destruct (Z.ltb_spec 0 (Z.of_nat (S (length full)) * 128 + n)); [|lia].
    destruct (Z.leb_spec 128 (Z.of_nat (S (length full)) * 128 + n)); [|lia].
    rewrite memcpy_Some by lia. replace (_ - 128) with (Z.of_nat (length full) * 128 + n) by lia. rewrite IH.
    change (drop (Z.to_nat 0) b) with b. rewrite take_ge by lia. by rewrite <- app_assoc.
Qed.

Lemma seri_rep wb l : wb_rep wb l -> seri (wb_blocks wb) (wb_len wb) = Some l.
Proof.
  intros [(full & cur & -> & Hb & ->) Hp ->]. pose proof Hb as [Hf [Hc _]%Forall_cons]%Forall_app.
  rewrite <- (seri_spec full cur (wb_ptr wb)) by done. f_equal. rewrite length_app, length_take.
  assert (length (concat full) = length full * 128)%nat as ->; [|unfold BLOCK_SIZE in Hp; lia].
  clear -Hf. induction Hf as [|b full Hb _ IH]; simpl; [done|]. rewrite length_app. lia.
Qed.

(** ** The encoding *)

Definition ser_integer (v : Z) : list Z :=
  if v =? 0 then [COMBINE_TYPE TYPE_NUMBER TYPE_NUMBER_ZERO]
  else if negb (v =? i32 v) then COMBINE_TYPE TYPE_NUMBER TYPE_NUMBER_QWORD :: le_bytes 8 v
  else if v <? 0 then COMBINE_TYPE TYPE_NUMBER TYPE_NUMBER_DWORD :: le_bytes 4 v
  else if v <? 0x100 then COMBINE_TYPE TYPE_NUMBER TYPE_NUMBER_BYTE :: le_bytes 1 v
  else if v <? 0x10000 then COMBINE_TYPE TYPE_NUMBER TYPE_NUMBER_WORD :: le_bytes 2 v
  else COMBINE_TYPE TYPE_NUMBER TYPE_NUMBER_DWORD :: le_bytes 4 v.

Definition ser_string (s : list Z) : list Z :=
  let len := Z.of_nat (length s) in
  if len <? MAX_COOKIE then COMBINE_TYPE TYPE_SHORT_STRING len :: s
  else if len <? 0x10000 then COMBINE_TYPE TYPE_LONG_STRING 2 :: le_bytes 2 len ++ s
  else COMBINE_TYPE TYPE_LONG_STRING 4 :: le_bytes 4 len ++ s.

Definition ser_header (n : Z) : list Z :=
  if n >=? MAX_COOKIE - 1 then COMBINE_TYPE TYPE_TABLE (MAX_COOKIE - 1) :: ser_integer n
  else [COMBINE_TYPE TYPE_TABLE n].

(** The entries of a table, with something computed from each key and value. *)
Notation entries_of A := (list (lvalue * A * A)).

Section Entries.
Context {A : Type}.

(** What belongs to [t[i]], [d] if there is no such entry. *)
Definition geti (d : A) (ps : entries_of A) (i : Z) : A :=
  match filter (fun p => is_integer p.1.1 i = true) ps with
  | p :: _ => p.2
  | [] => d
  end.

(** The entries outside the array part. *)
Definition hash_part (n : Z) (ps : entries_of A) : list (A * A) :=
  (fun p => (p.1.2, p.2)) <$> filter (fun p => in_array p.1.1 n = false) ps.

Lemma geti_cases (d : A) ps i : geti d ps i = d \/ exists p, p ∈ ps /\ p.1.1 = LInteger i /\ geti d ps i = p.2.
Proof.
  unfold geti. destruct (filter _ ps) as [|p l] eqn:E; [by left|]. right. exists p.
  assert (p ∈ filter (fun p => is_integer p.1.1 i = true) ps) as Hp by (rewrite E; set_solver).
  apply list_elem_of_filter in Hp as [Hi Hp]. split; [done|]. split; [|done].
  destruct (p.1.1); simpl in Hi; try done. f_equal. blia.
Qed.

Lemma hash_part_elem n ps k v : (k, v) ∈ hash_part n ps ->
  exists p, p ∈ ps /\ p.1.2 = k /\ p.2 = v /\ in_array p.1.1 n = false.
Proof.
  intros (p & [= -> ->] & Hp)%list_elem_of_fmap. apply list_elem_of_filter in Hp as [Hi Hp]. by exists p.
Qed.
End Entries.

Definition ser_array (n : Z) (ps : entries_of (list Z)) : list Z := concat (geti [TYPE_NIL] ps <$> seqZ 1 n).
Definition ser_hash (kvs : list (list Z * list Z)) : list Z := concat ((fun p => p.1 ++ p.2) <$> kvs) ++ [TYPE_NIL].

Fixpoint ser (v : lvalue) : list Z :=
  match v with
  | LNil => [TYPE_NIL]
  | LBoolean b => [COMBINE_TYPE TYPE_BOOLEAN (if b then 1 else 0)]
  | LInteger x => ser_integer x
  | LNumber bits => COMBINE_TYPE TYPE_NUMBER TYPE_NUMBER_REAL :: le_bytes 8 bits
  | LUserdata p => TYPE_USERDATA :: le_bytes 8 p
  | LString s => ser_string s
  | LTable n es =>
      let ps := map (fun e => (fst e, ser (fst e), ser (snd e))) es in
      ser_header n ++ ser_array n ps ++ ser_hash (hash_part n ps)
  | LPairs es => COMBINE_TYPE TYPE_TABLE 0 :: ser_hash (map (fun e => (ser (fst e), ser (snd e))) es)
  | LOther => []
  end.

(** ** Which values can be packed *)

Fixpoint packable (d : Z) (v : lvalue) : bool :=
  (d <=? MAX_DEPTH) &&
  match v with
  | LTable _ es | LPairs es => forallb (fun e => packable (d + 1) (fst e) && packable (d + 1) (snd e)) es
  | LOther => false
  | _ => true
  end.

(** ** Induction over nested tables *)
Section Induction.
Context (P : lvalue -> Prop).
Context (HNil : P LNil) (HBool : forall b, P (LBoolean b)) (HInt : forall z, P (LInteger z))
  (HNum : forall z, P (LNumber z)) (HPtr : forall z, P (LUserdata z)) (HStr : forall s, P (LString s))
  (HTab : forall n es, Forall (fun e => P (fst e) /\ P (snd e)) es -> P (LTable n es))
  (HPairs : forall es, Forall (fun e => P (fst e) /\ P (snd e)) es -> P (LPairs es))
  (HOther : P LOther).

Fixpoint lvalue_rect' (v : lvalue) : P v :=
  let entries := fix go (es : list (lvalue * lvalue)) : Forall (fun e => P (fst e) /\ P (snd e)) es :=
    match es with
    | [] => Forall_nil_2 _
    | e :: es => Forall_cons_2 _ _ _ (conj (lvalue_rect' (fst e)) (lvalue_rect' (snd e))) (go es)
    end in
  match v with
  | LNil => HNil
  | LBoolean b => HBool b
  | LInteger z => HInt z
  | LNumber z => HNum z
  | LUserdata z => HPtr z
  | LString s => HStr s
  | LTable n es => HTab n es (entries es)
  | LPairs es => HPairs es (entries es)
  | LOther => HOther
  end.
End Induction.

(** ** Packing writes the encoding *)

(** [p] appends the bytes [l] at depth [d]. *)
Definition writes (p : packer) (d : Z) (l : list Z) : Prop :=
  forall wb l0, wb_rep wb l0 -> Z.of_nat (length (l0 ++ l)) <= INT_MAX ->
  exists wb', p wb d = Ok wb' /\ wb_rep wb' (l0 ++ l).

Lemma wb_push_spec wb l0 l : wb_rep wb l0 -> Z.of_nat (length (l0 ++ l)) <= INT_MAX ->
  exists wb', wb_push wb l = Ok wb' /\ wb_rep wb' (l0 ++ l).
Proof.
  intros Hr Hl. unfold wb_push. rewrite (wr_len _ _ Hr). rewrite length_app in Hl.
  destruct (Z.leb_spec (Z.of_nat (length l0) + Z.of_nat (length l)) INT_MAX); [|lia].
  destruct (push_loop_spec (length l) wb l0 l false Hr (le_n _)) as (wb' & -> & Hr'). by exists wb'.
Qed.

Lemma writes_push d l : writes (fun wb _ => wb_push wb l) d l.
Proof. intros wb l0. apply wb_push_spec. Qed.

Lemma writes_seq (p q : packer) d l1 l2 : writes p d l1 -> writes q d l2 ->
  writes (fun wb d => let* wb := p wb d in q wb d) d (l1 ++ l2).
Proof.
  intros Hp Hq wb l0 Hr Hl. rewrite app_assoc in Hl |- *. destruct (Hp wb l0 Hr) as (wb1 & -> & Hr1).
  { rewrite length_app in Hl. lia. }
  by apply Hq.
Qed.

Lemma writes_cons d b l : writes (fun wb _ => let* wb := wb_push wb [b] in wb_push wb l) d (b :: l).
Proof. apply (writes_seq (fun wb _ => wb_push wb [b]) (fun wb _ => wb_push wb l) d [b] l); apply writes_push. Qed.

Lemma le_bytes_mod n z : le_bytes n (z mod 2 ^ (8 * Z.of_nat n)) = le_bytes n z.
Proof.
  revert z. induction n as [|n IH]; intros z; [done|]. cbn [le_bytes].
  replace (8 * Z.of_nat (S n)) with (8 + 8 * Z.of_nat n) by lia. rewrite Z.pow_add_r by lia.
  assert (0 < 2 ^ (8 * Z.of_nat n)) by lia. f_equal.
  - symmetry. apply Znumtheory.Zmod_div_mod; [lia | lia | by exists (2 ^ (8 * Z.of_nat n)); lia].
  - rewrite <- (IH (z / 2 ^ 8)). f_equal. rewrite Z.rem_mul_r by lia.
    rewrite (Z.mul_comm (2 ^ 8)), Z.div_add by lia. rewrite (Z.div_small (z mod 2 ^ 8)); [lia|].
    apply Z.mod_pos_bound. lia.
Qed.

Lemma writes_integer d v : writes (fun wb _ => wb_integer wb v) d (ser_integer v).
Proof.
  unfold wb_integer, ser_integer. destruct (v =? 0); [apply writes_push|].
  destruct (Z.eqb_spec v (i32 v)) as [E|E]; cbn [negb]; [|apply writes_cons].
  destruct (v <? 0); [rewrite <- E; apply writes_cons|].
  destruct (v <? 0x100); [rewrite <- (le_bytes_mod 1 v); apply writes_cons|].
  destruct (v <? 0x10000); [rewrite <- (le_bytes_mod 2 v); apply writes_cons|].
  rewrite <- (le_bytes_mod 4 v). apply writes_cons.
Qed.

Lemma writes_string d s : writes (fun wb _ => wb_string wb s) d (ser_string s).
Proof.
  unfold wb_string, ser_string. destruct (_ <? MAX_COOKIE).
  - destruct (Z.ltb_spec 0 (Z.of_nat (length s))); [apply writes_cons|].
    destruct s; [|simpl in *; lia]. intros wb l0 Hr Hl. destruct (wb_push_spec wb l0 _ Hr Hl) as (wb' & -> & ?). eauto.
  - set (len := Z.of_nat (length s)). destruct (len <? 0x10000).
    + rewrite <- (le_bytes_mod 2 len).
      apply (writes_seq (fun wb _ => let* wb := wb_push wb [_] in wb_push wb (le_bytes 2 (u16 len)))
        (fun wb _ => wb_push wb s) d (_ :: le_bytes 2 (u16 len)) s); [apply writes_cons|apply writes_push].
    + rewrite <- (le_bytes_mod 4 len).
      apply (writes_seq (fun wb _ => let* wb := wb_push wb [_] in wb_push wb (le_bytes 4 (u32 len)))
        (fun wb _ => wb_push wb s) d (_ :: le_bytes 4 (u32 len)) s); [apply writes_cons|apply writes_push].
Qed.

(** Entries whose packers write the given bytes. *)
Definition writes_entries (d : Z) (ps : list pentry) (bs : entries_of (list Z)) : Prop :=
  Forall2 (fun p b => p.1.1 = b.1.1 /\ writes p.1.2 d b.1.2 /\ writes p.2 d b.2) ps bs.

Lemma writes_geti d ps bs i : d <= MAX_DEPTH -> writes_entries d ps bs ->
  writes (rawgeti ps i) d (geti [TYPE_NIL] bs i).
Proof.
  intros Hd. unfold rawgeti, geti. induction 1 as [|p b ps bs (Hk & _ & Hv) _ IH].
  - intros wb l0. simpl. unfold pack_nil. destruct (Z.gtb_spec d MAX_DEPTH); [lia|]. apply wb_push_spec.
  - rewrite !filter_cons. rewrite Hk. by destruct (decide (is_integer (b.1.1) i = true)).
Qed.

Lemma writes_array_loop n i d ps bs : d <= MAX_DEPTH -> writes_entries d ps bs ->
  writes (fun wb d => array_loop n i ps wb d) d (concat (geti [TYPE_NIL] bs <$> seqZ i (Z.of_nat n))).
Proof.
  intros Hd Hps. revert i. induction n as [|n IH]; intros i.
  - intros wb l0 Hr _. exists wb. split; [done|]. simpl. by rewrite app_nil_r.
  - rewrite Nat2Z.inj_succ, seqZ_cons, Z.pred_succ by lia. rewrite fmap_cons. cbn [concat array_loop].
    apply (writes_seq (rawgeti ps i) (fun wb d => array_loop n (i + 1) ps wb d)); [by apply writes_geti|apply IH].
Qed.

Lemma writes_table_array d n ps bs : 0 <= n -> (0 < n -> d <= MAX_DEPTH) -> writes_entries d ps bs ->
  writes (wb_table_array n ps) d (ser_header n ++ ser_array n bs).
Proof.
  intros Hn Hd Hps. unfold ser_array.
  assert (writes (fun wb _ => if n >=? MAX_COOKIE - 1 then
      let* wb := wb_push wb [COMBINE_TYPE TYPE_TABLE (MAX_COOKIE - 1)] in wb_integer wb n
    else wb_push wb [COMBINE_TYPE TYPE_TABLE n]) d (ser_header n)) as Hh.
  { unfold ser_header. destruct (n >=? MAX_COOKIE - 1); [|apply writes_push].
    apply (writes_seq (fun wb _ => wb_push wb [_]) (fun wb _ => wb_integer wb n) d [_]);
      [apply writes_push|apply writes_integer]. }
  apply (writes_seq _ (fun wb d => array_loop (Z.to_nat n) 1 ps wb d) d _ _ Hh).
  destruct (decide (n = 0)) as [->|]; [intros wb l0 Hr _; exists wb; simpl; by rewrite app_nil_r|].
  replace (seqZ 1 n) with (seqZ 1 (Z.of_nat (Z.to_nat n))) by (f_equal; lia). apply writes_array_loop; [lia|done].
Qed.

Lemma writes_table_hash d n ps bs : writes_entries d ps bs ->
  writes (fun wb d => wb_table_hash ps wb d n) d (ser_hash (hash_part n bs)).
Proof.
  unfold ser_hash, hash_part. induction 1 as [|[[k pk] pv] [[k' bk] bv] ps bs (Hk & Hwk & Hwv) _ IH].
  - apply writes_push.
  - simpl in Hk. subst k'. rewrite filter_cons. cbn [wb_table_hash fst snd].
    destruct (in_array k n) eqn:E; [rewrite decide_False by done; exact IH|].
    rewrite decide_True by done. rewrite fmap_cons. cbn [concat fmap list_fmap fst snd]. rewrite <- !app_assoc.
    apply (writes_seq pk (fun wb d => let* wb := pv wb d in wb_table_hash ps wb d n) d bk); [done|].
    apply (writes_seq pv (fun wb d => wb_table_hash ps wb d n) d bv); [done|exact IH].
Qed.

Lemma writes_metapairs d (ps : list pentry) bs : writes_entries d ps bs ->
  writes (metapairs_loop ps) d (ser_hash ((fun p => (p.1.2, p.2)) <$> bs)).
Proof.
  unfold ser_hash. induction 1 as [|[[k pk] pv] [[k' bk] bv] ps bs (Hk & Hwk & Hwv) _ IH].
  - apply writes_push.
  - rewrite !fmap_cons. cbn [concat fst snd metapairs_loop]. rewrite <- !app_assoc.
    apply (writes_seq pk (fun wb d => let* wb := pv wb d in metapairs_loop ps wb d) d bk); [done|].
    apply (writes_seq pv (metapairs_loop ps) d bv); [done|exact IH].
Qed.

(** What [lua_rawlen] can be: a border, so that [t[n]] exists when [n > 0]. *)
Fixpoint wf_rawlen (v : lvalue) : Prop :=
  match v with
  | LTable n es => 0 <= n <= INT_MAX /\ (0 < n -> Exists (fun e => fst e = LInteger n) es) /\
      foldr (fun e P => wf_rawlen (fst e) /\ wf_rawlen (snd e) /\ P) True es
  | LPairs es => foldr (fun e P => wf_rawlen (fst e) /\ wf_rawlen (snd e) /\ P) True es
  | _ => True
  end.

Lemma foldr_Forall {A} (P Q : A -> Prop) (l : list A) :
  foldr (fun e R => P e /\ Q e /\ R) True l <-> Forall (fun e => P e /\ Q e) l.
Proof. induction l as [|x l IH]; simpl; [by split|]. rewrite Forall_cons, IH. tauto. Qed.

Lemma Forall2_map_same {A B C} (R : B -> C -> Prop) (f : A -> B) (g : A -> C) (l : list A) :
  (forall x, x ∈ l -> R (f x) (g x)) -> Forall2 R (map f l) (map g l).
Proof.
  induction l as [|x l IH]; intros H; simpl; constructor; [apply H; set_solver|].
  apply IH. intros y Hy. apply H. set_solver.
Qed.

Lemma packable_entries d (es : list (lvalue * lvalue)) :
  forallb (fun e => packable d (fst e) && packable d (snd e)) es = true <->
  Forall (fun e => packable d (fst e) = true /\ packable d (snd e) = true) es.
Proof.
  rewrite <- Is_true_true, forallb_True. apply Forall_iff. intros e.
  by rewrite Is_true_true, andb_true_iff.
Qed.

Lemma packable_depth d v : packable d v = true -> d <= MAX_DEPTH.
Proof. destruct v; simpl; intros [? _]%andb_true_iff; by apply Z.leb_le. Qed.

Lemma pack_one_writes v d : wf_rawlen v -> packable d v = true -> writes (pack_one v) d (ser v).
Proof.
  revert d. induction v as [|b|z|z|z|s|n es IH|es IH|] using lvalue_rect'; intros d Hwf Hp;
    pose proof (packable_depth _ _ Hp) as Hd;
    (intros wb l0 Hr Hl; cbn [pack_one]; destruct (Z.gtb_spec d MAX_DEPTH) as [|_]; [lia|]).
  1, 2: by apply wb_push_spec.
  1: by apply (writes_integer d).
  1, 2: by apply (writes_cons d).
  1: by apply (writes_string d).
  3: simpl in Hp; by rewrite andb_false_r in Hp.
  - apply andb_true_iff in Hp as [_ Hp%packable_entries]. destruct Hwf as (Hn & Hborder & Hwf%foldr_Forall).
    set (ps := map (fun e => (e.1, pack_one e.1, pack_one e.2)) es).
    set (bs := map (fun e => (e.1, ser e.1, ser e.2)) es).
    assert (writes_entries (d + 1) ps bs) as Hps.
    { apply Forall2_map_same. intros e He. rewrite Forall_forall in IH, Hp, Hwf.
      destruct (IH e He) as [IH1 IH2], (Hp e He) as [Hp1 Hp2], (Hwf e He) as [Hw1 Hw2]. simpl. eauto. }
    assert (0 < n -> d + 1 <= MAX_DEPTH) as Hd'.
    { intros Hpos. specialize (Hborder Hpos). apply Exists_exists in Hborder as (e & He & _).
      rewrite Forall_forall in Hp. destruct (Hp e He) as [Hk _]. by apply packable_depth in Hk. }
    unfold wb_table. rewrite i32_small by (unfold INT_MAX in Hn; zlia). cbn [ser] in Hl |- *. fold bs in Hl |- *.
    rewrite (app_assoc (ser_header n)) in Hl |- *.
    apply (writes_seq (wb_table_array n ps) (fun wb d => wb_table_hash ps wb d n) (d + 1)); try done.
    + apply writes_table_array; [lia|done|done].
    + by apply writes_table_hash.
  - apply andb_true_iff in Hp as [_ Hp%packable_entries]. apply foldr_Forall in Hwf.
    set (ps := map (fun e => (e.1, pack_one e.1, pack_one e.2)) es).
    assert (writes_entries (d + 1) ps (map (fun e => (e.1, ser e.1, ser e.2)) es)) as Hps.
    { apply Forall2_map_same. intros e He. rewrite Forall_forall in IH, Hp, Hwf.
      destruct (IH e He) as [IH1 IH2], (Hp e He) as [Hp1 Hp2], (Hwf e He) as [Hw1 Hw2]. simpl. eauto. }
    apply writes_metapairs in Hps. rewrite <- list_fmap_compose in Hps.
    apply (writes_seq (fun wb _ => wb_push wb [COMBINE_TYPE TYPE_TABLE 0]) (metapairs_loop ps) (d + 1) [_]); try done.
    apply writes_push.
Qed.

Lemma pack_from_spec vs wb l0 : wb_rep wb l0 -> Forall wf_rawlen vs -> Forall (fun v => packable 0 v = true) vs ->
  Z.of_nat (length (l0 ++ concat (ser <$> vs))) <= INT_MAX ->
  exists wb', pack_from vs wb = Ok wb' /\ wb_rep wb' (l0 ++ concat (ser <$> vs)).
Proof.
  intros Hr Hwf Hp. revert wb l0 Hr. induction Hp as [|v vs Hv Hp IH]; intros wb l0 Hr Hl; cbn [pack_from].
  { exists wb. simpl. by rewrite app_nil_r. }
  apply Forall_cons in Hwf as [Hw Hwf]. rewrite fmap_cons in Hl |- *. cbn [concat] in Hl |- *.
  rewrite app_assoc in Hl |- *. destruct (pack_one_writes v 0 Hw Hv wb l0 Hr) as (wb1 & -> & Hr1).
  { rewrite length_app in Hl. lia. }
  by apply IH.
Qed.

Lemma luaseri_pack_spec vs : Forall wf_rawlen vs -> Forall (fun v => packable 0 v = true) vs ->
  Z.of_nat (length (concat (ser <$> vs))) <= INT_MAX -> luaseri_pack vs = Ok (concat (ser <$> vs)).
Proof.
  intros Hwf Hp Hl. unfold luaseri_pack.
  destruct (pack_from_spec vs wb_init [] wb_init_rep Hwf Hp Hl) as (wb & -> & Hr).
  by rewrite (seri_rep _ _ Hr).
Qed.

(** ** Reading *)

(** [rb] has the bytes [l] still to read. *)
Record reads (rb : read_block) (l : list Z) : Prop := {
  rd_ptr : 0 <= rb_ptr rb <= Z.of_nat (length (rb_buffer rb));
  rd_rest : drop (Z.to_nat (rb_ptr rb)) (rb_buffer rb) = l;
  rd_len : rb_len rb = Z.of_nat (length l);
}.

Lemma rball_init_reads l : reads (rball_init l (Z.of_nat (length l))) l.
Proof. split; simpl; [lia|done|done]. Qed.

Lemma read_bytes_spec rb l1 l2 n : reads rb (l1 ++ l2) -> n = Z.of_nat (length l1) ->
  exists rb', read_bytes rb n = Ok (l1, rb') /\ reads rb' l2.
Proof.
  intros [Hp Hr Hl] ->. unfold read_bytes, rb_read. rewrite Hl, length_app in *.
  destruct (Z.ltb_spec (Z.of_nat (length l1 + length l2)) (Z.of_nat (length l1))); [lia|]. simpl.
  assert (Z.of_nat (length (rb_buffer rb)) = rb_ptr rb + Z.of_nat (length (l1 ++ l2))) as Hlen.
  { rewrite <- Hr, length_drop. lia. }
  rewrite length_app in Hlen. rewrite memcpy_Some by lia. rewrite Hr, Nat2Z.id, take_app_length. simpl.
  eexists. split; [done|]. split; simpl; [lia| |lia].
  rewrite Z2Nat.inj_add, Nat2Z.id by lia. rewrite <- drop_drop, Hr. by rewrite drop_app_length.
Qed.

Lemma get_buffer_eq rb n : 0 <= n -> get_buffer rb n = read_bytes rb n.
Proof.
  intros Hn. unfold get_buffer, read_bytes. destruct (rb_read rb n) as [[p|] rb']; [|done].
  destruct (Z.ltb_spec n 0); [lia|done].
Qed.

Lemma le_bytes_length n z : length (le_bytes n z) = n.
Proof. revert z. induction n as [|n IH]; intros z; simpl; [done|]. by rewrite IH. Qed.

Lemma le_value_bytes n z : le_value (le_bytes n z) = z mod 2 ^ (8 * Z.of_nat n).
Proof.
  revert z. induction n as [|n IH]; intros z; cbn [le_bytes le_value].
  - by rewrite Z.mod_1_r.
  - rewrite IH. replace (8 * Z.of_nat (S n)) with (8 + 8 * Z.of_nat n) by lia.
    rewrite Z.pow_add_r, Z.rem_mul_r by lia. done.
Qed.

(** Reading a number of [n] bytes. *)
Lemma read_le rb n z rest : reads rb (le_bytes n z ++ rest) ->
  exists rb', read_bytes rb (Z.of_nat n) = Ok (le_bytes n z, rb') /\ reads rb' rest.
Proof. intros H. apply (read_bytes_spec _ _ _ _ H). by rewrite le_bytes_length. Qed.

Lemma combine_type t v : 0 <= t < 8 -> 0 <= v ->
  Z.land (COMBINE_TYPE t v) 7 = t /\ Z.shiftr (COMBINE_TYPE t v) 3 = v.
Proof.
  intros Ht Hv. unfold COMBINE_TYPE. rewrite Z.shiftl_mul_pow2, lor_fields by lia.
  change 7 with (2 ^ 3 - 1). rewrite land_low, Z.shiftr_div_pow2 by lia.
  rewrite Z.mod_add, Z.div_add, Z.mod_small, Z.div_small by lia. lia.
Qed.

Lemma get_integer_spec rb z rest t body : -2 ^ 63 <= z < 2 ^ 63 -> ser_integer z = t :: body ->
  reads rb (body ++ rest) ->
  Z.land t 7 = TYPE_NUMBER /\ Z.shiftr t 3 <> TYPE_NUMBER_REAL /\
  exists rb', get_integer rb (Z.shiftr t 3) = Ok (z, rb') /\ reads rb' rest.
Proof.
  intros Hz. unfold ser_integer.
  assert (forall n k (f : Z -> Z), COMBINE_TYPE TYPE_NUMBER k :: le_bytes n z = t :: body ->
    0 <= k -> k <> TYPE_NUMBER_REAL ->
    (get_integer rb k = let* (l, rb') := read_bytes rb (Z.of_nat n) in Ok (f (le_value l), rb')) ->
    f (z mod 2 ^ (8 * Z.of_nat n)) = z -> reads rb (body ++ rest) ->
    Z.land t 7 = TYPE_NUMBER /\ Z.shiftr t 3 <> TYPE_NUMBER_REAL /\
    exists rb', get_integer rb (Z.shiftr t 3) = Ok (z, rb') /\ reads rb' rest) as Hgen.
  { intros n k f [= <- <-] Hk Hkr Hget Hf Hrb. unfold TYPE_NUMBER.
    destruct (combine_type 2 k) as [-> ->]; [lia..|]. split; [done|]. split; [done|].
    destruct (read_le _ _ _ _ Hrb) as (rb' & Hrd & Hrb'). exists rb'. split; [|done].
    rewrite Hget, Hrd, le_value_bytes, Hf. done. }
  destruct (Z.eqb_spec z 0) as [->|Hnz].
  { intros [= <- <-] Hrb. split; [done|]. split; [done|]. by exists rb. }
  destruct (Z.eqb_spec z (i32 z)) as [E|E]; cbn [negb].
  - assert (- 2 ^ 31 <= z < 2 ^ 31) as Hr by (rewrite E; apply i32_range).
    destruct (Z.ltb_spec z 0); [|destruct (Z.ltb_spec z 0x100); [|destruct (Z.ltb_spec z 0x10000)]]; intros Es.
    + apply (Hgen 4%nat 4 i32); try done. unfold i32. change (8 * Z.of_nat 4) with 32.
      rewrite Zplus_mod_idemp_l. exact (eq_sym E).
    + apply (Hgen 1%nat 1 (fun x => x)); try done. apply Z.mod_small. simpl. lia.
    + apply (Hgen 2%nat 2 (fun x => x)); try done. apply Z.mod_small. simpl. lia.
    + apply (Hgen 4%nat 4 i32); try done. unfold i32. change (8 * Z.of_nat 4) with 32.
      rewrite Zplus_mod_idemp_l. exact (eq_sym E).
  - intros Es. apply (Hgen 8%nat 6 i64); try done. unfold i64. change (8 * Z.of_nat 8) with 64.
    rewrite Zplus_mod_idemp_l. by apply i64_small.
Qed.
