(* ===== verification/SeriRead.v ===== *)
(** * Reading back what [luaseri_pack] wrote

    [luaseri_unpack] on the encoding of a list of values gives the values themselves
    ([norm]): a table as the entries its array and hash part set, in that order. *)

From S2P Require Import Prelude CString LuaError Seri SeriSpec.

(** ** What is read back *)

Definition set_pairs (es kvs : list (uvalue * uvalue)) : list (uvalue * uvalue) :=
  foldl (fun es kv => table_set es kv.1 kv.2) es kvs.

(** The items of the array part are stored at 1, 2, ... *)
Definition set_items (i : Z) (es : list (uvalue * uvalue)) (vs : list uvalue) : list (uvalue * uvalue) :=
  set_pairs es (zip (UInteger <$> seqZ i (Z.of_nat (length vs))) vs).

Fixpoint norm (v : lvalue) : uvalue :=
  match v with
  | LNil | LOther => UNil
  | LBoolean b => UBoolean b
  | LInteger z => UInteger z
  | LNumber bits => UNumber bits
  | LUserdata p => UUserdata p
  | LString s => UString s
  | LTable n es =>
      let us := map (fun e => (fst e, norm (fst e), norm (snd e))) es in
      UTable (set_pairs (set_items 1 [] (geti UNil us <$> seqZ 1 n)) (hash_part n us))
  | LPairs es => UTable (set_pairs [] (map (fun e => (norm (fst e), norm (snd e))) es))
  end.

Section RoundTrip.
Context (float_integer : Z -> option Z).

Definition unpack_one (fuel : nat) (rb : read_block) : res (uvalue * read_block) :=
  let* (t, rb) := read_bytes rb 1 in
  push_value float_integer fuel rb (Z.land (le_value t) 7) (Z.shiftr (le_value t) 3).

(** A key Lua accepts as it is. *)
Definition key_ok (k : lvalue) : Prop :=
  match k with
  | LNil | LOther => False
  | LNumber bits => is_nan bits = false /\ float_integer bits = None
  | _ => True
  end.

(** A value as the Lua machine holds it. *)
Fixpoint wf_value (v : lvalue) : Prop :=
  match v with
  | LInteger z => - 2 ^ 63 <= z < 2 ^ 63
  | LNumber z | LUserdata z => 0 <= z < 2 ^ 64
  | LTable _ es | LPairs es =>
      Forall (fun e => key_ok (fst e)) es /\
      foldr (fun e P => wf_value (fst e) /\ wf_value (snd e) /\ P) True es
  | LString s => Z.of_nat (length s) <= INT_MAX
  | LOther => False
  | _ => True
  end.

(** The bytes [l] read back as [u]. *)
Definition decodes (l : list Z) (u : uvalue) : Prop :=
  l <> [] /\ forall fuel rb rest, reads rb (l ++ rest) -> (3 * length l - 2 <= fuel)%nat ->
    exists rb', unpack_one fuel rb = Ok (u, rb') /\ reads rb' rest.

Lemma decodes_cons t body u :
  (forall fuel rb rest, reads rb (body ++ rest) -> (3 * length body + 1 <= fuel)%nat ->
     exists rb', push_value float_integer fuel rb (Z.land t 7) (Z.shiftr t 3) = Ok (u, rb') /\ reads rb' rest) ->
  decodes (t :: body) u.
Proof.
  intros H. split; [done|]. intros fuel rb rest Hr Hf. unfold unpack_one.
  destruct (read_bytes_spec rb [t] (body ++ rest) 1 Hr eq_refl) as (rb1 & -> & Hr1).
  cbn [le_value]. rewrite Z.mul_0_r, Z.add_0_r. apply H; [done|]. simpl in Hf. lia.
Qed.

Definition rawset_ok (k : uvalue) : Prop :=
  is_nil k = false /\ forall es v, rawset float_integer es k v = Ok (table_set es k v).

Lemma key_ok_norm k : key_ok k -> rawset_ok (norm k).
Proof.
  destruct k; cbn [key_ok norm]; try done. intros [Hn Hf]. split; [done|]. intros es v. unfold rawset.
  by rewrite Hn, Hf.
Qed.

Lemma unpack_hash_S fuel rb es :
  unpack_hash float_integer (S fuel) rb es =
    let* (k, rb) := unpack_one fuel rb in
    if is_nil k then Ok (UTable es, rb)
    else
      let* (v, rb) := unpack_one fuel rb in
      let* es := rawset float_integer es k v in
      unpack_hash float_integer fuel rb es.
Proof.
  cbn [unpack_hash]. unfold unpack_one. destruct (read_bytes rb 1) as [[t rb1]| |]; [|done..].
  destruct (push_value _ _ _ _ _) as [[k rb2]| |]; [|done..]. destruct (is_nil k); [done|].
  by destruct (read_bytes rb2 1) as [[t' rb3]| |].
Qed.

Lemma unpack_array_S fuel rb i n es :
  unpack_array float_integer (S fuel) rb i n es =
    if i <=? n then
      let* (v, rb) := unpack_one fuel rb in
      unpack_array float_integer fuel rb (i + 1) n (table_set es (UInteger i) v)
    else unpack_hash float_integer fuel rb es.
Proof.
  cbn [unpack_array]. unfold unpack_one. destruct (i <=? n); [|done]. by destruct (read_bytes rb 1) as [[t rb1]| |].
Qed.

Lemma decodes_nil : decodes [TYPE_NIL] UNil.
Proof.
  apply decodes_cons. intros fuel rb rest Hr Hf. destruct fuel as [|fuel]; [lia|].
  exists rb. by split.
Qed.

Lemma decodes_length l u : decodes l u -> (1 <= length l)%nat.
Proof. intros [Hl _]. destruct l; [done|]. cbn [length]. lia. Qed.

(** The hash part of a table: pairs up to a [nil] key. *)
Lemma unpack_hash_spec (bs : list (list Z * list Z)) (us : list (uvalue * uvalue)) :
  Forall2 (fun b u => decodes b.1 u.1 /\ decodes b.2 u.2 /\ rawset_ok u.1) bs us ->
  forall fuel rb rest es, reads rb (ser_hash bs ++ rest) -> (3 * length (ser_hash bs) - 1 <= fuel)%nat ->
  exists rb', unpack_hash float_integer fuel rb es = Ok (UTable (set_pairs es us), rb') /\ reads rb' rest.
Proof.
  induction 1 as [|[bk bv] [uk uv] bs us (Hk & Hv & Hrk & Hset) _ IH]; intros fuel rb rest es Hr Hf.
  - destruct fuel as [|fuel]; [cbn in Hf; lia|]. rewrite unpack_hash_S.
    destruct decodes_nil as [_ Hnil]. destruct (Hnil fuel rb rest Hr) as (rb' & -> & Hr'); [cbn in Hf |- *; lia|].
    by exists rb'.
  - assert (ser_hash ((bk, bv) :: bs) = bk ++ bv ++ ser_hash bs) as E.
    { unfold ser_hash. rewrite fmap_cons. cbn [concat fst snd]. by rewrite <- !app_assoc. }
    rewrite E, <- !app_assoc in Hr. rewrite E, !length_app in Hf. cbn [fst snd] in *.
    pose proof (decodes_length _ _ Hk). pose proof (decodes_length _ _ Hv). destruct Hk as [_ Hk], Hv as [_ Hv].
    destruct fuel as [|fuel]; [lia|]. rewrite unpack_hash_S.
    destruct (Hk fuel _ _ Hr) as (rb1 & -> & Hr1); [lia|]. rewrite Hrk.
    destruct (Hv fuel _ _ Hr1) as (rb2 & -> & Hr2); [lia|]. rewrite Hset.
    apply IH; [done|lia].
Qed.

Lemma set_items_cons i es u us : set_items i es (u :: us) = set_items (i + 1) (table_set es (UInteger i) u) us.
Proof.
  unfold set_items. cbn [length]. rewrite Nat2Z.inj_succ, seqZ_cons by lia.
  rewrite fmap_cons. cbn [zip_with]. unfold set_pairs at 1. cbn [foldl fst snd].
  by rewrite Z.pred_succ.
Qed.

(** The array part, then the hash part. *)
Lemma unpack_array_spec (bs : list (list Z)) (us : list uvalue) hbs hus n :
  Forall2 decodes bs us ->
  Forall2 (fun b u => decodes b.1 u.1 /\ decodes b.2 u.2 /\ rawset_ok u.1) hbs hus ->
  forall fuel rb rest i es, reads rb (concat bs ++ ser_hash hbs ++ rest) -> n = i + Z.of_nat (length bs) - 1 ->
  (3 * (length (concat bs) + length (ser_hash hbs)) <= fuel)%nat ->
  exists rb', unpack_array float_integer fuel rb i n es = Ok (UTable (set_pairs (set_items i es us) hus), rb') /\
    reads rb' rest.
Proof.
  intros Hbs Hh. assert (1 <= length (ser_hash hbs))%nat.
  { unfold ser_hash. rewrite length_app. cbn [length]. lia. }
  induction Hbs as [|b u bs us Hb _ IH]; intros fuel rb rest i es Hr Hn Hf;
    (destruct fuel as [|fuel]; [lia|]); rewrite unpack_array_S; cbn [concat length] in Hr, Hn, Hf.
  - destruct (Z.leb_spec i n); [lia|]. apply (unpack_hash_spec _ _ Hh); [done|lia].
  - destruct (Z.leb_spec i n); [|lia]. rewrite <- app_assoc in Hr. rewrite length_app in Hf.
    pose proof (decodes_length _ _ Hb). destruct Hb as [_ Hb].
    destruct (Hb fuel _ _ Hr) as (rb1 & -> & Hr1); [lia|]. rewrite set_items_cons.
    apply IH; [done|lia|lia].
Qed.

Lemma table_size_spec rb n rest t body : 0 <= n <= INT_MAX -> ser_header n = t :: body -> reads rb (body ++ rest) ->
  Z.land t 7 = TYPE_TABLE /\ exists rb', table_size rb (Z.shiftr t 3) = Ok (n, rb') /\ reads rb' rest.
Proof.
  intros Hn. unfold ser_header. unfold MAX_COOKIE, TYPE_TABLE, INT_MAX in *.
  destruct (Z.geb_spec n (32 - 1)) as [Hb|Hb]; intros [= <- <-] Hr.
  - destruct (combine_type 6 (32 - 1)) as [-> ->]; [lia..|]. split; [done|]. unfold table_size, MAX_COOKIE.
    rewrite Z.eqb_refl. destruct (ser_integer n) as [|t body] eqn:E.
    { exfalso. revert E. unfold ser_integer. by repeat case_match. }
    destruct (read_bytes_spec rb [t] (body ++ rest) 1 Hr eq_refl) as (rb1 & -> & Hr1).
    cbn [le_value]. rewrite Z.mul_0_r, Z.add_0_r.
    destruct (get_integer_spec rb1 n rest t body) as (-> & Hreal & rb2 & -> & Hr2); [lia|done..|].
    rewrite Z.eqb_refl. apply Z.eqb_neq in Hreal as ->. cbn [negb orb]. rewrite i32_small by lia. by exists rb2.
  - destruct (combine_type 6 n) as [-> ->]; [lia..|]. split; [done|]. unfold table_size, MAX_COOKIE.
    destruct (Z.eqb_spec n (32 - 1)); [lia|]. by exists rb.
Qed.

Lemma decodes_string s : Z.of_nat (length s) <= INT_MAX -> decodes (ser_string s) (UString s).
Proof.
  intros Hs. unfold ser_string. set (len := Z.of_nat (length s)) in *.
  assert (0 <= len) by lia. unfold MAX_COOKIE, INT_MAX in *.
  destruct (Z.ltb_spec len 32); [|destruct (Z.ltb_spec len 0x10000)];
    apply decodes_cons; intros fuel rb rest Hr Hf; (destruct fuel as [|fuel]; [lia|]); cbn [push_value].
  - unfold TYPE_SHORT_STRING. destruct (combine_type 4 len) as [-> ->]; [lia..|]. cbn [Z.eqb].
    rewrite get_buffer_eq by lia. destruct (read_bytes_spec _ _ _ len Hr eq_refl) as (rb1 & -> & Hr1). by exists rb1.
  - rewrite <- app_assoc in Hr. destruct (read_le _ _ _ _ Hr) as (rb1 & Hrd & Hr1).
    change (Z.land (COMBINE_TYPE TYPE_LONG_STRING 2) 7) with 5.
    change (Z.shiftr (COMBINE_TYPE TYPE_LONG_STRING 2) 3) with 2. cbn -[read_bytes get_buffer le_bytes le_value].
    change (Z.of_nat 2) with 2 in Hrd. rewrite Hrd, le_value_bytes, Z.mod_small by (simpl; lia).
    rewrite get_buffer_eq by lia. destruct (read_bytes_spec _ _ _ len Hr1 eq_refl) as (rb2 & -> & Hr2). by exists rb2.
  - rewrite <- app_assoc in Hr. destruct (read_le _ _ _ _ Hr) as (rb1 & Hrd & Hr1).
    change (Z.land (COMBINE_TYPE TYPE_LONG_STRING 4) 7) with 5.
    change (Z.shiftr (COMBINE_TYPE TYPE_LONG_STRING 4) 3) with 4.
    cbn -[read_bytes get_buffer le_bytes le_value i32].
    change (Z.of_nat 4) with 4 in Hrd. rewrite Hrd, le_value_bytes, Z.mod_small by (simpl; lia).
    rewrite i32_small by lia.
    rewrite get_buffer_eq by lia. destruct (read_bytes_spec _ _ _ len Hr1 eq_refl) as (rb2 & -> & Hr2). by exists rb2.
Qed.
Lemma read_word rb z rest : 0 <= z < 2 ^ 64 -> reads rb (le_bytes 8 z ++ rest) ->
  exists rb', read_bytes rb 8 = Ok (le_bytes 8 z, rb') /\ le_value (le_bytes 8 z) = z /\ reads rb' rest.
Proof.
  intros Hz Hr. destruct (read_le _ _ _ _ Hr) as (rb' & Hrd & Hr'). exists rb'. split; [done|].
  split; [|done]. rewrite le_value_bytes. by apply Z.mod_small.
Qed.

Lemma decodes_integer z : - 2 ^ 63 <= z < 2 ^ 63 -> decodes (ser_integer z) (UInteger z).
Proof.
  intros Hz. destruct (ser_integer z) as [|t body] eqn:E.
  { exfalso. revert E. unfold ser_integer. by repeat case_match. }
  apply decodes_cons. intros fuel rb rest Hr Hf. destruct fuel as [|fuel]; [lia|].
  destruct (get_integer_spec rb z rest t body Hz E Hr) as (-> & Hreal & rb' & Hg & Hr').
  cbn [push_value Z.eqb TYPE_NUMBER TYPE_NIL TYPE_BOOLEAN]. apply Z.eqb_neq in Hreal as ->. rewrite Hg.
  by exists rb'.
Qed.

Lemma decodes_number bits : 0 <= bits < 2 ^ 64 ->
  decodes (COMBINE_TYPE TYPE_NUMBER TYPE_NUMBER_REAL :: le_bytes 8 bits) (UNumber bits).
Proof.
  intros Hz. apply decodes_cons. intros fuel rb rest Hr Hf. destruct fuel as [|fuel]; [lia|].
  destruct (read_word _ _ _ Hz Hr) as (rb' & Hrd & Hv & Hr'). cbn -[read_bytes le_bytes le_value].
  unfold get_real. rewrite Hrd, Hv. by exists rb'.
Qed.

Lemma decodes_pointer p : 0 <= p < 2 ^ 64 -> decodes (TYPE_USERDATA :: le_bytes 8 p) (UUserdata p).
Proof.
  intros Hz. apply decodes_cons. intros fuel rb rest Hr Hf. destruct fuel as [|fuel]; [lia|].
  destruct (read_word _ _ _ Hz Hr) as (rb' & Hrd & Hv & Hr'). cbn -[read_bytes le_bytes le_value].
  unfold get_pointer. rewrite Hrd, Hv. by exists rb'.
Qed.

Lemma decodes_table n bs us hbs hus : 0 <= n <= INT_MAX -> Z.of_nat (length bs) = n ->
  Forall2 decodes bs us ->
  Forall2 (fun b u => decodes b.1 u.1 /\ decodes b.2 u.2 /\ rawset_ok u.1) hbs hus ->
  decodes (ser_header n ++ concat bs ++ ser_hash hbs) (UTable (set_pairs (set_items 1 [] us) hus)).
Proof.
  intros Hn Hlen Hbs Hh. destruct (ser_header n) as [|t body] eqn:E.
  { exfalso. revert E. unfold ser_header. by case_match. }
  apply decodes_cons. intros fuel rb rest Hr Hf. destruct fuel as [|fuel]; [lia|].
  rewrite <- !app_assoc in Hr. rewrite !length_app in Hf.
  destruct (table_size_spec rb n _ t body Hn E Hr) as (-> & rb1 & Hts & Hr1).
  cbn [push_value Z.eqb Pos.eqb TYPE_TABLE TYPE_NIL TYPE_BOOLEAN TYPE_NUMBER TYPE_USERDATA TYPE_SHORT_STRING
    TYPE_LONG_STRING]. rewrite Hts.
  apply (unpack_array_spec _ _ _ _ _ Hbs Hh); [done|lia|lia].
Qed.

(** What the entries of a table decode to, from the induction hypotheses on them. *)
Definition decodes_entry (b : lvalue * list Z * list Z) (u : lvalue * uvalue * uvalue) : Prop :=
  b.1.1 = u.1.1 /\ decodes b.1.2 u.1.2 /\ decodes b.2 u.2 /\ rawset_ok u.1.2.

Lemma decodes_geti bs us i : Forall2 decodes_entry bs us -> decodes (geti [TYPE_NIL] bs i) (geti UNil us i).
Proof.
  unfold geti. induction 1 as [|b u bs us (Hk & _ & Hv & _) _ IH]; [apply decodes_nil|].
  rewrite !filter_cons, Hk. by destruct (decide (is_integer u.1.1 i = true)).
Qed.

Lemma decodes_hash n bs us : Forall2 decodes_entry bs us ->
  Forall2 (fun b u => decodes b.1 u.1 /\ decodes b.2 u.2 /\ rawset_ok u.1) (hash_part n bs) (hash_part n us).
Proof.
  unfold hash_part. induction 1 as [|b u bs us (Hk & Hd) _ IH]; [constructor|].
  rewrite !filter_cons, Hk. destruct (decide _); [|done]. by constructor.
Qed.

Lemma ser_decodes v : wf_rawlen v -> wf_value v -> decodes (ser v) (norm v).
Proof.
  induction v as [|b|z|z|z|s|n es IH|es IH|] using lvalue_rect'; intros Hl Hv.
  - apply decodes_nil.
  - apply decodes_cons. intros fuel rb rest Hr Hf. destruct fuel as [|fuel]; [lia|]. exists rb. by destruct b.
  - by apply decodes_integer.
  - by apply decodes_number.
  - by apply decodes_pointer.
  - by apply decodes_string.
  - destruct Hl as (Hn & _ & Hl%foldr_Forall), Hv as [Hk Hv%foldr_Forall].
    cbn [ser norm]. unfold ser_array.
    assert (Forall2 decodes_entry (map (fun e => (e.1, ser e.1, ser e.2)) es)
              (map (fun e => (e.1, norm e.1, norm e.2)) es)) as He.
    { apply Forall2_map_same. intros e He. rewrite Forall_forall in IH, Hk, Hv, Hl.
      specialize (Hk e He). destruct (IH e He), (Hl e He), (Hv e He). split; [done|]. simpl. split; [|split]; auto using key_ok_norm. }
    apply decodes_table; [done| |  |by apply decodes_hash].
    + rewrite length_fmap, length_seqZ. lia.
    + apply Forall2_map_same. intros i _. by apply decodes_geti.
  - apply foldr_Forall in Hl. destruct Hv as [Hk Hv%foldr_Forall].
    apply (decodes_table 0 [] []); [by vm_compute|done|constructor|].
    apply Forall2_map_same. intros e He. rewrite Forall_forall in IH, Hk, Hv, Hl.
    specialize (Hk e He). destruct (IH e He), (Hl e He), (Hv e He). simpl. split; [|split]; auto using key_ok_norm.
  - destruct Hv.
Qed.

Lemma unpack_loop_spec vs : Forall wf_rawlen vs -> Forall wf_value vs ->
  forall fuel rb, reads rb (concat (ser <$> vs)) -> (3 * length (concat (ser <$> vs)) < fuel)%nat ->
  unpack_loop float_integer fuel rb = Ok (norm <$> vs).
Proof.
  intros Hl Hv. induction Hv as [|v vs Hv _ IH]; intros fuel rb Hr Hf; (destruct fuel as [|fuel]; [lia|]);
    cbn [unpack_loop].
  - unfold rb_read. rewrite (rd_len _ _ Hr). done.
  - apply Forall_cons in Hl as [Hlv Hl]. rewrite fmap_cons in Hr, Hf. rewrite fmap_cons. cbn [concat] in Hr, Hf.
    rewrite length_app in Hf. destruct (ser_decodes v Hlv Hv) as [Hne Hd].
    destruct (rb_read rb 1) as [[p|] rb1] eqn:Erb.
    + destruct (Hd fuel rb _ Hr) as (rb2 & Hone & Hr2); [lia|]. unfold unpack_one in Hone.
      destruct (read_bytes rb 1) as [[t rb3]| |]; [|done..]. rewrite Hone.
      rewrite (IH Hl fuel rb2 Hr2); [done|]. destruct (ser v); [done|]. cbn [length] in Hf. lia.
    + unfold rb_read in Erb. rewrite (rd_len _ _ Hr) in Erb. destruct (ser v); [done|].
      cbn [app length] in Erb. destruct (Z.ltb_spec (Z.of_nat (S (length (l ++ concat (ser <$> vs))))) 1); [lia|done].
Qed.

Lemma luaseri_unpack_spec vs : Forall wf_rawlen vs -> Forall wf_value vs ->
  Z.of_nat (length (concat (ser <$> vs))) <= INT_MAX ->
  luaseri_unpack float_integer (concat (ser <$> vs)) = Ok (norm <$> vs).
Proof.
  intros Hl Hv Hlen. unfold luaseri_unpack. rewrite i32_small by (unfold INT_MAX in Hlen; zlia).
  destruct (Z.eqb_spec (Z.of_nat (length (concat (ser <$> vs)))) 0) as [E|E].
  - destruct Hv as [|v vs Hv _]; [done|]. apply Forall_cons in Hl as [Hlv _].
    pose proof (decodes_length _ _ (ser_decodes v Hlv Hv)). rewrite fmap_cons in E. cbn [concat] in E.
    rewrite length_app in E. lia.
  - apply unpack_loop_spec; [done..|apply rball_init_reads|lia].
Qed.
End RoundTrip.

(** ** The table read back has the entries of the table packed *)

(** Setting distinct keys appends the entries. *)
Definition fresh (es : list (uvalue * uvalue)) (k : uvalue) : Prop := Forall (fun e => raw_equal e.1 k = false) es.

Lemma table_set_fresh es k v : fresh es k -> table_set es k v = es ++ (if is_nil v then [] else [(k, v)]).
Proof.
  induction 1 as [|[k' v'] es Hk _ IH]; [done|]. cbn [table_set fst] in *. by rewrite Hk, IH.
Qed.

Definition distinct (kvs : list (uvalue * uvalue)) : Prop :=
  ForallOrdPairs (fun a b => raw_equal a.1 b.1 = false) kvs.

Lemma set_pairs_fresh es kvs : distinct (es ++ kvs) ->
  set_pairs es kvs = es ++ filter (fun kv => is_nil kv.2 = false) kvs.
Proof.
  revert es. induction kvs as [|[k v] kvs IH]; intros es Hd; cbn [set_pairs foldl].
  { by rewrite app_nil_r. }
  cbn [fst snd]. fold (set_pairs (table_set es k v) kvs).
  rewrite table_set_fresh.
  2: { clear IH. induction es as [|e es IH]; [constructor|]. inversion Hd as [|? ? He Hd']; subst.
       constructor; [|by apply IH]. apply Forall_app in He as [_ [He _]%Forall_cons]. exact He. }
  rewrite filter_cons. cbn [snd]. destruct (is_nil v) eqn:Ev.
  - rewrite app_nil_r. rewrite decide_False by done. apply IH.
    clear -Hd. induction es as [|e es IHe]; [by inversion Hd|]. inversion Hd as [|? ? He Hd']; subst.
    constructor; [|by apply IHe]. apply Forall_app in He as [He1 [_ He2]%Forall_cons]. by apply Forall_app.
  - rewrite decide_True by done. rewrite IH by (by rewrite <- app_assoc). by rewrite <- app_assoc.
Qed.

(** A table Lua can hold: no [nil] among its values, keys that differ. *)
Definition wf_table (es : list (lvalue * lvalue)) : Prop :=
  Forall (fun e => is_nil (norm e.2) = false) es /\
  ForallOrdPairs (fun a b => raw_equal (norm a.1) (norm b.1) = false) es.

Definition entry (e : lvalue * lvalue) : uvalue * uvalue := (norm e.1, norm e.2).

Notation normed es := (map (fun e => (fst e, norm (fst e), norm (snd e))) es).

Lemma raw_equal_int a b i : raw_equal (norm a) (norm b) = false -> a = LInteger i -> b = LInteger i -> False.
Proof. intros H -> ->. cbn in H. by rewrite Z.eqb_refl in H. Qed.

(** The value at an integer key. *)
Lemma geti_entry es i v : ForallOrdPairs (fun a b => raw_equal (norm a.1) (norm b.1) = false) es ->
  (LInteger i, v) ∈ es -> geti UNil (normed es) i = norm v.
Proof.
  intros Hd He. unfold geti. induction Hd as [|e es Hlt Hd IH]; [by apply elem_of_nil in He|].
  cbn [map]. rewrite filter_cons. cbn [fst].
  apply elem_of_cons in He as [<-|He].
  - rewrite decide_True; [done|]. cbn. by rewrite Z.eqb_refl.
  - destruct (decide (is_integer e.1 i = true)) as [Hi|Hi]; [|by apply IH].
    exfalso. rewrite Forall_forall in Hlt. eapply raw_equal_int; [apply (Hlt _ He)| |done].
    destruct (e.1); cbn in Hi; try done. f_equal. by apply Z.eqb_eq in Hi.
Qed.

Lemma geti_nonnil es i : is_nil (geti UNil (normed es) i) = false ->
  exists v, (LInteger i, v) ∈ es /\ geti UNil (normed es) i = norm v.
Proof.
  destruct (geti_cases UNil (normed es) i) as [->|(p & Hp & Hk & ->)]; [done|]. intros _.
  apply list_elem_of_fmap in Hp as ([k v] & -> & He). cbn in Hk. subst k. by exists v.
Qed.

(** The array part that is read back. *)
Definition array_items (n : Z) (es : list (lvalue * lvalue)) : list (uvalue * uvalue) :=
  zip (UInteger <$> seqZ 1 n) (geti UNil (normed es) <$> seqZ 1 n).

Lemma array_items_eq n es :
  array_items n es = (fun i => (UInteger i, geti UNil (normed es) i)) <$> seqZ 1 n.
Proof. unfold array_items. by rewrite zip_with_fmap_l, zip_with_fmap_r, zip_with_diag. Qed.

Lemma norm_table n es : 0 <= n ->
  norm (LTable n es) = UTable (set_pairs [] (array_items n es ++ hash_part n (normed es))).
Proof.
  intros Hn. cbn [norm]. unfold set_items. rewrite length_fmap, length_seqZ, Z2Nat.id by done.
  unfold set_pairs. by rewrite foldl_app.
Qed.

Lemma hash_part_normed n es :
  hash_part n (normed es) = entry <$> filter (fun e => in_array e.1 n = false) es.
Proof.
  unfold hash_part. induction es as [|e es IH]; [done|]. cbn [map]. rewrite !filter_cons. cbn [fst].
  destruct (decide (in_array e.1 n = false)); [|done]. rewrite !fmap_cons. by f_equal.
Qed.

Lemma FOP_app {A} (R : A -> A -> Prop) l1 l2 : ForallOrdPairs R l1 -> ForallOrdPairs R l2 ->
  (forall x y, x ∈ l1 -> y ∈ l2 -> R x y) -> ForallOrdPairs R (l1 ++ l2).
Proof.
  intros H1 H2 Hx. induction H1 as [|x l1 Hx1 H1 IH]; [done|]. constructor.
  - apply Forall_app. split; [done|]. apply Forall_forall. intros y Hy. apply Hx; [set_solver|done].
  - apply IH. intros y z Hy. apply Hx. set_solver.
Qed.

Lemma FOP_filter {A} (R : A -> A -> Prop) (P : A -> Prop) `{!forall x, Decision (P x)} l :
  ForallOrdPairs R l -> ForallOrdPairs R (filter P l).
Proof.
  induction 1 as [|x l Hx Hl IH]; [constructor|]. rewrite filter_cons. destruct (decide (P x)); [|done].
  constructor; [|done]. apply Forall_forall. intros y [_ Hy]%list_elem_of_filter. rewrite Forall_forall in Hx. by apply Hx.
Qed.

Lemma FOP_fmap {A B} (R : B -> B -> Prop) (f : A -> B) l :
  ForallOrdPairs (fun a b => R (f a) (f b)) l -> ForallOrdPairs R (f <$> l).
Proof. induction 1 as [|x l Hx _ IH]; [constructor|]. constructor; [|done]. by apply Forall_fmap. Qed.

Lemma FOP_NoDup {A} (R : A -> A -> Prop) l : NoDup l -> (forall x y, x ∈ l -> y ∈ l -> x <> y -> R x y) ->
  ForallOrdPairs R l.
Proof.
  induction 1 as [|x l Hx Hl IH]; intros H; [constructor|]. constructor.
  - apply Forall_forall. intros y Hy. apply H; [set_solver|set_solver|]. by intros ->.
  - apply IH. intros a b Ha Hb. apply H; set_solver.
Qed.

Lemma table_distinct n es : wf_table es -> distinct (array_items n es ++ hash_part n (normed es)).
Proof.
  intros [_ Hd]. rewrite array_items_eq, hash_part_normed. apply FOP_app.
  - apply FOP_fmap, FOP_NoDup; [apply NoDup_seqZ|]. intros i j _ _ Hij. cbn. by apply Z.eqb_neq.
  - apply FOP_fmap, FOP_filter. exact Hd.
  - intros x y (i & -> & Hi)%list_elem_of_fmap (e & -> & [He _]%list_elem_of_filter)%list_elem_of_fmap.
    apply elem_of_seqZ in Hi. destruct e as [k v]. cbn [entry fst] in *. destruct k; cbn in *; try done.
    apply Z.eqb_neq. intros ->. apply andb_false_iff in He as [He|He]; blia.
Qed.

Lemma array_items_perm n es : 0 <= n -> wf_table es ->
  filter (fun kv => is_nil kv.2 = false) (array_items n es) ≡ₚ entry <$> filter (fun e => in_array e.1 n = true) es.
Proof.
  intros Hn [Hv Hd]. rewrite array_items_eq. apply NoDup_Permutation.
  - apply NoDup_filter, NoDup_fmap_2; [by intros i j [=]|apply NoDup_seqZ].
  - apply (FOP_filter _ (fun e => in_array e.1 n = true)) in Hd. clear Hv.
    assert (Forall (fun e => in_array e.1 n = true) (filter (fun e => in_array e.1 n = true) es)) as Hi.
    { apply Forall_forall. by intros e [? _]%list_elem_of_filter. }
    induction Hd as [|e l Hlt _ IH]; [constructor|]. apply Forall_cons in Hi as [He Hi].
    rewrite fmap_cons. constructor; [|by apply IH]. intros ([k v] & [= Hk _] & Hl)%list_elem_of_fmap.
    rewrite Forall_forall in Hlt. specialize (Hlt _ Hl). cbn [fst] in *. destruct (e.1); try done.
    cbn [norm raw_equal] in *. rewrite <- Hk in Hlt. cbn in Hlt. by rewrite Z.eqb_refl in Hlt.
  - intros [k u]. rewrite list_elem_of_filter, !list_elem_of_fmap. split.
    + intros (Hu & i & [= -> ->] & Hi). cbn [snd] in Hu. apply geti_nonnil in Hu as (v & He & ->).
      exists (LInteger i, v). split; [done|]. apply list_elem_of_filter. split; [|done].
      apply elem_of_seqZ in Hi. cbn. apply andb_true_iff. split; blia.
    + intros ([k' v] & [= -> ->] & [Hi He]%list_elem_of_filter). rewrite Forall_forall in Hv.
      specialize (Hv _ He). cbn [fst snd] in *. destruct k'; cbn in Hi; try done. split; [done|].
      exists z. split; [by rewrite (geti_entry _ _ v)|]. apply elem_of_seqZ. blia.
Qed.

Lemma norm_entries n es : 0 <= n -> wf_table es ->
  exists us, norm (LTable n es) = UTable us /\ us ≡ₚ entry <$> es.
Proof.
  intros Hn Hw. rewrite norm_table by done. eexists. split; [done|].
  rewrite set_pairs_fresh by by apply table_distinct. rewrite app_nil_l, filter_app.
  rewrite array_items_perm, hash_part_normed by done.
  replace (filter (fun kv => is_nil kv.2 = false) (entry <$> filter (fun e => in_array e.1 n = false) es))
    with (entry <$> filter (fun e => in_array e.1 n = false) es).
  - rewrite <- fmap_app. apply fmap_Permutation. clear Hn Hw. induction es as [|e es IH]; [done|].
    rewrite !filter_cons. destruct (in_array e.1 n) eqn:E; simpl.
    + by constructor.
    + rewrite <- Permutation_middle. by constructor.
  - destruct Hw as [Hv _]. clear Hn. induction Hv as [|e es He _ IH]; [done|]. rewrite (filter_cons _ e).
    destruct (decide _); [|done]. rewrite fmap_cons, filter_cons_True by done. by f_equal.
Qed.

(** ** Every buffer *)

(** A reading step on a block with [m] bytes left, of which at least [d] go: it never leaves the buffer. *)
Definition safe {A} (d m : nat) (r : res (A * read_block)) : Prop :=
  match r with
  | Ok (_, rb') => exists l', reads rb' l' /\ (length l' + d <= m)%nat
  | Raise _ => True
  | Stuck => False
  end.

Lemma safe_weaken {A} d d' m m' (r : res (A * read_block)) :
  safe d m r -> (m + d' <= m' + d)%nat -> safe d' m' r.
Proof. destruct r as [[a rb]| |]; simpl; [|done..]. intros (l' & Hr & Hl) Hm. exists l'. split; [done|]. lia. Qed.

Lemma safe_bind {A B} d m (r : res (A * read_block)) (k : A -> read_block -> res (B * read_block)) d' :
  safe d m r ->
  (forall a rb l, reads rb l -> (length l + d <= m)%nat -> safe d' (length l) (k a rb)) ->
  safe (d + d') m (let* (a, rb) := r in k a rb).
Proof.
  destruct r as [[a rb]| |]; [|done..]. intros (l & Hr & Hl) Hk.
  apply (safe_weaken _ _ _ _ _ (Hk a rb l Hr Hl)). lia.
Qed.

Lemma safe_ok {A} (a : A) rb l : reads rb l -> safe 0 (length l) (Ok (a, rb)).
Proof. intros Hr. exists l. split; [done|]. lia. Qed.

Lemma read_bytes_safe rb l n : reads rb l -> 0 <= n -> safe (Z.to_nat n) (length l) (read_bytes rb n).
Proof.
  intros Hr Hn. destruct (Z.le_gt_cases n (Z.of_nat (length l))) as [Hle|Hgt].
  - rewrite <- (take_drop (Z.to_nat n) l) in Hr.
    destruct (read_bytes_spec _ _ _ n Hr) as (rb' & -> & Hr'); [rewrite length_take; lia|].
    exists (drop (Z.to_nat n) l). split; [done|]. rewrite length_drop. lia.
  - unfold read_bytes, rb_read. rewrite (rd_len _ _ Hr). destruct (Z.ltb_spec (Z.of_nat (length l)) n); [done|lia].
Qed.

Lemma get_buffer_safe rb l n : reads rb l -> safe 0 (length l) (get_buffer rb n).
Proof.
  intros Hr. destruct (Z.le_gt_cases 0 n) as [Hn|Hn].
  - rewrite get_buffer_eq by done. apply (safe_weaken _ _ _ _ _ (read_bytes_safe rb l n Hr Hn)). lia.
  - unfold get_buffer, rb_read. rewrite (rd_len _ _ Hr).
    destruct (Z.ltb_spec (Z.of_nat (length l)) n); [lia|]. destruct (Z.ltb_spec n 0); [done|lia].
Qed.

Ltac safe_read :=
  eapply safe_weaken;
    [eapply (safe_bind _ _ _ _ 0); [apply read_bytes_safe; [eassumption|lia]
                            |intros ? ? ? ? ?; by apply safe_ok] | lia].

Lemma get_integer_safe rb l cookie : reads rb l -> safe 0 (length l) (get_integer rb cookie).
Proof.
  intros Hr. unfold get_integer.
  repeat (destruct (_ =? _); [first [by apply safe_ok | safe_read]|]). done.
Qed.

Lemma table_size_safe rb l n : reads rb l -> safe 0 (length l) (table_size rb n).
Proof.
  intros Hr. unfold table_size. destruct (_ =? _); [|by apply safe_ok].
  eapply safe_weaken; [eapply (safe_bind _ _ _ _ 0); [apply read_bytes_safe; [eassumption|lia]|]|lia].
  intros t rb1 l1 Hr1 _. destruct (_ || _); [done|].
  apply (safe_bind 0 (length l1) _ _ 0); [by apply get_integer_safe|]. intros. by apply safe_ok.
Qed.

Lemma long_size_safe rb l n : reads rb l -> safe 0 (length l) (long_size rb n).
Proof.
  intros Hr. unfold long_size. destruct (_ =? _); [safe_read|]. destruct (negb _); [done|safe_read].
Qed.

Section Safe.
Context (float_integer : Z -> option Z).

Lemma scalar_safe rb l type cookie fuel : reads rb l -> type <> TYPE_TABLE ->
  safe 0 (length l) (push_value float_integer (S fuel) rb type cookie).
Proof.
  intros Hr Ht. cbn [push_value].
  destruct (_ =? TYPE_NIL); [by apply safe_ok|]. destruct (_ =? TYPE_BOOLEAN); [by apply safe_ok|].
  destruct (_ =? TYPE_NUMBER).
  { destruct (_ =? _).
    - unfold get_real. pose proof (read_bytes_safe rb l 8 Hr) as Hs. destruct (read_bytes rb 8) as [[b rb1]| |]; [|done|by apply Hs].
      destruct Hs as (l' & Hr' & Hl); [lia|]. exists l'. split; [done|lia].
    - apply (safe_bind 0 (length l) _ _ 0); [by apply get_integer_safe|]. intros. by apply safe_ok. }
  destruct (_ =? TYPE_USERDATA).
  { unfold get_pointer. pose proof (read_bytes_safe rb l 8 Hr) as Hs. destruct (read_bytes rb 8) as [[b rb1]| |]; [|done|by apply Hs].
    destruct Hs as (l' & Hr' & Hl); [lia|]. exists l'. split; [done|lia]. }
  destruct (_ =? TYPE_SHORT_STRING).
  { apply (safe_bind 0 (length l) _ _ 0); [by apply get_buffer_safe|]. intros. by apply safe_ok. }
  destruct (_ =? TYPE_LONG_STRING).
  { apply (safe_bind 0 (length l) _ _ 0); [by apply long_size_safe|]. intros n rb1 l1 Hr1 _.
    apply (safe_bind 0 (length l1) _ _ 0); [by apply get_buffer_safe|]. intros. by apply safe_ok. }
  by apply Z.eqb_neq in Ht as ->.
Qed.

(** The three loops, on enough fuel for the bytes left. *)
Lemma unpack_safe fuel :
  (forall rb l type cookie, reads rb l -> (3 * length l + 3 <= fuel)%nat ->
     safe 0 (length l) (push_value float_integer fuel rb type cookie)) /\
  (forall rb l i n es, reads rb l -> (3 * length l + 2 <= fuel)%nat ->
     safe 0 (length l) (unpack_array float_integer fuel rb i n es)) /\
  (forall rb l es, reads rb l -> (3 * length l + 1 <= fuel)%nat ->
     safe 0 (length l) (unpack_hash float_integer fuel rb es)).
Proof.
  induction fuel as [|fuel (IHp & IHa & IHh)]; [by repeat split; intros; lia|].
  assert (forall rb l, reads rb l -> (3 * length l <= fuel)%nat -> safe 1 (length l) (unpack_one float_integer fuel rb))
    as Hone.
  { intros rb l Hr Hf. apply (safe_bind 1 (length l) _ _ 0); [by apply (read_bytes_safe rb l 1)|].
    intros t rb1 l1 Hr1 Hl1. apply IHp; [done|lia]. }
  split; [|split].
  - intros rb l type cookie Hr Hf. destruct (Z.eq_dec type TYPE_TABLE) as [->|Ht]; [|by apply scalar_safe].
    cbn [push_value]. apply (safe_bind 0 (length l) _ _ 0); [by apply table_size_safe|].
    intros n rb1 l1 Hr1 Hl1. apply IHa; [done|lia].
  - intros rb l i n es Hr Hf. rewrite unpack_array_S. destruct (i <=? n); [|apply IHh; [done|lia]].
    apply (safe_weaken 1 0 (length l)); [|lia]. apply (safe_bind 1 (length l) _ _ 0); [apply Hone; [done|lia]|].
    intros v rb1 l1 Hr1 Hl1. apply IHa; [done|lia].
  - intros rb l es Hr Hf. rewrite unpack_hash_S. apply (safe_weaken 1 0 (length l)); [|lia].
    apply (safe_bind 1 (length l) _ _ 0); [apply Hone; [done|lia]|]. intros k rb1 l1 Hr1 Hl1.
    destruct (is_nil k); [by apply safe_ok|]. apply (safe_weaken 1 0 (length l1)); [|lia].
    apply (safe_bind 1 (length l1) _ _ 0); [apply Hone; [done|lia]|]. intros v rb2 l2 Hr2 Hl2.
    assert (rawset float_integer es k v <> Stuck) as Hset by (unfold rawset; by repeat case_match).
    destruct (rawset float_integer es k v) as [es'| |]; [|done..]. apply IHh; [done|lia].
Qed.

Lemma unpack_loop_safe fuel rb l : reads rb l -> (3 * length l + 1 <= fuel)%nat ->
  unpack_loop float_integer fuel rb <> Stuck.
Proof.
  revert rb l. induction fuel as [|fuel IH]; intros rb l Hr Hf; [lia|]. cbn [unpack_loop].
  destruct (rb_read rb 1) as [[p|] rb1]; [|done].
  pose proof (read_bytes_safe rb l 1 Hr) as Hs. destruct (read_bytes rb 1) as [[t rb2]| |]; [|done|by destruct Hs].
  destruct Hs as (l2 & Hr2 & Hl2); [lia|].
  destruct (unpack_safe fuel) as [Hp _]. specialize (Hp rb2 l2 (Z.land (le_value t) 7) (Z.shiftr (le_value t) 3) Hr2).
  destruct (push_value _ _ _ _ _) as [[v rb3]| |]; [|done|by destruct Hp; lia].
  destruct Hp as (l3 & Hr3 & Hl3); [lia|]. specialize (IH rb3 l3 Hr3).
  destruct (unpack_loop float_integer fuel rb3); [done|done|]. exfalso. by apply IH; [lia|].
Qed.
End Safe.

(** ** The claims *)


(** The table read back has exactly the entries of the table packed, whatever part of them
    [lua_rawlen] puts in the array: no entry is lost, doubled or changed. *)
Theorem luaseri_table_entries float_integer n es :
  wf_rawlen (LTable n es) -> packable 0 (LTable n es) = true -> wf_value float_integer (LTable n es) ->
  wf_table es -> Z.of_nat (length (ser (LTable n es))) <= INT_MAX ->
  exists buffer us, luaseri_pack [LTable n es] = Ok buffer /\
    luaseri_unpack float_integer buffer = Ok [UTable us] /\ us ≡ₚ entry <$> es.
Proof.
  intros Hl Hp Hv Hw Hlen. assert (0 <= n) as Hn by apply Hl.
  destruct (norm_entries n es Hn Hw) as (us & E & Hus). exists (concat (ser <$> [LTable n es])), us.
  assert (Z.of_nat (length (concat (ser <$> [LTable n es]))) <= INT_MAX) as Hlen'.
  { rewrite fmap_cons. cbn [concat]. by rewrite app_nil_r. }
  split; [|split; [|done]].
  - apply luaseri_pack_spec; [by constructor|by constructor|done].
  - rewrite <- E. apply (luaseri_unpack_spec float_integer [LTable n es]); [by constructor|by constructor|done].
Qed.

(** C32: Unpacking is safe on every buffer, however it was made: it returns values or raises a Lua
    error, never reads outside the buffer, and every loop ends within three rounds per byte. *)
Theorem luaseri_unpack_safe float_integer buffer :
  Z.of_nat (length buffer) <= INT_MAX -> luaseri_unpack float_integer buffer <> Stuck.
Proof.
  intros Hlen. unfold luaseri_unpack. rewrite i32_small by (unfold INT_MAX in Hlen; zlia).
  destruct (Z.eqb_spec (Z.of_nat (length buffer)) 0); [done|].
  apply (unpack_loop_safe _ _ _ buffer); [apply rball_init_reads|lia].
Qed.

(** A long string whose four length bytes say [2^31] or more passes the bounds check of [rb_read],
    because the length is an [int] there: the error is not that of an invalid stream. *)
Theorem luaseri_negative_length float_integer b0 b1 b2 b3 rest :
  0 <= b0 < 2 ^ 8 -> 0 <= b1 < 2 ^ 8 -> 0 <= b2 < 2 ^ 8 -> 2 ^ 7 <= b3 < 2 ^ 8 ->
  Z.of_nat (length rest) + 5 <= INT_MAX ->
  luaseri_unpack float_integer (COMBINE_TYPE TYPE_LONG_STRING 4 :: b0 :: b1 :: b2 :: b3 :: rest) = Raise TooBig.
Proof.
  intros H0 H1 H2 H3 Hlen. set (hd := COMBINE_TYPE TYPE_LONG_STRING 4).
  pose proof (rball_init_reads (hd :: b0 :: b1 :: b2 :: b3 :: rest)) as Hr.
  unfold luaseri_unpack. set (buf := hd :: _) in *.
  assert (Z.of_nat (length buf) = Z.of_nat (length rest) + 5) as Hl by (unfold buf; cbn [length]; lia).
  rewrite i32_small by (unfold INT_MAX in Hlen; zlia). destruct (Z.eqb_spec (Z.of_nat (length buf)) 0); [lia|].
  destruct (read_bytes_spec _ [hd] _ 1 Hr eq_refl) as (rb1 & Hrd1 & Hr1).
  destruct (read_bytes_spec rb1 [b0; b1; b2; b3] rest 4 Hr1 eq_refl) as (rb2 & Hrd2 & Hr2).
  destruct (3 * length buf)%nat as [|fuel] eqn:Ef; [lia|].
  cbn [unpack_loop]. unfold rb_read at 1. cbn [rb_len rball_init].
  destruct (Z.ltb_spec (Z.of_nat (length buf)) 1); [lia|]. rewrite Hrd1. cbn [le_value].
  change (Z.land (hd + 2 ^ 8 * 0) 7) with TYPE_LONG_STRING. change (Z.shiftr (hd + 2 ^ 8 * 0) 3) with 4.
  cbn -[read_bytes get_buffer le_value i32 unpack_loop]. rewrite Hrd2.
  assert (i32 (le_value [b0; b1; b2; b3]) < 0) as Hneg.
  { cbn [le_value]. unfold i32. replace (_ + 2 ^ 31) with
      (b0 + 2 ^ 8 * (b1 + 2 ^ 8 * (b2 + 2 ^ 8 * b3)) - 2 ^ 31 + 1 * 2 ^ 32) by zlia.
    rewrite Z.mod_add, Z.mod_small by zlia. zlia. }
  unfold get_buffer, rb_read. rewrite (rd_len _ _ Hr2).
  destruct (Z.ltb_spec (Z.of_nat (length rest)) (i32 (le_value [b0; b1; b2; b3]))); [lia|].
  destruct (Z.ltb_spec (i32 (le_value [b0; b1; b2; b3])) 0); [done|lia].
Qed.

Definition no_float (bits : Z) : option Z := None.

(** [{10, 20, [4] = true, x = {}}, "hi", -5]. *)
Definition sample_table : lvalue :=
  LTable 2 [(LInteger 1, LInteger 10); (LInteger 2, LInteger 70000); (LInteger 4, LBoolean true);
            (LString [120], LTable 0 [])].

Ltac wf_tac :=
  cbn -[Z.le Z.lt Z.pow INT_MAX]; repeat (apply Forall_cons_2 || apply Forall_nil_2 || apply conj);
  try done; try zlia; try (vm_compute; congruence).

Lemma sample_rawlen : wf_rawlen sample_table.
Proof. wf_tac. intros _. apply Exists_cons_tl, Exists_cons_hd. done. Qed.

Lemma sample_wf : wf_value no_float sample_table.
Proof. wf_tac. Qed.


Lemma luaseri_table_entries_witness :
  exists buffer us, luaseri_pack [sample_table] = Ok buffer /\
    luaseri_unpack no_float buffer = Ok [UTable us] /\
    us ≡ₚ [(UInteger 1, UInteger 10); (UInteger 2, UInteger 70000); (UInteger 4, UBoolean true);
           (UString [120], UTable [])].
Proof.
  apply (luaseri_table_entries no_float 2 [(LInteger 1, LInteger 10); (LInteger 2, LInteger 70000);
    (LInteger 4, LBoolean true); (LString [120], LTable 0 [])]).
  - apply sample_rawlen.
  - reflexivity.
  - apply sample_wf.
  - split; repeat constructor.
  - vm_compute. congruence.
Defined.

(** A table header followed by nothing, then garbage. *)
Lemma luaseri_unpack_safe_witness : luaseri_unpack no_float [254; 34; 16; 0; 7] <> Stuck.
Proof. apply luaseri_unpack_safe. vm_compute. congruence. Defined.

Lemma luaseri_negative_length_witness :
  luaseri_unpack no_float [COMBINE_TYPE TYPE_LONG_STRING 4; 0; 0; 0; 128; 65] = Raise TooBig.
Proof. apply luaseri_negative_length; vm_compute; (congruence || by split). Defined.
