(* ===== verification/Crypt.v ===== *)
(** * Text codecs, hashes and key exchange ([lualib-src/lua-crypt.c])

    All of the file but DES, which is in [Des.v].  A Lua string is a list of bytes, a [char] array a list
    of the unsigned values of its cells.  A function takes its Lua arguments and returns the string it pushes. *)

From S2P Require Import Prelude CString LuaError.

Definition SMALL_CHUNK : Z := 256.

(** A local array, or a userdata of [n] bytes when [big]. *)
Definition buffer_for (big : bool) (n : Z) : list Z := malloc (if big then n else SMALL_CHUNK).

(** [lua_pushlstring(L, buffer, n)]. *)
Definition pushlstring (buffer : list Z) (n : Z) : res (list Z) := lift (memcpy buffer 0 n).

(** ** Random keys *)

(** [rnd i] is what the [i]-th call of [random] returns. *)
Definition lrandomkey (rnd : Z -> Z) : list Z :=
  let tmp := map (fun i => Z.land (rnd i) 0xff) (seqZ 0 8) in
  let x := foldl Z.lxor 0 tmp in
  if x =? 0 then match tmp with t :: tmp => Z.lor t 1 :: tmp | [] => [] end else tmp.

(** ** Hash *)

Definition hash_step (s : Z * Z) (c : Z) : Z * Z :=
  let '(djb_hash, js_hash) := s in
  (u32 (djb_hash + (u32 (Z.shiftl djb_hash 5) + c)),
   Z.lxor js_hash (u32 (u32 (Z.shiftl js_hash 5) + c + Z.shiftr js_hash 2))).

(** The four bytes of a word, lowest first. *)
Definition word_bytes (w : Z) : list Z :=
  [Z.land w 0xff; Z.land (Z.shiftr w 8) 0xff; Z.land (Z.shiftr w 16) 0xff; Z.land (Z.shiftr w 24) 0xff].

(** [sz] is an [int]: with a negative one the loop does not run. *)
Definition Hash (s : list Z) (sz : Z) : list Z :=
  let '(djb_hash, js_hash) := foldl hash_step (5381, 1315423911) (take (Z.to_nat sz) s) in
  word_bytes djb_hash ++ word_bytes js_hash.

Definition lhashkey (key : list Z) : list Z := Hash key (i32 (Z.of_nat (length key))).

(** ** Hexadecimal text *)

Definition hex : list Z := str "0123456789abcdef" ++ [0].

Definition tohex_body (text : list Z) (s : Z * list Z) : res (Z * list Z) :=
  let '(i, buffer) := s in
  let* c := lift (aget text i) in
  let* h := lift (aget hex (Z.shiftr c 4)) in
  let* p := int (i * 2) in
  let* buffer := lift (aset buffer p h) in
  let* h := lift (aget hex (Z.land c 0xf)) in
  let* p := int (i * 2 + 1) in
  let* buffer := lift (aset buffer p h) in
  let* i := int (i + 1) in
  Ok (i, buffer).

Definition ltohex (text : list Z) : res (list Z) :=
  let sz := Z.of_nat (length text) in
  let buffer := buffer_for (SMALL_CHUNK / 2 <? sz) (sz * 2) in
  let* (_, buffer) := while (length text) (fun '(i, _) => i <? sz) (tohex_body text) (0, buffer) in
  pushlstring buffer (sz * 2).

(** A [char] is signed. *)
Definition i8 (z : Z) : Z := (z + 2 ^ 7) mod 2 ^ 8 - 2 ^ 7.

Definition HEX (c : Z) : Z :=
  let tmp := i8 c in
  u8 (if (48 <=? tmp) && (tmp <=? 57) then tmp - 48 else tmp - 97 + 10).

Definition fromhex_body (text : list Z) (s : Z * list Z) : res (Z * list Z) :=
  let '(i, buffer) := s in
  let* c := lift (aget text i) in
  let hi := HEX c in
  let* c := lift (aget text (i + 1)) in
  let low := HEX c in
  if (16 <? hi) || (16 <? low) then Raise (Text "Invalid hex text") else
  let* buffer := lift (aset buffer (i / 2) (u8 (Z.lor (Z.shiftl hi 4) low))) in
  let* i := int (i + 2) in
  Ok (i, buffer).

Definition lfromhex (text : list Z) : res (list Z) :=
  let sz := Z.of_nat (length text) in
  if negb (Z.land sz 1 =? 0) then Raise (Text "Invalid hex text size %d") else
  let buffer := buffer_for (SMALL_CHUNK * 2 <? sz) (sz / 2) in
  let* (i, buffer) := while (length text) (fun '(i, _) => i <? sz) (fromhex_body text) (0, buffer) in
  pushlstring buffer (i / 2).

(** ** Message authentication: one block of MD5 *)

Definition k_table : list Z :=
  [0xd76aa478; 0xe8c7b756; 0x242070db; 0xc1bdceee; 0xf57c0faf; 0x4787c62a; 0xa8304613; 0xfd469501;
   0x698098d8; 0x8b44f7af; 0xffff5bb1; 0x895cd7be; 0x6b901122; 0xfd987193; 0xa679438e; 0x49b40821;
   0xf61e2562; 0xc040b340; 0x265e5a51; 0xe9b6c7aa; 0xd62f105d; 0x02441453; 0xd8a1e681; 0xe7d3fbc8;
   0x21e1cde6; 0xc33707d6; 0xf4d50d87; 0x455a14ed; 0xa9e3e905; 0xfcefa3f8; 0x676f02d9; 0x8d2a4c8a;
   0xfffa3942; 0x8771f681; 0x6d9d6122; 0xfde5380c; 0xa4beea44; 0x4bdecfa9; 0xf6bb4b60; 0xbebfbc70;
   0x289b7ec6; 0xeaa127fa; 0xd4ef3085; 0x04881d05; 0xd9d4d039; 0xe6db99e5; 0x1fa27cf8; 0xc4ac5665;
   0xf4292244; 0x432aff97; 0xab9423a7; 0xfc93a039; 0x655b59c3; 0x8f0ccc92; 0xffeff47d; 0x85845dd1;
   0x6fa87e4f; 0xfe2ce6e0; 0xa3014314; 0x4e0811a1; 0xf7537e82; 0xbd3af235; 0x2ad7d2bb; 0xeb86d391].

Definition r_table : list Z :=
  [7; 12; 17; 22; 7; 12; 17; 22; 7; 12; 17; 22; 7; 12; 17; 22;
   5; 9; 14; 20; 5; 9; 14; 20; 5; 9; 14; 20; 5; 9; 14; 20;
   4; 11; 16; 23; 4; 11; 16; 23; 4; 11; 16; 23; 4; 11; 16; 23;
   6; 10; 15; 21; 6; 10; 15; 21; 6; 10; 15; 21; 6; 10; 15; 21].

Definition LEFTROTATE (x c : Z) : Z := Z.lor (u32 (Z.shiftl x c)) (Z.shiftr x (32 - c)).

(** The bits of a 32-bit complement. *)
Definition not32 (x : Z) : Z := u32 (Z.lnot x).

Definition hmac_round (w : list Z) (i : Z) (s : Z * Z * Z * Z) : option (Z * Z * Z * Z) :=
  let '(a, b, c, d) := s in
  let '(f, g) :=
    if i <? 16 then (Z.lor (Z.land b c) (Z.land (not32 b) d), i)
    else if i <? 32 then (Z.lor (Z.land d b) (Z.land (not32 d) c), (5 * i + 1) mod 16)
    else if i <? 48 then (Z.lxor (Z.lxor b c) d, (3 * i + 5) mod 16)
    else (Z.lxor c (Z.lor b (not32 d)), (7 * i) mod 16) in
  let! ki := aget k_table i in
  let! wg := aget w g in
  let! ri := aget r_table i in
  Some (d, u32 (b + LEFTROTATE (u32 (a + f + ki + wg)) ri), b, c).

(** [x], [y] and the result are pairs of words, [w] holds four copies of the block. *)
Definition hmac (x y : Z * Z) : option (Z * Z) :=
  let quad := [snd x; fst x; snd y; fst y] in
  let w := quad ++ quad ++ quad ++ quad in
  let! (a, b, c, d) := for_loop 64 0 (hmac_round w) (0x67452301, 0xefcdab89, 0x98badcfe, 0x10325476) in
  Some (Z.lxor c d, Z.lxor a b).

(** [x[i] | x[i+1]<<8 | x[i+2]<<16 | x[i+3]<<24] as a [uint32_t]. *)
Definition le_word (x : list Z) (i : Z) : option Z :=
  let! b0 := aget x i in
  let! b1 := aget x (i + 1) in
  let! b2 := aget x (i + 2) in
  let! b3 := aget x (i + 3) in
  Some (u32 (Z.lor (Z.lor (Z.lor b0 (Z.shiftl b1 8)) (Z.shiftl b2 16)) (Z.shiftl b3 24))).

Definition le_words (x : list Z) : option (Z * Z) :=
  let! lo := le_word x 0 in
  let! hi := le_word x 4 in
  Some (lo, hi).

Definition read64 (x y : list Z) : res ((Z * Z) * (Z * Z)) :=
  if negb (Z.of_nat (length x) =? 8) then Raise (Text "Invalid uint64 x") else
  if negb (Z.of_nat (length y) =? 8) then Raise (Text "Invalid uint64 y") else
  let* xx := lift (le_words x) in
  let* yy := lift (le_words y) in
  Ok (xx, yy).

Definition pushqword (result : Z * Z) : list Z := word_bytes (fst result) ++ word_bytes (snd result).

Definition lhmac64 (x y : list Z) : res (list Z) :=
  let* (xx, yy) := read64 x y in
  let* result := lift (hmac xx yy) in
  Ok (pushqword result).

Definition lhmac_hash (x text : list Z) : res (list Z) :=
  if negb (Z.of_nat (length x) =? 8) then Raise (Text "Invalid uint64 key") else
  let* key := lift (le_words x) in
  let h := Hash text (i32 (Z.of_nat (length text))) in
  let* htext := lift (le_words h) in
  let* result := lift (hmac htext key) in
  Ok (pushqword result).

(** ** Key exchange *)

Definition P : Z := 0xffffffffffffffc5.

Definition mul_body (s : Z * Z * Z) : Z * Z * Z :=
  let '(m, a, b) := s in
  let m := if Z.odd b then
             let t := u64 (P - a) in
             if t <=? m then u64 (m - t) else u64 (m + a)
           else m in
  let a := if u64 (P - a) <=? a then u64 (a * 2 - P) else u64 (a * 2) in
  (m, a, Z.shiftr b 1).

(** [b] has 64 bits, so there are at most 64 passes. *)
Fixpoint mul_loop (fuel : nat) (s : Z * Z * Z) : option Z :=
  let '(m, a, b) := s in
  if b =? 0 then Some m
  else match fuel with O => None | S fuel => mul_loop fuel (mul_body s) end.

Definition mul_mod_p (a b : Z) : option Z := mul_loop 64 (0, a, b).

(** With [b = 0] the recursion does not end. *)
Fixpoint pow_rec (fuel : nat) (a b : Z) : option Z :=
  if b =? 1 then Some a
  else match fuel with
    | O => None
    | S fuel =>
        let! t := pow_rec fuel a (Z.shiftr b 1) in
        let! t := mul_mod_p t t in
        if negb (b mod 2 =? 0) then mul_mod_p t a else Some t
    end.

Definition pow_mod_p (a b : Z) : option Z := pow_rec 64 a b.

Definition powmodp (a b : Z) : option Z :=
  let a := if P <? a then a mod P else a in
  pow_mod_p a b.

Definition push64 (r : Z) : list Z :=
  map (fun i => Z.land (Z.shiftr r (8 * i)) 0xff) (seqZ 0 8).

Definition word64 (x : Z * Z) : Z := Z.lor (fst x) (u64 (Z.shiftl (snd x) 32)).

Definition ldhsecret (x y : list Z) : res (list Z) :=
  let* (x, y) := read64 x y in
  let xx := word64 x in
  let yy := word64 y in
  if (xx =? 0) || (yy =? 0) then Raise (Text "Can't be 0") else
  let* r := lift (powmodp xx yy) in
  Ok (push64 r).

Definition G : Z := 5.

Definition ldhexchange (x : list Z) : res (list Z) :=
  if negb (Z.of_nat (length x) =? 8) then Raise (Text "Invalid dh uint64 key") else
  let* xx := lift (le_words x) in
  let x64 := word64 xx in
  if x64 =? 0 then Raise (Text "Can't be 0") else
  let* r := lift (powmodp G x64) in
  Ok (push64 r).

(** ** Base64 *)

Definition encoding : list Z :=
  str "ABCDEFGHIJKLMNOPQRSTUVWXYZabcdefghijklmnopqrstuvwxyz0123456789+/" ++ [0].

(** [buffer[j] = encoding[v]]. *)
Definition put_code (buffer : list Z) (j v : Z) : res (list Z) :=
  let* e := lift (aget encoding v) in
  lift (aset buffer j e).

Definition encode_body (text : list Z) (s : Z * Z * list Z) : res (Z * Z * list Z) :=
  let '(i, j, buffer) := s in
  let* b0 := lift (aget text i) in
  let* b1 := lift (aget text (i + 1)) in
  let* b2 := lift (aget text (i + 2)) in
  let v := Z.lor (Z.lor (Z.shiftl b0 16) (Z.shiftl b1 8)) b2 in
  let* buffer := put_code buffer j (Z.shiftr v 18) in
  let* buffer := put_code buffer (j + 1) (Z.land (Z.shiftr v 12) 0x3f) in
  let* buffer := put_code buffer (j + 2) (Z.land (Z.shiftr v 6) 0x3f) in
  let* buffer := put_code buffer (j + 3) (Z.land v 0x3f) in
  let* j := int (j + 4) in
  let* i := int (i + 3) in
  Ok (i, j, buffer).

Definition lb64encode (text : list Z) : res (list Z) :=
  let sz := Z.of_nat (length text) in
  let encode_sz := i32 ((sz + 2) / 3 * 4) in
  let buffer := buffer_for (SMALL_CHUNK <? encode_sz) encode_sz in
  let* (i, j, buffer) := while (length text) (fun '(i, _, _) => i <? i32 sz - 2) (encode_body text) (0, 0, buffer) in
  let padding := i32 (sz - i) in
  let* buffer :=
    if padding =? 1 then
      let* v := lift (aget text i) in
      let* buffer := put_code buffer j (Z.shiftr v 2) in
      let* buffer := put_code buffer (j + 1) (Z.shiftl (Z.land v 3) 4) in
      let* buffer := lift (aset buffer (j + 2) 61) in
      lift (aset buffer (j + 3) 61)
    else if padding =? 2 then
      let* b0 := lift (aget text i) in
      let* b1 := lift (aget text (i + 1)) in
      let v := Z.lor (Z.shiftl b0 8) b1 in
      let* buffer := put_code buffer j (Z.shiftr v 10) in
      let* buffer := put_code buffer (j + 1) (Z.land (Z.shiftr v 4) 0x3f) in
      let* buffer := put_code buffer (j + 2) (Z.shiftl (Z.land v 0xf) 2) in
      lift (aset buffer (j + 3) 61)
    else Ok buffer in
  pushlstring buffer encode_sz.

Definition decoding : list Z :=
  [62; -1; -1; -1; 63; 52; 53; 54; 55; 56; 57; 58; 59; 60; 61; -1; -1; -1; -2; -1;
   -1; -1; 0; 1; 2; 3; 4; 5; 6; 7; 8; 9; 10; 11; 12; 13; 14; 15; 16; 17;
   18; 19; 20; 21; 22; 23; 24; 25; -1; -1; -1; -1; -1; -1; 26; 27; 28; 29; 30; 31;
   32; 33; 34; 35; 36; 37; 38; 39; 40; 41; 42; 43; 44; 45; 46; 47; 48; 49; 50; 51].

Definition b64index (c : Z) : option Z :=
  if c <? 43 then Some (-1)
  else let c := c - 43 in
    if Z.of_nat (length decoding) <=? c then Some (-1) else aget decoding c.

(** One pass of the loop that collects four digits in [c]. *)
Definition digit_body (text : list Z) (s : Z * Z * Z * list Z) : res (Z * Z * Z * list Z) :=
  let '(i, j, padding, c) := s in
  if Z.of_nat (length text) <=? i then Raise (Text "Invalid base64 text") else
  let* t := lift (aget text i) in
  let* cj := lift (b64index t) in
  let* c := lift (aset c j cj) in
  let* i := int (i + 1) in
  if cj =? -1 then Ok (i, j, padding, c) else
  Ok (i, j + 1, if cj =? -2 then padding + 1 else padding, c).

(** The [switch] on the number of padding characters of a group [c]. *)
Definition decode_switch (padding : Z) (c : list Z) (output : Z) (buffer : list Z) : res (Z * list Z) :=
  let* c0 := lift (aget c 0) in
  let* c1 := lift (aget c 1) in
  let* c2 := lift (aget c 2) in
  let* c3 := lift (aget c 3) in
  if padding =? 0 then
    let v := Z.lor (Z.lor (Z.lor (Z.shiftl c0 18) (Z.shiftl c1 12)) (Z.shiftl c2 6)) c3 in
    let* buffer := lift (aset buffer output (u8 (Z.shiftr v 16))) in
    let* buffer := lift (aset buffer (output + 1) (Z.land (Z.shiftr v 8) 0xff)) in
    let* buffer := lift (aset buffer (output + 2) (Z.land v 0xff)) in
    let* output := int (output + 3) in
    Ok (output, buffer)
  else if padding =? 1 then
    if negb (c3 =? -2) || negb (Z.land c2 3 =? 0) then Raise (Text "Invalid base64 text") else
    let v := Z.lor (Z.lor (Z.shiftl c0 10) (Z.shiftl c1 4)) (Z.shiftr c2 2) in
    let* buffer := lift (aset buffer output (u8 (Z.shiftr v 8))) in
    let* buffer := lift (aset buffer (output + 1) (Z.land v 0xff)) in
    let* output := int (output + 2) in
    Ok (output, buffer)
  else if padding =? 2 then
    if negb (c3 =? -2) || negb (c2 =? -2) || negb (Z.land c1 0xf =? 0) then Raise (Text "Invalid base64 text") else
    let v := Z.lor (Z.shiftl c0 2) (Z.shiftr c1 4) in
    let* buffer := lift (aset buffer output (u8 v)) in
    let* output := int (output + 1) in
    Ok (output, buffer)
  else Raise (Text "Invalid base64 text").

Definition decode_body (text : list Z) (s : Z * Z * list Z) : res (Z * Z * list Z) :=
  let '(i, output, buffer) := s in
  let* (i, _, padding, c) :=
    while (length text + 4) (fun '(_, j, _, _) => j <? 4) (digit_body text) (i, 0, 0, malloc 4) in
  let* (output, buffer) := decode_switch padding c output buffer in
  Ok (i, output, buffer).

Definition lb64decode (text : list Z) : res (list Z) :=
  let sz := Z.of_nat (length text) in
  let decode_sz := i32 ((sz + 3) / 4 * 3) in
  let buffer := buffer_for (SMALL_CHUNK <? decode_sz) decode_sz in
  let* (_, output, buffer) := while (length text) (fun '(i, _, _) => i <? sz) (decode_body text) (0, 0, buffer) in
  pushlstring buffer output.

(** ** Exclusive or *)

Definition xor_body (s1 s2 : list Z) (s : Z * list Z) : res (Z * list Z) :=
  let '(i, buffer) := s in
  let* a := lift (aget s1 i) in
  let* b := lift (aget s2 (i mod Z.of_nat (length s2))) in
  let* buffer := lift (aset buffer i (Z.lxor a b)) in
  let* i := int (i + 1) in
  Ok (i, buffer).

Definition lxor_str (s1 s2 : list Z) : res (list Z) :=
  let len1 := Z.of_nat (length s1) in
  if Z.of_nat (length s2) =? 0 then Raise (Text "Can't xor empty string") else
  let* (_, buffer) := while (length s1) (fun '(i, _) => i <? len1) (xor_body s1 s2) (0, malloc len1) in
  pushlstring buffer len1.

(** ** Known results *)

Example base64_ex :
  lb64encode (str "hello world") = Ok (str "aGVsbG8gd29ybGQ=") /\
  lb64decode (str "aGVsbG8gd29ybGQ=") = Ok (str "hello world") /\
  lb64decode (str "aGVs=G8g") = Raise (Text "Invalid base64 text").
Proof. repeat split; vm_compute; reflexivity. Qed.

Example hex_ex : ltohex [0; 255; 26] = Ok (str "00ff1a") /\ lfromhex (str "00ff1a") = Ok [0; 255; 26].
Proof. split; vm_compute; reflexivity. Qed.

Example hash_ex : lhashkey (str "a") = [6; 182; 2; 0; 77; 0; 245; 174] /\ lhashkey [] = [5; 21; 0; 0; 167; 198; 103; 78].
Proof. split; vm_compute; reflexivity. Qed.
