(* ===== verification/CryptSpec.v ===== *)
(** * Correctness of the text codecs

    Hexadecimal text, base64 and the exclusive or of strings: what is encoded is decoded to the same bytes, and no
    input makes the code leave its buffers. *)

From S2P Require Import Prelude CString LuaError Crypt.

(** ** Filling a buffer from its start *)

Definition fill (a buf : list Z) : list Z := a ++ drop (length a) buf.

Lemma fill_nil buf : fill [] buf = buf.
Proof. apply drop_0. Qed.

Lemma fill_length a buf : (length a <= length buf)%nat -> length (fill a buf) = length buf.
Proof. intros. unfold fill. rewrite length_app, length_drop. lia. Qed.

Lemma aset_fill a buf x i : i = Z.of_nat (length a) -> (length a < length buf)%nat ->
  aset (fill a buf) i x = Some (fill (a ++ [x]) buf).
Proof.
  intros -> Hl. unfold fill. destruct (drop (length a) buf) as [|y d] eqn:E.
  - apply (f_equal length) in E. rewrite length_drop in E. simpl in E. lia.
  - rewrite aset_mid, <- app_assoc, length_app. simpl. rewrite Nat.add_comm. simpl.
    assert (drop (S (length a)) buf = d) as ->; [|done].
    replace (S (length a)) with (length a + 1)%nat by lia. by rewrite <- drop_drop, E.
Qed.

Lemma pushlstring_fill a buf n : n = Z.of_nat (length a) -> (length a <= length buf)%nat -> pushlstring (fill a buf) n = Ok a.
Proof.
  intros -> Hl. unfold pushlstring. rewrite memcpy_Some; [|lia|lia|rewrite fill_length by lia; lia].
  rewrite Nat2Z.id. unfold fill. by rewrite drop_0, take_app_length.
Qed.

Lemma buffer_length big n k : 0 <= n -> (big = false -> n <= SMALL_CHUNK) -> Z.of_nat k <= n -> (k <= length (buffer_for big n))%nat.
Proof. intros ? Hb ?. unfold buffer_for, malloc. rewrite length_replicate. destruct big; [lia|]. specialize (Hb eq_refl). lia. Qed.

Lemma take_snoc {A} (l : list A) k x : l !! k = Some x -> take (S k) l = take k l ++ [x].
Proof. apply take_S_r. Qed.

Lemma byte_lookup l k x : Forall byte l -> l !! k = Some x -> byte x.
Proof. intros. by eapply Forall_lookup_1. Qed.

(** ** Hexadecimal text *)

Definition hex_digit (v : Z) : Z := default 0 (aget hex v).
Definition to_hex (text : list Z) : list Z := concat (map (fun c => [hex_digit (Z.shiftr c 4); hex_digit (Z.land c 0xf)]) text).

Lemma hex_lookup v : 0 <= v < 16 -> aget hex v = Some (hex_digit v).
Proof. intros. unfold hex_digit. destruct (aget_is_Some hex v) as [x ->]; [change (Z.of_nat (length hex)) with 17; lia | done]. Qed.

Lemma to_hex_length text : length (to_hex text) = (2 * length text)%nat.
Proof. unfold to_hex. induction text as [|c text IH]; simpl; [done|]. rewrite IH. lia. Qed.

Lemma to_hex_app l l' : to_hex (l ++ l') = to_hex l ++ to_hex l'.
Proof. unfold to_hex. by rewrite map_app, concat_app. Qed.

Lemma nibbles c : byte c -> 0 <= Z.shiftr c 4 < 16 /\ 0 <= Z.land c 0xf < 16 /\ Z.lor (Z.shiftl (Z.shiftr c 4) 4) (Z.land c 0xf) = c.
Proof.
  unfold byte. intros. change 0xf with (2 ^ 4 - 1). rewrite land_low, Z.shiftr_div_pow2, Z.shiftl_mul_pow2 by lia.
  assert (0 <= c mod 2 ^ 4 < 2 ^ 4) by (apply Z.mod_pos_bound; lia).
  rewrite Z.lor_comm, lor_fields by lia. zpow. Z.div_mod_to_equations. lia.
Qed.

Lemma ltohex_ok text : Forall byte text -> 2 * Z.of_nat (length text) <= INT_MAX -> ltohex text = Ok (to_hex text).
Proof.
  intros Hb Hmax. unfold ltohex. set (sz := Z.of_nat (length text)). set (buf := buffer_for _ _).
  assert (2 * length text <= length buf)%nat as Hbuf.
  { apply buffer_length; [lia| |lia]. intros ?%Z.ltb_ge. unfold SMALL_CHUNK in *. change (256 / 2) with 128 in *. lia. }
  destruct (while_inv (fun '(i, _) => i <? sz) (tohex_body text)
    (fun '(i, b) => exists k, (k <= length text)%nat /\ i = Z.of_nat k /\ b = fill (to_hex (take k text)) buf)
    (fun '(i, _) => (length text - Z.to_nat i)%nat) (length text) (0, buf)) as ([i b] & -> & (k & Hk & -> & ->) & Hg).
  - exists 0%nat. rewrite fill_nil. split_and!; [lia | done..].
  - simpl. lia.
  - intros [i b] (k & Hk & -> & ->) Hg. zbool. unfold sz in Hg.
    destruct (lookup_lt_is_Some_2 text k ltac:(lia)) as [c Hc]. destruct (nibbles c (byte_lookup _ _ _ Hb Hc)) as (? & ? & _).
    assert (length (to_hex (take k text)) = 2 * k)%nat as Hl by (rewrite to_hex_length, length_take; lia).
    unfold tohex_body. rewrite aget_nat, Hc. cbn [lift]. rewrite hex_lookup by done. cbn [lift].
    rewrite int_Ok by lia. rewrite aset_fill by lia. cbn [lift]. rewrite hex_lookup by done. cbn [lift].
    rewrite int_Ok by lia. rewrite aset_fill by (rewrite length_app; simpl; lia). cbn [lift].
    rewrite int_Ok by lia. eexists. split; [done|]. split; [|lia]. exists (S k). split_and!; [lia | lia|].
    rewrite (take_S_r _ _ _ Hc), to_hex_app, <- app_assoc. done.
  - zbool. rewrite take_ge in * by lia. apply pushlstring_fill; rewrite to_hex_length; lia.
Qed.

Lemma HEX_digit v : 0 <= v < 16 -> HEX (hex_digit v) = v.
Proof.
  intros Hv. assert (forallb (fun v => HEX (hex_digit v) =? v) (seqZ 0 16) = true) as H by (vm_compute; reflexivity).
  rewrite forallb_forall in H. specialize (H v). rewrite <- list_elem_of_In, elem_of_seqZ in H. apply Z.eqb_eq, H. lia.
Qed.

Lemma to_hex_lookup text k c : text !! k = Some c ->
  to_hex text !! (2 * k)%nat = Some (hex_digit (Z.shiftr c 4)) /\ to_hex text !! (2 * k + 1)%nat = Some (hex_digit (Z.land c 0xf)).
Proof.
  intros Hc. rewrite <- (take_drop_middle text k c Hc), to_hex_app. apply lookup_lt_Some in Hc.
  assert (length (to_hex (take k text)) = 2 * k)%nat as Hl by (rewrite to_hex_length, length_take; lia).
  rewrite !lookup_app_r by lia. rewrite Hl, Nat.sub_diag. replace (2 * k + 1 - 2 * k)%nat with 1%nat by lia. done.
Qed.

Lemma lfromhex_ok text : Forall byte text -> 2 * Z.of_nat (length text) <= INT_MAX -> lfromhex (to_hex text) = Ok text.
Proof.
  intros Hb Hmax. unfold lfromhex. rewrite to_hex_length. set (sz := Z.of_nat (2 * length text)).
  assert (negb (Z.land sz 1 =? 0) = false) as ->.
  { change 1 with (2 ^ 1 - 1). rewrite land_low by lia. replace sz with (Z.of_nat (length text) * 2 ^ 1) by lia. by rewrite Z.mod_mul by lia. }
  set (buf := buffer_for _ _). assert (sz / 2 = Z.of_nat (length text)) as Hdiv by (unfold sz; Z.div_mod_to_equations; lia).
  assert (length text <= length buf)%nat as Hbuf.
  { apply buffer_length; [lia| |lia]. intros ?%Z.ltb_ge. unfold SMALL_CHUNK in *. lia. }
  destruct (while_inv (fun '(i, _) => i <? sz) (fromhex_body (to_hex text))
    (fun '(i, b) => exists k, (k <= length text)%nat /\ i = Z.of_nat (2 * k) /\ b = fill (take k text) buf)
    (fun '(i, _) => (2 * length text - Z.to_nat i)%nat) (2 * length text) (0, buf)) as ([i b] & -> & (k & Hk & -> & ->) & Hg).
  - exists 0%nat. rewrite fill_nil. split_and!; [lia | done..].
  - simpl. lia.
  - intros [i b] (k & Hk & -> & ->) Hg. zbool. unfold sz in Hg.
    destruct (lookup_lt_is_Some_2 text k ltac:(lia)) as [c Hc]. destruct (nibbles c (byte_lookup _ _ _ Hb Hc)) as (? & ? & E).
    destruct (to_hex_lookup text k c Hc) as [H1 H2]. unfold fromhex_body. rewrite aget_nat, H1. cbn [lift].
    replace (Z.of_nat (2 * k) + 1) with (Z.of_nat (2 * k + 1)) by lia. rewrite aget_nat, H2. cbn [lift].
    rewrite !HEX_digit by done. destruct (Z.ltb_spec 16 (Z.shiftr c 4)), (Z.ltb_spec 16 (Z.land c 0xf)); try lia. cbn [orb].
    rewrite E, u8_small by (by apply (byte_lookup _ _ _ Hb Hc)).
    replace (Z.of_nat (2 * k) / 2) with (Z.of_nat k) by (Z.div_mod_to_equations; lia).
    rewrite aset_fill by (rewrite length_take; lia). cbn [lift]. rewrite int_Ok by lia.
    eexists. split; [done|]. split; [|lia]. exists (S k). split_and!; [lia | lia|]. by rewrite (take_S_r _ _ _ Hc).
  - zbool. replace k with (length text) by lia. rewrite firstn_all.
    apply pushlstring_fill; [|lia]. Z.div_mod_to_equations. lia.
Qed.

(** [ltohex] returns two characters for each byte, and [lfromhex] turns them back into the bytes. *)
Theorem hex_roundtrip text : Forall byte text -> 2 * Z.of_nat (length text) <= INT_MAX ->
  exists h, ltohex text = Ok h /\ length h = (2 * length text)%nat /\ lfromhex h = Ok text.
Proof. intros. exists (to_hex text). auto using ltohex_ok, lfromhex_ok, to_hex_length. Qed.

Lemma hex_roundtrip_witness : exists h, ltohex [7; 200; 255] = Ok h /\ length h = 6%nat /\ lfromhex h = Ok [7; 200; 255].
Proof. apply (hex_roundtrip [7; 200; 255]); [repeat constructor; unfold byte; lia | by vm_compute]. Defined.

(** [lfromhex] accepts a character that is not a hexadecimal digit: 'g' has the value 16, which passes the check; as the upper digit it
    is shifted out of the byte, as the lower one it sets a bit of the upper half. *)
Theorem fromhex_accepts_g :
  lfromhex (str "g0") = Ok [0] /\ lfromhex (str "0g") = Ok [16] /\ lfromhex (str "0h") = Raise (Text "Invalid hex text").
Proof. repeat split; vm_compute; reflexivity. Qed.

(** ** Base64 *)

Definition code (v : Z) : Z := default 0 (aget encoding v).

(** The text three bytes at a time. *)
Fixpoint b64 (text : list Z) : list Z :=
  match text with
  | b0 :: b1 :: b2 :: text =>
      let v := Z.lor (Z.lor (Z.shiftl b0 16) (Z.shiftl b1 8)) b2 in
      code (Z.shiftr v 18) :: code (Z.land (Z.shiftr v 12) 0x3f) :: code (Z.land (Z.shiftr v 6) 0x3f) :: code (Z.land v 0x3f) :: b64 text
  | [b0; b1] =>
      let v := Z.lor (Z.shiftl b0 8) b1 in
      [code (Z.shiftr v 10); code (Z.land (Z.shiftr v 4) 0x3f); code (Z.shiftl (Z.land v 0xf) 2); 61]
  | [v] => [code (Z.shiftr v 2); code (Z.shiftl (Z.land v 3) 4); 61; 61]
  | [] => []
  end.

Lemma b64_app k l l' : length l = (3 * k)%nat -> b64 (l ++ l') = b64 l ++ b64 l'.
Proof.
  revert l. induction k as [|k IH]; intros l Hl.
  - by destruct l.
  - destruct l as [|b0 [|b1 [|b2 l]]]; simpl in Hl; try lia. simpl. rewrite IH by lia. done.
Qed.

Lemma b64_length text : Z.of_nat (length (b64 text)) = (Z.of_nat (length text) + 2) / 3 * 4.
Proof.
  assert (forall n t, (length t <= n)%nat -> Z.of_nat (length (b64 t)) = (Z.of_nat (length t) + 2) / 3 * 4) as H; [|by eapply H].
  induction n as [|n IH]; intros t Ht; [by destruct t; simpl in Ht; [|lia]|].
  destruct t as [|b0 [|b1 [|b2 t]]]; try reflexivity. simpl in Ht. cbn [b64 length]. rewrite !Nat2Z.inj_succ, IH by lia.
  Z.div_mod_to_equations. lia.
Qed.

Lemma code_lookup v : 0 <= v < 64 -> aget encoding v = Some (code v).
Proof. intros. unfold code. destruct (aget_is_Some encoding v) as [x ->]; [change (Z.of_nat (length encoding)) with 65; lia | done]. Qed.

Lemma put_code_fill a buf v i : 0 <= v < 64 -> i = Z.of_nat (length a) -> (length a < length buf)%nat ->
  put_code (fill a buf) i v = Ok (fill (a ++ [code v]) buf).
Proof. intros. unfold put_code. rewrite code_lookup by done. cbn [lift]. by rewrite aset_fill. Qed.

(** The digits of three, two or one bytes, as arithmetic. *)
Lemma join3 b0 b1 b2 : byte b0 -> byte b1 -> byte b2 ->
  Z.lor (Z.lor (Z.shiftl b0 16) (Z.shiftl b1 8)) b2 = b2 + (b1 + b0 * 2 ^ 8) * 2 ^ 8.
Proof.
  unfold byte. intros. rewrite !Z.shiftl_mul_pow2 by lia. rewrite Z.lor_comm, (Z.lor_comm (b0 * _)).
  replace (b0 * 2 ^ 16) with (b0 * 2 ^ 8 * 2 ^ 8) by lia.
  rewrite (lor_fields_up b1 b0 8 8) by lia. by apply lor_fields.
Qed.

Lemma digit_range v n : 0 <= Z.land (Z.shiftr v n) 0x3f < 64.
Proof. change 0x3f with (2 ^ 6 - 1). rewrite land_low by lia. apply Z.mod_pos_bound. lia. Qed.

Lemma shiftr_range v n m : 0 <= n -> 0 <= m -> 0 <= v < 2 ^ (n + m) -> 0 <= Z.shiftr v n < 2 ^ m.
Proof.
  intros Hn Hm Hv. rewrite Z.shiftr_div_pow2 by done. rewrite Z.pow_add_r in Hv by done.
  split; [apply Z.div_pos; lia | apply Z.div_lt_upper_bound; lia].
Qed.

Lemma low_range v n m : 0 <= n -> 0 <= m -> 0 <= Z.shiftl (Z.land v (2 ^ n - 1)) m < 2 ^ (n + m).
Proof.
  intros. rewrite land_low, Z.shiftl_mul_pow2, Z.pow_add_r by done. pose proof (Z.mod_pos_bound v (2 ^ n)). nia.
Qed.

Lemma take_three (text : list Z) k b0 b1 b2 : text !! (3 * k)%nat = Some b0 -> text !! (3 * k + 1)%nat = Some b1 ->
  text !! (3 * k + 2)%nat = Some b2 -> take (3 * S k) text = take (3 * k) text ++ [b0; b1; b2].
Proof.
  intros H0 H1 H2. replace (3 * S k)%nat with (S (3 * k + 2)) by lia. rewrite (take_S_r _ _ _ H2).
  replace (3 * k + 2)%nat with (S (3 * k + 1)) by lia. rewrite (take_S_r _ _ _ H1).
  replace (3 * k + 1)%nat with (S (3 * k)) by lia. rewrite (take_S_r _ _ _ H0), <- !app_assoc. done.
Qed.

Section Encode.
Context (text : list Z) (Hb : Forall byte text) (Hmax : 4 * (Z.of_nat (length text) + 2) <= INT_MAX).
Let n : nat := (length text / 3)%nat.

Lemma b64_prefix k : (3 * k <= length text)%nat -> length (b64 (take (3 * k) text)) = (4 * k)%nat.
Proof.
  intros Hk. pose proof (b64_length (take (3 * k) text)) as H. rewrite length_take, Nat.min_l in H by lia.
  replace ((Z.of_nat (3 * k) + 2) / 3) with (Z.of_nat k) in H by (Z.div_mod_to_equations; lia). lia.
Qed.

Lemma text_at k : (k < length text)%nat -> exists b, text !! k = Some b /\ byte b.
Proof. intros Hk. destruct (lookup_lt_is_Some_2 text k Hk) as [b E]. eauto using byte_lookup. Qed.

Lemma encode_loop buf : (4 * n <= length buf)%nat ->
  while (length text) (fun '(i, _, _) => i <? Z.of_nat (length text) - 2) (encode_body text) (0, 0, buf) =
    Ok (3 * Z.of_nat n, 4 * Z.of_nat n, fill (b64 (take (3 * n) text)) buf).
Proof.
  intros Hbuf. pose proof (Nat.div_mod_eq (length text) 3) as Hd. pose proof (Nat.mod_upper_bound (length text) 3 ltac:(lia)). fold n in Hd.
  destruct (while_inv (fun '(i, _, _) => i <? Z.of_nat (length text) - 2) (encode_body text)
    (fun '(i, j, b) => exists k, (k <= n)%nat /\ i = Z.of_nat (3 * k) /\ j = Z.of_nat (4 * k) /\ b = fill (b64 (take (3 * k) text)) buf)
    (fun '(i, _, _) => (length text - Z.to_nat i)%nat) (length text) (0, 0, buf)) as ([[i j] b] & -> & (k & Hk & -> & -> & ->) & Hg).
  - exists 0%nat. rewrite fill_nil. split_and!; [lia | done..].
  - simpl. lia.
  - intros [[i j] b] (k & Hk & -> & -> & ->) Hg. zbool.
    destruct (text_at (3 * k)) as (b0 & E0 & R0), (text_at (3 * k + 1)) as (b1 & E1 & R1), (text_at (3 * k + 2)) as (b2 & E2 & R2); [lia..|].
    pose proof (b64_prefix k ltac:(lia)) as Hl. unfold encode_body.
    replace (Z.of_nat (3 * k) + 1) with (Z.of_nat (3 * k + 1)) by lia. replace (Z.of_nat (3 * k) + 2) with (Z.of_nat (3 * k + 2)) by lia.
    rewrite !aget_nat, E0, E1, E2. cbn [lift].
    pose proof (join3 b0 b1 b2 R0 R1 R2) as Ev. set (v := Z.lor _ b2) in *.
    assert (0 <= Z.shiftr v 18 < 64) by (apply (shiftr_range v 18 6); unfold byte in *; zlia).
    pose proof (digit_range v 12). pose proof (digit_range v 6). pose proof (digit_range v 0) as Hv0. rewrite Z.shiftr_0_r in Hv0.
    do 4 (rewrite put_code_fill by (first [done | rewrite ?length_app; cbn [length]; lia])).
    unfold INT_MAX in Hmax. rewrite !int_Ok by (unfold INT_MAX; lia). eexists. split; [done|]. split; [|lia].
    exists (S k). split_and!; [lia..|]. rewrite (take_three _ _ _ _ _ E0 E1 E2), (b64_app k) by (rewrite length_take; lia).
    by rewrite <- !app_assoc.
  - zbool. replace k with n by lia. do 3 f_equal; lia.
Qed.

Lemma lb64encode_ok : lb64encode text = Ok (b64 text).
Proof.
  unfold lb64encode. set (len := Z.of_nat (length text)) in *. unfold INT_MAX in Hmax.
  pose proof (b64_length text) as Hl. fold len in Hl. rewrite !i32_small by (zpow; Z.div_mod_to_equations; lia).
  rewrite <- Hl. set (buf := buffer_for _ _).
  assert (length (b64 text) <= length buf)%nat as Hbuf by (apply buffer_length; [lia | intros ?%Z.ltb_ge; lia | lia]).
  pose proof (Nat.div_mod_eq (length text) 3) as Hd. pose proof (Nat.mod_upper_bound (length text) 3 ltac:(lia)) as Hr. fold n in Hd.
  assert (4 * n <= length (b64 text))%nat as Hn by (Z.div_mod_to_equations; lia).
  unfold len. rewrite encode_loop by lia. pose proof (b64_prefix n ltac:(lia)) as Hpl.
  assert (b64 text = b64 (take (3 * n) text) ++ b64 (drop (3 * n) text)) as Ht.
  { rewrite <- (b64_app n) by (rewrite length_take; lia). by rewrite take_drop. }
  assert (forall j, aget text (3 * Z.of_nat n + Z.of_nat j) = drop (3 * n) text !! j) as Hg.
  { intros j. rewrite lookup_drop, <- aget_nat. f_equal. lia. }
  pose proof (Hg 0%nat) as Hg0. pose proof (Hg 1%nat) as Hg1. rewrite Z.add_0_r in Hg0. change (Z.of_nat 1) with 1 in Hg1. clear Hg.
  assert (length (drop (3 * n) text) = (length text mod 3)%nat) as Hdl by (rewrite length_drop; lia).
  assert (Forall byte (drop (3 * n) text)) as Hdb by (by apply Forall_drop).
  rewrite i32_small by lia. replace (Z.of_nat (length text) - 3 * Z.of_nat n) with (Z.of_nat (length text mod 3)) by lia.
  rewrite Ht in Hbuf |- *. rewrite length_app in Hbuf. set (pre := b64 (take _ _)) in *.
  destruct (drop (3 * n) text) as [|b0 [|b1 [|b2 d]]]; cbn [length] in Hdl; [| | |lia]; rewrite <- Hdl.
  - simpl. rewrite app_nil_r in *. apply pushlstring_fill; lia.
  - simpl in Hbuf. apply Forall_cons in Hdb as [R0 _]. change (Z.of_nat 1 =? 1) with true. cbv iota. rewrite Hg0. cbn [lookup list_lookup lift].
    assert (0 <= Z.shiftr b0 2 < 64) by (apply (shiftr_range b0 2 6); unfold byte in *; zlia). pose proof (low_range b0 2 4 ltac:(lia) ltac:(lia)).
    change (2 ^ 2 - 1) with 3 in *. change (2 ^ (2 + 4)) with 64 in *.
    do 2 (rewrite put_code_fill by (first [done | rewrite ?length_app; cbn [length]; lia])).
    do 2 (rewrite aset_fill by (rewrite ?length_app; cbn [length]; lia); cbn [lift]). rewrite <- !app_assoc. apply pushlstring_fill; rewrite length_app; cbn [length b64]; lia.
  - simpl in Hbuf. rewrite !Forall_cons in Hdb. destruct Hdb as (R0 & R1 & _). change (Z.of_nat 2 =? 1) with false. change (Z.of_nat 2 =? 2) with true. cbv iota.
    rewrite Hg0, Hg1. cbn [lookup list_lookup lift]. set (v := Z.lor (Z.shiftl b0 8) b1).
    assert (v = b1 + b0 * 2 ^ 8) as Ev by (unfold v; rewrite Z.shiftl_mul_pow2, Z.lor_comm by lia; by apply lor_fields).
    assert (0 <= Z.shiftr v 10 < 64) by (apply (shiftr_range v 10 6); unfold byte in *; zlia). pose proof (digit_range v 4).
    pose proof (low_range v 4 2 ltac:(lia) ltac:(lia)). change (2 ^ 4 - 1) with 0xf in *. change (2 ^ (4 + 2)) with 64 in *.
    do 3 (rewrite put_code_fill by (first [done | rewrite ?length_app; cbn [length]; lia])).
    rewrite aset_fill by (rewrite ?length_app; cbn [length]; lia). cbn [lift]. rewrite <- !app_assoc. apply pushlstring_fill; rewrite length_app; cbn [length b64]; lia.
Qed.
End Encode.

(** ** Decoding *)

Lemma b64index_code v : 0 <= v < 64 -> b64index (code v) = Some v.
Proof.
  intros Hv. assert (forallb (fun v => bool_decide (b64index (code v) = Some v)) (seqZ 0 64) = true) as H by (vm_compute; reflexivity).
  rewrite forallb_forall in H. specialize (H v). rewrite <- list_elem_of_In, elem_of_seqZ, bool_decide_eq_true in H. apply H. lia.
Qed.

(** One digit that is not skipped. *)
Lemma digit_step text i j p c t d : 0 <= i < INT_MAX -> aget text i = Some t -> b64index t = Some d -> d <> -1 ->
  0 <= j < Z.of_nat (length c) ->
  digit_body text (i, j, p, c) = Ok (i + 1, j + 1, if d =? -2 then p + 1 else p, <[Z.to_nat j := d]> c).
Proof.
  intros Hi Ht Hd Hn Hj. pose proof (aget_lt _ _ _ Ht). unfold digit_body.
  destruct (Z.leb_spec (Z.of_nat (length text)) i); [lia|]. rewrite Ht. cbn [lift]. rewrite Hd. cbn [lift].
  rewrite aset_Some by done. cbn [lift]. rewrite int_Ok by lia. destruct (Z.eqb_spec d (-1)); [done | done].
Qed.

(** Four digits without anything to skip. *)
Lemma digits_read text i t0 t1 t2 t3 d0 d1 d2 d3 :
  0 <= i -> i + 4 <= INT_MAX ->
  aget text i = Some t0 -> aget text (i + 1) = Some t1 -> aget text (i + 1 + 1) = Some t2 -> aget text (i + 1 + 1 + 1) = Some t3 ->
  b64index t0 = Some d0 -> b64index t1 = Some d1 -> b64index t2 = Some d2 -> b64index t3 = Some d3 ->
  d0 <> -1 -> d1 <> -1 -> d2 <> -1 -> d3 <> -1 ->
  exists p, while (length text + 4) (fun '(_, j, _, _) => j <? 4) (digit_body text) (i, 0, 0, malloc 4) =
    Ok (i + 4, 4, p, [d0; d1; d2; d3]) /\
    p = (if d3 =? -2 then 1 else 0) + (if d2 =? -2 then 1 else 0) + (if d1 =? -2 then 1 else 0) + (if d0 =? -2 then 1 else 0).
Proof.
  intros Hi Hm A0 A1 A2 A3 B0 B1 B2 B3 N0 N1 N2 N3. rewrite Nat.add_comm. cbn [Nat.add while].
  rewrite (digit_step text i 0 _ _ t0 d0) by (done || (simpl; lia)).
  cbv iota. change (0 + 1 <? 4) with true. cbv iota. rewrite (digit_step text (i + 1) (0 + 1) _ _ t1 d1) by (done || (simpl; lia)).
  cbv iota. change (0 + 1 + 1 <? 4) with true. cbv iota. rewrite (digit_step text (i + 1 + 1) (0 + 1 + 1) _ _ t2 d2) by (done || (simpl; lia)).
  cbv iota. change (0 + 1 + 1 + 1 <? 4) with true. cbv iota. rewrite (digit_step text (i + 1 + 1 + 1) (0 + 1 + 1 + 1) _ _ t3 d3) by (done || (simpl; lia)).
  cbv iota. eexists. split.
  - replace (length text + 0)%nat with (length text) by lia. destruct (length text); cbn [while]; change (0 + 1 + 1 + 1 + 1 <? 4) with false; cbv iota;
      (replace (i + 1 + 1 + 1 + 1) with (i + 4) by lia); reflexivity.
  - destruct (d0 =? -2), (d1 =? -2), (d2 =? -2), (d3 =? -2); lia.
Qed.

Lemma split3 v : 0 <= v < 2 ^ 24 ->
  Z.lor (Z.lor (Z.lor (Z.shiftl (Z.shiftr v 18) 18) (Z.shiftl (Z.land (Z.shiftr v 12) 0x3f) 12))
    (Z.shiftl (Z.land (Z.shiftr v 6) 0x3f) 6)) (Z.land v 0x3f) = v.
Proof.
  intros Hv. change 0x3f with (2 ^ 6 - 1). rewrite !land_low, !Z.shiftr_div_pow2, !Z.shiftl_mul_pow2 by lia.
  pose proof (fun z => Z.mod_pos_bound z (2 ^ 6) ltac:(lia)) as Hm.
  rewrite Z.lor_comm, (Z.lor_comm _ (_ * 2 ^ 6)), (Z.lor_comm _ (_ * 2 ^ 12)).
  replace (v / 2 ^ 18 * 2 ^ 18) with (v / 2 ^ 18 * 2 ^ 6 * 2 ^ 12) by lia. rewrite (lor_fields_up _ _ 6 12) by (auto; lia).
  set (w := v / 2 ^ 12 mod 2 ^ 6 + _). replace (w * 2 ^ 12) with (w * 2 ^ 6 * 2 ^ 6) by lia.
  rewrite (lor_fields_up _ _ 6 6) by (auto; lia). rewrite lor_fields by (auto; lia). unfold w. clear Hm. zpow. Z.div_mod_to_equations. lia.
Qed.

Lemma split2 v : 0 <= v < 2 ^ 16 ->
  Z.land (Z.shiftl (Z.land v 0xf) 2) 3 = 0 /\
  Z.lor (Z.lor (Z.shiftl (Z.shiftr v 10) 10) (Z.shiftl (Z.land (Z.shiftr v 4) 0x3f) 4)) (Z.shiftr (Z.shiftl (Z.land v 0xf) 2) 2) = v.
Proof.
  intros Hv. change 0x3f with (2 ^ 6 - 1). change 0xf with (2 ^ 4 - 1). change 3 with (2 ^ 2 - 1).
  rewrite !land_low, !Z.shiftr_div_pow2, !Z.shiftl_mul_pow2 by lia. rewrite Z.mod_mul, Z.div_mul by lia. split; [done|].
  pose proof (Z.mod_pos_bound v (2 ^ 4) ltac:(lia)). pose proof (Z.mod_pos_bound (v / 2 ^ 4) (2 ^ 6) ltac:(lia)).
  rewrite Z.lor_comm, (Z.lor_comm _ (_ * 2 ^ 4)).
  replace (v / 2 ^ 10 * 2 ^ 10) with (v / 2 ^ 10 * 2 ^ 6 * 2 ^ 4) by lia. rewrite (lor_fields_up _ _ 6 4) by lia.
  rewrite lor_fields by lia. zpow. Z.div_mod_to_equations. lia.
Qed.

Lemma split1 v : 0 <= v < 2 ^ 8 ->
  Z.land (Z.shiftl (Z.land v 3) 4) 0xf = 0 /\
  Z.lor (Z.shiftl (Z.shiftr v 2) 2) (Z.shiftr (Z.shiftl (Z.land v 3) 4) 4) = v.
Proof.
  intros Hv. change 0xf with (2 ^ 4 - 1). change 3 with (2 ^ 2 - 1).
  rewrite !land_low, !Z.shiftr_div_pow2, !Z.shiftl_mul_pow2 by lia. rewrite Z.mod_mul, Z.div_mul by lia. split; [done|].
  pose proof (Z.mod_pos_bound v (2 ^ 2) ltac:(lia)). rewrite Z.lor_comm, lor_fields by lia. zpow. Z.div_mod_to_equations. lia.
Qed.

Lemma b64_head d : b64 d = b64 (take 3 d) ++ b64 (drop 3 d).
Proof. by destruct d as [|b0 [|b1 [|b2 d]]]. Qed.

Ltac fill_step := rewrite aset_fill by (rewrite ?length_app; cbn [length]; lia); cbn [lift].

(** The reads of a group, and the tests of the switch on constants. *)
Ltac switch_step :=
  unfold decode_switch; rewrite (eq_refl : aget [_; _; _; _] 0 = Some _), (eq_refl : aget [_; _; _; _] 1 = Some _),
    (eq_refl : aget [_; _; _; _] 2 = Some _), (eq_refl : aget [_; _; _; _] 3 = Some _); cbn [lift].

(** What the switch does with the digits of a group [t] of one, two or three bytes. *)
Lemma switch_group t a buf : Forall byte t -> (0 < length t <= 3)%nat -> (length a + length t <= length buf)%nat ->
  Z.of_nat (length a + length t) <= INT_MAX ->
  exists d0 d1 d2 d3, map b64index (b64 t) = [Some d0; Some d1; Some d2; Some d3] /\ Forall (fun d => d <> -1) [d0; d1; d2; d3] /\
    decode_switch ((if d3 =? -2 then 1 else 0) + (if d2 =? -2 then 1 else 0) + (if d1 =? -2 then 1 else 0) + (if d0 =? -2 then 1 else 0))
      [d0; d1; d2; d3] (Z.of_nat (length a)) (fill a buf) = Ok (Z.of_nat (length (a ++ t)), fill (a ++ t) buf).
Proof.
  intros Hb Hl Hbuf Hmax. destruct t as [|b0 [|b1 [|b2 [|b3 t]]]]; cbn [length] in *; [lia| | | |lia];
    rewrite !Forall_cons in Hb; unfold byte in Hb; rewrite length_app; cbn [length].
  - destruct Hb as [R0 _]. destruct (split1 b0 R0) as [E1 E2]. pose proof (low_range b0 2 4 ltac:(lia) ltac:(lia)) as Rl.
    destruct (shiftr_range b0 2 6 ltac:(lia) ltac:(lia) R0) as [? ?]. change (2 ^ 2 - 1) with 3 in *. change (2 ^ (2 + 4)) with 64 in *.
    eexists _, _, (-2), (-2). split; [cbn [b64 map]; rewrite !b64index_code by lia; reflexivity|]. split; [repeat constructor; lia|].
    rewrite (proj2 (Z.eqb_neq (Z.shiftl (Z.land b0 3) 4) (-2))), (proj2 (Z.eqb_neq (Z.shiftr b0 2) (-2))) by lia.
    switch_step. change (-2 =? -2) with true. cbv iota. change (1 + 1 + 0 + 0) with 2. cbn [Z.eqb Pos.eqb negb orb]. rewrite E1, E2. cbn [Z.eqb negb orb].
    rewrite u8_small by lia. fill_step. rewrite int_Ok by lia. do 2 f_equal. lia.
  - destruct Hb as (R0 & R1 & _). cbn [b64]. set (v := Z.lor (Z.shiftl b0 8) b1).
    assert (v = b1 + b0 * 2 ^ 8) as Ev by (unfold v; rewrite Z.shiftl_mul_pow2, Z.lor_comm by lia; by apply lor_fields).
    assert (0 <= v < 2 ^ 16) as Rv by zlia. destruct (split2 v Rv) as [E1 E2]. pose proof (digit_range v 4).
    pose proof (low_range v 4 2 ltac:(lia) ltac:(lia)). change (2 ^ 4 - 1) with 0xf in *. change (2 ^ (4 + 2)) with 64 in *.
    destruct (shiftr_range v 10 6 ltac:(lia) ltac:(lia) Rv) as [? ?].
    eexists _, _, _, (-2). split; [cbn [map]; rewrite !b64index_code by lia; reflexivity|]. split; [repeat constructor; lia|].
    rewrite (proj2 (Z.eqb_neq (Z.shiftl (Z.land v 0xf) 2) (-2))), (proj2 (Z.eqb_neq (Z.land (Z.shiftr v 4) 0x3f) (-2))),
      (proj2 (Z.eqb_neq (Z.shiftr v 10) (-2))) by lia.
    switch_step. change (-2 =? -2) with true. cbv iota. change (1 + 0 + 0 + 0) with 1. cbn [Z.eqb Pos.eqb negb orb]. rewrite E1, E2. cbn [Z.eqb negb orb].
    change 0xff with (2 ^ 8 - 1). rewrite land_low, Z.shiftr_div_pow2 by lia.
    assert (u8 (v / 2 ^ 8) = b0 /\ v mod 2 ^ 8 = b1) as [-> ->] by (unfold u8; rewrite Ev; zpow; Z.div_mod_to_equations; lia).
    do 2 fill_step. rewrite int_Ok by lia. rewrite <- app_assoc. do 2 f_equal. lia.
  - destruct Hb as (R0 & R1 & R2 & _). cbn [b64]. pose proof (join3 b0 b1 b2 R0 R1 R2) as Ev. set (v := Z.lor _ b2) in *.
    assert (0 <= v < 2 ^ 24) as Rv by zlia. pose proof (split3 v Rv) as E.
    pose proof (digit_range v 12). pose proof (digit_range v 6). pose proof (digit_range v 0) as Hv0. rewrite Z.shiftr_0_r in Hv0.
    destruct (shiftr_range v 18 6 ltac:(lia) ltac:(lia) Rv) as [? ?].
    eexists _, _, _, _. split; [cbn [map]; rewrite !b64index_code by lia; reflexivity|]. split; [repeat constructor; lia|].
    rewrite (proj2 (Z.eqb_neq (Z.land v 0x3f) (-2))), (proj2 (Z.eqb_neq (Z.land (Z.shiftr v 6) 0x3f) (-2))),
      (proj2 (Z.eqb_neq (Z.land (Z.shiftr v 12) 0x3f) (-2))), (proj2 (Z.eqb_neq (Z.shiftr v 18) (-2))) by lia.
    switch_step. change (0 + 0 + 0 + 0) with 0. cbn [Z.eqb Pos.eqb]. rewrite E.
    change 0xff with (2 ^ 8 - 1). rewrite !land_low, !Z.shiftr_div_pow2 by lia.
    assert (u8 (v / 2 ^ 16) = b0 /\ (v / 2 ^ 8) mod 2 ^ 8 = b1 /\ v mod 2 ^ 8 = b2) as (-> & -> & ->)
      by (unfold u8; rewrite Ev; zpow; Z.div_mod_to_equations; lia).
    do 3 fill_step. rewrite int_Ok by lia. rewrite <- !app_assoc. do 2 f_equal. lia.
Qed.

Section Decode.
Context (text : list Z) (Hb : Forall byte text) (Hmax : 4 * (Z.of_nat (length text) + 2) <= INT_MAX).

(** The digits of the bytes from [3 * k] on. *)
Lemma group_at k j c : (3 * k <= length text)%nat -> b64 (take 3 (drop (3 * k) text)) !! j = Some c ->
  aget (b64 text) (4 * Z.of_nat k + Z.of_nat j) = Some c.
Proof.
  intros Hk Hj. replace (4 * Z.of_nat k + Z.of_nat j) with (Z.of_nat (4 * k + j)) by lia.
  rewrite aget_nat. rewrite <- (take_drop (3 * k) text), (b64_app k) by (rewrite length_take; lia).
  rewrite lookup_app_r by (rewrite b64_prefix; lia). rewrite b64_prefix by lia. replace (4 * k + j - 4 * k)%nat with j by lia.
  rewrite b64_head. by apply lookup_app_l_Some.
Qed.

(** The state of the loop after [k] groups. *)
Definition decoded (buf : list Z) (k : nat) : Z * Z * list Z :=
  (4 * Z.of_nat k, Z.of_nat (length (take (3 * k) text)), fill (take (3 * k) text) buf).

Lemma decode_group buf k : (3 * k < length text)%nat -> (length text <= length buf)%nat ->
  decode_body (b64 text) (decoded buf k) = Ok (decoded buf (S k)).
Proof.
  intros Hk Hbuf. unfold decoded, decode_body. set (t := take 3 (drop (3 * k) text)). unfold INT_MAX in Hmax.
  assert (length t <= 3 /\ 0 < length t /\ length t <= length text - 3 * k)%nat as (Ht3 & Ht0 & Htl)
    by (unfold t; rewrite length_take, length_drop; lia).
  assert (length (take (3 * k) text) = 3 * k)%nat as Hl by (rewrite length_take; lia).
  destruct (switch_group t (take (3 * k) text) buf) as (d0 & d1 & d2 & d3 & Hd & Hn & Hs);
    [by apply Forall_take, Forall_drop | lia | lia | unfold INT_MAX; lia|].
  rewrite !Forall_cons in Hn. destruct Hn as (N0 & N1 & N2 & N3 & _).
  destruct (b64 t) as [|t0 [|t1 [|t2 [|t3 [|]]]]] eqn:Et; try done. injection Hd as B0 B1 B2 B3.
  pose proof (fun j c => group_at k j c ltac:(lia)) as Hg. fold t in Hg. rewrite Et in Hg.
  pose proof (Hg 0%nat _ eq_refl) as A0. pose proof (Hg 1%nat _ eq_refl) as A1.
  pose proof (Hg 2%nat _ eq_refl) as A2. pose proof (Hg 3%nat _ eq_refl) as A3. rewrite Z.add_0_r in A0.
  destruct (digits_read (b64 text) (4 * Z.of_nat k) t0 t1 t2 t3 d0 d1 d2 d3) as (p & -> & ->); try done; try (unfold INT_MAX; lia).
  { rewrite <- A2. f_equal. lia. } { rewrite <- A3. f_equal. lia. }
  rewrite Hs. replace (3 * S k)%nat with (3 * k + 3)%nat by lia. rewrite <- take_take_drop. fold t. do 3 f_equal. lia.
Qed.

Lemma lb64decode_ok : lb64decode (b64 text) = Ok text.
Proof.
  unfold lb64decode. pose proof (b64_length text) as Hl. set (sz := Z.of_nat (length (b64 text))) in *. unfold INT_MAX in Hmax.
  rewrite i32_small by (zpow; Z.div_mod_to_equations; lia). set (buf := buffer_for _ _).
  assert (length text <= length buf)%nat as Hbuf.
  { apply buffer_length; [Z.div_mod_to_equations; lia | intros ?%Z.ltb_ge; lia | Z.div_mod_to_equations; lia]. }
  destruct (while_inv (fun '(i, _, _) => i <? sz) (decode_body (b64 text))
    (fun s => exists k, s = decoded buf k /\ 4 * Z.of_nat k <= sz)
    (fun '(i, _, _) => (length (b64 text) - Z.to_nat i)%nat) (length (b64 text)) (0, 0, buf)) as (s & -> & (k & -> & Hk) & Hg).
  - exists 0%nat. unfold decoded. rewrite fill_nil. split; [done | lia].
  - simpl. lia.
  - intros s (k & -> & Hk) Hg. cbn in Hg. zbool. rewrite decode_group; [|Z.div_mod_to_equations; lia | done].
    eexists. split; [done|]. split; [exists (S k); split; [done | Z.div_mod_to_equations; lia]|]. cbn -[Nat.mul Z.mul]. lia.
  - cbn in Hg. zbool. unfold decoded. rewrite take_ge by (Z.div_mod_to_equations; lia). by apply pushlstring_fill.
Qed.
End Decode.

(** [lb64encode] returns four characters for every three bytes begun, and [lb64decode] turns them back into the bytes. *)
Theorem base64_roundtrip text : Forall byte text -> 4 * (Z.of_nat (length text) + 2) <= INT_MAX ->
  exists e, lb64encode text = Ok e /\ Z.of_nat (length e) = (Z.of_nat (length text) + 2) / 3 * 4 /\ lb64decode e = Ok text.
Proof. intros. exists (b64 text). auto using lb64encode_ok, lb64decode_ok, b64_length. Qed.

Lemma base64_roundtrip_witness : exists e, lb64encode [1; 250; 3; 77] = Ok e /\ Z.of_nat (length e) = 8 /\ lb64decode e = Ok [1; 250; 3; 77].
Proof. apply (base64_roundtrip [1; 250; 3; 77]); [repeat constructor; unfold byte; lia | by vm_compute]. Defined.

(** ** Decoding anything *)

(** Bytes within a bound, or an error; never undefined. *)
Definition decodes_within (n : Z) : res (list Z) -> Prop := res_ok (fun out => Forall byte out /\ Z.of_nat (length out) <= n).

(** A buffer whose first [n] cells are bytes. *)
Definition filled (n : Z) (buf b : list Z) : Prop :=
  0 <= n <= Z.of_nat (length b) /\ length b = length buf /\ Forall byte b.

Lemma filled_set n buf b x : filled n buf b -> n < Z.of_nat (length buf) -> byte x ->
  exists b', aset b n x = Some b' /\ filled (n + 1) buf b'.
Proof.
  intros (Hn & Hl & Hb) Hlt Hx. rewrite aset_Some by lia. eexists. split; [done|]. split_and!.
  - lia.
  - rewrite length_insert. lia.
  - by rewrite length_insert.
  - by apply Forall_insert.
Qed.

Lemma buffer_bytes big n : Forall byte (buffer_for big n).
Proof. apply Forall_replicate. unfold byte. lia. Qed.

Lemma filled_push n buf b : filled n buf b -> decodes_within n (pushlstring b n).
Proof.
  intros (Hn & Hl & Hb). unfold pushlstring. rewrite memcpy_Some by lia. simpl.
  split; [by apply Forall_take, Forall_drop | rewrite length_take, length_drop; lia].
Qed.

Lemma byte_land x : byte (Z.land x 0xff).
Proof. change 0xff with (2 ^ 8 - 1). rewrite land_low by lia. apply Z.mod_pos_bound. lia. Qed.

Lemma lfromhex_safe text : Z.of_nat (length text) + 2 <= INT_MAX -> decodes_within (Z.of_nat (length text) / 2) (lfromhex text).
Proof.
  intros Hmax. unfold lfromhex. set (sz := Z.of_nat (length text)) in *. destruct (negb _) eqn:Eodd; [done|]. zbool.
  change 1 with (2 ^ 1 - 1) in Eodd. rewrite land_low in Eodd by lia. change (2 ^ 1) with 2 in Eodd.
  set (buf := buffer_for _ _). assert (sz / 2 <= Z.of_nat (length buf)) as Hbuf.
  { pose proof (buffer_length (SMALL_CHUNK * 2 <? sz) (sz / 2) (Z.to_nat (sz / 2))) as H. fold buf in H.
    assert (0 <= sz / 2) by (Z.div_mod_to_equations; lia). enough (Z.to_nat (sz / 2) <= length buf)%nat by lia.
    apply H; [lia | intros ?%Z.ltb_ge; unfold SMALL_CHUNK in *; Z.div_mod_to_equations; lia | lia]. }
  eapply res_ok_bind; [apply (while_ok (fun '(i, _) => i <? sz) (fromhex_body text)
    (fun '(i, b) => exists k, i = 2 * k /\ i <= sz /\ filled k buf b) (fun '(i, _) => Z.to_nat (sz - i)))|].
  - exists 0. split_and!; [done | lia | split_and!; [lia | lia | done | apply buffer_bytes]].
  - simpl. lia.
  - intros [i b] (k & -> & Hk & Hf) Hg. zbool. assert (2 * k + 2 <= sz) by (Z.div_mod_to_equations; lia).
    split; [lia|]. pose proof Hf as (Hk0 & _). unfold fromhex_body.
    destruct (aget_is_Some text (2 * k) ltac:(lia)) as [c ->]. destruct (aget_is_Some text (2 * k + 1) ltac:(lia)) as [c' ->]. cbn [lift].
    destruct (_ || _); [done|]. replace (2 * k / 2) with k by (Z.div_mod_to_equations; lia).
    destruct (filled_set k buf b (u8 (Z.lor (Z.shiftl (HEX c) 4) (HEX c'))) Hf) as (b' & -> & Hf2); [Z.div_mod_to_equations; lia | apply u8_range|].
    cbn [lift]. rewrite int_Ok by (unfold INT_MAX in *; lia). split; [|lia]. exists (k + 1). split_and!; [lia | lia | done].
  - intros [i b] [(k & -> & Hk & Hf) Hg]. zbool. replace (2 * k / 2) with k by (Z.div_mod_to_equations; lia).
    replace (sz / 2) with k by (Z.div_mod_to_equations; lia). by eapply filled_push.
Qed.

(** The four digits of a group: none is skipped, and each takes a character. *)
Lemma digits_safe text i : 0 <= i <= Z.of_nat (length text) -> Z.of_nat (length text) + 4 <= INT_MAX ->
  res_ok (fun '(i', _, _, c) => i + 4 <= i' <= Z.of_nat (length text) /\ length c = 4%nat)
    (while (length text + 4) (fun '(_, j, _, _) => j <? 4) (digit_body text) (i, 0, 0, malloc 4)).
Proof.
  intros Hi Hmax. set (sz := Z.of_nat (length text)) in *.
  eapply res_ok_mono; [apply (while_ok (fun '(_, j, _, _) => j <? 4) (digit_body text)
    (fun '(i', j, p, c) => 0 <= j <= 4 /\ i + j <= i' <= sz /\ length c = 4%nat) (fun '(i', _, _, _) => Z.to_nat (sz + 1 - i')))|].
  - split_and!; [lia.. | done].
  - lia.
  - intros [[[i' j] p] c] (Hj & Hi' & Hc) Hg. zbool. split; [lia|]. unfold digit_body. fold sz.
    destruct (Z.leb_spec sz i'); [done|]. destruct (aget_is_Some text i' ltac:(lia)) as [t ->]. cbn [lift].
    assert (is_Some (b64index t)) as [d ->].
    { unfold b64index. destruct (Z.ltb_spec t 43); [eauto|]. destruct (Z.leb_spec (Z.of_nat (length decoding)) (t - 43)); [eauto|]. apply aget_is_Some. lia. }
    cbn [lift]. rewrite aset_Some by lia. cbn [lift]. rewrite int_Ok by lia.
    destruct (d =? -1); simpl; rewrite length_insert; split_and!; lia || done.
  - intros [[[i' j] p] c] [(Hj & Hi' & Hc) Hg]. zbool. split; [lia | done].
Qed.

Lemma switch_safe padding c output buf b : length c = 4%nat -> filled output buf b ->
  output + 3 <= Z.of_nat (length buf) -> output + 3 <= INT_MAX ->
  res_ok (fun '(o, b') => output <= o <= output + 3 /\ filled o buf b') (decode_switch padding c output b).
Proof.
  intros Hc Hf Hbuf Hmax. destruct c as [|c0 [|c1 [|c2 [|c3 [|]]]]]; try done. switch_step. pose proof Hf as (Ho & _).
  destruct (padding =? 0); [|destruct (padding =? 1); [|destruct (padding =? 2); [|done]]].
  - edestruct (filled_set output) as (b1 & -> & H1); [exact Hf | lia | apply u8_range|]. cbn [lift].
    edestruct (filled_set (output + 1)) as (b2 & -> & H2); [exact H1 | lia | apply byte_land|]. cbn [lift].
    replace (output + 2) with (output + 1 + 1) by lia. edestruct (filled_set (output + 1 + 1)) as (b3 & -> & H3); [exact H2 | lia | apply byte_land|].
    cbn [lift]. rewrite int_Ok by lia. replace (output + 3) with (output + 1 + 1 + 1) by lia. split; [lia | done].
  - destruct (_ || _); [done|]. edestruct (filled_set output) as (b1 & -> & H1); [exact Hf | lia | apply u8_range|]. cbn [lift].
    edestruct (filled_set (output + 1)) as (b2 & -> & H2); [exact H1 | lia | apply byte_land|]. cbn [lift].
    rewrite int_Ok by lia. replace (output + 2) with (output + 1 + 1) by lia. split; [lia | done].
  - destruct (_ || _); [done|]. edestruct (filled_set output) as (b1 & -> & H1); [exact Hf | lia | apply u8_range|]. cbn [lift].
    rewrite int_Ok by lia. split; [lia | done].
Qed.

Lemma lb64decode_safe text : Z.of_nat (length text) + 4 <= INT_MAX ->
  decodes_within (Z.of_nat (length text) * 3 / 4) (lb64decode text).
Proof.
  intros Hmax. unfold lb64decode. set (sz := Z.of_nat (length text)) in *. unfold INT_MAX in Hmax.
  rewrite i32_small by (zpow; Z.div_mod_to_equations; lia). set (buf := buffer_for _ _).
  assert ((sz + 3) / 4 * 3 <= Z.of_nat (length buf)) as Hbuf.
  { assert (0 <= (sz + 3) / 4 * 3) by (Z.div_mod_to_equations; lia). enough (Z.to_nat ((sz + 3) / 4 * 3) <= length buf)%nat by lia.
    apply buffer_length; [lia | intros ?%Z.ltb_ge; lia | lia]. }
  eapply res_ok_bind; [apply (while_ok (fun '(i, _, _) => i <? sz) (decode_body text)
    (fun '(i, output, b) => 0 <= i <= sz /\ 4 * output <= 3 * i /\ filled output buf b) (fun '(i, _, _) => Z.to_nat (sz - i)))|].
  - split_and!; [lia.. | split_and!; [lia | lia | done | apply buffer_bytes]].
  - simpl. lia.
  - intros [[i output] b] (Hi & Ho & Hf) Hg. zbool. split; [lia|]. unfold decode_body.
    eapply res_ok_bind; [apply digits_safe; unfold INT_MAX; lia|]. intros [[[i' j] p] c] [Hi' Hc].
    eapply res_ok_bind; [apply (switch_safe p c output buf b Hc Hf); [Z.div_mod_to_equations; lia | unfold INT_MAX; lia]|].
    intros [o b'] [Ho' Hf']. simpl. split_and!; lia || done.
  - intros [[i output] b] [(Hi & Ho & Hf) Hg]. eapply res_ok_mono; [by eapply filled_push|].
    intros out [Hb Hlen]. split; [done|]. Z.div_mod_to_equations. lia.
Qed.

(** Whatever text they are given, [lb64decode] and [lfromhex] end, stay within their buffers, and either raise an error or return bytes, at most
    three for four characters and one for two. *)
Theorem decoders_in_bounds text : Z.of_nat (length text) + 4 <= INT_MAX ->
  decodes_within (Z.of_nat (length text) * 3 / 4) (lb64decode text) /\ decodes_within (Z.of_nat (length text) / 2) (lfromhex text).
Proof. intros. split; [by apply lb64decode_safe | apply lfromhex_safe; lia]. Qed.

Lemma decoders_in_bounds_witness :
  decodes_within 6 (lb64decode [10; 200; 61; 61; 65; 0; 43; 99]) /\ decodes_within 4 (lfromhex [10; 200; 61; 61; 65; 0; 43; 99]).
Proof. apply (decoders_in_bounds [10; 200; 61; 61; 65; 0; 43; 99]). by vm_compute. Defined.

(** ** Exclusive or *)

Lemma lxor_str_ok s1 s2 : s2 <> [] -> Z.of_nat (length s1) <= INT_MAX ->
  lxor_str s1 s2 = Ok (imap (fun i a => Z.lxor a (default 0 (s2 !! (i mod length s2)%nat))) s1).
Proof.
  intros Hs2 Hmax. unfold lxor_str. set (len := Z.of_nat (length s1)) in *. set (xs := imap _ s1).
  assert (length s2 <> 0)%nat as Hl2 by (by destruct s2). destruct (Z.eqb_spec (Z.of_nat (length s2)) 0); [lia|]. set (buf := malloc len).
  assert (length buf = length s1) as Hbuf by (unfold buf, malloc; rewrite length_replicate; lia).
  assert (length xs = length s1) as Hxs by apply length_imap.
  destruct (while_inv (fun '(i, _) => i <? len) (xor_body s1 s2)
    (fun '(i, b) => exists k, (k <= length s1)%nat /\ i = Z.of_nat k /\ b = fill (take k xs) buf)
    (fun '(i, _) => (length s1 - Z.to_nat i)%nat) (length s1) (0, buf)) as ([i b] & -> & (k & Hk & -> & ->) & Hg).
  - exists 0%nat. rewrite fill_nil. split_and!; [lia | done..].
  - simpl. lia.
  - intros [i b] (k & Hk & -> & ->) Hg. zbool. unfold len in Hg. destruct (lookup_lt_is_Some_2 s1 k ltac:(lia)) as [a Ha].
    unfold xor_body. rewrite aget_nat, Ha. cbn [lift]. rewrite <- Nat2Z.inj_mod, aget_nat.
    destruct (lookup_lt_is_Some_2 s2 (k mod length s2)) as [x Hx]; [by apply Nat.mod_upper_bound|]. rewrite Hx. cbn [lift].
    rewrite aset_fill by (rewrite length_take; lia). cbn [lift]. rewrite int_Ok by lia. eexists. split; [done|]. split; [|lia].
    exists (S k). split_and!; [lia | lia|]. rewrite (take_S_r xs k (Z.lxor a x)); [done|]. unfold xs. rewrite list_lookup_imap, Ha. simpl. by rewrite Hx.
  - zbool. rewrite take_ge by lia. apply pushlstring_fill; lia.
Qed.

(** Applying the same key again gives the text back. *)
Lemma lxor_str_twice s1 s2 : s2 <> [] -> Z.of_nat (length s1) <= INT_MAX ->
  exists c, lxor_str s1 s2 = Ok c /\ lxor_str c s2 = Ok s1.
Proof.
  intros Hs2 Hmax. eexists. split; [by apply lxor_str_ok|]. rewrite lxor_str_ok by (done || by rewrite length_imap). f_equal.
  apply list_eq. intros i. rewrite !list_lookup_imap. destruct (s1 !! i) as [a|]; simpl; [|done]. f_equal.
  by rewrite Z.lxor_assoc, Z.lxor_nilpotent, Z.lxor_0_r.
Qed.

(** ** Hashes and keys *)

Definition bytes8 (x : list Z) : Prop := length x = 8%nat /\ Forall byte x.

Lemma word_bytes_byte w : Forall byte (word_bytes w).
Proof. unfold word_bytes. repeat constructor; apply byte_land. Qed.

Lemma Hash_bytes s sz : bytes8 (Hash s sz).
Proof. unfold Hash. destruct (foldl _ _ _). split; [done|]. apply Forall_app. auto using word_bytes_byte. Qed.

Lemma pushqword_bytes w : bytes8 (pushqword w).
Proof. split; [done|]. apply Forall_app. auto using word_bytes_byte. Qed.

Lemma hmac_total x y : is_Some (hmac x y).
Proof.
  unfold hmac. set (w := _ ++ _ ++ _).
  destruct (for_loop_inv (fun _ _ => True) 64 0 (hmac_round w) (0x67452301, 0xefcdab89, 0x98badcfe, 0x10325476)) as ([[[a b] c] d] & -> & _);
    [done| |eauto].
  intros i [[[a b] c] d] Hi _. unfold hmac_round.
  assert (forall l : list Z, length l = 64%nat -> is_Some (aget l i)) as Ht by (intros l Hl; apply aget_is_Some; lia).
  destruct (Ht k_table eq_refl) as [k ->], (Ht r_table eq_refl) as [r ->].
  assert (forall g, 0 <= g < 16 -> is_Some (aget w g)) as Hw by (intros; apply aget_is_Some; simpl; lia).
  repeat case_match; simplify_eq; try (eexists; split; [done | done]); exfalso;
    match goal with H : aget w ?g = None |- _ => destruct (Hw g) as [? ?]; [zbool; Z.div_mod_to_equations; lia | congruence] end.
Qed.
