(* ===== verification/DhSpec.v ===== *)
(** * Correctness of the key exchange

    [powmodp] is modular exponentiation, so both sides of an exchange compute the same secret. *)

From Stdlib Require Import Zpow_facts.
From S2P Require Import Prelude CString LuaError Crypt CryptSpec.

(** ** Modular arithmetic without a 128-bit product *)

Lemma mul_loop_spec fuel m a b : 0 <= m < P -> 0 <= a <= P -> 0 <= b < 2 ^ Z.of_nat fuel ->
  mul_loop fuel (m, a, b) = Some ((m + a * b) mod P).
Proof.
  revert m a b. induction fuel as [|fuel IH]; intros m a b Hm Ha Hb; cbn [mul_loop]; destruct (Z.eqb_spec b 0) as [->|Hb0].
  1,3: rewrite Z.mul_0_r, Z.add_0_r, Z.mod_small by done; done.
  - simpl in Hb. lia.
  - unfold mul_body. set (m' := if Z.odd b then _ else m). set (a' := if _ <=? a then _ else _).
    assert (P < 2 ^ 64) as HP by reflexivity.
    assert (0 <= a' <= P /\ (a' = 2 * a \/ a' = 2 * a - P)) as [Ha' Ea].
    { unfold a'. rewrite (u64_small (P - a)) by lia. destruct (Z.leb_spec (P - a) a); rewrite u64_small by lia; lia. }
    assert (0 <= m' < P /\ (m' = m + a * (b mod 2) \/ m' = m + a * (b mod 2) - P)) as [Hm' Em].
    { unfold m'. rewrite Zmod_odd. destruct (Z.odd b); [|lia]. rewrite (u64_small (P - a)) by lia.
      destruct (Z.leb_spec (P - a) m); rewrite u64_small by lia; lia. }
    rewrite Nat2Z.inj_succ, Z.pow_succ_r in Hb by lia. rewrite Z.shiftr_div_pow2 by lia. change (2 ^ 1) with 2.
    pose proof (Z.div_mod b 2 ltac:(lia)) as Hd. pose proof (Z.mod_pos_bound b 2 ltac:(lia)).
    rewrite IH by (done || lia). f_equal.
    assert (exists q, m + a * b = m' + a' * (b / 2) + q * P) as [q ->].
    { replace (a * b) with (a * (2 * (b / 2)) + a * (b mod 2)) by (rewrite <- Z.mul_add_distr_l, <- Hd; done). destruct Ea as [-> | ->], Em as [-> | ->].
      - exists 0. lia.
      - exists 1. lia.
      - exists (b / 2). lia.
      - exists (b / 2 + 1). lia. }
    by rewrite Z.mod_add.
Qed.

Lemma mul_mod_p_spec a b : 0 <= a <= P -> 0 <= b < 2 ^ 64 -> mul_mod_p a b = Some ((a * b) mod P).
Proof. intros. unfold mul_mod_p. by rewrite mul_loop_spec. Qed.

Lemma P_64 x : 0 <= x <= P -> 0 <= x < 2 ^ 64.
Proof. unfold P. lia. Qed.

Lemma pow_rec_spec fuel a b : 0 <= a <= P -> 1 <= b < 2 ^ Z.of_nat (S fuel) ->
  pow_rec fuel a b = Some (if b =? 1 then a else a ^ b mod P).
Proof.
  intros Ha. revert b. induction fuel as [|fuel IH]; intros b Hb; cbn [pow_rec]; destruct (Z.eqb_spec b 1) as [->|Hb1]; try done.
  - change (2 ^ Z.of_nat 1) with 2 in Hb. lia.
  - rewrite Z.shiftr_div_pow2 by lia. change (2 ^ 1) with 2.
    rewrite Nat2Z.inj_succ, Z.pow_succ_r in Hb by lia. pose proof (Z.div_mod b 2 ltac:(lia)) as Hd.
    pose proof (Z.mod_pos_bound b 2 ltac:(lia)). rewrite IH by lia.
    set (t := if b / 2 =? 1 then a else a ^ (b / 2) mod P).
    assert (0 <= t <= P /\ t mod P = a ^ (b / 2) mod P) as [Ht Et].
    { unfold t. destruct (Z.eqb_spec (b / 2) 1) as [->|]; [by rewrite Z.pow_1_r|]. rewrite Z.mod_mod by done.
      pose proof (Z.mod_pos_bound (a ^ (b / 2)) P ltac:(done)). lia. }
    rewrite mul_mod_p_spec by auto using P_64.
    assert ((t * t) mod P = a ^ (2 * (b / 2)) mod P) as ->.
    { rewrite Z.mul_mod, Et, <- Z.mul_mod, <- Z.pow_twice_r by done. done. }
    destruct (Z.eqb_spec (b mod 2) 0) as [E|E]; simpl.
    + do 2 f_equal. f_equal. lia.
    + pose proof (Z.mod_pos_bound (a ^ (2 * (b / 2))) P ltac:(done)).
      rewrite mul_mod_p_spec by (auto using P_64; lia). rewrite Z.mul_mod_idemp_l by done. do 2 f_equal.
      replace b with (2 * (b / 2) + 1) at 2 by lia. rewrite Z.pow_add_r, Z.pow_1_r by lia. done.
Qed.

Lemma powmodp_value a b : 0 <= a < 2 ^ 64 -> 1 <= b < 2 ^ 64 ->
  powmodp a b = Some (if (a =? P) && (b =? 1) then P else a ^ b mod P).
Proof.
  intros Ha Hb. unfold powmodp, pow_mod_p. destruct (Z.ltb_spec P a).
  - pose proof (Z.mod_pos_bound a P ltac:(done)). rewrite pow_rec_spec by (change (Z.of_nat 65) with 65; lia).
    destruct (Z.eqb_spec a P); [lia|]. simpl. destruct (Z.eqb_spec b 1) as [->|].
    + by rewrite Z.pow_1_r.
    + by rewrite <- Zpower_mod.
  - rewrite pow_rec_spec by (change (Z.of_nat 65) with 65; lia).
    destruct (Z.eqb_spec b 1) as [->|]; [|by rewrite andb_false_r]. rewrite andb_true_r.
    destruct (Z.eqb_spec a P) as [->|]; [done|]. rewrite Z.pow_1_r, Z.mod_small by lia. done.
Qed.

(** ** Words as bytes *)

Lemma le_word_value b0 b1 b2 b3 : byte b0 -> byte b1 -> byte b2 -> byte b3 ->
  u32 (Z.lor (Z.lor (Z.lor b0 (Z.shiftl b1 8)) (Z.shiftl b2 16)) (Z.shiftl b3 24)) = b0 + b1 * 2 ^ 8 + b2 * 2 ^ 16 + b3 * 2 ^ 24.
Proof.
  unfold byte. intros. rewrite !Z.shiftl_mul_pow2 by lia. rewrite (lor_fields b0), (lor_fields _ b2), (lor_fields _ b3) by zlia.
  apply u32_small. zlia.
Qed.

(** The number eight bytes denote. *)
Definition value64 (x : list Z) : Z := default 0 (word64 <$> le_words x).

Lemma le_words_value x : bytes8 x -> exists w, le_words x = Some w /\ word64 w = value64 x /\ 0 <= value64 x < 2 ^ 64.
Proof.
  intros [Hl Hb]. do 8 (destruct x as [|? x]; [done|]). destruct x; [|done]. rewrite !Forall_cons in Hb. destruct_and! Hb.
  unfold value64, le_words, le_word. simpl. rewrite !le_word_value by done. eexists. split_and!; [done..| |];
    simpl; unfold word64; simpl; unfold byte in *; rewrite u64_small by (rewrite Z.shiftl_mul_pow2 by lia; zlia);
    rewrite Z.shiftl_mul_pow2, lor_fields by zlia; zlia.
Qed.

Lemma value64_zero x : bytes8 x -> value64 x = 0 -> x = replicate 8 0.
Proof.
  intros [Hl Hb]. do 8 (destruct x as [|? x]; [done|]). destruct x; [|done]. rewrite !Forall_cons in Hb. destruct_and! Hb.
  unfold value64, le_words, le_word. simpl. rewrite !le_word_value by done. unfold word64. simpl. unfold byte in *.
  rewrite u64_small by (rewrite Z.shiftl_mul_pow2 by lia; zlia). rewrite Z.shiftl_mul_pow2, lor_fields by zlia. zpow. intros. repeat f_equal; lia.
Qed.

Lemma push64_bytes r : bytes8 (push64 r).
Proof.
  split; [done|]. unfold push64. apply Forall_forall. intros b (i & -> & _)%list_elem_of_fmap.
  change 0xff with (2 ^ 8 - 1). rewrite land_low by lia. apply Z.mod_pos_bound. lia.
Qed.

Lemma value64_push64 r : 0 <= r < 2 ^ 64 -> value64 (push64 r) = r.
Proof.
  intros Hr. unfold value64. destruct (le_words_value (push64 r) (push64_bytes r)) as (w & Hw & _).
  unfold push64, le_words, le_word in *. simpl in *. change 0xff with (2 ^ 8 - 1) in *.
  rewrite !land_low, !Z.shiftr_div_pow2 in * by lia.
  assert (forall z, byte (z mod 2 ^ 8)) as Hm by (intros; apply Z.mod_pos_bound; lia).
  rewrite !le_word_value by done. unfold word64. simpl.
  set (hi := _ + _ + _ + _ * 2 ^ 24) at 2. set (lo := _ + _ + _ + _ * 2 ^ 24) at 1.
  assert (0 <= hi < 2 ^ 32) by (unfold hi; zpow; Z.div_mod_to_equations; lia).
  assert (0 <= lo < 2 ^ 32) by (unfold lo; zpow; Z.div_mod_to_equations; lia).
  rewrite Z.shiftl_mul_pow2 by lia. rewrite u64_small by zlia. rewrite lor_fields by zlia.
  unfold lo, hi. clear -Hr. zpow. Z.div_mod_to_equations. lia.
Qed.

(** ** The exchange *)

Lemma G_power_nonzero n : 0 <= n -> G ^ n mod P <> 0.
Proof.
  intros Hn E. apply Z.mod_divide in E; [|done].
  assert (Z.coprime (G ^ n) P) as Hp by (apply Z.coprime_pow_l; [done | reflexivity]).
  pose proof (Z.gcd_greatest _ _ _ E (Z.divide_refl P)) as Hd. rewrite Hp in Hd. apply Z.divide_1_r in Hd as [Hd|Hd]; by vm_compute in Hd.
Qed.

Lemma ldhexchange_value x : bytes8 x -> value64 x <> 0 -> ldhexchange x = Ok (push64 (G ^ value64 x mod P)).
Proof.
  intros Hx Hv. unfold ldhexchange. destruct (le_words_value x Hx) as (w & -> & Ew & Hr). destruct Hx as [-> _]. simpl.
  rewrite Ew. destruct (Z.eqb_spec (value64 x) 0); [done|]. rewrite powmodp_value by (unfold G; lia). done.
Qed.

Lemma ldhsecret_value x y : bytes8 x -> bytes8 y -> value64 x <> 0 -> value64 y <> 0 -> value64 x <> P ->
  ldhsecret x y = Ok (push64 (value64 x ^ value64 y mod P)).
Proof.
  intros Hx Hy Hvx Hvy HP. unfold ldhsecret, read64.
  destruct (le_words_value x Hx) as (w & -> & Ew & Hr), (le_words_value y Hy) as (w' & -> & Ew' & Hr').
  destruct Hx as [-> _], Hy as [-> _]. simpl. rewrite Ew, Ew'.
  destruct (Z.eqb_spec (value64 x) 0); [done|]. destruct (Z.eqb_spec (value64 y) 0); [done|]. simpl.
  rewrite powmodp_value by lia. destruct (Z.eqb_spec (value64 x) P); [done|]. done.
Qed.

Lemma lrandomkey_bytes rnd : bytes8 (lrandomkey rnd).
Proof.
  unfold lrandomkey. set (tmp := map _ _). assert (Forall byte tmp) as Hb.
  { apply Forall_forall. intros b (i & -> & _)%list_elem_of_fmap. apply byte_land. }
  destruct (_ =? 0); [|split; [done | exact Hb]]. unfold tmp in *. cbn [map seqZ seq fmap list_fmap] in *. split; [done|].
  change (seqZ 0 8) with [0; 1; 2; 3; 4; 5; 6; 7] in *. cbn [map] in *. apply Forall_cons in Hb as [H0 Hb]. constructor; [|done].
  unfold byte in *. split; [apply Z.lor_nonneg; lia|]. apply Z.log2_lt_cancel. rewrite Z.log2_lor, Z.log2_pow2 by lia.
  destruct (Z.eq_dec (Z.land (rnd 0) 255) 0) as [->|]; [done|]. apply Z.max_lub_lt; [|done]. by apply Z.log2_lt_pow2; lia.
Qed.

Lemma lrandomkey_nonzero rnd : lrandomkey rnd <> replicate 8 0.
Proof.
  unfold lrandomkey. set (tmp := map _ _). destruct (Z.eqb_spec (foldl Z.lxor 0 tmp) 0) as [E|E]; [|intros ->; by apply E].
  unfold tmp. change (seqZ 0 8) with [0; 1; 2; 3; 4; 5; 6; 7]. cbn [map]. intros [= H _].
  apply Z.lor_eq_0_iff in H as [_ ?]. done.
Qed.

(** Keys, hashes and message authentication codes are strings of 8 bytes: those of [lhashkey] and [lrandomkey] for every input, those of
    [lhmac64] and [lhmac_hash] for every key of 8 bytes.  A random key is never 0, so [ldhexchange] accepts it. *)
Theorem keys_typed key rnd x y : bytes8 x -> bytes8 y ->
  bytes8 (lhashkey key) /\ bytes8 (lrandomkey rnd) /\
  (exists r, lhmac64 x y = Ok r /\ bytes8 r) /\ (exists r, lhmac_hash x key = Ok r /\ bytes8 r) /\
  (exists r, ldhexchange (lrandomkey rnd) = Ok r /\ bytes8 r).
Proof.
  intros Hx Hy. destruct (le_words_value x Hx) as (wx & Ex & _), (le_words_value y Hy) as (wy & Ey & _).
  pose proof (lrandomkey_bytes rnd) as Hr. split_and!; [apply Hash_bytes | done | | |].
  - unfold lhmac64, read64. rewrite (proj1 Hx), (proj1 Hy), Ex, Ey. change (Z.of_nat 8 =? 8) with true.
    cbn [negb lift]. destruct (hmac_total wx wy) as [r ->]. eauto using pushqword_bytes.
  - unfold lhmac_hash. rewrite (proj1 Hx), Ex. change (Z.of_nat 8 =? 8) with true. cbn [negb lift].
    destruct (le_words_value _ (Hash_bytes key (i32 (Z.of_nat (length key))))) as (w & -> & _).
    cbn [lift]. destruct (hmac_total w wx) as [r ->]. eauto using pushqword_bytes.
  - eexists. split; [|apply push64_bytes]. apply ldhexchange_value; [done|]. intros E. by apply (lrandomkey_nonzero rnd), value64_zero.
Qed.

Lemma keys_typed_witness : bytes8 (lhashkey (str "password")) /\ bytes8 (lrandomkey (fun i => i * 1103515245)) /\
  (exists r, lhmac64 (str "12345678") (str "abcdefgh") = Ok r /\ bytes8 r) /\
  (exists r, lhmac_hash (str "12345678") (str "password") = Ok r /\ bytes8 r) /\
  (exists r, ldhexchange (lrandomkey (fun i => i * 1103515245)) = Ok r /\ bytes8 r).
Proof.
  apply (keys_typed (str "password") (fun i => i * 1103515245) (str "12345678") (str "abcdefgh"));
    (split; [reflexivity | vm_compute; repeat (constructor; [split; [discriminate | reflexivity]|]); constructor]).
Defined.

(** [powmodp], which multiplies by doubling in 64 bits, computes [a ^ b mod P] for every [a] and every [b] but 0; only [a = P],
    which [a > P] does not reduce, is returned as it is when [b] is 1. *)
Theorem powmodp_spec a b : 0 <= a < 2 ^ 64 -> 1 <= b < 2 ^ 64 ->
  powmodp a b = Some (if (a =? P) && (b =? 1) then P else a ^ b mod P).
Proof. apply powmodp_value. Qed.

Lemma powmodp_spec_witness : powmodp 5 1000 = Some (5 ^ 1000 mod P).
Proof. exact (powmodp_spec 5 1000 ltac:(lia) ltac:(lia)). Defined.

(** Two sides that exchange [ldhexchange] of their keys derive the same secret, [G ^ (x y) mod P], with [ldhsecret]. *)
Theorem dh_agreement x y : bytes8 x -> bytes8 y -> value64 x <> 0 -> value64 y <> 0 ->
  exists X Y s, ldhexchange x = Ok X /\ ldhexchange y = Ok Y /\ ldhsecret Y x = Ok s /\ ldhsecret X y = Ok s /\
    s = push64 (G ^ (value64 x * value64 y) mod P).
Proof.
  intros Hx Hy Hvx Hvy. destruct (le_words_value x Hx) as (_ & _ & _ & Hrx), (le_words_value y Hy) as (_ & _ & _ & Hry).
  assert (forall n, 0 <= n -> value64 (push64 (G ^ n mod P)) = G ^ n mod P /\ 0 < G ^ n mod P < P) as HG.
  { intros n Hn. pose proof (Z.mod_pos_bound (G ^ n) P ltac:(done)). pose proof (G_power_nonzero n Hn).
    assert (P < 2 ^ 64) by done. rewrite value64_push64 by lia. lia. }
  eexists _, _, _. split; [by apply ldhexchange_value|]. split; [by apply ldhexchange_value|].
  destruct (HG (value64 x) ltac:(lia)) as [Ex ?], (HG (value64 y) ltac:(lia)) as [Ey ?].
  rewrite !ldhsecret_value by (try done; try apply push64_bytes; lia). rewrite Ex, Ey.
  rewrite <- !Zpower_mod, <- !Z.pow_mul_r by (done || lia). split; [done|]. by rewrite (Z.mul_comm (value64 y)).
Qed.

Lemma dh_agreement_witness : exists X Y s, ldhexchange (str "privateA") = Ok X /\ ldhexchange (str "privateB") = Ok Y /\
  ldhsecret Y (str "privateA") = Ok s /\ ldhsecret X (str "privateB") = Ok s /\
  s = push64 (G ^ (value64 (str "privateA") * value64 (str "privateB")) mod P).
Proof.
  apply (dh_agreement (str "privateA") (str "privateB")).
  1,2: split; [reflexivity | vm_compute; repeat (constructor; [split; [discriminate | reflexivity]|]); constructor].
  all: vm_compute; discriminate.
Defined.
