(* ===== verification/Des.v ===== *)
(** * DES ([lualib-src/lua-crypt.c])

    The block cipher and its two Lua functions.  A word is a [Z] below [2 ^ 32]; the shifts that leave 32 bits are
    cut.  The macros that assign their arguments return the new values. *)

From S2P Require Import Prelude CString LuaError Crypt.

Declare Scope word_scope.
Delimit Scope word_scope with word.
Infix "<<" := Z.shiftl (at level 40, left associativity) : word_scope.
Infix ">>" := Z.shiftr (at level 40, left associativity) : word_scope.
Infix "&" := Z.land (at level 45, left associativity) : word_scope.
Infix "^^" := Z.lxor (at level 46, left associativity) : word_scope.
Infix "|'" := Z.lor (at level 48, left associativity) : word_scope.
Local Open Scope word_scope.

Definition SB1 : list Z :=
  [0x01010400; 0x00000000; 0x00010000; 0x01010404; 0x01010004; 0x00010404; 0x00000004; 0x00010000;
   0x00000400; 0x01010400; 0x01010404; 0x00000400; 0x01000404; 0x01010004; 0x01000000; 0x00000004;
   0x00000404; 0x01000400; 0x01000400; 0x00010400; 0x00010400; 0x01010000; 0x01010000; 0x01000404;
   0x00010004; 0x01000004; 0x01000004; 0x00010004; 0x00000000; 0x00000404; 0x00010404; 0x01000000;
   0x00010000; 0x01010404; 0x00000004; 0x01010000; 0x01010400; 0x01000000; 0x01000000; 0x00000400;
   0x01010004; 0x00010000; 0x00010400; 0x01000004; 0x00000400; 0x00000004; 0x01000404; 0x00010404;
   0x01010404; 0x00010004; 0x01010000; 0x01000404; 0x01000004; 0x00000404; 0x00010404; 0x01010400;
   0x00000404; 0x01000400; 0x01000400; 0x00000000; 0x00010004; 0x00010400; 0x00000000; 0x01010004].

Definition SB2 : list Z :=
  [0x80108020; 0x80008000; 0x00008000; 0x00108020; 0x00100000; 0x00000020; 0x80100020; 0x80008020;
   0x80000020; 0x80108020; 0x80108000; 0x80000000; 0x80008000; 0x00100000; 0x00000020; 0x80100020;
   0x00108000; 0x00100020; 0x80008020; 0x00000000; 0x80000000; 0x00008000; 0x00108020; 0x80100000;
   0x00100020; 0x80000020; 0x00000000; 0x00108000; 0x00008020; 0x80108000; 0x80100000; 0x00008020;
   0x00000000; 0x00108020; 0x80100020; 0x00100000; 0x80008020; 0x80100000; 0x80108000; 0x00008000;
   0x80100000; 0x80008000; 0x00000020; 0x80108020; 0x00108020; 0x00000020; 0x00008000; 0x80000000;
   0x00008020; 0x80108000; 0x00100000; 0x80000020; 0x00100020; 0x80008020; 0x80000020; 0x00100020;
   0x00108000; 0x00000000; 0x80008000; 0x00008020; 0x80000000; 0x80100020; 0x80108020; 0x00108000].

Definition SB3 : list Z :=
  [0x00000208; 0x08020200; 0x00000000; 0x08020008; 0x08000200; 0x00000000; 0x00020208; 0x08000200;
   0x00020008; 0x08000008; 0x08000008; 0x00020000; 0x08020208; 0x00020008; 0x08020000; 0x00000208;
   0x08000000; 0x00000008; 0x08020200; 0x00000200; 0x00020200; 0x08020000; 0x08020008; 0x00020208;
   0x08000208; 0x00020200; 0x00020000; 0x08000208; 0x00000008; 0x08020208; 0x00000200; 0x08000000;
   0x08020200; 0x08000000; 0x00020008; 0x00000208; 0x00020000; 0x08020200; 0x08000200; 0x00000000;
   0x00000200; 0x00020008; 0x08020208; 0x08000200; 0x08000008; 0x00000200; 0x00000000; 0x08020008;
   0x08000208; 0x00020000; 0x08000000; 0x08020208; 0x00000008; 0x00020208; 0x00020200; 0x08000008;
   0x08020000; 0x08000208; 0x00000208; 0x08020000; 0x00020208; 0x00000008; 0x08020008; 0x00020200].

Definition SB4 : list Z :=
  [0x00802001; 0x00002081; 0x00002081; 0x00000080; 0x00802080; 0x00800081; 0x00800001; 0x00002001;
   0x00000000; 0x00802000; 0x00802000; 0x00802081; 0x00000081; 0x00000000; 0x00800080; 0x00800001;
   0x00000001; 0x00002000; 0x00800000; 0x00802001; 0x00000080; 0x00800000; 0x00002001; 0x00002080;
   0x00800081; 0x00000001; 0x00002080; 0x00800080; 0x00002000; 0x00802080; 0x00802081; 0x00000081;
   0x00800080; 0x00800001; 0x00802000; 0x00802081; 0x00000081; 0x00000000; 0x00000000; 0x00802000;
   0x00002080; 0x00800080; 0x00800081; 0x00000001; 0x00802001; 0x00002081; 0x00002081; 0x00000080;
   0x00802081; 0x00000081; 0x00000001; 0x00002000; 0x00800001; 0x00002001; 0x00802080; 0x00800081;
   0x00002001; 0x00002080; 0x00800000; 0x00802001; 0x00000080; 0x00800000; 0x00002000; 0x00802080].

Definition SB5 : list Z :=
  [0x00000100; 0x02080100; 0x02080000; 0x42000100; 0x00080000; 0x00000100; 0x40000000; 0x02080000;
   0x40080100; 0x00080000; 0x02000100; 0x40080100; 0x42000100; 0x42080000; 0x00080100; 0x40000000;
   0x02000000; 0x40080000; 0x40080000; 0x00000000; 0x40000100; 0x42080100; 0x42080100; 0x02000100;
   0x42080000; 0x40000100; 0x00000000; 0x42000000; 0x02080100; 0x02000000; 0x42000000; 0x00080100;
   0x00080000; 0x42000100; 0x00000100; 0x02000000; 0x40000000; 0x02080000; 0x42000100; 0x40080100;
   0x02000100; 0x40000000; 0x42080000; 0x02080100; 0x40080100; 0x00000100; 0x02000000; 0x42080000;
   0x42080100; 0x00080100; 0x42000000; 0x42080100; 0x02080000; 0x00000000; 0x40080000; 0x42000000;
   0x00080100; 0x02000100; 0x40000100; 0x00080000; 0x00000000; 0x40080000; 0x02080100; 0x40000100].

Definition SB6 : list Z :=
  [0x20000010; 0x20400000; 0x00004000; 0x20404010; 0x20400000; 0x00000010; 0x20404010; 0x00400000;
   0x20004000; 0x00404010; 0x00400000; 0x20000010; 0x00400010; 0x20004000; 0x20000000; 0x00004010;
   0x00000000; 0x00400010; 0x20004010; 0x00004000; 0x00404000; 0x20004010; 0x00000010; 0x20400010;
   0x20400010; 0x00000000; 0x00404010; 0x20404000; 0x00004010; 0x00404000; 0x20404000; 0x20000000;
   0x20004000; 0x00000010; 0x20400010; 0x00404000; 0x20404010; 0x00400000; 0x00004010; 0x20000010;
   0x00400000; 0x20004000; 0x20000000; 0x00004010; 0x20000010; 0x20404010; 0x00404000; 0x20400000;
   0x00404010; 0x20404000; 0x00000000; 0x20400010; 0x00000010; 0x00004000; 0x20400000; 0x00404010;
   0x00004000; 0x00400010; 0x20004010; 0x00000000; 0x20404000; 0x20000000; 0x00400010; 0x20004010].

Definition SB7 : list Z :=
  [0x00200000; 0x04200002; 0x04000802; 0x00000000; 0x00000800; 0x04000802; 0x00200802; 0x04200800;
   0x04200802; 0x00200000; 0x00000000; 0x04000002; 0x00000002; 0x04000000; 0x04200002; 0x00000802;
   0x04000800; 0x00200802; 0x00200002; 0x04000800; 0x04000002; 0x04200000; 0x04200800; 0x00200002;
   0x04200000; 0x00000800; 0x00000802; 0x04200802; 0x00200800; 0x00000002; 0x04000000; 0x00200800;
   0x04000000; 0x00200800; 0x00200000; 0x04000802; 0x04000802; 0x04200002; 0x04200002; 0x00000002;
   0x00200002; 0x04000000; 0x04000800; 0x00200000; 0x04200800; 0x00000802; 0x00200802; 0x04200800;
   0x00000802; 0x04000002; 0x04200802; 0x04200000; 0x00200800; 0x00000000; 0x00000002; 0x04200802;
   0x00000000; 0x00200802; 0x04200000; 0x00000800; 0x04000002; 0x04000800; 0x00000800; 0x00200002].

Definition SB8 : list Z :=
  [0x10001040; 0x00001000; 0x00040000; 0x10041040; 0x10000000; 0x10001040; 0x00000040; 0x10000000;
   0x00040040; 0x10040000; 0x10041040; 0x00041000; 0x10041000; 0x00041040; 0x00001000; 0x00000040;
   0x10040000; 0x10000040; 0x10001000; 0x00001040; 0x00041000; 0x00040040; 0x10040040; 0x10041000;
   0x00001040; 0x00000000; 0x00000000; 0x10040040; 0x10000040; 0x10001000; 0x00041040; 0x00040000;
   0x00041040; 0x00040000; 0x10041000; 0x00001000; 0x00000040; 0x10040040; 0x00001000; 0x00041040;
   0x10001000; 0x00000040; 0x10000040; 0x10040000; 0x10040040; 0x10000000; 0x00040000; 0x10001040;
   0x00000000; 0x10041040; 0x00040040; 0x10000040; 0x10040000; 0x10001000; 0x10001040; 0x00000000;
   0x10041040; 0x00041000; 0x00041000; 0x00001040; 0x00001040; 0x00040040; 0x10000000; 0x10041000].

(** Left and right halves of the key, bits spread. *)
Definition LHs : list Z :=
  [0x00000000; 0x00000001; 0x00000100; 0x00000101; 0x00010000; 0x00010001; 0x00010100; 0x00010101;
   0x01000000; 0x01000001; 0x01000100; 0x01000101; 0x01010000; 0x01010001; 0x01010100; 0x01010101].

Definition RHs : list Z :=
  [0x00000000; 0x01000000; 0x00010000; 0x01010000; 0x00000100; 0x01000100; 0x00010100; 0x01010100;
   0x00000001; 0x01000001; 0x00010001; 0x01010001; 0x00000101; 0x01000101; 0x00010101; 0x01010101].

(** ** Words in byte arrays *)

Definition GET_UINT32 (b : list Z) (i : Z) : option Z :=
  let! b0 := aget b i in
  let! b1 := aget b (i + 1) in
  let! b2 := aget b (i + 2) in
  let! b3 := aget b (i + 3) in
  Some (u32 (b0 << 24) |' u32 (b1 << 16) |' u32 (b2 << 8) |' b3).

Definition PUT_UINT32 (n : Z) : list Z := [u8 (n >> 24); u8 (n >> 16); u8 (n >> 8); u8 n].

(** ** Permutations *)

(** [T = ((X >> k) ^ Y) & mask; Y ^= T; X ^= (T << k)]. *)
Definition exchange (k mask X Y : Z) : Z * Z :=
  let T := ((X >> k) ^^ Y) & mask in
  (X ^^ u32 (T << k), Y ^^ T).

(** The same with the roles of the words exchanged. *)
Definition exchange' (k mask X Y : Z) : Z * Z := let '(Y, X) := exchange k mask Y X in (X, Y).

Definition rotl1 (X : Z) : Z := (u32 (X << 1) |' (X >> 31)) & 0xFFFFFFFF.
Definition rotr1 (X : Z) : Z := (u32 (X << 31) |' (X >> 1)) & 0xFFFFFFFF.

Definition DES_IP (X Y : Z) : Z * Z :=
  let '(X, Y) := exchange 4 0x0F0F0F0F X Y in
  let '(X, Y) := exchange 16 0x0000FFFF X Y in
  let '(X, Y) := exchange' 2 0x33333333 X Y in
  let '(X, Y) := exchange' 8 0x00FF00FF X Y in
  let Y := rotl1 Y in
  let T := (X ^^ Y) & 0xAAAAAAAA in
  let Y := Y ^^ T in
  let X := X ^^ T in
  (rotl1 X, Y).

Definition DES_FP (X Y : Z) : Z * Z :=
  let X := rotr1 X in
  let T := (X ^^ Y) & 0xAAAAAAAA in
  let X := X ^^ T in
  let Y := Y ^^ T in
  let Y := rotr1 Y in
  let '(X, Y) := exchange' 8 0x00FF00FF X Y in
  let '(X, Y) := exchange' 2 0x33333333 X Y in
  let '(X, Y) := exchange 16 0x0000FFFF X Y in
  exchange 4 0x0F0F0F0F X Y.

(** ** Rounds *)

(** The new [Y]; [k1] and [k2] are the two subkeys read from [SK]. *)
Definition DES_ROUND (k1 k2 X Y : Z) : option Z :=
  let T := k1 ^^ X in
  let! s8 := aget SB8 (T & 0x3F) in
  let! s6 := aget SB6 ((T >> 8) & 0x3F) in
  let! s4 := aget SB4 ((T >> 16) & 0x3F) in
  let! s2 := aget SB2 ((T >> 24) & 0x3F) in
  let Y := Y ^^ (s8 ^^ s6 ^^ s4 ^^ s2) in
  let T := k2 ^^ (u32 (X << 28) |' (X >> 4)) in
  let! s7 := aget SB7 (T & 0x3F) in
  let! s5 := aget SB5 ((T >> 8) & 0x3F) in
  let! s3 := aget SB3 ((T >> 16) & 0x3F) in
  let! s1 := aget SB1 ((T >> 24) & 0x3F) in
  Some (Y ^^ (s7 ^^ s5 ^^ s3 ^^ s1)).

(** [DES_ROUND( Y, X ); DES_ROUND( X, Y );] as often as there are four subkeys left. *)
Fixpoint des_rounds (SK : list Z) (X Y : Z) : option (Z * Z) :=
  match SK with
  | k1 :: k2 :: k3 :: k4 :: SK =>
      let! X := DES_ROUND k1 k2 Y X in
      let! Y := DES_ROUND k3 k4 X Y in
      des_rounds SK X Y
  | _ => Some (X, Y)
  end.

(** [SK] has 32 subkeys; the result is the content of [output]. *)
Definition des_crypt (SK input : list Z) : option (list Z) :=
  let! X := GET_UINT32 input 0 in
  let! Y := GET_UINT32 input 4 in
  let '(X, Y) := DES_IP X Y in
  let! (X, Y) := des_rounds SK X Y in
  let '(Y, X) := DES_FP Y X in
  Some (PUT_UINT32 Y ++ PUT_UINT32 X).

(** ** Key schedule *)

(** [(t[(X >> s) & 0xF] << l)]. *)
Definition spread (t : list Z) (X s l : Z) : option Z :=
  let! v := aget t ((X >> s) & 0xF) in
  Some (u32 (v << l)).

Definition spreads (t : list Z) (X : Z) (sl : list (Z * Z)) : option Z :=
  let! vs := mapM (fun '(s, l) => spread t X s l) sl in
  Some (foldl Z.lor 0 vs).

(** Permuted choice 1. *)
Definition des_pc1 (X Y : Z) : option (Z * Z) :=
  let '(Y, X) := exchange 4 0x0F0F0F0F Y X in
  let T := (Y ^^ X) & 0x10101010 in
  let X := X ^^ T in
  let Y := Y ^^ T in
  let! X := spreads LHs X [(0, 3); (8, 2); (16, 1); (24, 0); (5, 7); (13, 6); (21, 5); (29, 4)] in
  let! Y := spreads RHs Y [(1, 3); (9, 2); (17, 1); (25, 0); (4, 7); (12, 6); (20, 5); (28, 4)] in
  Some (X & 0x0FFFFFFF, Y & 0x0FFFFFFF).

(** A 28-bit rotation to the left. *)
Definition rot28 (n X : Z) : Z := (u32 (X << n) |' (X >> (28 - n))) & 0x0FFFFFFF.

Definition subkey1 (X Y : Z) : Z :=
  (u32 (X << 4) & 0x24000000) |' (u32 (X << 28) & 0x10000000) |' (u32 (X << 14) & 0x08000000) |'
  (u32 (X << 18) & 0x02080000) |' (u32 (X << 6) & 0x01000000) |' (u32 (X << 9) & 0x00200000) |'
  ((X >> 1) & 0x00100000) |' (u32 (X << 10) & 0x00040000) |' (u32 (X << 2) & 0x00020000) |'
  ((X >> 10) & 0x00010000) |' ((Y >> 13) & 0x00002000) |' ((Y >> 4) & 0x00001000) |'
  (u32 (Y << 6) & 0x00000800) |' ((Y >> 1) & 0x00000400) |' ((Y >> 14) & 0x00000200) |'
  (Y & 0x00000100) |' ((Y >> 5) & 0x00000020) |' ((Y >> 10) & 0x00000010) |'
  ((Y >> 3) & 0x00000008) |' ((Y >> 18) & 0x00000004) |' ((Y >> 26) & 0x00000002) |'
  ((Y >> 24) & 0x00000001).

Definition subkey2 (X Y : Z) : Z :=
  (u32 (X << 15) & 0x20000000) |' (u32 (X << 17) & 0x10000000) |' (u32 (X << 10) & 0x08000000) |'
  (u32 (X << 22) & 0x04000000) |' ((X >> 2) & 0x02000000) |' (u32 (X << 1) & 0x01000000) |'
  (u32 (X << 16) & 0x00200000) |' (u32 (X << 11) & 0x00100000) |' (u32 (X << 3) & 0x00080000) |'
  ((X >> 6) & 0x00040000) |' (u32 (X << 15) & 0x00020000) |' ((X >> 4) & 0x00010000) |'
  ((Y >> 2) & 0x00002000) |' (u32 (Y << 8) & 0x00001000) |' ((Y >> 14) & 0x00000808) |'
  ((Y >> 9) & 0x00000400) |' (Y & 0x00000200) |' (u32 (Y << 7) & 0x00000100) |'
  ((Y >> 7) & 0x00000020) |' ((Y >> 3) & 0x00000011) |' (u32 (Y << 2) & 0x00000004) |'
  ((Y >> 21) & 0x00000002).

(** The subkeys of the passes [i], [i + 1], ..., [n] of them. *)
Fixpoint des_subkeys (n : nat) (i X Y : Z) : list Z :=
  match n with
  | O => []
  | S n =>
      let s := if (i <? 2) || (i =? 8) || (i =? 15) then 1 else 2 in
      let X := rot28 s X in
      let Y := rot28 s Y in
      subkey1 X Y :: subkey2 X Y :: des_subkeys n (i + 1) X Y
  end.

Definition des_main_ks (key : list Z) : option (list Z) :=
  let! X := GET_UINT32 key 0 in
  let! Y := GET_UINT32 key 4 in
  let! (X, Y) := des_pc1 X Y in
  Some (des_subkeys 16 0 X Y).

Definition des_key (key : list Z) : res (list Z) :=
  if negb (Z.of_nat (length key) =? 8) then Raise (Text "Invalid key size %d, need 8 bytes") else
  lift (des_main_ks key).

(** ** Strings *)

(** [des_crypt(SK, text+i, buffer+i)]. *)
Definition crypt_body (SK text : list Z) (s : Z * list Z) : res (Z * list Z) :=
  let '(i, buffer) := s in
  let* input := lift (memcpy text i 8) in
  let* output := lift (des_crypt SK input) in
  let* buffer := lift (memcpy_at buffer i output) in
  let* i := int (i + 8) in
  Ok (i, buffer).

Definition des_tail (text : list Z) (i bytes : Z) : option (list Z) :=
  mapM (fun j => if j <? bytes then aget text (i + j) else if j =? bytes then Some 0x80 else Some 0) (seqZ 0 8).

Definition ldesencode (key text : list Z) : res (list Z) :=
  let* SK := des_key key in
  let textsz := Z.of_nat (length text) in
  let chunksz := (textsz + 8) & Z.lnot 7 in
  let buffer := buffer_for (SMALL_CHUNK <? chunksz) chunksz in
  let* (i, buffer) := while (length text) (fun '(i, _) => i <? i32 textsz - 7) (crypt_body SK text) (0, buffer) in
  let bytes := i32 (textsz - i) in
  let* tail := lift (des_tail text i bytes) in
  let* output := lift (des_crypt SK tail) in
  let* buffer := lift (memcpy_at buffer i output) in
  pushlstring buffer chunksz.

(** Pairs of subkeys in the opposite order. *)
Definition reverse_ks (ESK : list Z) : option (list Z) :=
  let! l := mapM (fun i => let! a := aget ESK (30 - i) in let! b := aget ESK (31 - i) in Some [a; b])
              (map (fun n => 2 * n) (seqZ 0 16)) in
  Some (concat l).

(** The loop that counts the padding: [i >= textsz-8] compares unsigned values. *)
Definition padding_body (buffer : list Z) (s : Z * Z * bool) : res (Z * Z * bool) :=
  let '(i, padding, _) := s in
  let* b := lift (aget buffer i) in
  if b =? 0 then Ok (i - 1, padding + 1, false)
  else if b =? 0x80 then Ok (i, padding, true)
  else Raise (Text "Invalid des crypt text").

Definition ldesdecode (key text : list Z) : res (list Z) :=
  let* ESK := des_key key in
  let* SK := lift (reverse_ks ESK) in
  let textsz := Z.of_nat (length text) in
  if negb (textsz & 7 =? 0) || (textsz =? 0) then Raise (Text "Invalid des crypt text length %d") else
  let buffer := buffer_for (SMALL_CHUNK <? textsz) textsz in
  let* (_, buffer) := while (length text) (fun '(i, _) => i <? textsz) (crypt_body SK text) (0, buffer) in
  let* (_, padding, _) :=
    while 9 (fun '(i, _, stop) => negb stop && (textsz - 8 <=? u64 i)) (padding_body buffer) (textsz - 1, 1, false) in
  if 8 <? padding then Raise (Text "Invalid des crypt text") else
  pushlstring buffer (textsz - padding).

(** ** Known results *)

Example des_ex :
  (let! SK := des_main_ks [0x13; 0x34; 0x57; 0x79; 0x9B; 0xBC; 0xDF; 0xF1] in
   des_crypt SK [0x01; 0x23; 0x45; 0x67; 0x89; 0xAB; 0xCD; 0xEF])
  = Some [0x85; 0xE8; 0x13; 0x54; 0x0F; 0x0A; 0xB4; 0x05].
Proof. vm_compute. reflexivity. Qed.

Example desencode_ex :
  (let* c := ldesencode (str "12345678") (str "hello world") in ldesdecode (str "12345678") c) = Ok (str "hello world").
Proof. vm_compute. reflexivity. Qed.
