(* ===== verification/DesSpec.v ===== *)
(** * Correctness of DES

    Decryption with the reversed subkeys undoes encryption, on blocks and on padded strings. *)

From S2P Require Import Prelude CString LuaError Crypt Des.
Local Open Scope word_scope.
#[local] Arguments exchange : simpl never.
#[local] Arguments exchange' : simpl never.

(** ** Words *)

Definition word (x : Z) : Prop := 0 <= x < 2 ^ 32.

Lemma word_bits x : 0 <= x -> (forall n, 32 <= n -> Z.testbit x n = false) -> word x.
Proof.
  intros Hx Hb. split; [done|]. destruct (Z.eq_dec x 0) as [->|]; [zlia|].
  apply Z.log2_lt_pow2; [lia|]. destruct (Z.lt_ge_cases (Z.log2 x) 32); [done|].
  assert (Z.testbit x (Z.log2 x) = true) by (apply Z.bit_log2; lia). rewrite Hb in * by done. done.
Qed.

Lemma word_high x n : word x -> 32 <= n -> Z.testbit x n = false.
Proof. intros Hx Hn. rewrite <- (Z.mod_small x (2 ^ 32)) by done. apply Z.mod_pow2_bits_high. lia. Qed.

Lemma word_u32 x : word (u32 x).
Proof. apply u32_range. Qed.

Lemma word_lxor x y : word x -> word y -> word (x ^^ y).
Proof.
  intros Hx Hy. apply word_bits; [apply Z.lxor_nonneg; unfold word in *; lia|].
  intros n Hn. rewrite Z.lxor_spec, !word_high by done. done.
Qed.

Lemma word_land x y : word x -> 0 <= y -> word (x & y).
Proof.
  intros Hx Hy. apply word_bits; [apply Z.land_nonneg; unfold word in *; lia|].
  intros n Hn. rewrite Z.land_spec, word_high by done. done.
Qed.

#[local] Hint Resolve word_lxor word_land word_u32 : core.

(** ** The permutations *)

Lemma lxor_cancel x t : (x ^^ t) ^^ t = x.
Proof. by rewrite Z.lxor_assoc, Z.lxor_nilpotent, Z.lxor_0_r. Qed.

Lemma lxor_both x y t : (x ^^ t) ^^ (y ^^ t) = x ^^ y.
Proof. rewrite (Z.lxor_comm y t), <- Z.lxor_assoc, lxor_cancel. done. Qed.

Section Exchange.
Context (k mask : Z) (Hk : 0 <= k) (Hm : 0 <= mask) (Hmk : mask << k < 2 ^ 32).

Lemma exchange_T x : u32 ((x & mask) << k) = (x & mask) << k.
Proof.
  assert (word (mask << k)) as Hw by (split; [by apply Z.shiftl_nonneg | done]).
  apply u32_small, word_bits; [apply Z.shiftl_nonneg, Z.land_nonneg; by right|].
  intros n Hn. rewrite Z.shiftl_spec, Z.land_spec by lia. apply (word_high _ n Hw) in Hn as Hb.
  rewrite Z.shiftl_spec in Hb by lia. by rewrite Hb, andb_false_r.
Qed.

Lemma exchange_twice X Y : let '(X', Y') := exchange k mask X Y in exchange k mask X' Y' = (X, Y).
Proof.
  unfold exchange. rewrite exchange_T. set (T := ((X >> k) ^^ Y) & mask).
  assert (((X ^^ (T << k)) >> k ^^ (Y ^^ T)) & mask = T) as ->.
  { rewrite Z.shiftr_lxor, Z.shiftr_shiftl_l, Z.sub_diag, Z.shiftl_0_r by done. by rewrite lxor_both. }
  unfold T at 2. rewrite exchange_T. fold T. by rewrite !lxor_cancel.
Qed.

Lemma exchange'_twice X Y : let '(X', Y') := exchange' k mask X Y in exchange' k mask X' Y' = (X, Y).
Proof.
  unfold exchange'. pose proof (exchange_twice Y X) as H. destruct (exchange k mask Y X). by rewrite H.
Qed.

Lemma exchange_word X Y : word X -> word Y -> let '(X', Y') := exchange k mask X Y in word X' /\ word Y'.
Proof.
  intros HX HY. unfold exchange. split; [auto|]. apply word_lxor; [done|]. apply word_land; [|done].
  apply word_lxor; [|done]. split; [apply Z.shiftr_nonneg; unfold word in *; lia|].
  apply Z.le_lt_trans with X; [|unfold word in *; lia].
  rewrite Z.shiftr_div_pow2 by done. apply Z.div_le_upper_bound; [lia|]. unfold word in *. nia.
Qed.

Lemma exchange'_word X Y : word X -> word Y -> let '(X', Y') := exchange' k mask X Y in word X' /\ word Y'.
Proof. intros HX HY. unfold exchange'. pose proof (exchange_word Y X HY HX) as H. destruct (exchange k mask Y X). tauto. Qed.
End Exchange.

Lemma testbit_word_mask x n : 0 <= n -> Z.testbit (x & 0xFFFFFFFF) n = (n <? 32) && Z.testbit x n.
Proof.
  intros. rewrite Z.land_spec. change 0xFFFFFFFF with (Z.ones 32). rewrite Z.testbit_ones_nonneg by lia.
  apply andb_comm.
Qed.

Lemma testbit_rotl1 X n : word X -> 0 <= n -> Z.testbit (rotl1 X) n = (n <? 32) && Z.testbit X ((n - 1) mod 32).
Proof.
  intros HX Hn. unfold rotl1. rewrite testbit_word_mask by done. destruct (Z.ltb_spec n 32); [|done]. simpl.
  rewrite Z.lor_spec, testbit_u32, Z.shiftr_spec, Z.shiftl_spec by done.
  destruct (Z.eq_dec n 0) as [->|].
  - rewrite Z.testbit_neg_r by lia. done.
  - rewrite (word_high X (n + 31)) by (done || lia). rewrite Z.mod_small by lia.
    destruct (Z.ltb_spec n 32); [|lia]. by rewrite orb_false_r.
Qed.

Lemma testbit_rotr1 X n : word X -> 0 <= n -> Z.testbit (rotr1 X) n = (n <? 32) && Z.testbit X ((n + 1) mod 32).
Proof.
  intros HX Hn. unfold rotr1. rewrite testbit_word_mask by done. destruct (Z.ltb_spec n 32); [|done]. simpl.
  rewrite Z.lor_spec, testbit_u32, Z.shiftr_spec, Z.shiftl_spec by done.
  destruct (Z.eq_dec n 31) as [->|].
  - rewrite (word_high X (31 + 1)) by (done || lia). by rewrite orb_false_r.
  - rewrite (Z.testbit_neg_r X) by lia. rewrite Z.mod_small by lia. by rewrite andb_false_r.
Qed.

Lemma rotl1_word X : word (rotl1 X).
Proof.
  apply word_bits; [apply Z.land_nonneg; right; lia|]. intros n Hn. unfold rotl1. rewrite testbit_word_mask by lia.
  by destruct (Z.ltb_spec n 32); [lia|].
Qed.

Lemma rotr1_word X : word (rotr1 X).
Proof.
  apply word_bits; [apply Z.land_nonneg; right; lia|]. intros n Hn. unfold rotr1. rewrite testbit_word_mask by lia.
  by destruct (Z.ltb_spec n 32); [lia|].
Qed.

Lemma rotl1_rotr1 X : word X -> rotl1 (rotr1 X) = X.
Proof.
  intros HX. apply Z.bits_inj'. intros n Hn. rewrite testbit_rotl1, testbit_rotr1 by (auto using rotr1_word; apply Z.mod_pos_bound; lia).
  destruct (Z.ltb_spec n 32); simpl; [|by rewrite word_high].
  destruct (Z.ltb_spec ((n - 1) mod 32) 32); [|pose proof (Z.mod_pos_bound (n - 1) 32); lia]. simpl.
  rewrite Z.add_mod_idemp_l by lia. f_equal. replace (n - 1 + 1) with n by lia. by apply Z.mod_small.
Qed.

Lemma rotr1_rotl1 X : word X -> rotr1 (rotl1 X) = X.
Proof.
  intros HX. apply Z.bits_inj'. intros n Hn. rewrite testbit_rotr1, testbit_rotl1 by (auto using rotl1_word; apply Z.mod_pos_bound; lia).
  destruct (Z.ltb_spec n 32); simpl; [|by rewrite word_high].
  destruct (Z.ltb_spec ((n + 1) mod 32) 32); [|pose proof (Z.mod_pos_bound (n + 1) 32); lia]. simpl.
  rewrite Zminus_mod_idemp_l. f_equal. replace (n + 1 - 1) with n by lia. by apply Z.mod_small.
Qed.

(** [g] undoes [f] on pairs of words. *)
Definition words (p : Z * Z) : Prop := word (fst p) /\ word (snd p).
Definition undoes (g f : Z * Z -> Z * Z) : Prop := forall p, words p -> words (f p) /\ g (f p) = p.

Lemma undoes_comp f1 g1 f2 g2 : undoes g1 f1 -> undoes g2 f2 -> undoes (fun p => g1 (g2 p)) (fun p => f2 (f1 p)).
Proof. intros H1 H2 p [Hw E]%H1. destruct (H2 _ Hw) as [? E2]. by rewrite E2. Qed.

Lemma undoes_exchange k mask : 0 <= k -> 0 <= mask -> mask << k < 2 ^ 32 ->
  undoes (fun p => exchange k mask (fst p) (snd p)) (fun p => exchange k mask (fst p) (snd p)).
Proof.
  intros ??? [X Y] [HX HY]. cbn [fst snd] in *. pose proof (exchange_twice k mask ltac:(done) ltac:(done) ltac:(done) X Y).
  pose proof (exchange_word k mask ltac:(done) ltac:(done) X Y HX HY). destruct (exchange k mask X Y). unfold words. cbn [fst snd]. tauto.
Qed.

Lemma undoes_exchange' k mask : 0 <= k -> 0 <= mask -> mask << k < 2 ^ 32 ->
  undoes (fun p => exchange' k mask (fst p) (snd p)) (fun p => exchange' k mask (fst p) (snd p)).
Proof.
  intros ??? [X Y] [HX HY]. cbn [fst snd] in *. pose proof (exchange'_twice k mask ltac:(done) ltac:(done) ltac:(done) X Y).
  pose proof (exchange'_word k mask ltac:(done) ltac:(done) X Y HX HY). destruct (exchange' k mask X Y). unfold words. cbn [fst snd]. tauto.
Qed.

(** The rotations around the exchange of every other bit. *)
Definition ip_turn (p : Z * Z) : Z * Z :=
  let '(X, Y) := p in
  let Y := rotl1 Y in let T := (X ^^ Y) & 0xAAAAAAAA in (rotl1 (X ^^ T), Y ^^ T).
Definition fp_turn (p : Z * Z) : Z * Z :=
  let '(X, Y) := p in
  let X := rotr1 X in let T := (X ^^ Y) & 0xAAAAAAAA in (X ^^ T, rotr1 (Y ^^ T)).

Lemma undoes_turn : undoes fp_turn ip_turn /\ undoes ip_turn fp_turn.
Proof.
  assert (forall x, word x -> word (x & 0xAAAAAAAA)) by (intros; apply word_land; [done | lia]).
  split; intros [X Y] [HX HY]; simpl in *; (split; [split; simpl; auto using rotl1_word, rotr1_word|]).
  - rewrite rotr1_rotl1 by auto using rotl1_word. rewrite lxor_both, !lxor_cancel. by rewrite rotr1_rotl1.
  - rewrite rotl1_rotr1 by auto using rotr1_word. rewrite lxor_both, !lxor_cancel. by rewrite rotl1_rotr1.
Qed.

Lemma undoes_ext f f' g g' : undoes g f -> (forall p, f' p = f p) -> (forall p, g' p = g p) -> undoes g' f'.
Proof. intros H Ef Eg p Hp. rewrite Ef, Eg. by apply H. Qed.

Lemma DES_IP_FP :
  undoes (fun p => DES_FP (fst p) (snd p)) (fun p => DES_IP (fst p) (snd p)) /\
  undoes (fun p => DES_IP (fst p) (snd p)) (fun p => DES_FP (fst p) (snd p)).
Proof.
  destruct undoes_turn as [Hf Hg].
  pose proof (undoes_exchange 4 0x0F0F0F0F ltac:(lia) ltac:(lia) eq_refl) as H4.
  pose proof (undoes_exchange 16 0x0000FFFF ltac:(lia) ltac:(lia) eq_refl) as H16.
  pose proof (undoes_exchange' 2 0x33333333 ltac:(lia) ltac:(lia) eq_refl) as H2.
  pose proof (undoes_exchange' 8 0x00FF00FF ltac:(lia) ltac:(lia) eq_refl) as H8.
  split.
  - refine (undoes_ext _ _ _ _ (undoes_comp _ _ _ _ (undoes_comp _ _ _ _ (undoes_comp _ _ _ _ (undoes_comp _ _ _ _ H4 H16) H2) H8) Hf) _ _).
    + intros [X Y]. unfold DES_IP. simpl. repeat (case_match; simpl). done.
    + intros [X Y]. unfold DES_FP, fp_turn. simpl. repeat (case_match; simpl). done.
  - refine (undoes_ext _ _ _ _ (undoes_comp _ _ _ _ Hg (undoes_comp _ _ _ _ H8 (undoes_comp _ _ _ _ H2 (undoes_comp _ _ _ _ H16 H4)))) _ _).
    + intros [X Y]. unfold DES_FP. simpl. repeat (case_match; simpl). done.
    + intros [X Y]. unfold DES_IP, ip_turn. simpl. repeat (case_match; simpl). done.
Qed.

(** ** Rounds *)

(** What a round adds to [Y]. *)
Definition lookup_or_0 (t : list Z) (i : Z) : Z := default 0 (aget t (i & 0x3F)).
Definition des_f (k1 k2 X : Z) : Z :=
  let T := k1 ^^ X in
  let T' := k2 ^^ (u32 (X << 28) |' (X >> 4)) in
  lookup_or_0 SB8 T ^^ lookup_or_0 SB6 (T >> 8) ^^ lookup_or_0 SB4 (T >> 16) ^^ lookup_or_0 SB2 (T >> 24) ^^
  (lookup_or_0 SB7 T' ^^ lookup_or_0 SB5 (T' >> 8) ^^ lookup_or_0 SB3 (T' >> 16) ^^ lookup_or_0 SB1 (T' >> 24)).

Lemma sbox_lookup t i : length t = 64%nat -> aget t (i & 0x3F) = Some (lookup_or_0 t i).
Proof.
  intros Ht. unfold lookup_or_0. assert (is_Some (aget t (i & 0x3F))) as [v ->]; [|done].
  apply aget_is_Some. change 0x3F with (2 ^ 6 - 1). rewrite Ht, land_low by lia. apply Z.mod_pos_bound. lia.
Qed.

Lemma DES_ROUND_f k1 k2 X Y : DES_ROUND k1 k2 X Y = Some (Y ^^ des_f k1 k2 X).
Proof. unfold DES_ROUND. rewrite !sbox_lookup by reflexivity. unfold des_f. by rewrite !Z.lxor_assoc. Qed.

Definition sbox_ok (t : list Z) : bool := forallb (fun v => (0 <=? v) && (v <? 2 ^ 32)) t.

Lemma sbox_word t i : sbox_ok t = true -> word (lookup_or_0 t i).
Proof.
  intros Ht. unfold lookup_or_0. destruct (aget t _) as [v|] eqn:E; simpl; [|unfold word; lia].
  apply aget_Some in E as [_ E%list_elem_of_lookup_2]. unfold sbox_ok in Ht. rewrite forallb_forall in Ht.
  specialize (Ht v). rewrite <- list_elem_of_In in Ht. specialize (Ht E). unfold word. blia.
Qed.

Lemma des_f_word k1 k2 X : word (des_f k1 k2 X).
Proof. unfold des_f. repeat apply word_lxor; by apply sbox_word. Qed.

(** The rounds of a list of pairs of subkeys, all in one direction. *)
Fixpoint feistel (ks : list (Z * Z)) (X Y : Z) : Z * Z :=
  match ks with
  | [] => (X, Y)
  | (k1, k2) :: ks => feistel ks Y (X ^^ des_f k1 k2 Y)
  end.

Lemma feistel_app ks ks' X Y : feistel (ks ++ ks') X Y = feistel ks' (fst (feistel ks X Y)) (snd (feistel ks X Y)).
Proof. revert X Y. induction ks as [|[k1 k2] ks IH]; intros X Y; simpl; [done | apply IH]. Qed.

Lemma feistel_words ks X Y : word X -> word Y -> words (feistel ks X Y).
Proof. revert X Y. induction ks as [|[k1 k2] ks IH]; intros X Y HX HY; simpl; [done|]. apply IH; auto using des_f_word. Qed.

(** Running the rounds backwards on the exchanged halves gives the halves back, exchanged. *)
Lemma feistel_rev ks X Y : let '(X', Y') := feistel ks X Y in feistel (reverse ks) Y' X' = (Y, X).
Proof.
  revert X Y. induction ks as [|[k1 k2] ks IH]; intros X Y; simpl; [done|].
  specialize (IH Y (X ^^ des_f k1 k2 Y)). destruct (feistel ks _ _) as [X' Y'].
  rewrite reverse_cons, feistel_app, IH. simpl. by rewrite lxor_cancel.
Qed.

Fixpoint key_pairs (SK : list Z) : list (Z * Z) :=
  match SK with k1 :: k2 :: SK => (k1, k2) :: key_pairs SK | _ => [] end.

Lemma des_rounds_feistel n SK X Y : length SK = (4 * n)%nat -> des_rounds SK X Y = Some (feistel (key_pairs SK) X Y).
Proof.
  revert SK X Y. induction n as [|n IH]; intros SK X Y Hl.
  - destruct SK; [done | simpl in Hl; lia].
  - destruct SK as [|k1 [|k2 [|k3 [|k4 SK]]]]; simpl in Hl; try lia. simpl. rewrite !DES_ROUND_f, IH by lia. done.
Qed.

(** ** Blocks *)

Lemma be_value b0 b1 b2 b3 : byte b0 -> byte b1 -> byte b2 -> byte b3 ->
  u32 (b0 << 24) |' u32 (b1 << 16) |' u32 (b2 << 8) |' b3 = b3 + (b2 + (b1 + b0 * 2 ^ 8) * 2 ^ 8) * 2 ^ 8.
Proof.
  unfold byte. intros. rewrite !Z.shiftl_mul_pow2 by lia. rewrite !u32_small by zlia.
  rewrite Z.lor_comm, (Z.lor_comm _ (b2 * _)), (Z.lor_comm _ (b1 * _)).
  replace (b0 * 2 ^ 24) with (b0 * 2 ^ 8 * 2 ^ 16) by zlia. rewrite (lor_fields_up b1 b0 8 16) by zlia.
  replace ((b1 + b0 * 2 ^ 8) * 2 ^ 16) with ((b1 + b0 * 2 ^ 8) * 2 ^ 8 * 2 ^ 8) by zlia.
  rewrite (lor_fields_up b2 _ 8 8) by zlia. by apply lor_fields.
Qed.

Lemma PUT_value b0 b1 b2 b3 : byte b0 -> byte b1 -> byte b2 -> byte b3 ->
  PUT_UINT32 (b3 + (b2 + (b1 + b0 * 2 ^ 8) * 2 ^ 8) * 2 ^ 8) = [b0; b1; b2; b3].
Proof.
  unfold byte, PUT_UINT32, u8. intros. rewrite !Z.shiftr_div_pow2 by lia. zpow.
  f_equal; [|f_equal; [|f_equal; [|f_equal]]]; Z.div_mod_to_equations; lia.
Qed.

Lemma GET_PUT w l : word w -> GET_UINT32 (PUT_UINT32 w ++ l) 0 = Some w.
Proof.
  intros Hw. unfold GET_UINT32, PUT_UINT32. simpl.
  rewrite be_value by apply u8_range. f_equal. unfold u8, word in *. rewrite !Z.shiftr_div_pow2 by lia. zpow. Z.div_mod_to_equations. lia.
Qed.

Definition block8 (l : list Z) : Prop := length l = 8%nat /\ Forall byte l.

(** A block of bytes as two words. *)
Lemma GET_block l : block8 l -> exists X Y, GET_UINT32 l 0 = Some X /\ GET_UINT32 l 4 = Some Y /\ word X /\ word Y /\
  l = PUT_UINT32 X ++ PUT_UINT32 Y.
Proof.
  intros [Hl Hb]. do 8 (destruct l as [|? l]; [done|]). destruct l; [|done]. rewrite !Forall_cons in Hb. destruct_and! Hb.
  eexists _, _. do 2 (split; [unfold GET_UINT32; simpl; by rewrite be_value|]).
  split_and!; [unfold word, byte in *; zlia.. | by rewrite !PUT_value].
Qed.

Lemma PUT_block X Y : block8 (PUT_UINT32 X ++ PUT_UINT32 Y).
Proof. split; [done|]. unfold PUT_UINT32. repeat constructor; apply u8_range. Qed.

Lemma GET_PUT2 X Y : word Y -> GET_UINT32 (PUT_UINT32 X ++ PUT_UINT32 Y) 4 = Some Y.
Proof. intros HY. rewrite <- (GET_PUT Y [] HY). done. Qed.

(** [SK'] has the pairs of subkeys of [SK] in the opposite order. *)
Definition reversed_keys (SK SK' : list Z) : Prop :=
  length SK = 32%nat /\ length SK' = 32%nat /\ key_pairs SK' = reverse (key_pairs SK).

Lemma des_crypt_total SK l : length SK = 32%nat -> block8 l -> exists c, des_crypt SK l = Some c /\ block8 c.
Proof.
  intros HSK (X & Y & HX & HY & _)%GET_block. unfold des_crypt. rewrite HX, HY.
  destruct (DES_IP X Y) as [A B]. rewrite (des_rounds_feistel 8) by done.
  destruct (feistel (key_pairs SK) A B) as [A' B']. destruct (DES_FP B' A').
  eexists. split; [done | apply PUT_block].
Qed.

Lemma des_crypt_inverse SK SK' l c : reversed_keys SK SK' -> block8 l ->
  des_crypt SK l = Some c -> des_crypt SK' c = Some l.
Proof.
  intros (H1 & H2 & Hr) (X & Y & HX & HY & WX & WY & ->)%GET_block. unfold des_crypt. rewrite HX, HY.
  destruct DES_IP_FP as [HIF HFI]. destruct (HIF (X, Y) ltac:(done)) as [[Wa Wb] E]. cbn [fst snd] in *.
  destruct (DES_IP X Y) as [A B]. cbn [fst snd] in *. rewrite (des_rounds_feistel 8) by done.
  pose proof (feistel_rev (key_pairs SK) A B) as Hf. destruct (feistel_words (key_pairs SK) A B Wa Wb) as [WA WB].
  destruct (feistel (key_pairs SK) A B) as [A' B']. cbn [fst snd] in *.
  destruct (HFI (B', A') ltac:(done)) as [[Wc Wd] E']. cbn [fst snd] in *. destruct (DES_FP B' A') as [C D]. cbn [fst snd] in *.
  intros <-%(inj Some). rewrite GET_PUT, GET_PUT2 by done. rewrite E'. rewrite (des_rounds_feistel 8) by done.
  rewrite Hr, Hf, E. done.
Qed.

(** ** Keys *)

Lemma spreads_total t X sl : length t = 16%nat -> is_Some (spreads t X sl).
Proof.
  intros Ht. unfold spreads. assert (is_Some (mapM (fun '(s, l) => spread t X s l) sl)) as [vs ->]; [|eauto].
  apply mapM_is_Some, Forall_forall. intros [s l] _. change (is_Some (spread t X s l)). unfold spread.
  assert (is_Some (aget t ((X >> s) & 0xF))) as [v ->]; [|eauto].
  apply aget_is_Some. change 0xF with (2 ^ 4 - 1). rewrite Ht, land_low by lia. apply Z.mod_pos_bound. lia.
Qed.

Lemma des_subkeys_length n i X Y : length (des_subkeys n i X Y) = (2 * n)%nat.
Proof. revert i X Y. induction n as [|n IH]; intros; [done|]. cbn [des_subkeys length]. rewrite IH. lia. Qed.

Lemma GET_total l i : 0 <= i -> i + 3 < Z.of_nat (length l) -> is_Some (GET_UINT32 l i).
Proof.
  intros. unfold GET_UINT32.
  do 4 (match goal with |- context [aget l ?j] => destruct (aget_is_Some l j ltac:(lia)) as [? ->] end). eauto.
Qed.

Lemma des_key_total key : length key = 8%nat -> exists SK, des_key key = Ok SK /\ length SK = 32%nat.
Proof.
  intros Hk. unfold des_key, des_main_ks. rewrite Hk. cbn [Z.of_nat Z.eqb Pos.of_succ_nat negb Pos.succ Pos.eqb].
  destruct (GET_total key 0 ltac:(lia) ltac:(lia)) as [X ->]. destruct (GET_total key 4 ltac:(lia) ltac:(lia)) as [Y ->].
  unfold des_pc1. destruct (exchange 4 0x0F0F0F0F Y X) as [Y' X'].
  match goal with |- context [spreads LHs ?a ?b] => destruct (spreads_total LHs a b eq_refl) as [? ->] end.
  match goal with |- context [spreads RHs ?a ?b] => destruct (spreads_total RHs a b eq_refl) as [? ->] end.
  eexists. split; [reflexivity|]. apply des_subkeys_length.
Qed.

Lemma reverse_ks_spec ESK : length ESK = 32%nat -> exists SK, reverse_ks ESK = Some SK /\ reversed_keys ESK SK.
Proof.
  intros Hl. do 32 (destruct ESK as [|? ESK]; [done|]). destruct ESK; [|done].
  eexists. split; [vm_compute; reflexivity|]. repeat split.
Qed.

Lemma reversed_keys_sym SK SK' : reversed_keys SK SK' -> reversed_keys SK' SK.
Proof. intros (? & ? & E). split_and!; [done..|]. by rewrite E, reverse_involutive. Qed.

(** ** Strings of blocks *)

(** The result for the first [n] blocks of a text. *)
Fixpoint ecb (SK : list Z) (n : nat) (text : list Z) : list Z :=
  match n with
  | O => []
  | S n => default [] (des_crypt SK (take 8 text)) ++ ecb SK n (drop 8 text)
  end.

Definition blocks8 (n : nat) (l : list Z) : Prop := length l = (8 * n)%nat /\ Forall byte l.

Lemma blocks8_cons n l : blocks8 (S n) l -> block8 (take 8 l) /\ blocks8 n (drop 8 l).
Proof.
  intros [Hl Hb]. split; split; [rewrite length_take; lia | by apply Forall_take | rewrite length_drop; lia | by apply Forall_drop].
Qed.

Lemma ecb_blocks SK n l : length SK = 32%nat -> (8 * n <= length l)%nat -> Forall byte l -> blocks8 n (ecb SK n l).
Proof.
  intros HSK. revert l. induction n as [|n IH]; intros l Hl Hb; [done|].
  assert (block8 (take 8 l)) as Hb8 by (split; [rewrite length_take; lia | by apply Forall_take]).
  destruct (des_crypt_total SK _ HSK Hb8) as (c & E & Hc & Hcb).
  destruct (IH (drop 8 l)) as [Hn Hnb]; [rewrite length_drop; lia | by apply Forall_drop|].
  simpl. rewrite E. split; simpl; [rewrite length_app; lia | by apply Forall_app].
Qed.

Lemma ecb_inverse SK SK' n l : reversed_keys SK SK' -> blocks8 n l -> ecb SK' n (ecb SK n l) = l.
Proof.
  intros Hr. revert l. induction n as [|n IH]; intros l Hl; [by destruct l; destruct Hl|].
  apply blocks8_cons in Hl as [Hb Hl]. destruct (des_crypt_total SK _ (proj1 Hr) Hb) as (c & E & Hc & Hcb).
  simpl. rewrite E. simpl. rewrite take_app_length', drop_app_length' by done.
  rewrite (des_crypt_inverse _ _ _ _ Hr Hb E), IH by done. simpl. apply take_drop.
Qed.

Lemma ecb_snoc SK n l : ecb SK (S n) l = ecb SK n l ++ default [] (des_crypt SK (take 8 (drop (8 * n) l))).
Proof.
  revert l. induction n as [|n IH]; intros l.
  - simpl. by rewrite app_nil_r, drop_0.
  - change (ecb SK (S (S n)) l) with (default [] (des_crypt SK (take 8 l)) ++ ecb SK (S n) (drop 8 l)).
    rewrite IH, drop_drop. simpl. rewrite <- app_assoc. repeat f_equal. lia.
Qed.

Lemma ecb_app SK n l l' : (8 * n <= length l)%nat -> ecb SK n (l ++ l') = ecb SK n l.
Proof.
  revert l. induction n as [|n IH]; intros l Hl; [done|]. cbn [ecb]. rewrite take_app_le, drop_app_le by lia.
  rewrite IH; [done | rewrite length_drop; lia].
Qed.

Lemma memcpy_at_end (a buf c : list Z) k : length a = k -> (k + length c <= length buf)%nat ->
  memcpy_at (a ++ drop k buf) (Z.of_nat k) c = Some ((a ++ c) ++ drop (k + length c) buf).
Proof.
  intros Ha Hc. unfold memcpy_at.
  assert ((0 <=? Z.of_nat k) && (Z.of_nat k + Z.of_nat (length c) <=? Z.of_nat (length (a ++ drop k buf))) = true) as ->.
  { rewrite length_app, length_drop. apply andb_true_iff. rewrite !Z.leb_le. lia. }
  rewrite Nat2Z.id, take_app_length' by done. rewrite <- app_assoc. do 3 f_equal.
  rewrite drop_app_ge by lia. rewrite drop_drop. f_equal. lia.
Qed.

Section Strings.
Context (SK text : list Z) (HSK : length SK = 32%nat) (Hb : Forall byte text) (Hmax : Z.of_nat (length text) + 8 <= INT_MAX).

Lemma block_at k : (8 * S k <= length text)%nat -> exists c,
  memcpy text (8 * Z.of_nat k) 8 = Some (take 8 (drop (8 * k) text)) /\
  des_crypt SK (take 8 (drop (8 * k) text)) = Some c /\ length c = 8%nat.
Proof.
  intros Hk. rewrite memcpy_Some by lia. replace (Z.to_nat (8 * Z.of_nat k)) with (8 * k)%nat by lia.
  destruct (des_crypt_total SK (take 8 (drop (8 * k) text))) as (c & Ec & Hc & _); [done| |eauto].
  split; [rewrite length_take, length_drop; lia | by apply Forall_take, Forall_drop].
Qed.

(** The loop of both functions. *)
Lemma crypt_loop lim buf n : (8 * n <= length text)%nat -> (8 * n <= length buf)%nat ->
  (forall k, (k <= n)%nat -> (8 * Z.of_nat k <? lim) = (k <? n)%nat) ->
  while (length text) (fun '(i, _) => i <? lim) (crypt_body SK text) (0, buf) =
    Ok (8 * Z.of_nat n, ecb SK n text ++ drop (8 * n) buf).
Proof.
  intros Hn Hbuf Hlim.
  destruct (while_inv (fun '(i, _) => i <? lim) (crypt_body SK text)
    (fun '(i, b) => exists k, (k <= n)%nat /\ i = 8 * Z.of_nat k /\ b = ecb SK k text ++ drop (8 * k) buf)
    (fun '(i, _) => (n - Z.to_nat (i / 8))%nat) (length text) (0, buf)) as ([i b] & -> & (k & Hk & -> & ->) & Hg).
  - exists 0%nat. split_and!; [lia | done | by rewrite drop_0].
  - simpl. lia.
  - intros [i b] (k & Hk & -> & ->) Hg. rewrite Hlim in Hg by done. apply Nat.ltb_lt in Hg.
    destruct (block_at k ltac:(lia)) as (c & Hm & Hc & Hlc). unfold crypt_body. rewrite Hm. cbn [lift]. rewrite Hc. cbn [lift].
    replace (8 * Z.of_nat k) with (Z.of_nat (8 * k)) by lia.
    rewrite memcpy_at_end by (rewrite ?(proj1 (ecb_blocks SK k text HSK ltac:(lia) Hb)); lia). cbn [lift].
    rewrite int_Ok by (unfold INT_MAX in *; lia). eexists. split; [done|]. split.
    + exists (S k). split_and!; [lia | lia|]. rewrite ecb_snoc, Hc. cbn [default]. f_equal. f_equal. lia.
    + replace ((Z.of_nat (8 * k) + 8) / 8) with (Z.of_nat (S k)) by (Z.div_mod_to_equations; lia).
      replace (Z.of_nat (8 * k) / 8) with (Z.of_nat k) by (Z.div_mod_to_equations; lia). lia.
  - rewrite Hlim in Hg by done. apply Nat.ltb_ge in Hg. by replace k with n by lia.
Qed.
End Strings.

(** ** Padding *)

Definition des_pad (text : list Z) : list Z := text ++ 0x80 :: replicate (7 - length text mod 8) 0.

Lemma des_pad_blocks text : Forall byte text -> blocks8 (S (length text / 8)) (des_pad text).
Proof.
  intros Hb. unfold des_pad. split.
  - rewrite length_app. cbn [length]. rewrite length_replicate. pose proof (Nat.div_mod_eq (length text) 8).
    pose proof (Nat.mod_upper_bound (length text) 8). lia.
  - apply Forall_app. split; [done|]. constructor; [unfold byte; lia|]. apply Forall_replicate. unfold byte. lia.
Qed.

Lemma des_tail_pad text n : n = (length text / 8)%nat ->
  des_tail text (8 * Z.of_nat n) (Z.of_nat (length text) - 8 * Z.of_nat n) = Some (drop (8 * n) (des_pad text)).
Proof.
  intros ->. set (n := (length text / 8)%nat). pose proof (Nat.div_mod_eq (length text) 8) as Hd. fold n in Hd.
  pose proof (Nat.mod_upper_bound (length text) 8 ltac:(lia)) as Hr. set (r := (length text mod 8)%nat) in *.
  unfold des_tail, des_pad. fold r. rewrite drop_app_le by lia.
  set (f := fun j => if j <? _ then _ else _). assert (length (drop (8 * n) text) = r) as Hlt by (rewrite length_drop; lia).
  assert (forall j, 0 <= j < 8 -> f j = aget (drop (8 * n) text ++ 0x80 :: replicate (7 - r) 0) j) as Hf.
  { intros j Hj. unfold f. destruct (Z.ltb_spec j (Z.of_nat (length text) - 8 * Z.of_nat n)).
    - rewrite aget_app_l by lia. unfold aget. destruct (Z.leb_spec 0 j), (Z.leb_spec 0 (8 * Z.of_nat n + j)); try lia.
      rewrite lookup_drop. f_equal. lia.
    - rewrite aget_app_r by lia. rewrite Hlt. destruct (Z.eqb_spec j (Z.of_nat (length text) - 8 * Z.of_nat n)) as [->|].
      + by replace (Z.of_nat (length text) - 8 * Z.of_nat n - Z.of_nat r) with 0 by lia.
      + symmetry. apply aget_Some. split; [lia|]. rewrite lookup_cons_ne_0 by lia. apply lookup_replicate. split; [done | lia]. }
  destruct (mapM_seqZ f 8) as (l & -> & Hl & Hg).
  - intros j Hj. rewrite Hf by done. apply aget_is_Some. rewrite length_app. cbn [length]. rewrite length_replicate. lia.
  - f_equal. apply aget_ext.
    + rewrite Hl, length_app. cbn [length]. rewrite length_replicate. lia.
    + intros i Hi. rewrite Hl in Hi. rewrite Hg, Hf by lia. done.
Qed.

Lemma chunk_size n : 0 <= n -> (n + 8) & Z.lnot 7 = 8 * (n / 8 + 1).
Proof.
  intros. rewrite <- Z.ldiff_land. change 7 with (Z.ones 3). rewrite Z.ldiff_ones_r, Z.shiftl_mul_pow2, Z.shiftr_div_pow2 by lia.
  change (2 ^ 3) with 8. Z.div_mod_to_equations. lia.
Qed.

Lemma buffer_for_length n : 0 <= n -> n <= Z.of_nat (length (buffer_for (SMALL_CHUNK <? n) n)).
Proof. intros. unfold buffer_for, malloc. rewrite length_replicate. destruct (Z.ltb_spec SMALL_CHUNK n); lia. Qed.

(** What [ldesencode] returns. *)
Lemma ldesencode_ecb key text SK : des_key key = Ok SK -> length SK = 32%nat ->
  Forall byte text -> Z.of_nat (length text) + 8 <= INT_MAX ->
  ldesencode key text = Ok (ecb SK (S (length text / 8)) (des_pad text)).
Proof.
  intros Hkey HSK Hb Hmax. unfold ldesencode. rewrite Hkey, chunk_size by lia.
  set (n := (length text / 8)%nat). set (len := Z.of_nat (length text)) in *.
  assert (len / 8 = Z.of_nat n) as Hdiv by (unfold len, n; by rewrite Nat2Z.inj_div).
  rewrite Hdiv. pose proof (buffer_for_length (8 * (Z.of_nat n + 1)) ltac:(lia)) as Hbuf. set (buf := buffer_for _ _) in *.
  assert (8 * Z.of_nat n <= len < 8 * Z.of_nat n + 8) as Hn by (Z.div_mod_to_equations; lia).
  rewrite i32_small by (unfold INT_MAX in *; lia).
  rewrite (crypt_loop SK text HSK Hb Hmax (len - 7) buf n) by first
    [lia | intros k Hk; destruct (Z.ltb_spec (8 * Z.of_nat k) (len - 7)), (Nat.ltb_spec k n); done || lia].
  rewrite i32_small by (unfold INT_MAX in *; lia). pose proof (des_tail_pad text n eq_refl) as Ht.
  fold len in Ht. rewrite Ht. cbn [lift].
  destruct (des_pad_blocks text Hb) as [Hpl Hpb]. fold n in Hpl.
  destruct (des_crypt_total SK (drop (8 * n) (des_pad text))) as (c & Hc & Hlc & _); [done| |].
  { split; [rewrite length_drop; lia | by apply Forall_drop]. }
  rewrite Hc. cbn [lift]. replace (8 * Z.of_nat n) with (Z.of_nat (8 * n)) by lia.
  destruct (ecb_blocks SK n text HSK ltac:(lia) Hb) as [Hel _].
  rewrite memcpy_at_end by lia. cbn [lift]. unfold pushlstring.
  rewrite memcpy_Some by (rewrite ?length_app, ?length_drop; lia). cbn [lift]. f_equal.
  rewrite drop_0, take_app_length' by (rewrite length_app; lia).
  rewrite ecb_snoc, (take_ge (drop _ _)), Hc by (rewrite length_drop; lia). f_equal.
  symmetry. apply ecb_app. lia.
Qed.

(** What [ldesdecode] does with whole blocks: the padding of the decrypted text is checked. *)
Lemma ldesdecode_ecb key text ESK SK n : des_key key = Ok ESK -> reverse_ks ESK = Some SK -> length SK = 32%nat ->
  blocks8 (S n) text -> Z.of_nat (length text) + 8 <= INT_MAX ->
  exists rest, let buffer := ecb SK (S n) text ++ rest in
  ldesdecode key text =
    let* (_, padding, _) :=
      while 9 (fun '(i, _, stop) => negb stop && (8 * Z.of_nat n <=? u64 i)) (padding_body buffer) (8 * Z.of_nat n + 7, 1, false) in
    if 8 <? padding then Raise (Text "Invalid des crypt text") else pushlstring buffer (8 * Z.of_nat n + 8 - padding).
Proof.
  intros Hkey Hrev HSK [Hl Hb] Hmax. unfold ldesdecode. rewrite Hkey, Hrev, Hl. cbn [lift].
  replace (Z.of_nat (8 * S n)) with (8 * Z.of_nat n + 8) by lia. set (len := 8 * Z.of_nat n + 8).
  assert (negb (len & 7 =? 0) || (len =? 0) = false) as ->.
  { change 7 with (2 ^ 3 - 1). rewrite land_low by lia. replace len with ((Z.of_nat n + 1) * 2 ^ 3) by (unfold len; lia).
    rewrite Z.mod_mul by lia. simpl. apply Z.eqb_neq. lia. }
  pose proof (buffer_for_length len ltac:(unfold len; lia)) as Hbuf. set (buf := buffer_for _ _) in *.
  rewrite <- Hl, (crypt_loop SK text HSK Hb Hmax len buf (S n)).
  2: lia. 2: unfold len in Hbuf; lia.
  2: { intros k Hk. unfold len. destruct (Z.ltb_spec (8 * Z.of_nat k) (8 * Z.of_nat n + 8)), (Nat.ltb_spec k (S n)); done || lia. }
  exists (drop (8 * S n) buf). cbv zeta. replace (len - 1) with (8 * Z.of_nat n + 7) by (unfold len; lia).
  by replace (len - 8) with (8 * Z.of_nat n) by (unfold len; lia).
Qed.

(** The padding is found behind the text. *)
Lemma padding_found text rest n : n = (length text / 8)%nat -> Z.of_nat (length text) + 8 <= INT_MAX ->
  exists i stop, while 9 (fun '(i, _, stop) => negb stop && (8 * Z.of_nat n <=? u64 i))
    (padding_body (des_pad text ++ rest)) (8 * Z.of_nat n + 7, 1, false) = Ok (i, 8 * Z.of_nat n + 8 - Z.of_nat (length text), stop).
Proof.
  intros Hn Hmax. pose proof (Nat.div_mod_eq (length text) 8) as Hd. pose proof (Nat.mod_upper_bound (length text) 8 ltac:(lia)) as Hr.
  rewrite <- Hn in Hd. set (len := Z.of_nat (length text)) in *. unfold INT_MAX in Hmax.
  destruct (while_inv (fun '(i, _, stop) => negb stop && (8 * Z.of_nat n <=? u64 i)) (padding_body (des_pad text ++ rest))
    (fun '(i, padding, stop) => len <= i <= 8 * Z.of_nat n + 7 /\ padding = 8 * Z.of_nat n + 8 - i /\ (stop = true -> i = len))
    (fun '(i, _, stop) => if stop : bool then 0%nat else S (Z.to_nat (i - len)))
    9 (8 * Z.of_nat n + 7, 1, false)) as ([[i p] stop] & -> & (Hi & -> & Hs) & Hg).
  - split_and!; [lia.. | done].
  - simpl. lia.
  - intros [[i p] stop] (Hi & -> & Hs) Hg. apply andb_true_iff in Hg as [Hg _]. destruct stop; [done|].
    unfold padding_body, des_pad. rewrite <- app_assoc. destruct (Z.eq_dec i len) as [->|].
    + unfold len at 1. rewrite <- app_comm_cons, aget_mid. simpl. eexists. split; [done|]. split_and!; [lia.. | done | lia].
    + rewrite aget_app_r by lia. fold len. rewrite aget_app_l by (cbn [length]; rewrite length_replicate; lia).
      assert (aget (0x80 :: replicate (7 - length text mod 8) 0) (i - len) = Some 0) as ->.
      { apply aget_Some. split; [lia|]. rewrite lookup_cons_ne_0 by lia. apply lookup_replicate. split; [done | lia]. }
      simpl. eexists. split; [done|]. split_and!; [lia.. | done | lia].
  - destruct stop; [rewrite Hs by done; eauto|]. apply andb_false_iff in Hg as [|Hg]; [done|].
    rewrite u64_small in Hg by lia. blia.
Qed.

(** C39: [ldesencode] never fails on a key of 8 bytes; its result has a whole number of blocks, one more than the text fills,
    and [ldesdecode] with the same key gives the text back. *)
Theorem des_roundtrip key text : length key = 8%nat -> Forall byte text -> Z.of_nat (length text) + 16 <= INT_MAX ->
  exists c, ldesencode key text = Ok c /\ length c = (8 * (length text / 8 + 1))%nat /\ Forall byte c /\
    ldesdecode key c = Ok text.
Proof.
  intros Hk Hb Hmax. destruct (des_key_total key Hk) as (SK & HSK & Hl). destruct (reverse_ks_spec SK Hl) as (SK' & HSK' & Hr).
  pose proof (des_pad_blocks text Hb) as Hp. set (n := (length text / 8)%nat) in *.
  destruct (ecb_blocks SK (S n) (des_pad text) Hl) as [Hel Heb]; [destruct Hp; lia | by destruct Hp|].
  exists (ecb SK (S n) (des_pad text)). split; [apply ldesencode_ecb; [done..|lia]|]. split; [lia|]. split; [done|].
  pose proof (Nat.div_mod_eq (length text) 8) as Hd. fold n in Hd.
  destruct (ldesdecode_ecb key (ecb SK (S n) (des_pad text)) SK SK' n HSK HSK') as (rest & ->);
    [apply Hr | done | rewrite Hel; unfold INT_MAX in *; lia|].
  rewrite (ecb_inverse SK SK' (S n) (des_pad text) Hr Hp).
  destruct (padding_found text rest n eq_refl ltac:(lia)) as (i & stop & ->).
  destruct (Z.ltb_spec 8 (8 * Z.of_nat n + 8 - Z.of_nat (length text))); [lia|].
  replace (8 * Z.of_nat n + 8 - (8 * Z.of_nat n + 8 - Z.of_nat (length text))) with (Z.of_nat (length text)) by lia.
  unfold pushlstring, des_pad. rewrite memcpy_Some by (rewrite ?length_app; lia). cbn [lift].
  rewrite Nat2Z.id, drop_0, <- app_assoc, take_app_length. done.
Qed.

Lemma des_roundtrip_witness : exists c, ldesencode (str "01234567") (str "attack at dawn") = Ok c /\
  length c = 16%nat /\ Forall byte c /\ ldesdecode (str "01234567") c = Ok (str "attack at dawn").
Proof.
  apply (des_roundtrip (str "01234567") (str "attack at dawn")).
  - reflexivity.
  - apply Forall_forall. intros b Hb. vm_compute in Hb. repeat (apply elem_of_cons in Hb as [->|Hb]; [unfold byte; lia|]). by apply elem_of_nil in Hb.
  - vm_compute. discriminate.
Defined.

(** For every key there is an encrypted text of one block on which [ldesdecode] reads before the start of its buffer: the block that
    decrypts to zeros.  The loop over the padding compares its [int] index with the unsigned 0, so it does not stop at the start. *)
Theorem des_zero_block key : length key = 8%nat ->
  exists c, length c = 8%nat /\ Forall byte c /\ ldesdecode key c = Stuck.
Proof.
  intros Hk. destruct (des_key_total key Hk) as (SK & HSK & Hl). destruct (reverse_ks_spec SK Hl) as (SK' & HSK' & Hr).
  assert (blocks8 1 (replicate 8 0)) as Hz by (split; [done | by repeat constructor]).
  destruct (ecb_blocks SK 1 (replicate 8 0) Hl) as [Hel Heb]; [done | apply Hz|].
  exists (ecb SK 1 (replicate 8 0)). split_and!; [done..|].
  destruct (ldesdecode_ecb key _ SK SK' 0 HSK HSK' (proj1 (proj2 Hr)) (conj Hel Heb)) as (rest & ->); [rewrite Hel; by vm_compute|].
  rewrite (ecb_inverse SK SK' 1 _ Hr Hz). reflexivity.
Qed.

Lemma des_zero_block_witness : exists c, length c = 8%nat /\ Forall byte c /\ ldesdecode (str "01234567") c = Stuck.
Proof. exact (des_zero_block (str "01234567") eq_refl). Defined.
