(* ===== verification/Sha1.v ===== *)
(** * SHA-1 and its message authentication code ([lualib-src/lsha1.c])

    The hash works on a context that is fed pieces of the message.  Words have 32 bits, the host is
    little-endian.  A read or write outside an array gives [None]. *)

From S2P Require Import Prelude CString LuaError Crypt.

Record SHA1_CTX := MkCtx {
  sha_state : list Z;
  count0 : Z;
  count1 : Z;
  sha_buffer : list Z;
}.

Definition SHA1_DIGEST_SIZE : Z := 20.

Definition rol (value bits : Z) : Z := Z.lor (u32 (Z.shiftl value bits)) (Z.shiftr value (32 - bits)).

(** [block] is [block.l]; the macros assign a cell and have its value. *)
Definition blk0 (i : Z) (block : list Z) : option (Z * list Z) :=
  let! l := aget block i in
  let v := Z.lor (Z.land (rol l 24) 0xFF00FF00) (Z.land (rol l 8) 0x00FF00FF) in
  let! block := aset block i v in
  Some (v, block).

Definition blk (i : Z) (block : list Z) : option (Z * list Z) :=
  let! l13 := aget block (Z.land (i + 13) 15) in
  let! l8 := aget block (Z.land (i + 8) 15) in
  let! l2 := aget block (Z.land (i + 2) 15) in
  let! l0 := aget block (Z.land i 15) in
  let v := rol (Z.lxor (Z.lxor (Z.lxor l13 l8) l2) l0) 1 in
  let! block := aset block (Z.land i 15) v in
  Some (v, block).

(** The working variables in the order of the macro's parameters [v], [w], [x], [y], [z]; the next macro call has
    [z] in front. *)
Definition work : Type := Z * Z * Z * Z * Z.

(** [z += f + b + k + rol(v,5); w = rol(w,30);] *)
Definition R_assign (f b k : Z) (s : work) : work :=
  let '(v, w, x, y, z) := s in
  (u32 (z + (f + b + k + rol v 5)), v, rol w 30, x, y).

Definition R0 (i : Z) (s : work * list Z) : option (work * list Z) :=
  let '(v, w, x, y, z, block) := s in
  let! (b, block) := blk0 i block in
  Some (R_assign (Z.lxor (Z.land w (Z.lxor x y)) y) b 0x5A827999 (v, w, x, y, z), block).

Definition R1 (i : Z) (s : work * list Z) : option (work * list Z) :=
  let '(v, w, x, y, z, block) := s in
  let! (b, block) := blk i block in
  Some (R_assign (Z.lxor (Z.land w (Z.lxor x y)) y) b 0x5A827999 (v, w, x, y, z), block).

Definition R2 (i : Z) (s : work * list Z) : option (work * list Z) :=
  let '(v, w, x, y, z, block) := s in
  let! (b, block) := blk i block in
  Some (R_assign (Z.lxor (Z.lxor w x) y) b 0x6ED9EBA1 (v, w, x, y, z), block).

Definition R3 (i : Z) (s : work * list Z) : option (work * list Z) :=
  let '(v, w, x, y, z, block) := s in
  let! (b, block) := blk i block in
  Some (R_assign (Z.lor (Z.land (Z.lor w x) y) (Z.land w x)) b 0x8F1BBCDC (v, w, x, y, z), block).

Definition R4 (i : Z) (s : work * list Z) : option (work * list Z) :=
  let '(v, w, x, y, z, block) := s in
  let! (b, block) := blk i block in
  Some (R_assign (Z.lxor (Z.lxor w x) y) b 0xCA62C1D6 (v, w, x, y, z), block).

(** The macro call of the unrolled loop with number [i]. *)
Definition R_call (i : Z) : work * list Z -> option (work * list Z) :=
  if i <? 16 then R0 i else if i <? 20 then R1 i else if i <? 40 then R2 i else if i <? 60 then R3 i else R4 i.

(** The words of a buffer of 64 bytes as the host reads them. *)
Definition block_words (buffer : list Z) : option (list Z) := mapM (fun i => le_word buffer (4 * i)) (seqZ 0 16).

Definition SHA1_Transform (state buffer : list Z) : option (list Z) :=
  let! block := block_words buffer in
  match state with
  | [s0; s1; s2; s3; s4] =>
      let! (a, b, c, d, e, _) := for_loop 80 0 R_call ((s0, s1, s2, s3, s4), block) in
      Some [u32 (s0 + a); u32 (s1 + b); u32 (s2 + c); u32 (s3 + d); u32 (s4 + e)]
  | _ => None
  end.

(** The content of [buffer] is not specified, here zeros. *)
Definition sat_SHA1_Init : SHA1_CTX :=
  MkCtx [0x67452301; 0xEFCDAB89; 0x98BADCFE; 0x10325476; 0xC3D2E1F0] 0 0 (malloc 64).

(** The counters after [len] more bytes; [len] is a 64-bit [size_t], the counters have 32 bits. *)
Definition count_add (c0 c1 len : Z) : Z * Z :=
  let bits := u64 (Z.shiftl len 3) in
  let c0 := u32 (c0 + bits) in
  let c1 := if c0 <? bits then u32 (c1 + 1) else c1 in
  (c0, u32 (c1 + Z.shiftr len 29)).

(** The loop over whole blocks of [data] from [i] on: the new state and [i]. *)
Fixpoint update_loop (fuel : nat) (state data : list Z) (i : Z) : option (list Z * Z) :=
  if i + 63 <? Z.of_nat (length data) then
    match fuel with
    | O => None
    | S fuel =>
        let! block := memcpy data i 64 in
        let! state := SHA1_Transform state block in
        update_loop fuel state data (i + 64)
    end
  else Some (state, i).

Definition sat_SHA1_Update (context : SHA1_CTX) (data : list Z) : option SHA1_CTX :=
  let len := Z.of_nat (length data) in
  let j := Z.land (Z.shiftr (count0 context) 3) 63 in
  let '(c0, c1) := count_add (count0 context) (count1 context) len in
  let! (state, buffer, i, j) :=
    if 63 <? j + len then
      let i := 64 - j in
      let! piece := memcpy data 0 i in
      let! buffer := memcpy_at (sha_buffer context) j piece in
      let! state := SHA1_Transform (sha_state context) buffer in
      let! (state, i) := update_loop (length data) state data i in
      Some (state, buffer, i, 0)
    else Some (sha_state context, sha_buffer context, 0, j) in
  let! piece := memcpy data i (len - i) in
  let! buffer := memcpy_at buffer j piece in
  Some (MkCtx state c0 c1 buffer).

(** The padding loop of [sat_SHA1_Final]; a block has 64 bytes. *)
Fixpoint pad_loop (fuel : nat) (context : SHA1_CTX) : option SHA1_CTX :=
  if Z.land (count0 context) 504 =? 448 then Some context
  else match fuel with
    | O => None
    | S fuel => let! context := sat_SHA1_Update context [0] in pad_loop fuel context
    end.

(** Byte [3 - (i & 3)] of a word, counted from the lowest. *)
Definition be_byte (w i : Z) : Z := Z.land (Z.shiftr w ((3 - Z.land i 3) * 8)) 255.

(** The digest; the context is wiped. *)
Definition sat_SHA1_Final (context : SHA1_CTX) : option (list Z) :=
  let finalcount := map (fun i => be_byte (if 4 <=? i then count0 context else count1 context) i) (seqZ 0 8) in
  let! context := sat_SHA1_Update context [128] in
  let! context := pad_loop 64 context in
  let! context := sat_SHA1_Update context finalcount in
  mapM (fun i => let! w := aget (sha_state context) (Z.shiftr i 2) in Some (be_byte w i)) (seqZ 0 SHA1_DIGEST_SIZE).

Definition lsha1 (buffer : list Z) : option (list Z) :=
  let! ctx := sat_SHA1_Update sat_SHA1_Init buffer in
  sat_SHA1_Final ctx.

(** ** Message authentication *)

Definition BLOCKSIZE : Z := 64.

(** The words of [key] are changed in place, each through a [uint32_t] pointer. *)
Definition xor_key (key : list Z) (xor : Z) : option (list Z) :=
  let! words := mapM (fun i => le_word key (4 * i)) (seqZ 0 16) in
  Some (concat (map (fun w => word_bytes (Z.lxor w xor)) words)).

Definition lhmac_sha1 (key text : list Z) : option (list Z) :=
  let rkey := malloc BLOCKSIZE in
  let! rkey :=
    if BLOCKSIZE <? Z.of_nat (length key) then
      let! ctx := sat_SHA1_Update sat_SHA1_Init key in
      let! digest := sat_SHA1_Final ctx in
      memcpy_at rkey 0 digest
    else memcpy_at rkey 0 key in
  let! rkey := xor_key rkey 0x5c5c5c5c in
  let! ctx1 := sat_SHA1_Update sat_SHA1_Init rkey in
  let! rkey := xor_key rkey (Z.lxor 0x5c5c5c5c 0x36363636) in
  let! ctx2 := sat_SHA1_Update sat_SHA1_Init rkey in
  let! ctx2 := sat_SHA1_Update ctx2 text in
  let! digest2 := sat_SHA1_Final ctx2 in
  let! ctx1 := sat_SHA1_Update ctx1 digest2 in
  sat_SHA1_Final ctx1.

(** ** Known results *)

Example sha1_abc : lsha1 (str "abc") =
  Some [0xA9; 0x99; 0x3E; 0x36; 0x47; 0x06; 0x81; 0x6A; 0xBA; 0x3E; 0x25; 0x71; 0x78; 0x50; 0xC2; 0x6C; 0x9C; 0xD0; 0xD8; 0x9D].
Proof. vm_compute. reflexivity. Qed.

Example hmac_sha1_ex : lhmac_sha1 (str "Jefe") (str "what do ya want for nothing?") =
  Some [0xef; 0xfc; 0xdf; 0x6a; 0xe5; 0xeb; 0x2f; 0xa2; 0xd2; 0x74; 0x16; 0xd5; 0xf1; 0x84; 0xdf; 0x9c; 0x25; 0x9a; 0x7c; 0x79].
Proof. vm_compute. reflexivity. Qed.
