(* ===== verification/Sha1Spec.v ===== *)
(** * Correctness of SHA-1

    The reference is the algorithm of FIPS 180-1 on a whole padded message: an 80-word schedule for each block of 64 bytes.  The code keeps
    16 words of the schedule in a ring, renames the working variables instead of moving them, and is fed the message
    in pieces. *)

From S2P Require Import Prelude CString LuaError Crypt CryptSpec DhSpec Sha1.

(** ** Reference *)

Definition be_word (b0 b1 b2 b3 : Z) : Z := Z.lor (Z.lor (Z.lor (Z.shiftl b0 24) (Z.shiftl b1 16)) (Z.shiftl b2 8)) b3.

(** The words of four bytes each. *)
Fixpoint words4 (f : Z -> Z -> Z -> Z -> Z) (l : list Z) : list Z :=
  match l with b0 :: b1 :: b2 :: b3 :: l => f b0 b1 b2 b3 :: words4 f l | _ => [] end.

Definition be_words : list Z -> list Z := words4 be_word.

Definition wt (W : list Z) (t : nat) : Z := default 0 (W !! t).

Definition next_word (W : list Z) (t : nat) : Z :=
  rol (Z.lxor (Z.lxor (Z.lxor (wt W (t - 3)) (wt W (t - 8))) (wt W (t - 14))) (wt W (t - 16))) 1.

(** [n] more words of the schedule. *)
Fixpoint expand (n : nat) (W : list Z) : list Z :=
  match n with O => W | S n => expand n (W ++ [next_word W (length W)]) end.

Definition sha_f (t : nat) (b c d : Z) : Z :=
  if (t <? 20)%nat then Z.lxor (Z.land b c) (Z.land (Z.lnot b) d)
  else if (t <? 40)%nat then Z.lxor (Z.lxor b c) d
  else if (t <? 60)%nat then Z.lxor (Z.lxor (Z.land b c) (Z.land b d)) (Z.land c d)
  else Z.lxor (Z.lxor b c) d.

Definition sha_K (t : nat) : Z :=
  if (t <? 20)%nat then 0x5A827999 else if (t <? 40)%nat then 0x6ED9EBA1 else if (t <? 60)%nat then 0x8F1BBCDC else 0xCA62C1D6.

Definition ref_round (W : list Z) (s : work) (t : nat) : work :=
  let '(a, b, c, d, e) := s in
  (u32 (rol a 5 + sha_f t b c d + e + sha_K t + wt W t), a, rol b 30, c, d).

Definition compress (H block : list Z) : list Z :=
  match H with
  | [h0; h1; h2; h3; h4] =>
      let '(a, b, c, d, e) := foldl (ref_round (expand 64 (be_words block))) (h0, h1, h2, h3, h4) (seq 0 80) in
      [u32 (h0 + a); u32 (h1 + b); u32 (h2 + c); u32 (h3 + d); u32 (h4 + e)]
  | _ => []
  end.

(** The first [n] blocks of a message. *)
Fixpoint hash_blocks (n : nat) (H msg : list Z) : list Z :=
  match n with O => H | S n => hash_blocks n (compress H (take 64 msg)) (drop 64 msg) end.

Definition sha_init : list Z := [0x67452301; 0xEFCDAB89; 0x98BADCFE; 0x10325476; 0xC3D2E1F0].

(** The bytes of a word, highest first. *)
Definition be_bytes (w : Z) : list Z := map (be_byte w) [0; 1; 2; 3].

Definition sha_pad (msg : list Z) : list Z :=
  let bits := 8 * Z.of_nat (length msg) in
  msg ++ [128] ++ replicate (Z.to_nat ((55 - Z.of_nat (length msg)) mod 64)) 0 ++
    be_bytes (u32 (bits / 2 ^ 32)) ++ be_bytes (u32 bits).

Definition sha1_ref (msg : list Z) : list Z :=
  concat (map be_bytes (hash_blocks (length (sha_pad msg) / 64) sha_init (sha_pad msg))).

(** ** The schedule *)

Lemma expand_length n W : length (expand n W) = (length W + n)%nat.
Proof. revert W. induction n as [|n IH]; intros W; simpl; [lia|]. rewrite IH, length_app. simpl. lia. Qed.

Lemma expand_prefix n W t : (t < length W)%nat -> wt (expand n W) t = wt W t.
Proof.
  revert W. induction n as [|n IH]; intros W Ht; simpl; [done|]. rewrite IH by (rewrite length_app; simpl; lia).
  unfold wt. by rewrite lookup_app_l.
Qed.

Lemma next_word_ext W W' t : (16 <= t)%nat -> (forall u, (u < t)%nat -> wt W u = wt W' u) -> next_word W t = next_word W' t.
Proof. intros Ht H. unfold next_word. by rewrite !H by lia. Qed.

Lemma expand_next n W t : (16 <= length W <= t)%nat -> (t < length W + n)%nat ->
  wt (expand n W) t = next_word (expand n W) t.
Proof.
  revert W. induction n as [|n IH]; intros W Hl Ht; simpl; [lia|].
  destruct (decide (t = length W)) as [->|]; [|apply IH; rewrite length_app; simpl; lia].
  rewrite expand_prefix by (rewrite length_app; simpl; lia). unfold wt at 1. rewrite lookup_app_r, Nat.sub_diag by lia. simpl.
  apply next_word_ext; [lia|]. intros u Hu. rewrite expand_prefix by (rewrite length_app; simpl; lia). unfold wt. by rewrite lookup_app_l.
Qed.

(** ** Bits *)

Lemma byte_high b n : byte b -> 8 <= n -> Z.testbit b n = false.
Proof. intros Hb Hn. rewrite <- (Z.mod_small b (2 ^ 8)) by done. apply Z.mod_pow2_bits_high. lia. Qed.

Lemma testbit_rol x k n : (forall m, 32 <= m -> Z.testbit x m = false) -> 0 <= k <= 32 -> 0 <= n < 32 ->
  Z.testbit (rol x k) n = if n <? k then Z.testbit x (n + (32 - k)) else Z.testbit x (n - k).
Proof.
  intros Hx Hk Hn. unfold rol. rewrite Z.lor_spec, testbit_u32, Z.shiftr_spec, Z.shiftl_spec by lia.
  destruct (Z.ltb_spec n 32); [|lia]. destruct (Z.ltb_spec n k); [by rewrite Z.testbit_neg_r by lia|].
  rewrite (Hx (n + _)) by lia. by rewrite orb_false_r.
Qed.

Lemma rol_high x k n : (forall m, 32 <= m -> Z.testbit x m = false) -> 0 <= k <= 32 -> 32 <= n -> Z.testbit (rol x k) n = false.
Proof.
  intros Hx Hk Hn. unfold rol. rewrite Z.lor_spec, testbit_u32, Z.shiftr_spec by lia.
  destruct (Z.ltb_spec n 32); [lia|]. by rewrite Hx by lia.
Qed.

(** Two functions on bit positions agree when they agree on each of the 32. *)
Lemma positions (f g : Z -> bool) n : forallb (fun n => Bool.eqb (f n) (g n)) (seqZ 0 32) = true -> 0 <= n < 32 -> f n = g n.
Proof.
  intros H Hn. rewrite forallb_forall in H. specialize (H n). rewrite <- list_elem_of_In, elem_of_seqZ in H.
  apply Bool.eqb_prop, H. lia.
Qed.

(** Splits on the byte a position is in. *)
Ltac byte_cases n := destruct (Z.ltb_spec n 8); [|destruct (Z.ltb_spec n 16); [|destruct (Z.ltb_spec n 24); [|destruct (Z.ltb_spec n 32)]]].
(** Removes the bits of a byte outside its positions. *)
Ltac byte_bits :=
  repeat match goal with
    | H : byte ?b |- context [Z.testbit ?b ?m] => rewrite (Z.testbit_neg_r b m) by lia
    | H : byte ?b |- context [Z.testbit ?b ?m] => rewrite (byte_high b m H) by lia
    end; rewrite ?orb_false_r, ?orb_false_l.

Lemma le_bits b0 b1 b2 b3 n : byte b0 -> byte b1 -> byte b2 -> byte b3 -> 0 <= n ->
  Z.testbit (u32 (Z.lor (Z.lor (Z.lor b0 (Z.shiftl b1 8)) (Z.shiftl b2 16)) (Z.shiftl b3 24))) n =
    if n <? 8 then Z.testbit b0 n else if n <? 16 then Z.testbit b1 (n - 8) else if n <? 24 then Z.testbit b2 (n - 16)
    else if n <? 32 then Z.testbit b3 (n - 24) else false.
Proof.
  intros H0 H1 H2 H3 Hn. rewrite testbit_u32, !Z.lor_spec, !Z.shiftl_spec by done.
  byte_cases n; (destruct (Z.ltb_spec n 32); [|lia || done]); try lia; simpl; byte_bits; done.
Qed.

Lemma be_bits b0 b1 b2 b3 n : byte b0 -> byte b1 -> byte b2 -> byte b3 -> 0 <= n ->
  Z.testbit (be_word b0 b1 b2 b3) n =
    if n <? 8 then Z.testbit b3 n else if n <? 16 then Z.testbit b2 (n - 8) else if n <? 24 then Z.testbit b1 (n - 16)
    else if n <? 32 then Z.testbit b0 (n - 24) else false.
Proof.
  intros H0 H1 H2 H3 Hn. unfold be_word. rewrite !Z.lor_spec, !Z.shiftl_spec by done. byte_cases n; byte_bits; done.
Qed.

Definition swap (l : Z) : Z := Z.lor (Z.land (rol l 24) 0xFF00FF00) (Z.land (rol l 8) 0x00FF00FF).

Lemma swap_word b0 b1 b2 b3 : byte b0 -> byte b1 -> byte b2 -> byte b3 ->
  swap (u32 (Z.lor (Z.lor (Z.lor b0 (Z.shiftl b1 8)) (Z.shiftl b2 16)) (Z.shiftl b3 24))) = be_word b0 b1 b2 b3.
Proof.
  intros H0 H1 H2 H3. set (l := u32 _). apply Z.bits_inj'. intros n Hn. rewrite be_bits by done.
  assert (forall m, 32 <= m -> Z.testbit l m = false) as Hh by (intros; unfold l; rewrite testbit_u32 by lia; destruct (Z.ltb_spec m 32); done || lia).
  unfold swap. rewrite Z.lor_spec, !Z.land_spec. destruct (Z.lt_ge_cases n 32) as [Hlt|Hge].
  2: { rewrite !rol_high by (done || lia). byte_cases n; done || lia. }
  rewrite !testbit_rol by (done || lia).
  rewrite (positions (Z.testbit 0xFF00FF00) (fun n => if n <? 8 then false else if n <? 16 then true else if n <? 24 then false else true) n) by done.
  rewrite (positions (Z.testbit 0x00FF00FF) (fun n => if n <? 8 then true else if n <? 16 then false else if n <? 24 then true else false) n) by done.
  byte_cases n; try lia; cbn [negb andb orb]; rewrite ?andb_false_r, ?andb_true_r, ?orb_false_r; cbn [orb].
  - destruct (Z.ltb_spec n 8); [|lia]. unfold l. rewrite le_bits by (done || lia). byte_cases (n + (32 - 8)); try lia; f_equal; lia.
  - destruct (Z.ltb_spec n 24); [|lia]. unfold l. rewrite le_bits by (done || lia). byte_cases (n + (32 - 24)); try lia; f_equal; lia.
  - destruct (Z.ltb_spec n 8); [lia|]. unfold l. rewrite le_bits by (done || lia). byte_cases (n - 8); try lia; f_equal; lia.
  - destruct (Z.ltb_spec n 24); [lia|]. unfold l. rewrite le_bits by (done || lia). byte_cases (n - 24); try lia; f_equal; lia.
Qed.

(** ** One block *)

Lemma Ch_eq w x y : Z.lxor (Z.land w (Z.lxor x y)) y = Z.lxor (Z.land w x) (Z.land (Z.lnot w) y).
Proof.
  apply Z.bits_inj'. intros n Hn. rewrite !Z.lxor_spec, !Z.land_spec, Z.lxor_spec, Z.lnot_spec by done.
  by destruct (Z.testbit w n), (Z.testbit x n), (Z.testbit y n).
Qed.

Lemma Maj_eq w x y : Z.lor (Z.land (Z.lor w x) y) (Z.land w x) = Z.lxor (Z.lxor (Z.land w x) (Z.land w y)) (Z.land x y).
Proof.
  apply Z.bits_inj'. intros n Hn. rewrite !Z.lxor_spec, !Z.lor_spec, !Z.land_spec, Z.lor_spec.
  by destruct (Z.testbit w n), (Z.testbit x n), (Z.testbit y n).
Qed.

Section Block.
Context (W raw : list Z).
Context (Hswap : forall t : nat, (t < 16)%nat -> exists l, raw !! t = Some l /\ swap l = wt W t).
Context (Hnext : forall t : nat, (16 <= t < 80)%nat -> wt W t = next_word W t).

(** The ring before call [i] holds the last 16 words of the schedule, or the words still to be read. *)
Definition ring (i : nat) (block : list Z) : Prop :=
  length block = 16%nat /\
  (forall j : nat, (i - 16 <= j < i)%nat -> aget block (Z.of_nat (j mod 16)) = Some (wt W j)) /\
  (forall j : nat, (i <= j < 16)%nat -> block !! j = raw !! j).

Lemma ring_set i block v : ring i block -> v = wt W i -> (i < 80)%nat ->
  exists block', aset block (Z.of_nat (i mod 16)) v = Some block' /\ ring (S i) block'.
Proof.
  intros (Hl & Hd & Hr) -> Hi. pose proof (Nat.mod_upper_bound i 16 ltac:(lia)). rewrite aset_Some by lia. eexists. split; [done|].
  rewrite Nat2Z.id. split_and!.
  - by rewrite length_insert.
  - intros j Hj. rewrite aget_nat. destruct (decide (j = i)) as [->|].
    + rewrite list_lookup_insert_eq by lia. done.
    + rewrite list_lookup_insert_ne.
      * rewrite <- aget_nat. apply Hd. lia.
      * intros E. pose proof (Nat.div_mod_eq i 16). pose proof (Nat.div_mod_eq j 16). lia.
  - intros j Hj. rewrite Nat.mod_small by lia. rewrite list_lookup_insert_ne by lia. apply Hr. lia.
Qed.

Lemma blk0_ok i block : (i < 16)%nat -> ring i block ->
  exists block', blk0 (Z.of_nat i) block = Some (wt W i, block') /\ ring (S i) block'.
Proof.
  intros Hi Hb. destruct (Hswap i Hi) as (l & El & Es). pose proof Hb as (Hl & _ & Hr). unfold blk0.
  rewrite aget_nat, Hr, El by lia. fold (swap l). destruct (ring_set i block (swap l) Hb Es ltac:(lia)) as (block' & Ha & Hb').
  rewrite Nat.mod_small in Ha by lia. rewrite Ha. rewrite Es. eauto.
Qed.

Lemma ring_index i d : (16 <= i)%nat -> (0 <= d < 16)%nat -> Z.land (Z.of_nat i + Z.of_nat d) 15 = Z.of_nat ((i - (16 - d)) mod 16).
Proof.
  intros. change 15 with (2 ^ 4 - 1). rewrite land_low by lia. rewrite Nat2Z.inj_mod. change (2 ^ 4) with (Z.of_nat 16).
  replace (Z.of_nat i + Z.of_nat d) with (Z.of_nat (i - (16 - d)) + 1 * Z.of_nat 16) by lia. by rewrite Z.mod_add.
Qed.

Lemma blk_ok i block : (16 <= i < 80)%nat -> ring i block ->
  exists block', blk (Z.of_nat i) block = Some (wt W i, block') /\ ring (S i) block'.
Proof.
  intros Hi Hb. pose proof Hb as (_ & Hd & _). unfold blk.
  pose proof (ring_index i 13 ltac:(lia) ltac:(lia)) as E13. pose proof (ring_index i 8 ltac:(lia) ltac:(lia)) as E8.
  pose proof (ring_index i 2 ltac:(lia) ltac:(lia)) as E2. pose proof (ring_index i 0 ltac:(lia) ltac:(lia)) as E0.
  change (Z.of_nat 13) with 13 in E13. change (Z.of_nat 8) with 8 in E8. change (Z.of_nat 2) with 2 in E2. change (Z.of_nat 0) with 0 in E0. rewrite Z.add_0_r in E0.
  rewrite E13, E8, E2, E0, !Hd by lia.
  replace (i - (16 - 13))%nat with (i - 3)%nat by lia. replace (i - (16 - 8))%nat with (i - 8)%nat by lia.
  replace (i - (16 - 2))%nat with (i - 14)%nat by lia. replace (i - (16 - 0))%nat with (i - 16)%nat by lia.
  fold (next_word W i). rewrite <- Hnext by lia.
  destruct (ring_set i block (wt W i) Hb eq_refl ltac:(lia)) as (block' & Ha & Hb'). exists block'. split; [|done].
  replace ((i - 16) mod 16)%nat with (i mod 16)%nat; [by rewrite Ha|].
  replace i with (i - 16 + 1 * 16)%nat at 1 by lia. apply Nat.Div0.mod_add.
Qed.

(** A call is a round of the reference. *)
Lemma R_call_ok i s block : (i < 80)%nat -> ring i block ->
  exists block', R_call (Z.of_nat i) (s, block) = Some (ref_round W s i, block') /\ ring (S i) block'.
Proof.
  intros Hi Hb. destruct s as [[[[v w] x] y] z]. unfold R_call, ref_round, sha_f, sha_K.
  destruct (Z.ltb_spec (Z.of_nat i) 16).
  - destruct (blk0_ok i block ltac:(lia) Hb) as (block' & E & Hb'). exists block'. split; [|done]. unfold R0, R_assign. rewrite E.
    destruct (Nat.ltb_spec i 20); [|lia]. rewrite Ch_eq. apply (f_equal (fun q => Some (u32 q, v, rol w 30, x, y, block'))). lia.
  - destruct (blk_ok i block ltac:(lia) Hb) as (block' & E & Hb'). exists block'. split; [|done].
    destruct (Z.ltb_spec (Z.of_nat i) 20), (Nat.ltb_spec i 20); try lia; [unfold R1, R_assign; rewrite E, Ch_eq; apply (f_equal (fun q => Some (u32 q, v, rol w 30, x, y, block'))); lia|].
    destruct (Z.ltb_spec (Z.of_nat i) 40), (Nat.ltb_spec i 40); try lia; [unfold R2, R_assign; rewrite E; apply (f_equal (fun q => Some (u32 q, v, rol w 30, x, y, block'))); lia|].
    destruct (Z.ltb_spec (Z.of_nat i) 60), (Nat.ltb_spec i 60); try lia; [unfold R3, R_assign; rewrite E, Maj_eq; apply (f_equal (fun q => Some (u32 q, v, rol w 30, x, y, block'))); lia|].
    unfold R4, R_assign. rewrite E. apply (f_equal (fun q => Some (u32 q, v, rol w 30, x, y, block'))); lia.
Qed.

Lemma rounds_ok s block : ring 0 block ->
  exists block', for_loop 80 0 R_call (s, block) = Some (foldl (ref_round W) s (seq 0 80), block').
Proof.
  intros Hb. destruct (for_loop_inv (fun i '(s', b) => exists k, i = Z.of_nat k /\ ring k b /\ s' = foldl (ref_round W) s (seq 0 k))
    80 0 R_call (s, block)) as ([s' b] & -> & (k & Ek & _ & ->)).
  - exists 0%nat. done.
  - intros i [s' b] Hi (k & -> & Hr & ->). destruct (R_call_ok k (foldl (ref_round W) s (seq 0 k)) b ltac:(lia) Hr) as (b' & E & Hr').
    eexists. split; [exact E|]. exists (S k). split_and!; [lia | done|]. by rewrite seq_S, foldl_snoc.
  - replace k with 80%nat by lia. eauto.
Qed.
End Block.

Lemma words4_length f n l : length l = (4 * n)%nat -> length (words4 f l) = n.
Proof.
  revert l. induction n as [|n IH]; intros l Hl; [by destruct l|].
  destruct l as [|b0 [|b1 [|b2 [|b3 l]]]]; simpl in Hl; try lia. simpl. rewrite IH; lia.
Qed.

(** A word of the host is read from four bytes, which give the word [t]. *)
Lemma words4_lookup f n l t : length l = (4 * n)%nat -> Forall byte l -> (t < n)%nat ->
  exists b0 b1 b2 b3, byte b0 /\ byte b1 /\ byte b2 /\ byte b3 /\
    le_word l (4 * Z.of_nat t) = Some (u32 (Z.lor (Z.lor (Z.lor b0 (Z.shiftl b1 8)) (Z.shiftl b2 16)) (Z.shiftl b3 24))) /\
    words4 f l !! t = Some (f b0 b1 b2 b3).
Proof.
  intros Hl Hb Ht. enough (exists b0 b1 b2 b3, l !! (4 * t)%nat = Some b0 /\ l !! (4 * t + 1)%nat = Some b1 /\ l !! (4 * t + 2)%nat = Some b2 /\
    l !! (4 * t + 3)%nat = Some b3 /\ words4 f l !! t = Some (f b0 b1 b2 b3)) as (b0 & b1 & b2 & b3 & H0 & H1 & H2 & H3 & Hw).
  { exists b0, b1, b2, b3. split_and!; try (by eapply byte_lookup); [|done]. unfold le_word. replace (4 * Z.of_nat t) with (Z.of_nat (4 * t)) by lia.
    replace (Z.of_nat (4 * t) + 1) with (Z.of_nat (4 * t + 1)) by lia. replace (Z.of_nat (4 * t) + 2) with (Z.of_nat (4 * t + 2)) by lia.
    replace (Z.of_nat (4 * t) + 3) with (Z.of_nat (4 * t + 3)) by lia. by rewrite !aget_nat, H0, H1, H2, H3. }
  clear Hb. revert l t Hl Ht. induction n as [|n IH]; intros l t Hl Ht; [lia|].
  destruct l as [|b0 [|b1 [|b2 [|b3 l]]]]; simpl in Hl; try lia. destruct t as [|t].
  - exists b0, b1, b2, b3. done.
  - destruct (IH l t ltac:(lia) ltac:(lia)) as (c0 & c1 & c2 & c3 & H0 & H1 & H2 & H3 & Hw). exists c0, c1, c2, c3.
    replace (4 * S t)%nat with (S (S (S (S (4 * t))))) by lia. cbn [words4 lookup list_lookup Nat.add]. done.
Qed.

Definition block64 (l : list Z) : Prop := length l = 64%nat /\ Forall byte l.

Lemma block_words_ok l : block64 l -> exists raw, block_words l = Some raw /\ length raw = 16%nat /\
  forall t : nat, (t < 16)%nat -> le_word l (4 * Z.of_nat t) = raw !! t.
Proof.
  intros [Hl Hb]. destruct (mapM_seqZ (fun i => le_word l (4 * i)) 16) as (raw & Hm & Hlen & Hg).
  - intros i Hi. destruct (words4_lookup be_word 16 l (Z.to_nat i) Hl Hb ltac:(lia)) as (b0 & b1 & b2 & b3 & _ & _ & _ & _ & Hw & _).
    rewrite Z2Nat.id in Hw by lia. eauto.
  - exists raw. split_and!; [done.. |]. intros t Ht. by rewrite <- aget_nat, Hg by lia.
Qed.

Lemma compress_length H block : length H = 5%nat -> length (compress H block) = 5%nat.
Proof.
  intros Hl. do 5 (destruct H as [|? H]; [done|]). destruct H; [|done]. unfold compress. by destruct (foldl _ _ _) as [[[[? ?] ?] ?] ?].
Qed.

Lemma SHA1_Transform_ok H l : length H = 5%nat -> block64 l -> SHA1_Transform H l = Some (compress H l).
Proof.
  intros Hl Hb. do 5 (destruct H as [|? H]; [done|]). destruct H; [|done].
  destruct (block_words_ok l Hb) as (raw & Hr & Hlr & Hs). unfold SHA1_Transform, compress. rewrite Hr. cbv beta iota.
  assert (length (be_words l) = 16%nat) as Hbl by (apply (words4_length be_word 16); apply Hb).
  assert (exists block', for_loop 80 0 R_call (z, z0, z1, z2, z3, raw) =
    Some (foldl (ref_round (expand 64 (be_words l))) (z, z0, z1, z2, z3) (seq 0 80), block')) as (block' & ->).
  { apply (rounds_ok _ raw).
    - intros t Ht. destruct Hb as [Hl64 Hb64].
      destruct (words4_lookup be_word 16 l t Hl64 Hb64 Ht) as (b0 & b1 & b2 & b3 & H0 & H1 & H2 & H3 & Hv & Hbe).
      rewrite Hs in Hv by done. eexists. split; [exact Hv|]. rewrite expand_prefix by lia. unfold wt, be_words. rewrite Hbe. by apply swap_word.
    - intros t Ht. apply expand_next; lia.
    - split_and!; [done | intros; lia | done]. }
  destruct (foldl _ _ _) as [[[[a b] c] d] e]. done.
Qed.

(** ** Messages in pieces *)

Lemma hash_blocks_snoc n H msg : hash_blocks (S n) H msg = compress (hash_blocks n H msg) (take 64 (drop (64 * n) msg)).
Proof.
  revert H msg. induction n as [|n IH]; intros H msg; [done|].
  change (hash_blocks (S (S n)) H msg) with (hash_blocks (S n) (compress H (take 64 msg)) (drop 64 msg)). rewrite IH, drop_drop.
  replace (64 + 64 * n)%nat with (64 * S n)%nat by lia. done.
Qed.

Lemma hash_blocks_app n H msg msg' : (64 * n <= length msg)%nat -> hash_blocks n H (msg ++ msg') = hash_blocks n H msg.
Proof.
  revert H msg. induction n as [|n IH]; intros H msg Hl; [done|]. cbn [hash_blocks]. rewrite take_app_le, drop_app_le by lia.
  apply IH. rewrite length_drop. lia.
Qed.

Lemma hash_blocks_length n H msg : length H = 5%nat -> length (hash_blocks n H msg) = 5%nat.
Proof. revert H msg. induction n as [|n IH]; intros; [done|]. simpl. apply IH. by apply compress_length. Qed.

(** A context that has been fed the message [m]. *)
Record fed (ctx : SHA1_CTX) (m : list Z) : Prop := {
  fed_bytes : Forall byte m;
  fed_state : sha_state ctx = hash_blocks (length m / 64) sha_init m;
  fed_count0 : count0 ctx = u32 (8 * Z.of_nat (length m));
  fed_count1 : count1 ctx = u32 (8 * Z.of_nat (length m) / 2 ^ 32);
  fed_buffer : length (sha_buffer ctx) = 64%nat;
  fed_rest : take (length m mod 64) (sha_buffer ctx) = drop (64 * (length m / 64)) m;
}.

Lemma count_add_ok x n : 0 <= x -> 0 <= n < 2 ^ 29 ->
  count_add (u32 (8 * x)) (u32 (8 * x / 2 ^ 32)) n = (u32 (8 * (x + n)), u32 (8 * (x + n) / 2 ^ 32)).
Proof.
  intros Hx Hn. unfold count_add. rewrite Z.shiftl_mul_pow2, u64_small by zlia. change (2 ^ 3) with 8.
  rewrite Z.shiftr_div_pow2, (Z.div_small n) by lia. rewrite Z.add_0_r.
  assert (u32 (u32 (8 * x) + n * 8) = u32 (8 * (x + n))) as ->.
  { unfold u32. rewrite Z.add_mod_idemp_l by lia. f_equal. lia. }
  f_equal. pose proof (Z.div_mod (8 * x) (2 ^ 32) ltac:(lia)) as Hd. pose proof (Z.mod_pos_bound (8 * x) (2 ^ 32) ltac:(lia)) as Hr.
  assert (8 * (x + n) / 2 ^ 32 = 8 * x / 2 ^ 32 + (if (8 * x) mod 2 ^ 32 + n * 8 <? 2 ^ 32 then 0 else 1)) as ->.
  { destruct (Z.ltb_spec ((8 * x) mod 2 ^ 32 + n * 8) (2 ^ 32)).
    - symmetry. apply (Z.div_unique _ _ _ ((8 * x) mod 2 ^ 32 + n * 8)); lia.
    - symmetry. apply (Z.div_unique _ _ _ ((8 * x) mod 2 ^ 32 + n * 8 - 2 ^ 32)); lia. }
  assert (u32 (8 * (x + n)) = if (8 * x) mod 2 ^ 32 + n * 8 <? 2 ^ 32 then (8 * x) mod 2 ^ 32 + n * 8 else (8 * x) mod 2 ^ 32 + n * 8 - 2 ^ 32) as ->.
  { unfold u32. destruct (Z.ltb_spec ((8 * x) mod 2 ^ 32 + n * 8) (2 ^ 32)).
    - symmetry. apply (Z.mod_unique _ _ (8 * x / 2 ^ 32)); lia.
    - symmetry. apply (Z.mod_unique _ _ (8 * x / 2 ^ 32 + 1)); lia. }
  destruct (Z.ltb_spec ((8 * x) mod 2 ^ 32 + n * 8) (2 ^ 32)).
  - destruct (Z.ltb_spec ((8 * x) mod 2 ^ 32 + n * 8) (n * 8)); [lia|]. rewrite Z.add_0_r. unfold u32. by rewrite Z.mod_mod.
  - destruct (Z.ltb_spec ((8 * x) mod 2 ^ 32 + n * 8 - 2 ^ 32) (n * 8)); [|lia].
    unfold u32. rewrite Z.mod_mod by lia. by rewrite Z.add_mod_idemp_l by lia.
Qed.

Lemma position_ok x : 0 <= x -> Z.land (Z.shiftr (u32 (8 * x)) 3) 63 = x mod 64.
Proof.
  intros Hx. change 63 with (2 ^ 6 - 1). rewrite land_low, Z.shiftr_div_pow2 by lia. unfold u32. change (2 ^ 32) with (2 ^ 3 * 2 ^ 29). change 8 with (2 ^ 3).
  rewrite Z.mul_mod_distr_l, Z.mul_comm, Z.div_mul by lia. change (2 ^ 29) with (64 * 2 ^ 23). symmetry.
  apply Znumtheory.Zmod_div_mod; [lia | lia | by exists (2 ^ 23)].
Qed.

Section Update.
Context (m data : list Z) (Hm : Forall byte m) (Hdata : Forall byte data).
Let total : nat := (length m + length data)%nat.
Let N : nat := (total / 64)%nat.

Lemma whole_block B : (64 * (B + 1) <= total)%nat -> block64 (take 64 (drop (64 * B) (m ++ data))).
Proof.
  intros HB. split; [rewrite length_take, length_drop, length_app; unfold total in *; lia|].
  by apply Forall_take, Forall_drop, Forall_app.
Qed.

Lemma transform_next B : (64 * (B + 1) <= total)%nat ->
  SHA1_Transform (hash_blocks B sha_init (m ++ data)) (take 64 (drop (64 * B) (m ++ data))) = Some (hash_blocks (S B) sha_init (m ++ data)).
Proof. intros HB. rewrite SHA1_Transform_ok by (by apply hash_blocks_length || by apply whole_block). by rewrite hash_blocks_snoc. Qed.

Lemma update_loop_ok fuel B : (length m <= 64 * B <= total)%nat -> (total - 64 * B <= fuel)%nat ->
  update_loop fuel (hash_blocks B sha_init (m ++ data)) data (Z.of_nat (64 * B - length m)) =
    Some (hash_blocks N sha_init (m ++ data), Z.of_nat (64 * N - length m)).
Proof.
  revert B. pose proof (Nat.div_mod_eq total 64) as Hd. pose proof (Nat.mod_upper_bound total 64 ltac:(lia)). fold N in Hd.
  induction fuel as [|fuel IH]; intros B HB Hf; cbn [update_loop];
    destruct (Z.ltb_spec (Z.of_nat (64 * B - length m) + 63) (Z.of_nat (length data))) as [Hlt|Hge];
    try (replace B with N by (unfold total in *; lia); done); [unfold total in *; lia|].
  rewrite memcpy_Some by lia. rewrite Nat2Z.id.
  replace (take (Z.to_nat 64) (drop (64 * B - length m) data)) with (take 64 (drop (64 * B) (m ++ data))).
  2: { rewrite drop_app_ge by lia. done. }
  rewrite transform_next by (unfold total; lia).
  replace (Z.of_nat (64 * B - length m) + 64) with (Z.of_nat (64 * S B - length m)) by lia. apply IH; unfold total in *; lia.
Qed.
End Update.

Lemma memcpy_at_Some buf k data : (k + length data <= length buf)%nat ->
  memcpy_at buf (Z.of_nat k) data = Some (take k buf ++ data ++ drop (k + length data) buf).
Proof.
  intros Hk. unfold memcpy_at. assert ((0 <=? Z.of_nat k) && (Z.of_nat k + Z.of_nat (length data) <=? Z.of_nat (length buf)) = true) as ->.
  { apply andb_true_iff. rewrite !Z.leb_le. lia. }
  by rewrite Nat2Z.id.
Qed.

(** The tail of the data behind the last whole block. *)
Lemma fed_tail ctx_buffer (m data : list Z) i : length ctx_buffer = 64%nat -> i = (64 * ((length m + length data) / 64) - length m)%nat ->
  (length m <= 64 * ((length m + length data) / 64))%nat ->
  exists buffer, memcpy data (Z.of_nat i) (Z.of_nat (length data) - Z.of_nat i) = Some (drop i data) /\
    memcpy_at ctx_buffer 0 (drop i data) = Some buffer /\ length buffer = 64%nat /\
    take (length (m ++ data) mod 64) buffer = drop (64 * (length (m ++ data) / 64)) (m ++ data).
Proof.
  intros Hb -> Hm. rewrite length_app. set (total := (length m + length data)%nat) in *.
  pose proof (Nat.div_mod_eq total 64) as Hd. pose proof (Nat.mod_upper_bound total 64 ltac:(lia)). set (N := (total / 64)%nat) in *.
  assert (length (drop (64 * N - length m) data) = total mod 64)%nat as Hl by (rewrite length_drop; unfold total in *; lia).
  rewrite memcpy_Some by (unfold total in *; lia). rewrite Nat2Z.id, take_ge by (rewrite length_drop; lia).
  rewrite (memcpy_at_Some ctx_buffer 0) by lia. eexists. split_and!; [done..| |].
  - rewrite !length_app, length_take, !length_drop in *. lia.
  - rewrite take_0, app_nil_l. rewrite take_app_length' by done. rewrite drop_app_ge by lia. done.
Qed.

Lemma update_ok ctx m data : fed ctx m -> Forall byte data -> Z.of_nat (length data) < 2 ^ 29 ->
  exists ctx', sat_SHA1_Update ctx data = Some ctx' /\ fed ctx' (m ++ data).
Proof.
  intros Hf Hdata Hlen. destruct Hf as [Hm Hs Hc0 Hc1 Hb Hr]. unfold sat_SHA1_Update.
  rewrite Hc0, Hc1, position_ok, count_add_ok by lia. rewrite <- (Nat2Z.inj_mod _ 64).
  set (total := (length m + length data)%nat). pose proof (Nat.div_mod_eq (length m) 64) as Hd. pose proof (Nat.mod_upper_bound (length m) 64 ltac:(lia)) as Hj.
  pose proof (Nat.div_mod_eq total 64) as HD. pose proof (Nat.mod_upper_bound total 64 ltac:(lia)) as HJ.
  set (q := (length m / 64)%nat) in *. set (j := (length m mod 64)%nat) in *.
  assert (length (m ++ data) = total) as Hta by (rewrite length_app; done).
  destruct (Z.ltb_spec 63 (Z.of_nat j + Z.of_nat (length data))) as [Hbig|Hsmall].
  - assert (take 64 (drop (64 * q) (m ++ data)) = take j (sha_buffer ctx) ++ take (64 - j) data) as Hblk.
    { rewrite Hr, drop_app_le by lia. rewrite take_app, length_drop. rewrite (take_ge (drop _ _)) by (rewrite length_drop; lia). do 2 f_equal. lia. }
    replace (64 - Z.of_nat j) with (Z.of_nat (64 - j)) by lia. rewrite (memcpy_Some data) by lia. rewrite Nat2Z.id, drop_0.
    rewrite memcpy_at_Some by (rewrite length_take; lia). rewrite (drop_ge (sha_buffer ctx)), app_nil_r by (rewrite length_take; lia).
    rewrite <- Hblk, Hs, <- (hash_blocks_app q sha_init m data), transform_next by (done || unfold total in *; lia).
    replace (64 - j)%nat with (64 * S q - length m)%nat by lia.
    rewrite update_loop_ok by (done || fold total; unfold total in *; lia). fold total.
    destruct (fed_tail (take 64 (drop (64 * q) (m ++ data))) m data _ (proj1 (whole_block m data Hm Hdata q ltac:(unfold total in *; lia))) eq_refl)
      as (buffer & E1 & E2 & Hbl & Htk); [fold total; unfold total in *; lia|].
    fold total in E1, E2. cbv beta iota. rewrite E1, E2. eexists. split; [done|].
    split; cbn [sha_state count0 count1 sha_buffer]; rewrite ?Hta; 
      [by apply Forall_app | done | by unfold total; rewrite Nat2Z.inj_add.. | done | rewrite Hta in Htk; done].
  - assert (total / 64 = q)%nat as Hq by (unfold total in *; lia).
    rewrite memcpy_Some by lia. rewrite Z.sub_0_r, Nat2Z.id, drop_0, firstn_all. rewrite memcpy_at_Some by lia.
    eexists. split; [done|]. split; cbn [sha_state count0 count1 sha_buffer]; rewrite ?Hta, ?Hq.
    + by apply Forall_app.
    + rewrite Hs, hash_blocks_app by lia. done.
    + unfold total. by rewrite Nat2Z.inj_add.
    + unfold total. by rewrite Nat2Z.inj_add.
    + rewrite !length_app, length_take, length_drop. lia.
    + rewrite Hr, app_assoc, take_app_length' by (rewrite length_app, length_drop; unfold total in *; lia).
      by rewrite drop_app_le by lia.
Qed.

Lemma fed_init : fed sat_SHA1_Init [].
Proof. by split. Qed.

(** ** Padding *)

Lemma land_504 a : Z.land a 504 = Z.shiftl (Z.land (Z.shiftr a 3) 63) 3.
Proof.
  change 504 with (Z.shiftl 63 3). apply Z.bits_inj'. intros n Hn. rewrite Z.land_spec, !Z.shiftl_spec by done.
  destruct (Z.lt_ge_cases n 3).
  - rewrite !(Z.testbit_neg_r _ (n - 3)) by lia. apply andb_false_r.
  - rewrite Z.land_spec, Z.shiftr_spec by lia. by replace (n - 3 + 3) with n by lia.
Qed.

Lemma pad_loop_ok fuel ctx m : fed ctx m -> (56 - Z.of_nat (length m)) mod 64 <= Z.of_nat fuel ->
  exists ctx', pad_loop fuel ctx = Some ctx' /\ fed ctx' (m ++ replicate (Z.to_nat ((56 - Z.of_nat (length m)) mod 64)) 0).
Proof.
  revert ctx m. induction fuel as [|fuel IH]; intros ctx m Hf Hl; cbn [pad_loop];
    rewrite land_504, (fed_count0 _ _ Hf), position_ok, Z.shiftl_mul_pow2 by lia; change (2 ^ 3) with 8;
    destruct (Z.eqb_spec (Z.of_nat (length m) mod 64 * 8) 448) as [E|E].
  1,3: exists ctx; split; [done|]; replace ((56 - Z.of_nat (length m)) mod 64) with 0 by (Z.div_mod_to_equations; lia); simpl; by rewrite app_nil_r.
  - exfalso. Z.div_mod_to_equations. lia.
  - destruct (update_ok ctx m [0] Hf) as (ctx' & -> & Hf'); [by repeat constructor | simpl; lia|].
    destruct (IH ctx' (m ++ [0]) Hf') as (ctx'' & -> & Hf''); [rewrite length_app; simpl; Z.div_mod_to_equations; lia|].
    exists ctx''. split; [done|]. rewrite <- app_assoc, length_app in Hf''. simpl in Hf''.
    replace (Z.to_nat ((56 - Z.of_nat (length m)) mod 64)) with (S (Z.to_nat ((56 - Z.of_nat (length m + 1)) mod 64))) by (Z.div_mod_to_equations; lia).
    done.
Qed.

Lemma be_bytes_byte w : Forall byte (be_bytes w).
Proof. unfold be_bytes, be_byte. repeat constructor; apply byte_land. Qed.

Lemma sha_pad_blocks m : (length (sha_pad m) mod 64 = 0)%nat.
Proof.
  unfold sha_pad. rewrite !length_app, length_replicate. cbn [length be_bytes map].
  apply Nat2Z.inj. rewrite Nat2Z.inj_mod, !Nat2Z.inj_add, Z2Nat.id by (apply Z.mod_pos_bound; lia).
  Z.div_mod_to_equations. lia.
Qed.

Lemma digest_bytes H : length H = 5%nat ->
  mapM (fun i => let! w := aget H (Z.shiftr i 2) in Some (be_byte w i)) (seqZ 0 SHA1_DIGEST_SIZE) = Some (concat (map be_bytes H)).
Proof. intros Hl. do 5 (destruct H as [|? H]; [done|]). destruct H; [reflexivity | done]. Qed.

Lemma final_ok ctx m : fed ctx m -> sat_SHA1_Final ctx = Some (sha1_ref m).
Proof.
  intros Hf. unfold sat_SHA1_Final.
  assert (map (fun i => be_byte (if 4 <=? i then count0 ctx else count1 ctx) i) (seqZ 0 8) = be_bytes (count1 ctx) ++ be_bytes (count0 ctx)) as -> by reflexivity.
  rewrite (fed_count0 _ _ Hf), (fed_count1 _ _ Hf).
  destruct (update_ok ctx m [128] Hf) as (c1 & -> & H1); [by repeat constructor | simpl; lia|].
  destruct (pad_loop_ok 64 c1 (m ++ [128]) H1) as (c2 & -> & H2); [Z.div_mod_to_equations; lia|].
  destruct (update_ok c2 _ (be_bytes (u32 (8 * Z.of_nat (length m) / 2 ^ 32)) ++ be_bytes (u32 (8 * Z.of_nat (length m)))) H2) as (c3 & -> & H3);
    [apply Forall_app; auto using be_bytes_byte | cbn; lia|].
  assert (((m ++ [128]) ++ replicate (Z.to_nat ((56 - Z.of_nat (length (m ++ [128]))) mod 64)) 0) ++
    be_bytes (u32 (8 * Z.of_nat (length m) / 2 ^ 32)) ++ be_bytes (u32 (8 * Z.of_nat (length m))) = sha_pad m) as E.
  { unfold sha_pad. rewrite <- !app_assoc, length_app. cbn [length]. do 4 f_equal. f_equal. f_equal. lia. }
  rewrite E in H3. rewrite (fed_state _ _ H3). apply digest_bytes. by apply hash_blocks_length.
Qed.

Lemma lsha1_ok text : Forall byte text -> Z.of_nat (length text) < 2 ^ 29 -> lsha1 text = Some (sha1_ref text).
Proof.
  intros Hb Hl. unfold lsha1. destruct (update_ok sat_SHA1_Init [] text fed_init Hb Hl) as (ctx & -> & Hf). by apply final_ok.
Qed.

Lemma sha1_ref_digest m : length (sha1_ref m) = 20%nat /\ Forall byte (sha1_ref m).
Proof.
  unfold sha1_ref. assert (forall H, length (concat (map be_bytes H)) = (4 * length H)%nat /\ Forall byte (concat (map be_bytes H))) as Hg.
  { induction H as [|w H [IH1 IH2]]; [done|]. cbn [map concat]. split; [rewrite length_app, IH1; cbn [length be_bytes map]; lia|].
    apply Forall_app. auto using be_bytes_byte. }
  destruct (Hg (hash_blocks (length (sha_pad m) / 64) sha_init (sha_pad m))) as [H1 H2]. split; [|done].
  rewrite H1, hash_blocks_length by done. done.
Qed.

(** ** Message authentication *)

(** RFC 2104. *)
Definition hmac_key (key : list Z) : list Z :=
  let k := if BLOCKSIZE <? Z.of_nat (length key) then sha1_ref key else key in
  k ++ replicate (64 - length k) 0.

Definition hmac_ref (key text : list Z) : list Z :=
  let k := hmac_key key in
  sha1_ref (map (fun b => Z.lxor b 0x5c) k ++ sha1_ref (map (fun b => Z.lxor b 0x36) k ++ text)).

Lemma land_lxor a b c : Z.land (Z.lxor a b) c = Z.lxor (Z.land a c) (Z.land b c).
Proof.
  apply Z.bits_inj'. intros n Hn. rewrite Z.land_spec, !Z.lxor_spec, !Z.land_spec.
  by destruct (Z.testbit a n), (Z.testbit b n), (Z.testbit c n).
Qed.

Lemma byte_lxor a b : byte a -> byte b -> byte (Z.lxor a b).
Proof.
  unfold byte. intros Ha Hb. split; [apply Z.lxor_nonneg; lia|].
  rewrite <- (Z.mod_small a (2 ^ 8)), <- (Z.mod_small b (2 ^ 8)) by done. rewrite <- !Z.land_ones, <- land_lxor by lia.
  rewrite Z.land_ones by lia. apply Z.mod_pos_bound. lia.
Qed.

Lemma word_bytes_xor b0 b1 b2 b3 c : byte b0 -> byte b1 -> byte b2 -> byte b3 -> byte c ->
  word_bytes (Z.lxor (u32 (Z.lor (Z.lor (Z.lor b0 (Z.shiftl b1 8)) (Z.shiftl b2 16)) (Z.shiftl b3 24))) (c * 0x01010101)) =
    [Z.lxor b0 c; Z.lxor b1 c; Z.lxor b2 c; Z.lxor b3 c].
Proof.
  intros H0 H1 H2 H3 Hc. rewrite le_word_value by done. unfold word_bytes.
  rewrite !Z.shiftr_lxor, !land_lxor. change 0xff with (2 ^ 8 - 1). rewrite !land_low, !Z.shiftr_div_pow2 by lia.
  unfold byte in *. f_equal; [|f_equal; [|f_equal; [|f_equal]]]; f_equal; zpow; Z.div_mod_to_equations; lia.
Qed.

Lemma xor_key_ok key c : block64 key -> byte c -> xor_key key (c * 0x01010101) = Some (map (fun b => Z.lxor b c) key).
Proof.
  intros Hk Hc. destruct (block_words_ok key Hk) as (raw & Hr & Hlr & Hs). unfold xor_key. unfold block_words in Hr. rewrite Hr. f_equal.
  destruct Hk as [Hl Hb].
  set (le := fun b0 b1 b2 b3 => u32 (Z.lor (Z.lor (Z.lor b0 (Z.shiftl b1 8)) (Z.shiftl b2 16)) (Z.shiftl b3 24))).
  assert (raw = words4 le key) as ->.
  { apply list_eq_same_length with (n := 16%nat); [by apply words4_length | done|]. intros t x y Ht Hx Hy.
    destruct (words4_lookup le 16 key t Hl Hb Ht) as (b0 & b1 & b2 & b3 & _ & _ & _ & _ & Hw & Hw'). rewrite Hs, Hx in Hw by lia.
    rewrite Hw' in Hy. unfold le in Hy. congruence. }
  clear Hr Hs Hlr. assert (exists n, length key = (4 * n)%nat) as [n Hn] by (by exists 16%nat). clear Hl. revert key Hb Hn.
  induction n as [|n IH]; intros key Hb Hn; [by destruct key|]. destruct key as [|b0 [|b1 [|b2 [|b3 key]]]]; simpl in Hn; try lia.
  rewrite !Forall_cons in Hb. destruct Hb as (B0 & B1 & B2 & B3 & Hb). cbn [words4 map concat]. unfold le at 1. rewrite word_bytes_xor by done.
  rewrite IH by (done || lia). done.
Qed.

Lemma hmac_key_block key : Forall byte key -> Z.of_nat (length key) < 2 ^ 29 ->
  block64 (hmac_key key) /\
  (let! rkey :=
     if BLOCKSIZE <? Z.of_nat (length key) then
       let! ctx := sat_SHA1_Update sat_SHA1_Init key in let! digest := sat_SHA1_Final ctx in memcpy_at (malloc BLOCKSIZE) 0 digest
     else memcpy_at (malloc BLOCKSIZE) 0 key in Some rkey) = Some (hmac_key key).
Proof.
  intros Hb Hl. unfold hmac_key, BLOCKSIZE. destruct (Z.ltb_spec 64 (Z.of_nat (length key))).
  - destruct (sha1_ref_digest key) as [Hd1 Hd2]. split.
    + split; [rewrite length_app, length_replicate; lia|]. apply Forall_app. split; [done|]. apply Forall_replicate. unfold byte. lia.
    + pose proof (lsha1_ok key Hb Hl) as E. unfold lsha1 in E. destruct (sat_SHA1_Update sat_SHA1_Init key); [|done]. rewrite E.
      rewrite (memcpy_at_Some (malloc 64) 0) by (unfold malloc; rewrite length_replicate, Hd1; simpl; lia). rewrite Hd1. done.
  - split.
    + split; [rewrite length_app, length_replicate; lia|]. apply Forall_app. split; [done|]. apply Forall_replicate. unfold byte. lia.
    + rewrite (memcpy_at_Some (malloc 64) 0) by (unfold malloc; rewrite length_replicate; simpl; lia). simpl. unfold malloc.
      by rewrite drop_replicate.
Qed.

Lemma block64_xor k c : block64 k -> byte c -> block64 (map (fun b => Z.lxor b c) k).
Proof.
  intros [Hl Hb] Hc. split; [by rewrite length_map|]. apply Forall_forall. intros b (a & -> & Ha)%list_elem_of_fmap.
  apply byte_lxor; [|done]. by eapply Forall_forall.
Qed.

Lemma lhmac_sha1_ok key text : Forall byte key -> Forall byte text ->
  Z.of_nat (length key) < 2 ^ 29 -> Z.of_nat (length text) < 2 ^ 29 -> lhmac_sha1 key text = Some (hmac_ref key text).
Proof.
  intros Hk Ht Hlk Hlt. unfold lhmac_sha1, hmac_ref. destruct (hmac_key_block key Hk Hlk) as [Hb E].
  destruct (if BLOCKSIZE <? Z.of_nat (length key) then _ else _) as [rkey|]; [|done]. injection E as ->. set (k := hmac_key key) in *.
  assert (byte 0x5c /\ byte 0x36 /\ byte 0x6a) as (B1 & B2 & B3) by (unfold byte; lia).
  change 0x5c5c5c5c with (0x5c * 0x01010101). change (Z.lxor (0x5c * 0x01010101) 0x36363636) with (0x6a * 0x01010101).
  rewrite xor_key_ok by done. pose proof (block64_xor k _ Hb B1) as Ho. set (ko := map (fun b => Z.lxor b 0x5c) k) in *.
  destruct (update_ok sat_SHA1_Init [] ko fed_init (proj2 Ho)) as (c1 & -> & H1); [rewrite (proj1 Ho); simpl; lia|].
  rewrite xor_key_ok by done. assert (map (fun b => Z.lxor b 0x6a) ko = map (fun b => Z.lxor b 0x36) k) as ->.
  { unfold ko. rewrite map_map. apply map_ext. intros b. by rewrite Z.lxor_assoc. }
  pose proof (block64_xor k _ Hb B2) as Hi. set (ki := map (fun b => Z.lxor b 0x36) k) in *.
  destruct (update_ok sat_SHA1_Init [] ki fed_init (proj2 Hi)) as (c2 & -> & H2); [rewrite (proj1 Hi); simpl; lia|].
  destruct (update_ok c2 ki text H2 Ht Hlt) as (c3 & -> & H3). rewrite (final_ok _ _ H3).
  destruct (sha1_ref_digest (ki ++ text)) as [Hd Hdb].
  destruct (update_ok c1 ko (sha1_ref (ki ++ text)) H1 Hdb) as (c4 & -> & H4); [rewrite Hd; simpl; lia|]. by apply final_ok.
Qed.

(** C40: [lsha1] is the SHA-1 of FIPS 180-1 and [lhmac_sha1] the HMAC of RFC 2104 over it, for strings below 512 MB: the ring of 16 words, the
    renamed variables, the buffering of partial blocks and the padding compute the reference on the whole padded message, without leaving an array. *)
Theorem sha1_equals_reference key text : Forall byte key -> Forall byte text ->
  Z.of_nat (length key) < 2 ^ 29 -> Z.of_nat (length text) < 2 ^ 29 ->
  lsha1 text = Some (sha1_ref text) /\ lhmac_sha1 key text = Some (hmac_ref key text).
Proof. intros. split; [by apply lsha1_ok | by apply lhmac_sha1_ok]. Qed.

Lemma sha1_equals_reference_witness :
  lsha1 [104; 105] = Some (sha1_ref [104; 105]) /\ lhmac_sha1 [1; 2; 3] [104; 105] = Some (hmac_ref [1; 2; 3] [104; 105]).
Proof.
  apply (sha1_equals_reference [1; 2; 3] [104; 105]); try (repeat constructor; unfold byte; lia); vm_compute; reflexivity.
Defined.

(** Feeding a message in any pieces gives the same context as far as the digest is concerned: the digest is that of the concatenation. *)
Theorem sha1_pieces pieces : Forall (fun p => Forall byte p /\ Z.of_nat (length p) < 2 ^ 29) pieces ->
  exists ctx, foldl (fun c p => let! c := c in sat_SHA1_Update c p) (Some sat_SHA1_Init) pieces = Some ctx /\
    sat_SHA1_Final ctx = Some (sha1_ref (concat pieces)).
Proof.
  intros Hp. enough (forall c m, fed c m -> exists ctx,
    foldl (fun c p => let! c := c in sat_SHA1_Update c p) (Some c) pieces = Some ctx /\ fed ctx (m ++ concat pieces)) as H.
  { destruct (H _ _ fed_init) as (ctx & E & Hf). exists ctx. split; [done | by apply final_ok]. }
  induction Hp as [|p pieces [Hb Hl] Hp IH]; intros c m Hf; cbn [foldl concat]; [exists c; by rewrite app_nil_r|].
  destruct (update_ok c m p Hf Hb Hl) as (c' & -> & Hf'). destruct (IH c' _ Hf') as (ctx & E & Hctx). exists ctx. by rewrite app_assoc.
Qed.

(** For longer strings the carry is counted twice: [len << 3] no longer fits the 32-bit counter it is compared with. *)
Lemma sha1_count_overflow : count_add 0 0 (2 ^ 29) = (0, 2) /\ (u32 (8 * 2 ^ 29), u32 (8 * 2 ^ 29 / 2 ^ 32)) = (0, 1).
Proof. split; reflexivity. Qed.
