(* ===== verification/Socket.v ===== *)
(** * The socket server ([skynet-src/socket_server.c], [skynet-src/socket_poll.h])

    One thread polls sockets and executes the commands that other threads write to a pipe.  The operating system is
    the class [Kernel]: a state of its own and one operation per system call, with the result the call can have.
    What the server does to the outside (bytes written, descriptors closed, memory freed, the poll set) is logged in order.

    The array of slots is a map from indices; an absent entry is a slot as [socket_server_create] leaves it.  A
    [wb_list] is the list of its buffers.  A failed assertion gives [None]. *)

From S2P Require Import Prelude CString.

Definition MAX_SOCKET_P : Z := 16.
Definition MAX_EVENT : Z := 64.
Definition MIN_READ_BUFFER : Z := 64.
Definition SOCKET_TYPE_INVALID : Z := 0.
Definition SOCKET_TYPE_RESERVE : Z := 1.
Definition SOCKET_TYPE_PLISTEN : Z := 2.
Definition SOCKET_TYPE_LISTEN : Z := 3.
Definition SOCKET_TYPE_CONNECTING : Z := 4.
Definition SOCKET_TYPE_CONNECTED : Z := 5.
Definition SOCKET_TYPE_HALFCLOSE : Z := 6.
Definition SOCKET_TYPE_PACCEPT : Z := 7.
Definition SOCKET_TYPE_BIND : Z := 8.
Definition MAX_SOCKET : Z := Z.shiftl 1 MAX_SOCKET_P.
Definition PRIORITY_HIGH : Z := 0.
Definition PRIORITY_LOW : Z := 1.
Definition HASH_ID (id : Z) : Z := u32 id mod MAX_SOCKET.
Definition PROTOCOL_TCP : Z := 0.
Definition PROTOCOL_UDP : Z := 1.
Definition PROTOCOL_UDPv6 : Z := 2.
Definition UDP_ADDRESS_SIZE : Z := 19.
Definition MAX_UDP_PACKAGE : Z := 65535.
Definition SOCKET_DATA : Z := 0.
Definition SOCKET_CLOSE : Z := 1.
Definition SOCKET_OPEN : Z := 2.
Definition SOCKET_ACCEPT : Z := 3.
Definition SOCKET_ERROR : Z := 4.
Definition SOCKET_EXIT : Z := 5.
Definition SOCKET_UDP : Z := 6.

(** ** The operating system *)

(** [EAGAIN] and [EWOULDBLOCK] are the same. *)
Inductive errno := EINTR | EAGAIN | EMFILE | ENFILE | EINPROGRESS | EOTHER (n : Z).

#[export] Instance errno_eq_dec : EqDecision errno.
Proof. solve_decision. Defined.

Inductive io (A : Type) := Done (a : A) | Failed (e : errno).
#[global] Arguments Done {A} a.
#[global] Arguments Failed {A} e.

(** A socket address: IPv4 or IPv6 with the bytes of port and address in network order. *)
Record sockaddr := MkAddr { sa_v6 : bool; sa_port : list Z; sa_addr : list Z }.

(** An event: the slot registered with the descriptor, [None] for the control pipe. *)
Record event := MkEvent { e_s : option Z; e_read : bool; e_write : bool }.

(** The system calls the server makes.  [k_write], [k_sendto] return the number of bytes taken, [k_read] and [k_recvfrom] the bytes
    read, [k_sp_add] whether it failed, [k_so_error] the pending error of a connection (0 for none), [k_getaddrinfo] the error or the addresses. *)
Class Kernel := {
  kernel : Type;
  k_write : Z -> list Z -> kernel -> io Z * kernel;
  k_sendto : Z -> list Z -> option sockaddr -> kernel -> io Z * kernel;
  k_read : Z -> Z -> kernel -> io (list Z) * kernel;
  k_recvfrom : Z -> Z -> kernel -> io (list Z * sockaddr) * kernel;
  k_close : Z -> kernel -> kernel;
  k_sp_add : Z -> option Z -> kernel -> bool * kernel;
  k_sp_del : Z -> kernel -> kernel;
  k_sp_write : Z -> Z -> bool -> kernel -> kernel;
  k_sp_wait : kernel -> list event * kernel;
  k_getaddrinfo : list Z -> Z -> bool -> kernel -> (Z + list sockaddr) * kernel;
  k_socket : bool -> bool -> kernel -> io Z * kernel;
  k_connect : Z -> sockaddr -> kernel -> io unit * kernel;
  k_so_error : Z -> kernel -> io Z * kernel;
  k_getpeername : Z -> kernel -> io sockaddr * kernel;
  k_accept : Z -> kernel -> io (Z * sockaddr) * kernel;
  k_bind : Z -> sockaddr -> kernel -> io unit * kernel;
  k_listen : Z -> Z -> kernel -> io unit * kernel;
  k_setopt : Z -> Z -> Z -> kernel -> io unit * kernel;
  k_nonblocking : Z -> kernel -> kernel;
  k_inet_ntop : sockaddr -> option (list Z);
  (** how often calls may still be interrupted *)
  k_patience : kernel -> nat;
  (** the bytes stored from an address on; a block given to the server keeps them *)
  k_mem : Z -> list Z;
}.

(** What the log records. *)
Inductive effect :=
  | Wrote (fd : Z) (data : list Z)
  | Sent (fd : Z) (data : list Z)
  | Closed (fd : Z)
  | PollAdd (fd : Z)
  | PollDel (fd : Z)
  | PollWrite (fd : Z) (enable : bool)
  | FreeBlock (buffer : Z)
  | FreeObject (object : Z).

(** ** State *)

(** [ptr] is [wb_base + wb_off], with [wb_base] the start of the data. *)
Record write_buffer := MkWb {
  wb_buffer : Z;
  wb_base : Z;
  wb_off : Z;
  wb_sz : Z;
  wb_userobject : bool;
  wb_udp_address : list Z;
}.

(** The union [p] is [s_size] for TCP and [s_udp_address] for UDP. *)
Record socket := MkSocket {
  s_opaque : Z;
  s_high : list write_buffer;
  s_low : list write_buffer;
  s_wb_size : Z;
  s_fd : Z;
  s_id : Z;
  s_protocol : Z;
  s_type : Z;
  s_size : Z;
  s_udp_address : list Z;
}.

(** A slot before its first use; only its type and lists are written. *)
Definition socket_init : socket := MkSocket 0 [] [] 0 0 0 0 SOCKET_TYPE_INVALID 0 [].

(** What a message carries: nothing, a text, the text of an error, or bytes. *)
Inductive msg_data := NoData | Str (text : list Z) | StrError (e : errno) | Gai (status : Z) | Bytes (l : list Z).

Record socket_message := MkMsg { m_id : Z; m_opaque : Z; m_ud : Z; m_data : msg_data }.

Inductive request :=
  | request_open (id port opaque : Z) (host : list Z)
  | request_send (id sz buffer : Z)
  | request_send_udp (id sz buffer : Z) (address : list Z)
  | request_setudp (id : Z) (address : list Z)
  | request_close (id shutdown opaque : Z)
  | request_listen (id fd opaque : Z)
  | request_bind (id fd opaque : Z)
  | request_start (id opaque : Z)
  | request_setopt (id what value : Z)
  | request_udp (id fd : Z) (v6 : bool) (opaque : Z)
  | request_exit.

(** A message in the control pipe: the two bytes of the header, the number of bytes that follow, and what they mean. *)
Record package := MkPackage { pk_type : Z; pk_len : Z; pk_size : Z; pk_request : request }.

Section Server.
Context {K : Kernel}.

(** [soi_free] frees an object; [ss_pipe] is the content of the control pipe. *)
Record socket_server := MkServer {
  ss_checkctrl : bool;
  ss_alloc_id : Z;
  ss_event_index : Z;
  ss_ev : list event;
  ss_slot : gmap Z socket;
  ss_pipe : list package;
  ss_soi_buffer : Z -> Z;
  ss_soi_size : Z -> Z;
  ss_kernel : kernel;
  ss_log : list effect;
}.

Definition slot_at ss (i : Z) : socket := default socket_init (ss_slot ss !! i).

(** Setters. *)
Definition set_slot (i : Z) (s : socket) ss : socket_server :=
  MkServer (ss_checkctrl ss) (ss_alloc_id ss) (ss_event_index ss) (ss_ev ss) (<[i := s]> (ss_slot ss)) (ss_pipe ss)
    (ss_soi_buffer ss) (ss_soi_size ss) (ss_kernel ss) (ss_log ss).
Definition set_pipe (p : list package) ss : socket_server :=
  MkServer (ss_checkctrl ss) (ss_alloc_id ss) (ss_event_index ss) (ss_ev ss) (ss_slot ss) p
    (ss_soi_buffer ss) (ss_soi_size ss) (ss_kernel ss) (ss_log ss).
Definition set_alloc (a : Z) ss : socket_server :=
  MkServer (ss_checkctrl ss) a (ss_event_index ss) (ss_ev ss) (ss_slot ss) (ss_pipe ss)
    (ss_soi_buffer ss) (ss_soi_size ss) (ss_kernel ss) (ss_log ss).
Definition set_events (c : bool) (i : Z) (ev : list event) ss : socket_server :=
  MkServer c (ss_alloc_id ss) i ev (ss_slot ss) (ss_pipe ss)
    (ss_soi_buffer ss) (ss_soi_size ss) (ss_kernel ss) (ss_log ss).
Definition set_kernel (k : kernel) ss : socket_server :=
  MkServer (ss_checkctrl ss) (ss_alloc_id ss) (ss_event_index ss) (ss_ev ss) (ss_slot ss) (ss_pipe ss)
    (ss_soi_buffer ss) (ss_soi_size ss) k (ss_log ss).
Definition add_log (e : effect) ss : socket_server :=
  MkServer (ss_checkctrl ss) (ss_alloc_id ss) (ss_event_index ss) (ss_ev ss) (ss_slot ss) (ss_pipe ss)
    (ss_soi_buffer ss) (ss_soi_size ss) (ss_kernel ss) (ss_log ss ++ [e]).

Definition with_type (t : Z) s : socket :=
  MkSocket (s_opaque s) (s_high s) (s_low s) (s_wb_size s) (s_fd s) (s_id s) (s_protocol s) t (s_size s) (s_udp_address s).
Definition with_lists (high low : list write_buffer) (wb_size : Z) s : socket :=
  MkSocket (s_opaque s) high low wb_size (s_fd s) (s_id s) (s_protocol s) (s_type s) (s_size s) (s_udp_address s).
Definition with_opaque (o : Z) s : socket :=
  MkSocket o (s_high s) (s_low s) (s_wb_size s) (s_fd s) (s_id s) (s_protocol s) (s_type s) (s_size s) (s_udp_address s).
Definition with_size (z : Z) s : socket :=
  MkSocket (s_opaque s) (s_high s) (s_low s) (s_wb_size s) (s_fd s) (s_id s) (s_protocol s) (s_type s) z (s_udp_address s).
Definition with_address (a : list Z) s : socket :=
  MkSocket (s_opaque s) (s_high s) (s_low s) (s_wb_size s) (s_fd s) (s_id s) (s_protocol s) (s_type s) (s_size s) a.

(** ** System calls *)

(** [write]: at most the bytes given are taken. *)
Definition sys_write (fd : Z) (data : list Z) ss : io Z * socket_server :=
  let '(r, k) := k_write fd data (ss_kernel ss) in
  let ss := set_kernel k ss in
  match r with
  | Done n => let n := Z.max 0 (Z.min n (Z.of_nat (length data))) in (Done n, add_log (Wrote fd (take (Z.to_nat n) data)) ss)
  | Failed e => (Failed e, ss)
  end.

Definition sys_sendto (fd : Z) (data : list Z) (addr : option sockaddr) ss : io Z * socket_server :=
  let '(r, k) := k_sendto fd data addr (ss_kernel ss) in
  let ss := set_kernel k ss in
  match r with
  | Done n => let n := Z.max 0 (Z.min n (Z.of_nat (length data))) in (Done n, add_log (Sent fd (take (Z.to_nat n) data)) ss)
  | Failed e => (Failed e, ss)
  end.

Definition sys_close (fd : Z) ss : socket_server := add_log (Closed fd) (set_kernel (k_close fd (ss_kernel ss)) ss).

Definition sp_add (fd : Z) (ud : option Z) ss : bool * socket_server :=
  let '(failed, k) := k_sp_add fd ud (ss_kernel ss) in
  let ss := set_kernel k ss in
  (failed, if failed : bool then ss else add_log (PollAdd fd) ss).
Definition sp_del (fd : Z) ss : socket_server := add_log (PollDel fd) (set_kernel (k_sp_del fd (ss_kernel ss)) ss).
Definition sp_write (fd ud : Z) (enable : bool) ss : socket_server :=
  add_log (PollWrite fd enable) (set_kernel (k_sp_write fd ud enable (ss_kernel ss)) ss).

(** Calls without a logged effect. *)
Definition call {A} (f : kernel -> A * kernel) ss : A * socket_server :=
  let '(a, k) := f (ss_kernel ss) in (a, set_kernel k ss).
Definition sp_nonblocking (fd : Z) ss : socket_server := set_kernel (k_nonblocking fd (ss_kernel ss)) ss.

(** ** Buffers *)

(** The start of the data, its size, and whether the object interface frees it. *)
Definition send_object_init ss (object sz : Z) : Z * Z * bool :=
  if sz <? 0 then (ss_soi_buffer ss object, ss_soi_size ss object, true) else (object, sz, false).

(** [so.free_func(object)]. *)
Definition free_object (user : bool) (object : Z) ss : socket_server :=
  add_log (if user then FreeObject object else FreeBlock object) ss.

Definition write_buffer_free ss (wb : write_buffer) : socket_server := free_object (wb_userobject wb) (wb_buffer wb) ss.

(** [n] bytes at [base + off]. *)
Definition bytes_at (base off n : Z) : list Z := take (Z.to_nat n) (drop (Z.to_nat off) (k_mem base)).

Definition wb_data (wb : write_buffer) : list Z := bytes_at (wb_base wb) (wb_off wb) (wb_sz wb).

(** SO_KEEPALIVE. *)
Definition socket_keepalive (fd : Z) ss : socket_server := snd (call (k_setopt fd 9 1) ss).

(** ** Slots *)

(** The loop of [reserve_id]; no other thread runs between its atomic operations, so the exchange of the type succeeds. *)
Fixpoint reserve_loop (n : nat) ss : Z * socket_server :=
  match n with
  | O => (-1, ss)
  | S n =>
      let id := i32 (ss_alloc_id ss + 1) in
      let id := if id <? 0 then Z.land id 0x7fffffff else id in
      let ss := set_alloc id ss in
      let s := slot_at ss (HASH_ID id) in
      if s_type s =? SOCKET_TYPE_INVALID then
        (id, set_slot (HASH_ID id) (MkSocket (s_opaque s) (s_high s) (s_low s) (s_wb_size s) (-1) id (s_protocol s)
               SOCKET_TYPE_RESERVE (s_size s) (s_udp_address s)) ss)
      else reserve_loop n ss
  end.

Definition reserve_id ss : Z * socket_server := reserve_loop (Z.to_nat MAX_SOCKET) ss.

Definition free_wb_list (list : list write_buffer) ss : socket_server := foldl write_buffer_free ss list.

(** Closes the socket in slot [i]; the message to its owner. *)
Definition force_close (i : Z) ss : option (socket_message * socket_server) :=
  let s := slot_at ss i in
  let result := MkMsg (s_id s) (s_opaque s) 0 NoData in
  if s_type s =? SOCKET_TYPE_INVALID then Some (result, ss) else
  assert! negb (s_type s =? SOCKET_TYPE_RESERVE) ;;
  let ss := free_wb_list (s_high s) ss in
  let ss := free_wb_list (s_low s) ss in
  let ss := if negb (s_type s =? SOCKET_TYPE_PACCEPT) && negb (s_type s =? SOCKET_TYPE_PLISTEN) then sp_del (s_fd s) ss else ss in
  let ss := if negb (s_type s =? SOCKET_TYPE_BIND) then sys_close (s_fd s) ss else ss in
  Some (result, set_slot i (with_type SOCKET_TYPE_INVALID (with_lists [] [] (s_wb_size s) s)) ss).

(** The slots are closed one after the other, then the pipe and the poll descriptor, which are not part of this state. *)
Definition socket_server_release ss : option socket_server :=
  for_loop (Z.to_nat MAX_SOCKET) 0 (fun i ss =>
    if negb (s_type (slot_at ss i) =? SOCKET_TYPE_RESERVE) then let! (_, ss) := force_close i ss in Some ss else Some ss) ss.

(** The result is whether the slot could be used ([false] is [NULL]). *)
Definition new_fd (id fd protocol opaque : Z) (add : bool) ss : option (bool * socket_server) :=
  let i := HASH_ID id in
  let s := slot_at ss i in
  assert! s_type s =? SOCKET_TYPE_RESERVE ;;
  let '(failed, ss) := if add then sp_add fd (Some i) ss else (false, ss) in
  if failed : bool then Some (false, set_slot i (with_type SOCKET_TYPE_INVALID s) ss) else
  assert! bool_decide (s_high s = []) && bool_decide (s_low s = []) ;;
  Some (true, set_slot i (MkSocket opaque (s_high s) (s_low s) 0 fd id protocol (s_type s) MIN_READ_BUFFER (s_udp_address s)) ss).

Definition set_type (i t : Z) ss : socket_server := set_slot i (with_type t (slot_at ss i)) ss.

(** The addresses are tried in turn: the descriptor, whether the connection is made already, and its address; the last error otherwise. *)
Fixpoint connect_loop (ai : list sockaddr) (last : errno) ss : (Z * bool * sockaddr + errno) * socket_server :=
  match ai with
  | [] => (inr last, ss)
  | a :: ai =>
      let '(r, ss) := call (k_socket (sa_v6 a) true) ss in
      match r with
      | Failed e => connect_loop ai e ss
      | Done sock =>
          let ss := socket_keepalive sock ss in
          let ss := sp_nonblocking sock ss in
          let '(r, ss) := call (k_connect sock a) ss in
          match r with
          | Done _ => (inl (sock, true, a), ss)
          | Failed EINPROGRESS => (inl (sock, false, a), ss)
          | Failed e => connect_loop ai e (sys_close sock ss)
          end
      end
  end.

(** The text of an address, [None] when it has none. *)
Definition address_text (a : sockaddr) : msg_data := match k_inet_ntop a with Some t => Str t | None => NoData end.

Definition open_socket (id port opaque : Z) (host : list Z) ss : option (Z * socket_message * socket_server) :=
  let failed d ss := Some (SOCKET_ERROR, MkMsg id opaque 0 d, set_type (HASH_ID id) SOCKET_TYPE_INVALID ss) in
  let '(r, ss) := call (k_getaddrinfo host port true) ss in
  match r with
  | inl status => failed (Gai status) ss
  | inr ai =>
      let '(c, ss) := connect_loop ai (EOTHER 0) ss in
      match c with
      | inr e => failed (StrError e) ss
      | inl (sock, connected, a) =>
          let! (ok, ss) := new_fd id sock PROTOCOL_TCP opaque true ss in
          if negb ok then failed (Str (str "reach skynet socket number limit")) (sys_close sock ss) else
          if connected : bool then
            Some (SOCKET_OPEN, MkMsg id opaque 0 (address_text a), set_type (HASH_ID id) SOCKET_TYPE_CONNECTED ss)
          else
            let ss := set_type (HASH_ID id) SOCKET_TYPE_CONNECTING ss in
            Some (-1, MkMsg id opaque 0 NoData, sp_write sock (HASH_ID id) true ss)
      end
  end.

(** ** Sending *)

(** [write] again when it was interrupted. *)
Fixpoint write_retry (fuel : nat) (fd : Z) (data : list Z) ss : option (io Z * socket_server) :=
  let '(r, ss) := sys_write fd data ss in
  match r with
  | Failed EINTR => match fuel with O => None | S fuel => write_retry fuel fd data ss end
  | _ => Some (r, ss)
  end.

(** What remains of a list, and whether the connection broke.  The caller stores the list, or closes the socket. *)
Inductive sent := Again (rest : list write_buffer) | Broken (rest : list write_buffer).

(** One pass for each buffer that is written. *)
Fixpoint send_list_tcp (fd : Z) (list : list write_buffer) (wb_size : Z) ss : option (sent * Z * socket_server) :=
  match list with
  | [] => Some (Again [], wb_size, ss)
  | tmp :: next =>
      let! (r, ss) := write_retry (k_patience (ss_kernel ss)) fd (wb_data tmp) ss in
      match r with
      | Failed EAGAIN => Some (Again list, wb_size, ss)
      | Failed _ => Some (Broken list, wb_size, ss)
      | Done sz =>
          let wb_size := wb_size - sz in
          if negb (sz =? wb_sz tmp) then
            Some (Again (MkWb (wb_buffer tmp) (wb_base tmp) (wb_off tmp + sz) (wb_sz tmp - sz) (wb_userobject tmp) (wb_udp_address tmp) :: next), wb_size, ss)
          else send_list_tcp fd next wb_size (write_buffer_free ss tmp)
      end
  end.

(** The address of a datagram, [None] when it does not have the protocol of the socket. *)
Definition udp_socket_address (protocol : Z) (udp_address : list Z) : option sockaddr :=
  match udp_address with
  | type :: rest =>
      if negb (type =? protocol) then None else
      if protocol =? PROTOCOL_UDP then Some (MkAddr false (take 2 rest) (take 4 (drop 2 rest))) else
      if protocol =? PROTOCOL_UDPv6 then Some (MkAddr true (take 2 rest) (take 16 (drop 2 rest))) else None
  | [] => None
  end.

Fixpoint send_list_udp (fd protocol : Z) (list : list write_buffer) (wb_size : Z) ss : sent * Z * socket_server :=
  match list with
  | [] => (Again [], wb_size, ss)
  | tmp :: next =>
      let '(r, ss) := sys_sendto fd (wb_data tmp) (udp_socket_address protocol (wb_udp_address tmp)) ss in
      match r with
      | Failed _ => (Again list, wb_size, ss)
      | Done _ => send_list_udp fd protocol next (wb_size - wb_sz tmp) (write_buffer_free ss tmp)
      end
  end.

Definition send_list s (list : list write_buffer) ss : option (sent * Z * socket_server) :=
  if s_protocol s =? PROTOCOL_TCP then send_list_tcp (s_fd s) list (s_wb_size s) ss
  else Some (send_list_udp (s_fd s) (s_protocol s) list (s_wb_size s) ss).

(** The head of the list has been written in part. *)
Definition list_uncomplete (list : list write_buffer) : bool :=
  match list with
  | [] => false
  | wb :: _ => negb (wb_base wb + wb_off wb =? wb_buffer wb)
  end.

(** Moves the head of the low list to the empty high list. *)
Definition raise_uncomplete s : option socket :=
  match s_low s with
  | [] => None
  | tmp :: low =>
      assert! bool_decide (s_high s = []) ;;
      Some (with_lists [tmp] low (s_wb_size s) s)
  end.

(** Closes slot [i] and reports it. *)
Definition close_result (i : Z) ss : option (Z * option socket_message * socket_server) :=
  let! (m, ss) := force_close i ss in Some (SOCKET_CLOSE, Some m, ss).

Definition send_buffer (i : Z) ss : option (Z * option socket_message * socket_server) :=
  let s := slot_at ss i in
  assert! negb (list_uncomplete (s_low s)) ;;
  let! (r, size, ss) := send_list s (s_high s) ss in
  match r with
  | Broken high => close_result i (set_slot i (with_lists high (s_low s) size s) ss)
  | Again high =>
      let s := with_lists high (s_low s) size s in
      let ss := set_slot i s ss in
      if negb (bool_decide (high = [])) then Some (-1, None, ss) else
      if negb (bool_decide (s_low s = [])) then
        let! (r, size, ss) := send_list s (s_low s) ss in
        match r with
        | Broken low => close_result i (set_slot i (with_lists high low size s) ss)
        | Again low =>
            let s := with_lists high low size s in
            let! s := if list_uncomplete low then raise_uncomplete s else Some s in
            Some (-1, None, set_slot i s ss)
        end
      else
        let ss := sp_write (s_fd s) i false ss in
        if s_type s =? SOCKET_TYPE_HALFCLOSE then close_result i ss else Some (-1, None, ss)
  end.

(** A buffer for a request, [n] bytes of which are written already. *)
Definition append_sendbuffer_ ss (wl : list write_buffer) (buffer sz n : Z) (address : list Z) : list write_buffer * Z :=
  let '(base, size, user) := send_object_init ss buffer sz in
  (wl ++ [MkWb buffer base n (size - n) user address], size - n).

Definition append_sendbuffer_udp (i priority buffer sz : Z) (udp_address : list Z) ss : socket_server :=
  let s := slot_at ss i in
  if priority =? PRIORITY_HIGH then
    let '(high, n) := append_sendbuffer_ ss (s_high s) buffer sz 0 udp_address in
    set_slot i (with_lists high (s_low s) (s_wb_size s + n) s) ss
  else
    let '(low, n) := append_sendbuffer_ ss (s_low s) buffer sz 0 udp_address in
    set_slot i (with_lists (s_high s) low (s_wb_size s + n) s) ss.

Definition append_sendbuffer (i buffer sz n : Z) ss : socket_server :=
  let s := slot_at ss i in
  let '(high, m) := append_sendbuffer_ ss (s_high s) buffer sz n [] in
  set_slot i (with_lists high (s_low s) (s_wb_size s + m) s) ss.

Definition append_sendbuffer_low (i buffer sz : Z) ss : socket_server :=
  let s := slot_at ss i in
  let '(low, m) := append_sendbuffer_ ss (s_low s) buffer sz 0 [] in
  set_slot i (with_lists (s_high s) low (s_wb_size s + m) s) ss.

Definition send_buffer_empty s : bool := bool_decide (s_high s = []) && bool_decide (s_low s = []).

Definition send_socket (id sz buffer priority : Z) (udp_address : option (list Z)) ss : option (Z * option socket_message * socket_server) :=
  let i := HASH_ID id in
  let s := slot_at ss i in
  let '(base, size, user) := send_object_init ss buffer sz in
  let freed ss := free_object user buffer ss in
  if (s_type s =? SOCKET_TYPE_INVALID) || negb (s_id s =? id) || (s_type s =? SOCKET_TYPE_HALFCLOSE) || (s_type s =? SOCKET_TYPE_PACCEPT)
  then Some (-1, None, freed ss) else
  if (s_type s =? SOCKET_TYPE_PLISTEN) || (s_type s =? SOCKET_TYPE_LISTEN) then Some (-1, None, freed ss) else
  let address := match udp_address with Some a => a | None => s_udp_address s end in
  if send_buffer_empty s && (s_type s =? SOCKET_TYPE_CONNECTED) then
    if s_protocol s =? PROTOCOL_TCP then
      let '(r, ss) := sys_write (s_fd s) (bytes_at base 0 size) ss in
      let partial n ss :=
        if n =? size then Some (-1, None, freed ss)
        else Some (-1, None, sp_write (s_fd s) i true (append_sendbuffer i buffer sz n ss)) in
      match r with
      | Done n => partial n ss
      | Failed EINTR | Failed EAGAIN => partial 0 ss
      | Failed _ => let! (m, ss) := force_close i ss in Some (SOCKET_CLOSE, Some m, freed ss)
      end
    else
      let '(r, ss) := sys_sendto (s_fd s) (bytes_at base 0 size) (udp_socket_address (s_protocol s) address) ss in
      if (match r with Done n => n =? size | Failed _ => false end) then Some (-1, None, freed ss)
      else Some (-1, None, sp_write (s_fd s) i true (append_sendbuffer_udp i priority buffer sz address ss))
  else
    if s_protocol s =? PROTOCOL_TCP then
      if priority =? PRIORITY_LOW then Some (-1, None, append_sendbuffer_low i buffer sz ss)
      else Some (-1, None, append_sendbuffer i buffer sz 0 ss)
    else Some (-1, None, append_sendbuffer_udp i priority buffer sz address ss).

(** ** Commands *)

Definition limit_text : msg_data := Str (str "reach skynet socket number limit").

Definition listen_socket (id fd opaque : Z) ss : option (Z * option socket_message * socket_server) :=
  let! (ok, ss) := new_fd id fd PROTOCOL_TCP opaque false ss in
  if ok : bool then Some (-1, None, set_type (HASH_ID id) SOCKET_TYPE_PLISTEN ss)
  else Some (SOCKET_ERROR, Some (MkMsg id opaque 0 limit_text), set_type (HASH_ID id) SOCKET_TYPE_INVALID (sys_close fd ss)).

Definition close_socket (id shutdown opaque : Z) ss : option (Z * option socket_message * socket_server) :=
  let i := HASH_ID id in
  let s := slot_at ss i in
  if (s_type s =? SOCKET_TYPE_INVALID) || negb (s_id s =? id) then Some (SOCKET_CLOSE, Some (MkMsg id opaque 0 NoData), ss) else
  let! (type, m, ss) := if negb (send_buffer_empty s) then send_buffer i ss else Some (-1, None, ss) in
  if negb (type =? -1) then Some (type, m, ss) else
  if negb (shutdown =? 0) || send_buffer_empty (slot_at ss i) then
    let! (m, ss) := force_close i ss in
    Some (SOCKET_CLOSE, Some (MkMsg id opaque (m_ud m) (m_data m)), ss)
  else Some (-1, None, set_type i SOCKET_TYPE_HALFCLOSE ss).

Definition bind_socket (id fd opaque : Z) ss : option (Z * option socket_message * socket_server) :=
  let! (ok, ss) := new_fd id fd PROTOCOL_TCP opaque true ss in
  if ok : bool then
    let ss := sp_nonblocking fd ss in
    Some (SOCKET_OPEN, Some (MkMsg id opaque 0 (Str (str "binding"))), set_type (HASH_ID id) SOCKET_TYPE_BIND ss)
  else Some (SOCKET_ERROR, Some (MkMsg id opaque 0 limit_text), ss).

Definition start_socket (id opaque : Z) ss : option (Z * option socket_message * socket_server) :=
  let i := HASH_ID id in
  let s := slot_at ss i in
  let result d := Some (MkMsg id opaque 0 d) in
  if (s_type s =? SOCKET_TYPE_INVALID) || negb (s_id s =? id) then Some (SOCKET_ERROR, result (Str (str "invalid socket")), ss) else
  if (s_type s =? SOCKET_TYPE_PACCEPT) || (s_type s =? SOCKET_TYPE_PLISTEN) then
    let '(failed, ss) := sp_add (s_fd s) (Some i) ss in
    if failed : bool then
      let! (m, ss) := force_close i ss in
      Some (SOCKET_ERROR, Some (MkMsg (m_id m) (m_opaque m) (m_ud m) (StrError (EOTHER 0))), ss)
    else
      let t := if s_type s =? SOCKET_TYPE_PACCEPT then SOCKET_TYPE_CONNECTED else SOCKET_TYPE_LISTEN in
      Some (SOCKET_OPEN, result (Str (str "start")), set_slot i (with_opaque opaque (with_type t s)) ss)
  else if s_type s =? SOCKET_TYPE_CONNECTED then
    Some (SOCKET_OPEN, result (Str (str "transfer")), set_slot i (with_opaque opaque s) ss)
  else Some (-1, None, ss).

Definition setopt_socket (id what value : Z) ss : socket_server :=
  let s := slot_at ss (HASH_ID id) in
  if (s_type s =? SOCKET_TYPE_INVALID) || negb (s_id s =? id) then ss else snd (call (k_setopt (s_fd s) what value) ss).

(** A message is read from the pipe at once; the assertion is that the header tells its length. *)
Definition block_readpipe ss : option (package * socket_server) :=
  match ss_pipe ss with
  | [] => None
  | p :: pipe => assert! pk_len p =? pk_size p ;; Some (p, set_pipe pipe ss)
  end.

(** [select] on the pipe. *)
Definition has_cmd ss : bool := negb (bool_decide (ss_pipe ss = [])).

Definition add_udp_socket (id fd : Z) (v6 : bool) (opaque : Z) ss : option socket_server :=
  let i := HASH_ID id in
  let! (ok, ss) := new_fd id fd (if v6 then PROTOCOL_UDPv6 else PROTOCOL_UDP) opaque true ss in
  if ok : bool then Some (set_slot i (with_address (malloc UDP_ADDRESS_SIZE) (with_type SOCKET_TYPE_CONNECTED (slot_at ss i))) ss)
  else Some (set_type i SOCKET_TYPE_INVALID (sys_close fd ss)).

Definition set_udp_address (id : Z) (address : list Z) ss : option (Z * option socket_message * socket_server) :=
  let i := HASH_ID id in
  let s := slot_at ss i in
  if (s_type s =? SOCKET_TYPE_INVALID) || negb (s_id s =? id) then Some (-1, None, ss) else
  let! type := aget address 0 in
  if negb (type =? s_protocol s) then Some (SOCKET_ERROR, Some (MkMsg (s_id s) (s_opaque s) 0 (Str (str "protocol mismatch"))), ss) else
  let n := if type =? PROTOCOL_UDP then 1 + 2 + 4 else 1 + 2 + 16 in
  let! bytes := memcpy address 0 n in
  let! a := memcpy_at (s_udp_address s) 0 bytes in
  Some (-1, None, set_slot i (with_address a s) ss).

Definition ctrl_cmd ss : option (Z * option socket_message * socket_server) :=
  let! (p, ss) := block_readpipe ss in
  let type := pk_type p in
  match pk_request p with
  | request_start id opaque => assert! type =? 83 ;; start_socket id opaque ss
  | request_bind id fd opaque => assert! type =? 66 ;; bind_socket id fd opaque ss
  | request_listen id fd opaque => assert! type =? 76 ;; listen_socket id fd opaque ss
  | request_close id shutdown opaque => assert! type =? 75 ;; close_socket id shutdown opaque ss
  | request_open id port opaque host =>
      assert! type =? 79 ;;
      let! (t, m, ss) := open_socket id port opaque host ss in Some (t, Some m, ss)
  | request_exit => assert! type =? 88 ;; Some (SOCKET_EXIT, Some (MkMsg 0 0 0 NoData), ss)
  | request_send id sz buffer =>
      if type =? 68 then send_socket id sz buffer PRIORITY_HIGH None ss
      else assert! type =? 80 ;; send_socket id sz buffer PRIORITY_LOW None ss
  | request_send_udp id sz buffer address => assert! type =? 65 ;; send_socket id sz buffer PRIORITY_HIGH (Some address) ss
  | request_setudp id address => assert! type =? 67 ;; set_udp_address id address ss
  | request_setopt id what value => assert! type =? 84 ;; Some (-1, None, setopt_socket id what value ss)
  | request_udp id fd v6 opaque => assert! type =? 85 ;; let! ss := add_udp_socket id fd v6 opaque ss in Some (-1, None, ss)
  end.

(** ** Events *)

(** [errno] of a failed call that closes the socket. *)
Definition error_result (i : Z) (e : errno) ss : option (Z * option socket_message * socket_server) :=
  let! (m, ss) := force_close i ss in
  Some (SOCKET_ERROR, Some (MkMsg (m_id m) (m_opaque m) (m_ud m) (StrError e)), ss).

(** [read] returns at most the bytes asked for. *)
Definition forward_message_tcp (i : Z) ss : option (Z * option socket_message * socket_server) :=
  let s := slot_at ss i in
  let sz := s_size s in
  let '(r, ss) := call (k_read (s_fd s) sz) ss in
  match r with
  | Failed EINTR | Failed EAGAIN => Some (-1, None, ss)
  | Failed e => error_result i e ss
  | Done data =>
      let data := take (Z.to_nat sz) data in
      let n := Z.of_nat (length data) in
      if n =? 0 then close_result i ss else
      if s_type s =? SOCKET_TYPE_HALFCLOSE then Some (-1, None, ss) else
      let size := if n =? sz then i32 (sz * 2) else if (MIN_READ_BUFFER <? sz) && (n * 2 <? sz) then sz / 2 else sz in
      Some (SOCKET_DATA, Some (MkMsg (s_id s) (s_opaque s) n (Bytes data)), set_slot i (with_size size s) ss)
  end.

Definition gen_udp_address (protocol : Z) (sa : sockaddr) : list Z :=
  u8 protocol :: take 2 (sa_port sa) ++ take (if protocol =? PROTOCOL_UDP then 4 else 16) (sa_addr sa).

Definition forward_message_udp (i : Z) ss : option (Z * option socket_message * socket_server) :=
  let s := slot_at ss i in
  let '(r, ss) := call (k_recvfrom (s_fd s) MAX_UDP_PACKAGE) ss in
  match r with
  | Failed EINTR | Failed EAGAIN => Some (-1, None, ss)
  | Failed e => error_result i e ss
  | Done (data, sa) =>
      let data := take (Z.to_nat MAX_UDP_PACKAGE) data in
      let n := Z.of_nat (length data) in
      let protocol := if sa_v6 sa then PROTOCOL_UDPv6 else PROTOCOL_UDP in
      if negb (s_protocol s =? protocol) then Some (-1, None, ss) else
      Some (SOCKET_UDP, Some (MkMsg (s_id s) (s_opaque s) n (Bytes (data ++ gen_udp_address protocol sa))), ss)
  end.

Definition report_connect (i : Z) ss : option (Z * option socket_message * socket_server) :=
  let s := slot_at ss i in
  let '(r, ss) := call (k_so_error (s_fd s)) ss in
  match r with
  | Failed e => error_result i e ss
  | Done error =>
      if negb (error =? 0) then error_result i (EOTHER error) ss else
      let s := with_type SOCKET_TYPE_CONNECTED s in
      let ss := set_slot i s ss in
      let ss := if send_buffer_empty s then sp_write (s_fd s) i false ss else ss in
      let '(p, ss) := call (k_getpeername (s_fd s)) ss in
      let data := match p with Done a => address_text a | Failed _ => NoData end in
      Some (SOCKET_OPEN, Some (MkMsg (s_id s) (s_opaque s) 0 data), ss)
  end.

(** [ntohs]. *)
Definition port_number (port : list Z) : Z := match port with hi :: lo :: _ => hi * 256 + lo | _ => 0 end.

(** The text of a peer's address in the buffer of [MAX_INFO] bytes. *)
Definition peer_text (a : sockaddr) : msg_data :=
  match k_inet_ntop a with
  | Some t => Str (snprintf 128 (t ++ str ":" ++ decimal (port_number (sa_port a))))
  | None => NoData
  end.

(** 0 when there is nothing to report, -1 when out of descriptors. *)
Definition report_accept (i : Z) ss : option (Z * option socket_message * socket_server) :=
  let s := slot_at ss i in
  let '(r, ss) := call (k_accept (s_fd s)) ss in
  match r with
  | Failed EMFILE => Some (-1, Some (MkMsg (s_id s) (s_opaque s) 0 (StrError EMFILE)), ss)
  | Failed ENFILE => Some (-1, Some (MkMsg (s_id s) (s_opaque s) 0 (StrError ENFILE)), ss)
  | Failed _ => Some (0, None, ss)
  | Done (client_fd, u) =>
      let '(id, ss) := reserve_id ss in
      if id <? 0 then Some (0, None, sys_close client_fd ss) else
      let ss := sp_nonblocking client_fd (socket_keepalive client_fd ss) in
      let! (ok, ss) := new_fd id client_fd PROTOCOL_TCP (s_opaque s) false ss in
      if negb ok then Some (0, None, sys_close client_fd ss) else
      Some (1, Some (MkMsg (s_id s) (s_opaque s) id (peer_text u)), set_type (HASH_ID id) SOCKET_TYPE_PACCEPT ss)
  end.

(** The first remaining event of a closed socket is dropped. *)
Fixpoint clear_events ss (id : Z) (ev : list event) : list event :=
  match ev with
  | [] => []
  | e :: ev =>
      match e_s e with
      | Some i =>
          let s := slot_at ss i in
          if (s_type s =? SOCKET_TYPE_INVALID) && (s_id s =? id) then MkEvent None (e_read e) (e_write e) :: ev
          else e :: clear_events ss id ev
      | None => e :: clear_events ss id ev
      end
  end.

Definition clear_closed_event (m : option socket_message) (type : Z) ss : socket_server :=
  match m with
  | Some m =>
      if (type =? SOCKET_CLOSE) || (type =? SOCKET_ERROR) then
        let n := Z.to_nat (ss_event_index ss) in
        set_events (ss_checkctrl ss) (ss_event_index ss) (take n (ss_ev ss) ++ clear_events ss (m_id m) (drop n (ss_ev ss))) ss
      else ss
  | None => ss
  end.

(** What a pass of the loop of [socket_server_poll] ends with: the next pass, or a return value with the message. *)
Inductive pass := Continue | Return (type : Z) (m : option socket_message).

(** The event [e] at [index] of a socket that is neither connecting, listening nor closed. *)
Definition handle_io (i index : Z) (e : event) ss : option (pass * socket_server) :=
  let s := slot_at ss i in
  if e_read e then
    let! (type, m, ss) := if s_protocol s =? PROTOCOL_TCP then forward_message_tcp i ss else forward_message_udp i ss in
    if negb (s_protocol s =? PROTOCOL_TCP) && (type =? SOCKET_UDP) then
      Some (Return SOCKET_UDP m, set_events (ss_checkctrl ss) index (ss_ev ss) ss)
    else
      let ss :=
        if e_write e && negb (type =? SOCKET_CLOSE) && negb (type =? SOCKET_ERROR) then
          set_events (ss_checkctrl ss) index (<[Z.to_nat index := MkEvent (e_s e) false (e_write e)]> (ss_ev ss)) ss
        else ss in
      Some (if type =? -1 then Continue else Return type m, ss)
  else if e_write e then
    let! (type, m, ss) := send_buffer i ss in
    Some (if type =? -1 then Continue else Return type m, ss)
  else Some (Continue, ss).

(** The event at the current index. *)
Definition poll_event ss : option (pass * socket_server) :=
  let index := ss_event_index ss in
  let! e := aget (ss_ev ss) index in
  let ss := set_events (ss_checkctrl ss) (index + 1) (ss_ev ss) ss in
  match e_s e with
  | None => Some (Continue, ss)
  | Some i =>
      let t := s_type (slot_at ss i) in
      if t =? SOCKET_TYPE_CONNECTING then
        let! (type, m, ss) := report_connect i ss in Some (Return type m, ss)
      else if t =? SOCKET_TYPE_LISTEN then
        let! (ok, m, ss) := report_accept i ss in
        Some (if 0 <? ok then Return SOCKET_ACCEPT m else if ok <? 0 then Return SOCKET_ERROR m else Continue, ss)
      else if t =? SOCKET_TYPE_INVALID then Some (Continue, ss)
      else handle_io i index e ss
  end.

(** One pass; [more] is cleared when the poll set is waited for. *)
Definition poll_pass (more : Z) ss : option (pass * Z * socket_server) :=
  if ss_checkctrl ss && has_cmd ss then
    let! (type, m, ss) := ctrl_cmd ss in
    if negb (type =? -1) then Some (Return type m, more, clear_closed_event m type ss) else Some (Continue, more, ss)
  else
    let ss := set_events false (ss_event_index ss) (ss_ev ss) ss in
    if ss_event_index ss =? Z.of_nat (length (ss_ev ss)) then
      let '(ev, ss) := call k_sp_wait ss in
      let ev := take (Z.to_nat MAX_EVENT) ev in
      let ss := set_events true 0 ev ss in
      if bool_decide (ev = []) then Some (Return (-1) None, 0, ss) else
      let! (p, ss) := poll_event ss in Some (p, 0, ss)
    else
      let! (p, ss) := poll_event ss in Some (p, more, ss).

(** At most [fuel] passes. *)
Fixpoint socket_server_poll (fuel : nat) (more : Z) ss : option (Z * option socket_message * Z * socket_server) :=
  let! (p, more, ss) := poll_pass more ss in
  match p with
  | Return type m => Some (type, m, more, ss)
  | Continue => match fuel with O => None | S fuel => socket_server_poll fuel more ss end
  end.

(** ** Requests of other threads *)

(** The sizes of the request structures on a 64-bit host. *)
Definition SIZEOF_OPEN : Z := 24.
Definition SIZEOF_SEND : Z := 16.
Definition SIZEOF_CLOSE : Z := 16.
Definition SIZEOF_LISTEN : Z := 24.
Definition SIZEOF_BIND : Z := 16.
Definition SIZEOF_START : Z := 16.
Definition SIZEOF_SETOPT : Z := 12.
Definition SIZEOF_UDP : Z := 24.
Definition SIZEOF_SETUDP : Z := 24.

(** The length is cut to one byte; the write to the pipe is repeated until it is done. *)
Definition send_request (r : request) (type len : Z) ss : socket_server :=
  set_pipe (ss_pipe ss ++ [MkPackage (u8 type) (u8 len) len r]) ss.

(** The request to open a connection and the length of the address, if that is not too long and there is a slot. *)
Definition open_request (opaque : Z) (addr : list Z) (port : Z) ss : option (request * Z) * socket_server :=
  let len := Z.of_nat (length addr) in
  if 256 <=? len + SIZEOF_OPEN then (None, ss) else
  let '(id, ss) := reserve_id ss in
  if id <? 0 then (None, ss) else (Some (request_open id port opaque addr, len), ss).

Definition socket_server_connect (opaque : Z) (addr : list Z) (port : Z) ss : Z * socket_server :=
  let '(r, ss) := open_request opaque addr port ss in
  match r with
  | Some (request_open id port opaque host as q, len) => (id, send_request q 79 (SIZEOF_OPEN + len) ss)
  | _ => (-1, ss)
  end.

Definition free_buffer (buffer sz : Z) ss : socket_server :=
  let '(_, _, user) := send_object_init ss buffer sz in free_object user buffer ss.

(** The slot is not that of socket [id]. *)
Definition not_socket (id : Z) ss : bool :=
  let s := slot_at ss (HASH_ID id) in negb (s_id s =? id) || (s_type s =? SOCKET_TYPE_INVALID).

Definition socket_server_send (id buffer sz : Z) ss : Z * socket_server :=
  if not_socket id ss then (-1, free_buffer buffer sz ss) else
  (s_wb_size (slot_at ss (HASH_ID id)), send_request (request_send id sz buffer) 68 SIZEOF_SEND ss).

Definition socket_server_send_lowpriority (id buffer sz : Z) ss : socket_server :=
  if not_socket id ss then free_buffer buffer sz ss else send_request (request_send id sz buffer) 80 SIZEOF_SEND ss.

Definition socket_server_exit ss : socket_server := send_request request_exit 88 0 ss.
Definition socket_server_close (opaque id : Z) ss : socket_server := send_request (request_close id 0 opaque) 75 SIZEOF_CLOSE ss.
Definition socket_server_shutdown (opaque id : Z) ss : socket_server := send_request (request_close id 1 opaque) 75 SIZEOF_CLOSE ss.

(** [tcp] tells the protocol; [None] is a failure, otherwise the descriptor and the family. *)
Definition do_bind (host : list Z) (port : Z) (tcp : bool) ss : option (Z * bool) * socket_server :=
  let host := if bool_decide (host = []) then str "0.0.0.0" else host in
  let '(r, ss) := call (k_getaddrinfo host port tcp) ss in
  match r with
  | inr (a :: _) =>
      let '(f, ss) := call (k_socket (sa_v6 a) tcp) ss in
      match f with
      | Failed _ => (None, ss)
      | Done fd =>
          let '(o, ss) := call (k_setopt fd 2 1) ss in
          match o with
          | Failed _ => (None, sys_close fd ss)
          | Done _ =>
              let '(b, ss) := call (k_bind fd a) ss in
              match b with Failed _ => (None, sys_close fd ss) | Done _ => (Some (fd, sa_v6 a), ss) end
          end
      end
  | _ => (None, ss)
  end.

Definition do_listen (host : list Z) (port backlog : Z) ss : Z * socket_server :=
  let '(r, ss) := do_bind host port true ss in
  match r with
  | None => (-1, ss)
  | Some (fd, _) =>
      let '(l, ss) := call (k_listen fd backlog) ss in
      match l with Failed _ => (-1, sys_close fd ss) | Done _ => (fd, ss) end
  end.

Definition socket_server_listen (opaque : Z) (addr : list Z) (port backlog : Z) ss : Z * socket_server :=
  let '(fd, ss) := do_listen addr port backlog ss in
  if fd <? 0 then (-1, ss) else
  let '(id, ss) := reserve_id ss in
  if id <? 0 then (id, sys_close fd ss) else (id, send_request (request_listen id fd opaque) 76 SIZEOF_LISTEN ss).

Definition socket_server_bind (opaque fd : Z) ss : Z * socket_server :=
  let '(id, ss) := reserve_id ss in
  if id <? 0 then (-1, ss) else (id, send_request (request_bind id fd opaque) 66 SIZEOF_BIND ss).

Definition socket_server_start (opaque id : Z) ss : socket_server := send_request (request_start id opaque) 83 SIZEOF_START ss.

(** TCP_NODELAY. *)
Definition socket_server_nodelay (id : Z) ss : socket_server := send_request (request_setopt id 1 1) 84 SIZEOF_SETOPT ss.

Definition socket_server_userobject (buffer size : Z -> Z) ss : socket_server :=
  MkServer (ss_checkctrl ss) (ss_alloc_id ss) (ss_event_index ss) (ss_ev ss) (ss_slot ss) (ss_pipe ss) buffer size (ss_kernel ss) (ss_log ss).

(** [addr = None] is [NULL]. *)
Definition socket_server_udp (opaque : Z) (addr : option (list Z)) (port : Z) ss : Z * socket_server :=
  let '(r, ss) :=
    if negb (port =? 0) || bool_decide (is_Some addr) then do_bind (default [] addr) port false ss
    else
      let '(f, ss) := call (k_socket false false) ss in
      (match f with Done fd => Some (fd, false) | Failed _ => None end, ss) in
  match r with
  | None => (-1, ss)
  | Some (fd, v6) =>
      let ss := sp_nonblocking fd ss in
      let '(id, ss) := reserve_id ss in
      if id <? 0 then (-1, sys_close fd ss) else (id, send_request (request_udp id fd v6 opaque) 85 SIZEOF_UDP ss)
  end.

(** The number of bytes of an address, by its first byte. *)
Definition udp_addrsz (type : Z) : option Z :=
  if type =? PROTOCOL_UDP then Some (1 + 2 + 4) else if type =? PROTOCOL_UDPv6 then Some (1 + 2 + 16) else None.

(** [addr] holds at least the bytes of the address. *)
Definition socket_server_udp_send (id : Z) (addr : list Z) (buffer sz : Z) ss : option (Z * socket_server) :=
  if not_socket id ss then Some (-1, free_buffer buffer sz ss) else
  let! type := aget addr 0 in
  match udp_addrsz type with
  | None => Some (-1, free_buffer buffer sz ss)
  | Some addrsz =>
      let! address := memcpy addr 0 addrsz in
      Some (s_wb_size (slot_at ss (HASH_ID id)), send_request (request_send_udp id sz buffer address) 65 (SIZEOF_SEND + addrsz) ss)
  end.

Definition socket_server_udp_connect (id : Z) (addr : list Z) (port : Z) ss : Z * socket_server :=
  let '(r, ss) := call (k_getaddrinfo addr port false) ss in
  match r with
  | inr (a :: _) =>
      let address := gen_udp_address (if sa_v6 a then PROTOCOL_UDPv6 else PROTOCOL_UDP) a in
      (0, send_request (request_setudp id address) 67 (SIZEOF_SETUDP - UDP_ADDRESS_SIZE + Z.of_nat (length address)) ss)
  | _ => (-1, ss)
  end.

(** The address behind the data of a datagram. *)
Definition socket_server_udp_address (m : socket_message) : option (list Z) :=
  match m_data m with
  | Bytes l =>
      let address := drop (Z.to_nat (m_ud m)) l in
      let! type := aget address 0 in
      let! n := udp_addrsz type in
      Some (take (Z.to_nat n) address)
  | _ => None
  end.

(** The state [socket_server_create] leaves when its system calls succeed. *)
Definition socket_server_create (k : kernel) : socket_server :=
  MkServer true 0 0 [] ∅ [] (fun _ => 0) (fun _ => 0) k [].
End Server.
