(* ===== verification/SocketSpec.v ===== *)
(** * What a TCP socket writes

    Packages sent with high or low priority leave a socket whole and one after the other, however the
    system cuts the writes: a package of low priority that has been written in part goes first. *)

From S2P Require Import Prelude CString Socket.

(** What the server relies on: an interrupted [write] uses up patience, so that it is not interrupted for ever. *)
Class KernelOk {K : Kernel} : Prop := {
  write_interrupted fd data k k' : k_write fd data k = (Failed EINTR, k') -> (k_patience k' < k_patience k)%nat;
}.

Section Stream.
Context {K : Kernel} {KOk : KernelOk}.
Implicit Types (wl : list write_buffer).

(** ** What system calls leave alone *)

(** Everything but the kernel and the log is the same. *)
Definition same_state (ss ss' : socket_server) : Prop :=
  ss_checkctrl ss' = ss_checkctrl ss /\ ss_alloc_id ss' = ss_alloc_id ss /\ ss_event_index ss' = ss_event_index ss /\ ss_ev ss' = ss_ev ss /\
  ss_slot ss' = ss_slot ss /\ ss_pipe ss' = ss_pipe ss /\ ss_soi_buffer ss' = ss_soi_buffer ss /\ ss_soi_size ss' = ss_soi_size ss.

#[export] Instance same_state_refl : Reflexive same_state.
Proof. by repeat split. Qed.
#[export] Instance same_state_trans : Transitive same_state.
Proof. intros a b c H1 H2. unfold same_state in *. intuition congruence. Qed.

Lemma same_slot ss ss' i : same_state ss ss' -> slot_at ss' i = slot_at ss i.
Proof. intros (_ & _ & _ & _ & E & _). unfold slot_at. by rewrite E. Qed.

Lemma same_add_log e ss : same_state ss (add_log e ss).
Proof. by repeat split. Qed.
Lemma same_set_kernel k ss : same_state ss (set_kernel k ss).
Proof. by repeat split. Qed.
Lemma same_free user o ss : same_state ss (free_object user o ss).
Proof. apply same_add_log. Qed.

(** No [write] fails but for a signal or because it would block. *)
Definition reliable : Prop := forall fd data k e k', k_write fd data k = (Failed e, k') -> e = EINTR \/ e = EAGAIN.

(** The bytes written to a descriptor. *)
Fixpoint wrote (fd : Z) (log : list effect) : list Z :=
  match log with
  | Wrote fd' data :: log => if fd' =? fd then data ++ wrote fd log else wrote fd log
  | _ :: log => wrote fd log
  | [] => []
  end.

Lemma wrote_app fd l l' : wrote fd (l ++ l') = wrote fd l ++ wrote fd l'.
Proof. induction l as [|[] l IH]; simpl; try done. destruct (_ =? _); [by rewrite IH, app_assoc | done]. Qed.

(** ** Buffers *)

(** The bytes of a buffer are in memory. *)
Definition wb_ok (wb : write_buffer) : Prop := 0 <= wb_sz wb /\ Z.of_nat (length (wb_data wb)) = wb_sz wb /\ 0 <= wb_off wb.

Definition advance (n : Z) (wb : write_buffer) : write_buffer :=
  MkWb (wb_buffer wb) (wb_base wb) (wb_off wb + n) (wb_sz wb - n) (wb_userobject wb) (wb_udp_address wb).

Lemma bytes_at_split base off n m : 0 <= off -> 0 <= m <= n ->
  bytes_at base off n = bytes_at base off m ++ bytes_at base (off + m) (n - m).
Proof.
  intros Ho Hm. unfold bytes_at. replace (Z.to_nat n) with (Z.to_nat m + Z.to_nat (n - m))%nat at 1 by lia.
  rewrite <- take_take_drop, drop_drop. do 3 f_equal. lia.
Qed.

Lemma bytes_at_length base off n : Z.of_nat (length (bytes_at base off n)) = n -> 0 <= n -> forall m, 0 <= m <= n -> 0 <= off ->
  Z.of_nat (length (bytes_at base off m)) = m /\ Z.of_nat (length (bytes_at base (off + m) (n - m))) = n - m.
Proof.
  intros Hl Hn m Hm Ho. unfold bytes_at in *. rewrite !length_take, !length_drop in *. lia.
Qed.

Lemma advance_data n wb : wb_ok wb -> 0 <= n <= wb_sz wb ->
  wb_data wb = take (Z.to_nat n) (wb_data wb) ++ wb_data (advance n wb) /\ wb_ok (advance n wb).
Proof.
  intros (H0 & Hl & Ho) Hn. unfold wb_ok, wb_data, advance in *. simpl in *.
  destruct (bytes_at_length _ _ _ Hl H0 n Hn Ho) as [H1 H2]. split; [|lia].
  rewrite (bytes_at_split _ _ (wb_sz wb) n Ho Hn) at 2. rewrite take_app_length' by lia. by apply bytes_at_split.
Qed.

Lemma sys_write_ok fd data ss : exists r ss', sys_write fd data ss = (r, ss') /\ same_state ss ss' /\
  match r with
  | Done n => 0 <= n <= Z.of_nat (length data) /\ ss_log ss' = ss_log ss ++ [Wrote fd (take (Z.to_nat n) data)]
  | Failed e => ss_log ss' = ss_log ss /\ (e = EINTR -> (k_patience (ss_kernel ss') < k_patience (ss_kernel ss))%nat) /\
      (reliable -> e = EINTR \/ e = EAGAIN)
  end.
Proof.
  unfold sys_write. destruct (k_write fd data (ss_kernel ss)) as [r k] eqn:E. destruct r as [n|e].
  - eexists _, _. split; [done|]. split; [etransitivity; [apply same_set_kernel | apply same_add_log]|]. split; [lia | done].
  - eexists _, _. split; [done|]. split; [apply same_set_kernel|]. split; [done|]. split; [intros ->; simpl; eapply write_interrupted, E | intros Hr; eapply Hr, E].
Qed.

Lemma write_retry_ok fuel fd data ss : (k_patience (ss_kernel ss) <= fuel)%nat ->
  exists r ss', write_retry fuel fd data ss = Some (r, ss') /\ same_state ss ss' /\ r <> Failed EINTR /\
    match r with
    | Done n => 0 <= n <= Z.of_nat (length data) /\ wrote fd (ss_log ss') = wrote fd (ss_log ss) ++ take (Z.to_nat n) data
    | Failed e => wrote fd (ss_log ss') = wrote fd (ss_log ss) /\ (reliable -> e = EAGAIN)
    end.
Proof.
  revert ss. induction fuel as [|fuel IH]; intros ss Hf; destruct (sys_write_ok fd data ss) as (r & ss' & E & Hs & Hr); simpl; rewrite E;
    (destruct r as [n|e]; [|destruct (decide (e = EINTR)) as [->|]]).
  1,4: exists (Done n), ss'; destruct Hr as [Hn Hl]; split; [done|]; split; [done|]; split; [done|]; split; [done|]; rewrite Hl, wrote_app; simpl; by rewrite Z.eqb_refl, app_nil_r.
  2,4: exists (Failed e), ss'; destruct Hr as (Hl & _ & Hr); split; [by destruct e|]; split; [done|]; split; [congruence|]; split; [by rewrite Hl | naive_solver].
  - destruct Hr as (_ & Hp & _). specialize (Hp eq_refl). lia.
  - destruct Hr as (El & Hp & _). specialize (Hp eq_refl). destruct (IH ss') as (r & ss2 & E2 & Hs2 & Hn & Hr2); [lia|].
    exists r, ss2. rewrite El in Hr2. split_and!; [done | by etransitivity | done | done].
Qed.

(** [rest] is what is left of [wl]: a suffix of it, the first buffer of which may have advanced. *)
Definition remains (wl rest : list write_buffer) : Prop :=
  exists done, wl = done ++ rest \/ exists wb next n, wl = done ++ wb :: next /\ rest = advance n wb :: next /\ 0 <= n < wb_sz wb.

Lemma remains_cons wb wl rest : remains wl rest -> remains (wb :: wl) rest.
Proof.
  intros (dn & [-> | (wb' & next & n & -> & -> & Hn)]); exists (wb :: dn); [by left|]. right. exists wb', next, n. done.
Qed.

Definition data_of wl : list Z := concat (map wb_data wl).
Definition size_of wl : Z := foldr (fun wb n => wb_sz wb + n) 0 wl.

Lemma size_of_data wl : Forall wb_ok wl -> Z.of_nat (length (data_of wl)) = size_of wl.
Proof.
  induction 1 as [|wb wl (_ & Hl & _) _ IH]; [done|]. unfold data_of in *. cbn [map concat size_of foldr]. rewrite length_app. unfold size_of in IH. lia.
Qed.

(** The bytes written and those that remain are the bytes of the list. *)
Lemma send_list_tcp_ok fd wl size ss : Forall wb_ok wl ->
  exists r size' ss', send_list_tcp fd wl size ss = Some (r, size', ss') /\ same_state ss ss' /\
    let rest := match r with Again rest | Broken rest => rest end in
    exists w, wrote fd (ss_log ss') = wrote fd (ss_log ss) ++ w /\ w ++ data_of rest = data_of wl /\ size' = size - Z.of_nat (length w) /\
      Forall wb_ok rest /\ remains wl rest /\ match r with Again _ => True | Broken _ => reliable -> False end.
Proof.
  revert size ss. induction wl as [|wb wl IH]; intros size ss Hw; cbn [send_list_tcp].
  { exists (Again []), size, ss. split_and!; [done..|]. exists []. rewrite app_nil_r. split_and!; [done | done | simpl; lia | done | exists []; by left | done]. }
  apply Forall_cons in Hw as [Hwb Hw]. destruct (write_retry_ok _ fd (wb_data wb) ss (le_n _)) as (r & ss1 & -> & Hs1 & Hn & Hr).
  assert (forall size', exists w, wrote fd (ss_log ss) = wrote fd (ss_log ss) ++ w /\ w ++ data_of (wb :: wl) = data_of (wb :: wl) /\
    size' = size' - Z.of_nat (length w) /\ Forall wb_ok (wb :: wl) /\ remains (wb :: wl) (wb :: wl)) as Hstay.
  { intros. exists []. rewrite app_nil_r. split_and!; [done | done | simpl; lia | by constructor | exists []; by left]. }
  destruct r as [n|e].
  - destruct Hr as [Hr Hw1]. pose proof Hwb as (H0 & Hl & Ho). destruct (Z.eqb_spec n (wb_sz wb)) as [->|Hne]; simpl.
    + destruct (IH (size - wb_sz wb) (write_buffer_free ss1 wb) Hw) as (r & size' & ss2 & -> & Hs2 & w & Hw2 & Hd & Hsz & Hok & Hrem & Hbr).
      exists r, size', ss2. split; [done|]. split; [etransitivity; [exact Hs1|]; etransitivity; [apply same_free | exact Hs2]|].
      assert (wrote fd (ss_log (write_buffer_free ss1 wb)) = wrote fd (ss_log ss1)) as E1.
      { unfold write_buffer_free, free_object, add_log. simpl. rewrite wrote_app. destruct (wb_userobject wb); simpl; by rewrite app_nil_r. }
      rewrite E1, Hw1, take_ge in Hw2 by lia. exists (wb_data wb ++ w). rewrite app_assoc. split_and!; [done| |rewrite length_app; lia|done|by apply remains_cons|done].
      unfold data_of in *. cbn [map concat]. rewrite <- app_assoc. by rewrite <- Hd.
    + destruct (advance_data n wb Hwb ltac:(lia)) as [Hd Hok]. eexists _, _, _. split; [done|]. split; [done|].
      exists (take (Z.to_nat n) (wb_data wb)). split_and!; [done| |rewrite length_take; lia|by constructor| |done].
      * unfold data_of. cbn [map concat]. fold (advance n wb). rewrite app_assoc, <- Hd. done.
      * exists []. right. exists wb, wl, n. split_and!; [done | done | lia | lia].
  - destruct Hr as [Hr He].
    destruct e; try congruence; (eexists _, _, _; split; [reflexivity|]; split; [done|]); rewrite Hr; edestruct Hstay as (w & H1 & H2 & H3 & H4 & H5);
      exists w; (split_and!; try eassumption; try done; intros Hrel; by specialize (He Hrel)).
Qed.

(** ** The stream of a connection *)

(** A package: whether it has low priority, and its bytes. *)
Notation pkg := (bool * list Z)%type.
Definition text (seq : list pkg) : list Z := concat (map snd seq).
Definition of_priority (low : bool) (seq : list pkg) : list pkg := filter (fun p => fst p = low) seq.

(** [seq] holds the packages [acc], and those of one priority in the order they were given. *)
Definition ordered (acc seq : list pkg) : Prop := forall low, of_priority low seq = of_priority low acc.

(** Nothing of the buffer has been written, and that can be seen from its pointers. *)
Definition untouched (wb : write_buffer) : Prop := wb_base wb = wb_buffer wb /\ wb_off wb = 0.

(** The connection in slot [i] was given [acc], has written [W] since [before], and the packages [A] and then [B] go out: what is written and the
    high list make up [A], the low list [B].  [closing] when it is to be closed once all is written. *)
Record stream (ss : socket_server) (i fd id : Z) (closing : bool) (before : list Z) (acc : list pkg) (W : list Z) (A B : list pkg) : Prop := {
  st_type : s_type (slot_at ss i) = if closing then SOCKET_TYPE_HALFCLOSE else SOCKET_TYPE_CONNECTED;
  st_protocol : s_protocol (slot_at ss i) = PROTOCOL_TCP;
  st_fd : s_fd (slot_at ss i) = fd;
  st_id : s_id (slot_at ss i) = id;
  st_wrote : wrote fd (ss_log ss) = before ++ W;
  st_high : W ++ data_of (s_high (slot_at ss i)) = text A;
  st_low : map wb_data (s_low (slot_at ss i)) = map snd B;
  st_prio : Forall (fun p => fst p = true) B;
  st_order : ordered acc (A ++ B);
  st_high_ok : Forall wb_ok (s_high (slot_at ss i));
  st_low_ok : Forall wb_ok (s_low (slot_at ss i));
  st_untouched : Forall untouched (s_low (slot_at ss i));
  st_size : s_wb_size (slot_at ss i) = size_of (s_high (slot_at ss i)) + size_of (s_low (slot_at ss i));
}.

(** The connection is closed; all was written unless a write failed. *)
Definition finished (ss : socket_server) (i fd : Z) (before : list Z) (acc : list pkg) : Prop :=
  s_type (slot_at ss i) = SOCKET_TYPE_INVALID /\
  exists seq lost, ordered acc seq /\ wrote fd (ss_log ss) ++ lost = before ++ text seq /\ (reliable -> lost = []).

(** The object interface is the same. *)
Definition same_soi (ss ss' : socket_server) : Prop := ss_soi_buffer ss' = ss_soi_buffer ss /\ ss_soi_size ss' = ss_soi_size ss.

Lemma slot_at_set i s ss : slot_at (set_slot i s ss) i = s.
Proof. unfold slot_at, set_slot. simpl. by rewrite lookup_insert_eq. Qed.

Lemma text_app A B : text (A ++ B) = text A ++ text B.
Proof. unfold text. by rewrite map_app, concat_app. Qed.
Lemma data_of_app a b : data_of (a ++ b) = data_of a ++ data_of b.
Proof. unfold data_of. by rewrite map_app, concat_app. Qed.
Lemma size_of_app a b : size_of (a ++ b) = size_of a + size_of b.
Proof. unfold size_of. induction a as [|wb a IH]; simpl; [done|]. rewrite IH. lia. Qed.
Lemma of_priority_app low A B : of_priority low (A ++ B) = of_priority low A ++ of_priority low B.
Proof. apply filter_app. Qed.

Lemma same_data_text wl (B : list pkg) : map wb_data wl = map snd B -> data_of wl = text B.
Proof. unfold data_of, text. by intros ->. Qed.

Lemma untouched_complete wl : Forall untouched wl -> list_uncomplete wl = false.
Proof.
  destruct 1 as [|wb wl [E1 E2] _]; [done|]. simpl. rewrite E1, E2, Z.add_0_r, Z.eqb_refl. done.
Qed.

(** What is left of a list of whole buffers, split into the packages that have been begun and those that have not. *)
Lemma remains_split wl rest (B : list pkg) : remains wl rest -> Forall untouched wl -> map wb_data wl = map snd B ->
  exists begun low B1 B2, rest = begun ++ low /\ B = B1 ++ B2 /\ map wb_data low = map snd B2 /\ Forall untouched low /\
    if list_uncomplete rest then exists tmp, begun = [tmp] else begun = [].
Proof.
  intros (dn & [-> | (wb & next & n & -> & -> & Hn)]) Hu HB; rewrite map_app in HB; symmetry in HB;
    apply map_eq_app in HB as (B1 & B2 & -> & H1 & H2); apply Forall_app in Hu as [_ Hu].
  - exists [], rest, B1, B2. by rewrite untouched_complete.
  - destruct B2 as [|p B2]; [done|]. cbn [map] in H2. injection H2 as Hp H2.
    pose proof Hu as Hu'. apply Forall_cons in Hu as [[E1 E2] Hu]. cbn [list_uncomplete]. unfold advance at 2 3 4. simpl. rewrite E1, E2.
    destruct (Z.eqb_spec (wb_buffer wb + (0 + n)) (wb_buffer wb)) as [E|E]; simpl.
    + assert (n = 0) as -> by lia. exists [], (wb :: next), B1, (p :: B2). assert (advance 0 wb = wb) as ->.
      { unfold advance. rewrite Z.add_0_r, Z.sub_0_r. by destruct wb. }
      split_and!; [done | done | simpl; congruence | done | done].
    + exists [advance n wb], next, (B1 ++ [p]), B2. rewrite <- app_assoc. split_and!; [done.. | by eexists].
Qed.

(** ** Closing *)

Definition not_write (e : effect) : Prop := match e with Wrote _ _ => False | _ => True end.

Lemma wrote_add_log fd e ss : not_write e -> wrote fd (ss_log (add_log e ss)) = wrote fd (ss_log ss).
Proof. intros He. simpl. rewrite wrote_app. destruct e; simpl; try done; by rewrite app_nil_r. Qed.

Lemma free_wb_list_ok fd wl ss : same_state ss (free_wb_list wl ss) /\ wrote fd (ss_log (free_wb_list wl ss)) = wrote fd (ss_log ss).
Proof.
  revert ss. induction wl as [|wb wl IH]; intros ss; simpl; [done|]. destruct (IH (write_buffer_free ss wb)) as [H1 ->].
  split; [etransitivity; [apply same_free | exact H1]|]. apply wrote_add_log. by destruct (wb_userobject wb).
Qed.

Lemma same_state_soi ss ss' : same_state ss ss' -> same_soi ss ss'.
Proof. by intros (_ & _ & _ & _ & _ & _ & H). Qed.
#[local] Instance same_soi_refl : Reflexive same_soi.
Proof. by split. Qed.
#[local] Instance same_soi_trans : Transitive same_soi.
Proof. intros a b c [H1 H2] [H3 H4]. split; congruence. Qed.

Lemma force_close_ok fd i ss : s_type (slot_at ss i) <> SOCKET_TYPE_INVALID -> s_type (slot_at ss i) <> SOCKET_TYPE_RESERVE ->
  exists m ss', force_close i ss = Some (m, ss') /\ s_type (slot_at ss' i) = SOCKET_TYPE_INVALID /\
    wrote fd (ss_log ss') = wrote fd (ss_log ss) /\ same_soi ss ss'.
Proof.
  intros Hi Hr. unfold force_close. set (s := slot_at ss i) in *. rewrite (proj2 (Z.eqb_neq _ _) Hi), (proj2 (Z.eqb_neq _ _) Hr). simpl.
  eexists _, _. split; [done|]. split; [by rewrite slot_at_set|].
  destruct (free_wb_list_ok fd (s_high s) ss) as [H1 E1]. destruct (free_wb_list_ok fd (s_low s) (free_wb_list (s_high s) ss)) as [H2 E2].
  apply same_state_soi in H1. apply same_state_soi in H2. rewrite <- E1, <- E2. clear E1 E2.
  revert H2. generalize (free_wb_list (s_low s) (free_wb_list (s_high s) ss)). intros ss2 H2.
  assert (same_soi ss ss2) as H by by etransitivity.
  cbn [set_slot ss_log]. split; [|destruct (_ && _), (negb _); exact H].
  destruct (negb _ && _), (negb (_ =? SOCKET_TYPE_BIND)); unfold sys_close, sp_del; rewrite ?wrote_add_log; try done; cbn [set_kernel ss_log]; by rewrite ?wrote_add_log.
Qed.

(** ** The operations *)

(** What an operation leaves: the connection with the packages [acc], or, with a report, a finished one. *)
Definition progress (ss : socket_server) (i fd id : Z) (closing : bool) (before : list Z) (acc : list pkg) (type : Z) (ss' : socket_server) : Prop :=
  same_soi ss ss' /\
  ((type = -1 /\ exists W A B, stream ss' i fd id closing before acc W A B) \/
   (type = SOCKET_CLOSE /\ (closing = false -> reliable -> False) /\ finished ss' i fd before acc)).

(** Closing a connection that has written [out]. *)
Lemma close_result_ok i fd id (closing : bool) before acc seq lost ss0 ss : same_soi ss0 ss ->
  s_type (slot_at ss i) = (if closing then SOCKET_TYPE_HALFCLOSE else SOCKET_TYPE_CONNECTED) ->
  ordered acc seq -> wrote fd (ss_log ss) ++ lost = before ++ text seq -> (reliable -> lost = []) -> (closing = false -> reliable -> False) ->
  exists type m ss', close_result i ss = Some (type, m, ss') /\ progress ss0 i fd id closing before acc type ss'.
Proof.
  intros Hsoi Ht Hs Hl Hrel Hcl. unfold close_result.
  destruct (force_close_ok fd i ss) as (m & ss' & -> & Ht' & Hw & Hsoi'); [rewrite Ht; by destruct closing..|].
  eexists _, _, _. split; [done|]. split; [by etransitivity|]. right. split; [done|]. split; [done|]. split; [done|]. exists seq, lost. by rewrite Hw.
Qed.

Lemma send_list_ok fd wl ss s : s_protocol s = PROTOCOL_TCP -> s_fd s = fd -> send_list s wl ss = send_list_tcp fd wl (s_wb_size s) ss.
Proof. intros Hp <-. unfold send_list. by rewrite Hp. Qed.

(** The low list goes out once the high list is empty; a package that is written in part takes the place of the high list. *)
Lemma send_low_ok i fd id closing before acc W A B ss s : stream ss i fd id closing before acc W A B -> s = slot_at ss i -> s_high s = [] ->
  exists type m ss', (let! (r, size, ss1) := send_list s (s_low s) ss in
    match r with
    | Broken low => close_result i (set_slot i (with_lists [] low size s) ss1)
    | Again low =>
        let s := with_lists [] low size s in
        let! s := if list_uncomplete low then raise_uncomplete s else Some s in
        Some (-1, None, set_slot i s ss1)
    end) = Some (type, m, ss') /\ progress ss i fd id closing before acc type ss'.
Proof.
  intros St -> Hh. destruct St. rewrite Hh in *. cbn [data_of map concat size_of foldr] in *. rewrite app_nil_r in st_high0. subst W.
  rewrite (send_list_ok fd) by done. destruct (send_list_tcp_ok fd _ (s_wb_size (slot_at ss i)) ss st_low_ok0)
    as (r & size & ss1 & -> & Hs & w & Hw & Hd & Hsz & Hok & Hrem & Hbr).
  rewrite (same_data_text _ _ st_low0) in Hd. pose proof (same_state_soi _ _ Hs) as Hsoi.
  assert (wrote fd (ss_log ss1) = before ++ text A ++ w) as Hw1 by (rewrite Hw, st_wrote0; by rewrite <- app_assoc).
  destruct r as [low|low].
  - destruct (remains_split _ _ _ Hrem st_untouched0 st_low0) as (begun & low' & B1 & B2 & -> & -> & Hl & Hu & Hb).
    apply Forall_app in Hok as [Hok1 Hok2]. apply Forall_app in st_prio0 as [Hp1 Hp2].
    assert (size = size_of begun + size_of low') as ->.
    { rewrite <- size_of_app, <- (size_of_data (begun ++ low')) by (by apply Forall_app). apply (f_equal length) in Hd. rewrite length_app in Hd.
      rewrite <- (same_data_text _ _ st_low0) in Hd. pose proof (size_of_data _ st_low_ok0). lia. }
    assert (w ++ data_of begun = text B1) as HB1.
    { rewrite data_of_app, text_app, (same_data_text _ _ Hl), app_assoc in Hd. by apply app_inv_tail in Hd. }
    exists (-1), None, (set_slot i (with_lists begun low' (size_of begun + size_of low') (slot_at ss i)) ss1). split.
    { destruct (list_uncomplete (begun ++ low')); [destruct Hb as [tmp ->]; done | by subst begun]. }
    split; [exact Hsoi|]. left. split; [done|]. exists (text A ++ w), (A ++ B1), B2.
    split; rewrite ?slot_at_set; simpl; try done; [|by rewrite <- app_assoc]. by rewrite <- app_assoc, HB1, text_app.
  - eapply (close_result_ok i fd id closing before acc (A ++ B) (data_of low)); [exact Hsoi | rewrite slot_at_set; done | done | | by intros ?%Hbr | done].
    cbn [set_slot ss_log]. rewrite Hw1, text_app, <- Hd, <- !app_assoc. done.
Qed.

Lemma send_buffer_ok i fd id closing before acc W A B ss : stream ss i fd id closing before acc W A B ->
  exists type m ss', send_buffer i ss = Some (type, m, ss') /\ progress ss i fd id closing before acc type ss'.
Proof.
  intros St. pose proof St as St'. destruct St'. unfold send_buffer. rewrite untouched_complete, (send_list_ok fd) by done. cbn [negb].
  destruct (send_list_tcp_ok fd _ (s_wb_size (slot_at ss i)) ss st_high_ok0) as (r & size & ss1 & -> & Hs & w & Hw & Hd & Hsz & Hok & Hrem & Hbr).
  pose proof (same_state_soi _ _ Hs) as Hsoi. rewrite <- Hd, app_assoc in st_high0. rewrite st_wrote0, <- app_assoc in Hw.
  destruct r as [high|high].
  - assert (size = size_of high + size_of (s_low (slot_at ss i))) as ->.
    { rewrite <- size_of_data by done. apply (f_equal length) in Hd. rewrite length_app in Hd. pose proof (size_of_data _ st_high_ok0). lia. }
    set (s := with_lists high _ _ _). set (ss2 := set_slot i s ss1).
    assert (slot_at ss2 i = s) as Es by apply slot_at_set.
    assert (stream ss2 i fd id closing before acc (W ++ w) A B) as St2 by (split; rewrite ?Es; done).
    destruct (bool_decide_reflect (high = [])) as [->|Hh]; cbn [negb].
    2: { eexists _, _, _. split; [done|]. split; [done|]. left. split; [done|]. by eexists _, _, _. }
    destruct (bool_decide_reflect (s_low s = [])) as [Hl|Hl]; cbn [negb].
    + destruct (Z.eqb_spec (s_type s) SOCKET_TYPE_HALFCLOSE) as [Ht|Ht].
      * destruct St2. rewrite Es in *. rewrite Hl in *. destruct B; [|done]. rewrite app_nil_r in *.
        eapply (close_result_ok i fd id closing before acc A []); [exact Hsoi | | done | | done | by rewrite st_type1 in Ht; destruct closing].
        -- unfold sp_write, add_log, set_kernel, slot_at. simpl. by rewrite lookup_insert_eq.
        -- rewrite app_nil_r. unfold sp_write. rewrite wrote_add_log by done. cbn [set_kernel ss_log ss2 set_slot]. rewrite Hw.
           by rewrite st_high1.
      * eexists _, _, _. split; [done|]. split; [exact Hsoi|]. left. split; [done|]. exists (W ++ w), A, B.
        destruct St2. split; try done. unfold sp_write. by rewrite wrote_add_log.
    + destruct (send_low_ok i fd id closing before acc (W ++ w) A B ss2 s St2 ltac:(done) eq_refl) as (type & m & ss3 & E & Hp).
      exists type, m, ss3. split; [exact E|]. destruct Hp as [Hp1 Hp2]. split; [etransitivity; [exact Hsoi | exact Hp1] | exact Hp2].
  - eapply (close_result_ok i fd id closing before acc (A ++ B) (data_of high ++ text B)); [exact Hsoi | rewrite slot_at_set; done | done | | by intros ?%Hbr | done].
    cbn [set_slot ss_log]. rewrite Hw, text_app, <- st_high0, <- !app_assoc. done.
Qed.

(** The bytes of a request are in memory, and a package of low priority begins where its object does. *)
Definition request_ok (ss : socket_server) (low : bool) (sz buffer : Z) : Prop :=
  let '(base, size, _) := send_object_init ss buffer sz in
  0 <= size /\ Z.of_nat (length (bytes_at base 0 size)) = size /\ (low = true -> base = buffer).

Definition package_of (ss : socket_server) (low : bool) (sz buffer : Z) : pkg :=
  let '(base, size, _) := send_object_init ss buffer sz in (low, bytes_at base 0 size).

Lemma ordered_low acc A B p : fst p = true -> ordered acc (A ++ B) -> ordered (acc ++ [p]) (A ++ B ++ [p]).
Proof. intros Hp H low. rewrite app_assoc, of_priority_app, (of_priority_app low acc), H. done. Qed.

Lemma of_priority_none low (B : list pkg) : Forall (fun p => fst p <> low) B -> of_priority low B = [].
Proof. unfold of_priority. induction 1 as [|p B Hp _ IH]; [done|]. by rewrite filter_cons_False. Qed.

Lemma ordered_high acc A B p : fst p = false -> Forall (fun p => fst p = true) B -> ordered acc (A ++ B) -> ordered (acc ++ [p]) ((A ++ [p]) ++ B).
Proof.
  intros Hp HB H low. specialize (H low). rewrite !of_priority_app in *. rewrite <- H. destruct low.
  - rewrite (of_priority_none true [p]) by (constructor; [congruence | done]). by rewrite !app_nil_r.
  - rewrite (of_priority_none false B) by (eapply Forall_impl; [exact HB|]; congruence). by rewrite !app_nil_r.
Qed.

Lemma stream_add_log ss i fd id closing before acc W A B e : not_write e ->
  stream ss i fd id closing before acc W A B -> stream (add_log e ss) i fd id closing before acc W A B.
Proof. intros He St. destruct St. split; try done. by rewrite wrote_add_log. Qed.

Lemma stream_sp_write ss i fd id closing before acc W A B fd' b :
  stream ss i fd id closing before acc W A B -> stream (sp_write fd' i b ss) i fd id closing before acc W A B.
Proof. intros St. apply stream_add_log; [done|]. destruct St. by split. Qed.

(** A package written to an idle connection, as far as that goes: [ss1] is the state after the write of [n] bytes. *)
Lemma send_direct_ok i fd id before acc W A sz buffer low n ss ss1 :
  stream ss i fd id false before acc W A [] -> s_high (slot_at ss i) = [] -> s_low (slot_at ss i) = [] ->
  request_ok ss low sz buffer -> same_state ss ss1 -> 
  let p := package_of ss low sz buffer in
  let '(base, size, user) := send_object_init ss buffer sz in
  0 <= n <= size -> wrote fd (ss_log ss1) = before ++ W ++ take (Z.to_nat n) (snd p) ->
  let ss2 := if n =? size then free_object user buffer ss1 else append_sendbuffer i buffer sz n ss1 in
  same_soi ss ss2 /\ exists W', stream ss2 i fd id false before (acc ++ [p]) W' (A ++ [p]) [].
Proof.
  intros St Hh Hl. unfold request_ok, package_of. destruct (send_object_init ss buffer sz) as [[base size] user] eqn:Eo.
  intros (H0 & Hlen & _) Hs Hn Hw. cbn [snd] in Hw. destruct St. rewrite Hh, Hl in *. rewrite app_nil_r in *.
  pose proof (same_state_soi _ _ Hs) as Hsoi. pose proof (same_slot _ _ i Hs) as Ei.
  assert (ordered (acc ++ [(low, bytes_at base 0 size)]) (A ++ [(low, bytes_at base 0 size)])) as Ho.
  { intros l. rewrite !of_priority_app. by rewrite st_order0. }
  assert (text (A ++ [(low, bytes_at base 0 size)]) = W ++ bytes_at base 0 size) as Ht.
  { rewrite text_app, <- st_high0. unfold data_of, text. simpl. by rewrite !app_nil_r. }
  destruct (Z.eqb_spec n size) as [->|Hne].
  - split; [exact Hsoi|]. exists (W ++ bytes_at base 0 size). rewrite take_ge in Hw by lia. unfold free_object.
    apply stream_add_log; [by destruct user|]. split; rewrite ?Ei, ?Hh, ?Hl, ?app_nil_r; try done.
  - unfold append_sendbuffer, append_sendbuffer_.
    assert (send_object_init ss1 buffer sz = (base, size, user)) as -> by (destruct Hsoi as [E1 E2]; unfold send_object_init in *; by rewrite E1, E2).
    rewrite Ei, Hh, Hl. split; [exact Hsoi|]. exists (W ++ take (Z.to_nat n) (bytes_at base 0 size)).
    set (wb := MkWb buffer base 0 size user []). assert (wb_ok wb) as Hwb by (split_and!; simpl; [done | exact Hlen | done]).
    destruct (advance_data n wb Hwb) as [Hd Hok]; [done|]. change (MkWb buffer base n (size - n) user []) with (advance n wb).
    split; rewrite ?slot_at_set; simpl; rewrite ?app_nil_r; try done.
    + rewrite Ht, <- app_assoc. f_equal. unfold data_of. cbn [map concat]. rewrite app_nil_r. symmetry. exact Hd.
    + by constructor.
    + rewrite st_size0. simpl. lia.
Qed.

(** A package that waits in a list. *)
Lemma send_waiting_ok i fd id before acc W A B sz buffer low ss : stream ss i fd id false before acc W A B -> request_ok ss low sz buffer ->
  let p := package_of ss low sz buffer in
  let ss2 := if low then append_sendbuffer_low i buffer sz ss else append_sendbuffer i buffer sz 0 ss in
  same_soi ss ss2 /\ exists A' B', stream ss2 i fd id false before (acc ++ [p]) W A' B'.
Proof.
  intros St. unfold request_ok, package_of, append_sendbuffer_low, append_sendbuffer, append_sendbuffer_.
  destruct (send_object_init ss buffer sz) as [[base size] user]. intros (H0 & Hlen & Hbase). destruct St.
  set (wb := MkWb buffer base 0 (size - 0) user []).
  assert (wb_data wb = bytes_at base 0 size) as Hd by (unfold wb_data; simpl; by rewrite Z.sub_0_r).
  assert (wb_ok wb) as Hwb by (split_and!; rewrite ?Hd; simpl; lia).
  destruct low; (split; [done|]).
  - exists A, (B ++ [(true, bytes_at base 0 size)]). split; rewrite ?slot_at_set; simpl; rewrite ?map_app, ?size_of_app, ?Forall_app; try done.
    + rewrite st_low0. simpl. by rewrite Hd.
    + split; [done | by constructor].
    + by apply ordered_low.
    + split; [done | by constructor].
    + split; [done|]. constructor; [split; [by apply Hbase | done] | done].
    + rewrite st_size0. simpl. lia.
  - exists (A ++ [(false, bytes_at base 0 size)]), B. split; rewrite ?slot_at_set; simpl; rewrite ?size_of_app, ?Forall_app; try done.
    + rewrite data_of_app, app_assoc, st_high0, text_app. unfold data_of, text. simpl. by rewrite Hd.
    + by apply ordered_high.
    + split; [done | by constructor].
    + rewrite st_size0. simpl. lia.
Qed.

Definition priority_of (low : bool) : Z := if low then PRIORITY_LOW else PRIORITY_HIGH.

Lemma send_socket_ok id fd before acc W A B sz buffer low ss : stream ss (HASH_ID id) fd id false before acc W A B -> request_ok ss low sz buffer ->
  exists type m ss', send_socket id sz buffer (priority_of low) None ss = Some (type, m, ss') /\
    progress ss (HASH_ID id) fd id false before (acc ++ [package_of ss low sz buffer]) type ss'.
Proof.
  intros St Hr. pose proof St as St'. destruct St'. unfold send_socket. set (i := HASH_ID id) in *.
  destruct (send_object_init ss buffer sz) as [[base size] user] eqn:Eo.
  rewrite st_type0, st_id0, st_protocol0, Z.eqb_refl. simpl negb. cbn [orb andb Z.eqb SOCKET_TYPE_CONNECTED SOCKET_TYPE_INVALID SOCKET_TYPE_HALFCLOSE
    SOCKET_TYPE_PACCEPT SOCKET_TYPE_PLISTEN SOCKET_TYPE_LISTEN Pos.eqb].
  unfold send_buffer_empty. destruct (bool_decide_reflect (s_high (slot_at ss i) = [])) as [Hh|Hh]; [destruct (bool_decide_reflect (s_low (slot_at ss i) = [])) as [Hl|Hl]|]; simpl.
  2,3: destruct (send_waiting_ok _ _ _ _ _ _ _ _ _ _ _ _ St Hr) as (Hsoi & A' & B' & St2); destruct low; (eexists _, _, _; split; [reflexivity|]);
    (split; [exact Hsoi|]); left; (split; [done|]); by exists W, A', B'.
  assert (B = []) as -> by (rewrite Hl in st_low0; by destruct B).
  pose proof Hr as Hr'. unfold request_ok in Hr'. rewrite Eo in Hr'. destruct Hr' as (H0 & Hlen & _).
  destruct (sys_write_ok fd (bytes_at base 0 size) ss) as (r & ss1 & E & Hs & Hw). rewrite st_fd0, E.
  pose proof (same_state_soi _ _ Hs) as Hsoi.
  assert (forall n, 0 <= n <= size -> wrote fd (ss_log ss1) = before ++ W ++ take (Z.to_nat n) (bytes_at base 0 size) ->
    exists type (m : option socket_message) ss', (if n =? size then Some (-1, None, free_object user buffer ss1)
        else Some (-1, None, sp_write fd i true (append_sendbuffer i buffer sz n ss1))) = Some (type, m, ss') /\
      progress ss i fd id false before (acc ++ [package_of ss low sz buffer]) type ss') as Hpart.
  { intros n Hn Hwn. pose proof (send_direct_ok i fd id before acc W A sz buffer low n ss ss1 St Hh Hl Hr Hs) as Hd. cbv zeta in Hd.
    unfold package_of at 1 in Hd. rewrite Eo in Hd. cbn [snd] in Hd. destruct (Hd Hn Hwn) as (Hsoi2 & W' & St2).
    destruct (n =? size); (eexists _, _, _; split; [reflexivity|]; split; [exact Hsoi2|]; left; split; [done|]; exists W', (A ++ [package_of ss low sz buffer]), []); [exact St2|].
    by apply stream_sp_write. }
  destruct r as [n|e].
  - destruct Hw as [Hn Hw]. apply Hpart; [lia|]. rewrite Hw, wrote_app, st_wrote0. simpl. by rewrite Z.eqb_refl, app_nil_r, app_assoc.
  - destruct Hw as (Hw & _ & Hrel). assert (wrote fd (ss_log ss1) = before ++ W ++ []) as Hw0 by (by rewrite app_nil_r, Hw).
    assert ((exists type (m : option socket_message) ss', (let! (m, ss0) := force_close i ss1 in Some (SOCKET_CLOSE, Some m, free_object user buffer ss0)) = Some (type, m, ss') /\
      progress ss i fd id false before (acc ++ [package_of ss low sz buffer]) type ss') \/ e = EINTR \/ e = EAGAIN) as [Hbr | He];
      [|destruct e; try exact Hbr; by apply (Hpart 0) | by destruct He as [-> | ->]; apply (Hpart 0)].
    destruct (decide (e = EINTR)) as [|He1]; [by right; left|]. destruct (decide (e = EAGAIN)) as [|He2]; [by right; right|]. left.
    destruct (force_close_ok fd i ss1) as (m & ss2 & -> & Ht & Hw2 & Hsoi2); [rewrite (same_slot _ _ i Hs), st_type0; done..|].
    eexists _, _, _. split; [reflexivity|]. split; [etransitivity; [exact Hsoi | exact Hsoi2]|]. right. split; [done|]. split; [naive_solver|]. split; [exact Ht|].
    exists (A ++ [package_of ss low sz buffer]), (snd (package_of ss low sz buffer)). rewrite Hh, Hl, ?app_nil_r in *. split_and!.
    + intros l. rewrite !of_priority_app. by rewrite st_order0.
    + unfold free_object. rewrite wrote_add_log, Hw2, Hw0, text_app, <- st_high0 by (by destruct user). unfold data_of, text. simpl.
      by rewrite !app_nil_r, <- app_assoc.
    + naive_solver.
Qed.

(** A connection that is being closed takes no packages. *)
Lemma send_closing_ok id fd before acc W A B sz buffer low ss : stream ss (HASH_ID id) fd id true before acc W A B ->
  exists type m ss', send_socket id sz buffer (priority_of low) None ss = Some (type, m, ss') /\ progress ss (HASH_ID id) fd id true before acc type ss'.
Proof.
  intros St. pose proof St as St'. destruct St'. unfold send_socket. destruct (send_object_init ss buffer sz) as [[base size] user].
  rewrite st_type0, st_id0, Z.eqb_refl. eexists _, _, _. split; [reflexivity|]. split; [done|]. left. split; [done|]. exists W, A, B.
  apply stream_add_log; [by destruct user | done].
Qed.

(** Nothing waits: all packages are written. *)
Lemma stream_idle ss i fd id closing before acc W A B : stream ss i fd id closing before acc W A B -> send_buffer_empty (slot_at ss i) = true ->
  ordered acc A /\ wrote fd (ss_log ss) = before ++ text A.
Proof.
  intros St He. unfold send_buffer_empty in He. apply andb_prop in He as [Hh%bool_decide_eq_true Hl%bool_decide_eq_true].
  destruct St. rewrite Hh, Hl in *. destruct B; [|done]. rewrite app_nil_r in *. split; [done|]. by rewrite <- st_high0.
Qed.

Lemma close_socket_ok id opaque fd closing before acc W A B ss : stream ss (HASH_ID id) fd id closing before acc W A B ->
  exists type m ss', close_socket id 0 opaque ss = Some (type, m, ss') /\ progress ss (HASH_ID id) fd id true before acc type ss'.
Proof.
  intros St. unfold close_socket. set (i := HASH_ID id) in *.
  assert ((s_type (slot_at ss i) =? SOCKET_TYPE_INVALID) || negb (s_id (slot_at ss i) =? id) = false) as ->.
  { destruct St. rewrite st_type0, st_id0, Z.eqb_refl. by destruct closing. }
  assert (exists type m ss1, (if negb (send_buffer_empty (slot_at ss i)) then send_buffer i ss else Some (-1, None, ss)) = Some (type, m, ss1) /\
    progress ss i fd id closing before acc type ss1) as (type & m & ss1 & -> & Hsoi & Hp).
  { destruct (negb _); [by eapply send_buffer_ok|]. eexists _, _, _. split; [done|]. split; [done|]. left. eauto. }
  destruct Hp as [[-> (W1 & A1 & B1 & St1)] | (-> & Hcl & Hf)]; simpl.
  2: { eexists _, _, _. split; [done|]. split; [done|]. by right. }
  destruct (send_buffer_empty (slot_at ss1 i)) eqn:Ee.
  - destruct (stream_idle _ _ _ _ _ _ _ _ _ _ St1 Ee) as [Ho Hw].
    destruct (force_close_ok fd i ss1) as (m' & ss2 & -> & Ht & Hw2 & Hsoi2); [destruct St1 as [-> _ _ _ _ _ _ _ _ _ _ _ _]; by destruct closing..|].
    eexists _, _, _. split; [done|]. split; [by etransitivity|]. right. split; [done|]. split; [done|]. split; [done|]. exists A1, []. by rewrite app_nil_r, Hw2.
  - eexists _, _, _. split; [done|]. split; [exact Hsoi|]. left. split; [done|]. exists W1, A1, B1. unfold set_type.
    destruct St1. split; rewrite ?slot_at_set; done.
Qed.

(** ** Runs *)

(** What happens to a connection: a package is sent, the descriptor can be written, it is closed, or the server does something else. *)
Inductive operation :=
  | Send (low : bool) (sz buffer : Z)
  | Writable
  | Close (opaque : Z)
  | Other (f : socket_server -> socket_server).

Definition perform (id : Z) (op : operation) (ss : socket_server) : option (Z * option socket_message * socket_server) :=
  match op with
  | Send low sz buffer => send_socket id sz buffer (priority_of low) None ss
  | Writable => send_buffer (HASH_ID id) ss
  | Close opaque => close_socket id 0 opaque ss
  | Other f => Some (-1, None, f ss)
  end.

(** The operations in turn, until one reports that the connection is closed; whether one did. *)
Fixpoint run (id : Z) (ops : list operation) (ss : socket_server) : option (bool * socket_server) :=
  match ops with
  | [] => Some (false, ss)
  | op :: ops => let! (type, _, ss) := perform id op ss in if type =? -1 then run id ops ss else Some (true, ss)
  end.

(** Requests are well formed, and what else happens leaves the slot, the descriptor and the object interface alone. *)
Definition allowed (id fd : Z) (op : operation) (ss : socket_server) : Prop :=
  match op with
  | Send low sz buffer => request_ok ss low sz buffer
  | Other f => slot_at (f ss) (HASH_ID id) = slot_at ss (HASH_ID id) /\ wrote fd (ss_log (f ss)) = wrote fd (ss_log ss) /\ same_soi ss (f ss)
  | _ => True
  end.

Fixpoint all_allowed (id fd : Z) (ops : list operation) (ss : socket_server) : Prop :=
  match ops with
  | [] => True
  | op :: ops => allowed id fd op ss /\ match perform id op ss with Some (_, _, ss) => all_allowed id fd ops ss | None => True end
  end.

(** The packages sent before the connection is closed. *)
Fixpoint packages (ss : socket_server) (ops : list operation) : list pkg :=
  match ops with
  | Send low sz buffer :: ops => package_of ss low sz buffer :: packages ss ops
  | Close _ :: _ | [] => []
  | _ :: ops => packages ss ops
  end.

Lemma packages_soi ss ss' ops : same_soi ss ss' -> packages ss' ops = packages ss ops.
Proof.
  intros [H1 H2]. induction ops as [|[] ops IH]; simpl; try done. rewrite IH. unfold package_of, send_object_init. by rewrite H1, H2.
Qed.

(** [closing] after an operation, and what it adds to the packages. *)
Definition closing_after (op : operation) (closing : bool) : bool := match op with Close _ => true | _ => closing end.
Definition package_sent (ss : socket_server) (op : operation) (closing : bool) : list pkg :=
  match op with Send low sz buffer => if closing then [] else [package_of ss low sz buffer] | _ => [] end.

Lemma perform_ok id fd closing before acc W A B op ss : stream ss (HASH_ID id) fd id closing before acc W A B -> allowed id fd op ss ->
  exists type m ss', perform id op ss = Some (type, m, ss') /\
    progress ss (HASH_ID id) fd id (closing_after op closing) before (acc ++ package_sent ss op closing) type ss'.
Proof.
  intros St Ha. destruct op as [low sz buffer| |opaque|f]; cbn [perform closing_after package_sent].
  - destruct closing; [rewrite app_nil_r; by eapply send_closing_ok | by eapply send_socket_ok].
  - rewrite app_nil_r. by eapply send_buffer_ok.
  - rewrite app_nil_r. by eapply close_socket_ok.
  - destruct Ha as (H1 & H2 & H3). rewrite app_nil_r. eexists _, _, _. split; [done|]. split; [done|]. left. split; [done|]. exists W, A, B.
    destruct St. split; rewrite ?H1, ?H2; done.
Qed.

(** What is left to send. *)
Definition rest_of (closing : bool) ss ops : list pkg := if closing then [] else packages ss ops.

Lemma rest_of_cons closing ss op ops : rest_of closing ss (op :: ops) = package_sent ss op closing ++ rest_of (closing_after op closing) ss ops.
Proof. by destruct op, closing. Qed.

(** What a run has done to the packages [given]. *)
Definition outcome (id fd : Z) (before : list Z) (given : list pkg) (closed : bool) (ss' : socket_server) : Prop :=
  exists acc seq pending,
    acc `prefix_of` given /\ ordered acc seq /\ wrote fd (ss_log ss') ++ pending = before ++ text seq /\
    if closed then s_type (slot_at ss' (HASH_ID id)) = SOCKET_TYPE_INVALID /\ (reliable -> acc = given /\ pending = [])
    else acc = given /\ s_wb_size (slot_at ss' (HASH_ID id)) = Z.of_nat (length pending).

Lemma run_ok id fd before ops : forall closing acc W A B ss, stream ss (HASH_ID id) fd id closing before acc W A B -> all_allowed id fd ops ss ->
  exists closed ss', run id ops ss = Some (closed, ss') /\ outcome id fd before (acc ++ rest_of closing ss ops) closed ss'.
Proof.
  induction ops as [|op ops IH]; intros closing acc W A B ss St Hall; cbn [run].
  - exists false, ss. split; [done|]. replace (rest_of closing ss []) with (@nil pkg) by (by destruct closing). rewrite app_nil_r.
    destruct St. exists acc, (A ++ B), (data_of (s_high (slot_at ss (HASH_ID id))) ++ data_of (s_low (slot_at ss (HASH_ID id)))). split_and!; try done.
    + by rewrite text_app, <- st_high0, (same_data_text _ _ st_low0), st_wrote0, <- !app_assoc.
    + rewrite length_app, Nat2Z.inj_add, !size_of_data by done. done.
  - destruct Hall as [Ha Hall]. destruct (perform_ok _ _ _ _ _ _ _ _ _ _ St Ha) as (type & m & ss1 & E & Hsoi & Hp). rewrite E in *.
    rewrite rest_of_cons, app_assoc. set (acc1 := acc ++ package_sent ss op closing) in *. set (cl1 := closing_after op closing) in *.
    destruct Hp as [[-> (W1 & A1 & B1 & St1)] | (-> & Hcl & Ht & seq & lost & Ho & Hw & Hrel)]; simpl.
    + destruct (IH _ _ _ _ _ _ St1 Hall) as (closed & ss2 & E2 & Hout). exists closed, ss2. split; [exact E2|].
      replace (rest_of cl1 ss ops) with (rest_of cl1 ss1 ops); [done|]. unfold rest_of. by rewrite (packages_soi _ _ _ Hsoi).
    + exists true, ss1. split; [done|]. exists acc1, seq, lost. split_and!; try done; [by apply prefix_app_r|].
      intros Hr. split; [|by apply Hrel]. destruct cl1; [by rewrite app_nil_r | by destruct (Hcl eq_refl)].
Qed.

(** ** A descriptor that takes bytes is drained *)

(** Every [write] of some bytes takes one at least. *)
Definition accepting : Prop := forall fd data k, exists n k', k_write fd data k = (Done n, k') /\ (data <> [] -> 0 < n).

Lemma accepting_reliable : accepting -> reliable.
Proof. intros Ha fd data k e k' E. destruct (Ha fd data k) as (n & k2 & E2 & _). congruence. Qed.

Lemma sys_write_accepting fd data ss : accepting -> exists n ss', sys_write fd data ss = (Done n, ss') /\ (data <> [] -> 0 < n).
Proof.
  intros Ha. unfold sys_write. destruct (Ha fd data (ss_kernel ss)) as (n & k & -> & Hn). eexists _, _. split; [done|].
  intros Hd. specialize (Hn Hd). destruct data; [done|]. simpl length. lia.
Qed.

Lemma send_list_tcp_accepting fd wl size ss r size' ss' : accepting -> Forall wb_ok wl -> send_list_tcp fd wl size ss = Some (r, size', ss') ->
  exists rest, r = Again rest /\ size' <= size /\ (rest <> [] -> size' < size).
Proof.
  intros Ha. revert size ss. induction wl as [|wb wl IH]; intros size ss Hok; cbn [send_list_tcp]; [intros [= <- <- <-]; exists []; split_and!; [done | lia | done]|].
  apply Forall_cons in Hok as [(H0 & Hl & Ho) Hok]. destruct (sys_write_ok fd (wb_data wb) ss) as (r1 & ss1 & E & _ & Hr1).
  destruct (sys_write_accepting fd (wb_data wb) ss Ha) as (n & ss2 & E2 & Hn). assert (r1 = Done n) as -> by congruence.
  assert (write_retry (k_patience (ss_kernel ss)) fd (wb_data wb) ss = Some (Done n, ss1)) as -> by (destruct (k_patience _); simpl; by rewrite E).
  destruct (Z.eqb_spec n (wb_sz wb)) as [->|Hne]; simpl.
  - intros E3. destruct (IH _ _ Hok E3) as (rest & -> & H1 & H2). exists rest. split_and!; [done | lia | intros Hx; specialize (H2 Hx); lia].
  - intros [= <- <- <-]. eexists. split; [done|]. assert (0 < n); [|lia]. apply Hn. intros Hx. rewrite Hx in *. simpl in *. lia.
Qed.

(** How many events a connection still needs to get rid of its packages. *)
Definition events_needed (s : socket) : nat := if send_buffer_empty s then 0 else S (Z.to_nat (s_wb_size s)).

Lemma events_needed_le s : (events_needed s <= S (Z.to_nat (s_wb_size s)))%nat.
Proof. unfold events_needed. destruct (send_buffer_empty s); lia. Qed.

Lemma size_of_nonneg wl : Forall wb_ok wl -> 0 <= size_of wl.
Proof. intros H. rewrite <- size_of_data by done. lia. Qed.

Lemma stream_size ss i fd id closing before acc W A B : stream ss i fd id closing before acc W A B -> 0 <= s_wb_size (slot_at ss i).
Proof. intros []. pose proof (size_of_nonneg _ st_high_ok0). pose proof (size_of_nonneg _ st_low_ok0). lia. Qed.

(** Each event brings a connection that is being closed nearer to its end. *)
Lemma send_buffer_nearer i fd id before acc W A B ss type m ss' : accepting -> stream ss i fd id true before acc W A B -> send_buffer i ss = Some (type, m, ss') ->
  type = SOCKET_CLOSE \/ (events_needed (slot_at ss' i) < events_needed (slot_at ss i))%nat.
Proof.
  intros Ha St E. destruct (send_buffer_ok _ _ _ _ _ _ _ _ _ _ St) as (type' & m' & ss2 & E2 & _ & Hp). rewrite E in E2. injection E2 as <- <- <-.
  destruct Hp as [[-> (W2 & A2 & B2 & St2)] | (-> & _)]; [right | by left]. apply stream_size in St2. pose proof (stream_size _ _ _ _ _ _ _ _ _ _ St) as Hsz.
  destruct St. revert E. unfold send_buffer. rewrite untouched_complete, (send_list_ok fd) by done. cbn [negb].
  destruct (send_list_tcp fd (s_high _) _ ss) as [[[r size] ss1]|] eqn:E1; [|done].
  destruct (send_list_tcp_accepting _ _ _ _ _ _ _ Ha st_high_ok0 E1) as (high & -> & Hle & Hlt). set (s := with_lists high _ _ _).
  assert (s_low s = s_low (slot_at ss i)) as El by done.
  destruct (bool_decide_reflect (high = [])) as [->|Hh]; cbn [negb].
  - destruct (bool_decide_reflect (s_low s = [])) as [Hl|Hl]; cbn [negb].
    + change (s_type s) with (s_type (slot_at ss i)). rewrite st_type0, Z.eqb_refl. unfold close_result. destruct (force_close _ _) as [[? ?]|]; [|done]. by intros [= ].
    + rewrite (send_list_ok fd) by done. destruct (send_list_tcp fd (s_low s) _ _) as [[[r size2] ss3]|] eqn:E3; [|done].
      destruct (send_list_tcp_accepting _ _ _ _ _ _ _ Ha st_low_ok0 E3) as (low & -> & Hle2 & Hlt2). change (s_wb_size s) with size in *.
      assert (events_needed (slot_at ss i) = S (Z.to_nat (s_wb_size (slot_at ss i)))) as ->.
      { unfold events_needed, send_buffer_empty. rewrite <- El, (bool_decide_eq_false_2 _ Hl), andb_comm. done. }
      assert (forall s', s_wb_size s' = size2 -> (low = [] -> send_buffer_empty s' = true) -> 0 <= s_wb_size s' ->
        (events_needed s' < S (Z.to_nat (s_wb_size (slot_at ss i))))%nat) as Hend.
      { intros s' Es He Hs'. destruct (decide (low = [])) as [->|Hne]; [unfold events_needed; rewrite He by done; lia|].
        specialize (Hlt2 Hne). pose proof (events_needed_le s'). lia. }
      destruct (list_uncomplete low) eqn:Eu.
      * unfold raise_uncomplete. cbn [s_low with_lists s_high]. destruct low as [|tmp low]; [done|]. cbn. intros [= _ <-]. rewrite slot_at_set in *. by apply Hend.
      * intros [= _ <-]. rewrite slot_at_set in *. apply Hend; [done | by intros -> | done].
  - intros [= _ <-]. rewrite slot_at_set in *. specialize (Hlt Hh). pose proof (events_needed_le s).
    assert (events_needed (slot_at ss i) = S (Z.to_nat (s_wb_size (slot_at ss i)))) as ->.
    { unfold events_needed, send_buffer_empty. destruct (bool_decide_reflect (s_high (slot_at ss i) = [])) as [Hx|]; [|done].
      rewrite Hx in E1. cbn in E1. by injection E1 as <-. }
    change (s_wb_size s) with size in *. lia.
Qed.

Lemma drain id fd before n : forall acc W A B ss, accepting -> stream ss (HASH_ID id) fd id true before acc W A B ->
  (events_needed (slot_at ss (HASH_ID id)) < n)%nat -> exists ss', run id (replicate n Writable) ss = Some (true, ss').
Proof.
  induction n as [|n IH]; intros acc W A B ss Ha St Hn; [lia|]. cbn [replicate run perform].
  destruct (send_buffer_ok _ _ _ _ _ _ _ _ _ _ St) as (type & m & ss1 & E & _ & Hp). rewrite E.
  destruct (send_buffer_nearer _ _ _ _ _ _ _ _ _ _ _ _ Ha St E) as [-> | Hlt]; [by eexists|].
  destruct Hp as [[-> (W1 & A1 & B1 & St1)] | (-> & _)]; [|by eexists]. simpl. eapply IH; [done | exact St1 | lia].
Qed.

Lemma run_app id ops1 ops2 ss : run id (ops1 ++ ops2) ss =
  match run id ops1 ss with Some (false, ss1) => run id ops2 ss1 | r => r end.
Proof.
  revert ss. induction ops1 as [|op ops1 IH]; intros ss; simpl; [done|]. destruct (perform id op ss) as [[[type m] ss1]|]; [|done].
  by destruct (type =? -1).
Qed.

Lemma run_stream id fd before ops : forall closing acc W A B ss, stream ss (HASH_ID id) fd id closing before acc W A B -> all_allowed id fd ops ss ->
  match run id ops ss with
  | Some (false, ss') => exists closing acc W A B, stream ss' (HASH_ID id) fd id closing before acc W A B
  | _ => True
  end.
Proof.
  induction ops as [|op ops IH]; intros closing acc W A B ss St Hall; cbn [run]; [eauto 10|].
  destruct Hall as [Ha Hall]. destruct (perform_ok _ _ _ _ _ _ _ _ _ _ St Ha) as (type & m & ss1 & E & _ & Hp). rewrite E in *.
  destruct Hp as [[-> (W1 & A1 & B1 & St1)] | (-> & _)]; simpl; [|done]. by eapply IH.
Qed.

Lemma all_allowed_app id fd ops1 ops2 ss : all_allowed id fd ops1 ss -> (forall ss, all_allowed id fd ops2 ss) -> all_allowed id fd (ops1 ++ ops2) ss.
Proof.
  intros H1 H2. revert ss H1. induction ops1 as [|op ops1 IH]; intros ss H1; simpl; [done|]. destruct H1 as [Ha H1]. split; [done|].
  destruct (perform id op ss) as [[[? ?] ss1]|]; [by apply IH | done].
Qed.

Lemma writable_allowed id fd n ss : all_allowed id fd (replicate n Writable) ss.
Proof. revert ss. induction n as [|n IH]; intros ss; simpl; [done|]. split; [done|]. by destruct (send_buffer _ ss) as [[[? ?] ?]|]. Qed.

Lemma packages_app_end ss ops n o : packages ss (ops ++ Close o :: replicate n Writable) = packages ss ops.
Proof. induction ops as [|[] ops IH]; simpl; congruence. Qed.

(** An open TCP connection with nothing to write. *)
Record idle_connection (ss : socket_server) (id fd : Z) : Prop := {
  idle_type : s_type (slot_at ss (HASH_ID id)) = SOCKET_TYPE_CONNECTED;
  idle_protocol : s_protocol (slot_at ss (HASH_ID id)) = PROTOCOL_TCP;
  idle_fd : s_fd (slot_at ss (HASH_ID id)) = fd;
  idle_id : s_id (slot_at ss (HASH_ID id)) = id;
  idle_high : s_high (slot_at ss (HASH_ID id)) = [];
  idle_low : s_low (slot_at ss (HASH_ID id)) = [];
  idle_size : s_wb_size (slot_at ss (HASH_ID id)) = 0;
}.

Lemma idle_stream ss id fd : idle_connection ss id fd -> stream ss (HASH_ID id) fd id false (wrote fd (ss_log ss)) [] [] [] [].
Proof. intros []. split; rewrite ?idle_high0, ?idle_low0; try done. by rewrite app_nil_r. Qed.

(** C12: on an open TCP connection, whatever packages are sent with either priority, however the system cuts the writes, whatever else
    the server does meanwhile and whenever the connection is closed, no assertion fails, and what has been written followed by what is pending is the concatenation
    of whole packages, those of one priority in the order they were sent; [wb_size] is the number of pending bytes; when the connection is
    closed without a failed write, everything is written. *)
Theorem packages_whole_and_ordered id fd ops ss : idle_connection ss id fd -> all_allowed id fd ops ss ->
  exists closed ss', run id ops ss = Some (closed, ss') /\ outcome id fd (wrote fd (ss_log ss)) (packages ss ops) closed ss'.
Proof. intros Hi Hall. exact (run_ok id fd _ ops _ _ _ _ _ ss (idle_stream _ _ _ Hi) Hall). Qed.

(** C13: after a graceful close, a descriptor that takes bytes is drained and closed within a bounded number of writable events, and all packages
    sent before the close are on the wire. *)
Theorem close_drains id fd ops opaque ss : accepting -> idle_connection ss id fd -> all_allowed id fd ops ss ->
  exists bound, forall n, (bound <= n)%nat ->
  exists ss' seq, run id (ops ++ Close opaque :: replicate n Writable) ss = Some (true, ss') /\
    s_type (slot_at ss' (HASH_ID id)) = SOCKET_TYPE_INVALID /\
    ordered (packages ss ops) seq /\ wrote fd (ss_log ss') = wrote fd (ss_log ss) ++ text seq.
Proof.
  intros Ha Hi Hall. pose proof (idle_stream _ _ _ Hi) as St.
  assert (exists bound, forall n, (bound <= n)%nat -> exists ss', run id (ops ++ Close opaque :: replicate n Writable) ss = Some (true, ss')) as [bound Hb].
  { pose proof (run_stream id fd _ ops _ _ _ _ _ ss St Hall) as Hrs. destruct (run_ok id fd _ ops _ _ _ _ _ ss St Hall) as (closed & ss1 & E & _).
    rewrite E in Hrs. destruct closed; [exists 0%nat; intros; rewrite run_app, E; by eexists|].
    destruct Hrs as (closing & acc & W & A & B & St1). destruct (close_socket_ok id opaque _ _ _ _ _ _ _ _ St1) as (type & m & ss2 & E2 & _ & Hp).
    exists (S (events_needed (slot_at ss2 (HASH_ID id)))). intros n Hn. rewrite run_app, E. cbn [run perform]. rewrite E2.
    destruct Hp as [[-> (W2 & A2 & B2 & St2)] | (-> & _)]; simpl; [|by eexists]. by eapply drain. }
  exists bound. intros n Hn. destruct (Hb n Hn) as [ss' E].
  destruct (run_ok id fd _ (ops ++ Close opaque :: replicate n Writable) _ _ _ _ _ ss St) as (closed & ss2 & E2 & Hout).
  { apply all_allowed_app; [done|]. intros ss1. split; [done|]. destruct (perform _ _ _) as [[[? ?] ?]|]; [apply writable_allowed | done]. }
  rewrite E in E2. injection E2 as <- <-. destruct Hout as (acc & seq & pending & _ & Ho & Hw & Ht & Hrel).
  destruct (Hrel (accepting_reliable Ha)) as [-> ->]. unfold rest_of in Ho. rewrite packages_app_end in Ho. rewrite app_nil_r in Hw.
  exists ss', seq. done.
Qed.

(** an object of the user's interface the data of which does not begin at the object itself, sent with low priority while
    the connection is busy, is taken for a package written in part: the next writable event, or a close, fails the assertion of [send_buffer]. *)
Theorem low_priority_object_aborts id sz buffer opaque ss :
  s_type (slot_at ss (HASH_ID id)) = SOCKET_TYPE_CONNECTED -> s_protocol (slot_at ss (HASH_ID id)) = PROTOCOL_TCP -> s_id (slot_at ss (HASH_ID id)) = id ->
  s_high (slot_at ss (HASH_ID id)) <> [] -> s_low (slot_at ss (HASH_ID id)) = [] -> sz < 0 -> ss_soi_buffer ss buffer <> buffer ->
  exists ss', send_socket id sz buffer PRIORITY_LOW None ss = Some (-1, None, ss') /\
    send_buffer (HASH_ID id) ss' = None /\ close_socket id 0 opaque ss' = None.
Proof.
  intros Ht Hp Hid Hh Hl Hsz Hb. unfold send_socket, send_object_init. rewrite (proj2 (Z.ltb_lt _ _) Hsz), Ht, Hp, Hid, Z.eqb_refl. simpl.
  unfold send_buffer_empty. rewrite (bool_decide_eq_false_2 _ Hh). simpl. eexists. split; [done|].
  assert (send_buffer (HASH_ID id) (append_sendbuffer_low (HASH_ID id) buffer sz ss) = None) as E.
  { unfold send_buffer, append_sendbuffer_low, append_sendbuffer_, send_object_init. rewrite (proj2 (Z.ltb_lt _ _) Hsz), slot_at_set. simpl.
    rewrite Hl. simpl. rewrite Z.add_0_r, (proj2 (Z.eqb_neq _ _) Hb). done. }
  split; [exact E|]. unfold close_socket. rewrite E. unfold append_sendbuffer_low, append_sendbuffer_, send_object_init. rewrite (proj2 (Z.ltb_lt _ _) Hsz), slot_at_set. simpl.
  rewrite Ht, Hid, Z.eqb_refl. simpl. unfold send_buffer_empty. simpl. by rewrite (bool_decide_eq_false_2 _ Hh).
Qed.

(** What is sent to a descriptor that was bound only waits: nothing is written, and the poll set is not asked to report when it can be. *)
Lemma bound_socket_waits id sz buffer priority ss : s_type (slot_at ss (HASH_ID id)) = SOCKET_TYPE_BIND -> s_id (slot_at ss (HASH_ID id)) = id ->
  exists ss', send_socket id sz buffer priority None ss = Some (-1, None, ss') /\ ss_log ss' = ss_log ss /\ ss_kernel ss' = ss_kernel ss.
Proof.
  intros Ht Hid. unfold send_socket, append_sendbuffer_low, append_sendbuffer, append_sendbuffer_udp, append_sendbuffer_.
  destruct (send_object_init ss buffer sz) as [[base size] user]. rewrite Ht, Hid, Z.eqb_refl, andb_comm. simpl.
  destruct (_ =? PROTOCOL_TCP), (priority =? PRIORITY_LOW), (priority =? PRIORITY_HIGH); by eexists.
Qed.
End Stream.

(** ** Examples *)

(** A system that connects at once and writes as [w] says. *)
Definition system (T : Type) (w : T -> io Z * T) (patience : T -> nat) : Kernel := {|
  kernel := T;
  k_write fd data k := w k;
  k_sendto fd data a k := (Done (Z.of_nat (length data)), k);
  k_read fd sz k := (Failed (if fd <? 0 then EOTHER 9 else EAGAIN), k);
  k_recvfrom fd sz k := (Failed EAGAIN, k);
  k_close fd k := k;
  k_sp_add fd s k := (false, k);
  k_sp_del fd k := k;
  k_sp_write fd s b k := k;
  k_sp_wait k := ([], k);
  k_getaddrinfo host port tcp k := (inr [MkAddr false [0; 80] [127; 0; 0; 1]], k);
  k_socket v6 tcp k := (Done 9, k);
  k_connect fd a k := (Done tt, k);
  k_so_error fd k := (Done 0, k);
  k_getpeername fd k := (Failed (EOTHER 0), k);
  k_accept fd k := (Failed EAGAIN, k);
  k_bind fd a k := (Done tt, k);
  k_listen fd n k := (Done tt, k);
  k_setopt fd o v k := (Done tt, k);
  k_nonblocking fd k := k;
  k_inet_ntop a := None;
  k_patience := patience;
  k_mem a := if a =? 1000 then [1; 2; 3; 4] else if a =? 2000 then [5; 6] else if a =? 3008 then [7; 8; 9] else [];
|}.

(** The results of the next writes are listed; then writes take everything. *)
Definition scripted : Kernel := system (list (io Z)) (fun k => match k with r :: k => (r, k) | [] => (Done 65536, []) end) length.

Lemma scripted_ok : @KernelOk scripted.
Proof. constructor. intros fd data [|r k] k'; simpl; [done|]. intros [= _ ->]. simpl. lia. Qed.

(** Every write takes one byte. *)
Definition slow : Kernel := system unit (fun k => (Done 1, k)) (fun _ => 0%nat).

Lemma slow_ok : @KernelOk slow.
Proof. constructor. intros fd data k k'. simpl. congruence. Qed.

(** A server after a connection was asked for and made. *)
Definition after_connect {K : Kernel} (k : kernel) : socket_server :=
  let '(_, ss) := socket_server_connect 77 (str "localhost") 80 (socket_server_create k) in
  match socket_server_poll 2 0 ss with Some (_, _, _, ss) => ss | None => ss end.

(** A package is written in part, two more wait, and a signal arrives. *)
Definition busy {K : Kernel} : list operation := [Send false 4 1000; Send true 4 1000; Send false 2 2000; Writable].
Definition busy_writes : list (io Z) := [Done 1; Failed EINTR; Done 3; Done 2; Done 3].

Ltac idle_by_computation := split; vm_compute; reflexivity.
Ltac allowed_by_computation := vm_compute; repeat split; discriminate.

Lemma packages_whole_and_ordered_witness : exists closed ss', run (K := scripted) 1 busy (after_connect (K := scripted) busy_writes) = Some (closed, ss') /\
  outcome 1 9 [] [(false, [1; 2; 3; 4]); (true, [1; 2; 3; 4]); (false, [5; 6])] closed ss'.
Proof.
  apply (packages_whole_and_ordered (KOk := scripted_ok) 1 9 busy (after_connect (K := scripted) busy_writes)).
  - idle_by_computation.
  - allowed_by_computation.
Defined.

(** What is on the wire then: the urgent package before the other, which is written in part. *)
Example busy_wire : (let! (closed, ss) := run (K := scripted) 1 busy (after_connect (K := scripted) busy_writes) in
  Some (closed, wrote 9 (ss_log ss), s_wb_size (slot_at ss 1))) = Some (false, [1; 2; 3; 4; 5; 6; 1; 2; 3], 1).
Proof. vm_compute. reflexivity. Qed.

Lemma close_drains_witness : exists bound, forall n, (bound <= n)%nat ->
  exists ss' seq, run (K := slow) 1 ([Send false 4 1000; Send true 2 2000] ++ Close 77 :: replicate n Writable) (after_connect (K := slow) tt) = Some (true, ss') /\
    s_type (slot_at ss' 1) = SOCKET_TYPE_INVALID /\ ordered [(false, [1; 2; 3; 4]); (true, [5; 6])] seq /\ wrote 9 (ss_log ss') = [] ++ text seq.
Proof.
  apply (close_drains (KOk := slow_ok) 1 9 [Send false 4 1000; Send true 2 2000] 77 (after_connect (K := slow) tt)).
  - intros fd data k. exists 1, k. split; [reflexivity | lia].
  - idle_by_computation.
  - allowed_by_computation.
Defined.

(** A busy connection of a server with objects the data of which begins 8 bytes into them. *)
Definition with_objects : socket_server (K := scripted) :=
  let ss := socket_server_userobject (K := scripted) (fun o => o + 8) (fun _ => 3) (after_connect (K := scripted) [Failed EAGAIN]) in
  match send_socket 1 4 1000 PRIORITY_HIGH None ss with Some (_, _, ss) => ss | None => ss end.

Lemma low_priority_object_aborts_witness : exists ss', send_socket 1 (-1) 3000 PRIORITY_LOW None with_objects = Some (-1, None, ss') /\
  send_buffer 1 ss' = None /\ close_socket 1 0 77 ss' = None.
Proof.
  apply (low_priority_object_aborts 1 (-1) 3000 77 with_objects); try (vm_compute; reflexivity); vm_compute; discriminate.
Defined.
