(* ===== verification/SocketSafe.v ===== *)
(** * No assertion of the socket server fails

    Other threads reserve slots and write requests to the control pipe while the socket thread polls.  A slot is reserved before its request is
    written, and the two are separate steps.  Shown here: whatever the order of the steps, the socket thread never fails an assertion, never
    touches a slot that is being opened, and never handles an event of a socket it has closed. *)

From S2P Require Import Prelude CString Socket SocketSpec.

Section Safe.
Context {K : Kernel} {KOk : KernelOk}.
Implicit Types (ss : socket_server) (s : socket).

(** ** The invariant *)

(** The types of sockets that are in the poll set. *)
Definition registered (t : Z) : bool :=
  (t =? SOCKET_TYPE_LISTEN) || (t =? SOCKET_TYPE_CONNECTING) || (t =? SOCKET_TYPE_CONNECTED) || (t =? SOCKET_TYPE_HALFCLOSE) || (t =? SOCKET_TYPE_BIND).

(** Nothing of the buffer is written, as far as [list_uncomplete] can see. *)
Definition whole (wb : write_buffer) : Prop := wb_base wb + wb_off wb = wb_buffer wb.

(** A UDP socket has room for an address. *)
Definition udp_sized s : Prop := s_protocol s <> PROTOCOL_TCP -> length (s_udp_address s) = 19%nat.

Record slot_ok (s : socket) : Prop := {
  so_lists : s_type s = SOCKET_TYPE_INVALID \/ s_type s = SOCKET_TYPE_RESERVE -> s_high s = [] /\ s_low s = [];
  so_low : Forall whole (s_low s);
  so_address : udp_sized s;
}.

(** The id a request opens, and the id it writes to or closes. *)
Definition opens (r : request) : option Z :=
  match r with
  | request_open id _ _ _ | request_listen id _ _ | request_bind id _ _ | request_udp id _ _ _ => Some id
  | _ => None
  end.
Definition uses (r : request) : option Z :=
  match r with
  | request_send id _ _ | request_send_udp id _ _ _ | request_setudp id _ | request_close id _ _ => Some id
  | _ => None
  end.
Definition openings (pipe : list package) : list Z := omap (fun p => opens (pk_request p)) pipe.

(** A reserved socket is not used before the request that opens it. *)
Fixpoint in_order (pending : list Z) (pipe : list package) : Prop :=
  match pipe with
  | [] => True
  | p :: rest => (forall id, uses (pk_request p) = Some id -> id ∉ pending ++ openings rest) /\ in_order pending rest
  end.

(** The letter of a request. *)
Definition letter_ok (type : Z) (r : request) : bool :=
  match r with
  | request_open _ _ _ _ => type =? 79
  | request_send _ _ _ => (type =? 68) || (type =? 80)
  | request_send_udp _ _ _ _ => type =? 65
  | request_setudp _ _ => type =? 67
  | request_close _ _ _ => type =? 75
  | request_listen _ _ _ => type =? 76
  | request_bind _ _ _ => type =? 66
  | request_start _ _ => type =? 83
  | request_setopt _ _ _ => type =? 84
  | request_udp _ _ _ _ => type =? 85
  | request_exit => type =? 88
  end.

(** A datagram address with its type. *)
Definition address_ok (a : list Z) : Prop :=
  (exists rest, a = PROTOCOL_UDP :: rest /\ length rest = 6%nat) \/ (exists rest, a = PROTOCOL_UDPv6 :: rest /\ length rest = 18%nat).

(** A message of the pipe: its header tells its length and letter, an address is complete, and the data of an object sent with low priority begins at the object. *)
Definition package_ok ss (p : package) : Prop :=
  pk_len p = pk_size p /\ letter_ok (pk_type p) (pk_request p) = true /\
  match pk_request p with
  | request_send _ sz buffer => pk_type p = 80 -> sz < 0 -> ss_soi_buffer ss buffer = buffer
  | request_setudp _ address => address_ok address
  | _ => True
  end.

Definition event_slots (l : list event) : list Z := omap e_s l.

(** Events of sockets in the poll set, one at most for each. *)
Definition events_ok ss (l : list event) : Prop :=
  NoDup (event_slots l) /\ forall i, i ∈ event_slots l -> registered (s_type (slot_at ss i)) = true.

(** The events still to be handled. *)
Definition remaining ss : list event := drop (Z.to_nat (ss_event_index ss)) (ss_ev ss).
Definition ready ss : Prop := 0 <= ss_event_index ss <= Z.of_nat (length (ss_ev ss)) /\ events_ok ss (remaining ss).

(** Slots and pipe fit together; [pending] are the ids other threads have reserved and not yet sent a request for. *)
Record inv ss (pending : list Z) : Prop := {
  inv_slots : forall i, slot_ok (slot_at ss i);
  inv_reserved : forall id, id ∈ pending ++ openings (ss_pipe ss) ->
    s_type (slot_at ss (HASH_ID id)) = SOCKET_TYPE_RESERVE /\ s_id (slot_at ss (HASH_ID id)) = id;
  inv_accounted : forall i, s_type (slot_at ss i) = SOCKET_TYPE_RESERVE ->
    HASH_ID (s_id (slot_at ss i)) = i /\ s_id (slot_at ss i) ∈ pending ++ openings (ss_pipe ss);
  inv_distinct : NoDup (pending ++ openings (ss_pipe ss));
  inv_order : in_order pending (ss_pipe ss);
  inv_pipe : Forall (package_ok ss) (ss_pipe ss);
}.

(** ** What an operation does to its slot *)

Lemma slot_at_set_ne i j s ss : i <> j -> slot_at (set_slot i s ss) j = slot_at ss j.
Proof. intros H. unfold slot_at, set_slot. simpl. by rewrite lookup_insert_ne. Qed.

(** Only slot [i] changes, the kernel and the log apart. *)
Record only (i : Z) ss ss' : Prop := {
  only_slot : forall j, j <> i -> slot_at ss' j = slot_at ss j;
  only_rest : ss_checkctrl ss' = ss_checkctrl ss /\ ss_event_index ss' = ss_event_index ss /\ ss_ev ss' = ss_ev ss /\ ss_pipe ss' = ss_pipe ss /\
    ss_soi_buffer ss' = ss_soi_buffer ss;
}.

Lemma same_only i ss ss' : same_state ss ss' -> only i ss ss'.
Proof. intros H. split; [intros; by apply same_slot|]. destruct H as (?&?&?&?&?&?&?&?). done. Qed.
#[export] Instance only_refl i : Reflexive (only i).
Proof. by split. Qed.
#[export] Instance only_trans i : Transitive (only i).
Proof.
  intros a b c [H1 H2] [H3 H4]. split; [intros j Hj; by rewrite H3, H1|]. intuition congruence.
Qed.
Lemma set_slot_only i s ss : only i ss (set_slot i s ss).
Proof. split; [|done]. intros j Hj. by apply slot_at_set_ne. Qed.

(** The socket in slot [i] is still there, possibly in another state. *)
Definition kept (i : Z) ss ss' : Prop :=
  s_id (slot_at ss' i) = s_id (slot_at ss i) /\ slot_ok (slot_at ss' i) /\ s_type (slot_at ss' i) <> SOCKET_TYPE_RESERVE /\
  (registered (s_type (slot_at ss i)) = true -> registered (s_type (slot_at ss' i)) = true).

(** It is closed, and that is reported. *)
Definition ended (i type : Z) (m : option socket_message) ss ss' : Prop :=
  s_id (slot_at ss' i) = s_id (slot_at ss i) /\ slot_ok (slot_at ss' i) /\ s_type (slot_at ss' i) = SOCKET_TYPE_INVALID /\
  (type = SOCKET_CLOSE \/ type = SOCKET_ERROR) /\ exists m0, m = Some m0 /\ m_id m0 = s_id (slot_at ss i).

Definition handled (i type : Z) (m : option socket_message) ss ss' : Prop := only i ss ss' /\ (kept i ss ss' \/ ended i type m ss ss').

Lemma kept_same i ss ss' : slot_ok (slot_at ss i) -> s_type (slot_at ss i) <> SOCKET_TYPE_RESERVE -> slot_at ss' i = slot_at ss i -> kept i ss ss'.
Proof. intros H1 H2 E. unfold kept. by rewrite E. Qed.

Lemma handled_same i type m ss ss' : slot_ok (slot_at ss i) -> s_type (slot_at ss i) <> SOCKET_TYPE_RESERVE -> same_state ss ss' -> handled i type m ss ss'.
Proof. intros H1 H2 H3. split; [by apply same_only|]. left. apply kept_same; [done | done | by apply same_slot]. Qed.

(** The operation went on from a state that differs from [ss] in the kernel only. *)
Lemma handled_after i type m ss ss1 ss2 : same_state ss ss1 -> handled i type m ss1 ss2 -> handled i type m ss ss2.
Proof.
  intros H [H1 H2]. split; [etransitivity; [by apply same_only | done]|]. unfold kept, ended in *. by rewrite (same_slot _ _ i H) in H2.
Qed.

Lemma handled_kept i m ss ss' : handled i (-1) m ss ss' -> kept i ss ss'.
Proof. intros [_ [H | (_ & _ & _ & [|] & _)]]; done. Qed.

(** ** Closing a socket *)

Lemma force_close_open i ss : udp_sized (slot_at ss i) -> s_type (slot_at ss i) <> SOCKET_TYPE_INVALID -> s_type (slot_at ss i) <> SOCKET_TYPE_RESERVE ->
  exists m ss', force_close i ss = Some (m, ss') /\ only i ss ss' /\ m_id m = s_id (slot_at ss i) /\
    s_id (slot_at ss' i) = s_id (slot_at ss i) /\ slot_ok (slot_at ss' i) /\ s_type (slot_at ss' i) = SOCKET_TYPE_INVALID.
Proof.
  intros Hok Hi Hr. unfold force_close. set (s := slot_at ss i) in *. rewrite (proj2 (Z.eqb_neq _ _) Hi), (proj2 (Z.eqb_neq _ _) Hr). simpl.
  eexists _, _. split; [done|]. split; [|rewrite slot_at_set; split_and!; done]. etransitivity; [|apply set_slot_only].
  destruct (free_wb_list_ok 0 (s_high s) ss) as [H1 _]. destruct (free_wb_list_ok 0 (s_low s) (free_wb_list (s_high s) ss)) as [H2 _].
  assert (same_state ss (free_wb_list (s_low s) (free_wb_list (s_high s) ss))) as H by (by etransitivity).
  apply same_only. destruct (_ && _), (negb (_ =? SOCKET_TYPE_BIND)); exact H.
Qed.

Lemma force_close_handled i ss : slot_ok (slot_at ss i) -> s_type (slot_at ss i) <> SOCKET_TYPE_RESERVE ->
  exists m ss', force_close i ss = Some (m, ss') /\ only i ss ss' /\ m_id m = s_id (slot_at ss i) /\
    s_id (slot_at ss' i) = s_id (slot_at ss i) /\ slot_ok (slot_at ss' i) /\ s_type (slot_at ss' i) = SOCKET_TYPE_INVALID.
Proof.
  intros Hok Hr. destruct (decide (s_type (slot_at ss i) = SOCKET_TYPE_INVALID)) as [Hi|Hi]; [|apply force_close_open; [apply Hok | done | done]].
  unfold force_close. rewrite Hi. eexists _, _. split; [done|]. split_and!; done.
Qed.

Lemma close_result_open i ss : udp_sized (slot_at ss i) -> s_type (slot_at ss i) <> SOCKET_TYPE_INVALID -> s_type (slot_at ss i) <> SOCKET_TYPE_RESERVE ->
  exists type m ss', close_result i ss = Some (type, m, ss') /\ handled i type m ss ss'.
Proof.
  intros H1 H2 H3. unfold close_result. destruct (force_close_open i ss H1 H2 H3) as (m & ss' & -> & Ho & Hm & Hid & Hok & Ht).
  eexists _, _, _. split; [done|]. split; [done|]. right. split_and!; try done; [by left | by eexists].
Qed.

Lemma error_result_handled i e ss : slot_ok (slot_at ss i) -> s_type (slot_at ss i) <> SOCKET_TYPE_RESERVE ->
  exists type m ss', error_result i e ss = Some (type, m, ss') /\ handled i type m ss ss'.
Proof.
  intros H1 H2. unfold error_result. destruct (force_close_handled i ss H1 H2) as (m & ss' & -> & Ho & Hm & Hid & Hok & Ht).
  eexists _, _, _. split; [done|]. split; [done|]. right. split_and!; try done; [by right | by eexists].
Qed.

(** ** Sending *)

Lemma same_sys_sendto fd data a ss r ss' : sys_sendto fd data a ss = (r, ss') -> same_state ss ss'.
Proof.
  unfold sys_sendto. intros E. destruct (k_sendto _ _ _ _) as [[n|e] k]; simplify_eq; [etransitivity; [apply same_set_kernel | apply same_add_log] | apply same_set_kernel].
Qed.

Lemma same_call {A} (f : kernel -> A * kernel) ss r ss' : call f ss = (r, ss') -> same_state ss ss'.
Proof. unfold call. destruct (f _). intros [= _ <-]. apply same_set_kernel. Qed.

Lemma send_list_safe s wl ss : exists r size ss', send_list s wl ss = Some (r, size, ss') /\ same_state ss ss' /\
  let rest := match r with Again rest | Broken rest => rest end in
  Forall whole wl -> Forall whole (if list_uncomplete rest then tail rest else rest).
Proof.
  unfold send_list. destruct (s_protocol s =? PROTOCOL_TCP).
  - generalize (s_wb_size s). generalize (s_fd s). intros fd size. revert size ss. induction wl as [|wb wl IH]; intros size ss; cbn [send_list_tcp].
    { eexists _, _, _. split; [done|]. by split. }
    destruct (write_retry_ok _ fd (wb_data wb) ss (le_n _)) as (r & ss1 & -> & Hs1 & Hn & _).
    assert (Forall whole (wb :: wl) -> Forall whole (if list_uncomplete (wb :: wl) then tail (wb :: wl) else wb :: wl)) as Hkeep.
    { intros H. destruct (list_uncomplete _); [by apply Forall_cons in H as [_ H] | done]. }
    destruct r as [n|[]]; try done; try (eexists _, _, _; split; [done|]; split; [done|]; exact Hkeep).
    destruct (n =? wb_sz wb); simpl.
    + destruct (IH (size - n) (write_buffer_free ss1 wb)) as (r & size' & ss2 & -> & Hs2 & Hw). eexists _, _, _. split; [done|].
      split; [etransitivity; [exact Hs1|]; etransitivity; [apply same_free | exact Hs2]|]. intros H. apply Hw. by apply Forall_cons in H as [_ H].
    + eexists _, _, _. split; [done|]. split; [done|]. intros [H1 H2]%Forall_cons. simpl. unfold whole in *.
      destruct (Z.eqb_spec (wb_base wb + (wb_off wb + n)) (wb_buffer wb)); simpl; [by constructor | done].
  - generalize (s_wb_size s). generalize (s_fd s). intros fd size. revert size ss. induction wl as [|wb wl IH]; intros size ss; cbn [send_list_udp].
    { eexists _, _, _. split; [done|]. by split. }
    destruct (sys_sendto fd (wb_data wb) _ ss) as [r ss1] eqn:E.
    pose proof (same_sys_sendto _ _ _ _ _ _ E) as Hs1.
    destruct r as [n|e].
    + destruct (IH (size - wb_sz wb) (write_buffer_free ss1 wb)) as (r & size' & ss2 & [= E2] & Hs2 & Hw). rewrite E2. eexists _, _, _. split; [done|].
      split; [etransitivity; [exact Hs1|]; etransitivity; [apply same_free | exact Hs2]|]. intros H. apply Hw. by apply Forall_cons in H as [_ H].
    + eexists _, _, _. split; [done|]. split; [done|]. intros H. destruct (list_uncomplete _); [by apply Forall_cons in H as [_ H] | done].
Qed.

Lemma whole_complete wl : Forall whole wl -> list_uncomplete wl = false.
Proof. destruct 1 as [|wb wl H _]; [done|]. simpl. unfold whole in H. by rewrite H, Z.eqb_refl. Qed.

(** The lists of an open socket change. *)
Lemma lists_ok s high low n : slot_ok s -> s_type s <> SOCKET_TYPE_INVALID -> s_type s <> SOCKET_TYPE_RESERVE -> Forall whole low -> slot_ok (with_lists high low n s).
Proof. intros [] H1 H2 Hl. split; simpl; [|done..]. by intros [|]. Qed.

Lemma kept_lists i high low n ss ss1 : slot_ok (slot_at ss i) -> s_type (slot_at ss i) <> SOCKET_TYPE_INVALID -> s_type (slot_at ss i) <> SOCKET_TYPE_RESERVE ->
  Forall whole low -> same_state ss ss1 -> handled i (-1) None ss (set_slot i (with_lists high low n (slot_at ss i)) ss1).
Proof.
  intros Hok H1 H2 Hl Hs. split; [etransitivity; [by apply same_only | apply set_slot_only]|]. left. unfold kept. rewrite slot_at_set.
  split_and!; try done. by apply lists_ok.
Qed.

Lemma handled_trans i type m ss ss1 ss2 : only i ss ss1 -> s_id (slot_at ss1 i) = s_id (slot_at ss i) ->
  (registered (s_type (slot_at ss i)) = true -> registered (s_type (slot_at ss1 i)) = true) ->
  handled i type m ss1 ss2 -> handled i type m ss ss2.
Proof.
  intros Ho Hid Hreg [H1 H2]. split; [by etransitivity|]. unfold kept, ended in *. rewrite Hid in H2. destruct H2 as [H2|H2]; [left | by right]. naive_solver.
Qed.

(** Closing after some writes. *)
Lemma close_lists i high low n ss ss1 : slot_ok (slot_at ss i) -> s_type (slot_at ss i) <> SOCKET_TYPE_INVALID -> s_type (slot_at ss i) <> SOCKET_TYPE_RESERVE ->
  same_state ss ss1 -> exists type m ss', close_result i (set_slot i (with_lists high low n (slot_at ss i)) ss1) = Some (type, m, ss') /\ handled i type m ss ss'.
Proof.
  intros Hok Hi Hr Hs. set (ss2 := set_slot i _ ss1). assert (slot_at ss2 i = with_lists high low n (slot_at ss i)) as E by apply slot_at_set.
  destruct (close_result_open i ss2) as (type & m & ss' & E' & H); [rewrite E; try apply Hok; done..|]. exists type, m, ss'. split; [done|].
  eapply handled_trans; [|by rewrite E|by rewrite E|exact H]. etransitivity; [by apply same_only | apply set_slot_only].
Qed.

Lemma send_buffer_handled i ss : slot_ok (slot_at ss i) -> s_type (slot_at ss i) <> SOCKET_TYPE_INVALID -> s_type (slot_at ss i) <> SOCKET_TYPE_RESERVE ->
  exists type m ss', send_buffer i ss = Some (type, m, ss') /\ handled i type m ss ss'.
Proof.
  intros Hok Hi Hr. unfold send_buffer. rewrite whole_complete by apply Hok. cbn [negb]. set (s := slot_at ss i).
  destruct (send_list_safe s (s_high s) ss) as (r & size & ss1 & -> & Hs1 & _). destruct r as [high|high]; [|by apply close_lists].
  destruct (bool_decide_reflect (high = [])) as [->|Hh]; cbn [negb].
  2: { eexists _, _, _. split; [done|]. apply kept_lists; try done. apply Hok. }
  cbn [s_low with_lists]. set (s1 := with_lists [] (s_low s) size s). set (ss2 := set_slot i s1 ss1).
  assert (slot_at ss2 i = s1) as E2 by apply slot_at_set.
  assert (only i ss ss2) as Ho2 by (etransitivity; [by apply same_only | apply set_slot_only]).
  assert (slot_ok s1) as Hok1 by (apply lists_ok; try done; apply Hok).
  destruct (bool_decide_reflect (s_low s = [])) as [Hl|Hl]; cbn [negb].
  - destruct (s_type s1 =? SOCKET_TYPE_HALFCLOSE).
    + assert (slot_at (sp_write (s_fd s1) i false ss2) i = s1) as Ew by exact E2.
      destruct (close_result_open i (sp_write (s_fd s1) i false ss2)) as (type & m & ss3 & E3 & H3); [rewrite Ew; try apply Hok1; done..|].
      exists type, m, ss3. split; [exact E3|]. eapply (handled_trans i _ _ ss ss2); [done | by rewrite E2 | by rewrite E2|].
      eapply handled_after; [|exact H3]. by repeat split.
    + eexists _, _, _. split; [done|]. split; [etransitivity; [exact Ho2|]; apply same_only; by repeat split|]. left. unfold kept.
      change (slot_at (sp_write (s_fd s1) i false ss2) i) with (slot_at ss2 i). by rewrite E2.
  - destruct (send_list_safe s1 (s_low s) ss2) as (r & size2 & ss3 & -> & Hs3 & Hw). specialize (Hw ltac:(apply Hok)). destruct r as [low|low]; cbn in Hw.
    2: { rewrite <- E2. destruct (close_lists i [] low size2 ss2 ss3) as (type & m & ss4 & -> & H4); [rewrite ?E2; done..|].
         eexists _, _, _. split; [done|]. eapply handled_trans; [exact Ho2 | by rewrite E2 | by rewrite E2 | done]. }
    assert (exists h l, (let! t := if list_uncomplete low then raise_uncomplete (with_lists [] low size2 s1) else Some (with_lists [] low size2 s1) in
      Some (-1, @None socket_message, set_slot i t ss3)) = Some (-1, None, set_slot i (with_lists h l size2 s1) ss3) /\ Forall whole l) as (h & l & -> & Hl').
    { destruct (list_uncomplete low) eqn:Eu; [|by exists [], low]. destruct low as [|tmp low]; [done|]. by exists [tmp], low. }
    eexists _, _, _. split; [done|]. rewrite <- E2. eapply (handled_trans i _ _ ss ss2); [done | by rewrite E2 | by rewrite E2|].
    apply kept_lists; by rewrite ?E2.
Qed.

Lemma handled_then i type m ss ss1 ss2 : handled i type m ss ss1 -> same_state ss1 ss2 -> handled i type m ss ss2.
Proof.
  intros [H1 H2] H. split; [etransitivity; [exact H1 | by apply same_only]|]. unfold kept, ended in *. by rewrite (same_slot _ _ i H).
Qed.

(** A command for slot [i] does nothing, or handles a socket that is not reserved. *)
Definition served (i type : Z) (m : option socket_message) ss ss' : Prop :=
  same_state ss ss' \/ (s_type (slot_at ss i) <> SOCKET_TYPE_RESERVE /\ handled i type m ss ss').

Lemma served_none i type m ss : served i type m ss ss.
Proof. by left. Qed.

Lemma send_object_same ss ss' o sz : same_state ss ss' -> send_object_init ss' o sz = send_object_init ss o sz.
Proof. intros (_ & _ & _ & _ & _ & _ & E1 & E2). unfold send_object_init. by rewrite E1, E2. Qed.

(** The data of an object begins at the object. *)
Definition begins ss (sz buffer : Z) : Prop := sz < 0 -> ss_soi_buffer ss buffer = buffer.

Lemma append_whole ss wl buffer sz address : begins ss sz buffer -> Forall whole wl -> Forall whole (fst (append_sendbuffer_ ss wl buffer sz 0 address)).
Proof.
  intros Hb Hw. unfold append_sendbuffer_. destruct (send_object_init ss buffer sz) as [[base size] user] eqn:E. simpl. apply Forall_app. split; [done|].
  constructor; [|done]. unfold whole. simpl. unfold send_object_init in E. destruct (Z.ltb_spec sz 0) as [Hs|Hs]; simplify_eq; [rewrite Hb by done|]; lia.
Qed.

Section Append.
Variables (i : Z) (ss ss1 : socket_server).
Hypotheses (Hok : slot_ok (slot_at ss i)) (Hi : s_type (slot_at ss i) <> SOCKET_TYPE_INVALID) (Hr : s_type (slot_at ss i) <> SOCKET_TYPE_RESERVE) (Hs : same_state ss ss1).

Lemma begins_same sz buffer : begins ss sz buffer -> begins ss1 sz buffer.
Proof. intros Hb Hsz. destruct Hs as (_ & _ & _ & _ & _ & _ & -> & _). by apply Hb. Qed.

Lemma append_high_handled buffer sz n : handled i (-1) None ss (append_sendbuffer i buffer sz n ss1).
Proof.
  unfold append_sendbuffer. destruct (append_sendbuffer_ _ _ _ _ _ _) as [high m]. rewrite (same_slot _ _ i Hs). apply kept_lists; try done. apply Hok.
Qed.

Lemma append_low_handled buffer sz : begins ss sz buffer -> handled i (-1) None ss (append_sendbuffer_low i buffer sz ss1).
Proof.
  intros Hb%begins_same. unfold append_sendbuffer_low. rewrite (same_slot _ _ i Hs). pose proof (append_whole ss1 (s_low (slot_at ss i)) buffer sz [] Hb (so_low _ Hok)) as H.
  destruct (append_sendbuffer_ _ _ _ _ _ _) as [low m]. by apply kept_lists.
Qed.

Lemma append_udp_handled priority buffer sz address : (priority <> PRIORITY_HIGH -> begins ss sz buffer) ->
  handled i (-1) None ss (append_sendbuffer_udp i priority buffer sz address ss1).
Proof.
  intros Hb. unfold append_sendbuffer_udp. rewrite (same_slot _ _ i Hs). destruct (Z.eqb_spec priority PRIORITY_HIGH) as [Hp|Hp].
  - destruct (append_sendbuffer_ _ _ _ _ _ _) as [high m]. apply kept_lists; try done. apply Hok.
  - pose proof (append_whole ss1 (s_low (slot_at ss i)) buffer sz address (begins_same _ _ (Hb Hp)) (so_low _ Hok)) as H.
    destruct (append_sendbuffer_ _ _ _ _ _ _) as [low m]. by apply kept_lists.
Qed.
End Append.

Lemma same_sp_write fd ud b ss : same_state ss (sp_write fd ud b ss).
Proof. by repeat split. Qed.

Lemma send_socket_served id sz buffer priority address ss : slot_ok (slot_at ss (HASH_ID id)) ->
  (s_id (slot_at ss (HASH_ID id)) = id -> s_type (slot_at ss (HASH_ID id)) <> SOCKET_TYPE_RESERVE) ->
  (priority <> PRIORITY_HIGH -> begins ss sz buffer) ->
  exists type m ss', send_socket id sz buffer priority address ss = Some (type, m, ss') /\ served (HASH_ID id) type m ss ss'.
Proof.
  intros Hok Hr Hb. unfold send_socket. set (i := HASH_ID id) in *. set (s := slot_at ss i) in *.
  destruct (send_object_init ss buffer sz) as [[base size] user].
  destruct (_ || (s_type s =? SOCKET_TYPE_PACCEPT)) eqn:E1; [eexists _, _, _; split; [done|]; left; apply same_free|].
  destruct (_ || (s_type s =? SOCKET_TYPE_LISTEN)) eqn:E2; [eexists _, _, _; split; [done|]; left; apply same_free|].
  apply orb_false_elim in E1 as [E1 _]. apply orb_false_elim in E1 as [E1 _]. apply orb_false_elim in E1 as [Hi%Z.eqb_neq Hid].
  apply negb_false_iff, Z.eqb_eq in Hid. specialize (Hr Hid).
  destruct (send_buffer_empty s && _).
  - destruct (s_protocol s =? PROTOCOL_TCP).
    + destruct (sys_write_ok (s_fd s) (bytes_at base 0 size) ss) as (r & ss1 & -> & Hs1 & _).
      assert (forall n, exists type m ss', (if n =? size then Some (-1, @None socket_message, free_object user buffer ss1)
          else Some (-1, None, sp_write (s_fd s) i true (append_sendbuffer i buffer sz n ss1))) = Some (type, m, ss') /\ served i type m ss ss') as Hpart.
      { intros n. destruct (n =? size); (eexists _, _, _; split; [done|]); [left; etransitivity; [exact Hs1 | apply same_free]|].
        right. split; [done|]. eapply handled_then; [by apply append_high_handled | apply same_sp_write]. }
      assert (exists type m ss', (let! (m, ss) := force_close i ss1 in Some (SOCKET_CLOSE, Some m, free_object user buffer ss)) = Some (type, m, ss') /\ served i type m ss ss') as Hbreak.
      { destruct (force_close_open i ss1) as (m & ss2 & -> & Ho & Hm & Hid2 & Hok2 & Ht); rewrite ?(same_slot _ _ i Hs1) in *; try done; [apply Hok|].
        eexists _, _, _. split; [done|]. right. split; [done|]. eapply handled_after; [exact Hs1|]. eapply (handled_then _ _ _ _ ss2); [|apply same_free].
        split; [done|]. right. unfold ended. rewrite (same_slot _ _ i Hs1). split_and!; try done; [by left | by eexists]. }
      destruct r as [n|[]]; try exact Hbreak; apply Hpart.
    + destruct (sys_sendto (s_fd s) (bytes_at base 0 size) _ ss) as [r ss1] eqn:Es. apply same_sys_sendto in Es.
      destruct (match r with Done n => n =? size | Failed _ => false end); (eexists _, _, _; split; [done|]); [left; etransitivity; [exact Es | apply same_free]|].
      right. split; [done|]. eapply handled_then; [by apply append_udp_handled | apply same_sp_write].
  - destruct (s_protocol s =? PROTOCOL_TCP); [destruct (Z.eqb_spec priority PRIORITY_LOW) as [->|]|]; (eexists _, _, _; split; [done|]); right; (split; [done|]).
    + apply append_low_handled; try done. by apply Hb.
    + by apply append_high_handled.
    + by apply append_udp_handled.
Qed.

(** ** Commands *)

Lemma not_socket_cases id ss : slot_ok (slot_at ss (HASH_ID id)) -> (s_id (slot_at ss (HASH_ID id)) = id -> s_type (slot_at ss (HASH_ID id)) <> SOCKET_TYPE_RESERVE) ->
  (s_type (slot_at ss (HASH_ID id)) =? SOCKET_TYPE_INVALID) || negb (s_id (slot_at ss (HASH_ID id)) =? id) = false ->
  s_type (slot_at ss (HASH_ID id)) <> SOCKET_TYPE_INVALID /\ s_type (slot_at ss (HASH_ID id)) <> SOCKET_TYPE_RESERVE /\ s_id (slot_at ss (HASH_ID id)) = id.
Proof. intros _ Hr [Hi%Z.eqb_neq Hid%negb_false_iff%Z.eqb_eq]%orb_false_elim. auto. Qed.

Lemma close_socket_served id shutdown opaque ss : slot_ok (slot_at ss (HASH_ID id)) ->
  (s_id (slot_at ss (HASH_ID id)) = id -> s_type (slot_at ss (HASH_ID id)) <> SOCKET_TYPE_RESERVE) ->
  exists type m ss', close_socket id shutdown opaque ss = Some (type, m, ss') /\ served (HASH_ID id) type m ss ss'.
Proof.
  intros Hok Hr. unfold close_socket. destruct (_ || _) eqn:E; [eexists _, _, _; split; [done | apply served_none]|].
  apply (not_socket_cases _ _ Hok Hr) in E as (Hi & Hr' & Hid). set (i := HASH_ID id) in *.
  assert (exists type m ss1, (if negb (send_buffer_empty (slot_at ss i)) then send_buffer i ss else Some (-1, None, ss)) = Some (type, m, ss1) /\ handled i type m ss ss1)
    as (type & m & ss1 & -> & Hh).
  { destruct (negb _); [by apply send_buffer_handled|]. eexists _, _, _. split; [done|]. by apply handled_same. }
  destruct (Z.eqb_spec type (-1)) as [->|Ht]; simpl; [|eexists _, _, _; split; [done|]; by right].
  pose proof (handled_kept _ _ _ _ Hh) as (K1 & K2 & K3 & K4). destruct Hh as [Ho _].
  destruct (negb (shutdown =? 0) || send_buffer_empty (slot_at ss1 i)) eqn:Es.
  - destruct (force_close_handled i ss1 K2 K3) as (m' & ss2 & -> & Ho2 & Hm & Hid2 & Hok2 & Ht2). eexists _, _, _. split; [done|]. right. split; [done|].
    split; [by etransitivity|]. right. unfold ended. split_and!; try done; [congruence | by left | by eexists].
  - apply orb_false_elim in Es as [_ Es]. eexists _, _, _. split; [done|]. right. split; [done|]. unfold set_type. split; [etransitivity; [exact Ho | apply set_slot_only]|].
    left. unfold kept. rewrite slot_at_set. split_and!; try done. destruct K2. split; simpl; [|done..]. by intros [|].
Qed.

Lemma start_socket_served id opaque ss : slot_ok (slot_at ss (HASH_ID id)) ->
  exists type m ss', start_socket id opaque ss = Some (type, m, ss') /\ served (HASH_ID id) type m ss ss'.
Proof.
  intros Hok. unfold start_socket. set (i := HASH_ID id) in *. destruct (_ || _) eqn:E; [eexists _, _, _; split; [done | apply served_none]|].
  apply orb_false_elim in E as [Hi%Z.eqb_neq Hid%negb_false_iff%Z.eqb_eq].
  destruct (_ || _) eqn:Ep.
  - assert (s_type (slot_at ss i) <> SOCKET_TYPE_RESERVE) as Hr by (intros Hx; by rewrite Hx in Ep).
    destruct (sp_add _ _ ss) as [failed ss1] eqn:Ea. assert (same_state ss ss1) as Hs.
    { unfold sp_add in Ea. destruct (k_sp_add _ _ _) as [[] k]; simplify_eq; [apply same_set_kernel | etransitivity; [apply same_set_kernel | apply same_add_log]]. }
    destruct failed.
    + destruct (force_close_handled i ss1) as (m & ss2 & -> & Ho & Hm & Hid2 & Hok2 & Ht); rewrite ?(same_slot _ _ i Hs) in *; try done.
      eexists _, _, _. split; [done|]. right. split; [done|]. eapply handled_after; [exact Hs|]. split; [done|]. right. unfold ended. rewrite (same_slot _ _ i Hs).
      split_and!; try done; [by right | by eexists].
    + eexists _, _, _. split; [done|]. right. split; [done|]. split; [etransitivity; [by apply same_only | apply set_slot_only]|]. left. unfold kept. rewrite slot_at_set.
      destruct (s_type (slot_at ss i) =? SOCKET_TYPE_PACCEPT); (split_and!; try done; destruct Hok; split; simpl; [|done..]; by intros [|]).
  - destruct (Z.eqb_spec (s_type (slot_at ss i)) SOCKET_TYPE_CONNECTED) as [Ht|Ht]; [|eexists _, _, _; split; [done | apply served_none]].
    eexists _, _, _. split; [done|]. right. split; [by rewrite Ht|]. split; [apply set_slot_only|]. left. unfold kept. rewrite slot_at_set.
    split_and!; try done; [destruct Hok; by split | simpl; by rewrite Ht].
Qed.

Lemma setopt_socket_same id what value ss : same_state ss (setopt_socket id what value ss).
Proof. unfold setopt_socket. destruct (_ || _); [done|]. destruct (call _ ss) as [r ss'] eqn:E. by eapply same_call. Qed.

Lemma set_udp_address_ok s a : slot_ok s -> length a = length (s_udp_address s) -> slot_ok (with_address a s).
Proof. intros [] H. split; simpl; [done..|]. unfold udp_sized in *. simpl. by rewrite H. Qed.
Lemma set_udp_address_served id a ss : slot_ok (slot_at ss (HASH_ID id)) ->
  (s_id (slot_at ss (HASH_ID id)) = id -> s_type (slot_at ss (HASH_ID id)) <> SOCKET_TYPE_RESERVE) -> address_ok a ->
  exists type m ss', set_udp_address id a ss = Some (type, m, ss') /\ served (HASH_ID id) type m ss ss'.
Proof.
  intros Hok Hr Ha. unfold set_udp_address. destruct (_ || _) eqn:E; [eexists _, _, _; split; [done | apply served_none]|].
  apply (not_socket_cases _ _ Hok Hr) in E as (Hi & Hr' & Hid). set (i := HASH_ID id) in *.
  assert (exists t rest, a = t :: rest /\ t <> PROTOCOL_TCP /\ (length a = 7 \/ length a = 19)%nat /\ length a = Z.to_nat (if t =? PROTOCOL_UDP then 1 + 2 + 4 else 1 + 2 + 16))
    as (t & rest & E & Ht & Hl & Hn).
  { destruct Ha as [(rest & -> & H) | (rest & -> & H)]; simpl; (eexists _, rest; split; [done|]); (split; [done|]); rewrite H; split; try done; [by left | by right]. }
  assert (aget a 0 = Some t) as -> by (by rewrite E).
  destruct (Z.eqb_spec t (s_protocol (slot_at ss i))) as [Hp|Hp]; simpl; [|eexists _, _, _; split; [done | apply served_none]].
  set (n := if t =? PROTOCOL_UDP then _ else _) in *. assert (0 <= n) by (subst n; by destruct (_ =? _)). rewrite memcpy_Some by lia.
  assert (length (s_udp_address (slot_at ss i)) = 19%nat) as H19 by (apply Hok; by rewrite <- Hp).
  assert (length (take (Z.to_nat n) (drop (Z.to_nat 0) a)) = length a) as Hlt by (rewrite drop_0, take_ge by lia; done).
  unfold memcpy_at. rewrite Hlt, H19. replace (_ && _) with true by (symmetry; apply andb_true_intro; split; apply Z.leb_le; lia).
  eexists _, _, _. split; [done|]. right. split; [done|]. split; [apply set_slot_only|]. left. unfold kept. rewrite slot_at_set.
  split_and!; try done. apply set_udp_address_ok; [done|]. change (Z.to_nat 0) with 0%nat in *.
  rewrite !length_app, length_drop, Hlt, H19. simpl. lia.
Qed.

(** ** Opening *)

(** The slot of a request that opens a socket is taken, or free again. *)
Definition opened (i : Z) ss ss' : Prop := only i ss ss' /\ slot_ok (slot_at ss' i) /\ s_type (slot_at ss' i) <> SOCKET_TYPE_RESERVE.

Lemma new_fd_ok id fd protocol opaque add ss : slot_ok (slot_at ss (HASH_ID id)) -> s_type (slot_at ss (HASH_ID id)) = SOCKET_TYPE_RESERVE ->
  exists ok ss', new_fd id fd protocol opaque add ss = Some (ok, ss') /\ only (HASH_ID id) ss ss' /\
    slot_at ss' (HASH_ID id) = if ok then MkSocket opaque [] [] 0 fd id protocol SOCKET_TYPE_RESERVE MIN_READ_BUFFER (s_udp_address (slot_at ss (HASH_ID id)))
                               else with_type SOCKET_TYPE_INVALID (slot_at ss (HASH_ID id)).
Proof.
  intros Hok Ht. unfold new_fd. set (i := HASH_ID id) in *. set (s := slot_at ss i) in *. assert (s_high s = [] /\ s_low s = []) as [Hh Hl] by (apply Hok; by right).
  rewrite Ht, Z.eqb_refl. assert (exists failed ss1, (if add : bool then sp_add fd (Some i) ss else (false, ss)) = (failed, ss1) /\ same_state ss ss1) as (failed & ss1 & -> & Hs).
  { destruct add; [|by eexists _, _]. unfold sp_add. destruct (k_sp_add _ _ _) as [[] k]; (eexists _, _; split; [done|]); [apply same_set_kernel | etransitivity; [apply same_set_kernel | apply same_add_log]]. }
  rewrite Hh, Hl. destruct failed; (eexists _, _; split; [done|]; split; [etransitivity; [by apply same_only | apply set_slot_only] | rewrite slot_at_set]); done.
Qed.

Lemma opened_free i ss ss' ss2 : slot_ok (slot_at ss i) -> s_type (slot_at ss i) = SOCKET_TYPE_RESERVE -> only i ss ss' ->
  slot_at ss' i = with_type SOCKET_TYPE_INVALID (slot_at ss i) -> same_state ss' ss2 -> opened i ss ss2 /\ opened i ss (set_type i SOCKET_TYPE_INVALID ss2).
Proof.
  intros Hok Ht Ho E Hs. assert (slot_ok (with_type SOCKET_TYPE_INVALID (slot_at ss i))) as Hok2.
  { destruct Hok as [H1 H2 H3]. split; simpl; [|done..]. intros _. apply H1. by right. }
  assert (only i ss ss2) as Ho2 by (etransitivity; [exact Ho | by apply same_only]).
  split; [split; [done|]; by rewrite (same_slot _ _ i Hs), E|]. unfold set_type. split; [etransitivity; [exact Ho2 | apply set_slot_only]|].
  rewrite slot_at_set, (same_slot _ _ i Hs), E. by split.
Qed.

Lemma opened_taken i opaque fd id protocol size address t ss ss' : only i ss ss' ->
  slot_at ss' i = MkSocket opaque [] [] 0 fd id protocol SOCKET_TYPE_RESERVE size address -> t <> SOCKET_TYPE_RESERVE -> protocol = PROTOCOL_TCP ->
  opened i ss (set_type i t ss').
Proof.
  intros Ho E Ht Hp. unfold set_type. split; [etransitivity; [exact Ho | apply set_slot_only]|]. rewrite slot_at_set, E. split; [|done].
  split; simpl; [|done|]; [by intros _|]. unfold udp_sized. simpl. congruence.
Qed.

Lemma same_sys_close fd ss : same_state ss (sys_close fd ss).
Proof. by repeat split. Qed.

Lemma opened_then i ss ss1 ss2 : opened i ss ss1 -> same_state ss1 ss2 -> opened i ss ss2.
Proof. intros (H1 & H2 & H3) H. split; [etransitivity; [exact H1 | by apply same_only]|]. by rewrite (same_slot _ _ i H). Qed.

Section Opening.
Variables (id : Z) (ss : socket_server).
Hypotheses (Hok : slot_ok (slot_at ss (HASH_ID id))) (Ht : s_type (slot_at ss (HASH_ID id)) = SOCKET_TYPE_RESERVE).

Lemma listen_socket_opened fd opaque : exists type m ss', listen_socket id fd opaque ss = Some (type, m, ss') /\ opened (HASH_ID id) ss ss'.
Proof.
  unfold listen_socket. destruct (new_fd_ok id fd PROTOCOL_TCP opaque false ss Hok Ht) as (ok & ss1 & -> & Ho & E).
  destruct ok; (eexists _, _, _; split; [done|]); [by eapply opened_taken|]. by apply (opened_free _ _ _ _ Hok Ht Ho E), same_sys_close.
Qed.

Lemma bind_socket_opened fd opaque : exists type m ss', bind_socket id fd opaque ss = Some (type, m, ss') /\ opened (HASH_ID id) ss ss'.
Proof.
  unfold bind_socket. destruct (new_fd_ok id fd PROTOCOL_TCP opaque true ss Hok Ht) as (ok & ss1 & -> & Ho & E).
  destruct ok; (eexists _, _, _; split; [done|]); [|by apply (opened_free _ _ _ _ Hok Ht Ho E)].
  eapply opened_taken; [etransitivity; [exact Ho | by apply same_only] | exact E | done | done].
Qed.

Lemma add_udp_socket_opened fd v6 opaque : exists ss', add_udp_socket id fd v6 opaque ss = Some ss' /\ opened (HASH_ID id) ss ss'.
Proof.
  unfold add_udp_socket. destruct (new_fd_ok id fd (if v6 then PROTOCOL_UDPv6 else PROTOCOL_UDP) opaque true ss Hok Ht) as (ok & ss1 & -> & Ho & E).
  destruct ok; (eexists; split; [done|]); [|by apply (opened_free _ _ _ _ Hok Ht Ho E), same_sys_close].
  split; [etransitivity; [exact Ho | apply set_slot_only]|]. rewrite slot_at_set, E. by split.
Qed.

Lemma connect_loop_same ai last ss0 : same_state ss0 (snd (connect_loop ai last ss0)).
Proof.
  revert last ss0. induction ai as [|a ai IH]; intros last ss0; simpl; [done|].
  destruct (call (k_socket (sa_v6 a) true) ss0) as [r ss1] eqn:E1. apply same_call in E1. destruct r as [sock|e]; [|by etransitivity].
  unfold socket_keepalive. destruct (call (k_setopt sock 9 1) ss1) as [r2 ss2] eqn:E2. apply same_call in E2. cbn [snd].
  destruct (call (k_connect sock a) (sp_nonblocking sock ss2)) as [r3 ss3] eqn:E3. apply same_call in E3.
  assert (same_state ss0 ss3) as H by (etransitivity; [exact E1|]; etransitivity; [exact E2|]; etransitivity; [apply same_set_kernel | exact E3]).
  destruct r3 as [u|[]]; try exact H; (etransitivity; [exact H|]; etransitivity; [apply (same_sys_close sock) | apply IH]).
Qed.

Lemma open_socket_opened port opaque host : exists type m ss', open_socket id port opaque host ss = Some (type, m, ss') /\ opened (HASH_ID id) ss ss'.
Proof.
  unfold open_socket. destruct (call _ ss) as [r ss1] eqn:E1. apply same_call in E1.
  assert (forall ss2, same_state ss ss2 -> opened (HASH_ID id) ss (set_type (HASH_ID id) SOCKET_TYPE_INVALID ss2)) as Hfail.
  { intros ss2 Hs. unfold set_type. split; [etransitivity; [by apply same_only | apply set_slot_only]|]. rewrite slot_at_set, (same_slot _ _ _ Hs). split; [|done].
    destruct Hok as [H1 H2 H3]. split; simpl; [|done..]. intros _. apply H1. by right. }
  destruct r as [status|ai]; [eexists _, _, _; split; [done|]; by apply Hfail|].
  pose proof (connect_loop_same ai (EOTHER 0) ss1) as H2. destruct (connect_loop ai (EOTHER 0) ss1) as [c ss2]. cbn [snd] in H2.
  assert (same_state ss ss2) as Hs by (by etransitivity). destruct c as [[[sock connected] a]|e]; [|eexists _, _, _; split; [done|]; by apply Hfail].
  destruct (new_fd_ok id sock PROTOCOL_TCP opaque true ss2) as (ok & ss3 & -> & Ho & E); [by rewrite (same_slot _ _ _ Hs)..|]. rewrite (same_slot _ _ _ Hs) in E.
  assert (only (HASH_ID id) ss ss3) as Ho3 by (etransitivity; [by apply same_only | exact Ho]).
  destruct ok; simpl; [destruct connected|]; (eexists _, _, _; split; [done|]).
  - by eapply opened_taken.
  - eapply opened_then; [|apply same_sp_write]; by eapply opened_taken.
  - by apply (opened_free _ _ _ _ Hok Ht Ho3 E), same_sys_close.
Qed.
End Opening.

(** ** Events *)

Lemma kept_handled i type m ss ss1 s' : slot_ok (slot_at ss i) -> same_state ss ss1 -> s_id s' = s_id (slot_at ss i) -> slot_ok s' -> s_type s' <> SOCKET_TYPE_RESERVE ->
  (registered (s_type (slot_at ss i)) = true -> registered (s_type s') = true) -> handled i type m ss (set_slot i s' ss1).
Proof.
  intros Hok Hs H1 H2 H3 H4. split; [etransitivity; [by apply same_only | apply set_slot_only]|]. left. unfold kept. by rewrite slot_at_set.
Qed.

Section Handlers.
Variables (i : Z) (ss : socket_server).
Hypotheses (Hok : slot_ok (slot_at ss i)) (Hi : s_type (slot_at ss i) <> SOCKET_TYPE_INVALID) (Hr : s_type (slot_at ss i) <> SOCKET_TYPE_RESERVE).

Lemma error_after e ss1 : same_state ss ss1 -> exists type m ss', error_result i e ss1 = Some (type, m, ss') /\ handled i type m ss ss'.
Proof.
  intros Hs. destruct (error_result_handled i e ss1) as (type & m & ss2 & E & H); rewrite ?(same_slot _ _ i Hs); try done.
  exists type, m, ss2. split; [done|]. by eapply handled_after.
Qed.

Lemma close_after ss1 : same_state ss ss1 -> exists type m ss', close_result i ss1 = Some (type, m, ss') /\ handled i type m ss ss'.
Proof.
  intros Hs. destruct (close_result_open i ss1) as (type & m & ss2 & E & H); rewrite ?(same_slot _ _ i Hs); try done; [apply Hok|].
  exists type, m, ss2. split; [done|]. by eapply handled_after.
Qed.

Lemma forward_message_tcp_handled : exists type m ss', forward_message_tcp i ss = Some (type, m, ss') /\ handled i type m ss ss'.
Proof.
  unfold forward_message_tcp. destruct (call _ ss) as [r ss1] eqn:E. apply same_call in E.
  assert (forall type m, handled i type m ss ss1) as Hsame by (intros; by apply handled_same).
  destruct r as [data|[]]; try (by apply error_after); try (eexists _, _, _; split; [done|]; apply Hsame).
  destruct (_ =? 0); [by apply close_after|]. destruct (_ =? SOCKET_TYPE_HALFCLOSE); [eexists _, _, _; split; [done|]; apply Hsame|].
  eexists _, _, _. split; [done|]. apply kept_handled; try done. destruct Hok. by split.
Qed.

Lemma forward_message_udp_handled : exists type m ss', forward_message_udp i ss = Some (type, m, ss') /\ handled i type m ss ss'.
Proof.
  unfold forward_message_udp. destruct (call _ ss) as [r ss1] eqn:E. apply same_call in E.
  assert (forall type m, handled i type m ss ss1) as Hsame by (intros; by apply handled_same).
  destruct r as [[data sa]|[]]; try (by apply error_after); try (eexists _, _, _; split; [done|]; apply Hsame).
  destruct (negb _); (eexists _, _, _; split; [done|]; apply Hsame).
Qed.

Lemma report_connect_handled : exists type m ss', report_connect i ss = Some (type, m, ss') /\ handled i type m ss ss'.
Proof.
  unfold report_connect. destruct (call _ ss) as [r ss1] eqn:E. apply same_call in E. destruct r as [error|e]; [|by apply error_after].
  destruct (negb (error =? 0)); [by apply error_after|]. set (s := with_type SOCKET_TYPE_CONNECTED (slot_at ss i)).
  match goal with |- context [call ?f ?x] => destruct (call f x) as [p ss3] eqn:E3 end. apply same_call in E3.
  eexists _, _, _. split; [done|].
  eapply (handled_then _ _ _ _ (set_slot i s ss1)); [|destruct (send_buffer_empty s); exact E3]. apply kept_handled; try done.
  destruct Hok as [H1 H2 H3]. split; [|done..]. by intros [|].
Qed.
End Handlers.

(** Reserving: a free slot is taken, or none is. *)
Lemma reserve_id_ok ss : exists a, let '(id, ss') := reserve_id ss in
  (id = -1 /\ ss' = set_alloc a ss) \/
  (0 <= id /\ s_type (slot_at ss (HASH_ID id)) = SOCKET_TYPE_INVALID /\
   let s := slot_at ss (HASH_ID id) in
   ss' = set_slot (HASH_ID id) (MkSocket (s_opaque s) (s_high s) (s_low s) (s_wb_size s) (-1) id (s_protocol s) SOCKET_TYPE_RESERVE (s_size s) (s_udp_address s)) (set_alloc a ss)).
Proof.
  unfold reserve_id. generalize (Z.to_nat MAX_SOCKET). intros n. revert ss. induction n as [|n IH]; intros ss; cbn [reserve_loop].
  - exists (ss_alloc_id ss). left. split; [done|]. by destruct ss.
  - set (id := if i32 _ <? 0 then _ else _). change (slot_at (set_alloc id ss)) with (slot_at ss).
    destruct (Z.eqb_spec (s_type (slot_at ss (HASH_ID id))) SOCKET_TYPE_INVALID) as [Ht|Ht].
    + exists id. right. split; [|by split]. subst id. destruct (Z.ltb_spec (i32 (ss_alloc_id ss + 1)) 0); [|lia]. apply Z.land_nonneg. by right.
    + destruct (IH (set_alloc id ss)) as [a H]. exists a. destruct (reserve_loop n (set_alloc id ss)) as [id2 ss2]. destruct H as [[-> ->] | (H1 & H2 & ->)]; [by left | by right].
Qed.

Lemma set_alloc_only i a ss : only i ss (set_alloc a ss).
Proof. by split. Qed.

(** An accepted connection takes a free slot. *)
Lemma report_accept_ok i ss : (forall j, slot_ok (slot_at ss j)) -> exists ok m ss' j, report_accept i ss = Some (ok, m, ss') /\ only j ss ss' /\
  (slot_at ss' j = slot_at ss j \/ (s_type (slot_at ss j) = SOCKET_TYPE_INVALID /\ slot_ok (slot_at ss' j) /\ s_type (slot_at ss' j) <> SOCKET_TYPE_RESERVE)).
Proof.
  intros Hok. unfold report_accept. destruct (call _ ss) as [r ss1] eqn:E. apply same_call in E.
  destruct r as [[fd u]|e]; [|destruct e; (eexists _, _, _, 0; split; [done|]; split; [by apply same_only|]; left; by apply same_slot)].
  destruct (reserve_id_ok ss1) as [a H]. destruct (reserve_id ss1) as [id ss2]. destruct H as [[-> ->] | (Hid & Ht & ->)].
  { eexists _, _, _, 0. split; [done|]. split; [etransitivity; [apply (same_only _ _ _ E) | etransitivity; [apply (set_alloc_only 0 a) | apply same_only, same_sys_close]]|]. left. exact (same_slot _ _ 0 E). }
  rewrite (proj2 (Z.ltb_ge _ _) Hid). rewrite (same_slot _ _ _ E) in *. set (j := HASH_ID id) in *. set (s0 := MkSocket _ _ _ _ _ _ _ _ _ _).
  assert (slot_ok s0) as Hok0 by (destruct (Hok j) as [H1 H2 H3]; split; simpl; [intros _; apply H1; by left | exact H2 | exact H3]).
  unfold socket_keepalive. match goal with |- context [call ?f ?x] => destruct (call f x) as [r3 ss3] eqn:E3 end. apply same_call in E3. cbn [snd].
  assert (only j ss (sp_nonblocking fd ss3)) as Ho3.
  { etransitivity; [apply (same_only _ _ _ E)|]. etransitivity; [apply (set_alloc_only j a)|]. etransitivity; [apply (set_slot_only j s0)|]. apply same_only. exact E3. }
  assert (slot_at (sp_nonblocking fd ss3) j = s0) as Es3 by (change (slot_at ss3 j = s0); rewrite (same_slot _ _ j E3); apply slot_at_set).
  destruct (new_fd_ok id fd PROTOCOL_TCP (s_opaque (slot_at ss i)) false (sp_nonblocking fd ss3)) as (ok & ss4 & -> & Ho4 & E4); [by fold j; rewrite Es3..|].
  fold j in Ho4, E4. rewrite Es3 in E4. assert (only j ss ss4) as Ho by (by etransitivity). destruct ok; simpl.
  - eexists _, _, _, j. split; [done|]. unfold set_type. split; [etransitivity; [exact Ho | apply set_slot_only]|]. right. rewrite slot_at_set, E4.
    split_and!; try done. split; simpl; [by intros [|] | done | by intros ?].
  - eexists _, _, _, j. split; [done|]. split; [etransitivity; [exact Ho | apply same_only, same_sys_close]|]. right.
    change (slot_at (sys_close fd ss4) j) with (slot_at ss4 j). rewrite E4. split_and!; try done. destruct Hok0 as [H1 H2 H3]. split; simpl; [|done..]. intros _. apply H1. by right.
Qed.
(** ** The invariant is kept *)

Lemma same_id_slot ss a b : s_id (slot_at ss (HASH_ID a)) = a -> s_id (slot_at ss (HASH_ID b)) = b -> HASH_ID a = HASH_ID b -> a = b.
Proof. intros Ha Hb E. rewrite <- Ha, <- Hb. by rewrite E. Qed.

Lemma package_ok_soi ss ss' p : ss_soi_buffer ss' = ss_soi_buffer ss -> package_ok ss p -> package_ok ss' p.
Proof. intros E. unfold package_ok. by rewrite E. Qed.

(** A slot that is not reserved changes. *)
Lemma inv_change j ss ss' pending : only j ss ss' -> slot_ok (slot_at ss' j) -> s_type (slot_at ss j) <> SOCKET_TYPE_RESERVE -> s_type (slot_at ss' j) <> SOCKET_TYPE_RESERVE ->
  inv ss pending -> inv ss' pending.
Proof.
  intros [Hf (Ec & Ei & Ee & Ep & Es)] Hok Hr Hr' []. assert (forall k, slot_at ss' k = slot_at ss k \/ k = j) as Hk.
  { intros k. destruct (decide (k = j)); [by right | left; by apply Hf]. }
  split; rewrite ?Ep; try done.
  - intros k. by destruct (Hk k) as [-> | ->].
  - intros id Hid. destruct (inv_reserved0 id Hid) as [H1 H2]. destruct (Hk (HASH_ID id)) as [-> | E]; [done|]. by rewrite E in H1.
  - intros k Ht. destruct (Hk k) as [E | ->]; [rewrite E in *; by apply inv_accounted0 | done].
  - eapply Forall_impl; [exact inv_pipe0|]. intros p. by apply package_ok_soi.
Qed.

Lemma inv_handled i type m ss ss' pending : s_type (slot_at ss i) <> SOCKET_TYPE_RESERVE -> handled i type m ss ss' -> inv ss pending -> inv ss' pending.
Proof.
  intros Hr [Ho [(_ & Hok & Ht & _) | (_ & Hok & Ht & _)]] Hinv; eapply inv_change; try done. by rewrite Ht.
Qed.

Lemma inv_slots_same j ss ss' pending : slot_at ss' j = slot_at ss j -> only j ss ss' -> inv ss pending -> inv ss' pending.
Proof.
  intros Ej [Hf (_ & _ & _ & Ep & Es)] []. assert (forall i, slot_at ss' i = slot_at ss i) as E by (intros i; destruct (decide (i = j)) as [->|]; auto).
  split; rewrite ?Ep; try done; try (intros k; rewrite E; auto).
  eapply Forall_impl; [exact inv_pipe0|]. intros p. by apply package_ok_soi.
Qed.

Lemma inv_same ss ss' pending : same_state ss ss' -> inv ss pending -> inv ss' pending.
Proof. intros H. apply (inv_slots_same 0); [by apply same_slot | by apply same_only]. Qed.

Lemma inv_events_set c n ev ss pending : inv ss pending -> inv (set_events c n ev ss) pending.
Proof. intros []. by split. Qed.

(** Taking a request out of the pipe. *)
Lemma inv_request_taken p rest ss pending : ss_pipe ss = p :: rest -> opens (pk_request p) = None -> inv ss pending -> inv (set_pipe rest ss) pending.
Proof.
  intros Ep Hp []. rewrite Ep in *. assert (openings (p :: rest) = openings rest) as Eo by (unfold openings; simpl; by rewrite Hp). rewrite Eo in *.
  split; simpl; try done; [by destruct inv_order0 | by apply Forall_cons in inv_pipe0 as [_ ?]].
Qed.

Lemma inv_opening_taken p rest id ss ss' pending : ss_pipe ss = p :: rest -> opens (pk_request p) = Some id -> opened (HASH_ID id) (set_pipe rest ss) ss' ->
  inv ss pending -> inv ss' pending.
Proof.
  intros Ep Hp ([Hf (Ec & Ei & Ee & Ep' & Es)] & Hok & Hr) []. rewrite Ep in *. cbn [set_pipe ss_pipe ss_soi_buffer] in Ep', Es.
  assert (openings (p :: rest) = id :: openings rest) as Eo by (unfold openings; simpl; by rewrite Hp). rewrite Eo in *.
  assert (id ∉ pending ++ openings rest) as Hid.
  { apply NoDup_app in inv_distinct0 as (_ & H1 & [H2 _]%NoDup_cons). rewrite elem_of_app. intros [H|H]; [|done]. eapply H1; [exact H | by constructor]. }
  assert (forall k, k ∈ pending ++ openings rest -> k ∈ pending ++ id :: openings rest) as Hsub by (intros k; rewrite !elem_of_app, elem_of_cons; tauto).
  assert (forall k, slot_at ss' k = slot_at ss k \/ k = HASH_ID id) as Hk.
  { intros k. destruct (decide (k = HASH_ID id)); [by right | left; by apply Hf]. }
  destruct (inv_reserved0 id) as [Ht Hi]; [rewrite elem_of_app, elem_of_cons; tauto|].
  split; rewrite ?Ep'.
  - intros k. by destruct (Hk k) as [-> | ->].
  - intros k Hin. destruct (inv_reserved0 k (Hsub _ Hin)) as [H1 H2]. destruct (Hk (HASH_ID k)) as [-> | E]; [done|].
    assert (k = id) as -> by (by eapply same_id_slot). done.
  - intros k Hkt. destruct (Hk k) as [E | ->]; [|done]. rewrite E in *. destruct (inv_accounted0 k Hkt) as [H1 H2]. split; [done|].
    rewrite elem_of_app, elem_of_cons in H2. rewrite elem_of_app. destruct H2 as [|[H2|]]; [by left| |by right]. rewrite H2 in H1. subst k. by rewrite E in Hr.
  - apply NoDup_app in inv_distinct0 as (H1 & H2 & [H3 H4]%NoDup_cons). apply NoDup_app. split_and!; try done. intros x Hx Hx'. apply (H2 x Hx). by right.
  - by destruct inv_order0.
  - apply Forall_cons in inv_pipe0 as [_ H]. eapply Forall_impl; [exact H|]. intros q. by apply package_ok_soi.
Qed.
(** ** Events that are left *)

(** The events are ready, or one may be left of a socket that was closed just now. *)
Definition settled (type : Z) (m : option socket_message) ss : Prop :=
  ready ss \/
  ((type = SOCKET_CLOSE \/ type = SOCKET_ERROR) /\ exists m0 i, m = Some m0 /\ s_type (slot_at ss i) = SOCKET_TYPE_INVALID /\ s_id (slot_at ss i) = m_id m0 /\
   0 <= ss_event_index ss <= Z.of_nat (length (ss_ev ss)) /\ NoDup (event_slots (remaining ss)) /\
   forall j, j ∈ event_slots (remaining ss) -> j <> i -> registered (s_type (slot_at ss j)) = true).

Lemma ready_change j ss ss' : only j ss ss' -> (registered (s_type (slot_at ss j)) = true -> registered (s_type (slot_at ss' j)) = true) -> ready ss -> ready ss'.
Proof.
  intros [Hf (_ & Ei & Ee & _)] Hreg [Hx [Hn H]]. unfold ready, events_ok, remaining in *. rewrite Ei, Ee. split; [done|]. split; [done|].
  intros i Hi. destruct (decide (i = j)) as [->|Hne]; [by apply Hreg, H | rewrite Hf by done; by apply H].
Qed.

Lemma ready_unlisted j ss ss' : only j ss ss' -> j ∉ event_slots (remaining ss) -> ready ss -> ready ss'.
Proof.
  intros [Hf (_ & Ei & Ee & _)] Hj [Hx [Hn H]]. unfold ready, events_ok, remaining in *. rewrite Ei, Ee. split; [done|]. split; [done|].
  intros i Hi. rewrite Hf; [by apply H|]. by intros ->.
Qed.

Lemma ready_same ss ss' : same_state ss ss' -> ready ss -> ready ss'.
Proof. intros H. apply (ready_change 0); [by apply same_only|]. by rewrite (same_slot _ _ _ H). Qed.

Lemma ready_not_listed j ss : ready ss -> registered (s_type (slot_at ss j)) = false -> j ∉ event_slots (remaining ss).
Proof. intros [_ [_ H]] Hr Hj. rewrite (H j Hj) in Hr. done. Qed.

Lemma settled_handled i type m ss ss' : handled i type m ss ss' -> ready ss -> settled type m ss'.
Proof.
  intros [Ho [(_ & _ & _ & Hreg) | (Hid & _ & Ht & Htype & m0 & -> & Hm)]] Hready; [left; by eapply ready_change|].
  right. split; [done|]. exists m0, i. pose proof Ho as [Hf (_ & Ei & Ee & _)]. unfold remaining. rewrite Ei, Ee. destruct Hready as [Hx [Hn H]].
  split; [done|]. split; [done|]. split; [congruence|]. split; [done|]. split; [done|]. intros j Hj Hne. rewrite Hf by done. by apply H.
Qed.

Lemma clear_events_length ss id l : length (clear_events ss id l) = length l.
Proof.
  induction l as [|e l IH]; simpl; [done|]. destruct (e_s e) as [i|]; simpl; [|by rewrite IH]. destruct (_ && _); simpl; [done | by rewrite IH].
Qed.

Lemma event_slots_cons e l : event_slots (e :: l) = match e_s e with Some i => i :: event_slots l | None => event_slots l end.
Proof. done. Qed.

Lemma clear_events_sub ss id l : NoDup (event_slots l) -> NoDup (event_slots (clear_events ss id l)) /\ forall j, j ∈ event_slots (clear_events ss id l) -> j ∈ event_slots l.
Proof.
  induction l as [|e l IH]; cbn [clear_events]; [done|]. rewrite event_slots_cons. destruct (e_s e) as [i|] eqn:Ee.
  - intros [Hi Hn]%NoDup_cons. destruct (_ && _); rewrite event_slots_cons; cbn [e_s]; [split; [done|]; intros j; by right|].
    rewrite Ee. destruct (IH Hn) as [H1 H2]. split; [apply NoDup_cons; split; [by intros ?%H2 | done]|]. intros j. rewrite !elem_of_cons. naive_solver.
  - rewrite event_slots_cons, Ee. apply IH.
Qed.

Lemma clear_events_gone ss i l : NoDup (event_slots l) -> s_type (slot_at ss i) = SOCKET_TYPE_INVALID ->
  (forall j, j ∈ event_slots l -> j <> i -> registered (s_type (slot_at ss j)) = true) -> i ∉ event_slots (clear_events ss (s_id (slot_at ss i)) l).
Proof.
  intros Hn Ht Hreg. induction l as [|e l IH]; cbn [clear_events]; [by apply not_elem_of_nil|]. rewrite event_slots_cons in *. destruct (e_s e) as [k|] eqn:Ee.
  - apply NoDup_cons in Hn as [Hk Hn]. destruct (decide (k = i)) as [->|Hne].
    + rewrite Ht, !Z.eqb_refl. simpl. done.
    + destruct (Z.eqb_spec (s_type (slot_at ss k)) SOCKET_TYPE_INVALID) as [Hx|_]; [specialize (Hreg k ltac:(by left) Hne); by rewrite Hx in Hreg|].
      cbn [andb]. rewrite event_slots_cons, Ee, not_elem_of_cons. split; [done|]. apply IH; [done|]. intros j Hj. apply Hreg. by right.
  - rewrite event_slots_cons, Ee. by apply IH.
Qed.

(** An event of a socket that was closed by a command is dropped. *)
Lemma clear_closed_event_ready type m ss : settled type m ss -> ready (clear_closed_event m type ss).
Proof.
  intros H. unfold clear_closed_event. destruct m as [m|]; [|destruct H as [H | (_ & m0 & i & [=] & _)]; done].
  destruct ((type =? SOCKET_CLOSE) || (type =? SOCKET_ERROR)) eqn:Et.
  2: { destruct H as [H | ([-> | ->] & _)]; done. }
  set (n := Z.to_nat (ss_event_index ss)). unfold ready, remaining. cbn [set_events ss_event_index ss_ev].
  change (slot_at (set_events _ _ _ ss)) with (slot_at ss). unfold events_ok. change (slot_at (set_events (ss_checkctrl ss) (ss_event_index ss) (take n (ss_ev ss) ++ clear_events ss (m_id m) (drop n (ss_ev ss))) ss)) with (slot_at ss).
  rewrite length_app, clear_events_length, length_take, length_drop.
  assert (0 <= ss_event_index ss <= Z.of_nat (length (ss_ev ss)) /\ NoDup (event_slots (remaining ss)) /\
    forall j, j ∈ event_slots (clear_events ss (m_id m) (remaining ss)) -> registered (s_type (slot_at ss j)) = true) as (Hx & Hn & Hreg).
  { destruct H as [[Hx [Hn H]] | (_ & m0 & i & [= <-] & Ht & Hi & Hx & Hn & H)]; (split; [done|]; split; [done|]); intros j Hj.
    - apply H. exact (proj2 (clear_events_sub ss (m_id m) _ Hn) j Hj).
    - apply H; [exact (proj2 (clear_events_sub ss (m_id m) _ Hn) j Hj)|]. intros ->. rewrite <- Hi in Hj. by apply clear_events_gone in Hj. }
  split; [lia|]. rewrite drop_app_length' by (rewrite length_take; lia). split; [exact (proj1 (clear_events_sub ss (m_id m) _ Hn)) | exact Hreg].
Qed.
Lemma inv_clear m type ss pending : inv ss pending -> inv (clear_closed_event m type ss) pending.
Proof. intros H. destruct m; simpl; [|done]. destruct (_ || _); [by apply inv_events_set | done]. Qed.

(** ** The socket thread *)

Lemma settled_served i type m ss ss' : served i type m ss ss' -> ready ss -> settled type m ss'.
Proof. intros [H | [_ H]] Hr; [left; by eapply ready_same | by eapply settled_handled]. Qed.

Lemma inv_served i type m ss ss' pending : served i type m ss ss' -> inv ss pending -> inv ss' pending.
Proof. intros [H | [H1 H2]] Hi; [by eapply inv_same | by eapply inv_handled]. Qed.

(** A socket that may be written to or closed is not reserved. *)
Lemma used_not_reserved p rest id ss pending : inv ss pending -> ss_pipe ss = p :: rest -> uses (pk_request p) = Some id -> opens (pk_request p) = None ->
  s_id (slot_at ss (HASH_ID id)) = id -> s_type (slot_at ss (HASH_ID id)) <> SOCKET_TYPE_RESERVE.
Proof.
  intros [] Ep Hu Ho Hid Ht. destruct (inv_accounted0 _ Ht) as [_ H]. rewrite Ep, Hid in *. destruct inv_order0 as [Hord _]. apply (Hord id Hu).
  unfold openings in H. simpl in H. by rewrite Ho in H.
Qed.

Lemma ctrl_cmd_ok p rest ss pending : inv ss pending -> ready ss -> ss_pipe ss = p :: rest ->
  exists type m ss', ctrl_cmd ss = Some (type, m, ss') /\ inv ss' pending /\ settled type m ss'.
Proof.
  intros Hinv Hready Ep. unfold ctrl_cmd, block_readpipe. rewrite Ep. pose proof (inv_pipe _ _ Hinv) as Hp. rewrite Ep in Hp. apply Forall_cons in Hp as [(Hlen & Hletter & Hreq) _].
  rewrite (proj2 (Z.eqb_eq _ _) Hlen). set (ss1 := set_pipe rest ss). assert (ready ss1) as Hready1 by exact Hready.
  assert (forall i, slot_ok (slot_at ss1 i)) as Hok by exact (inv_slots _ _ Hinv).
  assert (opens (pk_request p) = None -> inv ss1 pending) as Hpop by (intros; by eapply inv_request_taken).
  assert (forall id, uses (pk_request p) = Some id -> opens (pk_request p) = None ->
    s_id (slot_at ss1 (HASH_ID id)) = id -> s_type (slot_at ss1 (HASH_ID id)) <> SOCKET_TYPE_RESERVE) as Huse by (intros id; exact (used_not_reserved p rest id ss pending Hinv Ep)).
  assert (forall id, opens (pk_request p) = Some id -> s_type (slot_at ss1 (HASH_ID id)) = SOCKET_TYPE_RESERVE) as Hres.
  { intros id Ho. apply (inv_reserved _ _ Hinv id). rewrite Ep. unfold openings. simpl. rewrite Ho, elem_of_app, elem_of_cons. tauto. }
  assert (forall id ss', opens (pk_request p) = Some id -> opened (HASH_ID id) ss1 ss' -> inv ss' pending /\ ready ss') as Hopen.
  { intros id ss' Ho Hx. split; [by eapply inv_opening_taken|]. destruct Hx as [Hx _]. eapply ready_unlisted; [exact Hx | | done]. apply ready_not_listed; [done|]. by rewrite (Hres id Ho). }
  destruct (pk_request p) as [id port opaque host|id sz buffer|id sz buffer address|id address|id shutdown opaque|id fd opaque|id fd opaque|id opaque|id what value|id fd v6 opaque|];
    cbn [letter_ok] in Hletter; cbn [opens uses] in *.
  - rewrite Hletter. destruct (open_socket_opened id ss1 (Hok _) (Hres id eq_refl) port opaque host) as (type & m & ss' & -> & Hx). destruct (Hopen id ss' eq_refl Hx).
    eexists _, _, _. split; [done|]. split; [done | by left].
  - assert (forall pr, (pr <> PRIORITY_HIGH -> begins ss1 sz buffer) -> exists type m ss', send_socket id sz buffer pr None ss1 = Some (type, m, ss') /\ inv ss' pending /\ settled type m ss') as Hsend.
    { intros pr Hb. destruct (send_socket_served id sz buffer pr None ss1 (Hok _) (Huse id eq_refl eq_refl) Hb) as (type & m & ss' & -> & Hx).
      eexists _, _, _. split; [done|]. split; [eapply inv_served; [exact Hx | by apply Hpop] | by eapply settled_served]. }
    destruct (Z.eqb_spec (pk_type p) 68) as [_|Hn]; [by apply Hsend|]. simpl in Hletter. rewrite Hletter. apply Hsend. intros _ Hsz. apply Hreq; [by apply Z.eqb_eq | done].
  - rewrite Hletter. destruct (send_socket_served id sz buffer PRIORITY_HIGH (Some address) ss1 (Hok _) (Huse id eq_refl eq_refl) ltac:(done)) as (type & m & ss' & -> & Hx).
    eexists _, _, _. split; [done|]. split; [eapply inv_served; [exact Hx | by apply Hpop] | by eapply settled_served].
  - rewrite Hletter. destruct (set_udp_address_served id address ss1 (Hok _) (Huse id eq_refl eq_refl) Hreq) as (type & m & ss' & -> & Hx).
    eexists _, _, _. split; [done|]. split; [eapply inv_served; [exact Hx | by apply Hpop] | by eapply settled_served].
  - rewrite Hletter. destruct (close_socket_served id shutdown opaque ss1 (Hok _) (Huse id eq_refl eq_refl)) as (type & m & ss' & -> & Hx).
    eexists _, _, _. split; [done|]. split; [eapply inv_served; [exact Hx | by apply Hpop] | by eapply settled_served].
  - rewrite Hletter. destruct (listen_socket_opened id ss1 (Hok _) (Hres id eq_refl) fd opaque) as (type & m & ss' & -> & Hx). destruct (Hopen id ss' eq_refl Hx).
    eexists _, _, _. split; [done|]. split; [done | by left].
  - rewrite Hletter. destruct (bind_socket_opened id ss1 (Hok _) (Hres id eq_refl) fd opaque) as (type & m & ss' & -> & Hx). destruct (Hopen id ss' eq_refl Hx).
    eexists _, _, _. split; [done|]. split; [done | by left].
  - rewrite Hletter. destruct (start_socket_served id opaque ss1 (Hok _)) as (type & m & ss' & -> & Hx).
    eexists _, _, _. split; [done|]. split; [eapply inv_served; [exact Hx | by apply Hpop] | by eapply settled_served].
  - rewrite Hletter. eexists _, _, _. split; [done|]. pose proof (setopt_socket_same id what value ss1) as Hs.
    split; [eapply inv_same; [exact Hs | by apply Hpop] | left; by eapply ready_same].
  - rewrite Hletter. destruct (add_udp_socket_opened id ss1 (Hok _) (Hres id eq_refl) fd v6 opaque) as (ss' & -> & Hx). destruct (Hopen id ss' eq_refl Hx).
    eexists _, _, _. split; [done|]. split; [done | by left].
  - rewrite Hletter. eexists _, _, _. split; [done|]. split; [by apply Hpop | by left].
Qed.
(** The event at the current index and those behind it. *)
Lemma remaining_at ss : ready ss -> ss_event_index ss <> Z.of_nat (length (ss_ev ss)) ->
  exists e, aget (ss_ev ss) (ss_event_index ss) = Some e /\ remaining ss = e :: drop (Z.to_nat (ss_event_index ss + 1)) (ss_ev ss).
Proof.
  intros [Hx _] Hne. destruct (aget_is_Some (ss_ev ss) (ss_event_index ss)) as [e He]; [lia|]. exists e. split; [done|].
  apply aget_Some in He as [_ He]. unfold remaining. rewrite (drop_S _ _ _ He). do 2 f_equal. lia.
Qed.

Lemma ready_advance c ss e : ready ss -> ss_event_index ss <> Z.of_nat (length (ss_ev ss)) -> aget (ss_ev ss) (ss_event_index ss) = Some e ->
  let ss1 := set_events c (ss_event_index ss + 1) (ss_ev ss) ss in
  ready ss1 /\ forall i, e_s e = Some i -> registered (s_type (slot_at ss i)) = true /\ i ∉ event_slots (remaining ss1).
Proof.
  intros Hr Hne He ss1. destruct (remaining_at ss Hr Hne) as (e' & He' & Hrem). assert (e' = e) as -> by congruence. destruct Hr as [Hx [Hn H]].
  rewrite Hrem, event_slots_cons in Hn, H. destruct (e_s e) as [i|] eqn:Ee.
  - apply NoDup_cons in Hn as [Hi Hn]. split; [split; [simpl; lia|]; split; [exact Hn|]; intros j Hj; apply (H j); by right|].
    intros j [= <-]. split; [apply H; by left | exact Hi].
  - split; [|done]. split; [simpl; lia|]. by split.
Qed.

(** The index goes back to the event of a socket that is still there. *)
Lemma ready_back c index i r w ss : ready ss -> ss_event_index ss = index + 1 -> 0 <= index -> i ∉ event_slots (remaining ss) -> registered (s_type (slot_at ss i)) = true ->
  ready (set_events c index (<[Z.to_nat index := MkEvent (Some i) r w]> (ss_ev ss)) ss).
Proof.
  intros [Hx [Hn H]] Ei H0 Hi Ht. unfold ready, remaining, events_ok in *. cbn [set_events ss_event_index ss_ev].
  change (slot_at (set_events _ _ _ ss)) with (slot_at ss). rewrite length_insert. split; [lia|].
  assert (drop (Z.to_nat index) (<[Z.to_nat index := MkEvent (Some i) r w]> (ss_ev ss)) = MkEvent (Some i) r w :: drop (Z.to_nat (ss_event_index ss)) (ss_ev ss)) as ->.
  { erewrite drop_S by (apply list_lookup_insert_eq; lia). rewrite drop_insert_lt by lia. do 2 f_equal. lia. }
  rewrite event_slots_cons. cbn [e_s]. split; [by apply NoDup_cons|]. intros j [->|Hj]%elem_of_cons; [exact Ht | by apply H].
Qed.

Lemma ready_handled i type m ss ss' : i ∉ event_slots (remaining ss) -> handled i type m ss ss' -> ready ss -> ready ss'.
Proof. intros Hi [Ho _]. by eapply ready_unlisted. Qed.

Lemma registered_open t : registered t = true -> t <> SOCKET_TYPE_INVALID /\ t <> SOCKET_TYPE_RESERVE.
Proof. intros H. split; intros ->; discriminate H. Qed.

Lemma only_remaining i ss ss' : only i ss ss' -> remaining ss' = remaining ss /\ ss_event_index ss' = ss_event_index ss /\ ss_ev ss' = ss_ev ss /\ ss_checkctrl ss' = ss_checkctrl ss.
Proof. intros [_ (H1 & H2 & H3 & _)]. unfold remaining. by rewrite H1, H2, H3. Qed.

Lemma handle_io_ok i index e ss pending : inv ss pending -> ready ss -> ss_event_index ss = index + 1 -> aget (ss_ev ss) index = Some e -> e_s e = Some i ->
  i ∉ event_slots (remaining ss) -> registered (s_type (slot_at ss i)) = true ->
  exists p ss', handle_io i index e ss = Some (p, ss') /\ inv ss' pending /\ ready ss'.
Proof.
  intros Hinv Hready Ei He Es Hi Hreg. destruct (registered_open _ Hreg) as [Hni Hnr]. pose proof (inv_slots _ _ Hinv i) as Hok. unfold handle_io.
  destruct (e_read e).
  - assert (exists type m ss', (if s_protocol (slot_at ss i) =? PROTOCOL_TCP then forward_message_tcp i ss else forward_message_udp i ss) = Some (type, m, ss') /\ handled i type m ss ss')
      as (type & m & ss2 & -> & Hh).
    { destruct (_ =? PROTOCOL_TCP); [by apply forward_message_tcp_handled | by apply forward_message_udp_handled]. }
    pose proof (inv_handled _ _ _ _ _ _ Hnr Hh Hinv) as Hinv2. pose proof (ready_handled _ _ _ _ _ Hi Hh Hready) as Hready2.
    destruct (only_remaining _ _ _ (proj1 Hh)) as (Erem & Eidx & Eev & Ecc). apply aget_Some in He as [H0 He].
    assert (type <> SOCKET_CLOSE -> type <> SOCKET_ERROR -> forall r w, ready (set_events (ss_checkctrl ss2) index (<[Z.to_nat index := MkEvent (Some i) r w]> (ss_ev ss2)) ss2)) as Hback.
    { intros H1 H2 r w. apply ready_back; [done | congruence | done | by rewrite Erem|]. destruct Hh as [_ [(_ & _ & _ & Hk) | (_ & _ & _ & [|] & _)]]; [by apply Hk | done..]. }
    destruct (negb _ && (type =? SOCKET_UDP)) eqn:Eu.
    + apply andb_prop in Eu as [_ ->%Z.eqb_eq]. eexists _, _. split; [done|]. split; [by apply inv_events_set|].
      rewrite <- (list_insert_id (ss_ev ss2) (Z.to_nat index) e) at 1 by congruence. destruct e as [s' r w]. simpl in Es. subst s'. by apply Hback.
    + destruct (e_write e && negb (type =? SOCKET_CLOSE) && negb (type =? SOCKET_ERROR)) eqn:Ew; (eexists _, _; split; [done|]); [|done].
      apply andb_prop in Ew as [[_ H1%negb_true_iff%Z.eqb_neq]%andb_prop H2%negb_true_iff%Z.eqb_neq]. split; [by apply inv_events_set|]. rewrite Es. by apply Hback.
  - destruct (e_write e); [|eexists _, _; by split]. destruct (send_buffer_handled i ss Hok Hni Hnr) as (type & m & ss2 & -> & Hh).
    eexists _, _. split; [done|]. split; [by eapply inv_handled | by eapply ready_handled].
Qed.

Lemma poll_event_ok ss pending : inv ss pending -> ready ss -> ss_event_index ss <> Z.of_nat (length (ss_ev ss)) ->
  exists p ss', poll_event ss = Some (p, ss') /\ inv ss' pending /\ ready ss'.
Proof.
  intros Hinv Hready Hne. unfold poll_event. destruct (remaining_at ss Hready Hne) as (e & He & _). rewrite He.
  destruct (ready_advance (ss_checkctrl ss) ss e Hready Hne He) as [Hready1 Hi]. set (ss1 := set_events _ _ _ ss) in *.
  assert (inv ss1 pending) as Hinv1 by (by apply inv_events_set). destruct (e_s e) as [i|] eqn:Es; [|eexists _, _; by split].
  destruct (Hi i eq_refl) as [Hreg Hout]. change (slot_at ss i) with (slot_at ss1 i) in Hreg. destruct (registered_open _ Hreg) as [Hni Hnr]. pose proof (inv_slots _ _ Hinv1 i) as Hok.
  destruct (s_type (slot_at ss1 i) =? SOCKET_TYPE_CONNECTING).
  { destruct (report_connect_handled i ss1 Hok Hnr) as (type & m & ss2 & -> & Hh). eexists _, _. split; [done|].
    split; [by eapply inv_handled | by eapply ready_handled]. }
  destruct (s_type (slot_at ss1 i) =? SOCKET_TYPE_LISTEN).
  { destruct (report_accept_ok i ss1 (inv_slots _ _ Hinv1)) as (ok & m & ss2 & j & -> & Ho & Hj). eexists _, _. split; [done|].
    destruct Hj as [Ej | (Hjt & Hjok & Hjr)].
    - split; [by eapply inv_slots_same | eapply ready_change; [exact Ho | by rewrite Ej | done]].
    - split; [eapply inv_change; [exact Ho | done | by rewrite Hjt | done | done]|]. eapply ready_unlisted; [exact Ho | | done].
      apply ready_not_listed; [done|]. by rewrite Hjt. }
  destruct (s_type (slot_at ss1 i) =? SOCKET_TYPE_INVALID); [eexists _, _; by split|]. by apply handle_io_ok.
Qed.
(** What [epoll] promises: it reports sockets of the poll set only, each once. *)
Definition poll_sound ss : Prop := forall ev k, k_sp_wait (ss_kernel ss) = (ev, k) -> events_ok ss ev.

Lemma event_slots_take n l : event_slots (take n l) `sublist_of` event_slots l.
Proof. rewrite <- (take_drop n l) at 2. unfold event_slots. rewrite omap_app. apply sublist_inserts_r. done. Qed.

Lemma poll_pass_ok more ss pending : inv ss pending -> ready ss -> poll_sound ss ->
  exists p more' ss', poll_pass more ss = Some (p, more', ss') /\ inv ss' pending /\ ready ss'.
Proof.
  intros Hinv Hready Hsound. unfold poll_pass. destruct (ss_checkctrl ss && has_cmd ss) eqn:Ec.
  - apply andb_prop in Ec as [_ Ec]. unfold has_cmd in Ec. destruct (ss_pipe ss) as [|p rest] eqn:Ep; [done|].
    destruct (ctrl_cmd_ok p rest ss pending Hinv Hready Ep) as (type & m & ss1 & -> & Hinv1 & Hs1).
    destruct (Z.eqb_spec type (-1)) as [->|Ht]; simpl; (eexists _, _, _; split; [done|]); [split; [done|]|split; [by apply inv_clear | by apply clear_closed_event_ready]].
    destruct Hs1 as [Hs1 | ([|] & _)]; done.
  - set (ss0 := set_events false _ _ ss). assert (inv ss0 pending) as Hinv0 by (by apply inv_events_set). assert (ready ss0) as Hready0 by exact Hready.
    destruct (Z.eqb_spec (ss_event_index ss0) (Z.of_nat (length (ss_ev ss0)))) as [Hx|Hx].
    2: { destruct (poll_event_ok ss0 pending Hinv0 Hready0 Hx) as (p & ss1 & -> & H1 & H2). by eexists _, _, _. }
    destruct (call k_sp_wait ss0) as [ev ss1] eqn:Ew. pose proof (same_call _ _ _ _ Ew) as Hs1. set (ev1 := take _ ev).
    set (ss2 := set_events true 0 ev1 ss1). assert (inv ss2 pending) as Hinv2 by (apply inv_events_set; by eapply inv_same).
    assert (ready ss2) as Hready2.
    { split; [simpl; lia|]. unfold remaining. cbn [set_events ss2 ss_event_index ss_ev]. change (Z.to_nat 0) with 0%nat. rewrite drop_0.
      unfold call in Ew. destruct (k_sp_wait (ss_kernel ss0)) as [ev' k] eqn:Ek. injection Ew as -> <-. destruct (Hsound ev k Ek) as [Hn H].
      pose proof (event_slots_take (Z.to_nat MAX_EVENT) ev) as Hsub. split; [by eapply sublist_NoDup|]. intros j Hj. apply (H j). by eapply elem_of_sublist. }
    destruct (bool_decide_reflect (ev1 = [])) as [He|He]; [by eexists _, _, _|].
    destruct (poll_event_ok ss2 pending Hinv2 Hready2) as (p & ss3 & -> & H1 & H2); [simpl; by destruct ev1|]. by eexists _, _, _.
Qed.

(** ** The other threads *)

Definition used_ids (pipe : list package) : list Z := omap (fun p => uses (pk_request p)) pipe.

(** The steps of all threads; the second component are the ids reserved but not yet asked for.  An id is reserved again only when no
    request for its former socket is left, and requests to write to or close a socket name an id whose opening was asked for. *)
Inductive step : socket_server * list Z -> socket_server * list Z -> Prop :=
  | step_reserve ss pending id ss' : reserve_id ss = (id, ss') -> 0 <= id -> id ∉ used_ids (ss_pipe ss) -> step (ss, pending) (ss', id :: pending)
  | step_full ss pending id ss' : reserve_id ss = (id, ss') -> id < 0 -> step (ss, pending) (ss', pending)
  | step_open ss before id after p : opens (pk_request p) = Some id -> package_ok ss p ->
      step (ss, before ++ id :: after) (set_pipe (ss_pipe ss ++ [p]) ss, before ++ after)
  | step_request ss pending p : opens (pk_request p) = None -> (forall id, uses (pk_request p) = Some id -> id ∉ pending) -> package_ok ss p ->
      step (ss, pending) (set_pipe (ss_pipe ss ++ [p]) ss, pending)
  | step_system ss pending ss' : same_state ss ss' -> step (ss, pending) (ss', pending)
  | step_poll ss pending more p more' ss' : poll_sound ss -> poll_pass more ss = Some (p, more', ss') -> step (ss, pending) (ss', pending).

Inductive reachable (k : kernel) : socket_server * list Z -> Prop :=
  | reach_create : reachable k (socket_server_create k, [])
  | reach_step x y : reachable k x -> step x y -> reachable k y.

Lemma openings_app a b : openings (a ++ b) = openings a ++ openings b.
Proof. apply omap_app. Qed.

Lemma in_order_reserve id pending pipe : id ∉ used_ids pipe -> in_order pending pipe -> in_order (id :: pending) pipe.
Proof.
  induction pipe as [|p rest IH]; simpl; [done|]. intros Hid [H1 H2].
  assert (forall x, uses (pk_request p) = Some x -> x <> id) as Hne by (intros x Hx ->; rewrite Hx in Hid; apply Hid; by left).
  split; [intros x Hx; rewrite elem_of_cons; intros [->|Hin]; [by apply (Hne id Hx) | by apply (H1 x Hx)]|].
  apply IH; [|done]. destruct (uses (pk_request p)); [|done]. intros Hin. apply Hid. by right.
Qed.

Lemma in_order_push pending pending' p pipe : (forall id, uses (pk_request p) = Some id -> id ∉ pending') ->
  (forall id, id ∈ pending' ++ openings [p] -> id ∈ pending) -> in_order pending pipe -> in_order pending' (pipe ++ [p]).
Proof.
  intros Hu Hp. induction pipe as [|q rest IH]; simpl.
  - intros _. split; [|done]. intros id Hid. rewrite app_nil_r. by apply Hu.
  - intros [H1 H2]. split; [|by apply IH]. intros id Hid Hin. apply (H1 id Hid). rewrite openings_app, !elem_of_app in Hin. rewrite elem_of_app.
    destruct Hin as [Hin|[Hin|Hin]]; [left; apply Hp, elem_of_app; by left | by right | left; apply Hp, elem_of_app; by right].
Qed.

Lemma step_inv ss pending ss' pending' : step (ss, pending) (ss', pending') -> inv ss pending -> ready ss -> inv ss' pending' /\ ready ss'.
Proof.
  intros Hstep Hinv Hready. inversion Hstep as [? ? id ? Er H0 Hid | ? ? id ? Er H0 | ? before id after p Hp Hok | ? ? p Hp Hu Hok | ? ? ? Hs | ? ? more p more' ? Hs E]; subst.
  - destruct (reserve_id_ok ss) as [a H]. rewrite Er in H. destruct H as [[-> _] | (_ & Ht & ->)]; [done|]. set (s0 := MkSocket _ _ _ _ _ _ _ _ _ _). set (ss1 := set_slot _ s0 _).
    assert (only (HASH_ID id) ss ss1) as Ho by (etransitivity; [apply (set_alloc_only _ a) | apply set_slot_only]).
    assert (slot_at ss1 (HASH_ID id) = s0) as Es by apply slot_at_set.
    split; [|eapply ready_unlisted; [exact Ho | apply ready_not_listed; [done | by rewrite Ht] | done]].
    destruct Hinv. pose proof Ho as [Hf (_ & _ & _ & Ep & Eso)]. assert (forall k, slot_at ss1 k = slot_at ss k \/ k = HASH_ID id) as Hk.
    { intros k. destruct (decide (k = HASH_ID id)); [by right | left; by apply Hf]. }
    split; rewrite ?Ep.
    + intros k. destruct (Hk k) as [-> | ->]; [done|]. rewrite Es. destruct (inv_slots0 (HASH_ID id)) as [H1 H2 H3]. split; [intros _; apply H1; by left | exact H2 | exact H3].
    + intros k [->|Hin]%elem_of_cons; [by rewrite Es|]. destruct (inv_reserved0 k Hin) as [H1 H2]. destruct (Hk (HASH_ID k)) as [-> | E]; [done|]. by rewrite E, Ht in H1.
    + intros k Hkt. destruct (Hk k) as [E | ->]; [rewrite E in *; destruct (inv_accounted0 k Hkt); split; [done | by right] | rewrite Es; split; [done | by left]].
    + apply NoDup_cons. split; [|done]. intros Hin. destruct (inv_reserved0 id Hin) as [H1 _]. by rewrite Ht in H1.
    + by apply in_order_reserve.
    + eapply Forall_impl; [exact inv_pipe0|]. intros q. by apply package_ok_soi.
  - destruct (reserve_id_ok ss) as [a H]. rewrite Er in H. destruct H as [[_ ->] | (H1 & _)]; [|lia]. split; [|exact Hready].
    eapply (inv_slots_same 0); [|by apply set_alloc_only|done]. done.
  - split; [|exact Hready]. destruct Hinv. assert (openings [p] = [id]) as Eo by (unfold openings; simpl; by rewrite Hp).
    assert (forall x, x ∈ (before ++ after) ++ openings (ss_pipe ss ++ [p]) <-> x ∈ (before ++ id :: after) ++ openings (ss_pipe ss)) as Hperm.
    { intros x. rewrite openings_app, Eo, !elem_of_app, list_elem_of_singleton, elem_of_cons. tauto. }
    split; cbn [set_pipe ss_pipe]; try done.
    + intros x Hx%Hperm. by apply inv_reserved0.
    + intros k Hk. destruct (inv_accounted0 k Hk). split; [done|]. by apply Hperm.
    + rewrite openings_app, Eo. eapply NoDup_Permutation_proper; [|exact inv_distinct0].
      rewrite app_assoc, <- Permutation_cons_append, <- Permutation_middle. done.
    + apply (in_order_push (before ++ id :: after)); [by destruct (pk_request p) | | exact inv_order0].
      intros x. rewrite Eo, !elem_of_app, list_elem_of_singleton, elem_of_cons. tauto.
    + apply Forall_app. split; [done|]. by constructor.
  - split; [|exact Hready]. destruct Hinv. assert (openings [p] = []) as Eo by (unfold openings; simpl; by rewrite Hp).
    split; cbn [set_pipe ss_pipe]; rewrite ?openings_app, ?Eo, ?app_nil_r; try done.
    + eapply in_order_push; [done | rewrite Eo, app_nil_r; done | done].
    + apply Forall_app. split; [done|]. by constructor.
  - split; [by eapply inv_same | by eapply ready_same].
  - destruct (poll_pass_ok more ss pending' Hinv Hready Hs) as (? & ? & ? & E2 & H1 & H2). rewrite E in E2. injection E2 as <- <- <-. done.
Qed.

Lemma server_reachable_inv k ss pending : reachable k (ss, pending) -> inv ss pending /\ ready ss.
Proof.
  remember (ss, pending) as x eqn:Ex. intros H. revert ss pending Ex. induction H as [|[ss0 p0] y _ IH Hs]; intros ss pending Ex.
  - injection Ex as <- <-. split; [|split; [simpl; lia|]; split; [constructor | intros i Hi; by apply not_elem_of_nil in Hi]].
    assert (forall i, slot_at (socket_server_create k) i = socket_init) as E by (intros i; unfold slot_at; simpl; by rewrite lookup_empty).
    assert (slot_ok socket_init) as Hinit by (split; [done | apply Forall_nil_2 | intros Hp; by destruct Hp]).
    split; [by intros i; rewrite E | | by intros i; rewrite E | apply NoDup_nil_2 | done | apply Forall_nil_2]. by intros id Hin%not_elem_of_nil.
  - subst y. destruct (IH ss0 p0 eq_refl). by eapply step_inv.
Qed.

(** ** The functions of the interface are made of these steps *)

(** Ids are reserved again only when their former requests are done. *)
Definition fresh ss : Prop := forall ss1 id ss2, same_state ss ss1 -> reserve_id ss1 = (id, ss2) -> id ∉ used_ids (ss_pipe ss).

(** Addresses have the sizes of their family. *)
Definition addresses_sized : Prop := forall host port tcp k a rest k', k_getaddrinfo host port tcp k = (inr (a :: rest), k') ->
  length (sa_port a) = 2%nat /\ length (sa_addr a) = if sa_v6 a then 16%nat else 4%nat.

Definition steps := rtc step.

Lemma reserve_pipe ss id ss' : reserve_id ss = (id, ss') -> ss_pipe ss' = ss_pipe ss.
Proof. intros E. destruct (reserve_id_ok ss) as [a H]. rewrite E in H. by destruct H as [[_ ->] | (_ & _ & ->)]. Qed.

Lemma open_steps ss pending ss1 id ss2 r type len : fresh ss -> same_state ss ss1 -> reserve_id ss1 = (id, ss2) -> 0 <= id ->
  opens r = Some id -> package_ok ss2 (MkPackage (u8 type) (u8 len) len r) -> steps (ss, pending) (send_request r type len ss2, pending).
Proof.
  intros Hf Hs Er H0 Ho Hp. eapply rtc_l; [by apply step_system|]. eapply rtc_l; [eapply step_reserve; [exact Er | done|]|].
  - assert (ss_pipe ss1 = ss_pipe ss) as -> by (by destruct Hs as (_ & _ & _ & _ & _ & Ep & _)). by eapply Hf.
  - apply rtc_once. unfold send_request. by apply (step_open ss2 [] id pending).
Qed.

Lemma full_steps ss pending ss1 id ss2 ss3 : same_state ss ss1 -> reserve_id ss1 = (id, ss2) -> id < 0 -> same_state ss2 ss3 -> steps (ss, pending) (ss3, pending).
Proof.
  intros Hs Er H0 Hs3. eapply rtc_l; [by apply step_system|]. eapply rtc_l; [by eapply step_full|]. apply rtc_once. by apply step_system.
Qed.

Lemma system_steps ss pending ss' : same_state ss ss' -> steps (ss, pending) (ss', pending).
Proof. intros H. apply rtc_once. by apply step_system. Qed.

Lemma request_steps ss pending r type len : opens r = None -> (forall id, uses r = Some id -> id ∉ pending) ->
  package_ok ss (MkPackage (u8 type) (u8 len) len r) -> steps (ss, pending) (send_request r type len ss, pending).
Proof. intros Ho Hu Hp. apply rtc_once. by apply step_request. Qed.

Lemma do_bind_same host port tcp ss : same_state ss (snd (do_bind host port tcp ss)).
Proof.
  unfold do_bind. destruct (call _ ss) as [r ss1] eqn:E1. apply same_call in E1. destruct r as [status|[|a rest]]; try exact E1.
  destruct (call _ ss1) as [f ss2] eqn:E2. apply same_call in E2. assert (same_state ss ss2) as H2 by (by etransitivity). destruct f as [fd|e]; [|exact H2].
  destruct (call _ ss2) as [o ss3] eqn:E3. apply same_call in E3. assert (same_state ss ss3) as H3 by (by etransitivity). destruct o as [o|e]; [|exact H3].
  destruct (call _ ss3) as [b ss4] eqn:E4. apply same_call in E4. assert (same_state ss ss4) as H4 by (by etransitivity). destruct b as [b|e]; exact H4.
Qed.

Lemma do_listen_same host port backlog ss : same_state ss (snd (do_listen host port backlog ss)).
Proof.
  unfold do_listen. pose proof (do_bind_same host port true ss) as H. destruct (do_bind host port true ss) as [[[fd v6]|] ss1]; cbn [snd] in *; [|exact H].
  destruct (call _ ss1) as [l ss2] eqn:E. apply same_call in E. assert (same_state ss ss2) as H2 by (by etransitivity). destruct l; exact H2.
Qed.

Section Interface.
Variables (ss : socket_server) (pending : list Z).

Lemma connect_steps opaque addr port : fresh ss -> steps (ss, pending) (snd (socket_server_connect opaque addr port ss), pending).
Proof.
  intros Hf. unfold socket_server_connect, open_request. destruct (Z.leb_spec 256 (Z.of_nat (length addr) + SIZEOF_OPEN)) as [Hl|Hl]; [apply rtc_refl|].
  destruct (reserve_id ss) as [id ss1] eqn:Er. destruct (Z.ltb_spec id 0) as [H0|H0]; [by eapply full_steps|]. cbn [snd].
  eapply open_steps; try done. split; [|done]. cbn [pk_len pk_size]. unfold u8. rewrite Z.mod_small; unfold SIZEOF_OPEN in *; lia.
Qed.

Lemma listen_steps opaque addr port backlog : fresh ss -> steps (ss, pending) (snd (socket_server_listen opaque addr port backlog ss), pending).
Proof.
  intros Hf. unfold socket_server_listen. pose proof (do_listen_same addr port backlog ss) as Hs. destruct (do_listen addr port backlog ss) as [fd ss1]. cbn [snd] in Hs.
  destruct (fd <? 0); [by apply system_steps|]. destruct (reserve_id ss1) as [id ss2] eqn:Er. destruct (Z.ltb_spec id 0) as [H0|H0].
  - eapply full_steps; [eassumption | exact Er | done | apply same_sys_close].
  - by eapply open_steps.
Qed.

Lemma bind_steps opaque fd : fresh ss -> steps (ss, pending) (snd (socket_server_bind opaque fd ss), pending).
Proof.
  intros Hf. unfold socket_server_bind. destruct (reserve_id ss) as [id ss2] eqn:Er. destruct (Z.ltb_spec id 0) as [H0|H0]; [by eapply full_steps | by eapply open_steps].
Qed.

Lemma udp_steps opaque addr port : fresh ss -> steps (ss, pending) (snd (socket_server_udp opaque addr port ss), pending).
Proof.
  intros Hf. unfold socket_server_udp.
  assert (exists r ss1, (if negb (port =? 0) || bool_decide (is_Some addr) then do_bind (default [] addr) port false ss
      else let '(f, ss) := call (k_socket false false) ss in (match f with Done fd => Some (fd, false) | Failed _ => None end, ss)) = (r, ss1) /\ same_state ss ss1) as (r & ss1 & -> & Hs).
  { destruct (_ || _).
    - pose proof (do_bind_same (default [] addr) port false ss) as H. destruct (do_bind _ _ _ ss) as [r ss1]. by exists r, ss1.
    - destruct (call _ ss) as [f ss1] eqn:E. apply same_call in E. by eexists _, ss1. }
  destruct r as [[fd v6]|]; [|by apply system_steps]. assert (same_state ss (sp_nonblocking fd ss1)) as Hs1 by exact Hs.
  destruct (reserve_id (sp_nonblocking fd ss1)) as [id ss2] eqn:Er. destruct (Z.ltb_spec id 0) as [H0|H0].
  - eapply full_steps; [eassumption | exact Er | done | apply same_sys_close].
  - by eapply open_steps.
Qed.

Lemma same_free_buffer buffer sz : same_state ss (free_buffer buffer sz ss).
Proof. unfold free_buffer. destruct (send_object_init ss buffer sz) as [[base size] user]. apply same_free. Qed.

Lemma send_steps id buffer sz : id ∉ pending -> steps (ss, pending) (snd (socket_server_send id buffer sz ss), pending).
Proof.
  intros Hid. unfold socket_server_send. destruct (not_socket id ss); [by apply system_steps, same_free_buffer|]. by apply request_steps; [|intros ? [= <-]|].
Qed.

Lemma send_low_steps id buffer sz : id ∉ pending -> begins ss sz buffer -> steps (ss, pending) (socket_server_send_lowpriority id buffer sz ss, pending).
Proof.
  intros Hid Hb. unfold socket_server_send_lowpriority. destruct (not_socket id ss); [by apply system_steps, same_free_buffer|].
  apply request_steps; [done | by intros ? [= <-] |]. split; [done|]. split; [done|]. intros _. exact Hb.
Qed.

Lemma close_steps opaque id : id ∉ pending -> steps (ss, pending) (socket_server_close opaque id ss, pending).
Proof. intros Hid. by apply request_steps; [|intros ? [= <-]|]. Qed.

Lemma shutdown_steps opaque id : id ∉ pending -> steps (ss, pending) (socket_server_shutdown opaque id ss, pending).
Proof. intros Hid. by apply request_steps; [|intros ? [= <-]|]. Qed.

Lemma start_steps opaque id : steps (ss, pending) (socket_server_start opaque id ss, pending).
Proof. by apply request_steps. Qed.

Lemma nodelay_steps id : steps (ss, pending) (socket_server_nodelay id ss, pending).
Proof. by apply request_steps. Qed.

Lemma exit_steps : steps (ss, pending) (socket_server_exit ss, pending).
Proof. by apply request_steps. Qed.

Lemma udp_send_steps id addr buffer sz r ss' : id ∉ pending -> socket_server_udp_send id addr buffer sz ss = Some (r, ss') -> steps (ss, pending) (ss', pending).
Proof.
  intros Hid. unfold socket_server_udp_send. destruct (not_socket id ss); [intros [= _ <-]; by apply system_steps, same_free_buffer|].
  destruct (aget addr 0) as [type|]; [|done]. unfold udp_addrsz.
  destruct (type =? PROTOCOL_UDP); [|destruct (type =? PROTOCOL_UDPv6); [|intros [= _ <-]; by apply system_steps, same_free_buffer]];
    (destruct (memcpy addr 0 _) as [address|]; [|done]); intros [= _ <-]; by apply request_steps; [|intros ? [= <-]|].
Qed.

Lemma gen_udp_address_ok a : length (sa_port a) = 2%nat -> length (sa_addr a) = (if sa_v6 a then 16%nat else 4%nat) ->
  address_ok (gen_udp_address (if sa_v6 a then PROTOCOL_UDPv6 else PROTOCOL_UDP) a).
Proof.
  intros Hp Ha. unfold gen_udp_address. destruct (sa_v6 a); [right | left]; (eexists; split; [reflexivity|]); rewrite length_app, !length_take, Hp, Ha; reflexivity.
Qed.

Lemma udp_connect_steps id addr port : id ∉ pending -> addresses_sized -> steps (ss, pending) (snd (socket_server_udp_connect id addr port ss), pending).
Proof.
  intros Hid Hsz. unfold socket_server_udp_connect. unfold call at 1. destruct (k_getaddrinfo addr port false (ss_kernel ss)) as [r k] eqn:E.
  assert (same_state ss (set_kernel k ss)) as Hs by apply same_set_kernel. destruct r as [status|[|a rest]]; [by apply system_steps..|].
  destruct (Hsz _ _ _ _ _ _ _ E) as [Hp Ha]. pose proof (gen_udp_address_ok a Hp Ha) as Hok. eapply rtc_l; [by apply step_system|].
  apply request_steps; [done | by intros ? [= <-] |]. split; [|split; [done | exact Hok]].
  destruct Hok as [(rest' & -> & Hl) | (rest' & -> & Hl)]; simpl; by rewrite Hl.
Qed.
End Interface.
End Safe.

(** ** Examples *)

(** Another thread asks for a connection, the socket thread makes it, and another id is reserved. *)
Definition asking : socket_server (K := scripted) := snd (reserve_id (K := scripted) (socket_server_create (K := scripted) [])).
Definition open_package : package := MkPackage 79 33 33 (request_open 1 80 77 (str "localhost")).
Definition asked : socket_server (K := scripted) := set_pipe [open_package] asking.
Definition polled : socket_server (K := scripted) := match poll_pass 0 asked with Some (_, _, ss) => ss | None => asked end.
Definition asking_again : socket_server (K := scripted) := snd (reserve_id polled).

Lemma asking_again_reachable : reachable (K := scripted) [] (asking_again, [2]).
Proof.
  eapply reach_step; [|eapply (step_reserve polled [] 2); [vm_compute; reflexivity | lia | by apply not_elem_of_nil]].
  eapply reach_step; [|eapply (step_poll asked [] 0 (Return SOCKET_OPEN (Some (MkMsg 1 77 0 NoData))) 0); [intros ev k; vm_compute; intros [= <- _] | vm_compute; reflexivity]].
  2: { split; [apply NoDup_nil_2 | intros i Hi; by apply not_elem_of_nil in Hi]. }
  eapply reach_step; [|apply (step_open asking [] 1 [] open_package); [reflexivity | by repeat split]].
  eapply reach_step; [apply reach_create|]. eapply (step_reserve _ [] 1); [vm_compute; reflexivity | lia | by apply not_elem_of_nil].
Qed.


(** Here a pass is one step.  In the program another thread can reserve a slot between the moment a command closes its socket and the moment the
    events of that socket are dropped: an event that is left then meets a reserved slot, and the assertion of [force_close] fails.
    The next id is 65537, so that it falls on the slot of socket 1, which has an event left when a command closes it. *)
Definition before_close : socket_server (K := scripted) :=
  set_events true 1 [MkEvent None true false; MkEvent (Some 1) true false] (set_alloc 65536 (socket_server_close 77 1 polled)).

Example reserved_between : (let! (type, m, ss) := ctrl_cmd before_close in
    let '(id, ss) := reserve_id ss in
    let ss := clear_closed_event m type ss in
    Some (type, id, event_slots (remaining ss), bool_decide (is_Some (poll_event ss)))) = Some (SOCKET_CLOSE, 65537, [1], false).
Proof. vm_compute. reflexivity. Qed.
