(* ===== verification/Buffer.v ===== *)
(** * Writing into buffers and reading memory

    What the writes of C code do to an array of bytes, as one operation: [splice buf o data] is [buf] with [data] at offset [o].  Adjacent writes
    are one write.  [holds mem p l] says that [mem] has [l] at [p], for what is read. *)

From S2P Require Import Prelude CString.

Section Splice.
Implicit Types (buf data : list Z) (o : nat).

Definition splice (buf : list Z) (o : nat) (data : list Z) : list Z := take o buf ++ data ++ drop (o + length data) buf.

Lemma splice_nil buf o : splice buf o [] = buf.
Proof. unfold splice. simpl. rewrite Nat.add_0_r. apply take_drop. Qed.

Lemma splice_length buf o data : (o + length data <= length buf)%nat -> length (splice buf o data) = length buf.
Proof. intros. unfold splice. rewrite !length_app, length_take, length_drop. lia. Qed.

Lemma splice_take buf o data : (o <= length buf)%nat -> take (o + length data) (splice buf o data) = take o buf ++ data.
Proof.
  intros. unfold splice. rewrite app_assoc, take_app_le by (rewrite length_app, length_take; lia).
  apply take_ge. rewrite length_app, length_take. lia.
Qed.

Lemma splice_take_before buf o data n : (n <= o)%nat -> (o <= length buf)%nat -> take n (splice buf o data) = take n buf.
Proof. intros. unfold splice. rewrite take_app_le by (rewrite length_take; lia). rewrite take_take. by rewrite Nat.min_l by lia. Qed.

Lemma splice_drop buf o data n : (o + length data <= n)%nat -> (o <= length buf)%nat -> drop n (splice buf o data) = drop n buf.
Proof.
  intros Hn Ho. unfold splice. rewrite app_assoc, drop_app_ge by (rewrite length_app, length_take; lia).
  rewrite length_app, length_take, Nat.min_l, drop_drop by lia. f_equal. lia.
Qed.

Lemma splice_splice buf o d1 d2 : (o + length d1 <= length buf)%nat -> splice (splice buf o d1) (o + length d1) d2 = splice buf o (d1 ++ d2).
Proof.
  intros H. unfold splice at 1. rewrite splice_take by lia. rewrite splice_drop by lia. unfold splice. rewrite length_app, <- !app_assoc. do 3 f_equal. f_equal. lia.
Qed.

Lemma splice_drop_at buf o data : (o <= length buf)%nat -> drop o (splice buf o data) = data ++ drop (o + length data) buf.
Proof. intros. unfold splice. apply drop_app_length'. rewrite length_take. lia. Qed.

(** What is written ends what was there. *)
Lemma splice_sub buf o data : (o + length data <= length buf)%nat -> take (length data) (drop o (splice buf o data)) = data.
Proof.
  intros H. unfold splice. rewrite drop_app_length' by (rewrite length_take; lia). by rewrite take_app_length.
Qed.

Lemma aset_splice buf i x : 0 <= i < Z.of_nat (length buf) -> aset buf i x = Some (splice buf (Z.to_nat i) [x]).
Proof.
  intros H. rewrite aset_Some by done. f_equal. unfold splice. rewrite insert_take_drop by lia. simpl. do 3 f_equal. lia.
Qed.

Lemma memcpy_at_splice buf (off : Z) data : 0 <= off -> off + Z.of_nat (length data) <= Z.of_nat (length buf) ->
  memcpy_at buf off data = Some (splice buf (Z.to_nat off) data).
Proof.
  intros H1 H2. unfold memcpy_at. destruct (Z.leb_spec 0 off), (Z.leb_spec (off + Z.of_nat (length data)) (Z.of_nat (length buf))); simpl; done || lia.
Qed.

(** Data in the place of what is as long. *)
Lemma splice_mid buf out (g : list Z) (tail : list Z) d : buf = out ++ g ++ tail -> length d = length g -> splice buf (length out) d = out ++ d ++ tail.
Proof.
  intros -> Hd. unfold splice. rewrite take_app_length, Hd. f_equal. f_equal. rewrite app_assoc, drop_app_length' by (by rewrite length_app). done.
Qed.

(** Filling with zeros. *)
Lemma fill_splice k buf p : 0 <= p -> p + Z.of_nat k <= Z.of_nat (length buf) ->
  for_loop k 0 (fun i buf => aset buf (p + i) 0) buf = Some (splice buf (Z.to_nat p) (replicate k 0)).
Proof.
  intros Hp Hk.
  destruct (for_loop_inv (fun i b => b = splice buf (Z.to_nat p) (replicate (Z.to_nat i) 0)) k 0 (fun i buf => aset buf (p + i) 0) buf) as (b & E & Hb).
  - by rewrite splice_nil.
  - intros j b Hj ->. assert (length (splice buf (Z.to_nat p) (replicate (Z.to_nat j) 0)) = length buf) as Hl by (apply splice_length; rewrite length_replicate; lia).
    rewrite aset_splice by lia. eexists. split; [done|]. cbn beta.
    replace (Z.to_nat (p + j)) with (Z.to_nat p + length (replicate (Z.to_nat j) 0%Z))%nat by (rewrite length_replicate; lia).
    rewrite splice_splice by (rewrite length_replicate; lia). replace (Z.to_nat (j + 1)) with (Z.to_nat j + 1)%nat by lia. by rewrite replicate_add.
  - rewrite E, Hb. rewrite Z.add_0_l, Nat2Z.id. done.
Qed.
End Splice.

(** ** Reading memory *)

Lemma memcpy_mid (pre x post : list Z) n : n = Z.of_nat (length x) -> memcpy (pre ++ x ++ post) (Z.of_nat (length pre)) n = Some x.
Proof. intros ->. rewrite memcpy_Some by (rewrite ?length_app; lia). by rewrite !Nat2Z.id, drop_app_length, take_app_length. Qed.

(** The bytes [l] at [p]. *)
Definition holds (mem : list Z) (p : Z) (l : list Z) : Prop := exists a b, mem = a ++ l ++ b /\ p = Z.of_nat (length a).

Lemma holds_app mem p x y : holds mem p (x ++ y) -> holds mem p x /\ holds mem (p + Z.of_nat (length x)) y.
Proof.
  intros (a & b & -> & ->). split; [exists a, (y ++ b); by rewrite <- app_assoc | exists (a ++ x), b]. rewrite <- !app_assoc, length_app. split; [done | lia].
Qed.

Lemma holds_length mem p l : holds mem p l -> Z.of_nat (length l) <= Z.of_nat (length mem) /\ 0 <= p.
Proof. intros (a & b & -> & ->). rewrite !length_app. lia. Qed.

Lemma holds_aget mem p l i : holds mem p l -> aget mem (p + Z.of_nat i) = match l !! i with Some x => Some x | None => aget mem (p + Z.of_nat i) end.
Proof.
  intros (a & b & -> & ->). destruct (l !! i) as [x|] eqn:E; [|done]. replace (Z.of_nat (length a) + Z.of_nat i) with (Z.of_nat (length a + i)) by lia.
  rewrite aget_nat, lookup_app_r by lia. replace (length a + i - length a)%nat with i by lia. by apply lookup_app_l_Some.
Qed.

Lemma holds_memcpy mem p l : holds mem p l -> memcpy mem p (Z.of_nat (length l)) = Some l.
Proof. intros (a & b & -> & ->). by apply memcpy_mid. Qed.

Lemma holds_byte mem p x l : holds mem p (x :: l) -> aget mem p = Some x /\ holds mem (p + 1) l.
Proof.
  intros H. split; [|by apply (holds_app mem p [x] l)]. pose proof (holds_aget _ _ _ 0 H) as E. cbn in E. by rewrite Z.add_0_r in E.
Qed.
