(* ===== verification/SprotoPack.v ===== *)
(** * The zero-packing of sproto ([lualib-src/sproto/sproto.c], the end, and [lsproto.c])

    [sproto_pack] drops the zero bytes of each group of eight and marks them in a header byte; runs of groups with
    (nearly) no zeros are copied behind the header [0xff] and their number.  The source is the exact array given: reading past it
    fails.  The output buffer is an array of [bufsz] bytes with an offset into it. *)

From S2P Require Import Prelude CString LuaError.

(** ** Packing *)

(** One byte of a group: the header, the number of bytes that are not zero, where the next goes and how much room there is. *)
Definition seg_body (src : list Z) (i : Z) (st : Z * Z * Z * Z * list Z) : option (Z * Z * Z * Z * list Z) :=
  let '(header, notzero, p, sz, buf) := st in
  let! b := aget src i in
  if b =? 0 then Some st else
  let header := Z.lor header (Z.shiftl 1 i) in
  if 0 <? sz then let! buf := aset buf p b in Some (header, notzero + 1, p + 1, sz - 1, buf)
  else Some (header, notzero + 1, p, sz, buf).

(** [src] is the group, the output goes to offset [o] of [buf], where [sz] bytes are left; the number of bytes the group takes. *)
Definition pack_seg (src buf : list Z) (o sz n : Z) : option (Z * list Z) :=
  let! (header, notzero, _, _, buf) := for_loop 8 0 (seg_body src) (0, 0, o + 1, sz - 1, buf) in
  let notzero := if ((notzero =? 7) || (notzero =? 6)) && (0 <? n) then 8 else notzero in
  if notzero =? 8 then Some (if 0 <? n then 8 else 10, buf) else
  let! buf := if 0 <=? sz - 1 then aset buf o header else Some buf in
  Some (notzero + 1, buf).

(** A pointer to a group: into the source, or the padded copy of the last group. *)
Inductive source := InSrc (off : Z) | InTmp (tmp : list Z).

Definition read_source (srcv : list Z) (p : source) (n : Z) : option (list Z) :=
  match p with InSrc off => memcpy srcv off n | InTmp tmp => memcpy tmp 0 n end.

Definition write_ff (srcv : list Z) (src : source) (buf : list Z) (des n : Z) : option (list Z) :=
  let align8_n := Z.land (n + 7) (Z.lnot 7) in
  let! buf := aset buf des 0xff in
  let! buf := aset buf (des + 1) (u8 (align8_n / 8 - 1)) in
  let! data := read_source srcv src n in
  let! buf := memcpy_at buf (des + 2) data in
  for_loop (Z.to_nat (align8_n - n)) 0 (fun i buf => aset buf (des + n + 2 + i) 0) buf.

(** [ff_srcstart], [ff_desstart] and [ff_n] describe the run of copied groups that is not finished. *)
Record packing := MkPacking {
  k_bufsz : Z;
  k_buf : list Z;
  k_des : Z;
  k_srcstart : option source;
  k_desstart : Z;
  k_n : Z;
  k_size : Z;
}.

(** The run is written when all before it had room. *)
Definition flush (srcv : list Z) (n : Z) (st : packing) (buf : list Z) (bufsz : Z) : option (list Z) :=
  if 0 <=? bufsz then let! start := k_srcstart st in write_ff srcv start buf (k_desstart st) n else Some buf.

(** What follows a group [src] that took [n] bytes. *)
Definition pack_next (srcv : list Z) (src : source) (st : packing) (n : Z) (buf : list Z) : option packing :=
  let bufsz := k_bufsz st - n in
  let next start desstart ffn buf := MkPacking bufsz buf (k_des st + n) start desstart ffn (k_size st + n) in
  if n =? 10 then Some (next (Some src) (k_des st) 1 buf)
  else if (n =? 8) && (0 <? k_n st) then
    let ff_n := k_n st + 1 in
    if ff_n =? 256 then
      let! buf := flush srcv (256 * 8) st buf bufsz in Some (next (k_srcstart st) (k_desstart st) 0 buf)
    else Some (next (k_srcstart st) (k_desstart st) ff_n buf)
  else if 0 <? k_n st then
    let! buf := flush srcv (k_n st * 8) st buf bufsz in Some (next (k_srcstart st) (k_desstart st) 0 buf)
  else Some (next (k_srcstart st) (k_desstart st) (k_n st) buf).

(** The group at offset [i]. *)
Definition pack_step (srcv : list Z) (i : Z) (st : packing) : option packing :=
  let srcsz := Z.of_nat (length srcv) in
  let padding := i + 8 - srcsz in
  let! src :=
    if 0 <? padding then let! b := memcpy srcv i (8 - padding) in Some (InTmp (b ++ replicate (Z.to_nat padding) 0))
    else Some (InSrc i) in
  let! seg := read_source srcv src 8 in
  let! (n, buf) := pack_seg seg (k_buf st) (k_des st) (k_bufsz st) (k_n st) in
  pack_next srcv src st n buf.

(** [for (i=0; i<srcsz; i+=8)], [n] passes. *)
Fixpoint pack_loop (srcv : list Z) (n : nat) (i : Z) (st : packing) : option packing :=
  match n with
  | O => Some st
  | S n => let! st := pack_step srcv i st in pack_loop srcv n (i + 8) st
  end.

(** The number of groups of eight. *)
Definition groups (srcsz : Z) : nat := Z.to_nat ((srcsz + 7) / 8).

Definition sproto_pack (srcv buf : list Z) : option (Z * list Z) :=
  let srcsz := Z.of_nat (length srcv) in
  let! st := pack_loop srcv (groups srcsz) 0 (MkPacking (Z.of_nat (length buf)) buf 0 None 0 0 0) in
  let! buf :=
    if 0 <=? k_bufsz st then
      if k_n st =? 1 then flush srcv 8 st (k_buf st) (k_bufsz st)
      else if 1 <? k_n st then
        match k_srcstart st with
        | Some (InSrc off) => flush srcv (srcsz - off) st (k_buf st) (k_bufsz st)
        | _ => None
        end
      else Some (k_buf st)
    else Some (k_buf st) in
  Some (k_size st, buf).

(** ** Unpacking *)

(** [u_src] is what lies behind the source pointer, [u_srcsz] the count of the code, which may fall below zero. *)
Record unpacking := MkUnpacking {
  u_src : list Z;
  u_srcsz : Z;
  u_buf : list Z;
  u_des : Z;
  u_bufsz : Z;
  u_size : Z;
}.

(** A byte of the output. *)
Definition emit (b : Z) (st : unpacking) : option unpacking :=
  if 0 <? u_bufsz st then
    let! buf := aset (u_buf st) (u_des st) b in
    Some (MkUnpacking (u_src st) (u_srcsz st) buf (u_des st + 1) (u_bufsz st - 1) (u_size st + 1))
  else Some (MkUnpacking (u_src st) (u_srcsz st) (u_buf st) (u_des st) (u_bufsz st) (u_size st + 1)).

(** The bits [i], ..., 7 of a header ([n = 8 - i]); [Some None] is a return of -1. *)
Fixpoint unpack_bits (n : nat) (i header : Z) (st : unpacking) : option (option unpacking) :=
  match n with
  | O => Some (Some st)
  | S n =>
      if Z.land (Z.shiftr header i) 1 =? 0 then
        let! st := emit 0 st in unpack_bits n (i + 1) header st
      else if u_srcsz st <? 0 then Some None else
        match u_src st with
        | [] => None
        | b :: src =>
            let! st := emit b st in
            unpack_bits n (i + 1) header (MkUnpacking src (u_srcsz st - 1) (u_buf st) (u_des st) (u_bufsz st) (u_size st))
        end
  end.

(** The run behind the header [0xff]. *)
Definition unpack_run (st : unpacking) : option (option unpacking) :=
  if u_srcsz st <? 0 then Some None else
  match u_src st with
  | [] => None
  | b :: src =>
      let n := (b + 1) * 8 in
      if u_srcsz st <? n + 1 then Some None else
      let! data := memcpy src 0 n in
      let! buf := if n <=? u_bufsz st then memcpy_at (u_buf st) (u_des st) data else Some (u_buf st) in
      Some (Some (MkUnpacking (drop (Z.to_nat n) src) (u_srcsz st - (n + 1)) buf (u_des st + n) (u_bufsz st - n) (u_size st + n)))
  end.

Fixpoint unpack_loop (fuel : nat) (st : unpacking) : option (option unpacking) :=
  if u_srcsz st <=? 0 then Some (Some st) else
  match fuel, u_src st with
  | S fuel, header :: src =>
      let st := MkUnpacking src (u_srcsz st - 1) (u_buf st) (u_des st) (u_bufsz st) (u_size st) in
      let! r := if header =? 0xff then unpack_run st else unpack_bits 8 0 header st in
      match r with None => Some None | Some st => unpack_loop fuel st end
  | _, _ => None
  end.

(** A pass takes a byte at least. *)
Definition sproto_unpack (srcv buf : list Z) : option (Z * list Z) :=
  let! r := unpack_loop (length srcv) (MkUnpacking srcv (Z.of_nat (length srcv)) buf 0 (Z.of_nat (length buf)) 0) in
  match r with
  | None => Some (-1, buf)
  | Some st => Some (u_size st, u_buf st)
  end.

(** ** The functions called from Lua *)

Definition ENCODE_BUFFERSIZE : Z := 2050.
Definition ENCODE_MAXSIZE : Z := 0x1000000.

(** [do osz *= 2 while (osz < nsz)]; [nsz] is an [int], so 31 passes are enough or [osz] overflows. *)
Fixpoint expand_loop (fuel : nat) (osz nsz : Z) : res Z :=
  let* osz := int (osz * 2) in
  if osz <? nsz then match fuel with O => Stuck | S fuel => expand_loop fuel osz nsz end else Ok osz.

(** The size of the new buffer. *)
Definition expand_buffer (osz nsz : Z) : res Z :=
  let* osz := expand_loop 31 osz nsz in
  if ENCODE_MAXSIZE <? osz then Raise (Text "object is too large") else Ok osz.

(** The worst-case size for a source of [sz] bytes. *)
Definition pack_maxsz (sz : Z) : Z := (sz + 2047) / 2048 * 2 + sz + 2.

(** [output] is the buffer of the closure; the string and the buffer after the call. *)
Definition lpack (output buffer : list Z) : res (list Z * list Z) :=
  let sz := Z.of_nat (length buffer) in
  let maxsz := pack_maxsz sz in
  let osz := Z.of_nat (length output) in
  let* output := if osz <? maxsz then let* n := expand_buffer osz (i32 maxsz) in Ok (malloc n) else Ok output in
  let region := take (Z.to_nat maxsz) output in
  let* (bytes, region') := lift (sproto_pack buffer region) in
  if maxsz <? bytes then Raise (Text "packing error") else
  let output := region' ++ drop (Z.to_nat maxsz) output in
  Ok (take (Z.to_nat bytes) output, output).

Definition lunpack (output buffer : list Z) : res (list Z * list Z) :=
  let osz := Z.of_nat (length output) in
  let* (r, output) := lift (sproto_unpack buffer output) in
  if r <? 0 then Raise (Text "Invalid unpack stream") else
  if osz <? r then
    let* n := expand_buffer osz r in
    let output := malloc n in
    let* (r2, region) := lift (sproto_unpack buffer (take (Z.to_nat r) output)) in
    if r2 <? 0 then Raise (Text "Invalid unpack stream") else Ok (take (Z.to_nat r2) region, region ++ drop (Z.to_nat r) output)
  else Ok (take (Z.to_nat r) output, output).

Example pack_ex : sproto_pack [8;0;0;0;3;0;2;0; 0x19;0;0;0;0xaa;1;0;0] (malloc 20) = Some (8, [0x51; 8; 3; 2; 0x31; 0x19; 0xaa; 1] ++ malloc 12).
Proof. vm_compute. reflexivity. Qed.

Example unpack_ex : sproto_unpack [0x51; 8; 3; 2; 0x31; 0x19; 0xaa; 1] (malloc 16) = Some (16, [8;0;0;0;3;0;2;0; 0x19;0;0;0;0xaa;1;0;0]).
Proof. vm_compute. reflexivity. Qed.
