(* ===== verification/SprotoPackSpec.v ===== *)
(** * Zero-packing loses nothing

    What [sproto_pack] writes is a sequence of groups, [sproto_unpack] gives the source back, filled up with zeros to a multiple
    of eight, and the buffer [lpack] provides is always large enough. *)

From S2P Require Import Prelude CString Buffer LuaError SprotoPack.

(** ** Groups *)

Definition nonzero (seg : list Z) : list Z := filter (fun b => b <> 0) seg.

(** The header: bit [i] is set when byte [i] is not zero. *)
Fixpoint mask (seg : list Z) : Z :=
  match seg with [] => 0 | b :: seg => (if b =? 0 then 0 else 1) + 2 * mask seg end.

Definition count (seg : list Z) : Z := Z.of_nat (length (nonzero seg)).

Definition pad8 (l : list Z) : list Z := l ++ replicate (8 - length l) 0.

(** The first [n] groups of a source. *)
Fixpoint segs (n : nat) (l : list Z) : list (list Z) :=
  match n with O => [] | S n => pad8 (take 8 l) :: segs n (drop 8 l) end.

(** A group is copied as it is when it has no zeros, or few and follows another such group. *)
Definition copied (run : nat) (seg : list Z) : bool := (count seg =? 8) || (((count seg =? 7) || (count seg =? 6)) && (0 <? Z.of_nat run)).

Definition ff_run (run : list (list Z)) : list Z := 0xff :: (Z.of_nat (length run) - 1) :: concat run.
Definition end_run (run : list (list Z)) : list Z := match run with [] => [] | _ => ff_run run end.

(** The packed form of the groups after an unfinished run. *)
Fixpoint packed (run l : list (list Z)) : list Z :=
  match l with
  | [] => end_run run
  | seg :: l =>
      if copied (length run) seg then
        if (length run + 1 =? 256)%nat then ff_run (run ++ [seg]) ++ packed [] l else packed (run ++ [seg]) l
      else end_run run ++ (mask seg :: nonzero seg) ++ packed [] l
  end.

Lemma nonzero_app a b : nonzero (a ++ b) = nonzero a ++ nonzero b.
Proof. apply filter_app. Qed.

Lemma mask_app a b : mask (a ++ b) = mask a + 2 ^ Z.of_nat (length a) * mask b.
Proof.
  induction a as [|x a IH]; simpl mask; [change (length (@nil Z)) with 0%nat; rewrite Z.pow_0_r; cbn [app]; lia|].
  cbn [app length mask]. rewrite IH, Nat2Z.inj_succ, Z.pow_succ_r by lia. lia.
Qed.

Lemma mask_range a : 0 <= mask a < 2 ^ Z.of_nat (length a).
Proof.
  induction a as [|x a IH]; [done|]. cbn [mask length]. rewrite Nat2Z.inj_succ, Z.pow_succ_r by lia. destruct (x =? 0); lia.
Qed.

Lemma count_le seg : 0 <= count seg <= Z.of_nat (length seg).
Proof. unfold count, nonzero. pose proof (length_filter (fun b => b <> 0) seg). lia. Qed.

Lemma nonzero_zeros k : nonzero (replicate k 0) = [].
Proof. induction k as [|k IH]; [done | exact IH]. Qed.

Lemma pad8_length l : (length l <= 8)%nat -> length (pad8 l) = 8%nat.
Proof. intros. unfold pad8. rewrite length_app, length_replicate. lia. Qed.

Lemma segs_length8 n l : Forall (fun seg => length seg = 8%nat) (segs n l).
Proof. revert l. induction n as [|n IH]; intros l; simpl; [done|]. constructor; [|apply IH]. apply pad8_length. rewrite length_take. lia. Qed.

(** ** One group *)

Section Seg.
Variables (seg buf : list Z) (o sz : Z).
Hypotheses (Hseg : length seg = 8%nat) (Ho : 0 <= o) (Hsz : o + sz = Z.of_nat (length buf)).

Lemma pack_seg_loop : exists p s buf', for_loop 8 0 (seg_body seg) (0, 0, o + 1, sz - 1, buf) = Some (mask seg, count seg, p, s, buf') /\
  length buf' = length buf /\ take (Z.to_nat (o + 1)) buf' = take (Z.to_nat (o + 1)) buf /\
  (count seg <= sz - 1 -> take (Z.to_nat (o + 1 + count seg)) buf' = take (Z.to_nat (o + 1)) buf ++ nonzero seg).
Proof.
  set (P := fun (i : Z) (st : Z * Z * Z * Z * list Z) => let '(header, nz, p, s, b) := st in
    let seen := take (Z.to_nat i) seg in
    header = mask seen /\ nz = count seen /\ length b = length buf /\ take (Z.to_nat (o + 1)) b = take (Z.to_nat (o + 1)) buf /\
    o + 1 <= p /\ p + s = Z.of_nat (length buf) /\
    (nz <= sz - 1 -> p = o + 1 + nz /\ take (Z.to_nat p) b = take (Z.to_nat (o + 1)) buf ++ nonzero seen)).
  destruct (for_loop_inv P 8 0 (seg_body seg) (0, 0, o + 1, sz - 1, buf)) as ([[[[h nz] p] s] b] & -> & H).
  - cbn. split_and!; try done; try lia. intros _. rewrite app_nil_r, Z.add_0_r. done.
  - intros i [[[[h nz] p] s] b] Hi (-> & -> & Hl & Ht & Hp & Hps & Hc). unfold seg_body.
    destruct (aget_is_Some seg i) as [x Hx]; [lia|]. rewrite Hx. apply aget_Some in Hx as [_ Hx].
    assert (take (Z.to_nat (i + 1)) seg = take (Z.to_nat i) seg ++ [x]) as E.
    { replace (Z.to_nat (i + 1)) with (S (Z.to_nat i)) by lia. by apply take_S_r. }
    assert (Z.of_nat (length (take (Z.to_nat i) seg)) = i) as Hli by (rewrite length_take; lia).
    destruct (Z.eqb_spec x 0) as [->|Hx0].
    + eexists. split; [done|]. unfold P. rewrite E, mask_app, nonzero_app. unfold count. rewrite nonzero_app. simpl.
      rewrite !app_nil_r. split_and!; try done. lia.
    + assert (mask (take (Z.to_nat i) seg ++ [x]) = Z.lor (mask (take (Z.to_nat i) seg)) (Z.shiftl 1 i)) as Em.
      { rewrite mask_app, Hli, Z.shiftl_mul_pow2 by lia. pose proof (mask_range (take (Z.to_nat i) seg)) as Hm. rewrite Hli in Hm. rewrite lor_fields by lia.
        simpl. destruct (Z.eqb_spec x 0); [done|]. lia. }
      assert (nonzero (take (Z.to_nat i) seg ++ [x]) = nonzero (take (Z.to_nat i) seg) ++ [x]) as En.
      { rewrite nonzero_app. unfold nonzero at 2. by rewrite filter_cons_True. }
      assert (count (take (Z.to_nat i) seg ++ [x]) = count (take (Z.to_nat i) seg) + 1) as Ec.
      { unfold count. rewrite En, length_app. simpl. lia. }
      destruct (Z.ltb_spec 0 s).
      * rewrite aset_Some by lia. eexists. split; [done|]. unfold P. rewrite E, Em, Ec, En. split_and!; try done; try lia.
        -- by rewrite length_insert.
        -- rewrite take_insert_ge by lia. done.
        -- intros Hn. destruct Hc as [-> Hc]; [lia|]. split; [lia|].
           replace (Z.to_nat (o + 1 + count (take (Z.to_nat i) seg) + 1)) with (S (Z.to_nat (o + 1 + count (take (Z.to_nat i) seg)))) by lia.
           rewrite (take_S_r _ _ x) by (apply list_lookup_insert_eq; lia). rewrite take_insert_ge by lia. by rewrite Hc, app_assoc.
      * eexists. split; [done|]. unfold P. rewrite E, Em, Ec, En. split_and!; try done; lia.
  - change (0 + Z.of_nat 8) with 8 in H. cbn in H. rewrite (take_ge seg) in H by (change (Pos.to_nat 8) with 8%nat; lia).
    destruct H as (-> & -> & Hl & Ht & Hp & Hps & Hc). exists p, s, b. split_and!; try done. intros Hn. by destruct (Hc Hn) as [-> ?].
Qed.

Lemma pack_seg_spec n : 0 <= n -> exists r buf', pack_seg seg buf o sz n = Some (r, buf') /\ length buf' = length buf /\ take (Z.to_nat o) buf' = take (Z.to_nat o) buf /\
  if copied (Z.to_nat n) seg then r = (if 0 <? n then 8 else 10)
  else r = count seg + 1 /\ (r <= sz -> take (Z.to_nat (o + r)) buf' = take (Z.to_nat o) buf ++ mask seg :: nonzero seg).
Proof.
  intros Hn. unfold pack_seg. destruct pack_seg_loop as (p & s & b & -> & Hl & Ht & Hc).
  assert (take (Z.to_nat o) b = take (Z.to_nat o) buf) as Ht'.
  { apply (f_equal (take (Z.to_nat o))) in Ht. rewrite !take_take in Ht. by rewrite !Nat.min_l in Ht by lia. }
  unfold copied. rewrite Z2Nat.id by done. pose proof (count_le seg) as Hcl. rewrite Hseg in Hcl.
  assert (((if ((count seg =? 7) || (count seg =? 6)) && (0 <? n) then 8 else count seg) =? 8) = (count seg =? 8) || ((count seg =? 7) || (count seg =? 6)) && (0 <? n)) as E.
  { destruct (Z.eqb_spec (count seg) 7), (Z.eqb_spec (count seg) 6), (Z.eqb_spec (count seg) 8), (0 <? n); simpl; try done; try lia; by apply Z.eqb_neq. }
  rewrite E. destruct (_ || _ && _) eqn:Ec; [eexists _, _; done|].
  assert ((if ((count seg =? 7) || (count seg =? 6)) && (0 <? n) then 8 else count seg) = count seg) as ->.
  { apply orb_false_elim in Ec as [_ Ec]. by rewrite Ec. }
  destruct (Z.leb_spec 0 (sz - 1)).
  - rewrite aset_Some by lia. eexists _, _. split; [done|]. rewrite length_insert, take_insert_ge by lia. split_and!; try done. intros Hr.
    replace (Z.to_nat (o + (count seg + 1))) with (Z.to_nat (o + 1 + count seg)) by lia.
    rewrite <- (take_drop (Z.to_nat (o + 1)) b) in Hc at 1. rewrite <- (take_drop (Z.to_nat (o + 1)) b).
    rewrite insert_app_l by (rewrite length_take; lia). rewrite Ht in *.
    specialize (Hc ltac:(lia)). rewrite take_app in Hc |- *. rewrite length_insert.
    rewrite (take_ge (take _ _)) in Hc by (rewrite length_take; lia). apply app_inv_head in Hc. rewrite Hc.
    rewrite (take_ge (<[_:=_]> _)) by (rewrite length_insert, length_take; lia).
    replace (Z.to_nat (o + 1)) with (S (Z.to_nat o)) by lia.
    destruct (lookup_lt_is_Some_2 buf (Z.to_nat o)) as [x Hx]; [lia|]. rewrite (take_S_r _ _ _ Hx).
    rewrite insert_app_r_alt by (rewrite length_take; lia). rewrite length_take, Nat.min_l, Nat.sub_diag by lia. simpl. by rewrite <- app_assoc.
  - eexists _, _. split; [done|]. split_and!; try done. lia.
Qed.
End Seg.

(** The same with the buffer split at the offset. *)
Lemma pack_seg_split seg pre tail n : length seg = 8%nat -> 0 <= n ->
  exists r tail', pack_seg seg (pre ++ tail) (Z.of_nat (length pre)) (Z.of_nat (length tail)) n = Some (r, pre ++ tail') /\ length tail' = length tail /\
    if copied (Z.to_nat n) seg then r = (if 0 <? n then 8 else 10)
    else r = count seg + 1 /\ (r <= Z.of_nat (length tail) -> exists rest, tail' = (mask seg :: nonzero seg) ++ rest).
Proof.
  intros Hseg Hn. destruct (pack_seg_spec seg (pre ++ tail) (Z.of_nat (length pre)) (Z.of_nat (length tail)) Hseg ltac:(lia) ltac:(rewrite length_app; lia) n Hn)
    as (r & buf' & -> & Hl & Ht & Hc). rewrite Nat2Z.id, take_app_length in Ht.
  assert (buf' = pre ++ drop (length pre) buf') as E by (rewrite <- Ht at 1; by rewrite take_drop).
  exists r, (drop (length pre) buf'). rewrite length_drop, Hl, length_app. split; [by rewrite <- E|]. split; [lia|].
  destruct (copied _ _); [done|]. destruct Hc as [-> Hc]. split; [done|]. intros Hr. specialize (Hc Hr).
  replace (Z.to_nat (Z.of_nat (length pre) + (count seg + 1))) with (length pre + length (mask seg :: nonzero seg))%nat in Hc by (unfold count; simpl; lia).
  rewrite Nat2Z.id, take_app_length in Hc. rewrite E in Hc. rewrite take_app_add in Hc. apply app_inv_head in Hc.
  eexists. rewrite <- Hc at 1. symmetry. apply take_drop.
Qed.

(** ** A run of copied groups *)

Lemma align8 n : 0 <= n -> Z.land (n + 7) (Z.lnot 7) = (n + 7) / 8 * 8.
Proof.
  intros. rewrite <- Z.ldiff_land. change 7 with (Z.ones 3) at 2. rewrite Z.ldiff_ones_r by lia.
  rewrite Z.shiftr_div_pow2, Z.shiftl_mul_pow2 by lia. done.
Qed.

Definition ff_bytes (data : list Z) : list Z :=
  let a := (Z.of_nat (length data) + 7) / 8 in 0xff :: (a - 1) :: data ++ replicate (Z.to_nat (a * 8 - Z.of_nat (length data))) 0.

Lemma ff_bytes_length data : Z.of_nat (length (ff_bytes data)) = 2 + (Z.of_nat (length data) + 7) / 8 * 8.
Proof. unfold ff_bytes. simpl. rewrite length_app, length_replicate. Z.div_mod_to_equations. lia. Qed.

Lemma write_ff_spec srcv src buf des n data : 0 < n <= 2048 -> 0 <= des -> read_source srcv src n = Some data -> Z.of_nat (length data) = n ->
  des + Z.of_nat (length (ff_bytes data)) <= Z.of_nat (length buf) -> write_ff srcv src buf des n = Some (splice buf (Z.to_nat des) (ff_bytes data)).
Proof.
  intros Hn Hd Er Hl Hroom. rewrite ff_bytes_length in Hroom. unfold write_ff, ff_bytes. rewrite align8 by lia. rewrite Hl in *. set (a := (n + 7) / 8) in *.
  assert (n <= a * 8 < n + 8 /\ 1 <= a <= 256) as [Ha1 Ha2] by (subst a; Z.div_mod_to_equations; lia).
  rewrite Z.div_mul by lia. rewrite u8_small by lia. set (d := Z.to_nat des).
  rewrite aset_splice by lia. fold d. rewrite aset_splice by (rewrite splice_length; simpl; lia). rewrite Er.
  replace (Z.to_nat (des + 1)) with (d + length [0xff%Z])%nat by (simpl; lia). rewrite splice_splice by (simpl; lia). cbn [app].
  rewrite memcpy_at_splice by (rewrite ?splice_length; simpl; lia).
  replace (Z.to_nat (des + 2)) with (d + length [0xff%Z; (a - 1)%Z])%nat by (simpl; lia). rewrite splice_splice by (simpl; lia).
  rewrite fill_splice by (rewrite ?splice_length; simpl; lia).
  replace (Z.to_nat (des + n + 2)) with (d + length ([0xff%Z; (a - 1)%Z] ++ data))%nat by (simpl; lia). rewrite splice_splice by (simpl; lia). done.
Qed.

(** ** The loop *)

Lemma segs_lookup_next l j : (8 * j < length l)%nat -> forall n, segs (S n) (drop (8 * j) l) = pad8 (take 8 (drop (8 * j) l)) :: segs n (drop (8 * S j) l).
Proof. intros Hj n. cbn [segs]. rewrite drop_drop. do 2 f_equal. f_equal. lia. Qed.

Section Loop.
Variable src : list Z.
Notation sz := (Z.of_nat (length src)).

(** The run [run] ends before byte [8 * j] of the source; the last group may have been filled up. *)
Definition run_ok (st : packing) (j : nat) (run : list (list Z)) : Prop :=
  match run with
  | [] => k_n st = 0
  | _ => k_n st = Z.of_nat (length run) /\ exists off, k_srcstart st = Some (InSrc off) /\ 0 <= off /\ off + 8 * Z.of_nat (length run) = 8 * Z.of_nat j /\
      concat run = take (8 * length run) (drop (Z.to_nat off) src) ++ replicate (8 * j - length src) 0 /\ length (concat run) = (8 * length run)%nat /\
      (length run < 256)%nat /\ off + 8 <= sz
  end.

(** The bytes of the buffer a run takes, beginning where it will be written. *)
Definition run_room (run : list (list Z)) : Z := match run with [] => 0 | _ => 2 + 8 * Z.of_nat (length run) end.

(** [out] is final; [j] groups are done; behind [out] and the room of the run, [tail] is free. *)
Record pack_inv (st : packing) (j : nat) (out : list Z) (run : list (list Z)) (total : Z) : Prop := {
  pi_buf : exists g tail, k_buf st = out ++ g ++ tail /\ Z.of_nat (length g) = run_room run /\ k_bufsz st = Z.of_nat (length tail);
  pi_length : Z.of_nat (length (k_buf st)) = total;
  pi_size : k_size st = k_des st;
  pi_des : k_des st = Z.of_nat (length out) + run_room run;
  pi_start : run <> [] -> k_desstart st = Z.of_nat (length out);
  pi_run : run_ok st j run;
}.

(** The group at [8 * j]. *)
Definition group (j : nat) : list Z := pad8 (take 8 (drop (8 * j) src)).

Lemma group_source j : (8 * j < length src)%nat ->
  exists p, (if 0 <? 8 * Z.of_nat j + 8 - sz then let! b := memcpy src (8 * Z.of_nat j) (8 - (8 * Z.of_nat j + 8 - sz)) in
      Some (InTmp (b ++ replicate (Z.to_nat (8 * Z.of_nat j + 8 - sz)) 0)) else Some (InSrc (8 * Z.of_nat j))) = Some p /\
    read_source src p 8 = Some (group j) /\ ((8 * S j <= length src)%nat -> p = InSrc (8 * Z.of_nat j)).
Proof.
  intros Hj. unfold group, pad8. destruct (Z.ltb_spec 0 (8 * Z.of_nat j + 8 - sz)) as [Hp|Hp].
  - rewrite memcpy_Some by lia. eexists. split; [done|]. split; [|lia]. simpl read_source.
    replace (Z.to_nat (8 * Z.of_nat j)) with (8 * j)%nat by lia.
    assert (length (take (Z.to_nat (8 - (8 * Z.of_nat j + 8 - sz))) (drop (8 * j) src)) = (length src - 8 * j)%nat) as El by (rewrite length_take, length_drop; lia).
    rewrite memcpy_Some; [|lia..|rewrite length_app, El, length_replicate; lia].
    rewrite drop_0, take_ge by (rewrite length_app, El, length_replicate; lia).
    rewrite !(take_ge (drop _ _)) by (rewrite length_drop; lia). rewrite length_drop. do 3 f_equal. lia.
  - eexists. split; [done|]. split; [|done]. simpl. rewrite memcpy_Some by lia. replace (Z.to_nat (8 * Z.of_nat j)) with (8 * j)%nat by lia.
    change (Z.to_nat 8) with 8%nat. rewrite length_take, length_drop, Nat.min_l, Nat.sub_diag by lia. simpl. by rewrite app_nil_r.
Qed.

(** Writing a finished run. *)
Lemma flush_run st run off bufsz data buf out g tail : 0 <= bufsz -> k_srcstart st = Some (InSrc off) -> k_desstart st = Z.of_nat (length out) ->
  buf = out ++ g ++ tail -> Z.of_nat (length g) = 2 + 8 * Z.of_nat (length run) -> (1 <= length run <= 256)%nat ->
  0 <= off -> off + Z.of_nat (length data) <= sz -> data = take (length data) (drop (Z.to_nat off) src) ->
  8 * Z.of_nat (length run) - 8 < Z.of_nat (length data) <= 8 * Z.of_nat (length run) ->
  concat run = data ++ replicate (8 * length run - length data) 0 ->
  flush src (Z.of_nat (length data)) st buf bufsz = Some (out ++ ff_run run ++ tail).
Proof.
  intros Hb Hs Hd Ebuf Hg Hr Hoff Hend Hdata Hlen Hrun. unfold flush. destruct (Z.leb_spec 0 bufsz); [|lia]. rewrite Hs, Hd.
  assert (ff_bytes data = ff_run run) as Eff.
  { unfold ff_bytes, ff_run. assert ((Z.of_nat (length data) + 7) / 8 = Z.of_nat (length run)) as -> by (Z.div_mod_to_equations; lia).
    rewrite Hrun. do 3 f_equal. f_equal. lia. }
  assert (length (ff_run run) = length g) as Hfl.
  { apply Nat2Z.inj. rewrite <- Eff, ff_bytes_length, Hg. Z.div_mod_to_equations. lia. }
  rewrite (write_ff_spec _ _ _ _ _ data); [|lia|lia| |done|].
  - rewrite Nat2Z.id, Eff. f_equal. by apply (splice_mid _ _ g).
  - simpl. rewrite memcpy_Some by lia. rewrite Nat2Z.id. by rewrite <- Hdata.
  - rewrite Eff, Ebuf, !length_app. lia.
Qed.

Lemma copied_full run seg : length seg = 8%nat -> copied run seg = true -> run = 0%nat -> count seg = 8.
Proof. intros Hl Hc ->. unfold copied in Hc. rewrite andb_false_r, orb_false_r in Hc. by apply Z.eqb_eq. Qed.

Lemma copied_false run seg : length seg = 8%nat -> copied run seg = false -> count seg <= 7 /\ ((0 < run)%nat -> count seg <= 5).
Proof.
  intros Hl [H8%Z.eqb_neq Hc]%orb_false_elim. pose proof (count_le seg) as Hcs. rewrite Hl in Hcs. split; [lia|]. intros Hr.
  replace (0 <? Z.of_nat run) with true in Hc by lia. rewrite andb_true_r in Hc. apply orb_false_elim in Hc as [H7%Z.eqb_neq H6%Z.eqb_neq]. lia.
Qed.

Lemma copied_count run seg : copied run seg = true -> 6 <= count seg.
Proof. intros [H%Z.eqb_eq|[[H%Z.eqb_eq|H%Z.eqb_eq]%orb_true_iff _]%andb_true_iff]%orb_true_iff; lia. Qed.

(** A padded group has zeros. *)
Lemma group_full j : count (group j) = 8 -> (8 * S j <= length src)%nat.
Proof.
  intros Hc. destruct (le_lt_dec (8 * S j) (length src)) as [|Hlt]; [done|]. exfalso. unfold group, pad8, count in Hc.
  rewrite nonzero_app, length_app in Hc. assert (length (take 8 (drop (8 * j) src)) < 8)%nat as Hl by (rewrite length_take, length_drop; lia).
  rewrite nonzero_zeros in Hc. pose proof (count_le (take 8 (drop (8 * j) src))) as H. unfold count in H. cbn [length] in Hc. lia.
Qed.

Lemma group_length j : length (group j) = 8%nat.
Proof. apply pad8_length. rewrite length_take. lia. Qed.
Lemma concat_length8 (run : list (list Z)) : Forall (fun seg => length seg = 8%nat) run -> length (concat run) = (8 * length run)%nat.
Proof. induction 1 as [|seg run Hl _ IH]; [done|]. simpl. rewrite length_app, IH, Hl. lia. Qed.

(** Whatever follows, an unfinished run takes its room. *)
Lemma packed_room run l : run <> [] -> Forall (fun seg => length seg = 8%nat) (run ++ l) -> (2 + 8 * length run <= length (packed run l))%nat.
Proof.
  revert run. induction l as [|seg l IH]; intros run Hne Hl; cbn [packed].
  - rewrite app_nil_r in Hl. apply concat_length8 in Hl. destruct run; [done|]. unfold end_run, ff_run. cbn [length] in *. lia.
  - replace (run ++ seg :: l) with ((run ++ [seg]) ++ l) in Hl by (by rewrite <- app_assoc). pose proof Hl as [Hl1 _]%Forall_app. apply concat_length8 in Hl1.
    rewrite length_app in Hl1. cbn [length] in Hl1. destruct (copied _ _).
    + destruct (_ =? 256)%nat.
      * rewrite length_app. unfold ff_run. cbn [length]. lia.
      * specialize (IH (run ++ [seg]) ltac:(by destruct run) Hl). rewrite length_app in IH. cbn [length] in IH. lia.
    + rewrite length_app. apply Forall_app in Hl as [[Hl _]%Forall_app _]. apply concat_length8 in Hl. destruct run; [done|].
      unfold end_run, ff_run. cbn [length] in *. lia.
Qed.

(** One more group behind a run. *)
Lemma run_concat_next j run off : (8 * j < length src)%nat -> 0 <= off -> off + 8 * Z.of_nat (length run) = 8 * Z.of_nat j ->
  concat run = take (8 * length run) (drop (Z.to_nat off) src) ++ replicate (8 * j - length src) 0 ->
  concat (run ++ [group j]) = take (8 * length (run ++ [group j])) (drop (Z.to_nat off) src) ++ replicate (8 * S j - length src) 0.
Proof.
  intros Hj H0 Hoff Hc. rewrite concat_app, length_app. cbn [concat length]. rewrite app_nil_r, Hc.
  replace (8 * j - length src)%nat with 0%nat by lia. cbn [replicate]. rewrite app_nil_r.
  unfold group, pad8. rewrite app_assoc. f_equal; [|f_equal; rewrite length_take, length_drop; lia].
  replace (8 * (length run + 1))%nat with (8 * length run + 8)%nat by lia. rewrite <- take_take_drop, drop_drop. do 3 f_equal. lia.
Qed.

Lemma run_ok_next st st' j run : run_ok st j run -> (length run + 1 < 256)%nat -> (8 * j < length src)%nat ->
  (run <> [] -> k_srcstart st' = k_srcstart st /\ k_n st' = k_n st + 1) ->
  (run = [] -> k_srcstart st' = Some (InSrc (8 * Z.of_nat j)) /\ k_n st' = 1 /\ (8 * S j <= length src)%nat) -> run_ok st' (S j) (run ++ [group j]).
Proof.
  intros Hr Hlt Hj Hne He. pose proof (group_length j) as Hg. unfold run_ok. destruct (run ++ [group j]) as [|s0 r0] eqn:E; [by destruct run|]. rewrite <- E. clear E s0 r0.
  rewrite length_app. cbn [length]. destruct run as [|s r].
  - destruct (He eq_refl) as (-> & -> & Hf). split; [done|]. exists (8 * Z.of_nat j). split; [done|]. split; [lia|]. split; [cbn [length]; lia|].
    cbn [app concat length]. rewrite app_nil_r, Hg. replace (Z.to_nat (8 * Z.of_nat j)) with (8 * j)%nat by lia.
    split; [|split; lia]. unfold group, pad8. change (8 * (0 + 1))%nat with 8%nat. f_equal. f_equal. rewrite length_take, length_drop. lia.
  - destruct (Hne ltac:(done)) as [E1 ->]. destruct Hr as (-> & off & Hs & H0 & Hoff & Hc & Hcl & Hlen & H8s). rewrite E1. set (run := s :: r) in *.
    split; [lia|]. exists off. split; [done|]. split; [done|]. split; [lia|].
    split; [rewrite (run_concat_next j run off) by done; by rewrite length_app|]. rewrite concat_app, length_app. cbn [concat]. rewrite app_nil_r, Hcl, Hg. lia.
Qed.

(** The final write of a run that ended at group [j], its last group complete. *)
Lemma flush_full st run buf out g tail j off : 0 <= off -> run <> [] -> k_srcstart st = Some (InSrc off) -> k_desstart st = Z.of_nat (length out) ->
  buf = out ++ g ++ tail -> Z.of_nat (length g) = 2 + 8 * Z.of_nat (length run) -> (length run <= 256)%nat ->
  off + 8 * Z.of_nat (length run) = 8 * Z.of_nat j -> (8 * j <= length src)%nat -> concat run = take (8 * length run) (drop (Z.to_nat off) src) ->
  forall bufsz, 0 <= bufsz -> flush src (8 * Z.of_nat (length run)) st buf bufsz = Some (out ++ ff_run run ++ tail).
Proof.
  intros H0 Hne Hs Hd Ebuf Hg Hlen Hoff Hj Hc bufsz Hb. assert (1 <= length run)%nat by (destruct run; [done | cbn [length]; lia]).
  assert (length (take (8 * length run) (drop (Z.to_nat off) src)) = 8 * length run)%nat as El by (rewrite length_take, length_drop; lia).
  replace (8 * Z.of_nat (length run)) with (Z.of_nat (length (concat run))) by (rewrite Hc, El; lia).
apply (flush_run st run off bufsz (concat run) buf out g tail); try done; try lia.
  - rewrite Hc, El. lia.
  - by rewrite Hc, El.
  - rewrite Hc, El. lia.
  - replace (8 * length run - length (concat run))%nat with 0%nat by (rewrite Hc, El; lia). by rewrite app_nil_r.
Qed.
(** Room behind the run, given room for the packed form. *)
Lemma tail_room st j out run l total : pack_inv st j out run total -> Z.of_nat (length (out ++ packed run l)) <= total ->
  Z.of_nat (length (packed run l)) <= run_room run + k_bufsz st.
Proof.
  intros [(g & tail & Eb & Hg & Ht) Hl _ _ _ _] Hroom. rewrite <- Hl, Eb, !length_app in Hroom. lia.
Qed.

Lemma run_room_ne (run : list (list Z)) : run <> [] -> run_room run = 2 + 8 * Z.of_nat (length run).
Proof. by destruct run. Qed.

Lemma run_ok_n st j run : run_ok st j run -> k_n st = Z.of_nat (length run).
Proof. destruct run; [done|]. by intros [? _]. Qed.

Lemma run_ok_split st j run : run <> [] -> run_ok st j run ->
  exists off, k_srcstart st = Some (InSrc off) /\ 0 <= off /\ off + 8 * Z.of_nat (length run) = 8 * Z.of_nat j /\
    concat run = take (8 * length run) (drop (Z.to_nat off) src) ++ replicate (8 * j - length src) 0 /\ length (concat run) = (8 * length run)%nat /\
    (length run < 256)%nat /\ off + 8 <= sz.
Proof. destruct run; [done|]. by intros _ [_ H]. Qed.

Lemma end_run_ne run : run <> [] -> end_run run = ff_run run.
Proof. by destruct run. Qed.

Lemma pack_inv_intro bufsz buf des start desstart n size j out run g tail total :
  buf = out ++ g ++ tail -> Z.of_nat (length g) = run_room run -> bufsz = Z.of_nat (length tail) -> Z.of_nat (length out) + run_room run + bufsz = total ->
  des = Z.of_nat (length out) + run_room run -> size = des -> (run <> [] -> desstart = Z.of_nat (length out)) ->
  run_ok (MkPacking bufsz buf des start desstart n size) j run -> pack_inv (MkPacking bufsz buf des start desstart n size) j out run total.
Proof.
  intros -> Hg -> Htot Hd -> Hst Hr. constructor; cbn [k_buf k_bufsz k_des k_size k_desstart]; try done; [eexists _, _; done|].
  rewrite !length_app. lia.
Qed.

Lemma ff_run_length run : Forall (fun seg => length seg = 8%nat) run -> Z.of_nat (length (ff_run run)) = 2 + 8 * Z.of_nat (length run).
Proof. intros H%concat_length8. unfold ff_run. cbn [length]. lia. Qed.

(** ** A pass

    The group at [8 * j] has been tried in the free part of the buffer, which is now [tail']. *)
Section Next.
Variables (st : packing) (j : nat) (out : list Z) (run rest : list (list Z)) (g tail' : list Z).
Notation total := (Z.of_nat (length (out ++ g ++ tail'))).
Hypothesis Hj : (8 * j < length src)%nat.
Hypothesis H8 : Forall (fun seg => length seg = 8%nat) run.
Hypothesis Hrest : Forall (fun seg => length seg = 8%nat) rest.
Hypothesis Hg : Z.of_nat (length g) = run_room run.
Hypothesis Ht : k_bufsz st = Z.of_nat (length tail').
Hypothesis Hs : k_size st = k_des st.
Hypothesis Hd : k_des st = Z.of_nat (length out) + run_room run.
Hypothesis Hst : run <> [] -> k_desstart st = Z.of_nat (length out).
Hypothesis Hrun : run_ok st j run.
Hypothesis Hroom : Z.of_nat (length (packed run (group j :: rest))) <= run_room run + k_bufsz st.

(** The result of a pass. *)
Definition passed (r : option packing) : Prop := exists st' out' run', r = Some st' /\ pack_inv st' (S j) out' run' total /\
  Forall (fun seg => length seg = 8%nat) run' /\ out' ++ packed run' rest = out ++ packed run (group j :: rest).

#[local] Lemma next8 : Forall (fun seg => length seg = 8%nat) (run ++ [group j]).
Proof. apply Forall_app. split; [done|]. constructor; [apply group_length | done]. Qed.

(** A first group to copy. *)
Lemma next_start p : run = [] -> copied 0 (group j) = true -> ((8 * S j <= length src)%nat -> p = InSrc (8 * Z.of_nat j)) ->
  passed (pack_next src p st 10 (out ++ g ++ tail')).
Proof.
  pose proof next8 as H8'. intros E Hc Hp. unfold passed. rewrite E in *. destruct g; [|done]. cbn [packed length app Nat.add Nat.eqb run_room] in *. rewrite Hc in Hroom.
  pose proof (packed_room [group j] rest ltac:(done) ltac:(constructor; [apply group_length | done])) as Hpr. cbn [length] in Hpr.
  assert (8 * S j <= length src)%nat as Hf by (apply group_full; eapply copied_full; [apply group_length | apply Hc | done]).
  rewrite (Hp Hf). cbn [packed length app Nat.add Nat.eqb]. rewrite Hc.
  eexists _, out, [group j]. split; [done|]. split; [|done].
  apply (pack_inv_intro _ _ _ _ _ _ _ _ _ _ (take 10 tail') (drop 10 tail')); try done; cbn [run_room length app];
    rewrite ?length_app, ?length_take, ?length_drop; try lia; [by rewrite take_drop|].
  apply (run_ok_next st _ _ []); try done; cbn [length]; lia.
Qed.

(** A group that follows others to copy; the 256th ends the run. *)
Lemma next_follow p : run <> [] -> copied (length run) (group j) = true -> ((length run = 255)%nat -> (8 * S j <= length src)%nat) ->
  passed (pack_next src p st 8 (out ++ g ++ tail')).
Proof.
  intros Hne Hc H256. pose proof next8 as H8'. pose proof (run_room_ne _ Hne) as Hrr. specialize (Hst Hne). pose proof (run_ok_n _ _ _ Hrun) as Hn.
  assert (0 < length run)%nat by (destruct run; [done | cbn [length]; lia]).
  assert (length (run ++ [group j]) = length run + 1)%nat as Hl1 by (by rewrite length_app). assert (run ++ [group j] <> []) as Hne1 by (by destruct run).
  destruct (run_ok_split _ _ _ Hne Hrun) as (off & Hso & H0 & Hoff & Hcc & Hcl & Hlen & H8s).
  unfold passed, pack_next. rewrite Hn. replace (0 <? Z.of_nat (length run)) with true by lia. cbn [packed Z.eqb Pos.eqb andb] in *. rewrite Hc in *.
  assert (8 <= length tail')%nat as Ht8.
  { destruct (_ =? 256)%nat; [rewrite length_app in Hroom; pose proof (ff_run_length _ H8')
    | pose proof (packed_room (run ++ [group j]) rest Hne1 ltac:(by apply Forall_app))]; lia. }
  assert (out ++ g ++ tail' = out ++ (g ++ take 8 tail') ++ drop 8 tail') as Esplit by (by rewrite <- app_assoc, take_drop).
  assert (length (g ++ take 8 tail') = length g + 8)%nat as Hg8 by (rewrite length_app, length_take; lia).
  pose proof (length_drop tail' 8) as Ht8'. assert (length (out ++ g ++ tail') = length out + length g + length tail')%nat by (rewrite !length_app; lia).
  destruct (Nat.eqb_spec (length run + 1) 256) as [E256|E256].
  - replace (_ + 1 =? 256) with true by lia. specialize (H256 ltac:(lia)). replace (256 * 8) with (8 * Z.of_nat (length (run ++ [group j]))) by lia.
    pose proof (ff_run_length _ H8') as Hfl.
    rewrite (flush_full st (run ++ [group j]) _ out (g ++ take 8 tail') (drop 8 tail') (S j) off); try done; try lia.
    2: { rewrite (run_concat_next j run off) by done. replace (8 * S j - length src)%nat with 0%nat by lia. apply app_nil_r. }
    eexists _, (out ++ ff_run (run ++ [group j])), []. split; [done|]. split; [|split; [done | by rewrite <- app_assoc]].
    apply (pack_inv_intro _ _ _ _ _ _ _ _ _ _ [] (drop 8 tail')); try done; try lia; rewrite ?length_app, <- ?app_assoc; cbn [run_room]; try done; lia.
  - replace (_ + 1 =? 256) with false by lia. eexists _, out, (run ++ [group j]). split; [done|]. split; [|done].
    apply (pack_inv_intro _ _ _ _ _ _ _ _ _ _ (g ++ take 8 tail') (drop 8 tail')); try done; rewrite ?(run_room_ne (run ++ [group j])) by done; try lia.
    apply (run_ok_next st); try done; try lia. intros _. cbn [k_srcstart k_n]. by rewrite Hn.
Qed.

(** A group with its header; it ends a run. *)
Lemma next_plain p fr : copied (length run) (group j) = false -> tail' = (mask (group j) :: nonzero (group j)) ++ fr ->
  passed (pack_next src p st (count (group j) + 1) (out ++ g ++ tail')).
Proof.
  intros Ec Ef. pose proof (run_ok_n _ _ _ Hrun) as Hn. unfold passed, pack_next. rewrite Hn. cbn [packed] in *. rewrite Ec in *.
  assert (Z.of_nat (length (mask (group j) :: nonzero (group j))) = count (group j) + 1) as Hsl by (unfold count; cbn [length]; lia).
  pose proof (f_equal length Ef) as Hfr. rewrite length_app in Hfr. pose proof (count_le (group j)) as Hcl. rewrite group_length in Hcl.
  assert (count (group j) <> 8) as Hc8 by (intros E; unfold copied in Ec; by rewrite E in Ec). replace (count (group j) + 1 =? 10) with false by lia.
  assert ((count (group j) + 1 =? 8) && (0 <? Z.of_nat (length run)) = false) as ->.
  { destruct (Z.eqb_spec (count (group j) + 1) 8); [|done]. destruct (0 <? _) eqn:E0; [|done]. unfold copied in Ec.
    replace (count (group j)) with 7 in Ec by lia. by rewrite E0 in Ec. }
  assert (length (out ++ g ++ tail') = length out + length g + length tail')%nat as Htot by (rewrite !length_app; lia).
  destruct (Z.ltb_spec 0 (Z.of_nat (length run))) as [Hpos|Hpos].
  - assert (run <> []) as Hne by (by destruct run). destruct (run_ok_split _ _ _ Hne Hrun) as (off & Hso & H0 & Hoff & Hc & Hcl' & Hlen & H8s).
    pose proof (ff_run_length _ H8) as Hfl. rewrite length_app in Hroom.
    assert (length (out ++ ff_run run ++ mask (group j) :: nonzero (group j)) = length out + (length (ff_run run) + length (mask (group j) :: nonzero (group j))))%nat
      as Hlo by (by rewrite !length_app).
    rewrite (run_room_ne _ Hne), end_run_ne in * by done. replace (8 * j - length src)%nat with 0%nat in Hc by lia. cbn [replicate] in Hc. rewrite app_nil_r in Hc.
    rewrite (Z.mul_comm _ 8), (flush_full st run _ out g tail' j off); try done; try lia; [|by apply Hst].
    eexists _, (out ++ ff_run run ++ mask (group j) :: nonzero (group j)), []. split; [done|]. split; [|split; [done | by rewrite <- !app_assoc]].
    apply (pack_inv_intro _ _ _ _ _ _ _ _ _ _ [] fr); try done; rewrite ?Htot, ?Hlo; cbn [run_room]; try lia. by rewrite Ef, <- !app_assoc.
  - assert (run = []) as E by (destruct run; [done | cbn [length] in Hpos; lia]). rewrite E in *. destruct g; [|done]. cbn [run_room end_run app length] in *.
    eexists _, (out ++ mask (group j) :: nonzero (group j)), []. split; [done|]. split; [|split; [done | by rewrite <- !app_assoc]].
    apply (pack_inv_intro _ _ _ _ _ _ _ _ _ _ [] fr); try done; rewrite ?Htot, ?length_app; cbn [run_room length] in *; try lia. by rewrite Ef, <- !app_assoc.
Qed.
End Next.

Lemma pack_step_ok st j out run rest total : pack_inv st j out run total -> (8 * j < length src)%nat ->
  Forall (fun seg => length seg = 8%nat) run -> Forall (fun seg => length seg = 8%nat) rest ->
  Z.of_nat (length (out ++ packed run (group j :: rest))) <= total ->
  (copied (length run) (group j) = true -> (length run = 255)%nat -> (8 * S j <= length src)%nat) ->
  exists st' out' run', pack_step src (8 * Z.of_nat j) st = Some st' /\ pack_inv st' (S j) out' run' total /\
    Forall (fun seg => length seg = 8%nat) run' /\ out' ++ packed run' rest = out ++ packed run (group j :: rest).
Proof.
  intros Hinv Hj H8 Hrest Hroom H256. pose proof (tail_room _ _ _ _ _ _ Hinv Hroom) as Htail.
  destruct Hinv as [(g & tail & Eb & Hg & Ht) Hl Hs Hd Hst Hrun]. pose proof (group_length j) as Hgl.
  unfold pack_step. destruct (group_source j Hj) as (p & -> & -> & Hfull). rewrite (run_ok_n _ _ _ Hrun), Eb.
  destruct (pack_seg_split (group j) (out ++ g) tail (Z.of_nat (length run)) Hgl ltac:(lia)) as (r & tail' & Eseg & Hlt & Hcase).
  rewrite <- !(app_assoc out g) in Eseg. replace (Z.of_nat (length (out ++ g))) with (k_des st) in Eseg by (rewrite length_app; lia).
  rewrite <- Ht in Eseg. rewrite Eseg. rewrite Nat2Z.id in Hcase.
  assert (total = Z.of_nat (length (out ++ g ++ tail'))) as -> by (rewrite <- Hl, Eb, !length_app, Hlt; done). rewrite <- Hlt in Ht. destruct (copied (length run) (group j)) eqn:Ec.
  - subst r. destruct run as [|seg run]; [by apply next_start | by apply next_follow; auto].
  - destruct Hcase as [-> Hcase]. destruct Hcase as [fr Ef]; [|by eapply next_plain]. cbn [packed] in Htail. rewrite Ec, !length_app in Htail.
    assert (Z.of_nat (length (end_run run)) = run_room run) as Her by (destruct run; [done | by apply ff_run_length]). unfold count. cbn [length] in Htail. lia.
Qed.
Definition whole_groups : Prop := forall j, (255 <= j)%nat -> (8 * j < length src)%nat -> copied 255 (group j) = true -> (8 * S j <= length src)%nat.

Lemma pack_loop_ok n : forall st j out run total, whole_groups -> pack_inv st j out run total -> (0 < n -> 8 * (j + n - 1) < length src)%nat ->
  Forall (fun seg => length seg = 8%nat) run -> Z.of_nat (length (out ++ packed run (segs n (drop (8 * j) src)))) <= total ->
  exists st' out' run', pack_loop src n (8 * Z.of_nat j) st = Some st' /\ pack_inv st' (j + n) out' run' total /\
    Forall (fun seg => length seg = 8%nat) run' /\ out' ++ end_run run' = out ++ packed run (segs n (drop (8 * j) src)).
Proof.
  induction n as [|n IH]; intros st j out run total Hw Hinv Hn H8 Hroom.
  - rewrite Nat.add_0_r. by exists st, out, run.
  - specialize (Hn ltac:(lia)). assert (8 * j < length src)%nat as Hj by lia. rewrite segs_lookup_next in Hroom |- * by done. fold (group j) in Hroom |- *.
    destruct (pack_step_ok st j out run (segs n (drop (8 * S j) src)) total) as (st1 & out1 & run1 & Es & Hinv1 & H81 & Eo); try done; [apply segs_length8| |].
    + intros Hc Hl. rewrite Hl in Hc. apply Hw; try done. destruct Hinv as [_ _ _ _ _ Hr]. destruct run as [|s r]; [done|].
      destruct Hr as (_ & off & _ & H0 & Hoff & _). lia.
    + cbn [pack_loop]. rewrite Es. replace (8 * Z.of_nat j + 8) with (8 * Z.of_nat (S j)) by lia. rewrite <- Eo in Hroom |- *.
      replace (j + S n)%nat with (S j + n)%nat by lia. apply IH; try done. lia.
Qed.

(** What is packed, and that it needs no more room than it takes. *)
Lemma sproto_pack_spec buf : whole_groups -> let bytes := packed [] (segs (groups sz) src) in (length bytes <= length buf)%nat ->
  exists rest, sproto_pack src buf = Some (Z.of_nat (length bytes), bytes ++ rest) /\ length (bytes ++ rest) = length buf.
Proof.
  intros Hw bytes Hroom. set (N := groups sz) in *. assert (8 * Z.of_nat N - 8 < sz <= 8 * Z.of_nat N) as HN by (subst N; unfold groups; Z.div_mod_to_equations; lia).
  destruct (pack_loop_ok N (MkPacking (Z.of_nat (length buf)) buf 0 None 0 0 0) 0 [] [] (Z.of_nat (length buf)) Hw) as (st & out & run & El & Hinv & H8 & Eo); try done.
  - by apply (pack_inv_intro _ _ _ _ _ _ _ _ _ _ [] buf).
  - lia.
  - rewrite app_nil_l. rewrite Nat.mul_0_r, drop_0. fold bytes. lia.
  - rewrite app_nil_l, Nat.mul_0_r, drop_0 in Eo. fold bytes in Eo. cbn [Nat.add] in Hinv.
    destruct Hinv as [(g & tail & Eb & Hg & Ht) Hl Hs Hd Hst Hrun]. unfold sproto_pack. fold N. change (8 * Z.of_nat 0) with 0 in El. rewrite El.
    rewrite (run_ok_n _ _ _ Hrun). replace (0 <=? k_bufsz st) with true by lia. rewrite Hs, Hd, <- Hg, <- Eo. rewrite Eb, !length_app in Hl.
    destruct (decide (run = [])) as [->|Hne].
    + exists tail. cbn. destruct g; [|done]. rewrite Eb, Z.add_0_r, !app_nil_r. cbn [app length] in *. split; [done|]. rewrite length_app. lia.
    + rewrite end_run_ne by done. rewrite (run_room_ne _ Hne) in Hg. pose proof (ff_run_length _ H8) as Hfl.
      destruct (run_ok_split _ _ _ Hne Hrun) as (off & Hso & H0 & Hoff & Hc & Hcl & Hlen & H8s).
      assert (0 < length run)%nat by (destruct run; [done | cbn [length]; lia]).
      assert (flush src (sz - off) st (k_buf st) (k_bufsz st) = Some (out ++ ff_run run ++ tail)) as Ef.
      { set (data := drop (Z.to_nat off) src). assert (Z.of_nat (length data) = sz - off) as Hdl by (subst data; rewrite length_drop; lia).
        rewrite <- Hdl. apply (flush_run st run off (k_bufsz st) data (k_buf st) out g tail); try done; try lia; [by apply Hst|by rewrite take_ge|].
        rewrite Hc. fold data. rewrite take_ge by lia. f_equal. f_equal. lia. }
      exists tail. rewrite !length_app, Nat2Z.inj_add, Hfl, Hg. destruct (Z.eqb_spec (Z.of_nat (length run)) 1) as [E1|E1].
      * replace 8 with (sz - off) at 1 by lia. rewrite Ef, <- app_assoc. split; [done|]. lia.
      * replace (1 <? _) with true by lia. rewrite Hso, Ef, <- app_assoc. split; [done|]. lia.
Qed.
End Loop.

(** ** Unpacking *)

Section Unpack.
Variable B : Z.

(** [rest] is to be read, [data] has been unpacked into a buffer of [B] bytes; what does not fit is only counted. *)
Record unpack_inv (st : unpacking) (rest data : list Z) : Prop := {
  ui_src : u_src st = rest;
  ui_srcsz : u_srcsz st = Z.of_nat (length rest);
  ui_length : Z.of_nat (length (u_buf st)) = B;
  ui_size : u_size st = Z.of_nat (length data);
  ui_des : 0 <= u_des st /\ u_des st + u_bufsz st = B;
  ui_data : Z.of_nat (length data) <= B -> u_des st = Z.of_nat (length data) /\ take (length data) (u_buf st) = data;
  ui_over : B < Z.of_nat (length data) -> u_bufsz st <= 0;
}.

Lemma emit_ok b st rest data : unpack_inv st rest data -> exists st', emit b st = Some st' /\ unpack_inv st' rest (data ++ [b]).
Proof.
  intros [Hs Hsz Hl Hn [Hd Hb] Hdata Hover]. unfold emit. assert (length (data ++ [b]) = length data + 1)%nat as Hlen by (by rewrite length_app).
  destruct (Z.ltb_spec 0 (u_bufsz st)).
  - assert (Z.of_nat (length data) <= B) as Hle by lia. destruct (Hdata Hle) as [Ed Et]. rewrite aset_splice by lia. eexists. split; [done|].
    constructor; cbn [u_src u_srcsz u_buf u_des u_bufsz u_size]; rewrite ?splice_length; cbn [length]; try done; try lia.
    intros _. split; [lia|]. rewrite Ed, Nat2Z.id, Hlen. change 1%nat with (length [b]). rewrite splice_take by lia. by rewrite Et.
  - eexists. split; [done|]. constructor; cbn [u_src u_srcsz u_buf u_des u_bufsz u_size]; try done; try lia.
Qed.

Lemma mask_bits b seg : Z.land (mask (b :: seg)) 1 = (if b =? 0 then 0 else 1) /\ Z.shiftr (mask (b :: seg)) 1 = mask seg.
Proof.
  cbn [mask]. rewrite (Z.land_ones _ 1), Z.shiftr_div_pow2 by lia. change (2 ^ 1) with 2.
  destruct (b =? 0); split; Z.div_mod_to_equations; lia.
Qed.

Lemma unpack_bits_ok header seg : forall i st rest data, 0 <= i -> Z.shiftr header i = mask seg -> unpack_inv st (nonzero seg ++ rest) data ->
  exists st', unpack_bits (length seg) i header st = Some (Some st') /\ unpack_inv st' rest (data ++ seg).
Proof.
  induction seg as [|b seg IH]; intros i st rest data Hi Hh Hinv; cbn [unpack_bits length].
  - exists st. by rewrite app_nil_r.
  - destruct (mask_bits b seg) as [E1 E2]. rewrite Hh, E1. rewrite <- Hh, Z.shiftr_shiftr in E2 by lia. unfold nonzero in Hinv. replace (data ++ b :: seg) with ((data ++ [b]) ++ seg) by (by rewrite <- app_assoc).
    destruct (Z.eqb_spec b 0) as [->|Hb].
    + rewrite filter_cons_False in Hinv by (intros H; by apply H). destruct (emit_ok 0 _ _ _ Hinv) as (st' & Est & Hinv'). rewrite Est. apply IH; [lia | done | done].
    + rewrite filter_cons_True in Hinv by done. fold (nonzero seg) in Hinv. pose proof Hinv as [Hs Hsz _ _ _ _ _]. cbn [app length] in *.
      destruct (Z.ltb_spec (u_srcsz st) 0); [lia|]. rewrite Hs. destruct (emit_ok b _ _ _ Hinv) as (st' & Est & Hinv'). rewrite Est.
      apply IH; [lia | done |]. destruct Hinv' as [Hs' Hsz' Hl' Hn' Hd' Hdata' Hover'].
      constructor; cbn [u_src u_srcsz u_buf u_des u_bufsz u_size]; try done. cbn [length] in *. lia.
Qed.

Lemma unpack_run_ok run st rest data : Forall (fun seg => length seg = 8%nat) run -> unpack_inv st ((Z.of_nat (length run) - 1) :: concat run ++ rest) data ->
  exists st', unpack_run st = Some (Some st') /\ unpack_inv st' rest (data ++ concat run).
Proof.
  intros H8%concat_length8 [Hs Hsz Hl Hn [Hd Hb] Hdata Hover]. cbn [length] in Hsz. unfold unpack_run. destruct (Z.ltb_spec (u_srcsz st) 0); [lia|].
  rewrite Hs. replace ((Z.of_nat (length run) - 1 + 1) * 8) with (Z.of_nat (length (concat run))) by lia.
  rewrite length_app in Hsz. destruct (Z.ltb_spec (u_srcsz st) (Z.of_nat (length (concat run)) + 1)); [lia|].
  rewrite memcpy_Some by (rewrite ?length_app; lia). rewrite drop_0, Nat2Z.id, take_app_length, drop_app_length.
  assert (length (data ++ concat run) = length data + length (concat run))%nat as Hlen by apply length_app.
  destruct (Z.leb_spec (Z.of_nat (length (concat run))) (u_bufsz st)).
  - rewrite memcpy_at_splice by lia. eexists. split; [done|].
    constructor; cbn [u_src u_srcsz u_buf u_des u_bufsz u_size]; rewrite ?splice_length by lia; try done; try lia.
    intros Hr. destruct Hdata as [Ed Et]; [lia|]. split; [lia|]. rewrite Ed, Nat2Z.id, Hlen, splice_take, Et by lia. done.
  - eexists. split; [done|]. constructor; cbn [u_src u_srcsz u_buf u_des u_bufsz u_size]; try done; try lia.
Qed.

Lemma mask_full seg : mask seg = 2 ^ Z.of_nat (length seg) - 1 -> count seg = Z.of_nat (length seg).
Proof.
  induction seg as [|b seg IH]; [done|]. cbn [mask length]. rewrite Nat2Z.inj_succ, Z.pow_succ_r by lia. pose proof (mask_range seg).
  unfold count, nonzero in *. destruct (Z.eqb_spec b 0); [lia|]. intros E. rewrite filter_cons_True by done. cbn [length]. lia.
Qed.

(** The loop reads a chunk of the packed form. *)
Definition reads (chunk chunk_data : list Z) : Prop := forall fuel st rest data, unpack_inv st (chunk ++ rest) data -> (length (chunk ++ rest) <= fuel)%nat ->
  exists fuel' st', unpack_loop fuel st = unpack_loop fuel' st' /\ unpack_inv st' rest (data ++ chunk_data) /\ (length rest <= fuel')%nat.

Lemma reads_nil : reads [] [].
Proof. intros fuel st rest data H Hf. exists fuel, st. by rewrite app_nil_r. Qed.

Lemma reads_app c1 d1 c2 d2 : reads c1 d1 -> reads c2 d2 -> reads (c1 ++ c2) (d1 ++ d2).
Proof.
  intros H1 H2 fuel st rest data Hinv Hf. rewrite <- app_assoc in Hinv, Hf. destruct (H1 _ _ _ _ Hinv Hf) as (f1 & st1 & -> & Hinv1 & Hf1).
  destruct (H2 _ _ _ _ Hinv1 Hf1) as (f2 & st2 & -> & Hinv2 & Hf2). exists f2, st2. by rewrite app_assoc.
Qed.

Lemma header_read st h rest data : unpack_inv st (h :: rest) data ->
  unpack_inv (MkUnpacking rest (u_srcsz st - 1) (u_buf st) (u_des st) (u_bufsz st) (u_size st)) rest data.
Proof. intros [Hs Hsz Hl Hn Hd Hdata Hover]. constructor; cbn [u_src u_srcsz u_buf u_des u_bufsz u_size]; try done. cbn [length] in Hsz. lia. Qed.

Lemma reads_group seg : length seg = 8%nat -> count seg <> 8 -> reads (mask seg :: nonzero seg) seg.
Proof.
  intros Hl Hc fuel st rest data Hinv Hf. destruct fuel as [|fuel]; [cbn [app length] in Hf; lia|]. cbn [app length] in *. exists fuel.
  pose proof (header_read _ _ _ _ Hinv) as Hinv'. destruct Hinv as [Hs Hsz _ _ _ _ _]. cbn [unpack_loop]. cbn [length] in Hsz.
  destruct (Z.leb_spec (u_srcsz st) 0); [lia|]. rewrite Hs. destruct (Z.eqb_spec (mask seg) 0xff) as [E|_]; [exfalso; apply Hc; rewrite mask_full, Hl; by rewrite ?Hl|].
  destruct (unpack_bits_ok (mask seg) seg 0 _ _ _ ltac:(lia) ltac:(by rewrite Z.shiftr_0_r) Hinv') as (st' & E & Hst'). rewrite Hl in E. rewrite E.
  exists st'. split; [done|]. split; [done|]. rewrite length_app in Hf. lia.
Qed.

Lemma reads_run run : Forall (fun seg => length seg = 8%nat) run -> reads (ff_run run) (concat run).
Proof.
  intros H8 fuel st rest data Hinv Hf. destruct fuel as [|fuel]; [cbn [app ff_run length] in Hf; lia|]. unfold ff_run in *. cbn [app length] in *. exists fuel.
  pose proof (header_read _ _ _ _ Hinv) as Hinv'. destruct Hinv as [Hs Hsz _ _ _ _ _]. cbn [unpack_loop]. cbn [length] in Hsz.
  destruct (Z.leb_spec (u_srcsz st) 0); [lia|]. rewrite Hs. cbn [Z.eqb Pos.eqb]. destruct (unpack_run_ok _ _ _ _ H8 Hinv') as (st' & E & Hst'). rewrite E.
  exists st'. split; [done|]. split; [done|]. rewrite length_app in Hf. lia.
Qed.

Lemma reads_packed l : forall run, Forall (fun seg => length seg = 8%nat) (run ++ l) -> reads (packed run l) (concat (run ++ l)).
Proof.
  assert (forall run, Forall (fun seg => length seg = 8%nat) run -> reads (end_run run) (concat run)) as Hend.
  { intros run H8. destruct run; [apply reads_nil | by apply reads_run]. }
  induction l as [|seg l IH]; intros run H8; cbn [packed].
  - rewrite app_nil_r in *. by apply Hend.
  - replace (run ++ seg :: l) with ((run ++ [seg]) ++ l) in * by (by rewrite <- app_assoc). pose proof H8 as [H81 H82]%Forall_app.
    destruct (copied _ _) eqn:Ec; [destruct (_ =? 256)%nat|].
    + rewrite concat_app. apply reads_app; [by apply reads_run | by apply (IH [])].
    + by apply IH.
    + pose proof H81 as [Hrun [Hseg _]%Forall_cons]%Forall_app. rewrite !concat_app, <- app_assoc. apply reads_app; [by apply Hend|].
      cbn [concat]. rewrite app_nil_r. apply reads_app; [|by apply (IH [])]. apply reads_group; [done|]. intros E. unfold copied in Ec. by rewrite E in Ec.
Qed.
End Unpack.

Lemma sproto_unpack_spec l buf : Forall (fun seg => length seg = 8%nat) l ->
  exists buf', sproto_unpack (packed [] l) buf = Some (Z.of_nat (length (concat l)), buf') /\ length buf' = length buf /\
    ((length (concat l) <= length buf)%nat -> take (length (concat l)) buf' = concat l).
Proof.
  intros H8. unfold sproto_unpack. set (st0 := MkUnpacking _ _ _ _ _ _).
  destruct (reads_packed (Z.of_nat (length buf)) l [] H8 (length (packed [] l)) st0 [] []) as (f & st & -> & [Hs Hsz Hl Hn Hd Hdata Hover] & _).
  - rewrite app_nil_r. constructor; subst st0; cbn [u_src u_srcsz u_buf u_des u_bufsz u_size length take]; try done; lia.
  - by rewrite app_nil_r.
  - cbn [app length] in *. assert (unpack_loop f st = Some (Some st)) as -> by (destruct f; cbn [unpack_loop]; by rewrite Hsz).
    exists (u_buf st). rewrite Hn. split; [done|]. split; [lia|]. intros Hle. by apply Hdata; lia.
Qed.

(** ** Sizes *)

Lemma concat_segs n l : (length l <= 8 * n)%nat -> concat (segs n l) = l ++ replicate (8 * n - length l) 0.
Proof.
  revert l. induction n as [|n IH]; intros l Hl; cbn [segs concat].
  - destruct l; [done | cbn [length] in Hl; lia].
  - rewrite IH by (rewrite length_drop; lia). unfold pad8. rewrite length_take, length_drop. destruct (le_lt_dec 8 (length l)).
    + rewrite Nat.min_l, Nat.sub_diag by lia. cbn [replicate]. rewrite app_nil_r, app_assoc, take_drop. do 2 f_equal. lia.
    + rewrite take_ge, drop_ge, <- app_assoc by lia. cbn [app]. rewrite <- replicate_add. do 2 f_equal. lia.
Qed.

Lemma segs_S n l : segs (S n) l = segs n l ++ [pad8 (take 8 (drop (8 * n) l))].
Proof.
  revert l. induction n as [|n IH]; intros l; [cbn [segs app]; by rewrite drop_0|]. change (segs (S (S n)) l) with (pad8 (take 8 l) :: segs (S n) (drop 8 l)).
  rewrite IH, drop_drop. cbn [segs app]. by replace (8 * S n)%nat with (8 + 8 * n)%nat by lia.
Qed.

Lemma segs_length n l : length (segs n l) = n.
Proof. revert l. induction n; intros; cbn [segs length]; auto. Qed.

Lemma end_run_length run : Forall (fun seg => length seg = 8%nat) run -> Z.of_nat (length (end_run run)) = run_room run.
Proof. destruct run; [done|]. apply ff_run_length. Qed.

Definition runs (n : nat) : Z := (Z.of_nat n + 255) / 256.

(** Two bytes for each 256 groups, and two for the padding of the last. *)
Lemma packed_bound last k l : length last = 8%nat -> count last <= k -> forall run, Forall (fun seg => length seg = 8%nat) (run ++ l) -> (length run < 256)%nat ->
  Z.of_nat (length (packed run (l ++ [last]))) <= 8 * Z.of_nat (length run + length l) + k + 2 * runs (length run + length l + 1) + 2.
Proof.
  intros Hlast Hk. pose proof (count_le last) as Hc0. unfold runs. induction l as [|seg l IH]; intros run H8 Hrun; cbn [app packed length].
  - rewrite app_nil_r in H8. pose proof (end_run_length _ H8) as Her. rewrite Nat.add_0_r.
    assert (Forall (fun seg => length seg = 8%nat) (run ++ [last])) as H8' by (apply Forall_app; split; [done | by constructor]).
    pose proof (ff_run_length _ H8') as Hff. rewrite length_app in Hff. cbn [length] in Hff. cbn [end_run]. rewrite ?app_nil_r.
    assert (copied (length run) last = true -> 6 <= k) as Hcop by (intros H; apply copied_count in H; lia). destruct (copied _ _) eqn:Ec.
    + specialize (Hcop eq_refl). destruct (_ =? 256)%nat; [|rewrite end_run_ne by (by destruct run)]; Z.div_mod_to_equations; lia.
    + rewrite length_app. cbn [length app end_run]. rewrite ?app_nil_r. assert (run_room run <= 2 + 8 * Z.of_nat (length run)) by (destruct run; cbn [run_room length]; lia).
      unfold count in *. Z.div_mod_to_equations; lia.
  - pose proof H8 as [Hr [Hseg Hl]%Forall_cons]%Forall_app. assert (Forall (fun seg => length seg = 8%nat) (run ++ [seg])) as H8' by (apply Forall_app; split; [done | by constructor]).
    pose proof (ff_run_length _ H8') as Hff. pose proof (length_app run [seg]) as Hl1. cbn [length] in Hl1. destruct (copied _ _) eqn:Ec.
    + destruct (Nat.eqb_spec (length run + 1) 256) as [E|E].
      * specialize (IH [] Hl ltac:(cbn [length]; lia)). cbn [length] in IH. rewrite length_app. Z.div_mod_to_equations; lia.
      * specialize (IH (run ++ [seg]) ltac:(by rewrite <- app_assoc) ltac:(lia)). rewrite Hl1 in IH. Z.div_mod_to_equations; lia.
    + specialize (IH [] Hl ltac:(cbn [length]; lia)). pose proof (end_run_length _ Hr) as Her. pose proof (count_le seg) as Hcs. rewrite !length_app. cbn [length] in *.
      assert (run_room run + count seg <= 8 * Z.of_nat (length run) + 7).
      { destruct (copied_false _ _ Hseg Ec) as [H1 H2]. destruct run as [|s r]; cbn [run_room length] in *; [lia|]. specialize (H2 ltac:(lia)). lia. }
      unfold count in *. rewrite length_app. Z.div_mod_to_equations; lia.
Qed.

Lemma pack_room l : l <> [] -> Z.of_nat (length (packed [] (segs (groups (Z.of_nat (length l))) l))) <= pack_maxsz (Z.of_nat (length l)).
Proof.
  intros Hl. set (sz := Z.of_nat (length l)). assert (0 < sz) by (destruct l; [done | subst sz; cbn [length]; lia]).
  destruct (groups sz) as [|n] eqn:En; [unfold groups in En; Z.div_mod_to_equations; lia|].
  assert (8 * Z.of_nat n < sz <= 8 * Z.of_nat n + 8) as Hn by (unfold groups in En; Z.div_mod_to_equations; lia).
  rewrite segs_S. set (last := pad8 _).
  assert (count last <= sz - 8 * Z.of_nat n) as Hk.
  { unfold last, pad8, count. rewrite nonzero_app, length_app, nonzero_zeros. pose proof (count_le (take 8 (drop (8 * n) l))) as Hc. unfold count in Hc.
    rewrite length_take, length_drop in Hc. cbn [length]. lia. }
  assert (length last = 8%nat) as H8 by (apply pad8_length; rewrite length_take; lia).
  pose proof (packed_bound last (sz - 8 * Z.of_nat n) (segs n l) H8 Hk [] (segs_length8 n l) ltac:(cbn [length]; lia)) as Hb.
  rewrite segs_length in Hb. cbn [length] in Hb. unfold pack_maxsz, runs in *. Z.div_mod_to_equations; lia.
Qed.

(** ** The buffers of the functions called from Lua *)

Lemma expand_loop_ok fuel : forall osz nsz, 0 < osz < nsz -> nsz <= 2 ^ 23 -> nsz <= osz * 2 ^ Z.of_nat (S fuel) ->
  exists r, expand_loop fuel osz nsz = Ok r /\ nsz <= r <= 2 ^ 24.
Proof.
  induction fuel as [|fuel IH]; intros osz nsz Ho Hn Hf; cbn [expand_loop]; rewrite int_Ok by (unfold INT_MAX; lia).
  - change (2 ^ Z.of_nat 1) with 2 in Hf. destruct (Z.ltb_spec (osz * 2) nsz); [lia|]. eexists. split; [done|]. lia.
  - destruct (Z.ltb_spec (osz * 2) nsz); [|eexists; split; [done|]; lia]. apply IH; [lia | done |]. rewrite Nat2Z.inj_succ, Z.pow_succ_r in Hf by lia. lia.
Qed.

Lemma expand_buffer_ok osz nsz : 0 < osz < nsz -> nsz <= 2 ^ 23 -> exists r, expand_buffer osz nsz = Ok r /\ nsz <= r.
Proof.
  intros Ho Hn. destruct (expand_loop_ok 31 osz nsz Ho Hn) as (r & E & Hr1 & Hr2); [change (2 ^ Z.of_nat 32) with (2 ^ 32); lia|].
  unfold expand_buffer, ENCODE_MAXSIZE. rewrite E. destruct (Z.ltb_spec 0x1000000 r); [lia|]. by exists r.
Qed.

(** A source whose last group is whole, too short to be copied, or not the 256th. *)
Definition packable (src : list Z) : Prop := (length src <= 2040)%nat \/ (length src mod 8 <> 6 /\ length src mod 8 <> 7)%nat.

Lemma packable_groups src : packable src -> whole_groups src.
Proof.
  intros Hp j Hj Hjs Hc. destruct (le_lt_dec (8 * S j) (length src)) as [|Hlt]; [done|]. exfalso. destruct Hp as [Hp|Hp]; [lia|].
  assert (6 <= count (group src j)) as H6 by (by eapply copied_count).
  unfold group, pad8, count in H6. rewrite nonzero_app, length_app, nonzero_zeros in H6.
  pose proof (count_le (take 8 (drop (8 * j) src))) as Hk. unfold count in Hk. rewrite length_take, length_drop in Hk. cbn [length] in H6.
  assert (length src = 8 * j + 6 \/ length src = 8 * j + 7)%nat as [E|E] by lia; rewrite E in Hp; rewrite Nat.mul_comm, (Nat.add_comm (j * 8)), Nat.Div0.mod_add in Hp; cbn in Hp; lia.
Qed.

Lemma pack_maxsz_le n : n <= 8 * 10 ^ 6 -> 0 <= n -> 2 <= pack_maxsz n <= 2 ^ 23.
Proof. intros. unfold pack_maxsz. Z.div_mod_to_equations. lia. Qed.

(** What [lpack] returns. *)
Definition packed_form (src : list Z) : list Z := packed [] (segs (groups (Z.of_nat (length src))) src).

Lemma lpack_spec output src : (0 < length output)%nat -> Z.of_nat (length src) <= 8 * 10 ^ 6 -> packable src ->
  exists output', lpack output src = Ok (packed_form src, output') /\ (length output <= length output')%nat.
Proof.
  intros Ho Hsz Hp. pose proof (pack_maxsz_le _ Hsz ltac:(lia)) as Hm. unfold lpack. set (maxsz := pack_maxsz _) in *.
  assert (Z.of_nat (length (packed_form src)) <= maxsz) as Hr.
  { destruct src as [|b src]; [change (packed_form []) with (@nil Z); cbn [length]; lia|]. by apply pack_room. }
  assert (exists out1, (if Z.of_nat (length output) <? maxsz then let* n := expand_buffer (Z.of_nat (length output)) (i32 maxsz) in Ok (malloc n) else Ok output) = Ok out1 /\
    maxsz <= Z.of_nat (length out1) /\ (length output <= length out1)%nat) as (out1 & E & H1 & H2).
  { destruct (Z.ltb_spec (Z.of_nat (length output)) maxsz); [|by exists output].
    rewrite i32_small by lia. destruct (expand_buffer_ok (Z.of_nat (length output)) maxsz) as (r & E & Hr'); [lia..|]. rewrite E.
    exists (malloc r). split; [done|]. unfold malloc. rewrite length_replicate. lia. }
  rewrite E. destruct (sproto_pack_spec src (take (Z.to_nat maxsz) out1) (packable_groups _ Hp)) as (rest & Es & Hl); [fold (packed_form src); rewrite length_take; lia|].
  fold (packed_form src) in Es, Hl. rewrite Es. cbn [lift]. destruct (Z.ltb_spec maxsz (Z.of_nat (length (packed_form src)))); [lia|].
  rewrite Nat2Z.id. rewrite <- app_assoc, take_app_length. eexists. split; [done|]. rewrite app_assoc, length_app, Hl, length_take, length_drop. lia.
Qed.

(** The source again, filled up with zeros. *)
Definition padded (src : list Z) : list Z := src ++ replicate (8 * groups (Z.of_nat (length src)) - length src) 0.

Lemma lunpack_spec output src : (0 < length output)%nat -> Z.of_nat (length src) <= 8 * 10 ^ 6 ->
  exists output', lunpack output (packed_form src) = Ok (padded src, output').
Proof.
  intros Ho Hsz. set (N := groups (Z.of_nat (length src))) in *. assert (Z.of_nat (length src) <= 8 * Z.of_nat N < Z.of_nat (length src) + 8) as HN.
  { subst N. unfold groups. Z.div_mod_to_equations. lia. }
  assert (concat (segs N src) = padded src) as Ec by (apply concat_segs; lia).
  assert (Z.of_nat (length (padded src)) = 8 * Z.of_nat N) as Hpl by (unfold padded; fold N; rewrite length_app, length_replicate; lia).
  unfold lunpack, packed_form. fold N. destruct (sproto_unpack_spec (segs N src) output (segs_length8 _ _)) as (b1 & E1 & Hl1 & Hd1). rewrite E1. rewrite Ec in *. cbn [lift].
  destruct (Z.ltb_spec (Z.of_nat (length (padded src))) 0); [lia|]. destruct (Z.ltb_spec (Z.of_nat (length output)) (Z.of_nat (length (padded src)))).
  - destruct (expand_buffer_ok (Z.of_nat (length output)) (Z.of_nat (length (padded src)))) as (r & E & Hr); [lia..|]. rewrite E.
    destruct (sproto_unpack_spec (segs N src) (take (Z.to_nat (Z.of_nat (length (padded src)))) (malloc r)) (segs_length8 _ _)) as (b2 & E2 & Hl2 & Hd2).
    rewrite E2, Ec in *. cbn [lift]. destruct (Z.ltb_spec (Z.of_nat (length (padded src))) 0); [lia|]. eexists. rewrite Nat2Z.id in *. rewrite Hd2; [done|].
    rewrite length_take. unfold malloc. rewrite length_replicate. lia.
  - eexists. rewrite Nat2Z.id. rewrite Hd1 by lia. done.
Qed.



(** The 256th group of a run is read whole even when the source ends within it. *)
Example pack_overrun : sproto_pack (replicate 2046 1) (malloc 2100) = None.
Proof. vm_compute. reflexivity. Qed.

(** A packed string that ends behind a header makes [sproto_unpack] read the byte behind its end. *)
Example unpack_overrun : sproto_unpack [1] (malloc 16) = None.
Proof. vm_compute. reflexivity. Qed.

(** A stream cut within a run is refused. *)
Example unpack_invalid : sproto_unpack [0xff; 0; 1; 2; 3] (malloc 16) = Some (-1, malloc 16).
Proof. vm_compute. reflexivity. Qed.
