(* ===== verification/Sproto.v ===== *)
(** * Schemas of sproto ([lualib-src/sproto/sproto.c])

    A bundle describes types and protocols; [sproto_create] imports it.  A bundle is the exact array of its bytes and pointers into it are offsets: reading
    outside fails ([None]).  A function that may return NULL gives [Some None] for it.  [malloc] is taken to succeed; the
    pool of the allocations is not modelled, what they hold is part of the records. *)

From S2P Require Import Prelude CString.

Notation "'let?' p ':=' m 'in' k" :=
  (match m with Some (Some p) => k | Some None => Some None | None => None end)
  (at level 100, p pattern, m at level 200, k at level 200, right associativity) : c_scope.

Definition SPROTO_TARRAY : Z := 0x80.
Definition SIZEOF_LENGTH : Z := 4.
Definition SIZEOF_HEADER : Z := 2.
Definition SIZEOF_FIELD : Z := 2.
Definition SPROTO_REQUEST : Z := 0.
Definition SPROTO_RESPONSE : Z := 1.
Definition SPROTO_TINTEGER : Z := 0.
Definition SPROTO_TBOOLEAN : Z := 1.
Definition SPROTO_TSTRING : Z := 2.
Definition SPROTO_TSTRUCT : Z := 3.
Definition SPROTO_CB_ERROR : Z := -1.
Definition SPROTO_CB_NIL : Z := -2.
Definition SPROTO_CB_NOARRAY : Z := -3.

(** ** Data

    A pointer to a type is its index in the array of types; a name is the bytes before its NUL. *)
Record field := MkField {
  f_tag : Z;
  f_type : Z;
  f_name : option (list Z);
  f_st : option Z;
  f_key : Z;
}.

Record sproto_type := MkType {
  t_name : list Z;
  t_base : Z;
  t_maxn : Z;
  t_f : list field;
}.

Definition t_n (t : sproto_type) : Z := Z.of_nat (length (t_f t)).

Record protocol := MkProtocol {
  p_name : option (list Z);
  p_tag : Z;
  p_request : option Z;
  p_response : option Z;
}.

Record sproto := MkSproto {
  s_type : list sproto_type;
  s_proto : list protocol;
}.

(** ** Reading the bundle *)

Definition toword (data : list Z) (p : Z) : option Z :=
  let! p0 := aget data p in
  let! p1 := aget data (p + 1) in
  Some (Z.lor p0 (Z.shiftl p1 8)).

Definition todword (data : list Z) (p : Z) : option Z :=
  let! p0 := aget data p in
  let! p1 := aget data (p + 1) in
  let! p2 := aget data (p + 2) in
  let! p3 := aget data (p + 3) in
  Some (u32 (Z.lor (Z.lor (Z.lor p0 (Z.shiftl p1 8)) (Z.shiftl p2 16)) (Z.shiftl p3 24))).

(** Each pass moves the pointer by [nsz], which stays in the data, so [length data] passes are enough; but an element of size 2^32-4 gives
    [nsz = 0], and the code loops for ever where the model runs out of fuel. *)
Fixpoint count_loop (fuel : nat) (data : list Z) (stream length n : Z) : option Z :=
  if 0 <? length then
    if length <? SIZEOF_LENGTH then Some (-1) else
    let! nsz := todword data stream in
    let nsz := u32 (nsz + SIZEOF_LENGTH) in
    if length <? nsz then Some (-1) else
    match fuel with
    | O => None
    | S fuel => count_loop fuel data (stream + nsz) (length - nsz) (n + 1)
    end
  else Some n.

Definition count_array (data : list Z) (stream : Z) : option Z :=
  let! length := todword data stream in
  count_loop (List.length data) data (stream + SIZEOF_LENGTH) length 0.

(** The data of the fields that have any; [None] inside stands for -1. *)
Definition struct_field_body (data : list Z) (field : Z) (i : Z) (st : option (Z * Z)) : option (option (Z * Z)) :=
  match st with
  | None => Some None
  | Some (stream, sz) =>
      let! value := toword data (field + i * SIZEOF_FIELD) in
      if negb (value =? 0) then Some st else
      if sz <? SIZEOF_LENGTH then Some None else
      let! dsz := todword data stream in
      if sz <? u32 (SIZEOF_LENGTH + dsz) then Some None else
      Some (Some (stream + u32 (SIZEOF_LENGTH + dsz), sz - u32 (SIZEOF_LENGTH + dsz)))
  end.

Definition struct_field (data : list Z) (stream sz : Z) : option Z :=
  if sz <? SIZEOF_LENGTH then Some (-1) else
  let! fn := toword data stream in
  let header := SIZEOF_HEADER + SIZEOF_FIELD * fn in
  if sz <? header then Some (-1) else
  let! r := for_loop (Z.to_nat fn) 0 (struct_field_body data (stream + SIZEOF_HEADER)) (Some (stream + header, sz - header)) in
  Some (match r with None => -1 | Some _ => fn end).

(** The copy has a NUL behind it; its users see the bytes before the first NUL. *)
Definition import_string (data : list Z) (stream : Z) : option (list Z) :=
  let! sz := todword data stream in
  let! buffer := memcpy data (stream + SIZEOF_LENGTH) sz in
  until_nul (buffer ++ [0]).

(** ** Import *)

(** The fields of a field's description; [array] is 0 or [SPROTO_TARRAY]. *)
Record importing := MkImporting { i_f : field; i_tag : Z; i_array : Z }.

Definition set_name (f : field) (name : list Z) : field := MkField (f_tag f) (f_type f) (Some name) (f_st f) (f_key f).
Definition set_type (f : field) (type : Z) (st : option Z) : field := MkField (f_tag f) type (f_name f) st (f_key f).
Definition set_tag (f : field) (tag : Z) : field := MkField tag (f_type f) (f_name f) (f_st f) (f_key f).
Definition set_key (f : field) (key : Z) : field := MkField (f_tag f) (f_type f) (f_name f) (f_st f) key.

Definition import_field_body (type_n : Z) (data : list Z) (stream fn i : Z) (st : option importing) : option (option importing) :=
  match st with
  | None => Some None
  | Some (MkImporting f tag array) =>
      let tag := tag + 1 in
      let! value := toword data (stream + SIZEOF_FIELD * i) in
      if negb (Z.land value 1 =? 0) then Some (Some (MkImporting f (tag + value / 2) array)) else
      if tag =? 0 then
        if negb (value =? 0) then Some None else
        let! name := import_string data (stream + fn * SIZEOF_FIELD) in
        Some (Some (MkImporting (set_name f name) tag array))
      else if value =? 0 then Some None else
      let value := value / 2 - 1 in
      if tag =? 1 then
        if SPROTO_TSTRUCT <=? value then Some None else Some (Some (MkImporting (set_type f value (f_st f)) tag array))
      else if tag =? 2 then
        if type_n <=? value then Some None else
        if 0 <=? f_type f then Some None else Some (Some (MkImporting (set_type f SPROTO_TSTRUCT (Some value)) tag array))
      else if tag =? 3 then Some (Some (MkImporting (set_tag f value) tag array))
      else if tag =? 4 then Some (Some (MkImporting f tag (if negb (value =? 0) then SPROTO_TARRAY else array)))
      else if tag =? 5 then Some (Some (MkImporting (set_key f value) tag array))
      else Some None
  end.

(** The field and the pointer behind it. *)
Definition import_field (type_n : Z) (data : list Z) (stream : Z) : option (option (field * Z)) :=
  let! sz := todword data stream in
  let stream := stream + SIZEOF_LENGTH in
  let result := stream + sz in
  let! fn := struct_field data stream sz in
  if fn <? 0 then Some None else
  let stream := stream + SIZEOF_HEADER in
  let? st := for_loop (Z.to_nat fn) 0 (import_field_body type_n data stream fn) (Some (MkImporting (MkField (-1) (-1) None None (-1)) (-1) 0)) in
  let f := i_f st in
  if (f_tag f <? 0) || (f_type f <? 0) || bool_decide (f_name f = None) then Some None else
  Some (Some (set_type f (Z.lor (f_type f) (i_array st)) (f_st f), result)).

(** The fields read so far, [maxn], [last] and the pointer. *)
Definition import_fields_body (type_n : Z) (data : list Z) (_ : Z) (st : option (list field * Z * Z * Z)) : option (option (list field * Z * Z * Z)) :=
  match st with
  | None => Some None
  | Some (fs, maxn, last, stream) =>
      let? (f, stream) := import_field type_n data stream in
      let tag := f_tag f in
      if tag <=? last then Some None else
      let maxn := if last + 1 <? tag then maxn + 1 else maxn in
      Some (Some (fs ++ [f], maxn, tag, stream))
  end.

(** The slots of the header must all be 0. *)
Definition zero_slots (data : list Z) (stream fn : Z) : option bool :=
  for_loop (Z.to_nat fn) 0 (fun i ok => let! v := toword data (stream + SIZEOF_HEADER + i * SIZEOF_FIELD) in Some (ok && (v =? 0))) true.

Definition import_type (type_n : Z) (data : list Z) (stream : Z) : option (option (sproto_type * Z)) :=
  let! sz := todword data stream in
  let stream := stream + SIZEOF_LENGTH in
  let result := stream + sz in
  let! fn := struct_field data stream sz in
  if (fn <=? 0) || (2 <? fn) then Some None else
  let! zeros := zero_slots data stream fn in
  if negb zeros then Some None else
  let stream := stream + SIZEOF_HEADER + fn * SIZEOF_FIELD in
  let! name := import_string data stream in
  if fn =? 1 then Some (Some (MkType name 0 0 [], result)) else
  let! dsz := todword data stream in
  let stream := stream + u32 (dsz + SIZEOF_LENGTH) in
  let! n := count_array data stream in
  if n <? 0 then Some None else
  let stream := stream + SIZEOF_LENGTH in
  let? (fs, maxn, _, _) := for_loop (Z.to_nat n) 0 (import_fields_body type_n data) (Some ([], n, -1, stream)) in
  let! f0 := aget fs 0 in
  let! fl := aget fs (n - 1) in
  let base := f_tag f0 in
  let n' := f_tag fl - base + 1 in
  Some (Some (MkType name (if negb (n' =? n) then -1 else base) maxn fs, result)).

Definition import_protocol_body (type_n : Z) (data : list Z) (stream fn i : Z) (st : option protocol) : option (option protocol) :=
  match st with
  | None => Some None
  | Some p =>
      let! value := toword data (stream + SIZEOF_FIELD * i) in
      if negb (Z.land value 1 =? 0) then Some st else
      let value := value / 2 - 1 in
      if i =? 0 then
        if negb (value =? -1) then Some None else
        let! name := import_string data (stream + SIZEOF_FIELD * fn) in
        Some (Some (MkProtocol (Some name) (p_tag p) (p_request p) (p_response p)))
      else if i =? 1 then
        if value <? 0 then Some None else Some (Some (MkProtocol (p_name p) value (p_request p) (p_response p)))
      else if i =? 2 then
        if (value <? 0) || (type_n <=? value) then Some None else Some (Some (MkProtocol (p_name p) (p_tag p) (Some value) (p_response p)))
      else if i =? 3 then
        if (value <? 0) || (type_n <=? value) then Some None else Some (Some (MkProtocol (p_name p) (p_tag p) (p_request p) (Some value)))
      else Some None
  end.

Definition import_protocol (type_n : Z) (data : list Z) (stream : Z) : option (option (protocol * Z)) :=
  let! sz := todword data stream in
  let stream := stream + SIZEOF_LENGTH in
  let result := stream + sz in
  let! fn := struct_field data stream sz in
  let stream := stream + SIZEOF_HEADER in
  let? p := for_loop (Z.to_nat fn) 0 (import_protocol_body type_n data stream fn) (Some (MkProtocol None (-1) None None)) in
  if bool_decide (p_name p = None) || (p_tag p <? 0) then Some None else Some (Some (p, result)).

(** [n] elements one behind the other. *)
Fixpoint import_all {A} (n : nat) (import : Z -> option (option (A * Z))) (stream : Z) : option (option (list A)) :=
  match n with
  | O => Some (Some [])
  | S n => let? (x, stream) := import stream in let? l := import_all n import stream in Some (Some (x :: l))
  end.

(** The two arrays of the bundle: their pointers and lengths. *)
Definition bundle_body (data : list Z) (stream i : Z) (st : option (Z * list (Z * Z))) : option (option (Z * list (Z * Z))) :=
  match st with
  | None => Some None
  | Some (content, arrays) =>
      let! value := toword data (stream + i * SIZEOF_FIELD) in
      if negb (value =? 0) then Some None else
      let! n := count_array data content in
      if n <? 0 then Some None else
      let! dsz := todword data content in
      Some (Some (content + u32 (dsz + SIZEOF_LENGTH), arrays ++ [(content + SIZEOF_LENGTH, n)]))
  end.

Definition create_from_bundle (data : list Z) : option (option sproto) :=
  let! fn := struct_field data 0 (Z.of_nat (length data)) in
  if (fn <? 0) || (2 <? fn) then Some None else
  let? (_, arrays) := for_loop (Z.to_nat fn) 0 (bundle_body data SIZEOF_HEADER) (Some (SIZEOF_HEADER + fn * SIZEOF_FIELD, [])) in
  let '(typedata, type_n) := default (0, 0) (arrays !! 0%nat) in
  let '(protocoldata, protocol_n) := default (0, 0) (arrays !! 1%nat) in
  let? types := import_all (Z.to_nat type_n) (import_type type_n data) typedata in
  let? protos := import_all (Z.to_nat protocol_n) (import_protocol type_n data) protocoldata in
  Some (Some (MkSproto types protos)).

Definition sproto_create (proto : list Z) : option (option sproto) := create_from_bundle proto.

(** ** Queries *)

(** [strcmp(name, p->name) == 0] on names without NUL. *)
Definition sproto_prototag (sp : sproto) (name : list Z) : Z :=
  match list_find (fun p => p_name p = Some name) (s_proto sp) with Some (_, p) => p_tag p | None => -1 end.

(** Binary search: [Some None] when nothing is found. *)
Fixpoint tag_search {A} (tag_of : A -> Z) (fuel : nat) (l : list A) (tag begin end_ : Z) : option (option A) :=
  if begin <? end_ then
    match fuel with
    | O => None
    | S fuel =>
        let mid := (begin + end_) / 2 in
        let! x := aget l mid in
        let t := tag_of x in
        if t =? tag then Some (Some x)
        else if t <? tag then tag_search tag_of fuel l tag (mid + 1) end_
        else tag_search tag_of fuel l tag begin mid
    end
  else Some None.

Definition query_proto (sp : sproto) (tag : Z) : option (option protocol) :=
  tag_search p_tag (length (s_proto sp)) (s_proto sp) tag 0 (Z.of_nat (length (s_proto sp))).

Definition sproto_protoquery (sp : sproto) (proto what : Z) : option (option Z) :=
  if (what <? 0) || (1 <? what) then Some None else
  let? p := query_proto sp proto in
  Some (if what =? SPROTO_REQUEST then p_request p else p_response p).

Definition sproto_protoname (sp : sproto) (proto : Z) : option (option (list Z)) :=
  let? p := query_proto sp proto in Some (p_name p).

(** The index of the first type with the name. *)
Definition sproto_type_query (sp : sproto) (type_name : list Z) : option Z :=
  match list_find (fun t => t_name t = type_name) (s_type sp) with Some (i, _) => Some (Z.of_nat i) | None => None end.

Definition findtag (st : sproto_type) (tag : Z) : option (option field) :=
  if 0 <=? t_base st then
    let tag := tag - t_base st in
    if (tag <? 0) || (t_n st <=? tag) then Some None else let! f := aget (t_f st) tag in Some (Some f)
  else tag_search f_tag (length (t_f st)) (t_f st) tag 0 (t_n st).
