(* ===== verification/SprotoCode.v ===== *)
(** * Encoding and decoding with a schema ([lualib-src/sproto/sproto.c])

    The values are behind callbacks, which are arguments here.  [sproto_encode] gets the buffer it may write; a callback that is to
    write a value gets the [a_length] bytes at the value pointer and gives them back.  [sproto_decode] reads a memory [mem], in which
    messages are offsets and sizes: a read outside [mem] is [Stuck], a wrong size that stays inside is not. *)

From S2P Require Import Prelude CString LuaError Sproto.

(** [struct sproto_arg] without the value pointer, which differs for the two directions. *)
Record sproto_arg := MkArg {
  a_tagname : list Z;
  a_tagid : Z;
  a_type : Z;
  a_subtype : option Z;
  a_index : Z;
  a_mainindex : Z;
}.

Definition set_index (a : sproto_arg) (index : Z) : sproto_arg :=
  MkArg (a_tagname a) (a_tagid a) (a_type a) (a_subtype a) index (a_mainindex a).

Definition dword_bytes (v : Z) : list Z :=
  [Z.land v 0xff; Z.land (Z.shiftr v 8) 0xff; Z.land (Z.shiftr v 16) 0xff; Z.land (Z.shiftr v 24) 0xff].
Definition word_bytes (v : Z) : list Z := [Z.land v 0xff; Z.land (Z.shiftr v 8) 0xff].

(** ** Encoding *)

Section Encode.
Context {UD : Type}.

(** The callback gets the user data and the bytes at the value pointer; its result, the bytes and the user data after the call. *)
Definition callback : Type := sproto_arg -> UD -> list Z -> res (Z * list Z * UD).
Variable cb : callback.

(** [args->value = data + off; args->length = len; cb(args)]. *)
Definition call_at (arg : sproto_arg) (ud : UD) (buf : list Z) (off len : Z) : res (Z * list Z * UD) :=
  let* region := lift (memcpy buf off len) in
  let* (sz, region, ud) := cb arg ud region in
  let* buf := lift (memcpy_at buf off region) in
  Ok (sz, buf, ud).

(** The same with a local variable of [n] bytes as the value. *)
Definition call_local (arg : sproto_arg) (ud : UD) (n : Z) : res (Z * list Z * UD) := cb arg ud (malloc n).

(** The unsigned value of the first [n] bytes. *)
Fixpoint le_word (l : list Z) : Z := match l with [] => 0 | b :: l => b + 2 ^ 8 * le_word l end.
Definition local_word (u : list Z) (n : nat) : Z := le_word (take n u).

Definition fill_size (buf : list Z) (data sz : Z) : option (Z * list Z) :=
  let! buf := memcpy_at buf data (dword_bytes sz) in Some (sz + SIZEOF_LENGTH, buf).

Definition encode_integer (v : Z) (buf : list Z) (data size : Z) : option (Z * list Z) :=
  if size <? SIZEOF_LENGTH + 4 then Some (-1, buf) else
  let! buf := memcpy_at buf (data + 4) (dword_bytes v) in
  fill_size buf data 4.

Definition encode_uint64 (v : Z) (buf : list Z) (data size : Z) : option (Z * list Z) :=
  if size <? SIZEOF_LENGTH + 8 then Some (-1, buf) else
  let! buf := memcpy_at buf (data + 4) (dword_bytes v ++ dword_bytes (Z.shiftr v 32)) in
  fill_size buf data 8.

Definition encode_object (arg : sproto_arg) (ud : UD) (buf : list Z) (data size : Z) : res (Z * list Z * UD) :=
  if size <? SIZEOF_LENGTH then Ok (-1, buf, ud) else
  let* (sz, buf, ud) := call_at arg ud buf (data + SIZEOF_LENGTH) (size - SIZEOF_LENGTH) in
  if sz <? 0 then Ok (if sz =? SPROTO_CB_NIL then 0 else -1, buf, ud) else
  let* _ := lift (assert! (sz <=? size - SIZEOF_LENGTH) ;; Some tt) in
  let* (r, buf) := lift (fill_size buf data sz) in
  Ok (r, buf, ud).

Definition uint32_to_uint64 (negative : bool) (buf : list Z) (buffer : Z) : option (list Z) :=
  memcpy_at buf (buffer + 4) (replicate 4 (if negative then 0xff else 0)).

(** Element [i], [i - 1], ..., 0 ([n = i + 1]) is moved to its place among eight-byte elements. *)
Fixpoint rearrange (n : nat) (i : Z) (buf : list Z) (header : Z) : option (list Z) :=
  match n with
  | O => Some buf
  | S n =>
      let! v := memcpy buf (header + 1 + i * 4) 4 in
      let! buf := memcpy_at buf (header + 1 + i * 8) v in
      let! b := aget buf (header + 1 + i * 8 + 3) in
      let! buf := uint32_to_uint64 (negb (Z.land b 0x80 =? 0)) buf (header + 1 + i * 8) in
      rearrange n (i - 1) buf header
  end.

(** The locals of [encode_integer_array]. *)
Record iarray := MkIarray { ia_buf : list Z; ia_ud : UD; ia_buffer : Z; ia_size : Z; ia_intlen : Z; ia_index : Z }.

(** Comparisons with a [sizeof] are unsigned: a negative [size] is large. *)
Definition less_unsigned (size n : Z) : bool := u64 size <? n.

(** A value that the callback has put into [u], of [sz] bytes; [None] inside is a return of NULL. *)
Definition put_integer (header sz : Z) (u : list Z) (st : iarray) : option (option iarray) :=
  let '(MkIarray buf ud buffer size intlen index) := st in
  if less_unsigned size 8 then Some None else
  if sz =? 4 then
    let v := local_word u 4 in
    let! buf := memcpy_at buf buffer (dword_bytes v) in
    let! buf := if intlen =? 8 then uint32_to_uint64 (negb (Z.land v 0x80000000 =? 0)) buf buffer else Some buf in
    Some (Some (MkIarray buf ud (buffer + intlen) (size - intlen) intlen (index + 1)))
  else if negb (sz =? 8) then Some None else
    let! st :=
      if intlen =? 4 then
        let size := size - (index - 1) * 4 in
        if less_unsigned size 8 then Some None else
        let! buf := rearrange (Z.to_nat (index - 1)) (index - 2) buf header in
        Some (Some (MkIarray buf ud (buffer + (index - 1) * 4) size 8 index))
      else Some (Some st) in
    match st with
    | None => Some None
    | Some (MkIarray buf ud buffer size intlen index) =>
        let v := local_word u 8 in
        let! buf := memcpy_at buf buffer (dword_bytes v ++ dword_bytes (Z.shiftr v 32)) in
        Some (Some (MkIarray buf ud (buffer + intlen) (size - intlen) intlen (index + 1)))
    end.

(** The result is NULL, or the state at the end of the array and [noarray]. *)
Fixpoint integer_loop (fuel : nat) (arg : sproto_arg) (header : Z) (st : iarray) : res (option (iarray * bool)) :=
  match fuel with
  | O => Stuck
  | S fuel =>
      let* (sz, u, ud) := call_local (set_index arg (ia_index st)) (ia_ud st) 8 in
      let st := MkIarray (ia_buf st) ud (ia_buffer st) (ia_size st) (ia_intlen st) (ia_index st) in
      if sz <=? 0 then
        if sz =? SPROTO_CB_NIL then Ok (Some (st, false))
        else if sz =? SPROTO_CB_NOARRAY then Ok (Some (st, true))
        else Ok None
      else
        let* r := lift (put_integer header sz u st) in
        match r with None => Ok None | Some st => integer_loop fuel arg header st end
  end.

(** The end of the data, the buffer and [noarray]; [None] is NULL.  Each element moves the pointer. *)
Definition encode_integer_array (arg : sproto_arg) (ud : UD) (buf : list Z) (buffer size : Z) : res (option (Z * bool * list Z * UD)) :=
  let header := buffer in
  if size <? 1 then Ok None else
  let* r := integer_loop (S (length buf)) arg header (MkIarray buf ud (buffer + 1) (size - 1) 4 1) in
  match r with
  | None => Ok None
  | Some (st, noarray) =>
      if ia_buffer st =? header + 1 then Ok (Some (header, noarray, ia_buf st, ia_ud st)) else
      let* buf := lift (aset (ia_buf st) header (u8 (ia_intlen st))) in
      Ok (Some (ia_buffer st, noarray, buf, ia_ud st))
  end.

(** How an array loop ends: with a value for [encode_array] to return, or at an end pointer. *)
Inductive array_end := Return (r : Z) | EndAt (buffer : Z).

Fixpoint boolean_loop (fuel : nat) (arg : sproto_arg) (index : Z) (ud : UD) (buf : list Z) (buffer size : Z) : res (array_end * list Z * UD) :=
  match fuel with
  | O => Stuck
  | S fuel =>
      let* (sz, v, ud) := call_local (set_index arg index) ud 4 in
      if sz <? 0 then
        Ok (if sz =? SPROTO_CB_NIL then EndAt buffer else if sz =? SPROTO_CB_NOARRAY then Return 0 else Return (-1), buf, ud)
      else if size <? 1 then Ok (Return (-1), buf, ud)
      else
        let* buf := lift (aset buf buffer (if local_word v 4 =? 0 then 0 else 1)) in
        boolean_loop fuel arg (index + 1) ud buf (buffer + 1) (size - 1)
  end.

Fixpoint object_loop (fuel : nat) (arg : sproto_arg) (index : Z) (ud : UD) (buf : list Z) (buffer size : Z) : res (array_end * list Z * UD) :=
  match fuel with
  | O => Stuck
  | S fuel =>
      if size <? SIZEOF_LENGTH then Ok (Return (-1), buf, ud) else
      let size := size - SIZEOF_LENGTH in
      let* (sz, buf, ud) := call_at (set_index arg index) ud buf (buffer + SIZEOF_LENGTH) size in
      if sz <? 0 then
        Ok (if sz =? SPROTO_CB_NIL then EndAt buffer else if sz =? SPROTO_CB_NOARRAY then Return 0 else Return (-1), buf, ud)
      else
        let* (_, buf) := lift (fill_size buf buffer sz) in
        object_loop fuel arg (index + 1) ud buf (buffer + SIZEOF_LENGTH + sz) (size - sz)
  end.

Definition encode_array (arg : sproto_arg) (ud : UD) (buf : list Z) (data size : Z) : res (Z * list Z * UD) :=
  if size <? SIZEOF_LENGTH then Ok (-1, buf, ud) else
  let size := size - SIZEOF_LENGTH in
  let buffer := data + SIZEOF_LENGTH in
  let* (e, buf, ud) :=
    if a_type arg =? SPROTO_TINTEGER then
      let* r := encode_integer_array arg ud buf buffer size in
      Ok match r with
         | None => (Return (-1), buf, ud)
         | Some (buffer, noarray, buf, ud) => (if noarray : bool then Return 0 else EndAt buffer, buf, ud)
         end
    else if a_type arg =? SPROTO_TBOOLEAN then boolean_loop (S (length buf)) arg 1 ud buf buffer size
    else object_loop (S (length buf)) arg 1 ud buf buffer size in
  match e with
  | Return r => Ok (r, buf, ud)
  | EndAt buffer =>
      let* (r, buf) := lift (fill_size buf data (buffer - (data + SIZEOF_LENGTH))) in
      Ok (r, buf, ud)
  end.

(** ** The fields of a message *)

(** The locals of [sproto_encode] between fields. *)
Record encoding := MkEncoding { e_buf : list Z; e_ud : UD; e_data : Z; e_size : Z; e_index : Z; e_lasttag : Z }.

(** What a field gives: a return value of [sproto_encode], nothing ([continue]), or a size and the inline value. *)
Inductive field_result := FReturn (r : Z) | FSkip | FData (sz value : Z).

Definition encode_field (f : field) (st : encoding) : res (field_result * list Z * UD) :=
  let '(MkEncoding buf ud data size _ _) := st in
  let type := f_type f in
  let arg type := MkArg (default [] (f_name f)) (f_tag f) type (f_st f) 0 (f_key f) in
  if negb (Z.land type SPROTO_TARRAY =? 0) then
    let* (sz, buf, ud) := encode_array (arg (Z.land type (Z.lnot SPROTO_TARRAY))) ud buf data size in
    Ok (FData sz 0, buf, ud)
  else if (type =? SPROTO_TINTEGER) || (type =? SPROTO_TBOOLEAN) then
    let* (sz, u, ud) := call_local (arg type) ud 8 in
    if sz <? 0 then Ok (if sz =? SPROTO_CB_NIL then FSkip else if sz =? SPROTO_CB_NOARRAY then FReturn 0 else FReturn (-1), buf, ud)
    else if sz =? 4 then
      let v := local_word u 4 in
      if v <? 0x7fff then Ok (FData 2 ((v + 1) * 2), buf, ud) else
      let* (sz, buf) := lift (encode_integer v buf data size) in Ok (FData sz 0, buf, ud)
    else if sz =? 8 then
      let* (sz, buf) := lift (encode_uint64 (local_word u 8) buf data size) in Ok (FData sz 0, buf, ud)
    else Ok (FReturn (-1), buf, ud)
  else if (type =? SPROTO_TSTRUCT) || (type =? SPROTO_TSTRING) then
    let* (sz, buf, ud) := encode_object (arg type) ud buf data size in Ok (FData sz 0, buf, ud)
  else Ok (FData (-1) 0, buf, ud).

(** The header slots of the field. *)
Definition put_record (f : field) (sz value : Z) (st : encoding) : option (option encoding) :=
  let '(MkEncoding buf ud data size index lasttag) := st in
  let '(data, size) := if value =? 0 then (data + sz, size - sz) else (data, size) in
  let record := SIZEOF_HEADER + SIZEOF_FIELD * index in
  let tag := f_tag f - lasttag - 1 in
  if 0 <? tag then
    let tag := (tag - 1) * 2 + 1 in
    if 0xffff <? tag then Some None else
    let! buf := memcpy_at buf record (word_bytes tag) in
    let! buf := memcpy_at buf (record + SIZEOF_FIELD) (word_bytes value) in
    Some (Some (MkEncoding buf ud data size (index + 2) (f_tag f)))
  else
    let! buf := memcpy_at buf record (word_bytes value) in
    Some (Some (MkEncoding buf ud data size (index + 1) (f_tag f))).

(** The loop over the fields; [inl] is an early return. *)
Fixpoint encode_fields (fs : list field) (st : encoding) : res ((Z * list Z * UD) + encoding) :=
  match fs with
  | [] => Ok (inr st)
  | f :: fs =>
      let* (r, buf, ud) := encode_field f st in
      let st := MkEncoding buf ud (e_data st) (e_size st) (e_index st) (e_lasttag st) in
      match r with
      | FReturn r => Ok (inl (r, buf, ud))
      | FSkip => encode_fields fs st
      | FData sz value =>
          if sz <? 0 then Ok (inl (-1, buf, ud)) else
          if 0 <? sz then
            let* r := lift (put_record f sz value st) in
            match r with None => Ok (inl (-1, buf, ud)) | Some st => encode_fields fs st end
          else encode_fields fs st
      end
  end.

(** [buffer] is the buffer, [size] its length. *)
Definition sproto_encode (st : sproto_type) (buffer : list Z) (ud : UD) : res (Z * list Z * UD) :=
  let size := Z.of_nat (length buffer) in
  let header_sz := SIZEOF_HEADER + t_maxn st * SIZEOF_FIELD in
  if size <? header_sz then Ok (-1, buffer, ud) else
  let* r := encode_fields (t_f st) (MkEncoding buffer ud header_sz (size - header_sz) 0 (-1)) in
  match r with
  | inl r => Ok r
  | inr (MkEncoding buf ud data _ index _) =>
      let* buf := lift (memcpy_at buf 0 (word_bytes index)) in
      let datasz := data - header_sz in
      let* buf :=
        if negb (index =? t_maxn st) then
          let* d := lift (memcpy buf header_sz datasz) in lift (memcpy_at buf (SIZEOF_HEADER + index * SIZEOF_FIELD) d)
        else Ok buf in
      Ok (SIZEOF_HEADER + index * SIZEOF_FIELD + datasz, buf, ud)
  end.
End Encode.
#[global] Arguments callback : clear implicits.
#[global] Arguments iarray : clear implicits.
#[global] Arguments encoding : clear implicits.

(** ** Decoding *)

(** The value of a callback: an integer variable, data in the memory with its length, or a null pointer. *)
Inductive dvalue := DInt (v : Z) | DData (p : Z) (length : Z) | DNull.

Definition expand64 (v : Z) : Z := if negb (Z.land v 0x80000000 =? 0) then Z.lor v (Z.shiftl (2 ^ 32 - 1) 32) else v.

Section Decode.
Context {UD : Type}.
Variable mem : list Z.

Definition dcallback : Type := sproto_arg -> dvalue -> UD -> res (Z * UD).
Variable cb : dcallback.

(** Each pass reads the length of an element. *)
Fixpoint decode_array_object (fuel : nat) (arg : sproto_arg) (stream sz index : Z) (ud : UD) : res (Z * UD) :=
  if 0 <? sz then
    match fuel with
    | O => Stuck
    | S fuel =>
        if sz <? SIZEOF_LENGTH then Ok (-1, ud) else
        let* hsz := lift (todword mem stream) in
        let stream := stream + SIZEOF_LENGTH in
        let sz := sz - SIZEOF_LENGTH in
        if u32 sz <? hsz then Ok (-1, ud) else
        let* (r, ud) := cb (set_index arg index) (DData stream hsz) ud in
        if negb (r =? 0) then Ok (-1, ud) else decode_array_object fuel arg (stream + hsz) (sz - hsz) (index + 1) ud
    end
  else Ok (0, ud).

(** The elements [i], ..., [n - 1] of an array of integers or booleans, read by [get]; each is at a place of its own, so that [length mem] passes are
    enough. *)
Fixpoint decode_array_ints (fuel : nat) (arg : sproto_arg) (get : Z -> option Z) (i n : Z) (ud : UD) : res UD :=
  if i <? n then
    match fuel with
    | O => Stuck
    | S fuel =>
        let* value := lift (get i) in
        let* (_, ud) := cb (set_index arg (i + 1)) (DInt value) ud in
        decode_array_ints fuel arg get (i + 1) n ud
    end
  else Ok ud.

Definition get_word32 (stream i : Z) : option Z := let! v := todword mem (stream + i * 4) in Some (expand64 v).
Definition get_word64 (stream i : Z) : option Z :=
  let! low := todword mem (stream + i * 8) in
  let! hi := todword mem (stream + i * 8 + 4) in
  Some (Z.lor low (Z.shiftl hi 32)).

Definition decode_array (arg : sproto_arg) (stream : Z) (ud : UD) : res (Z * UD) :=
  let* sz := lift (todword mem stream) in
  if sz =? 0 then let* (_, ud) := cb (set_index arg (-1)) DNull ud in Ok (0, ud) else
  let stream := stream + SIZEOF_LENGTH in
  let ints get n := let* ud := decode_array_ints (length mem) arg get 0 n ud in Ok (0, ud) in
  if a_type arg =? SPROTO_TINTEGER then
    let* len := lift (aget mem stream) in
    let stream := stream + 1 in
    let sz := sz - 1 in
    if len =? 4 then if negb (sz mod 4 =? 0) then Ok (-1, ud) else ints (get_word32 stream) (sz / 4)
    else if len =? 8 then if negb (sz mod 8 =? 0) then Ok (-1, ud) else ints (get_word64 stream) (sz / 8)
    else Ok (-1, ud)
  else if a_type arg =? SPROTO_TBOOLEAN then ints (fun i => aget mem (stream + i)) sz
  else if (a_type arg =? SPROTO_TSTRING) || (a_type arg =? SPROTO_TSTRUCT) then decode_array_object (length mem) arg stream (i32 sz) 1 ud
  else Ok (-1, ud).

(** A field whose value is in the data part at [currentdata]; [Some r] is a return of -1. *)
Definition decode_data (f : field) (arg : sproto_arg) (currentdata : Z) (ud : UD) : res (Z * UD) :=
  if negb (Z.land (f_type f) SPROTO_TARRAY =? 0) then
    let* (r, ud) := decode_array arg currentdata ud in Ok (if r =? 0 then 0 else -1, ud)
  else if f_type f =? SPROTO_TINTEGER then
    let* sz := lift (todword mem currentdata) in
    if sz =? 4 then
      let* v := lift (todword mem (currentdata + SIZEOF_LENGTH)) in
      let* (_, ud) := cb arg (DInt (expand64 v)) ud in Ok (0, ud)
    else if negb (sz =? 8) then Ok (-1, ud) else
      let* low := lift (todword mem (currentdata + SIZEOF_LENGTH)) in
      let* hi := lift (todword mem (currentdata + SIZEOF_LENGTH + 4)) in
      let* (_, ud) := cb arg (DInt (Z.lor low (Z.shiftl hi 32))) ud in Ok (0, ud)
  else if (f_type f =? SPROTO_TSTRING) || (f_type f =? SPROTO_TSTRUCT) then
    let* sz := lift (todword mem currentdata) in
    let* (r, ud) := cb arg (DData (currentdata + SIZEOF_LENGTH) (i32 sz)) ud in Ok (if r =? 0 then 0 else -1, ud)
  else Ok (-1, ud).

(** The locals of [sproto_decode]. *)
Record decoding := MkDecoding { d_tag : Z; d_datastream : Z; d_size : Z; d_ud : UD }.

(** A slot of the header; [None] is a return of -1. *)
Definition decode_slot (st : sproto_type) (value : Z) (d : decoding) : res (option decoding) :=
  let '(MkDecoding tag datastream size ud) := d in
  let tag := tag + 1 in
  if negb (Z.land value 1 =? 0) then Ok (Some (MkDecoding (tag + value / 2) datastream size ud)) else
  let value := value / 2 - 1 in
  let currentdata := datastream in
  let* d :=
    if value <? 0 then
      if size <? SIZEOF_LENGTH then Ok None else
      let* sz := lift (todword mem datastream) in
      if u32 size <? u32 (sz + SIZEOF_LENGTH) then Ok None else
      Ok (Some (datastream + u32 (sz + SIZEOF_LENGTH), size - u32 (sz + SIZEOF_LENGTH)))
    else Ok (Some (datastream, size)) in
  match d with
  | None => Ok None
  | Some (datastream, size) =>
      let* f := lift (findtag st tag) in
      match f with
      | None => Ok (Some (MkDecoding tag datastream size ud))
      | Some f =>
          let arg := MkArg (default [] (f_name f)) (f_tag f) (Z.land (f_type f) (Z.lnot SPROTO_TARRAY)) (f_st f) 0 (f_key f) in
          let* (r, ud) :=
            if value <? 0 then decode_data f arg currentdata ud
            else if negb (f_type f =? SPROTO_TINTEGER) && negb (f_type f =? SPROTO_TBOOLEAN) then Ok (-1, ud)
            else let* (_, ud) := cb arg (DInt value) ud in Ok (0, ud) in
          if r <? 0 then Ok None else Ok (Some (MkDecoding tag datastream size ud))
      end
  end.

(** [n] slots from number [i]. *)
Fixpoint decode_slots (st : sproto_type) (stream : Z) (n : nat) (i : Z) (d : decoding) : res (option decoding) :=
  match n with
  | O => Ok (Some d)
  | S n =>
      let* value := lift (toword mem (stream + i * SIZEOF_FIELD)) in
      let* r := decode_slot st value d in
      match r with None => Ok None | Some d => decode_slots st stream n (i + 1) d end
  end.

Definition sproto_decode (st : sproto_type) (data size : Z) (ud : UD) : res (Z * UD) :=
  let total := size in
  if size <? SIZEOF_HEADER then Ok (-1, ud) else
  let* fn := lift (toword mem data) in
  let stream := data + SIZEOF_HEADER in
  let size := size - SIZEOF_HEADER in
  if size <? fn * SIZEOF_FIELD then Ok (-1, ud) else
  let datastream := stream + fn * SIZEOF_FIELD in
  let size := size - fn * SIZEOF_FIELD in
  let* r := decode_slots st stream (Z.to_nat fn) 0 (MkDecoding (-1) datastream size ud) in
  match r with
  | None => Ok (-1, ud)
  | Some d => Ok (total - d_size d, d_ud d)
  end.
End Decode.
#[global] Arguments dcallback : clear implicits.
#[global] Arguments decoding : clear implicits.
