(* ===== verification/SprotoLua.v ===== *)
(** * Sproto messages as Lua tables ([lualib-src/sproto/lsproto.c])

    The callbacks [encode] and [decode], which recurse through [sproto_encode] and [sproto_decode], and the functions called from Lua. *)

From S2P Require Import Prelude CString LuaError Sproto SprotoPack SprotoCode.

(** ** Lua values

    Tables have no metatables; the entries are in the order of [lua_next].  A float is its bit pattern, [VOther] a function, userdata or
    thread. *)
Inductive lua := VNil | VBoolean (b : bool) | VInteger (z : Z) | VFloat (bits : Z) | VString (s : list Z) | VTable (entries : list (lua * lua)) | VOther.

(** The conversions between numbers and strings, which Lua does. *)
Class LuaNumbers := {
  float_tointeger : Z -> option Z;
  string_tointeger : list Z -> option Z;
  number_tostring : lua -> list Z;
}.

(** Raw equality with a key; a table is only equal to itself, and no table is looked up. *)
Definition key_eq (a b : lua) : bool :=
  match a, b with
  | VBoolean a, VBoolean b => eqb a b
  | VInteger a, VInteger b => a =? b
  | VString a, VString b => bool_decide (a = b)
  | _, _ => false
  end.

Notation entries := (list (lua * lua)).

Fixpoint lua_rawget (t : entries) (k : lua) : lua :=
  match t with
  | [] => VNil
  | (k', v) :: t => if key_eq k' k then v else lua_rawget t k
  end.

(** Setting a value that is not nil. *)
Fixpoint lua_rawset (t : entries) (k v : lua) : entries :=
  match t with
  | [] => [(k, v)]
  | (k', v') :: t => if key_eq k' k then (k', v) :: t else (k', v') :: lua_rawset t k v
  end.

Definition lua_getfield (t : entries) (name : list Z) : lua := lua_rawget t (VString name).
Definition lua_geti (t : entries) (i : Z) : lua := lua_rawget t (VInteger i).

Definition ENCODE_DEEPLEVEL : nat := 64.

Section Lua.
Context `{LuaNumbers}.

Definition lua_tointegerx (v : lua) : option Z :=
  match v with
  | VInteger z => Some z
  | VFloat bits => float_tointeger bits
  | VString s => string_tointeger s
  | _ => None
  end.

Definition lua_tolstring (v : lua) : option (list Z) :=
  match v with
  | VString s => Some s
  | VInteger _ | VFloat _ => Some (number_tostring v)
  | _ => None
  end.

(** The schema whose types the subtypes of the fields point to. *)
Variable types : list sproto_type.

(** ** Encoding *)

(** [eu_array_tag] is the field whose array is [eu_array] (names of different fields are different pointers); [eu_iter] is the number of the entries
    [lua_next] has passed, for the key it continues from. *)
Record encode_ud := MkEncodeUd {
  eu_tbl : entries;
  eu_array_tag : option Z;
  eu_array : option entries;
  eu_iter : nat;
}.

(** The value to encode; [None] stands for a return, with its value. *)
Definition encode_lookup (args : sproto_arg) (self : encode_ud) : res (Z * encode_ud + lua * encode_ud) :=
  if 0 <? a_index args then
    let* self :=
      if negb (bool_decide (eu_array_tag self = Some (a_tagid args))) then
        match lua_getfield (eu_tbl self) (a_tagname args) with
        | VNil => Ok (MkEncodeUd (eu_tbl self) (Some (a_tagid args)) None (eu_iter self), true)
        | VTable t => Ok (MkEncodeUd (eu_tbl self) (Some (a_tagid args)) (Some t) (eu_iter self), false)
        | _ => Raise (Text "should be a table")
        end
      else Ok (self, false) in
    let '(self, noarray) := self in
    if noarray : bool then Ok (inl (SPROTO_CB_NOARRAY, self)) else
    let* array := lift (eu_array self) in
    if 0 <=? a_mainindex args then
      match array !! eu_iter self with
      | None => Ok (inl (SPROTO_CB_NIL, MkEncodeUd (eu_tbl self) (eu_array_tag self) (eu_array self) 0))
      | Some (_, v) => Ok (inr (v, MkEncodeUd (eu_tbl self) (eu_array_tag self) (eu_array self) (S (eu_iter self))))
      end
    else Ok (inr (lua_geti array (a_index args), self))
  else Ok (inr (lua_getfield (eu_tbl self) (a_tagname args), self)).

(** [depth] is [ENCODE_DEEPLEVEL - self->deep]. *)
Fixpoint encode (depth : nat) (args : sproto_arg) (self : encode_ud) (value : list Z) : res (Z * list Z * encode_ud) :=
  match depth with
  | O => Raise (Text "The table is too deep")
  | S depth =>
      let* r := encode_lookup args self in
      match r with
      | inl (r, self) => Ok (r, value, self)
      | inr (VNil, self) => Ok (SPROTO_CB_NIL, value, self)
      | inr (v, self) =>
          if a_type args =? SPROTO_TINTEGER then
            match lua_tointegerx v with
            | None => Raise (Text "is not an integer")
            | Some v =>
                let vh := Z.shiftr v 31 in
                if (vh =? 0) || (vh =? -1) then
                  let* value := lift (memcpy_at value 0 (dword_bytes (u32 v))) in Ok (4, value, self)
                else
                  let* value := lift (memcpy_at value 0 (dword_bytes (u64 v) ++ dword_bytes (Z.shiftr (u64 v) 32))) in Ok (8, value, self)
            end
          else if a_type args =? SPROTO_TBOOLEAN then
            match v with
            | VBoolean b => let* value := lift (memcpy_at value 0 (dword_bytes (if b then 1 else 0))) in Ok (4, value, self)
            | _ => Raise (Text "is not a boolean")
            end
          else if a_type args =? SPROTO_TSTRING then
            match lua_tolstring v with
            | None => Raise (Text "is not a string")
            | Some s =>
                if Z.of_nat (length value) <? Z.of_nat (length s) then Ok (SPROTO_CB_ERROR, value, self) else
                let* value := lift (memcpy_at value 0 s) in Ok (Z.of_nat (length s), value, self)
            end
          else if a_type args =? SPROTO_TSTRUCT then
            match v with
            | VTable t =>
                let* st := lift (let! i := a_subtype args in aget types i) in
                let* (r, value, _) := sproto_encode (encode depth) st value (MkEncodeUd t None None 0) in
                Ok (if r <? 0 then SPROTO_CB_ERROR else r, value, self)
            | _ => Raise (Text "is not a table")
            end
          else Raise (Text "Invalid field type")
      end
  end.

(** Each pass doubles the buffer; the string and the buffer after the call. *)
Fixpoint lencode_loop (fuel : nat) (st : sproto_type) (t : entries) (buffer : list Z) : res (list Z * list Z) :=
  let* (r, buffer, _) := sproto_encode (encode ENCODE_DEEPLEVEL) st buffer (MkEncodeUd t None None 0) in
  if r <? 0 then
    let sz := Z.of_nat (length buffer) in
    let* sz2 := int (sz * 2) in
    let* n := expand_buffer sz sz2 in
    match fuel with O => Stuck | S fuel => lencode_loop fuel st t (malloc n) end
  else let* s := lift (memcpy buffer 0 r) in Ok (s, buffer).

(** From one byte, 24 doublings are enough for the largest buffer. *)
Definition lencode (output : list Z) (st : sproto_type) (t : lua) : res (list Z * list Z) :=
  match t with
  | VTable t => lencode_loop 25 st t output
  | _ => Raise (Text "table expected")
  end.

(** ** Decoding *)

(** The array table of the field [du_array_tag] is the value of [du_result] at the name [du_array]; [du_key] is the stack slot of the main index, when
    there is one. *)
Record decode_ud := MkDecodeUd {
  du_result : entries;
  du_array_tag : option Z;
  du_array : option (list Z);
  du_mainindex_tag : Z;
  du_key : option lua;
}.

Definition set_result (self : decode_ud) (t : entries) : decode_ud :=
  MkDecodeUd t (du_array_tag self) (du_array self) (du_mainindex_tag self) (du_key self).

(** [lua_settable] and [lua_seti] on the array table. *)
Definition array_set (self : decode_ud) (k v : lua) : res decode_ud :=
  let* name := lift (du_array self) in
  match lua_getfield (du_result self) name with
  | VTable t => Ok (set_result self (lua_rawset (du_result self) (VString name) (VTable (lua_rawset t k v))))
  | _ => Stuck
  end.

(** The value is stored in the array or in the result. *)
Definition decode_store (args : sproto_arg) (v : lua) (self : decode_ud) : res (Z * decode_ud) :=
  if 0 <? a_index args then let* self := array_set self (VInteger (a_index args)) v in Ok (0, self)
  else
    let self := if du_mainindex_tag self =? a_tagid args
                then MkDecodeUd (du_result self) (du_array_tag self) (du_array self) (du_mainindex_tag self) (Some v) else self in
    Ok (0, set_result self (lua_rawset (du_result self) (VString (a_tagname args)) v)).

(** A new array table when the field's first element comes. *)
Definition decode_new_array (args : sproto_arg) (self : decode_ud) : decode_ud :=
  if negb (a_index args =? 0) && negb (bool_decide (du_array_tag self = Some (a_tagid args)))
  then MkDecodeUd (lua_rawset (du_result self) (VString (a_tagname args)) (VTable [])) (Some (a_tagid args)) (Some (a_tagname args))
         (du_mainindex_tag self) (du_key self)
  else self.

Variable mem : list Z.

Fixpoint decode (depth : nat) (args : sproto_arg) (value : dvalue) (self : decode_ud) : res (Z * decode_ud) :=
  match depth with
  | O => Raise (Text "The table is too deep")
  | S depth =>
      let new := decode_new_array args self in
      if (a_index args <? 0) && negb (bool_decide (du_array_tag self = Some (a_tagid args))) then Ok (0, new) else
      let self := new in
      if a_type args =? SPROTO_TINTEGER then
        match value with DInt v => decode_store args (VInteger (i64 v)) self | _ => Stuck end
      else if a_type args =? SPROTO_TBOOLEAN then
        match value with DInt v => decode_store args (VBoolean (negb (i32 v =? 0))) self | _ => Stuck end
      else if a_type args =? SPROTO_TSTRING then
        match value with
        | DData p length =>
            if length <? 0 then Raise TooBig else
            let* s := lift (memcpy mem p length) in decode_store args (VString s) self
        | _ => Stuck
        end
      else if a_type args =? SPROTO_TSTRUCT then
        match value with
        | DData p length =>
            let* st := lift (let! i := a_subtype args in aget types i) in
            let map := 0 <=? a_mainindex args in
            let* (r, sub) := sproto_decode mem (decode depth) st p length
              (MkDecodeUd [] None None (if map then a_mainindex args else -1) (if map then Some VNil else None)) in
            if r <? 0 then Ok (SPROTO_CB_ERROR, self) else
            if negb (r =? length) then Ok (r, self) else
            if map then
              match du_key sub with
              | None | Some VNil => Raise (Text "Can't find main index")
              | Some key => let* self := array_set self key (VTable (du_result sub)) in Ok (0, self)
              end
            else decode_store args (VTable (du_result sub)) self
        | _ => Stuck
        end
      else Raise (Text "Invalid type")
  end.

(** [result] is the table given, or an empty one; the table and the number of bytes. *)
Definition ldecode (st : sproto_type) (result : entries) : res (lua * Z) :=
  let* (r, ud) := sproto_decode mem (decode ENCODE_DEEPLEVEL) st 0 (Z.of_nat (length mem)) (MkDecodeUd result None None (-1) None) in
  if r <? 0 then Raise (Text "decode error") else Ok (VTable (du_result ud), r).
End Lua.
