(* ===== verification/SprotoSpec.v ===== *)
(** * Schemas are well formed

    What [sproto_create] imports, and that looking a tag up in an imported type finds its field. *)

From S2P Require Import Prelude CString Sproto.

(** ** Well-formed types *)

(** The header slots the fields need after tag [last]: one each and one for each gap. *)
Fixpoint slots_needed (last : Z) (fs : list field) : Z :=
  match fs with
  | [] => 0
  | f :: fs => (if last + 1 <? f_tag f then 2 else 1) + slots_needed (f_tag f) fs
  end.

(** Tags ascend from above [last]; they come from 16-bit slots. *)
Fixpoint ascending (last : Z) (fs : list field) : Prop :=
  match fs with
  | [] => True
  | f :: fs => last < f_tag f <= 0x7ffe /\ ascending (f_tag f) fs
  end.

(** The base of the type is a builtin or, with a reference to a type of the schema, a struct. *)
Definition base_type (f : field) : Z := Z.land (f_type f) (Z.lnot SPROTO_TARRAY).
Definition is_array (f : field) : bool := negb (Z.land (f_type f) SPROTO_TARRAY =? 0).

Record field_ok (type_n : Z) (f : field) : Prop := {
  fo_name : is_Some (f_name f);
  fo_type : f_type f = base_type f + (if is_array f then SPROTO_TARRAY else 0);
  fo_base : match f_st f with None => 0 <= base_type f < SPROTO_TSTRUCT | Some i => base_type f = SPROTO_TSTRUCT /\ 0 <= i < type_n end;
}.

Record type_ok (type_n : Z) (t : sproto_type) : Prop := {
  to_ascending : ascending (-1) (t_f t);
  to_maxn : t_maxn t = slots_needed (-1) (t_f t);
  to_base : t_base t = -1 \/ 0 <= t_base t /\ forall i f, t_f t !! i = Some f -> f_tag f = t_base t + Z.of_nat i;
  to_fields : Forall (field_ok type_n) (t_f t);
}.

Definition protocol_ok (type_n : Z) (p : protocol) : Prop :=
  is_Some (p_name p) /\ 0 <= p_tag p <= 0x7ffe /\
  (forall i, p_request p = Some i -> 0 <= i < type_n) /\ (forall i, p_response p = Some i -> 0 <= i < type_n).

Definition schema_ok (sp : sproto) : Prop :=
  Forall (type_ok (Z.of_nat (length (s_type sp)))) (s_type sp) /\ Forall (protocol_ok (Z.of_nat (length (s_type sp)))) (s_proto sp).

(** ** Import *)

Lemma toword_range data p v : Forall byte data -> toword data p = Some v -> 0 <= v <= 0xffff.
Proof.
  intros Hb. unfold toword. destruct (aget data p) as [p0|] eqn:E0; [|done]. destruct (aget data (p + 1)) as [p1|] eqn:E1; [|done]. intros [= <-].
  apply aget_Some in E0 as [_ H0], E1 as [_ H1]. apply (Forall_lookup_1 _ _ _ _ Hb) in H0, H1. unfold byte in *. change (2 ^ 8) with 256 in *.
  rewrite Z.shiftl_mul_pow2 by lia. rewrite lor_fields by lia. change (2 ^ 8) with 256. lia.
Qed.

(** The state of a loop that may have returned NULL. *)
Definition or_null {A} (P : A -> Prop) (o : option A) : Prop := match o with None => True | Some a => P a end.

(** A partial-correctness rule for counted loops. *)
Lemma for_loop_post {St} (P : Z -> St -> Prop) n i body s s' :
  P i s -> (forall j s s', i <= j < i + Z.of_nat n -> P j s -> body j s = Some s' -> P (j + 1) s') -> for_loop n i body s = Some s' -> P (i + Z.of_nat n) s'.
Proof.
  revert i s. induction n as [|n IH]; intros i s Hs Hb; cbn [for_loop].
  - intros [= <-]. by rewrite Z.add_0_r.
  - destruct (body i s) as [s1|] eqn:E; [|done]. intros Hr. replace (i + Z.of_nat (S n)) with (i + 1 + Z.of_nat n) by lia.
    eapply IH, Hr; [eapply Hb, E; [lia | done]|]. intros j s2 s3 Hj. apply Hb. lia.
Qed.

Section Imports.
Variables (type_n : Z) (data : list Z).
Hypothesis Hdata : Forall byte data.

Record importing_ok (st : importing) : Prop := {
  io_tag : f_tag (i_f st) <= 0x7ffe;
  io_type : match f_st (i_f st) with None => -1 <= f_type (i_f st) < SPROTO_TSTRUCT | Some i => f_type (i_f st) = SPROTO_TSTRUCT /\ 0 <= i < type_n end;
  io_done : f_st (i_f st) <> None -> 2 <= i_tag st;
  io_array : i_array st = 0 \/ i_array st = SPROTO_TARRAY;
}.

Lemma import_field_body_ok stream fn i st st' :
  or_null importing_ok st -> import_field_body type_n data stream fn i st = Some st' -> or_null importing_ok st'.
Proof.
  destruct st as [[f tag array]|]; [|by intros _ [= <-]]. intros [H1 H2 H3 H4]. cbn [i_f i_tag i_array] in *. unfold import_field_body.
  destruct (toword data _) as [value|] eqn:Ev; [|done]. apply toword_range in Ev; [|done].
  assert (0 <= value / 2) as Hv2 by (apply Z.div_pos; lia).
  assert (value / 2 <= 0x7fff) as Hv3 by (Z.div_mod_to_equations; lia).
  destruct (Z.eqb_spec (Z.land value 1) 0) as [Heven|]; cbn [negb].
  2: { intros [= <-]. constructor; cbn [i_f i_tag i_array]; try done. intros Hst. specialize (H3 Hst). lia. }
  destruct (Z.eqb_spec (tag + 1) 0) as [Et0|Et0].
  { destruct (Z.eqb_spec value 0); [|by intros [= <-]]. cbn [negb]. destruct (import_string _ _); [|done]. intros [= <-].
    constructor; cbn [i_f i_tag i_array f_tag f_type f_st set_name]; try done. intros Hst. specialize (H3 Hst). lia. }
  destruct (Z.eqb_spec value 0) as [|Hv0]; [by intros [= <-]|].
  assert (1 <= value / 2) as Hv1 by (rewrite (Z.land_ones _ 1) in Heven by lia; change (2 ^ 1) with 2 in Heven; Z.div_mod_to_equations; lia).
  destruct (Z.eqb_spec (tag + 1) 1) as [Et1|Et1].
  { destruct (Z.leb_spec SPROTO_TSTRUCT (value / 2 - 1)); intros [= <-]; [done|]. destruct (f_st f) eqn:Est; [specialize (H3 ltac:(done)); lia|].
    constructor; cbn [i_f i_tag i_array f_tag f_type f_st set_type]; rewrite ?Est; try done; lia. }
  destruct (Z.eqb_spec (tag + 1) 2) as [Et2|Et2].
  { destruct (Z.leb_spec type_n (value / 2 - 1)); [by intros [= <-]|]. destruct (Z.leb_spec 0 (f_type f)); intros [= <-]; [done|].
    constructor; cbn [i_f i_tag i_array f_tag f_type f_st set_type]; try done; lia. }
  destruct (Z.eqb_spec (tag + 1) 3); [|destruct (Z.eqb_spec (tag + 1) 4); [|destruct (Z.eqb_spec (tag + 1) 5)]]; intros [= <-]; try done;
    constructor; cbn [i_f i_tag i_array f_tag f_type f_st set_tag set_key]; try done; try lia; try (intros Hst; specialize (H3 Hst); lia).
  destruct (negb _); [by right | done].
Qed.

Lemma import_field_ok stream f p : import_field type_n data stream = Some (Some (f, p)) -> field_ok type_n f /\ 0 <= f_tag f <= 0x7ffe.
Proof.
  unfold import_field. destruct (todword _ _) as [sz|]; [|done]. destruct (struct_field _ _ _) as [fn|]; [|done]. destruct (fn <? 0); [done|].
  destruct (for_loop _ _ _ _) as [[st|]|] eqn:E; [|done..].
  apply (for_loop_post (fun _ => or_null importing_ok)) in E as [H1 H2 H3 H4]; cycle 1.
  { constructor; cbn; try done; lia. }
  { intros j s s' _. apply import_field_body_ok. }
  destruct (Z.ltb_spec (f_tag (i_f st)) 0), (Z.ltb_spec (f_type (i_f st)) 0); try done. destruct (bool_decide_reflect (f_name (i_f st) = None)) as [|Hname]; [done|].
  intros [= <- <-]. split; [|cbn; lia]. 
  assert (0 <= f_type (i_f st) < 4) as Hr by (unfold SPROTO_TSTRUCT in *; destruct (f_st (i_f st)); lia).
  assert (base_type (set_type (i_f st) (Z.lor (f_type (i_f st)) (i_array st)) (f_st (i_f st))) = f_type (i_f st) /\
    is_array (set_type (i_f st) (Z.lor (f_type (i_f st)) (i_array st)) (f_st (i_f st))) = negb (i_array st =? 0)) as [Eb Ea].
  { unfold base_type, is_array. cbn [f_type set_type]. set (ty := f_type (i_f st)) in *. assert (ty = 0 \/ ty = 1 \/ ty = 2 \/ ty = 3) as [->|[->|[->| ->]]] by lia; destruct H4 as [->| ->]; done. }
  constructor.
  - cbn. destruct (f_name (i_f st)); [done | by exfalso; apply Hname].
  - rewrite Eb, Ea. cbn [f_type set_type]. set (ty := f_type (i_f st)) in *. assert (ty = 0 \/ ty = 1 \/ ty = 2 \/ ty = 3) as [->|[->|[->| ->]]] by lia; destruct H4 as [->| ->]; done.
  - rewrite Eb. cbn [f_st set_type]. destruct (f_st (i_f st)); lia.
Qed.

(** The fields imported so far, with their slots. *)
Definition fields_ok (n : Z) (i : Z) (st : list field * Z * Z * Z) : Prop :=
  let '(fs, maxn, last, _) := st in
  Z.of_nat (length fs) = i /\ ascending (-1) fs /\ Forall (field_ok type_n) fs /\ last = default (-1) (f_tag <$> list.last fs) /\ maxn = n - i + slots_needed (-1) fs.

Lemma ascending_snoc last fs f : ascending last (fs ++ [f]) <-> ascending last fs /\ default last (f_tag <$> list.last fs) < f_tag f <= 0x7ffe.
Proof.
  revert last. induction fs as [|g fs IH]; intros last; cbn [app ascending]; [cbn; tauto|]. rewrite IH. destruct fs as [|h fs]; [cbn; tauto|].
  rewrite last_cons_cons. destruct (list.last (h :: fs)) eqn:E; cbn; [tauto|]. by apply last_None in E.
Qed.

Lemma slots_snoc last fs f : slots_needed last (fs ++ [f]) = slots_needed last fs + (if default last (f_tag <$> list.last fs) + 1 <? f_tag f then 2 else 1).
Proof.
  revert last. induction fs as [|g fs IH]; intros last; cbn [app slots_needed]; [cbn; lia|]. rewrite IH. destruct fs as [|h fs]; [cbn; lia|].
  rewrite last_cons_cons. destruct (list.last (h :: fs)) eqn:E; cbn; [lia|]. by apply last_None in E.
Qed.

Lemma import_fields_ok n stream st : for_loop (Z.to_nat n) 0 (import_fields_body type_n data) (Some ([], n, -1, stream)) = Some (Some st) -> 0 <= n -> fields_ok n n st.
Proof.
  intros E Hn. apply (for_loop_post (fun i => or_null (fields_ok n i))) in E.
  - rewrite Z2Nat.id in E by done. exact E.
  - cbn. split_and!; try done. lia.
  - intros i s s' Hi. destruct s as [[[[fs maxn] last] p]|]; [|by intros _ [= <-]]. intros (Hl & Ha & Hf & -> & ->). unfold import_fields_body.
    destruct (import_field _ _ _) as [[[f p']|]|] eqn:Ef; [|by intros [= <-]|done]. apply import_field_ok in Ef as [Hok Ht].
    set (lst := default (-1) (f_tag <$> list.last fs)) in *. destruct (Z.leb_spec (f_tag f) lst); intros [= <-]; [done|]. cbn [or_null]. unfold fields_ok.
    rewrite length_app, ascending_snoc, slots_snoc, last_snoc. fold lst. split; [cbn [length]; lia|]. split; [split; [done | lia]|].
    split; [apply Forall_app; split; [done | by constructor]|]. split; [done|]. destruct (lst + 1 <? f_tag f); lia.
Qed.

Lemma ascending_above last fs i f : ascending last fs -> fs !! i = Some f -> last + Z.of_nat i < f_tag f <= 0x7ffe.
Proof.
  revert last i. induction fs as [|g fs IH]; intros last i Ha Hi; [done|]. destruct Ha as [Hg Ha]. destruct i as [|i]; cbn in Hi; [simplify_eq; lia|].
  specialize (IH _ _ Ha Hi). lia.
Qed.

Lemma ascending_lt last fs i j f g : ascending last fs -> fs !! i = Some f -> fs !! j = Some g -> (i <= j)%nat -> f_tag f + Z.of_nat (j - i) <= f_tag g.
Proof.
  revert last i j. induction fs as [|h fs IH]; intros last i j Ha Hi Hj Hij; [done|]. destruct Ha as [Hh Ha]. destruct i as [|i], j as [|j]; cbn in Hi, Hj; try lia; simplify_eq.
  - lia.
  - pose proof (ascending_above _ _ _ _ Ha Hj). lia.
  - by apply (IH _ _ _ Ha Hi Hj); lia.
Qed.

Lemma slots_short fs : forall last, ascending last fs -> last <= 0x7ffe -> slots_needed last fs <= 0x7ffe - last.
Proof.
  induction fs as [|f fs IH]; intros last Ha Hl; cbn [slots_needed]; [lia|]. destruct Ha as [Hf Ha]. specialize (IH _ Ha). destruct (Z.ltb_spec (last + 1) (f_tag f)); lia.
Qed.

(** Fewer slots than tags. *)
Lemma slots_bound last fs : ascending last fs -> 0 <= slots_needed last fs <= default last (f_tag <$> list.last fs) - last.
Proof.
  revert last. induction fs as [|g fs IH]; intros last Ha; [cbn; lia|]. destruct Ha as [Hg Ha]. specialize (IH _ Ha). cbn [slots_needed].
  destruct fs as [|h fs]; [cbn in *; destruct (Z.ltb_spec (last + 1) (f_tag g)); lia|]. rewrite last_cons_cons.
  destruct (list.last (h :: fs)) eqn:E; [|by apply last_None in E]. cbn [fmap option_fmap option_map default] in *. destruct (Z.ltb_spec (last + 1) (f_tag g)); cbn in *; lia.
Qed.

Lemma contiguous fs f0 fl : ascending (-1) fs -> aget fs 0 = Some f0 -> aget fs (Z.of_nat (length fs) - 1) = Some fl -> f_tag fl - f_tag f0 + 1 = Z.of_nat (length fs) ->
  0 <= f_tag f0 /\ forall i f, fs !! i = Some f -> f_tag f = f_tag f0 + Z.of_nat i.
Proof.
  intros Ha [_ H0]%aget_Some [Hp Hl]%aget_Some E. cbn in H0. split; [apply (ascending_above _ _ _ _ Ha) in H0; lia|]. intros i f Hi.
  pose proof (lookup_lt_Some _ _ _ Hi) as Hlt. pose proof (ascending_lt _ _ _ _ _ _ Ha H0 Hi ltac:(lia)). pose proof (ascending_lt _ _ _ _ _ _ Ha Hi Hl ltac:(lia)). lia.
Qed.

Lemma import_type_ok stream t p : import_type type_n data stream = Some (Some (t, p)) -> type_ok type_n t.
Proof.
  unfold import_type. destruct (todword _ _) as [sz|]; [|done]. destruct (struct_field _ _ _) as [fn|]; [|done]. destruct (_ || _); [done|].
  destruct (zero_slots _ _ _) as [[|]|]; [|done..]. cbn [negb]. destruct (import_string _ _) as [name|]; [|done].
  destruct (fn =? 1).
  { intros [= <- _]. constructor; cbn; try done. right. split; [lia|]. intros i f Hi. by rewrite lookup_nil in Hi. }
  destruct (todword data _) as [dsz|]; [|done]. destruct (count_array _ _) as [n|]; [|done]. destruct (Z.ltb_spec n 0); [done|].
  destruct (for_loop _ _ _ _) as [[[[[fs maxn] last] p']|]|] eqn:E; [|done..]. apply import_fields_ok in E as (Hl & Ha & Hf & _ & ->); [|done].
  destruct (aget fs 0) as [f0|] eqn:E0; [|done]. destruct (aget fs (n - 1)) as [fl|] eqn:El; [|done]. intros [= <- _].
  constructor; cbn [t_f t_maxn t_base]; try done; [lia|]. destruct (Z.eqb_spec (f_tag fl - f_tag f0 + 1) n) as [En|]; cbn [negb]; [right | by left].
  apply (contiguous _ _ fl); [done | done | by rewrite Hl | lia].
Qed.

Lemma import_protocol_body_ok stream fn i st st' :
  let P := or_null (fun p => p_tag p <= 0x7ffe /\ (forall i, p_request p = Some i -> 0 <= i < type_n) /\ (forall i, p_response p = Some i -> 0 <= i < type_n)) in
  P st -> import_protocol_body type_n data stream fn i st = Some st' -> P st'.
Proof.
  intros P. destruct st as [p|]; [|by intros _ [= <-]]. intros (Ht & Hq & Hr). unfold import_protocol_body.
  destruct (toword data _) as [value|] eqn:Ev; [|done]. apply toword_range in Ev; [|done]. destruct (negb _); [by intros [= <-]|].
  assert (value / 2 <= 0x7fff) as Hv by (Z.div_mod_to_equations; lia).
  destruct (i =? 0); [destruct (negb _); [by intros [= <-]|]; destruct (import_string _ _); [|done]; by intros [= <-]|].
  destruct (i =? 1); [destruct (Z.ltb_spec (value / 2 - 1) 0); intros [= <-]; [done|]; split_and!; cbn; [lia | done | done]|].
  destruct (i =? 2); [|destruct (i =? 3); [|by intros [= <-]]];
    (destruct (Z.ltb_spec (value / 2 - 1) 0), (Z.leb_spec type_n (value / 2 - 1)); intros [= <-]; cbn; try done; split_and!; [done|..]; cbn; auto; intros ? [= <-]; lia).
Qed.

Lemma import_protocol_ok stream p q : import_protocol type_n data stream = Some (Some (p, q)) -> protocol_ok type_n p.
Proof.
  unfold import_protocol. destruct (todword _ _) as [sz|]; [|done]. destruct (struct_field _ _ _) as [fn|]; [|done].
  destruct (for_loop _ _ _ _) as [[p'|]|] eqn:E; [|done..].
  apply (for_loop_post (fun _ => or_null (fun p => p_tag p <= 0x7ffe /\ (forall i, p_request p = Some i -> 0 <= i < type_n) /\ (forall i, p_response p = Some i -> 0 <= i < type_n)))) in E;
    [|cbn; split_and!; [lia | done | done] | intros ? ? ? _; apply import_protocol_body_ok].
  destruct E as (Ht & Hq & Hr). destruct (bool_decide_reflect (p_name p' = None)) as [|Hn], (Z.ltb_spec (p_tag p') 0); try done. intros [= <- <-].
  split_and!; try done. destruct (p_name p'); [done | by exfalso; apply Hn].
Qed.

Lemma import_all_ok {A} (P : A -> Prop) n import stream l : (forall stream x p, import stream = Some (Some (x, p)) -> P x) ->
  import_all n import stream = Some (Some l) -> length l = n /\ Forall P l.
Proof.
  intros Hi. revert stream l. induction n as [|n IH]; intros stream l; cbn [import_all]; [by intros [= <-]|].
  destruct (import stream) as [[[x p]|]|] eqn:E; [|done..]. destruct (import_all n import p) as [[l'|]|] eqn:El; [|done..]. intros [= <-].
  destruct (IH _ _ El) as [<- Hl]. split; [done|]. constructor; [by eapply Hi | done].
Qed.
End Imports.

Lemma create_ok data sp : Forall byte data -> sproto_create data = Some (Some sp) -> schema_ok sp.
Proof.
  intros Hd. unfold sproto_create, create_from_bundle. destruct (struct_field _ _ _) as [fn|]; [|done]. destruct (_ || _); [done|].
  destruct (for_loop _ _ _ _) as [[[c arrays]|]|] eqn:Ea; [|done..].
  apply (for_loop_post (fun _ => or_null (fun s => Forall (fun a => 0 <= snd a) (snd s)))) in Ea; [|cbn; done|].
  2: { intros j [[c' l]|] s' _ Hl; unfold bundle_body; [|by intros [= <-]]. destruct (toword _ _); [|done]. destruct (negb _); [by intros [= <-]|].
       destruct (count_array _ _) as [n|]; [|done]. destruct (Z.ltb_spec n 0); [by intros [= <-]|]. destruct (todword _ _); [|done]. intros [= <-].
       cbn in *. apply Forall_app. split; [done | by constructor]. }
  cbn in Ea. assert (forall k, 0 <= snd (default (0, 0) (arrays !! k))) as Hn.
  { intros k. destruct (arrays !! k) eqn:Ek; [by apply (Forall_lookup_1 _ _ _ _ Ea Ek) | done]. }
  pose proof (Hn 0%nat) as Htn. destruct (default (0, 0) (arrays !! 0%nat)) as [td tn]. destruct (default (0, 0) (arrays !! 1%nat)) as [pd pn]. cbn in Htn.
  destruct (import_all _ (import_type _ _) _) as [[types|]|] eqn:Et; [|done..]. destruct (import_all _ (import_protocol _ _) _) as [[protos|]|] eqn:Ep; [|done..]. intros [= <-].
  apply (import_all_ok (type_ok tn)) in Et as [Hl Ht]; [|intros ? ? ?; by apply import_type_ok].
  apply (import_all_ok (protocol_ok tn)) in Ep as [_ Hp]; [|intros ? ? ?; by apply import_protocol_ok].
  unfold schema_ok. cbn [s_type s_proto]. rewrite Hl, Z2Nat.id by done. done.
Qed.

(** ** Looking up a tag *)

Definition tag_sorted {A} (tag_of : A -> Z) (l : list A) : Prop := forall i j x y, l !! i = Some x -> l !! j = Some y -> (i < j)%nat -> tag_of x < tag_of y.

Lemma tag_search_spec {A} (tag_of : A -> Z) l tag : tag_sorted tag_of l -> forall fuel begin end_,
  0 <= begin -> begin <= end_ <= Z.of_nat (length l) -> end_ - begin <= Z.of_nat fuel ->
  (forall i x, l !! i = Some x -> tag_of x = tag -> begin <= Z.of_nat i < end_) ->
  exists r, tag_search tag_of fuel l tag begin end_ = Some r /\
    match r with Some x => x ∈ l /\ tag_of x = tag | None => forall x, x ∈ l -> tag_of x <> tag end.
Proof.
  intros Hs fuel. induction fuel as [|fuel IH]; intros b e Hb He Hf Hin; cbn [tag_search].
  - destruct (Z.ltb_spec b e); [lia|]. eexists. split; [done|]. intros x [i Hi]%list_elem_of_lookup Hx. specialize (Hin _ _ Hi Hx). lia.
  - destruct (Z.ltb_spec b e).
    2: { eexists. split; [done|]. intros x [i Hi]%list_elem_of_lookup Hx. specialize (Hin _ _ Hi Hx). lia. }
    set (mid := (b + e) / 2). assert (b <= mid < e) as Hm by (subst mid; Z.div_mod_to_equations; lia).
    destruct (aget_is_Some l mid) as [x Hx]; [lia|]. rewrite Hx. apply aget_Some in Hx as [_ Hx].
    destruct (Z.eqb_spec (tag_of x) tag) as [E|E]; [eexists; split; [done|]; split; [by eapply list_elem_of_lookup_2 | done]|].
    destruct (Z.ltb_spec (tag_of x) tag); apply IH; try lia.
    + intros i y Hi Hy. specialize (Hin _ _ Hi Hy). destruct (decide (i = Z.to_nat mid)) as [->|]; [simplify_eq|]. 
      destruct (decide (i < Z.to_nat mid)%nat) as [Hlt|]; [pose proof (Hs _ _ _ _ Hi Hx Hlt); lia | lia].
    + intros i y Hi Hy. specialize (Hin _ _ Hi Hy). destruct (decide (i = Z.to_nat mid)) as [->|]; [simplify_eq|].
      destruct (decide (Z.to_nat mid < i)%nat) as [Hlt|]; [pose proof (Hs _ _ _ _ Hx Hi Hlt); lia | lia].
Qed.


Lemma ascending_sorted last fs : ascending last fs -> tag_sorted f_tag fs.
Proof. intros Ha i j x y Hi Hj Hij. pose proof (ascending_lt _ _ _ _ _ _ Ha Hi Hj ltac:(lia)). lia. Qed.

Lemma findtag_spec n t tag : type_ok n t -> exists r, findtag t tag = Some r /\
  match r with Some f => f ∈ t_f t /\ f_tag f = tag | None => forall f, f ∈ t_f t -> f_tag f <> tag end.
Proof.
  intros [Ha _ Hb _]. unfold findtag, t_n. destruct (Z.leb_spec 0 (t_base t)).
  - destruct Hb as [Hb|[_ Hb]]; [lia|]. destruct (Z.ltb_spec (tag - t_base t) 0), (Z.leb_spec (Z.of_nat (length (t_f t))) (tag - t_base t)); cbn [orb].
    1-3: eexists; split; [done|]; intros f [i Hi]%list_elem_of_lookup Hf; pose proof (lookup_lt_Some _ _ _ Hi); specialize (Hb _ _ Hi); lia.
    destruct (aget_is_Some (t_f t) (tag - t_base t)) as [f Hf]; [lia|]. rewrite Hf. eexists. split; [done|]. apply aget_Some in Hf as [_ Hf].
    split; [by eapply list_elem_of_lookup_2|]. specialize (Hb _ _ Hf). lia.
  - apply (tag_search_spec f_tag (t_f t) tag (ascending_sorted _ _ Ha)); try lia. intros i f Hi _. apply lookup_lt_Some in Hi. lia.
Qed.

(** In a type without two fields of one tag, the field with the tag. *)
Lemma findtag_found n t f : type_ok n t -> f ∈ t_f t -> findtag t (f_tag f) = Some (Some f).
Proof.
  intros Ht Hf. destruct (findtag_spec n t (f_tag f) Ht) as ([g|] & E & Hg); [|by destruct (Hg _ Hf)]. rewrite E. destruct Hg as [Hg Etag]. do 2 f_equal.
  apply list_elem_of_lookup in Hg as [i Hi], Hf as [j Hj]. pose proof (ascending_sorted _ _ (to_ascending _ _ Ht)) as Hs.
  destruct (lt_eq_lt_dec i j) as [[Hlt| ->]|Hlt]; [pose proof (Hs _ _ _ _ Hi Hj Hlt); lia | congruence | pose proof (Hs _ _ _ _ Hj Hi Hlt); lia].
Qed.

(** ** Imported schemas *)

(** C34: Whatever bundle of bytes [sproto_create] accepts, the schema it makes is well formed: the tags of each type ascend, [maxn] is the number of header slots
    its fields can need, [base] is right, every field has a name and a type, and references stay inside the schema; so [findtag], by index or by binary search, finds the field
    with a tag exactly when there is one. *)
Theorem imported_schema_ok data sp : Forall byte data -> sproto_create data = Some (Some sp) ->
  schema_ok sp /\ forall t tag, t ∈ s_type sp -> exists r, findtag t tag = Some r /\
    match r with Some f => f ∈ t_f t /\ f_tag f = tag | None => forall f, f ∈ t_f t -> f_tag f <> tag end.
Proof.
  intros Hd Hs. pose proof (create_ok _ _ Hd Hs) as [Ht Hp]. split; [done|]. intros t tag Hin. eapply findtag_spec. by eapply (proj1 (Forall_forall _ _) Ht).
Qed.

(** A bundle with one type, [.p { name 0 : string  id 3 : integer }]. *)
Definition bundle : list Z :=
  [1;0; 0;0; 61;0;0;0;
   57;0;0;0; 2;0; 0;0; 0;0; 1;0;0;0; 112; 42;0;0;0;
     18;0;0;0; 4;0; 0;0; 6;0; 1;0; 2;0; 4;0;0;0; 110;97;109;101;
     16;0;0;0; 4;0; 0;0; 2;0; 1;0; 8;0; 2;0;0;0; 105;100]%Z.

Lemma imported_schema_ok_witness : exists sp, sproto_create bundle = Some (Some sp) /\ schema_ok sp /\
  forall t tag, t ∈ s_type sp -> exists r, findtag t tag = Some r /\
    match r with Some f => f ∈ t_f t /\ f_tag f = tag | None => forall f, f ∈ t_f t -> f_tag f <> tag end.
Proof.
  exists (MkSproto [MkType (str "p") (-1) 3 [MkField 0 SPROTO_TSTRING (Some (str "name")) None (-1); MkField 3 SPROTO_TINTEGER (Some (str "id")) None (-1)]] []).
  split; [vm_compute; reflexivity|]. apply (imported_schema_ok bundle); [|vm_compute; reflexivity].
  repeat (apply Forall_cons; split; [unfold byte; lia|]). apply Forall_nil_2.
Defined.

(** A type whose list of fields is present but empty: [t->f[0]] is read. *)
Example empty_fields : sproto_create [1;0; 0;0; 19;0;0;0; 15;0;0;0; 2;0; 0;0; 0;0; 1;0;0;0; 112; 0;0;0;0] = None.
Proof. vm_compute. reflexivity. Qed.
