(* ===== verification/SprotoWire.v ===== *)
(** * What a sproto message is

    The reference for [SprotoEncode] and [SprotoDecode]: from a type and a Lua table, the bytes of the message and the table that decoding
    it gives.  It has no buffers and no positions.  A table that does not fit its type has no message. *)

From S2P Require Import Prelude CString LuaError Sproto SprotoSpec SprotoCode SprotoLua.

(** ** Values *)

Definition le32 (z : Z) : list Z := dword_bytes (u32 z).
Definition le64 (z : Z) : list Z := dword_bytes (u64 z) ++ dword_bytes (Z.shiftr (u64 z) 32).
Definition narrow (z : Z) : bool := (- 2 ^ 31 <=? z) && (z <? 2 ^ 31).

(** A Lua integer has 64 bits. *)
Definition int_of (v : lua) : option Z :=
  match v with VInteger z => if (- 2 ^ 63 <=? z) && (z <? 2 ^ 63) then Some z else None | _ => None end.
Definition bool_of (v : lua) : option bool := match v with VBoolean b => Some b | _ => None end.

Definition with_size (b : list Z) : list Z := dword_bytes (Z.of_nat (length b)) ++ b.

(** A field: absent, a number in its header slot, or data.  [need] bytes of room are enough to write the data; [wide] says that an array
    in it holds an integer of more than 32 bits. *)
Inductive fval := FAbsent | FInline (value : Z) (v : lua) | FBytes (bytes : list Z) (v : lua) (need : Z) (wide : bool).

(** The element [i], [i + 1], ... of a list, up to the first nil. *)
Fixpoint array_values (fuel : nat) (t : entries) (i : Z) : option (list lua) :=
  match lua_geti t i with
  | VNil => Some []
  | v => match fuel with O => None | S fuel => let! l := array_values fuel t (i + 1) in Some (v :: l) end
  end.

(** The values of the elements of a field, in the order in which they are written: of a map as [lua_next] gives them. *)
Definition field_values (f : field) (t : entries) : option (list lua) :=
  if 0 <=? f_key f then Some (map snd t) else array_values (length t) t 1.

Definition lua_list (l : list lua) : lua := VTable (imap (fun i v => (VInteger (Z.of_nat i + 1), v)) l).

Definition name_of (f : field) : list Z := default [] (f_name f).

Record message := MkMessage {
  m_bytes : list Z;
  m_fields : list (field * lua);
  m_need : Z;
  m_wide : bool;
}.

(** Writing the fields of a message to a table. *)
Definition set_fields (t : entries) (fs : list (field * lua)) : entries :=
  fold_left (fun t p => lua_rawset t (VString (name_of (fst p))) (snd p)) fs t.

Definition m_table (m : message) : entries := set_fields [] (m_fields m).

(** The value of the main index of a message. *)
Definition key_step (key : Z) (k : option lua) (p : field * lua) : option lua :=
  if (f_tag (fst p) =? key) && negb (is_array (fst p)) then Some (snd p) else k.
Definition main_key (key : Z) (fs : list (field * lua)) : option lua := fold_left (key_step key) fs None.

(** A string or a message within another. *)
Record item := MkItem { it_bytes : list Z; it_lua : lua; it_fields : list (field * lua); it_need : Z; it_wide : bool }.

Section Field.
Variable types : list sproto_type.
Variable sub : sproto_type -> entries -> option message.

Definition object (f : field) (v : lua) : option item :=
  match v with
  | VString s => if base_type f =? SPROTO_TSTRING then Some (MkItem s v [] (Z.of_nat (length s)) false) else None
  | VTable t =>
      if base_type f =? SPROTO_TSTRUCT then
        let! i := f_st f in
        let! st := aget types i in
        let! m := sub st t in
        Some (MkItem (m_bytes m) (VTable (m_table m)) (m_fields m) (m_need m) (m_wide m))
      else None
  | _ => None
  end.

Definition integers (zs : list Z) : list Z :=
  match zs with
  | [] => []
  | _ => if forallb narrow zs then 4 :: concat (map le32 zs) else 8 :: concat (map le64 zs)
  end.

Definition objects (items : list item) : list Z := concat (map (fun it => with_size (it_bytes it)) items).

(** A map is keyed by the main index of its elements. *)
Fixpoint keyed (key : Z) (t : entries) (items : list item) : option entries :=
  match items with
  | [] => Some t
  | it :: items => let! k := main_key key (it_fields it) in keyed key (lua_rawset t k (it_lua it)) items
  end.

Definition sum (l : list Z) : Z := fold_right Z.add 0 l.

Definition array_value (f : field) (a : entries) : option fval :=
  let! vals := field_values f a in
  let n := Z.of_nat (length vals) in
  if base_type f =? SPROTO_TINTEGER then
    let! zs := mapM int_of vals in
    Some (FBytes (integers zs) (lua_list vals) (13 + 8 * n) (negb (forallb narrow zs)))
  else if base_type f =? SPROTO_TBOOLEAN then
    let! bs := mapM bool_of vals in
    Some (FBytes (map (fun b : bool => if b then 1 else 0) bs) (lua_list vals) (4 + n) false)
  else
    let! items := mapM (object f) vals in
    let! v := if (base_type f =? SPROTO_TSTRUCT) && (0 <=? f_key f) then let! t := keyed (f_key f) [] items in Some (VTable t)
              else Some (lua_list (map it_lua items)) in
    Some (FBytes (objects items) v (8 + sum (map (fun it => 4 + it_need it) items)) (existsb it_wide items)).

Definition scalar_value (f : field) (v : lua) : option fval :=
  match v with
  | VNil => Some FAbsent
  | _ =>
      if base_type f =? SPROTO_TINTEGER then
        let! z := int_of v in
        Some (if (0 <=? z) && (z <? 0x7fff) then FInline ((z + 1) * 2) v
              else if narrow z then FBytes (le32 z) v 8 false else FBytes (le64 z) v 12 false)
      else if base_type f =? SPROTO_TBOOLEAN then let! b := bool_of v in Some (FInline (if b then 4 else 2) v)
      else if (base_type f =? SPROTO_TSTRUCT) && (0 <=? f_key f) then None
      else let! it := object f v in Some (FBytes (it_bytes it) (it_lua it) (4 + it_need it) (it_wide it))
  end.

Definition field_value (t : entries) (f : field) : option (field * fval) :=
  let v := lua_getfield t (name_of f) in
  let! fv :=
    if is_array f then match v with VNil => Some FAbsent | VTable a => array_value f a | _ => None end
    else scalar_value f v in
  Some (f, fv).
End Field.

(** ** Messages *)

Definition gap_slot (last : Z) (f : field) : list Z := if 0 <? f_tag f - last - 1 then [(f_tag f - last - 2) * 2 + 1] else [].

(** The slots of the header: a number of tags skipped, a number, or 0 for data. *)
Fixpoint slots (last : Z) (l : list (field * fval)) : list Z :=
  match l with
  | [] => []
  | (f, FAbsent) :: l => slots last l
  | (f, FInline value _) :: l => gap_slot last f ++ value :: slots (f_tag f) l
  | (f, FBytes _ _ _ _) :: l => gap_slot last f ++ 0 :: slots (f_tag f) l
  end.

Definition data_of (fv : fval) : list Z := match fv with FBytes b _ _ _ => with_size b | _ => [] end.
Definition need_of (fv : fval) : Z := match fv with FAbsent => 8 | FInline _ _ => 0 | FBytes _ _ need _ => need end.
Definition wide_of (fv : fval) : bool := match fv with FBytes _ _ _ wide => wide | _ => false end.
Definition lua_of (p : field * fval) : option (field * lua) :=
  match snd p with FAbsent => None | FInline _ v | FBytes _ v _ _ => Some (fst p, v) end.

Definition header (l : list (field * fval)) : list Z := concat (map word_bytes (slots (-1) l)).
Definition wire (l : list (field * fval)) : list Z :=
  word_bytes (Z.of_nat (length (slots (-1) l))) ++ header l ++ concat (map (fun p => data_of (snd p)) l).

(** The message of a table; messages nest [depth] levels at most. *)
Fixpoint msg (types : list sproto_type) (depth : nat) (st : sproto_type) (t : entries) : option message :=
  match depth with
  | O => None
  | S depth =>
      let! l := mapM (field_value types (msg types depth) t) (t_f st) in
      Some (MkMessage (wire l) (omap lua_of l) (SIZEOF_HEADER + t_maxn st * SIZEOF_FIELD + sum (map (fun p => need_of (snd p)) l))
              (existsb (fun p => wide_of (snd p)) l))
  end.
