(* ===== verification/SprotoInts.v ===== *)
(** * Writing numbers and arrays of integers

    Copies into a buffer cut at an offset, little-endian words, and the arrays of [encode_integer_array], whose elements are moved apart when the first
    integer of more than 32 bits comes. *)

From S2P Require Import Prelude CString Buffer LuaError Sproto SprotoSpec SprotoPack SprotoCode SprotoLua SprotoWire.

(** ** Buffers cut at an offset *)

Lemma memcpy_end (pre x : list Z) n : n = Z.of_nat (length x) -> memcpy (pre ++ x) (Z.of_nat (length pre)) n = Some x.
Proof. intros ->. rewrite <- (app_nil_r x) at 1. by apply memcpy_mid. Qed.

Lemma memcpy_at_mid (pre old post d : list Z) : length d = length old -> memcpy_at (pre ++ old ++ post) (Z.of_nat (length pre)) d = Some (pre ++ d ++ post).
Proof.
  intros Hl. rewrite memcpy_at_splice by (rewrite ?length_app; lia). f_equal. unfold splice. rewrite Nat2Z.id, take_app_length. do 2 f_equal.
  rewrite app_assoc. apply drop_app_length'. rewrite length_app. lia.
Qed.

(** Writing at the beginning of what is behind [pre]. *)
Lemma memcpy_at_tail (pre tail d : list Z) : (length d <= length tail)%nat -> memcpy_at (pre ++ tail) (Z.of_nat (length pre)) d = Some (pre ++ d ++ drop (length d) tail).
Proof. intros Hl. rewrite <- (take_drop (length d) tail) at 1. apply memcpy_at_mid. rewrite length_take. lia. Qed.

Lemma memcpy_at_front (tail d : list Z) : (length d <= length tail)%nat -> memcpy_at tail 0 d = Some (d ++ drop (length d) tail).
Proof. exact (memcpy_at_tail [] tail d). Qed.

Lemma dword_bytes_length v : length (dword_bytes v) = 4%nat.
Proof. done. Qed.

Lemma word_bytes_length v : length (word_bytes v) = 2%nat.
Proof. done. Qed.

Lemma fill_size_tail (pre tail : list Z) sz x : length x = 4%nat -> fill_size (pre ++ x ++ tail) (Z.of_nat (length pre)) sz = Some (sz + SIZEOF_LENGTH, pre ++ dword_bytes sz ++ tail).
Proof. intros Hx. unfold fill_size. by rewrite memcpy_at_mid by (by rewrite Hx). Qed.

Lemma with_size_length b : length (with_size b) = (4 + length b)%nat.
Proof. unfold with_size. by rewrite length_app. Qed.

(** Data behind its length. *)
Lemma put_sized_tail (pre tail b : list Z) n : n = Z.of_nat (length b) -> (4 + length b <= length tail)%nat ->
  (let! buf := memcpy_at (pre ++ tail) (Z.of_nat (length pre) + 4) b in fill_size buf (Z.of_nat (length pre)) n) = Some (n + SIZEOF_LENGTH, pre ++ with_size b ++ drop (4 + length b) tail).
Proof.
  intros -> Hl. rewrite <- (take_drop 4 tail) at 1. assert (length (take 4 tail) = 4%nat) as H4 by (rewrite length_take; lia). rewrite app_assoc.
  replace (Z.of_nat (length pre) + 4) with (Z.of_nat (length (pre ++ take 4 tail))) by (rewrite length_app; lia).
  rewrite memcpy_at_tail by (rewrite length_drop; lia). rewrite <- app_assoc, fill_size_tail by done. rewrite drop_drop. unfold with_size. by rewrite <- !app_assoc.
Qed.

(** ** Bytes of numbers *)

Lemma dword_value v : 0 <= v < 2 ^ 32 -> le_word (dword_bytes v) = v.
Proof.
  intros Hv. unfold dword_bytes. cbn [le_word]. change 0xff with (Z.ones 8). rewrite !Z.land_ones, !Z.shiftr_div_pow2 by lia.
  change (2 ^ 8) with 256. change (2 ^ 16) with 65536. change (2 ^ 24) with 16777216. Z.div_mod_to_equations. lia.
Qed.

Lemma le_word_app a b : le_word (a ++ b) = le_word a + 2 ^ (8 * Z.of_nat (length a)) * le_word b.
Proof.
  induction a as [|x a IH]; [cbn [app length le_word]; change (2 ^ (8 * Z.of_nat 0)) with 1; lia|]. cbn [app length le_word]. rewrite IH, Nat2Z.inj_succ.
  replace (8 * Z.succ (Z.of_nat (length a))) with (8 + 8 * Z.of_nat (length a)) by lia. rewrite Z.pow_add_r by lia. lia.
Qed.

Lemma qword_value v : 0 <= v < 2 ^ 64 -> le_word (dword_bytes v ++ dword_bytes (Z.shiftr v 32)) = v.
Proof.
  intros Hv. rewrite le_word_app, dword_bytes_length. change (2 ^ (8 * Z.of_nat 4)) with (2 ^ 32).
  assert (le_word (dword_bytes v) = v mod 2 ^ 32) as ->.
  { rewrite <- (dword_value (v mod 2 ^ 32)) by (apply Z.mod_pos_bound; lia). f_equal. unfold dword_bytes. change 0xff with (Z.ones 8). rewrite !Z.land_ones, !Z.shiftr_div_pow2 by lia.
    change (2 ^ 8) with 256. change (2 ^ 16) with 65536. change (2 ^ 24) with 16777216. change (2 ^ 32) with 4294967296.
    repeat (f_equal; [Z.div_mod_to_equations; lia|]). f_equal. Z.div_mod_to_equations. lia. }
  rewrite Z.shiftr_div_pow2 by lia. rewrite dword_value; Z.div_mod_to_equations; lia.
Qed.

Lemma le32_length z : length (le32 z) = 4%nat. Proof. done. Qed.
Lemma le64_length z : length (le64 z) = 8%nat. Proof. done. Qed.

(** An eight-byte integer that fits in four is those four and its sign. *)
Definition sign_ext (z : Z) : list Z := replicate 4 (if z <? 0 then 0xff else 0).

Lemma narrow_u32 z : narrow z = true -> u32 z = if z <? 0 then z + 2 ^ 32 else z.
Proof. unfold narrow, u32. change (2 ^ 32) with 4294967296. change (2 ^ 31) with 2147483648. intros Hz. zbool. destruct (Z.ltb_spec z 0); Z.div_mod_to_equations; lia. Qed.

Lemma le64_narrow z : narrow z = true -> le64 z = le32 z ++ sign_ext z.
Proof.
  intros Hn. pose proof (narrow_u32 z Hn) as E32. unfold narrow in Hn. zbool. unfold le64, le32, sign_ext, dword_bytes. rewrite E32.
  assert (u64 z = if z <? 0 then z + 2 ^ 64 else z) as -> by (unfold u64; change (2 ^ 64) with 18446744073709551616; destruct (Z.ltb_spec z 0); Z.div_mod_to_equations; lia).
  change 0xff with (Z.ones 8). rewrite !Z.land_ones, !Z.shiftr_div_pow2 by lia.
  change (2 ^ 8) with 256. change (2 ^ 16) with 65536. change (2 ^ 24) with 16777216. change (2 ^ 32) with 4294967296. change (2 ^ 64) with 18446744073709551616.
  change (Z.ones 8) with 255. cbn [app replicate].
  destruct (Z.ltb_spec z 0); repeat (apply (f_equal2 cons); [Z.div_mod_to_equations; lia|]); done.
Qed.

Lemma land_bit x k : 0 <= k -> (Z.land x (2 ^ k) =? 0) = negb (Z.testbit x k).
Proof.
  intros Hk. destruct (Z.testbit x k) eqn:E; cbn [negb].
  - apply Z.eqb_neq. intros H. apply (f_equal (fun y => Z.testbit y k)) in H. by rewrite Z.land_spec, Z.pow2_bits_true, E, Z.bits_0 in H.
  - apply Z.eqb_eq, Z.bits_inj'. intros n Hn. rewrite Z.land_spec, Z.bits_0. destruct (decide (n = k)) as [->|]; [by rewrite E|].
    rewrite Z.pow2_bits_false by congruence. apply andb_false_r.
Qed.

Lemma sign_bit z : narrow z = true -> Z.testbit (u32 z) 31 = (z <? 0).
Proof.
  unfold narrow. intros Hz. zbool. rewrite testbit_u32 by lia. change (31 <? 32) with true. cbn [andb]. destruct (Z.ltb_spec z 0).
  - apply Z.testbit_true; [lia|]. Z.div_mod_to_equations. lia.
  - apply Z.testbit_false; [lia|]. Z.div_mod_to_equations. lia.
Qed.

(** The two ways the sign is read. *)
Lemma sign_word z : narrow z = true -> negb (Z.land (u32 z) 0x80000000 =? 0) = (z <? 0).
Proof. intros Hz. change 0x80000000 with (2 ^ 31). by rewrite land_bit, sign_bit, negb_involutive by done. Qed.

Lemma sign_byte z : narrow z = true -> exists b, le32 z !! 3%nat = Some b /\ negb (Z.land b 0x80 =? 0) = (z <? 0).
Proof.
  intros Hz. eexists. split; [done|]. change 0x80 with (2 ^ 7). rewrite land_bit by lia. change 0xff with (Z.ones 8).
  rewrite Z.land_ones, Z.mod_pow2_bits_low, Z.shiftr_spec, negb_involutive by lia. by apply sign_bit.
Qed.

(** ** Arrays of integers *)

Lemma concat_le32 (zs : list Z) : length (concat (map le32 zs)) = (4 * length zs)%nat.
Proof. induction zs as [|z zs IH]; [done|]. cbn [map concat]. rewrite length_app, IH, le32_length. cbn [length]. lia. Qed.
Lemma concat_le64 (zs : list Z) : length (concat (map le64 zs)) = (8 * length zs)%nat.
Proof. induction zs as [|z zs IH]; [done|]. cbn [map concat]. rewrite length_app, IH, le64_length. cbn [length]. lia. Qed.

(** Moving the elements apart. *)
Lemma rearrange_ok (pre xs : list Z) : forall buf, forallb narrow xs = true -> take (length pre + 1 + 4 * length xs) buf = take (length pre + 1) buf ++ concat (map le32 xs) ->
  (length pre + 1 + 8 * length xs <= length buf)%nat ->
  rearrange (length xs) (Z.of_nat (length xs) - 1) buf (Z.of_nat (length pre)) =
    Some (take (length pre + 1) buf ++ concat (map le64 xs) ++ drop (length pre + 1 + 8 * length xs) buf).
Proof.
  induction xs as [|x xs IH] using rev_ind; intros buf Hn Ht Hl.
  - cbn. rewrite Nat.add_0_r. by rewrite take_drop.
  - rewrite forallb_app in Hn. cbn in Hn. apply andb_true_iff in Hn as [Hn Hx]. rewrite andb_true_r in Hx. rewrite length_app in *. cbn [length] in *.
    rewrite !map_app, !concat_app in *. cbn [map concat] in *. rewrite !app_nil_r in *.
    set (p := (length pre + 1)%nat) in *. set (n := length xs) in *. replace (n + 1)%nat with (S n) by lia. cbn [rearrange].
    assert (Z.of_nat (length pre) + 1 = Z.of_nat p) as -> by lia. replace (Z.of_nat (S n) - 1) with (Z.of_nat n) by lia.
    assert (take 4 (drop (p + 4 * n) buf) = le32 x) as Hx4.
    { apply (f_equal (drop (p + 4 * n))) in Ht. rewrite app_assoc, drop_app_length' in Ht by (rewrite length_app, length_take, concat_le32; fold n; lia).
      replace (p + 4 * (n + 1))%nat with (p + 4 * n + 4)%nat in Ht by lia. by rewrite <- take_drop_commute in Ht. }
    rewrite memcpy_Some by lia. replace (Z.to_nat (Z.of_nat p + Z.of_nat n * 4)) with (p + 4 * n)%nat by lia. change (Z.to_nat 4) with 4%nat. rewrite Hx4.
    rewrite memcpy_at_splice by (rewrite ?le32_length; lia). set (o := (p + 8 * n)%nat). replace (Z.to_nat (Z.of_nat p + Z.of_nat n * 8)) with o by lia.
    destruct (sign_byte x Hx) as (b & Eb & Hb). 
    assert (aget (splice buf o (le32 x)) (Z.of_nat p + Z.of_nat n * 8 + 3) = Some b) as ->.
    { replace (Z.of_nat p + Z.of_nat n * 8 + 3) with (Z.of_nat (o + 3)) by lia. rewrite aget_nat, <- lookup_drop, splice_drop_at by lia. by rewrite lookup_app_l by (rewrite le32_length; lia). }
    assert (length (splice buf o (le32 x)) = length buf) as Hs32 by (apply splice_length; rewrite le32_length; lia).
    unfold uint32_to_uint64. rewrite Hb. fold (sign_ext x). rewrite memcpy_at_splice by (rewrite ?Hs32; change (length (sign_ext x)) with 4%nat; lia).
    replace (Z.to_nat (Z.of_nat p + Z.of_nat n * 8 + 4)) with (o + length (le32 x))%nat by (rewrite le32_length; lia).
    rewrite splice_splice by (rewrite le32_length; lia). rewrite <- le64_narrow by done.
    assert (length (splice buf o (le64 x)) = length buf) as Hsl by (apply splice_length; rewrite le64_length; lia).
    rewrite IH; [|done| |lia].
    + rewrite splice_take_before, splice_drop_at by lia. rewrite <- !app_assoc. by replace (p + 8 * S n)%nat with (o + length (le64 x))%nat by (rewrite le64_length; lia).
    + rewrite !splice_take_before by lia. apply (f_equal (take (p + 4 * n))) in Ht. rewrite take_take, Nat.min_l in Ht by lia. rewrite Ht, app_assoc.
      apply take_app_length'. rewrite length_app, length_take, concat_le32. fold n. lia.
Qed.

(** The elements so far, four bytes each as long as that is enough. *)
Definition packed_ints (zs : list Z) : list Z := concat (map (if forallb narrow zs then le32 else le64) zs).
Definition width (zs : list Z) : Z := if forallb narrow zs then 4 else 8.

Lemma packed_ints_length zs : Z.of_nat (length (packed_ints zs)) = width zs * Z.of_nat (length zs).
Proof. unfold packed_ints, width. destruct (forallb narrow zs); rewrite ?concat_le32, ?concat_le64; lia. Qed.

Lemma packed_ints_snoc zs z : packed_ints (zs ++ [z]) =
  if forallb narrow zs then if narrow z then packed_ints zs ++ le32 z else concat (map le64 zs) ++ le64 z else packed_ints zs ++ le64 z.
Proof.
  unfold packed_ints. rewrite forallb_app. cbn [forallb]. rewrite andb_true_r.
  destruct (forallb narrow zs), (narrow z); cbn [andb]; rewrite map_app, concat_app; cbn [map concat]; by rewrite app_nil_r.
Qed.

Section Integers.
Context {UD : Type}.
Variables (pre : list Z) (h : Z).

(** The array with header byte [h] behind [pre]; [tail] is free. *)
Definition array_state (zs tail : list Z) (ud : UD) : iarray UD :=
  MkIarray (pre ++ h :: packed_ints zs ++ tail) ud (Z.of_nat (length pre) + 1 + Z.of_nat (length (packed_ints zs))) (Z.of_nat (length tail)) (width zs) (Z.of_nat (length zs) + 1).

Lemma less_unsigned_ok size n : 0 <= size < 2 ^ 31 -> less_unsigned size n = (size <? n).
Proof. intros. unfold less_unsigned. by rewrite u64_small by lia. Qed.

Lemma array_split (x tail : list Z) k : pre ++ h :: x ++ tail = (pre ++ h :: x) ++ tail /\ Z.of_nat (length pre) + 1 + Z.of_nat (length x) + k = Z.of_nat (length (pre ++ h :: x)) + k.
Proof. split; [by rewrite <- app_assoc|]. rewrite length_app. cbn [length]. lia. Qed.

(** Making room for eight bytes each. *)
Lemma rearranged zs tail : forallb narrow zs = true -> (4 * length zs <= length tail)%nat ->
  rearrange (length zs) (Z.of_nat (length zs) - 1) (pre ++ h :: packed_ints zs ++ tail) (Z.of_nat (length pre)) =
    Some (((pre ++ [h]) ++ concat (map le64 zs)) ++ drop (4 * length zs) tail).
Proof.
  intros Ea Hl. assert (packed_ints zs = concat (map le32 zs)) as -> by (unfold packed_ints; by rewrite Ea). pose proof (concat_le32 zs) as H32.
  change (h :: concat (map le32 zs) ++ tail) with ([h] ++ concat (map le32 zs) ++ tail).
  assert (take (length pre + 1) (pre ++ [h] ++ concat (map le32 zs) ++ tail) = pre ++ [h]) as Et by (rewrite app_assoc; apply take_app_length'; by rewrite length_app).
  rewrite rearrange_ok; [rewrite Et|done|rewrite Et|].
  - rewrite <- !app_assoc. do 4 f_equal. rewrite !app_assoc, drop_app_ge by (rewrite !length_app; cbn [length]; lia). f_equal. rewrite !length_app. cbn [length]. lia.
  - rewrite !app_assoc. apply take_app_length'. rewrite !length_app, H32. cbn [length]. lia.
  - rewrite !length_app. cbn [length]. lia.
Qed.

Lemma put_integer_ok zs tail z u ud : - 2 ^ 63 <= z < 2 ^ 63 -> Z.of_nat (length (packed_ints zs ++ tail)) < 2 ^ 31 ->
  (if narrow z then take 4 u = le32 z else take 8 u = le64 z) ->
  forallb narrow (zs ++ [z]) = true \/ 16 + 8 * Z.of_nat (length zs) <= Z.of_nat (length (packed_ints zs ++ tail)) ->
  exists r, put_integer (Z.of_nat (length pre)) (if narrow z then 4 else 8) u (array_state zs tail ud) = Some r /\
    match r with
    | None => Z.of_nat (length (packed_ints zs ++ tail)) < 16 + 8 * Z.of_nat (length zs)
    | Some st => exists tail', st = array_state (zs ++ [z]) tail' ud /\ length (packed_ints (zs ++ [z]) ++ tail') = length (packed_ints zs ++ tail)
    end.
Proof.
  intros Hz H31 Hu Hroom. unfold put_integer, array_state. rewrite length_app in *. pose proof (packed_ints_length zs) as Hpl. rewrite less_unsigned_ok by lia.
  assert (0 <= width zs <= 8) as Hw by (unfold width; destruct (forallb narrow zs); lia).
  assert (width zs * Z.of_nat (length zs) <= 8 * Z.of_nat (length zs)) as Hw8 by (apply Z.mul_le_mono_nonneg_r; lia).
  destruct (Z.ltb_spec (Z.of_nat (length tail)) 8); [exists None; split; [done|]; rewrite length_app; lia|].
  destruct (array_split (packed_ints zs) tail 0) as [E1 E2]. rewrite !Z.add_0_r in E2. 
  unfold width in *. rewrite forallb_app in *. cbn [forallb] in *. rewrite andb_true_r in *. pose proof (packed_ints_snoc zs z) as Es.
  destruct (narrow z) eqn:En.
  - cbn [Z.eqb Pos.eqb]. unfold local_word. rewrite Hu. change (le32 z) with (dword_bytes (u32 z)). rewrite dword_value by apply u32_range.
    rewrite E1, E2, memcpy_at_tail by (cbn [length dword_bytes]; lia). fold (le32 z).
    destruct (forallb narrow zs) eqn:Ea; cbn [Z.eqb Pos.eqb andb] in *.
    + eexists. split; [done|]. exists (drop 4 tail). rewrite Es, !length_app, length_drop, le32_length. cbn [length]. split; [|lia]. f_equal; try lia.
      by rewrite <- !app_assoc.
    + rewrite sign_word by done. unfold uint32_to_uint64. fold (sign_ext z).
      replace (Z.of_nat (length (pre ++ h :: packed_ints zs)) + 4) with (Z.of_nat (length ((pre ++ h :: packed_ints zs) ++ le32 z))) by (rewrite (length_app _ (le32 z)), le32_length; lia).
      rewrite (app_assoc _ (le32 z)), memcpy_at_tail by (change (length (sign_ext z)) with 4%nat; rewrite length_drop, le32_length; lia).
      eexists. split; [done|]. exists (drop 4 (drop 4 tail)). rewrite Es, le64_narrow, !length_app, !length_drop, le32_length by done. change (length (sign_ext z)) with 4%nat.
      cbn [length]. split; [|lia]. f_equal; try lia. by rewrite <- !app_assoc.
  - cbn [Z.eqb Pos.eqb negb andb] in *. unfold local_word. rewrite Hu. unfold le64 at 1 2. rewrite qword_value by apply u64_range. fold (le64 z).
    destruct (forallb narrow zs) eqn:Ea; cbn [Z.eqb Pos.eqb andb] in *.
    + destruct Hroom as [Hroom|Hroom]; [done|]. replace (Z.of_nat (length zs) + 1 - 1) with (Z.of_nat (length zs)) by lia.
      rewrite less_unsigned_ok by lia. destruct (Z.ltb_spec (Z.of_nat (length tail) - Z.of_nat (length zs) * 4) 8); [lia|].
      replace (Z.of_nat (length zs) + 1 - 2) with (Z.of_nat (length zs) - 1) by lia. rewrite Nat2Z.id.
      rewrite rearranged by (done || lia). pose proof (concat_le64 zs) as H64.
      replace (Z.of_nat (length pre) + 1 + Z.of_nat (length (packed_ints zs)) + Z.of_nat (length zs) * 4) with (Z.of_nat (length ((pre ++ [h]) ++ concat (map le64 zs))))
        by (rewrite !length_app; cbn [length]; lia).
      rewrite memcpy_at_tail by (rewrite le64_length, length_drop; lia).
      eexists. split; [done|]. exists (drop 8 (drop (4 * length zs) tail)). rewrite Es, !length_app, !length_drop, le64_length. cbn [length]. split; [|lia]. f_equal; try lia.
      by rewrite <- !app_assoc.
    + rewrite E1, E2, memcpy_at_tail by (rewrite le64_length; lia).
      eexists. split; [done|]. exists (drop 8 tail). rewrite Es, !length_app, length_drop, le64_length. cbn [length]. split; [|lia]. f_equal; try lia.
      by rewrite <- !app_assoc.
Qed.
(** The callback gives the elements [zs], then the end. *)
Section Loop.
Variables (cb : callback UD) (arg : sproto_arg) (zs : list Z) (uds : nat -> UD) (ud_end : UD).
Hypothesis Hcb : forall i z, zs !! i = Some z -> - 2 ^ 63 <= z < 2 ^ 63 /\ exists u,
  cb (set_index arg (Z.of_nat i + 1)) (uds i) (malloc 8) = Ok (if narrow z then 4 else 8, u, uds (S i)) /\ (if narrow z then take 4 u = le32 z else take 8 u = le64 z).
Hypothesis Hend : exists u, cb (set_index arg (Z.of_nat (length zs) + 1)) (uds (length zs)) (malloc 8) = Ok (SPROTO_CB_NIL, u, ud_end).

Lemma packed_ints_grows l z : (length (packed_ints l) + 4 <= length (packed_ints (l ++ [z])))%nat.
Proof.
  rewrite packed_ints_snoc. pose proof (packed_ints_length l) as Hl. unfold width in Hl.
  destruct (forallb narrow l), (narrow z); rewrite ?length_app, ?concat_le64, ?le32_length, ?le64_length; lia.
Qed.

Lemma integer_loop_ok rest : forall fuel done tail, zs = done ++ rest -> (length tail < fuel)%nat -> Z.of_nat (length (packed_ints done ++ tail)) < 2 ^ 31 ->
  forallb narrow zs = true \/ 8 + 8 * Z.of_nat (length zs) <= Z.of_nat (length (packed_ints done ++ tail)) ->
  exists r, integer_loop cb fuel arg (Z.of_nat (length pre)) (array_state done tail (uds (length done))) = Ok r /\
    match r with
    | None => Z.of_nat (length (packed_ints done ++ tail)) < 8 + 8 * Z.of_nat (length zs)
    | Some (st, noarray) => noarray = false /\ exists tail', st = array_state zs tail' ud_end /\ length (packed_ints zs ++ tail') = length (packed_ints done ++ tail)
    end.
Proof.
  induction rest as [|z rest IH]; intros fuel done tail Ezs Hf H31 Hroom; (destruct fuel as [|fuel]; [lia|]); cbn [integer_loop array_state ia_index ia_ud ia_buf ia_buffer ia_size ia_intlen]; unfold call_local.
  - rewrite app_nil_r in Ezs. subst done. destruct Hend as [u Eu]. rewrite Eu. cbn [Z.leb Z.eqb]. eexists. split; [done|]. split; [done|]. by exists tail.
  - destruct (Hcb (length done) z) as (Hz & u & Eu & Hu); [rewrite Ezs; by apply list_lookup_middle|]. rewrite Eu.
    assert (length zs = length done + S (length rest))%nat as Hlz by (by rewrite Ezs, length_app).
    assert (zs = (done ++ [z]) ++ rest) as Ezs' by (by rewrite <- app_assoc).
    assert (forallb narrow (done ++ [z]) = true \/ 16 + 8 * Z.of_nat (length done) <= Z.of_nat (length (packed_ints done ++ tail))) as Hroom'.
    { destruct Hroom as [Hn|?]; [left | right; lia]. rewrite Ezs', forallb_app in Hn. by apply andb_true_iff in Hn as [? _]. }
    destruct (put_integer_ok done tail z u (uds (S (length done))) Hz H31 Hu Hroom') as (r & Er & Hr).
    assert (((if narrow z then 4 else 8) <=? 0) = false) as -> by (by destruct (narrow z)). unfold array_state in Er. rewrite Er. cbn [lift].
    destruct r as [st|]; [|eexists; split; [done|]; cbn beta iota; lia]. destruct Hr as (tail' & -> & Hl').
    replace (S (length done)) with (length (done ++ [z])) by (rewrite length_app; cbn [length]; lia).
    pose proof (packed_ints_grows done z) as Hg. rewrite <- Hl' in *. rewrite !length_app in Hl'.
    apply (IH fuel (done ++ [z]) tail' Ezs'); [lia | done | done].
Qed.

Lemma integers_packed : zs <> [] -> integers zs = width zs :: packed_ints zs.
Proof. unfold integers, width, packed_ints. by destruct zs; [|destruct (forallb narrow _)]. Qed.

Lemma encode_integer_array_ok t : Z.of_nat (length t) < 2 ^ 31 ->
  forallb narrow zs = true \/ 9 + 8 * Z.of_nat (length zs) <= Z.of_nat (length (h :: t)) ->
  exists r, encode_integer_array cb arg (uds 0) (pre ++ h :: t) (Z.of_nat (length pre)) (Z.of_nat (length (h :: t))) = Ok r /\
    match r with
    | None => Z.of_nat (length (h :: t)) < 9 + 8 * Z.of_nat (length zs)
    | Some (e, noarray, buf, ud) => noarray = false /\ ud = ud_end /\ e = Z.of_nat (length pre + length (integers zs)) /\
        exists rest, buf = pre ++ integers zs ++ rest /\ length (integers zs ++ rest) = length (h :: t)
    end.
Proof.
  intros H31 Hroom. unfold encode_integer_array. cbn [length] in *. destruct (Z.ltb_spec (Z.of_nat (S (length t))) 1); [lia|].
  destruct (integer_loop_ok zs (S (length (pre ++ h :: t))) [] t eq_refl) as (r & E & Hr); [rewrite length_app; cbn [length]; lia | cbn; lia | |].
  { destruct Hroom; [by left | right]. change (packed_ints []) with (@nil Z). cbn [app]. lia. }
  unfold array_state in E at 1. change (packed_ints []) with (@nil Z) in *. cbn [app length] in *. rewrite Z.add_0_r in E. change (width []) with 4 in E.
  replace (Z.of_nat 0 + 1) with 1 in E by lia. replace (Z.of_nat (S (length t)) - 1) with (Z.of_nat (length t)) by lia. rewrite E.
  destruct r as [[st b]|]; [|eexists; split; [done|]; cbn beta iota; lia]. destruct Hr as (-> & tail' & -> & Hl'). cbn [array_state ia_buffer ia_buf ia_ud ia_intlen].
  destruct (decide (zs = [])) as [Ez|Hz].
  - rewrite Ez in *. change (packed_ints []) with (@nil Z) in *. cbn [length app] in *. match goal with |- context [?a =? ?b] => destruct (Z.eqb_spec a b); [|lia] end. eexists. split; [done|]. cbn [integers length app].
    split_and!; [done | done | lia |]. exists (h :: tail'). cbn [length]. split; [done | lia].
  - pose proof (packed_ints_length zs) as Hp. assert (4 <= Z.of_nat (length (packed_ints zs))).
    { destruct zs as [|z l]; [done|]. unfold width in Hp. cbn [length] in Hp. destruct (forallb narrow (z :: l)); lia. }
    match goal with |- context [?a =? ?b] => destruct (Z.eqb_spec a b); [lia|] end. rewrite aset_splice by (rewrite length_app; cbn [length]; lia). cbn [lift].
    eexists. split; [done|]. rewrite integers_packed by done. cbn [length]. split_and!; [done | done | lia |]. exists tail'. cbn [app length]. split; [|lia].
    unfold splice. rewrite Nat2Z.id, take_app_length. cbn [length app]. rewrite drop_app_ge by lia. replace (length pre + 1 - length pre)%nat with 1%nat by lia. cbn [drop].
    do 2 f_equal. unfold width. by destruct (forallb narrow zs).
Qed.
End Loop.
End Integers.
