(* ===== verification/SprotoEncode.v ===== *)
(** * Encoding writes the message

    [sproto_encode], with the callback that reads Lua tables, writes the bytes of [msg] or runs out of room; with the room [m_need] it never does.  Integers of more than 32
    bits in arrays need the room from the start ([integer_array_overflow]). *)

From S2P Require Import Prelude CString Buffer LuaError Sproto SprotoSpec SprotoPack SprotoCode SprotoLua SprotoWire SprotoInts.

(** ** Callbacks that deliver bytes

    The room behind [pre] holds [bytes] afterwards, or was less than [need]. *)
Section Deliver.
Context {UD : Type}.

Definition delivers (m : res (Z * list Z * UD)) (pre region bytes : list Z) (need : Z) (ud' : UD) : Prop :=
  exists r region' ud, m = Ok (r, pre ++ region', ud) /\ length region' = length region /\
    (r = -1 /\ Z.of_nat (length region) < need \/ r = Z.of_nat (length bytes) /\ ud = ud' /\ exists rest, region' = bytes ++ rest).

(** Enough room, or nothing that needs it. *)
Definition room_for (wide : bool) (need : Z) (region : list Z) : Prop := wide = false \/ need <= Z.of_nat (length region).

Lemma call_at_ok (cb : callback UD) arg ud pre region bytes need ud' : delivers (cb arg ud region) [] region bytes need ud' ->
  delivers (call_at cb arg ud (pre ++ region) (Z.of_nat (length pre)) (Z.of_nat (length region))) pre region bytes need ud'.
Proof.
  intros (r & region' & ud1 & E & Hl & H). unfold call_at. rewrite memcpy_end by done. cbn [lift]. rewrite E. cbn [app].
  rewrite memcpy_at_tail by lia. cbn [lift]. exists r, region', ud1. rewrite Hl, drop_all, app_nil_r. done.
Qed.

(** How the loop over an array ends. *)
Definition fills (m : res (array_end * list Z * UD)) (pre region bytes : list Z) (need : Z) (ud' : UD) : Prop :=
  exists e region' ud, m = Ok (e, pre ++ region', ud) /\ length region' = length region /\
    (e = Return (-1) /\ Z.of_nat (length region) < need \/ e = EndAt (Z.of_nat (length pre + length bytes)) /\ ud = ud' /\ exists rest, region' = bytes ++ rest).

(** Bytes written before belong to the array. *)
Lemma fills_app m pre done region bytes need need' ud' : fills m (pre ++ done) region bytes need ud' -> need + Z.of_nat (length done) <= need' ->
  fills m pre (done ++ region) (done ++ bytes) need' ud'.
Proof.
  intros (e & region' & ud & -> & Hl & H) Hn. exists e, (done ++ region'), ud. rewrite <- app_assoc, !length_app, Hl. split; [done|]. split; [done|].
  destruct H as [[-> ?]|(-> & -> & rest & ->)]; [left; split; [done | lia]|right]. rewrite length_app. split; [do 2 f_equal; lia|]. split; [done|]. exists rest. by rewrite app_assoc.
Qed.

Section Loops.
Variables (cb : callback UD) (arg : sproto_arg).

Lemma boolean_loop_ok bs : forall fuel i (uds : nat -> UD) pre region ud_end, (length region < fuel)%nat ->
  (forall k b, bs !! k = Some b -> exists u, cb (set_index arg (i + Z.of_nat k)) (uds k) (malloc 4) = Ok (4, u, uds (S k)) /\ local_word u 4 = if b : bool then 1 else 0) ->
  (exists u, cb (set_index arg (i + Z.of_nat (length bs))) (uds (length bs)) (malloc 4) = Ok (SPROTO_CB_NIL, u, ud_end)) ->
  fills (boolean_loop cb fuel arg i (uds O) (pre ++ region) (Z.of_nat (length pre)) (Z.of_nat (length region))) pre region (map (fun b : bool => if b then 1 else 0) bs)
    (Z.of_nat (length bs)) ud_end.
Proof.
  induction bs as [|b bs IH]; intros fuel i uds pre region ud_end Hf Hcb Hend; (destruct fuel as [|fuel]; [lia|]); cbn [boolean_loop]; unfold call_local.
  - destruct Hend as [u Eu]. cbn [length] in Eu. rewrite Z.add_0_r in Eu. rewrite Eu. cbn. exists (EndAt (Z.of_nat (length pre))), region, ud_end.
    split; [done|]. split; [done|]. right. cbn. rewrite Nat.add_0_r. split; [done|]. split; [done|]. by exists region.
  - destruct (Hcb O b eq_refl) as (u & Eu & Hu). cbn [Z.of_nat] in Eu. rewrite Z.add_0_r in Eu. rewrite Eu. cbn [Z.ltb Z.compare].
    destruct region as [|x region].
    { cbn. exists (Return (-1)), [], (uds 1%nat). split; [done|]. split; [done|]. left. split; [done|]. cbn. lia. }
    cbn [length]. destruct (Z.ltb_spec (Z.of_nat (S (length region))) 1); [lia|].
    rewrite aset_splice by (rewrite length_app; cbn [length]; lia). cbn [lift]. rewrite Hu.
    assert (forall v, splice (pre ++ x :: region) (Z.to_nat (Z.of_nat (length pre))) [v] = (pre ++ [v]) ++ region) as Es.
    { intros v. unfold splice. rewrite Nat2Z.id, take_app_length, <- app_assoc. cbn [length app]. do 2 f_equal. rewrite drop_app_ge by lia.
      by replace (length pre + 1 - length pre)%nat with 1%nat by lia. }
    rewrite Es. replace (if (if b then 1 else 0) =? 0 then 0 else 1) with (if b then 1 else 0) by (by destruct b). set (v := if b then 1 else 0).
    replace (Z.of_nat (S (length region)) - 1) with (Z.of_nat (length region)) by lia. replace (Z.of_nat (length pre) + 1) with (Z.of_nat (length (pre ++ [v]))) by (rewrite length_app; cbn [length]; lia).
    apply (fills_app _ pre [v] region (map (fun b : bool => if b then 1 else 0) bs) (Z.of_nat (length bs))); [|cbn [length]; lia].
    apply (IH fuel (i + 1) (fun k => uds (S k)) (pre ++ [v]) region ud_end); [cbn [length] in Hf; lia|..].
    + intros k c Hk. destruct (Hcb (S k) c Hk) as (w & Ew & Hw). exists w. split; [|done]. rewrite <- Ew. do 2 f_equal. lia.
    + destruct Hend as [w Ew]. exists w. rewrite <- Ew. do 2 f_equal. cbn [length]. lia.
Qed.

Lemma object_loop_ok (items : list item) : forall fuel i (uds : nat -> UD) pre region ud_end, (length region < fuel)%nat -> Z.of_nat (length region) < 2 ^ 31 ->
  (forall k it r, items !! k = Some it -> Z.of_nat (length r) < 2 ^ 31 -> room_for (it_wide it) (it_need it) r ->
    delivers (cb (set_index arg (i + Z.of_nat k)) (uds k) r) [] r (it_bytes it) (it_need it) (uds (S k))) ->
  (forall r, cb (set_index arg (i + Z.of_nat (length items))) (uds (length items)) r = Ok (SPROTO_CB_NIL, r, ud_end)) ->
  room_for (existsb it_wide items) (4 + sum (map (fun it => 4 + it_need it) items)) region -> Forall (fun it => Z.of_nat (length (it_bytes it)) <= it_need it) items ->
  fills (object_loop cb fuel arg i (uds O) (pre ++ region) (Z.of_nat (length pre)) (Z.of_nat (length region))) pre region (objects items)
    (4 + sum (map (fun it => 4 + it_need it) items)) ud_end.
Proof.
  induction items as [|it items IH]; intros fuel i uds pre region ud_end Hf H31 Hcb Hend Hroom Hneed; (destruct fuel as [|fuel]; [lia|]); cbn [object_loop].
  - destruct (Z.ltb_spec (Z.of_nat (length region)) SIZEOF_LENGTH) as [Hs|Hs]; unfold SIZEOF_LENGTH in *.
    { exists (Return (-1)), region, (uds O). split; [done|]. split; [done|]. left. split; [done|]. cbn. lia. }
    specialize (Hend (drop 4 region)). cbn [length] in Hend. rewrite Z.add_0_r in Hend. unfold call_at.
    replace (pre ++ region) with ((pre ++ take 4 region) ++ drop 4 region) by (by rewrite <- app_assoc, take_drop).
    replace (Z.of_nat (length pre) + 4) with (Z.of_nat (length (pre ++ take 4 region))) by (rewrite length_app, length_take; lia).
    rewrite memcpy_end by (rewrite length_drop; lia). cbn [lift]. rewrite Hend, memcpy_at_tail by done. cbn [lift]. rewrite drop_all, app_nil_r, <- app_assoc, take_drop.
    cbn. exists (EndAt (Z.of_nat (length pre))), region, ud_end. split; [done|]. split; [done|]. right. cbn. rewrite Nat.add_0_r. split; [done|]. split; [done|]. by exists region.
  - apply Forall_cons in Hneed as [Hn1 Hn2]. assert (0 <= it_need it) as Hn0 by lia.
    assert (0 <= sum (map (fun it => 4 + it_need it) items)) as Hsum by (clear -Hn2; unfold sum; induction Hn2; cbn [map fold_right]; lia).
    change (sum (map (fun it => 4 + it_need it) (it :: items))) with (4 + it_need it + sum (map (fun it => 4 + it_need it) items)) in *. set (rest := sum (map _ items)) in *.
    destruct (Z.ltb_spec (Z.of_nat (length region)) SIZEOF_LENGTH) as [Hs|Hs]; unfold SIZEOF_LENGTH in *.
    { exists (Return (-1)), region, (uds O). split; [done|]. split; [done|]. left. split; [done|]. lia. }
    assert (length (take 4 region) = 4%nat) as H4 by (rewrite length_take; lia). pose proof (length_drop region 4) as Hd4.
    pose proof (Hcb O it (drop 4 region) eq_refl) as Hc. cbn [Z.of_nat existsb] in Hc, Hroom. rewrite Z.add_0_r in Hc.
    destruct (call_at_ok cb (set_index arg i) (uds O) (pre ++ take 4 region) (drop 4 region) (it_bytes it) (it_need it) (uds 1%nat)) as (r & region' & ud & E & Hl & H').
    { apply Hc; [lia|]. destruct Hroom as [Hw%orb_false_elim|Hr]; [left; tauto | right; lia]. }
    replace (pre ++ region) with ((pre ++ take 4 region) ++ drop 4 region) by (by rewrite <- app_assoc, take_drop).
    replace (Z.of_nat (length pre) + 4) with (Z.of_nat (length (pre ++ take 4 region))) by (rewrite length_app; lia).
    replace (Z.of_nat (length region) - 4) with (Z.of_nat (length (drop 4 region))) by lia. rewrite E.
    destruct H' as [[-> Hshort]|(-> & -> & rest' & ->)].
    { cbn. exists (Return (-1)), (take 4 region ++ region'), ud. rewrite <- app_assoc, length_app. split; [done|]. split; [lia|]. left. split; [done | lia]. }
    destruct (Z.ltb_spec (Z.of_nat (length (it_bytes it))) 0); [lia|]. rewrite <- app_assoc, fill_size_tail by done. cbn [lift].
    rewrite length_app in Hl.
    replace (pre ++ dword_bytes (Z.of_nat (length (it_bytes it))) ++ it_bytes it ++ rest') with ((pre ++ with_size (it_bytes it)) ++ rest') by (unfold with_size; by rewrite <- !app_assoc).
    replace (Z.of_nat (length (pre ++ take 4 region)) + Z.of_nat (length (it_bytes it))) with (Z.of_nat (length (pre ++ with_size (it_bytes it))))
      by (unfold with_size; rewrite !length_app, dword_bytes_length; lia).
    replace (Z.of_nat (length (drop 4 region)) - Z.of_nat (length (it_bytes it))) with (Z.of_nat (length rest')) by lia.
    assert (length region = length (with_size (it_bytes it) ++ rest')) as Elen by (unfold with_size; rewrite !length_app, dword_bytes_length; lia).
    assert (forall m b n u, fills m pre (with_size (it_bytes it) ++ rest') b n u -> fills m pre region b n u) as Hcast by (intros m b n u; unfold fills; by rewrite Elen).
    apply Hcast. apply (fills_app _ pre (with_size (it_bytes it)) rest' (objects items) (4 + rest)); [|unfold with_size; rewrite length_app, dword_bytes_length; lia].
    apply (IH fuel (i + 1) (fun k => uds (S k))); try done; [lia|lia| | |].
    + intros k jt r Hk Hr1 Hr. pose proof (Hcb (S k) jt r Hk Hr1 Hr) as Hj. replace (i + 1 + Z.of_nat k) with (i + Z.of_nat (S k)) by lia. done.
    + intros r. rewrite <- Hend. do 2 f_equal. cbn [length]. lia.
    + destruct Hroom as [[_ Hw]%orb_false_elim|Hr]; [by left | right]. fold rest. lia.
Qed.
(** An object with its length before it. *)
Lemma encode_object_ok ud pre region bytes need wide ud' : Z.of_nat (length bytes) <= need ->
  (forall r, Z.of_nat (length r) < 2 ^ 31 -> room_for wide need r -> delivers (cb arg ud r) [] r bytes need ud') -> Z.of_nat (length region) < 2 ^ 31 ->
  room_for wide (4 + need) region ->
  delivers (encode_object cb arg ud (pre ++ region) (Z.of_nat (length pre)) (Z.of_nat (length region))) pre region (with_size bytes) (4 + need) ud'.
Proof.
  intros Hn Hcb H31 Hroom. unfold encode_object, SIZEOF_LENGTH. destruct (Z.ltb_spec (Z.of_nat (length region)) 4).
  { exists (-1), region, ud. split; [done|]. split; [done|]. left. lia. }
  pose proof (length_drop region 4) as Hd4. assert (length (take 4 region) = 4%nat) as H4 by (rewrite length_take; lia).
  destruct (call_at_ok cb arg ud (pre ++ take 4 region) (drop 4 region) bytes need ud') as (r & region' & ud1 & E & Hl & H').
  { apply Hcb; [lia|]. destruct Hroom; [by left | right; lia]. }
  replace (pre ++ region) with ((pre ++ take 4 region) ++ drop 4 region) by (by rewrite <- app_assoc, take_drop).
  replace (Z.of_nat (length pre) + 4) with (Z.of_nat (length (pre ++ take 4 region))) by (rewrite length_app; lia).
  replace (Z.of_nat (length region) - 4) with (Z.of_nat (length (drop 4 region))) by lia. rewrite E.
  destruct H' as [[-> Hshort]|(-> & -> & rest' & ->)].
  { cbn. exists (-1), (take 4 region ++ region'), ud1. rewrite <- app_assoc, length_app. split; [done|]. split; [lia|]. left. split; [done | lia]. }
  rewrite length_app in Hl. destruct (Z.ltb_spec (Z.of_nat (length bytes)) 0); [lia|]. destruct (Z.leb_spec (Z.of_nat (length bytes)) (Z.of_nat (length (drop 4 region)))); [|lia].
  cbn [lift]. rewrite <- app_assoc, fill_size_tail by done. cbn [lift]. exists (Z.of_nat (length bytes) + 4), (with_size bytes ++ rest'), ud'.
  unfold with_size. rewrite <- app_assoc, !length_app, dword_bytes_length. split; [done|]. split; [lia|]. right. split; [lia|]. split; [done|]. exists rest'. by rewrite <- app_assoc.
Qed.

(** An array with its length before it, from what its loop does. *)
Lemma array_size_ok m pre region bytes need ud' : fills m (pre ++ take 4 region) (drop 4 region) bytes need ud' -> (4 <= length region)%nat ->
  delivers (let* (e, buf, ud) := m in
    match e with Return r => Ok (r, buf, ud)
    | EndAt buffer => let* (r, buf) := lift (fill_size buf (Z.of_nat (length pre)) (buffer - (Z.of_nat (length pre) + SIZEOF_LENGTH))) in Ok (r, buf, ud) end)
    pre region (with_size bytes) (4 + need) ud'.
Proof.
  intros (e & region' & ud & -> & Hl & H) H4. rewrite length_drop in *. assert (length (take 4 region) = 4%nat) as Ht by (rewrite length_take; lia).
  destruct H as [[-> Hs]|(-> & -> & rest & ->)].
  - exists (-1), (take 4 region ++ region'), ud. rewrite <- app_assoc, length_app. split; [done|]. split; [lia|]. left. lia.
  - rewrite length_app in Hl. rewrite <- app_assoc, fill_size_tail by done. cbn [lift]. unfold SIZEOF_LENGTH. rewrite length_app, Ht.
    replace (Z.of_nat (length pre + 4 + length bytes) - (Z.of_nat (length pre) + 4)) with (Z.of_nat (length bytes)) by lia.
    exists (Z.of_nat (length bytes) + 4), (with_size bytes ++ rest), ud'. unfold with_size. rewrite <- app_assoc, !length_app, dword_bytes_length.
    split; [done|]. split; [lia|]. right. split; [lia|]. split; [done|]. exists rest. by rewrite <- app_assoc.
Qed.

(** The loop of [encode_array] on what is behind the length. *)
Definition array_body (ud : UD) (buf : list Z) (buffer size : Z) : res (array_end * list Z * UD) :=
  if a_type arg =? SPROTO_TINTEGER then
    let* r := encode_integer_array cb arg ud buf buffer size in
    Ok match r with
       | None => (Return (-1), buf, ud)
       | Some (buffer, noarray, buf, ud) => (if noarray : bool then Return 0 else EndAt buffer, buf, ud)
       end
  else if a_type arg =? SPROTO_TBOOLEAN then boolean_loop cb (S (length buf)) arg 1 ud buf buffer size
  else object_loop cb (S (length buf)) arg 1 ud buf buffer size.

Lemma encode_array_ok ud pre region bytes need ud' :
  ((4 <= length region)%nat -> fills (array_body ud ((pre ++ take 4 region) ++ drop 4 region) (Z.of_nat (length (pre ++ take 4 region))) (Z.of_nat (length (drop 4 region))))
    (pre ++ take 4 region) (drop 4 region) bytes need ud') -> 0 <= need ->
  delivers (encode_array cb arg ud (pre ++ region) (Z.of_nat (length pre)) (Z.of_nat (length region))) pre region (with_size bytes) (4 + need) ud'.
Proof.
  intros Hb Hn. unfold encode_array, SIZEOF_LENGTH. destruct (Z.ltb_spec (Z.of_nat (length region)) 4).
  { exists (-1), region, ud. split; [done|]. split; [done|]. left. lia. }
  specialize (Hb ltac:(lia)). rewrite <- app_assoc, take_drop in Hb. rewrite length_app, length_take, length_drop, Nat.min_l in Hb by lia.
  replace (Z.of_nat (length pre + 4)) with (Z.of_nat (length pre) + 4) in Hb by lia. replace (Z.of_nat (length region - 4)) with (Z.of_nat (length region) - 4) in Hb by lia.
  apply (array_size_ok _ _ _ _ _ _ Hb). lia.
Qed.
End Loops.
End Deliver.

(** ** The callback that reads Lua tables *)

Section Lua.
Context `{LuaNumbers}.
Variables (types : list sproto_type) (n : Z).
Hypothesis Htypes : Forall (type_ok n) types.

(** [msg] and [sproto_encode] agree on messages that nest [d] levels. *)
Definition encodes (d : nat) : Prop := forall st t m region, type_ok n st -> msg types d st t = Some m -> Z.of_nat (length region) < 2 ^ 31 ->
  room_for (m_wide m) (m_need m) region -> exists ud', delivers (sproto_encode (encode types d) st region (MkEncodeUd t None None 0)) [] region (m_bytes m) (m_need m) ud'.

Definition msg_sizes (d : nat) : Prop := forall st t m, type_ok n st -> msg types d st t = Some m -> Z.of_nat (length (m_bytes m)) <= m_need m.

Section Depth.
Variable d : nat.
Hypothesis IH : encodes d.
Hypothesis Hsizes : msg_sizes d.

Lemma object_size f v it : object types (msg types d) f v = Some it -> Z.of_nat (length (it_bytes it)) <= it_need it.
Proof.
  destruct v as [| | | | |t|]; cbn [object]; try done; [destruct (_ =? _); intros [= <-]; cbn; lia|]. destruct (_ =? _); [|done].
  destruct (f_st f) as [i|]; [|done]. destruct (aget types i) as [st|] eqn:Est; [|done]. destruct (msg types d st t) as [m|] eqn:Em; [|done]. intros [= <-]. cbn.
  eapply Hsizes, Em. apply aget_Some in Est as [_ Est]. by apply (Forall_lookup_1 _ _ _ _ Htypes Est).
Qed.

Lemma object_cb f v it args self self' region : object types (msg types d) f v = Some it -> encode_lookup args self = Ok (inr (v, self')) ->
  a_type args = base_type f -> a_subtype args = f_st f -> Z.of_nat (length region) < 2 ^ 31 -> room_for (it_wide it) (it_need it) region ->
  delivers (encode types (S d) args self region) [] region (it_bytes it) (it_need it) self'.
Proof.
  intros Ho El Et Est H31 Hroom. cbn [encode]. rewrite El, Et. destruct v as [| | | |s|t|]; cbn [object] in Ho; try done.
  - destruct (Z.eqb_spec (base_type f) SPROTO_TSTRING) as [->|]; [|done]. injection Ho as <-. cbn [it_bytes it_need lua_tolstring Z.eqb SPROTO_TSTRING SPROTO_TINTEGER SPROTO_TBOOLEAN Pos.eqb].
    destruct (Z.ltb_spec (Z.of_nat (length region)) (Z.of_nat (length s))).
    + exists (-1), region, self'. split; [done|]. split; [done|]. by left.
    + rewrite memcpy_at_front by lia. cbn [lift].
      exists (Z.of_nat (length s)), (s ++ drop (length s) region), self'. split; [done|]. rewrite length_app, length_drop. split; [lia|]. right. split; [done|]. split; [done|]. by eexists.
  - destruct (Z.eqb_spec (base_type f) SPROTO_TSTRUCT) as [->|]; [|done]. cbn [Z.eqb SPROTO_TSTRUCT SPROTO_TSTRING SPROTO_TINTEGER SPROTO_TBOOLEAN Pos.eqb].
    rewrite Est. destruct (f_st f) as [i|]; [|done]. destruct (aget types i) as [st|] eqn:Ei; [|done]. destruct (msg types d st t) as [m|] eqn:Em; [|done].
    injection Ho as <-. cbn [it_bytes it_need it_wide lift] in *. apply aget_Some in Ei as [_ Ei].
    destruct (IH st t m region) as (ud' & r & region' & ud & E & Hl & H'); try done; [by apply (Forall_lookup_1 _ _ _ _ Htypes Ei)|]. rewrite E. cbn [app].
    exists (if r <? 0 then SPROTO_CB_ERROR else r), region', self'. split; [done|]. split; [done|]. destruct H' as [[-> ?]|(-> & -> & Hr)]; [by left|].
    right. destruct (Z.ltb_spec (Z.of_nat (length (m_bytes m))) 0); [lia|]. done.
Qed.

(** An integer in a local variable. *)
Lemma integer_cb v z args self self' : int_of v = Some z -> encode_lookup args self = Ok (inr (v, self')) -> a_type args = SPROTO_TINTEGER ->
  - 2 ^ 63 <= z < 2 ^ 63 /\ exists u, encode types (S d) args self (malloc 8) = Ok (if narrow z then 4 else 8, u, self') /\ (if narrow z then take 4 u = le32 z else take 8 u = le64 z).
Proof.
  intros Hz El Et. destruct v as [| |z'| | | |]; try done. cbn [int_of] in Hz. destruct (Z.leb_spec (- 2 ^ 63) z'), (Z.ltb_spec z' (2 ^ 63)); try done. injection Hz as ->.
  split; [done|]. cbn [encode]. rewrite El, Et. cbn [Z.eqb SPROTO_TINTEGER lua_tointegerx].
  assert ((Z.shiftr z 31 =? 0) || (Z.shiftr z 31 =? -1) = narrow z) as ->.
  { rewrite Z.shiftr_div_pow2 by lia. unfold narrow. destruct (Z.leb_spec (- 2 ^ 31) z), (Z.ltb_spec z (2 ^ 31)), (Z.eqb_spec (z / 2 ^ 31) 0), (Z.eqb_spec (z / 2 ^ 31) (-1)); try done;
      change (2 ^ 31) with 2147483648 in *; Z.div_mod_to_equations; lia. }
  destruct (narrow z); eexists; by split.
Qed.

Lemma boolean_cb v b args self self' region : bool_of v = Some b -> encode_lookup args self = Ok (inr (v, self')) -> a_type args = SPROTO_TBOOLEAN -> (4 <= length region)%nat ->
  exists u, encode types (S d) args self region = Ok (4, u, self') /\ local_word u 4 = if b then 1 else 0.
Proof.
  intros Hb El Et H4. destruct v as [|b'| | | | |]; try done. injection Hb as ->. cbn [encode]. rewrite El, Et. cbn [Z.eqb SPROTO_TINTEGER SPROTO_TBOOLEAN Pos.eqb].
  rewrite memcpy_at_front by done. cbn [lift]. eexists. split; [done|]. by destruct b.
Qed.

(** Nothing there. *)
Lemma nil_cb args self self' region : encode_lookup args self = Ok (inr (VNil, self')) -> encode types (S d) args self region = Ok (SPROTO_CB_NIL, region, self').
Proof. intros El. cbn [encode]. by rewrite El. Qed.

(** ** The elements of an array *)

(** The callback's data before element [i]. *)
Definition elem_ud (f : field) (t a : entries) (self : encode_ud) (i : nat) : encode_ud :=
  match i with O => self | _ => MkEncodeUd t (Some (f_tag f)) (Some a) (if 0 <=? f_key f then i else 0%nat) end.

Definition field_arg (f : field) : sproto_arg := MkArg (name_of f) (f_tag f) (base_type f) (f_st f) 0 (f_key f).

Lemma array_values_spec fuel a : forall i l, array_values fuel a i = Some l ->
  (forall k v, l !! k = Some v -> lua_geti a (i + Z.of_nat k) = v) /\ lua_geti a (i + Z.of_nat (length l)) = VNil.
Proof.
  induction fuel as [|fuel IHf]; intros i l; cbn [array_values]; destruct (lua_geti a i) eqn:E; try done.
  1,2: intros [= <-]; cbn; rewrite Z.add_0_r; split; [intros k v Hk; by rewrite lookup_nil in Hk | done].
  all: destruct (array_values fuel a (i + 1)) as [l'|] eqn:El; [|done]; intros [= <-]; destruct (IHf _ _ El) as [H1 H2]; split;
    [intros [|k] v Hk; cbn in Hk; [injection Hk as <-; by rewrite Z.add_0_r | rewrite <- (H1 k v Hk); f_equal; lia] | cbn [length]; rewrite <- H2; f_equal; lia].
Qed.

Section Elements.
Variables (f : field) (t a : entries) (self : encode_ud) (vals : list lua).
Hypothesis Hself : eu_tbl self = t /\ eu_iter self = O /\ eu_array_tag self <> Some (f_tag f).
Hypothesis Ha : lua_getfield t (name_of f) = VTable a.
Hypothesis Hvals : field_values f a = Some vals.

(** The first element finds the array. *)
Lemma lookup_first i : 0 < i -> encode_lookup (set_index (field_arg f) i) self = encode_lookup (set_index (field_arg f) i) (MkEncodeUd t (Some (f_tag f)) (Some a) O).
Proof.
  intros Hi. destruct Hself as (Et & Ei & Eg). unfold encode_lookup. cbn [set_index field_arg a_index a_tagid a_tagname a_mainindex eu_array_tag eu_tbl eu_array eu_iter].
  destruct (Z.ltb_spec 0 i); [|lia]. destruct (bool_decide_reflect (eu_array_tag self = Some (f_tag f))); [done|]. rewrite bool_decide_eq_true_2 by done. cbn [negb].
  rewrite Et, Ha, Ei. done.
Qed.

(** The data of the callback once the array is found. *)
Lemma elem_lookup_found i v k : k = (if 0 <=? f_key f then i else 0%nat) -> vals !! i = Some v ->
  encode_lookup (set_index (field_arg f) (1 + Z.of_nat i)) (MkEncodeUd t (Some (f_tag f)) (Some a) k) = Ok (inr (v, elem_ud f t a self (S i))).
Proof.
  intros -> Hv. unfold encode_lookup, field_values in *. cbn [set_index field_arg a_index a_tagid a_tagname a_mainindex eu_array_tag eu_tbl eu_array eu_iter elem_ud].
  destruct (Z.ltb_spec 0 (1 + Z.of_nat i)); [|lia]. rewrite bool_decide_eq_true_2 by done. cbn [negb lift eu_array eu_iter eu_tbl eu_array_tag]. destruct (0 <=? f_key f).
  - injection Hvals as <-. apply list_lookup_fmap_Some in Hv as ([k' v'] & -> & Hp). by rewrite Hp.
  - destruct (array_values_spec _ _ _ _ Hvals) as [H1 _]. by rewrite (H1 _ _ Hv).
Qed.

Lemma elem_lookup i v : vals !! i = Some v -> encode_lookup (set_index (field_arg f) (1 + Z.of_nat i)) (elem_ud f t a self i) = Ok (inr (v, elem_ud f t a self (S i))).
Proof.
  intros Hv. destruct i as [|i]; [|by apply elem_lookup_found]. cbn [elem_ud]. rewrite lookup_first by lia. apply elem_lookup_found; [by destruct (0 <=? f_key f) | done].
Qed.

Lemma elem_end region : encode types (S d) (set_index (field_arg f) (1 + Z.of_nat (length vals))) (elem_ud f t a self (length vals)) region =
  Ok (SPROTO_CB_NIL, region, MkEncodeUd t (Some (f_tag f)) (Some a) O).
Proof.
  assert (encode_lookup (set_index (field_arg f) (1 + Z.of_nat (length vals))) (elem_ud f t a self (length vals)) =
    if 0 <=? f_key f then Ok (inl (SPROTO_CB_NIL, MkEncodeUd t (Some (f_tag f)) (Some a) O)) else Ok (inr (VNil, MkEncodeUd t (Some (f_tag f)) (Some a) O))) as El.
  { assert (forall k, k = (if 0 <=? f_key f then length vals else 0%nat) ->
      encode_lookup (set_index (field_arg f) (1 + Z.of_nat (length vals))) (MkEncodeUd t (Some (f_tag f)) (Some a) k) =
      if 0 <=? f_key f then Ok (inl (SPROTO_CB_NIL, MkEncodeUd t (Some (f_tag f)) (Some a) O)) else Ok (inr (VNil, MkEncodeUd t (Some (f_tag f)) (Some a) O))) as Hk.
    { intros k ->. unfold encode_lookup, field_values in *. cbn [set_index field_arg a_index a_tagid a_tagname a_mainindex eu_array_tag eu_tbl eu_array eu_iter].
      destruct (Z.ltb_spec 0 (1 + Z.of_nat (length vals))); [|lia]. rewrite bool_decide_eq_true_2 by done. cbn [negb lift eu_array eu_iter eu_tbl eu_array_tag]. destruct (0 <=? f_key f).
      - injection Hvals as <-. by rewrite lookup_ge_None_2 by (by rewrite length_map).
      - destruct (array_values_spec _ _ _ _ Hvals) as [_ ->]. done. }
    destruct (length vals) as [|i] eqn:Ei; [|by apply Hk]. cbn [elem_ud]. rewrite lookup_first by lia. apply Hk. by destruct (0 <=? f_key f). }
  cbn [encode]. rewrite El. by destruct (0 <=? f_key f).
Qed.

Lemma int_not_nil v z : int_of v = Some z -> v <> VNil. Proof. by destruct v. Qed.
Lemma bool_not_nil v b : bool_of v = Some b -> v <> VNil. Proof. by destruct v. Qed.

Notation end_ud := (MkEncodeUd t (Some (f_tag f)) (Some a) O).

Lemma integers_fill zs pre region : mapM int_of vals = Some zs -> base_type f = SPROTO_TINTEGER -> Z.of_nat (length region) < 2 ^ 31 ->
  room_for (negb (forallb narrow zs)) (9 + 8 * Z.of_nat (length vals)) region ->
  fills (array_body (encode types (S d)) (field_arg f) self (pre ++ region) (Z.of_nat (length pre)) (Z.of_nat (length region))) pre region (integers zs)
    (9 + 8 * Z.of_nat (length vals)) end_ud.
Proof.
  intros Hm Ht H31 Hroom. apply mapM_Some in Hm. pose proof (Forall2_length _ _ _ Hm) as Hlen. unfold array_body. change (a_type (field_arg f)) with (base_type f). rewrite Ht. cbn [Z.eqb SPROTO_TINTEGER].
  destruct region as [|h region].
  { exists (Return (-1)), [], self. split; [done|]. split; [done|]. left. split; [done | cbn [length]; lia]. }
  destruct (encode_integer_array_ok pre h (encode types (S d)) (field_arg f) zs (elem_ud f t a self) end_ud) with (t := region) as (r & E & Hr).
  - intros i z Hz. destruct (Forall2_lookup_r _ _ _ _ _ Hm Hz) as (v & Hv & Ev). rewrite Z.add_comm.
    apply (integer_cb v z _ _ _ Ev); [by apply elem_lookup | done].
  - exists (malloc 8). rewrite <- Hlen, Z.add_comm. apply elem_end.
  - cbn [length] in H31. lia.
  - destruct Hroom as [Hw|Hr]; [left; by apply negb_false_iff | right; rewrite <- Hlen; lia].
  - cbn [elem_ud] in E. rewrite E. destruct r as [[[[e noarray] buf] ud]|].
    + destruct Hr as (-> & -> & -> & rest & -> & Hl). exists (EndAt (Z.of_nat (length pre + length (integers zs)))), (integers zs ++ rest), end_ud. split; [done|]. split; [done|]. right. split; [done|].
      split; [done|]. by exists rest.
    + exists (Return (-1)), (h :: region), self. split; [done|]. split; [done|]. left. split; [done|]. lia.
Qed.

Lemma booleans_fill bs pre region : mapM bool_of vals = Some bs -> base_type f = SPROTO_TBOOLEAN ->
  fills (array_body (encode types (S d)) (field_arg f) self (pre ++ region) (Z.of_nat (length pre)) (Z.of_nat (length region))) pre region
    (map (fun b : bool => if b then 1 else 0) bs) (Z.of_nat (length vals)) end_ud.
Proof.
  intros Hm Ht. apply mapM_Some in Hm. pose proof (Forall2_length _ _ _ Hm) as Hlen. unfold array_body. change (a_type (field_arg f)) with (base_type f). rewrite Ht. cbn [Z.eqb SPROTO_TINTEGER SPROTO_TBOOLEAN Pos.eqb].
  rewrite Hlen. apply (boolean_loop_ok (encode types (S d)) (field_arg f) bs _ 1 (elem_ud f t a self)); [rewrite length_app; lia|..].
  - intros i b Hb. destruct (Forall2_lookup_r _ _ _ _ _ Hm Hb) as (v & Hv & Ev). apply (boolean_cb v b _ _ _ _ Ev); [by apply elem_lookup | done | by apply Nat.leb_le].
  - exists (malloc 4). rewrite <- Hlen. apply elem_end.
Qed.

Lemma objects_fill items pre region : mapM (object types (msg types d) f) vals = Some items -> base_type f <> SPROTO_TINTEGER -> base_type f <> SPROTO_TBOOLEAN ->
  Z.of_nat (length region) < 2 ^ 31 -> room_for (existsb it_wide items) (4 + sum (map (fun it => 4 + it_need it) items)) region ->
  fills (array_body (encode types (S d)) (field_arg f) self (pre ++ region) (Z.of_nat (length pre)) (Z.of_nat (length region))) pre region (objects items)
    (4 + sum (map (fun it => 4 + it_need it) items)) end_ud.
Proof.
  intros Hm H1 H2 H31 Hroom. apply mapM_Some in Hm. pose proof (Forall2_length _ _ _ Hm) as Hlen. unfold array_body. change (a_type (field_arg f)) with (base_type f).
  destruct (Z.eqb_spec (base_type f) SPROTO_TINTEGER), (Z.eqb_spec (base_type f) SPROTO_TBOOLEAN); try done.
  apply (object_loop_ok (encode types (S d)) (field_arg f) items _ 1 (elem_ud f t a self)); [rewrite length_app; lia|done|..|done|].
  - intros i it r Hi Hr1 Hr. destruct (Forall2_lookup_r _ _ _ _ _ Hm Hi) as (v & Hv & Ev). apply (object_cb f v it _ _ _ _ Ev); [by apply elem_lookup | done..].
  - intros r. rewrite <- Hlen. apply elem_end.
  - apply Forall_forall. intros it Hi. apply list_elem_of_lookup in Hi as [i Hi]. destruct (Forall2_lookup_r _ _ _ _ _ Hm Hi) as (v & _ & Ev). by eapply object_size.
Qed.
End Elements.

(** ** A field *)

(** Between fields: arrays of earlier fields have been seen, and no iteration is under way. *)
Definition self_ok (t : entries) (last : Z) (self : encode_ud) : Prop :=
  eu_tbl self = t /\ eu_iter self = O /\ forall tag, eu_array_tag self = Some tag -> tag <= last.

(** What a field leaves behind [pre]. *)
Definition field_done (m : res (field_result * list Z * encode_ud)) (t : entries) (f : field) (fv : fval) (pre region : list Z) : Prop :=
  exists r region' self', m = Ok (r, pre ++ region', self') /\ length region' = length region /\
    (r = FData (-1) 0 /\ Z.of_nat (length region) < need_of fv \/
     self_ok t (f_tag f) self' /\
     match fv with
     | FAbsent => r = FSkip \/ r = FData 0 0
     | FInline value _ => r = FData 2 value
     | FBytes b _ _ _ => r = FData (Z.of_nat (length (with_size b))) 0 /\ exists rest, region' = with_size b ++ rest
     end).

Lemma delivers_done m t f b v need wide pre region self' : delivers m pre region (with_size b) need self' -> self_ok t (f_tag f) self' ->
  field_done (let* (sz, buf, ud) := m in Ok (FData sz 0, buf, ud)) t f (FBytes b v need wide) pre region.
Proof.
  intros (r & region' & ud & -> & Hl & [[-> Hs]|(-> & -> & Hr)]) Hok.
  - exists (FData (-1) 0), region', ud. split; [done|]. split; [done|]. by left.
  - exists (FData (Z.of_nat (length (with_size b))) 0), region', self'. split; [done|]. split; [done|]. right. done.
Qed.

Section OneField.
Variables (f : field) (t : entries) (self : encode_ud) (last : Z).
Hypothesis Hf : field_ok n f.
Hypothesis Hself : self_ok t last self.
Hypothesis Hlast : last < f_tag f.
Variables (pre region : list Z) (idx ltag : Z).
Hypothesis H31 : Z.of_nat (length region) < 2 ^ 31.
Notation st := (MkEncoding (pre ++ region) self (Z.of_nat (length pre)) (Z.of_nat (length region)) idx ltag).
Notation v := (lua_getfield t (name_of f)).

Lemma self_later : self_ok t (f_tag f) self.
Proof. destruct Hself as (H1 & H2 & H3). split_and!; try done. intros tag Ht. specialize (H3 _ Ht). lia. Qed.

Lemma self_array a : self_ok t (f_tag f) (MkEncodeUd t (Some (f_tag f)) (Some a) O).
Proof. split_and!; try done. cbn. intros tag [= <-]. lia. Qed.

Lemma self_new : eu_tbl self = t /\ eu_iter self = O /\ eu_array_tag self <> Some (f_tag f).
Proof. destruct Hself as (H1 & H2 & H3). split_and!; try done. intros E. specialize (H3 _ E). lia. Qed.

Lemma base_cases : base_type f = SPROTO_TINTEGER \/ base_type f = SPROTO_TBOOLEAN \/ base_type f = SPROTO_TSTRING \/ base_type f = SPROTO_TSTRUCT.
Proof. pose proof (fo_base _ _ Hf) as Hb. unfold SPROTO_TINTEGER, SPROTO_TBOOLEAN, SPROTO_TSTRING, SPROTO_TSTRUCT in *. destruct (f_st f); lia. Qed.

Lemma encode_array_arg : is_array f = true -> encode_field (encode types (S d)) f st =
  let* (sz, buf, ud) := encode_array (encode types (S d)) (field_arg f) self (pre ++ region) (Z.of_nat (length pre)) (Z.of_nat (length region)) in Ok (FData sz 0, buf, ud).
Proof. intros Ha. unfold encode_field. fold (is_array f). rewrite Ha. done. Qed.

(** A nil in place of an array. *)
Lemma absent_array_ok : is_array f = true -> v = VNil -> field_done (encode_field (encode types (S d)) f st) t f FAbsent pre region.
Proof.
  intros Ha Hv. rewrite encode_array_arg by done. unfold encode_array, SIZEOF_LENGTH. destruct (Z.ltb_spec (Z.of_nat (length region)) 4).
  { exists (FData (-1) 0), region, self. split; [done|]. split; [done|]. left. split; [done | cbn [need_of]; lia]. }
  assert (forall k r, encode types (S d) (set_index (field_arg f) (1 + Z.of_nat k)) self r = Ok (SPROTO_CB_NOARRAY, r, MkEncodeUd t (Some (f_tag f)) None O)) as Ecb.
  { intros k r. destruct self_new as (E1 & E2 & E3). cbn [encode]. unfold encode_lookup. cbn [set_index field_arg a_index a_tagid a_tagname a_mainindex].
    destruct (Z.ltb_spec 0 (1 + Z.of_nat k)); [|lia]. rewrite bool_decide_eq_false_2 by done. cbn [negb]. by rewrite E1, E2, Hv. }
  assert (self_ok t (f_tag f) (MkEncodeUd t (Some (f_tag f)) None O)) as Hok by (split_and!; try done; cbn; intros tag [= <-]; lia).
  change (a_type (field_arg f)) with (base_type f). specialize (Ecb O). change (1 + Z.of_nat 0) with 1 in Ecb.
  assert (forall m, (exists buf, m = Ok (Return 0, buf, MkEncodeUd t (Some (f_tag f)) None O) /\ buf = pre ++ region) \/ m = Ok (Return (-1), pre ++ region, self) /\ Z.of_nat (length region) < 8 ->
    field_done (let* (sz, buf, ud) := (let* (e, buf, ud) := m in match e with Return r => Ok (r, buf, ud) | EndAt buffer =>
      let* (r, buf) := lift (fill_size buf (Z.of_nat (length pre)) (buffer - (Z.of_nat (length pre) + 4))) in Ok (r, buf, ud) end) in Ok (FData sz 0, buf, ud)) t f FAbsent pre region) as Hfin.
  { intros m [(buf & -> & ->)|[-> Hs]]; [exists (FData 0 0), region, (MkEncodeUd t (Some (f_tag f)) None O) | exists (FData (-1) 0), region, self];
      (split; [done|]; split; [done|]); [right; split; [done|]; by right | by left]. }
  apply Hfin. destruct base_cases as [->|[->|Hb]].
  - cbn [Z.eqb SPROTO_TINTEGER]. unfold encode_integer_array. destruct (Z.ltb_spec (Z.of_nat (length region) - 4) 1); [right; split; [done | lia]|].
    left. exists (pre ++ region). cbn [integer_loop ia_index ia_ud]. unfold call_local. rewrite Ecb. cbn [Z.leb Z.eqb SPROTO_CB_NOARRAY SPROTO_CB_NIL Z.compare Pos.eqb ia_buffer ia_buf ia_ud ia_intlen ia_size ia_index].
    rewrite Z.eqb_refl. done.
  - left. exists (pre ++ region). cbn [Z.eqb SPROTO_TINTEGER SPROTO_TBOOLEAN Pos.eqb boolean_loop]. unfold call_local. by rewrite Ecb.
  - assert ((base_type f =? SPROTO_TINTEGER) = false /\ (base_type f =? SPROTO_TBOOLEAN) = false) as [-> ->] by (destruct Hb as [->| ->]; done).
    cbn [object_loop]. unfold SIZEOF_LENGTH. destruct (Z.ltb_spec (Z.of_nat (length region) - 4) 4); [right; split; [done | lia]|]. left. exists (pre ++ region).
    assert (length (take 8 region) = 8%nat) as H8 by (rewrite length_take; lia).
    unfold call_at. replace (pre ++ region) with ((pre ++ take 8 region) ++ drop 8 region) by (by rewrite <- app_assoc, take_drop).
    replace (Z.of_nat (length pre) + 4 + 4) with (Z.of_nat (length (pre ++ take 8 region))) by (rewrite length_app; lia).
    rewrite memcpy_end by (rewrite length_drop; lia). cbn [lift]. rewrite Ecb, memcpy_at_tail by done. cbn [lift]. rewrite drop_all, app_nil_r. done.
Qed.

Lemma array_ok a fv : is_array f = true -> v = VTable a -> array_value types (msg types d) f a = Some fv -> room_for (wide_of fv) (need_of fv) region ->
  field_done (encode_field (encode types (S d)) f st) t f fv pre region.
Proof.
  intros Ha Hv Hval Hroom. rewrite encode_array_arg by done. unfold array_value in Hval. destruct (field_values f a) as [vals|] eqn:Evals; [|done].
  pose proof self_new as Hnew. pose proof (self_array a) as Hend.
  assert (4 <= length region -> length (take 4 region) = 4%nat /\ length (drop 4 region) = length region - 4)%nat as Hcut by (rewrite length_take, length_drop; lia).
  destruct (Z.eqb_spec (base_type f) SPROTO_TINTEGER) as [Et|Et].
  { destruct (mapM int_of vals) as [zs|] eqn:Em; [|done]. injection Hval as <-. cbn [wide_of need_of] in Hroom.
    eapply delivers_done, Hend. replace (13 + 8 * Z.of_nat (length vals)) with (4 + (9 + 8 * Z.of_nat (length vals))) in * by lia. apply encode_array_ok; [|lia].
    intros H4. destruct (Hcut H4) as [_ Hd]. eapply integers_fill; try done; [lia|]. destruct Hroom; [by left | right; lia]. }
  destruct (Z.eqb_spec (base_type f) SPROTO_TBOOLEAN) as [Eb|Eb].
  { destruct (mapM bool_of vals) as [bs|] eqn:Em; [|done]. injection Hval as <-. eapply delivers_done, Hend. apply encode_array_ok; [|lia].
    intros H4. by eapply booleans_fill. }
  destruct (mapM (object types (msg types d) f) vals) as [items|] eqn:Em; [|done].
  match type of Hval with (let! _ := ?m in _) = _ => destruct m as [v'|]; [|done] end. injection Hval as <-. cbn [wide_of need_of] in Hroom.
  eapply delivers_done, Hend. replace (8 + sum (map (fun it => 4 + it_need it) items)) with (4 + (4 + sum (map (fun it => 4 + it_need it) items))) in * by lia.
  apply encode_array_ok.
  - intros H4. destruct (Hcut H4) as [_ Hd]. eapply objects_fill; try done; [lia|]. destruct Hroom; [by left | right; lia].
  - assert (Forall (fun it => 0 <= it_need it) items) as Hn.
    { apply Forall_forall. intros it Hi. apply list_elem_of_lookup in Hi as [k Hk]. apply mapM_Some in Em. destruct (Forall2_lookup_r _ _ _ _ _ Em Hk) as (w & _ & Ew).
      apply object_size in Ew. lia. }
    clear -Hn. unfold sum. induction Hn; cbn [map fold_right]; lia.
Qed.

Lemma scalar_arg : is_array f = false -> base_type f = f_type f.
Proof. intros Ha. pose proof (fo_type _ _ Hf) as Ht. rewrite Ha in Ht. lia. Qed.

Lemma field_lookup : encode_lookup (field_arg f) self = Ok (inr (v, self)).
Proof. unfold encode_lookup. cbn [field_arg a_index a_tagname Z.ltb Z.compare]. destruct Hself as (-> & _). done. Qed.

Lemma base_object : base_type f <> SPROTO_TINTEGER -> base_type f <> SPROTO_TBOOLEAN -> (base_type f =? SPROTO_TSTRUCT) || (base_type f =? SPROTO_TSTRING) = true.
Proof. intros H1 H2. by destruct base_cases as [E|[E|[->| ->]]]. Qed.

(** A number behind its length. *)
Lemma put_number_ok b k w : Z.of_nat (length b) = k ->
  field_done (let* (sz, buf) := lift (if Z.of_nat (length region) <? SIZEOF_LENGTH + k then Some (-1, pre ++ region) else
      let! buf := memcpy_at (pre ++ region) (Z.of_nat (length pre) + 4) b in fill_size buf (Z.of_nat (length pre)) k) in
    Ok (FData sz 0, buf, self)) t f (FBytes b w (4 + k) false) pre region.
Proof.
  intros Hk. unfold SIZEOF_LENGTH. destruct (Z.ltb_spec (Z.of_nat (length region)) (4 + k)).
  - exists (FData (-1) 0), region, self. split; [done|]. split; [done|]. by left.
  - rewrite put_sized_tail by lia. exists (FData (k + 4) 0), (with_size b ++ drop (4 + length b) region), self. split; [done|].
    unfold with_size. rewrite !length_app, length_drop, dword_bytes_length. split; [lia|]. right. split; [apply self_later|]. split; [f_equal; lia | by eexists].
Qed.

(** Nothing in place of an object. *)
Lemma absent_object_ok : v = VNil -> field_done (let* (sz, buf, ud) := encode_object (encode types (S d)) (field_arg f) self (pre ++ region) (Z.of_nat (length pre)) (Z.of_nat (length region)) in
  Ok (FData sz 0, buf, ud)) t f FAbsent pre region.
Proof.
  intros Ev. assert (forall r, encode types (S d) (field_arg f) self r = Ok (SPROTO_CB_NIL, r, self)) as Ecb.
  { intros r. apply nil_cb. unfold encode_lookup. cbn [field_arg a_index a_tagname Z.ltb Z.compare]. destruct Hself as (-> & _). by rewrite Ev. }
  unfold encode_object, SIZEOF_LENGTH. destruct (Z.ltb_spec (Z.of_nat (length region)) 4).
  { exists (FData (-1) 0), region, self. split; [done|]. split; [done|]. left. split; [done | cbn; lia]. }
  exists (FData 0 0), region, self. assert (length (take 4 region) = 4%nat) as H4 by (rewrite length_take; lia).
  unfold call_at. replace (pre ++ region) with ((pre ++ take 4 region) ++ drop 4 region) by (by rewrite <- app_assoc, take_drop).
  replace (Z.of_nat (length pre) + 4) with (Z.of_nat (length (pre ++ take 4 region))) by (rewrite length_app; lia).
  rewrite memcpy_end by (rewrite length_drop; lia). cbn [lift]. rewrite Ecb, memcpy_at_tail by done. cbn [lift]. rewrite drop_all, app_nil_r.
  split; [done|]. split; [done|]. right. split; [apply self_later|]. by right.
Qed.

Lemma scalar_ok fv : is_array f = false -> scalar_value types (msg types d) f v = Some fv -> room_for (wide_of fv) (need_of fv) region ->
  field_done (encode_field (encode types (S d)) f st) t f fv pre region.
Proof.
  intros Ha Hval Hroom. unfold encode_field. fold (is_array f). rewrite Ha. pose proof (scalar_arg Ha) as Et. pose proof field_lookup as El. pose proof self_later as Hl.
  change (MkArg (default [] (f_name f)) (f_tag f) (f_type f) (f_st f) 0 (f_key f)) with (MkArg (name_of f) (f_tag f) (f_type f) (f_st f) 0 (f_key f)). rewrite <- Et. fold (field_arg f).
  assert (v = VNil \/ v <> VNil) as [Ev|Ev] by (destruct v; auto).
  { rewrite Ev in Hval, El. injection Hval as <-. pose proof (fun r => nil_cb _ _ _ r El) as Ecb. destruct ((_ =? _) || _) eqn:Eb.
    - unfold call_local. rewrite Ecb. exists FSkip, region, self. split; [done|]. split; [done|]. right. split; [done|]. by left.
    - apply orb_false_elim in Eb as [E1%Z.eqb_neq E2%Z.eqb_neq]. rewrite base_object by done. by apply absent_object_ok. }
  destruct (Z.eqb_spec (base_type f) SPROTO_TINTEGER) as [Ei|Ei]; cbn [orb].
  { assert (scalar_value types (msg types d) f v = let! z := int_of v in
      Some (if (0 <=? z) && (z <? 0x7fff) then FInline ((z + 1) * 2) v else if narrow z then FBytes (le32 z) v 8 false else FBytes (le64 z) v 12 false)) as Es
      by (unfold scalar_value; rewrite Ei; by destruct v).
    rewrite Es in Hval. destruct (int_of v) as [z|] eqn:Ez; [|done]. injection Hval as <-. destruct (integer_cb v z _ _ _ Ez El Ei) as (Hz & u & Eu & Hu).
    unfold call_local. rewrite Eu. unfold local_word. destruct (narrow z) eqn:En; cbn [Z.ltb Z.compare Z.eqb Pos.eqb]; rewrite Hu.
    - change (le32 z) with (dword_bytes (u32 z)) at 1 2 3. rewrite dword_value by apply u32_range.
      assert ((u32 z <? 0x7fff) = (0 <=? z) && (z <? 0x7fff)) as Es'.
      { rewrite narrow_u32 by done. unfold narrow in En. zbool. destruct (Z.ltb_spec z 0), (Z.leb_spec 0 z), (Z.ltb_spec z 0x7fff); cbn; lia. }
      rewrite <- Es'. destruct (Z.ltb_spec (u32 z) 0x7fff) as [Hin|Hin].
      + exists (FData 2 ((u32 z + 1) * 2)), region, self. split; [done|]. split; [done|]. right. split; [done|].
        symmetry in Es'. zbool. rewrite narrow_u32 by done. by destruct (Z.ltb_spec z 0); [lia|].
      + unfold encode_integer. by apply (put_number_ok (le32 z) 4).
    - assert ((0 <=? z) && (z <? 0x7fff) = false) as -> by (unfold narrow in En; destruct (Z.leb_spec (- 2 ^ 31) z), (Z.ltb_spec z (2 ^ 31)); try done; lia).
      unfold le64 at 1. rewrite qword_value by apply u64_range. unfold encode_uint64. by apply (put_number_ok (le64 z) 8). }
  destruct (Z.eqb_spec (base_type f) SPROTO_TBOOLEAN) as [Eb|Eb].
  { assert (scalar_value types (msg types d) f v = let! b := bool_of v in Some (FInline (if b then 4 else 2) v)) as Es by (unfold scalar_value; rewrite Eb; by destruct v).
    rewrite Es in Hval. destruct (bool_of v) as [b|] eqn:Ez; [|done]. injection Hval as <-. destruct (boolean_cb v b _ _ _ (malloc 8) Ez El Eb) as (u & Eu & Hu); [by apply Nat.leb_le|].
    unfold call_local. rewrite Eu. cbn [Z.ltb Z.compare Z.eqb Pos.eqb]. rewrite Hu.
    exists (FData 2 (if b then 4 else 2)), region, self. split; [by destruct b|]. split; [done|]. by right. }
  assert (exists it, object types (msg types d) f v = Some it /\ fv = FBytes (it_bytes it) (it_lua it) (4 + it_need it) (it_wide it)) as (it & Eit & ->).
  { unfold scalar_value in Hval. destruct (Z.eqb_spec (base_type f) SPROTO_TINTEGER), (Z.eqb_spec (base_type f) SPROTO_TBOOLEAN); try done. destruct v eqn:Ev'; try done; destruct (_ && _); try done;
      destruct (object _ _ f _) as [it|] eqn:Eit; try done; exists it; by injection Hval as <-. }
  rewrite base_object by done. eapply delivers_done, Hl. eapply encode_object_ok with (wide := it_wide it); [by eapply object_size| |done|done].
  intros r H31' Hr. by apply (object_cb f v).
Qed.
End OneField.

Lemma field_done_ok f t self last fv pre region idx ltag : field_ok n f -> self_ok t last self -> last < f_tag f -> Z.of_nat (length region) < 2 ^ 31 ->
  field_value types (msg types d) t f = Some (f, fv) -> room_for (wide_of fv) (need_of fv) region ->
  field_done (encode_field (encode types (S d)) f (MkEncoding (pre ++ region) self (Z.of_nat (length pre)) (Z.of_nat (length region)) idx ltag)) t f fv pre region.
Proof.
  intros Hf Hself Hlast H31 Hv Hroom. unfold field_value in Hv. destruct (is_array f) eqn:Ea.
  - destruct (lua_getfield t (name_of f)) eqn:Ev; try done; [injection Hv as <-; by eapply absent_array_ok|].
    destruct (array_value _ _ f entries) as [fv'|] eqn:E; [|done]. injection Hv as <-. by eapply array_ok.
  - destruct (scalar_value _ _ f _) as [fv'|] eqn:E; [|done]. injection Hv as <-. by eapply scalar_ok.
Qed.

Lemma integers_length zs : (length (integers zs) <= 1 + 8 * length zs)%nat.
Proof.
  unfold integers. destruct zs as [|z zs]; [cbn; lia|]. destruct (forallb narrow (z :: zs)); cbn [length]; rewrite ?concat_le32, ?concat_le64; cbn [length]; lia.
Qed.

Lemma objects_length f vals items : mapM (object types (msg types d) f) vals = Some items ->
  Z.of_nat (length (objects items)) <= sum (map (fun it => 4 + it_need it) items).
Proof.
  intros Hm%mapM_Some. unfold objects, sum. revert items Hm. induction vals as [|v vals IHv]; intros items Hm; inversion_clear Hm as [|? ? ? it' Ho Hrest]; [done|].
  cbn [map concat fold_right]. specialize (IHv _ Hrest). apply object_size in Ho. rewrite length_app, with_size_length. lia.
Qed.

(** The data of a field is not longer than the room it needs. *)
Lemma data_need t f fv : field_value types (msg types d) t f = Some (f, fv) -> Z.of_nat (length (data_of fv)) <= need_of fv.
Proof.
  intros Hv. unfold field_value in Hv. pose proof with_size_length as Hws.
  destruct (is_array f).
  - destruct (lua_getfield t (name_of f)); try done; [by injection Hv as <-|]. unfold array_value in Hv. destruct (field_values f entries) as [vals|]; [|done].
    destruct (_ =? SPROTO_TINTEGER).
    { destruct (mapM int_of vals) as [zs|] eqn:Em; [|done]. injection Hv as <-. cbn [data_of need_of]. rewrite Hws. pose proof (integers_length zs).
      apply mapM_Some, Forall2_length in Em. lia. }
    destruct (_ =? SPROTO_TBOOLEAN).
    { destruct (mapM bool_of vals) as [bs|] eqn:Em; [|done]. injection Hv as <-. cbn [data_of need_of]. rewrite Hws, length_map. apply mapM_Some, Forall2_length in Em. lia. }
    destruct (mapM (object _ _ f) vals) as [items|] eqn:Em; [|done]. apply objects_length in Em.
    match type of Hv with context [let! _ := ?m in Some (FBytes _ _ _ _)] => destruct m as [v'|]; [|done] end. injection Hv as <-. cbn [data_of need_of]. rewrite Hws. lia.
  - unfold scalar_value in Hv. destruct (lua_getfield t (name_of f)) eqn:Ev; [by injection Hv as <-|..];
      (destruct (_ =? SPROTO_TINTEGER); [destruct (int_of _); [|done]; repeat case_match; by injection Hv as <-|]);
      (destruct (_ =? SPROTO_TBOOLEAN); [destruct (bool_of _); [|done]; by injection Hv as <-|]);
      destruct (_ && _); try done; destruct (object _ _ f _) as [it|] eqn:Eit; try done; injection Hv as <-; apply object_size in Eit; cbn [data_of need_of]; rewrite Hws; lia.
Qed.

Lemma put_record_ok f sz value ud hd free data tail idx ltag : let s := concat (map word_bytes (gap_slot ltag f ++ [value])) in
  (length s <= length free)%nat -> Z.of_nat (length hd) = 2 + 2 * idx -> -1 <= ltag -> f_tag f <= 0x7ffe ->
  exists idx', idx' = idx + Z.of_nat (length (gap_slot ltag f ++ [value])) /\
  put_record f sz value (MkEncoding (UD := encode_ud) (hd ++ free ++ data ++ tail) ud (Z.of_nat (length (hd ++ free ++ data))) (Z.of_nat (length tail)) idx ltag) =
    Some (Some (MkEncoding ((hd ++ s) ++ drop (length s) free ++ data ++ tail) ud (Z.of_nat (length (hd ++ free ++ data)) + (if value =? 0 then sz else 0))
      (Z.of_nat (length tail) - (if value =? 0 then sz else 0)) idx' (f_tag f))).
Proof.
  intros s Hs Hhd Hlt Hft. eexists. split; [done|]. unfold put_record, SIZEOF_HEADER, SIZEOF_FIELD. replace (2 + 2 * idx) with (Z.of_nat (length hd)) by lia.
  assert ((let '(data1, size) := if value =? 0 then (Z.of_nat (length (hd ++ free ++ data)) + sz, Z.of_nat (length tail) - sz) else (Z.of_nat (length (hd ++ free ++ data)), Z.of_nat (length tail)) in (data1, size)) =
    (Z.of_nat (length (hd ++ free ++ data)) + (if value =? 0 then sz else 0), Z.of_nat (length tail) - (if value =? 0 then sz else 0))) as E by (destruct (value =? 0); f_equal; lia).
  destruct (if value =? 0 then _ else _) as [data1 size]. injection E as -> ->.
  unfold s, gap_slot in *. destruct (Z.ltb_spec 0 (f_tag f - ltag - 1)).
  - destruct (Z.ltb_spec 0xffff ((f_tag f - ltag - 1 - 1) * 2 + 1)); [lia|]. cbn [app map concat] in *. rewrite app_nil_r in *. rewrite length_app, !word_bytes_length in *.
    rewrite memcpy_at_tail by (rewrite length_app, word_bytes_length; lia). rewrite word_bytes_length, drop_app_le by lia.
    replace ((f_tag f - ltag - 1 - 1) * 2 + 1) with ((f_tag f - ltag - 2) * 2 + 1) by lia. set (w := word_bytes _).
    rewrite app_assoc. replace (Z.of_nat (length hd) + 2) with (Z.of_nat (length (hd ++ w))) by (rewrite length_app; change (length w) with 2%nat; lia).
    rewrite memcpy_at_tail by (rewrite length_app, length_drop, word_bytes_length; lia). rewrite word_bytes_length, drop_app_le, drop_drop by (rewrite length_drop; lia).
    rewrite <- !app_assoc. cbn [length]. do 3 f_equal; lia.
  - cbn [app map concat] in *. rewrite app_nil_r in *. rewrite word_bytes_length in *. rewrite memcpy_at_tail by (rewrite length_app, word_bytes_length; lia).
    rewrite word_bytes_length, drop_app_le by lia. rewrite <- !app_assoc. cbn [length]. do 3 f_equal; lia.
Qed.

(** ** The fields of a message *)

Definition datas (l : list (field * fval)) : list Z := concat (map (fun p => data_of (snd p)) l).
Definition needs (l : list (field * fval)) : Z := sum (map (fun p => need_of (snd p)) l).
Definition wides (l : list (field * fval)) : bool := existsb (fun p => wide_of (snd p)) l.
Definition slot_bytes (ltag : Z) (l : list (field * fval)) : list Z := concat (map word_bytes (slots ltag l)).

Lemma words_length l : length (concat (map word_bytes l)) = (2 * length l)%nat.
Proof. induction l as [|x l IHl]; [done|]. cbn [map concat]. rewrite length_app, IHl, word_bytes_length. cbn [length]. lia. Qed.

Lemma slots_present f fv l ltag : slots ltag ((f, fv) :: l) =
  match fv with FAbsent => slots ltag l | FInline value _ => (gap_slot ltag f ++ [value]) ++ slots (f_tag f) l | FBytes _ _ _ _ => (gap_slot ltag f ++ [0]) ++ slots (f_tag f) l end.
Proof. destruct fv; cbn [slots]; by rewrite <- ?app_assoc. Qed.

Lemma inline_not_zero t f value v : field_value types (msg types d) t f = Some (f, FInline value v) -> value <> 0.
Proof.
  unfold field_value. destruct (is_array f).
  - destruct (lua_getfield t (name_of f)); try done. unfold array_value. intros Hv. repeat case_match; try done; by simplify_eq.
  - unfold scalar_value. intros Hv. assert (forall o : option fval, (let! fv := (let! z := int_of (lua_getfield t (name_of f)) in
        Some (if (0 <=? z) && (z <? 0x7fff) then FInline ((z + 1) * 2) (lua_getfield t (name_of f)) else if narrow z then FBytes (le32 z) (lua_getfield t (name_of f)) 8 false
              else FBytes (le64 z) (lua_getfield t (name_of f)) 12 false)) in Some (f, fv)) = Some (f, FInline value v) -> value <> 0) as Hi.
    { intros _ Hz. destruct (int_of _) as [z|]; [|done]. destruct (Z.leb_spec 0 z), (Z.ltb_spec z 0x7fff); cbn [andb] in Hz; try (destruct (narrow z); done). injection Hz as <- _. lia. }
    destruct (lua_getfield t (name_of f)) eqn:Ev; [done|..]; (destruct (_ =? SPROTO_TINTEGER); [by apply (Hi None)|]);
      (destruct (_ =? SPROTO_TBOOLEAN); [destruct (bool_of _) as [[|]|]; try done; by injection Hv as <- _|]);
      destruct (_ && _); try done; by destruct (object _ _ _ _).
Qed.

Definition fields_of (t : entries) (fs : list field) (l : list (field * fval)) : Prop := Forall2 (fun f p => field_value types (msg types d) t f = Some p) fs l.

Lemma field_value_fst t f p : field_value types (msg types d) t f = Some p -> p = (f, snd p).
Proof. unfold field_value. match goal with |- (let! _ := ?m in _) = _ -> _ => destruct m as [fv|]; [|done] end. by intros [= <-]. Qed.

Lemma needs_nonneg t fs l : fields_of t fs l -> 0 <= needs l.
Proof.
  unfold needs, sum. induction 1 as [|f p fs l Hv _ IHl]; cbn [map fold_right]; [lia|]. pose proof (field_value_fst _ _ _ Hv) as E. rewrite E in Hv. apply data_need in Hv. lia.
Qed.

(** How the loop over the remaining fields ends. *)
Definition fields_done (m : res ((Z * list Z * encode_ud) + encoding encode_ud)) (l : list (field * fval)) (ltag : Z) (hd free data tail : list Z) (idx : Z) : Prop :=
  exists r, m = Ok r /\
    match r with
    | inl (r, buf, _) => r = -1 /\ length buf = length (hd ++ free ++ data ++ tail) /\ Z.of_nat (length tail) < needs l
    | inr (MkEncoding buf _ e_data _ idx' _) => exists free' tail', let hd' := hd ++ slot_bytes ltag l in let data' := data ++ datas l in
        buf = hd' ++ free' ++ data' ++ tail' /\ e_data = Z.of_nat (length (hd' ++ free' ++ data')) /\ idx' = idx + Z.of_nat (length (slots ltag l)) /\
        length (slot_bytes ltag l ++ free') = length free /\ length (datas l ++ tail') = length tail
    end.

(** One field more in front. *)
Lemma fields_done_cons m f fv l ltag hd free data tail idx s free1 b tail1 ltag1 :
  fields_done m l ltag1 (hd ++ concat (map word_bytes s)) free1 (data ++ b) tail1 (idx + Z.of_nat (length s)) ->
  slots ltag ((f, fv) :: l) = s ++ slots ltag1 l -> data_of fv = b -> length (concat (map word_bytes s) ++ free1) = length free -> length (b ++ tail1) = length tail ->
  Z.of_nat (length b) <= need_of fv -> fields_done m ((f, fv) :: l) ltag hd free data tail idx.
Proof.
  intros (r & -> & Hr) Es <- Hfree Htail Hneed. rewrite length_app in Hfree, Htail. exists r. split; [done|]. destruct r as [[[r buf] ud]|[buf ud edata esize idx' ltag']].
  - destruct Hr as (-> & Hl & Hn). split; [done|]. rewrite !length_app in *. unfold needs, sum in *. cbn [map fold_right snd]. lia.
  - destruct Hr as (free' & tail' & -> & -> & -> & H1 & H2). unfold slot_bytes, datas in *. rewrite Es. exists free', tail'. cbn [map concat snd]. rewrite map_app, concat_app.
    rewrite !length_app in *. rewrite <- !app_assoc. split_and!; try done; lia.
Qed.

Lemma encode_fields_ok t fs : forall l hd free data tail self last ltag idx,
  fields_of t fs l -> ascending last fs -> Forall (field_ok n) fs -> self_ok t last self -> -1 <= ltag <= last ->
  (2 * length (slots ltag l) <= length free)%nat -> Z.of_nat (length hd) = 2 + 2 * idx -> Z.of_nat (length tail) < 2 ^ 31 -> room_for (wides l) (needs l) tail ->
  fields_done (encode_fields (encode types (S d)) fs (MkEncoding (hd ++ free ++ data ++ tail) self (Z.of_nat (length (hd ++ free ++ data))) (Z.of_nat (length tail)) idx ltag))
    l ltag hd free data tail idx.
Proof.
  induction fs as [|f fs IHf]; intros l hd free data tail self last ltag idx Hm Hasc Hok Hself Hlt Hfree Hhd H31 Hroom; inversion Hm as [|? p ? l' Hv Hm']; subst.
  - eexists. split; [done|]. exists free, tail. unfold slot_bytes, datas. cbn. rewrite !app_nil_r. split_and!; try done. lia.
  - destruct p as [f' fv]. pose proof (field_value_fst _ _ _ Hv) as [= ->]. destruct Hasc as [Htag Hasc]. apply Forall_cons in Hok as [Hf Hok].
    pose proof (needs_nonneg _ _ _ Hm') as Hnn. pose proof (data_need _ _ _ Hv) as Hdn.
    assert (room_for (wide_of fv) (need_of fv) tail /\ forall tail', Z.of_nat (length tail) - need_of fv <= Z.of_nat (length tail') -> room_for (wides l') (needs l') tail') as [Hr1 Hr2].
    { unfold room_for, wides, needs, sum in *. cbn [existsb map fold_right snd] in *. split; [|intros tail' Htl]; (destruct Hroom as [[? ?]%orb_false_elim|?]; [by left | right; lia]). }
    destruct (field_done_ok f t self last fv (hd ++ free ++ data) tail idx ltag Hf Hself ltac:(lia) H31 Hv Hr1) as (r & region' & self' & E & Hl & Hcase).
    rewrite <- !app_assoc in E. cbn [encode_fields]. rewrite E. cbn [e_data e_size e_index e_lasttag]. rewrite slots_present in Hfree.
    destruct Hcase as [[-> Hshort]|[Hself' Hr]].
    { cbn. eexists. split; [done|]. cbn beta iota. split; [done|]. rewrite !length_app, Hl. split; [done|]. unfold needs, sum in *. cbn [map fold_right snd]. lia. }
    destruct fv as [|value w|b w need wide].
    + assert (fields_done (encode_fields (encode types (S d)) fs (MkEncoding (hd ++ free ++ data ++ region') self' (Z.of_nat (length (hd ++ free ++ data))) (Z.of_nat (length tail)) idx ltag))
        l' ltag hd free data region' idx) as Hrest by (rewrite <- Hl; apply (IHf _ _ _ _ _ _ (f_tag f)); try done; [lia | rewrite Hl; lia | apply Hr2; rewrite Hl; cbn; lia]).
      assert (fields_done (encode_fields (encode types (S d)) fs (MkEncoding (hd ++ free ++ data ++ region') self' (Z.of_nat (length (hd ++ free ++ data))) (Z.of_nat (length tail)) idx ltag))
        ((f, FAbsent) :: l') ltag hd free data tail idx) as Hdone.
      { eapply (fields_done_cons _ _ _ _ _ _ _ _ _ _ [] free [] region' ltag); try done; cbn; try lia. by rewrite !app_nil_r, Z.add_0_r. }
      destruct Hr as [->| ->]; exact Hdone.
    + pose proof (inline_not_zero _ _ _ _ Hv) as Hnz. subst r. cbn [Z.ltb Z.compare]. rewrite length_app in Hfree.
      destruct (put_record_ok f 2 value self' hd free data region' idx ltag) as (idx' & -> & Ep); try lia; [rewrite words_length; lia|]. rewrite Hl in Ep. rewrite Ep. cbn [lift].
      destruct (Z.eqb_spec value 0); [done|]. rewrite Z.add_0_r, Z.sub_0_r. set (s := gap_slot ltag f ++ [value]) in *. pose proof (words_length s) as Hws.
      eapply (fields_done_cons _ _ _ _ _ _ _ _ _ _ s (drop (length (concat (map word_bytes s))) free) [] region' (f_tag f)); try done;
        [|by rewrite slots_present | rewrite length_app, length_drop; lia].
      replace (Z.of_nat (length (hd ++ free ++ data))) with (Z.of_nat (length ((hd ++ concat (map word_bytes s)) ++ drop (length (concat (map word_bytes s))) free ++ data)))
        by (rewrite !length_app, length_drop; lia).
      rewrite app_nil_r, <- Hl. apply (IHf _ _ _ _ _ _ (f_tag f)); try done; try lia; [rewrite length_drop; lia | rewrite length_app; lia | apply Hr2; rewrite Hl; cbn; lia].
    + destruct Hr as [-> [rest ->]]. rewrite with_size_length. destruct (Z.ltb_spec (Z.of_nat (4 + length b)) 0), (Z.ltb_spec 0 (Z.of_nat (4 + length b))); try lia. rewrite length_app in Hfree.
      destruct (put_record_ok f (Z.of_nat (4 + length b)) 0 self' hd free data (with_size b ++ rest) idx ltag) as (idx' & -> & Ep); try lia; [rewrite words_length; lia|]. rewrite Hl in Ep.
      rewrite Ep. cbn [lift Z.eqb]. set (s := gap_slot ltag f ++ [0]) in *. pose proof (words_length s) as Hws. rewrite length_app, with_size_length in Hl.
      eapply (fields_done_cons _ _ _ _ _ _ _ _ _ _ s (drop (length (concat (map word_bytes s))) free) (with_size b) rest (f_tag f)); try done;
        [|by rewrite slots_present | rewrite length_app, length_drop; lia | rewrite length_app, with_size_length; lia].
      replace (Z.of_nat (length (hd ++ free ++ data)) + Z.of_nat (4 + length b))
        with (Z.of_nat (length ((hd ++ concat (map word_bytes s)) ++ drop (length (concat (map word_bytes s))) free ++ data ++ with_size b)))
        by (rewrite !length_app, length_drop, with_size_length; lia).
      replace (Z.of_nat (length tail) - Z.of_nat (4 + length b)) with (Z.of_nat (length rest)) by lia. rewrite (app_assoc data).
      cbn [data_of need_of] in *. rewrite with_size_length in Hdn.
      apply (IHf _ _ _ _ _ _ (f_tag f)); try done; try lia; [rewrite length_drop; lia | rewrite length_app; lia | apply Hr2; lia].
Qed.

(** ** A message *)

Lemma slots_le t fs : forall l last ltag, fields_of t fs l -> ascending last fs -> ltag <= last ->
  Z.of_nat (length (slots ltag l)) <= slots_needed last fs + (if ltag <? last then 1 else 0).
Proof.
  induction fs as [|f fs IHf]; intros l last ltag Hm Hasc Hlt; inversion Hm as [|? p ? l' Hv Hm']; subst; cbn [slots_needed].
  - cbn. destruct (ltag <? last); lia.
  - rewrite (field_value_fst _ _ _ Hv). destruct Hasc as [Htag Hasc]. rewrite slots_present. destruct (snd p).
    1: pose proof (IHf _ (f_tag f) ltag Hm' Hasc ltac:(lia)) as Hi.
    2,3: pose proof (IHf _ (f_tag f) (f_tag f) Hm' Hasc ltac:(lia)) as Hi; rewrite !length_app; unfold gap_slot.
    all: destruct (Z.ltb_spec ltag (f_tag f)), (Z.ltb_spec ltag last), (Z.ltb_spec (last + 1) (f_tag f)); rewrite ?Z.ltb_irrefl in Hi; try lia;
      destruct (Z.ltb_spec 0 (f_tag f - ltag - 1)); cbn [length]; lia.
Qed.

Lemma datas_le t fs l : fields_of t fs l -> Z.of_nat (length (datas l)) <= needs l.
Proof.
  unfold datas, needs, sum. induction 1 as [|f p fs l Hv _ IHl]; cbn [map concat fold_right]; [done|]. pose proof (field_value_fst _ _ _ Hv) as E. rewrite E in Hv.
  apply data_need in Hv. rewrite length_app. lia.
Qed.

Lemma msg_inv st t m : msg types (S d) st t = Some m -> exists l, fields_of t (t_f st) l /\ m = MkMessage (wire l) (omap lua_of l) (SIZEOF_HEADER + t_maxn st * SIZEOF_FIELD + needs l) (wides l).
Proof. cbn [msg]. destruct (mapM _ _) as [l|] eqn:E; [|done]. intros [= <-]. exists l. split; [by apply mapM_Some | done]. Qed.

Lemma wire_length l : length (wire l) = (2 + 2 * length (slots (-1) l) + length (datas l))%nat.
Proof. unfold wire, header. rewrite !length_app, words_length, word_bytes_length. fold (datas l). lia. Qed.

Lemma msg_sizes_S : msg_sizes (S d).
Proof.
  intros st t m Hst Hm. apply msg_inv in Hm as (l & Hl & ->). cbn [m_bytes m_need]. rewrite wire_length. unfold SIZEOF_HEADER, SIZEOF_FIELD.
  pose proof (slots_le _ _ _ (-1) (-1) Hl (to_ascending _ _ Hst) ltac:(lia)) as Hs. rewrite Z.ltb_irrefl in Hs. rewrite (to_maxn _ _ Hst). pose proof (datas_le _ _ _ Hl). lia.
Qed.

Lemma encodes_S : encodes (S d).
Proof.
  intros st t m region Hst Hm H31 Hroom. apply msg_inv in Hm as (l & Hl & ->). cbn [m_bytes m_need m_wide] in *.
  pose proof (slots_le _ _ _ (-1) (-1) Hl (to_ascending _ _ Hst) ltac:(lia)) as Hs. rewrite Z.ltb_irrefl in Hs.
  pose proof (needs_nonneg _ _ _ Hl) as Hnn. pose proof (to_maxn _ _ Hst) as Hmaxn.
  unfold sproto_encode, SIZEOF_HEADER, SIZEOF_FIELD in *. set (hs := 2 + t_maxn st * 2) in *.
  destruct (Z.ltb_spec (Z.of_nat (length region)) hs).
  { exists (MkEncodeUd t None None 0), (-1), region, (MkEncodeUd t None None 0). split; [done|]. split; [done|]. left. lia. }
  set (hd := take 2 region). set (free := take (Z.to_nat (t_maxn st * 2)) (drop 2 region)). set (tail := drop (Z.to_nat hs) region).
  assert (length hd = 2%nat) as Hhd by (subst hd; rewrite length_take; lia).
  assert (Z.of_nat (length free) = t_maxn st * 2) as Hfree by (subst free; rewrite length_take, length_drop; lia).
  assert (Z.of_nat (length tail) = Z.of_nat (length region) - hs) as Htail by (subst tail; rewrite length_drop; lia).
  assert (region = hd ++ free ++ [] ++ tail) as Er.
  { subst hd free tail. cbn [app]. rewrite <- (take_drop 2 region) at 1. f_equal. rewrite <- (take_drop (Z.to_nat (t_maxn st * 2)) (drop 2 region)) at 1. f_equal.
    rewrite drop_drop. f_equal. lia. }
  destruct (encode_fields_ok t (t_f st) l hd free [] tail (MkEncodeUd t None None 0) (-1) (-1) 0) as (r & E & Hr); try done; try lia.
  { apply (to_ascending _ _ Hst). } { apply (to_fields _ _ Hst). } { destruct Hroom; [by left | right; lia]. }
  rewrite <- Er in E. rewrite app_nil_r in E. replace (Z.of_nat (length (hd ++ free))) with hs in E by (rewrite length_app; lia). rewrite Htail in E. rewrite E.
  destruct r as [[[r buf] ud]|[buf ud edata esize idx ltag]].
  - destruct Hr as (-> & Hbl & Hn). rewrite <- Er in Hbl. exists ud, (-1), buf, ud. split; [done|]. split; [done|]. left. lia.
  - destruct Hr as (free' & tail' & -> & -> & -> & H1 & H2). rewrite Z.add_0_l. cbn [app]. set (S := slots (-1) l) in *. set (sb := slot_bytes (-1) l) in *.
    assert (length sb = 2 * length S)%nat as Hsb by apply words_length. rewrite length_app in H1, H2.
    rewrite <- !app_assoc, memcpy_at_front by (rewrite length_app, word_bytes_length; lia). cbn [lift]. rewrite (drop_app_length' hd) by (by rewrite word_bytes_length).
    set (w := word_bytes (Z.of_nat (length S))) in *. assert (length w = 2%nat) as Hw by done.
    assert (wire l = w ++ sb ++ datas l) as Ewire by done.
    replace (Z.of_nat (length (hd ++ sb ++ free' ++ datas l)) - hs) with (Z.of_nat (length (datas l))) by (rewrite !length_app; lia).
    exists ud, (2 + Z.of_nat (length S) * 2 + Z.of_nat (length (datas l))). rewrite wire_length. fold S.
    destruct (Z.eqb_spec (Z.of_nat (length S)) (t_maxn st)) as [Em|Em]; cbn [negb].
    + assert (free' = []) as -> by (destruct free'; [done | cbn [length] in *; lia]). exists (w ++ sb ++ datas l ++ tail'), ud. split; [done|].
      rewrite !length_app. split; [rewrite Er, !length_app; cbn [length]; lia|]. right. split; [lia|]. split; [done|]. exists tail'. by rewrite Ewire, <- !app_assoc.
    + assert (memcpy (w ++ sb ++ free' ++ datas l ++ tail') hs (Z.of_nat (length (datas l))) = Some (datas l)) as ->.
      { replace hs with (Z.of_nat (length (w ++ sb ++ free'))) by (rewrite !length_app; lia).
        replace (w ++ sb ++ free' ++ datas l ++ tail') with ((w ++ sb ++ free') ++ datas l ++ tail') by (by rewrite <- !app_assoc). by apply memcpy_mid. }
      cbn [lift]. replace (w ++ sb ++ free' ++ datas l ++ tail') with ((w ++ sb) ++ free' ++ datas l ++ tail') by (by rewrite <- !app_assoc).
      replace (2 + 2 * Z.of_nat (length S)) with (Z.of_nat (length (w ++ sb))) by (rewrite length_app; lia).
      replace (2 + Z.of_nat (length S) * 2) with (Z.of_nat (length (w ++ sb))) by (rewrite length_app; lia).
      rewrite memcpy_at_tail by (rewrite !length_app; lia). cbn [lift].
      exists (((w ++ sb) ++ datas l) ++ drop (length (datas l)) (free' ++ datas l ++ tail')), ud. rewrite <- !app_assoc. split; [done|].
      rewrite !length_app, length_drop, !length_app. split; [rewrite Er, !length_app; cbn [length]; lia|]. right. split; [lia|]. split; [done|].
      eexists. rewrite Ewire, <- !app_assoc. done.
Qed.
End Depth.

Lemma encodes_all d : encodes d /\ msg_sizes d.
Proof.
  induction d as [|d [IH1 IH2]]; [split; by intros ? ?|]. split; [by apply encodes_S | by apply msg_sizes_S].
Qed.

(** ** The buffer grows until the message fits *)

Lemma expand_double sz : 0 < sz -> sz * 2 <= ENCODE_MAXSIZE -> expand_buffer sz (sz * 2) = Ok (sz * 2).
Proof.
  intros Hs Hm. unfold ENCODE_MAXSIZE in *. unfold expand_buffer. cbn [expand_loop]. rewrite int_Ok by (unfold INT_MAX; lia). rewrite Z.ltb_irrefl.
  destruct (Z.ltb_spec ENCODE_MAXSIZE (sz * 2)); [unfold ENCODE_MAXSIZE in *; lia | done].
Qed.

Lemma lencode_loop_ok st t m : type_ok n st -> msg types ENCODE_DEEPLEVEL st t = Some m -> m_need m <= 2 ^ 23 -> forall fuel buffer,
  (0 < length buffer)%nat -> Z.of_nat (length buffer) < 2 ^ 31 -> m_need m <= Z.of_nat (length buffer) * 2 ^ Z.of_nat fuel -> room_for (m_wide m) (m_need m) buffer ->
  exists buffer', lencode_loop types fuel st t buffer = Ok (m_bytes m, buffer') /\ (length buffer <= length buffer')%nat.
Proof.
  intros Hst Hm Hneed fuel. destruct (encodes_all ENCODE_DEEPLEVEL) as [Henc _].
  induction fuel as [|fuel IH]; intros buffer Hb H31 Hf Hroom; cbn [lencode_loop];
    destruct (Henc st t m buffer Hst Hm H31 Hroom) as (ud' & r & buf & ud & E & Hl & Hr); cbn [app] in E; rewrite E; destruct Hr as [[-> Hshort]|(-> & -> & rest & ->)].
  1: change (2 ^ Z.of_nat 0) with 1 in Hf; lia.
  2: destruct (Z.ltb_spec (-1) 0); [|lia].
  2: { rewrite Hl. rewrite int_Ok by (unfold INT_MAX; lia). rewrite expand_double by (unfold ENCODE_MAXSIZE; lia).
    destruct (IH (malloc (Z.of_nat (length buffer) * 2))) as (buffer' & E' & Hl').
    - unfold malloc. rewrite length_replicate. lia.
    - unfold malloc. rewrite length_replicate. lia.
    - unfold malloc. rewrite length_replicate, Z2Nat.id by lia. rewrite Nat2Z.inj_succ, Z.pow_succ_r in Hf by lia. lia.
    - left. destruct Hroom; [done | lia].
    - exists buffer'. split; [done|]. unfold malloc in Hl'. rewrite length_replicate in Hl'. lia. }
  all: destruct (Z.ltb_spec (Z.of_nat (length (m_bytes m))) 0); [lia|]; rewrite <- Hl, memcpy_Some by (rewrite ?length_app; lia); cbn [lift];
    rewrite drop_0, Nat2Z.id, take_app_length; by eexists.
Qed.

(** What [lencode] returns. *)
Lemma lencode_ok output st t m : type_ok n st -> msg types ENCODE_DEEPLEVEL st t = Some m -> m_need m <= 2 ^ 23 -> (0 < length output)%nat -> Z.of_nat (length output) <= 2 ^ 24 ->
  room_for (m_wide m) (m_need m) output -> exists output', lencode types output st (VTable t) = Ok (m_bytes m, output') /\ (length output <= length output')%nat.
Proof.
  intros Hst Hm Hneed Ho H24 Hroom. apply lencode_loop_ok; try done; [lia|]. change (2 ^ Z.of_nat 25) with (2 ^ 25). lia.
Qed.
End Lua.
