(* ===== verification/SprotoDecode.v ===== *)
(** * Decoding gives the table back

    [sproto_decode], with the callback that builds Lua tables, reads the bytes of [msg] wherever they lie in memory and
    builds its table. *)

From S2P Require Import Prelude CString Buffer LuaError Sproto SprotoSpec SprotoPack SprotoCode SprotoLua SprotoWire SprotoInts SprotoEncode.

(** ** Reading memory *)

Lemma toword_holds mem p v : holds mem p (word_bytes v) -> 0 <= v < 2 ^ 16 -> toword mem p = Some v.
Proof.
  intros Hh Hv. apply holds_byte in Hh as [E0 Hh]. apply holds_byte in Hh as [E1 _]. unfold toword. rewrite E0, E1. f_equal. change 0xff with (Z.ones 8).
  rewrite !Z.land_ones, Z.shiftr_div_pow2, Z.shiftl_mul_pow2 by lia. rewrite lor_fields by (try lia; apply Z.mod_pos_bound; lia).
  change (2 ^ 8) with 256. change (2 ^ 16) with 65536 in Hv. Z.div_mod_to_equations. lia.
Qed.

Lemma todword_holds mem p v : holds mem p (dword_bytes v) -> 0 <= v < 2 ^ 32 -> todword mem p = Some v.
Proof.
  intros Hh Hv. apply holds_byte in Hh as [E0 Hh]. apply holds_byte in Hh as [E1 Hh]. apply holds_byte in Hh as [E2 Hh]. apply holds_byte in Hh as [E3 _].
  replace (p + 1 + 1) with (p + 2) in * by lia. replace (p + 2 + 1) with (p + 3) in * by lia.
  unfold todword. rewrite E0, E1, E2, E3. f_equal. change 0xff with (Z.ones 8).
  rewrite !Z.land_ones, !Z.shiftr_div_pow2, !Z.shiftl_mul_pow2 by lia. 
  assert (forall x, 0 <= x mod 2 ^ 8 < 2 ^ 8) as Hb by (intros x; apply Z.mod_pos_bound; lia).
  rewrite (lor_fields (v mod 2 ^ 8)) by (try lia; apply Hb). pose proof (Hb v). pose proof (Hb (v / 2 ^ 8)). pose proof (Hb (v / 2 ^ 16)). pose proof (Hb (v / 2 ^ 24)).
  change (2 ^ 8) with 256 in *. change (2 ^ 16) with 65536 in *. change (2 ^ 24) with 16777216 in *. change (2 ^ 32) with 4294967296 in *.
  assert (forall a b, 0 <= a < 65536 -> Z.lor a (b * 65536) = a + b * 65536) as Hl16 by (intros a b Ha; apply (lor_fields a b 16); lia).
  assert (forall a b, 0 <= a < 16777216 -> Z.lor a (b * 16777216) = a + b * 16777216) as Hl24 by (intros a b Ha; apply (lor_fields a b 24); lia).
  rewrite Hl16, Hl24 by lia. rewrite u32_small by (change (2 ^ 32) with 4294967296; lia). Z.div_mod_to_equations. lia.
Qed.

Lemma with_size_holds mem p b : holds mem p (with_size b) -> Z.of_nat (length mem) < 2 ^ 31 -> todword mem p = Some (Z.of_nat (length b)) /\ holds mem (p + 4) b.
Proof. intros Hh H31. apply holds_app in Hh as [H1 H2]. apply holds_length in H2 as Hl. split; [apply todword_holds; [done | lia] | done]. Qed.

(** Eight-byte integers as two words. *)
Lemma le64_holds mem p z : holds mem p (le64 z) -> - 2 ^ 63 <= z < 2 ^ 63 ->
  exists low hi, todword mem p = Some low /\ todword mem (p + 4) = Some hi /\ i64 (Z.lor low (Z.shiftl hi 32)) = z.
Proof.
  intros Hh Hz. unfold le64 in Hh. apply holds_app in Hh as [H1 H2]. rewrite dword_bytes_length in H2. change (Z.of_nat 4) with 4 in H2.
  pose proof (u64_range z) as Hu. set (v := u64 z) in *.
  assert (dword_bytes v = dword_bytes (v mod 2 ^ 32)) as Ev.
  { unfold dword_bytes. change 0xff with (Z.ones 8). rewrite !Z.land_ones, !Z.shiftr_div_pow2 by lia.
    change (2 ^ 8) with 256. change (2 ^ 16) with 65536. change (2 ^ 24) with 16777216. change (2 ^ 32) with 4294967296.
    repeat (apply (f_equal2 cons); [Z.div_mod_to_equations; lia|]). done. }
  rewrite Ev in H1. exists (v mod 2 ^ 32), (v / 2 ^ 32). rewrite Z.shiftr_div_pow2 in H2 by lia.
  split; [apply todword_holds; [done | apply Z.mod_pos_bound; lia]|]. split; [apply todword_holds; [done | Z.div_mod_to_equations; lia]|].
  rewrite Z.shiftl_mul_pow2, lor_fields by (try lia; apply Z.mod_pos_bound; lia). 
  assert (v mod 2 ^ 32 + v / 2 ^ 32 * 2 ^ 32 = v) as -> by (Z.div_mod_to_equations; lia). subst v. unfold i64, u64. change (2 ^ 64) with 18446744073709551616. change (2 ^ 63) with 9223372036854775808 in *.
  Z.div_mod_to_equations. lia.
Qed.

Lemma le32_holds mem p z : holds mem p (le32 z) -> narrow z = true -> exists v, todword mem p = Some v /\ i64 (expand64 v) = z.
Proof.
  intros Hh Hz. exists (u32 z). split; [apply todword_holds; [done | apply u32_range]|]. unfold expand64. rewrite sign_word by done. rewrite narrow_u32 by done.
  unfold narrow in Hz. zbool. destruct (Z.ltb_spec z 0).
  - rewrite Z.shiftl_mul_pow2, lor_fields by lia. unfold i64. change (2 ^ 64) with 18446744073709551616. change (2 ^ 63) with 9223372036854775808. change (2 ^ 32) with 4294967296 in *.
    Z.div_mod_to_equations. lia.
  - apply i64_small. lia.
Qed.

(** ** Tables *)

Lemma key_eq_string s : key_eq (VString s) (VString s) = true.
Proof. cbn. by apply bool_decide_eq_true. Qed.

Lemma rawget_rawset (t : entries) s v : lua_rawget (lua_rawset t (VString s) v) (VString s) = v.
Proof. induction t as [|[k w] t IH]; cbn [lua_rawset]; [cbn; by rewrite bool_decide_eq_true_2|]. destruct (key_eq k (VString s)) eqn:E; cbn [lua_rawget]; by rewrite E. Qed.

Lemma rawset_rawset (t : entries) s v w : lua_rawset (lua_rawset t (VString s) v) (VString s) w = lua_rawset t (VString s) w.
Proof.
  induction t as [|[k u] t IH]; cbn [lua_rawset]; [cbn; by rewrite bool_decide_eq_true_2|]. destruct (key_eq k (VString s)) eqn:E; cbn [lua_rawset]; rewrite E; [done | by rewrite IH].
Qed.

Definition list_entries (l : list lua) : entries := imap (fun i v => (VInteger (Z.of_nat i + 1), v)) l.

Lemma rawset_list (l : list lua) v : lua_rawset (list_entries l) (VInteger (Z.of_nat (length l) + 1)) v = list_entries (l ++ [v]).
Proof.
  unfold list_entries. rewrite imap_app. cbn. rewrite Nat.add_0_r.
  assert (forall t k, Forall (fun p : lua * lua => key_eq (fst p) k = false) t -> lua_rawset t k v = t ++ [(k, v)]) as Happ.
  { induction t as [|[k' w] t IH]; intros k Hk; [done|]. apply Forall_cons in Hk as [Hk1 Hk2]. cbn in *. by rewrite Hk1, IH. }
  apply Happ. apply Forall_lookup_2. intros i p Hi. rewrite list_lookup_imap in Hi. destruct (l !! i) as [w|] eqn:E; [|done]. injection Hi as <-. apply lookup_lt_Some in E.
  cbn. apply Z.eqb_neq. lia.
Qed.

Section Decode.
Context `{LuaNumbers}.
Variables (types : list sproto_type) (n : Z).
Hypothesis Htypes : Forall (type_ok n) types.
Variable mem : list Z.
Hypothesis H31 : Z.of_nat (length mem) < 2 ^ 31.

(** ** Storing a field *)

(** [v] has been stored for field [f]. *)
Definition stored (ud : decode_ud) (f : field) (v : lua) (ud' : decode_ud) : Prop :=
  du_result ud' = lua_rawset (du_result ud) (VString (name_of f)) v /\ du_mainindex_tag ud' = du_mainindex_tag ud /\
  du_key ud' = key_step (du_mainindex_tag ud) (du_key ud) (f, v) /\
  forall tag, du_array_tag ud' = Some tag -> tag <= f_tag f \/ du_array_tag ud = Some tag.

Lemma store_scalar f v ud : is_array f = false -> exists ud', decode_store (field_arg f) v ud = Ok (0, ud') /\ stored ud f v ud'.
Proof.
  intros Ha. unfold decode_store. cbn [field_arg a_index a_tagid a_tagname Z.ltb Z.compare]. eexists. split; [done|]. unfold stored, key_step, set_result. cbn [fst snd]. rewrite Ha. cbn [negb].
  rewrite andb_true_r, Z.eqb_sym. destruct (f_tag f =? du_mainindex_tag ud); cbn; split_and!; auto.
Qed.

(** The state within an array: the elements [l] are stored. *)
Definition in_array (ud : decode_ud) (f : field) (t : entries) : decode_ud :=
  MkDecodeUd (lua_rawset (du_result ud) (VString (name_of f)) (VTable t)) (Some (f_tag f)) (Some (name_of f)) (du_mainindex_tag ud) (du_key ud).

Lemma in_array_stored ud f t : is_array f = true -> stored ud f (VTable t) (in_array ud f t).
Proof. intros Ha. unfold stored, key_step. cbn [fst snd]. rewrite Ha. cbn. rewrite andb_false_r. split_and!; try done. intros tag [= <-]. by left. Qed.

(** The state before element [i]: the array is made with the first one. *)
Definition elem_state (ud : decode_ud) (f : field) (t : entries) (i : nat) : decode_ud := match i with O => ud | _ => in_array ud f t end.

Lemma new_array ud f t i : du_array_tag ud <> Some (f_tag f) -> (i = O -> t = []) -> decode_new_array (set_index (field_arg f) (Z.of_nat i + 1)) (elem_state ud f t i) = in_array ud f t.
Proof.
  intros Hn Ht. unfold decode_new_array. cbn [set_index field_arg a_index a_tagid a_tagname]. destruct (Z.eqb_spec (Z.of_nat i + 1) 0); [lia|]. cbn [negb andb].
  destruct i as [|i]; cbn [elem_state].
  - rewrite bool_decide_eq_false_2 by done. by rewrite (Ht eq_refl).
  - by rewrite bool_decide_eq_true_2.
Qed.

Lemma array_set_ok ud f t k v : array_set (in_array ud f t) k v = Ok (in_array ud f (lua_rawset t k v)).
Proof. unfold array_set. cbn [in_array du_array lift du_result]. unfold lua_getfield. rewrite rawget_rawset. unfold set_result, in_array. cbn. by rewrite rawset_rawset. Qed.

Lemma store_elem ud f l v : decode_store (set_index (field_arg f) (Z.of_nat (length l) + 1)) v (in_array ud f (list_entries l)) = Ok (0, in_array ud f (list_entries (l ++ [v]))).
Proof.
  unfold decode_store. cbn [set_index a_index]. destruct (Z.ltb_spec 0 (Z.of_nat (length l) + 1)); [|lia]. by rewrite array_set_ok, rawset_list.
Qed.

Lemma key_fold key fs : forall o, fold_left (key_step key) fs o = match fold_left (key_step key) fs None with Some k => Some k | None => o end.
Proof.
  induction fs as [|p fs IHf]; intros o; [done|]. cbn [fold_left]. unfold key_step at 2 4. destruct (_ && _); [|apply IHf]. rewrite IHf. by destruct (fold_left _ _ None).
Qed.

(** ** Numbers and objects *)

Section Depth.
Variable d : nat.

Definition decodes (d : nat) : Prop := forall st t m p ud, type_ok n st -> msg types d st t = Some m -> holds mem p (m_bytes m) -> du_array_tag ud = None ->
  exists ud', sproto_decode mem (decode types mem d) st p (Z.of_nat (length (m_bytes m))) ud = Ok (Z.of_nat (length (m_bytes m)), ud') /\
    du_result ud' = set_fields (du_result ud) (m_fields m) /\ du_key ud' = fold_left (key_step (du_mainindex_tag ud)) (m_fields m) (du_key ud).

Hypothesis IH : decodes d.

(** What the callback does with a value depends on the state after [decode_new_array]. *)
Lemma decode_int args ud z v : a_type args = SPROTO_TINTEGER -> 0 <= a_index args -> i64 v = z ->
  decode types mem (S d) args (DInt v) ud = decode_store args (VInteger z) (decode_new_array args ud).
Proof. intros Ht Hi <-. cbn [decode]. rewrite Ht. by destruct (Z.ltb_spec (a_index args) 0); [lia|]. Qed.

Lemma decode_bool args ud (b : bool) : a_type args = SPROTO_TBOOLEAN -> 0 <= a_index args ->
  decode types mem (S d) args (DInt (if b then 1 else 0)) ud = decode_store args (VBoolean b) (decode_new_array args ud).
Proof. intros Ht Hi. cbn [decode]. rewrite Ht. destruct (Z.ltb_spec (a_index args) 0); [lia|]. by destruct b. Qed.

(** A string, or a message that is not the element of a map. *)
Lemma decode_object args ud f v it p : object types (msg types d) f v = Some it -> a_type args = base_type f -> a_subtype args = f_st f ->
  base_type f = SPROTO_TSTRING \/ a_mainindex args < 0 -> 0 <= a_index args -> holds mem p (it_bytes it) ->
  decode types mem (S d) args (DData p (Z.of_nat (length (it_bytes it)))) ud = decode_store args (it_lua it) (decode_new_array args ud).
Proof.
  intros Ho Ht Hst Hk Hi Hh. cbn [decode]. rewrite Ht, Hst. destruct (Z.ltb_spec (a_index args) 0); [lia|]. cbn [andb]. destruct v as [| | | |s|t|]; cbn [object] in Ho; try done.
  - destruct (Z.eqb_spec (base_type f) SPROTO_TSTRING) as [->|]; [|done]. injection Ho as <-. cbn [it_bytes it_lua Z.eqb SPROTO_TSTRING SPROTO_TINTEGER SPROTO_TBOOLEAN Pos.eqb] in *.
    destruct (Z.ltb_spec (Z.of_nat (length s)) 0); [lia|]. by rewrite holds_memcpy.
  - destruct (Z.eqb_spec (base_type f) SPROTO_TSTRUCT) as [Eb|]; [|done]. rewrite Eb in *. destruct Hk as [|Hk]; [done|]. cbn [Z.eqb SPROTO_TSTRUCT SPROTO_TSTRING SPROTO_TINTEGER SPROTO_TBOOLEAN Pos.eqb].
    destruct (f_st f) as [i|]; [|done]. destruct (aget types i) as [st|] eqn:Est; [|done]. destruct (msg types d st t) as [m|] eqn:Em; [|done]. injection Ho as <-. cbn [it_bytes it_lua lift] in *.
    apply aget_Some in Est as [_ Est]. destruct (Z.leb_spec 0 (a_mainindex args)); [lia|].
    destruct (IH st t m p (MkDecodeUd [] None None (-1) None)) as (ud' & E & Er & _); try done; [by apply (Forall_lookup_1 _ _ _ _ Htypes Est)|]. rewrite E.
    destruct (Z.ltb_spec (Z.of_nat (length (m_bytes m))) 0); [lia|]. rewrite Z.eqb_refl. cbn [negb]. by rewrite Er.
Qed.

(** The element of a map. *)
Lemma decode_map_elem ud f v it p t i k : object types (msg types d) f v = Some it -> base_type f = SPROTO_TSTRUCT -> 0 <= f_key f ->
  du_array_tag ud <> Some (f_tag f) -> (i = O -> t = []) -> main_key (f_key f) (it_fields it) = Some k -> k <> VNil -> holds mem p (it_bytes it) ->
  decode types mem (S d) (set_index (field_arg f) (Z.of_nat i + 1)) (DData p (Z.of_nat (length (it_bytes it)))) (elem_state ud f t i) = Ok (0, in_array ud f (lua_rawset t k (it_lua it))).
Proof.
  intros Ho Hb Hk Hn Ht Hmk Hnil Hh. cbn [decode]. rewrite new_array by done. cbn [set_index field_arg a_index a_tagid a_type a_subtype a_mainindex]. rewrite Hb.
  destruct (Z.ltb_spec (Z.of_nat i + 1) 0); [lia|]. cbn [andb Z.eqb SPROTO_TSTRUCT SPROTO_TSTRING SPROTO_TINTEGER SPROTO_TBOOLEAN Pos.eqb].
  destruct v as [| | | |s|tb|]; cbn [object] in Ho; try done; [by rewrite Hb in Ho|]. rewrite Hb in Ho. cbn [Z.eqb SPROTO_TSTRUCT Pos.eqb] in Ho.
  destruct (f_st f) as [j|]; [|done]. destruct (aget types j) as [st|] eqn:Est; [|done]. destruct (msg types d st tb) as [m|] eqn:Em; [|done]. injection Ho as <-. cbn [it_bytes it_lua it_fields lift] in *.
  apply aget_Some in Est as [_ Est]. destruct (Z.leb_spec 0 (f_key f)); [|lia].
  destruct (IH st tb m p (MkDecodeUd [] None None (f_key f) (Some VNil))) as (ud' & E & Er & Ek); try done; [by apply (Forall_lookup_1 _ _ _ _ Htypes Est)|]. rewrite E.
  destruct (Z.ltb_spec (Z.of_nat (length (m_bytes m))) 0); [lia|]. rewrite Z.eqb_refl. cbn [negb].
  rewrite Ek, key_fold. cbn [du_mainindex_tag]. unfold main_key in Hmk. rewrite Hmk. rewrite array_set_ok, Er. by destruct k.
Qed.

(** ** Arrays *)

Lemma ints_ok ud f get vals : du_array_tag ud <> Some (f_tag f) ->
  (forall i v, vals !! i = Some v -> exists x, get (Z.of_nat i) = Some x /\
    forall u, decode types mem (S d) (set_index (field_arg f) (Z.of_nat i + 1)) (DInt x) u =
      decode_store (set_index (field_arg f) (Z.of_nat i + 1)) v (decode_new_array (set_index (field_arg f) (Z.of_nat i + 1)) u)) ->
  forall rest done fuel, vals = done ++ rest -> (length rest <= fuel)%nat ->
  decode_array_ints (decode types mem (S d)) fuel (field_arg f) get (Z.of_nat (length done)) (Z.of_nat (length vals)) (elem_state ud f (list_entries done) (length done)) =
    Ok (elem_state ud f (list_entries vals) (length vals)).
Proof.
  intros Hn Hget rest. induction rest as [|v rest IHr]; intros done fuel -> Hf.
  - rewrite app_nil_r in *. destruct fuel; cbn [decode_array_ints]; by rewrite Z.ltb_irrefl.
  - destruct fuel as [|fuel]; [cbn [length] in Hf; lia|]. cbn [decode_array_ints]. destruct (Z.ltb_spec (Z.of_nat (length done)) (Z.of_nat (length (done ++ v :: rest)))) as [_|Hlt];
      [|rewrite length_app in Hlt; cbn [length] in Hlt; lia].
    destruct (Hget (length done) v) as (x & Ex & Hx); [by apply list_lookup_middle|]. rewrite Ex. cbn [lift]. rewrite Hx, new_array by (try done; by destruct done). rewrite store_elem.
    replace (done ++ v :: rest) with ((done ++ [v]) ++ rest) in * by (by rewrite <- app_assoc).
    replace (Z.of_nat (length done) + 1) with (Z.of_nat (length (done ++ [v]))) by (rewrite length_app; cbn [length]; lia).
    rewrite <- (IHr (done ++ [v]) fuel); [|done | cbn [length] in Hf; lia]. f_equal. rewrite length_app. cbn [length]. by rewrite Nat.add_comm.
Qed.

Lemma objects_loop_ok (cb : dcallback decode_ud) arg (st : nat -> decode_ud) (items : list item) : forall i fuel p,
  (forall k it p, items !! k = Some it -> holds mem p (it_bytes it) ->
    cb (set_index arg (Z.of_nat (i + k) + 1)) (DData p (Z.of_nat (length (it_bytes it)))) (st (i + k)%nat) = Ok (0, st (S (i + k)))) ->
  holds mem p (objects items) -> (length items <= fuel)%nat ->
  decode_array_object mem cb fuel arg p (Z.of_nat (length (objects items))) (Z.of_nat i + 1) (st i) = Ok (0, st (i + length items)%nat).
Proof.
  induction items as [|it items IHi]; intros i fuel p Hcb Hh Hf.
  - cbn [length Nat.add]. rewrite Nat.add_0_r. by destruct fuel.
  - destruct fuel as [|fuel]; [cbn [length] in Hf; lia|]. change (objects (it :: items)) with (with_size (it_bytes it) ++ objects items) in *.
    pose proof (holds_length _ _ _ Hh) as [Hl _]. apply holds_app in Hh as [H1 H2]. destruct (with_size_holds _ _ _ H1 H31) as [Ed Hb]. rewrite length_app, with_size_length in *.
    cbn [decode_array_object]. unfold SIZEOF_LENGTH. destruct (Z.ltb_spec 0 (Z.of_nat (4 + length (it_bytes it) + length (objects items)))); [|lia].
    destruct (Z.ltb_spec (Z.of_nat (4 + length (it_bytes it) + length (objects items))) 4); [lia|]. rewrite Ed. cbn [lift]. rewrite u32_small by lia.
    destruct (Z.ltb_spec (Z.of_nat (4 + length (it_bytes it) + length (objects items)) - 4) (Z.of_nat (length (it_bytes it)))); [lia|].
    pose proof (Hcb O it (p + 4) eq_refl Hb) as Hc. rewrite Nat.add_0_r in Hc. rewrite Hc. cbn [Z.eqb negb].
    replace (p + 4 + Z.of_nat (length (it_bytes it))) with (p + Z.of_nat (4 + length (it_bytes it))) by lia.
    replace (Z.of_nat (4 + length (it_bytes it) + length (objects items)) - 4 - Z.of_nat (length (it_bytes it))) with (Z.of_nat (length (objects items))) by lia.
    replace (Z.of_nat i + 1 + 1) with (Z.of_nat (S i) + 1) by lia. replace (i + length (it :: items))%nat with (S i + length items)%nat by (cbn [length]; lia).
    apply IHi; [|done|cbn [length] in Hf; lia]. intros k jt q Hk Hq. replace (S i + k)%nat with (i + S k)%nat by lia. by apply Hcb.
Qed.

Lemma keyed_snoc key items it : forall t, keyed key t (items ++ [it]) = let! t' := keyed key t items in let! k := main_key key (it_fields it) in Some (lua_rawset t' k (it_lua it)).
Proof. induction items as [|jt items IHi]; intros t; cbn [app keyed]; [done|]. destruct (main_key key (it_fields jt)); [apply IHi | done]. Qed.

Lemma empty_array ud f p : du_array_tag ud <> Some (f_tag f) -> holds mem p (with_size []) ->
  decode_array mem (decode types mem (S d)) (field_arg f) p ud = Ok (0, in_array ud f []).
Proof.
  intros Hn Hh. destruct (with_size_holds _ _ _ Hh H31) as [E _]. unfold decode_array. rewrite E. cbn [lift length Z.of_nat Z.eqb decode set_index a_index Z.ltb Z.compare andb].
  rewrite bool_decide_eq_false_2 by done. cbn [negb]. unfold decode_new_array. cbn [set_index a_index Z.eqb negb andb]. by rewrite bool_decide_eq_false_2.
Qed.

Lemma concat_holds {A} (g : A -> list Z) w p (l : list A) i x : (forall y, length (g y) = w) -> holds mem p (concat (map g l)) -> l !! i = Some x ->
  holds mem (p + Z.of_nat i * Z.of_nat w) (g x).
Proof.
  intros Hw. revert p i. induction l as [|y l IHl]; intros p i Hh; [done|]. cbn [map concat] in Hh. apply holds_app in Hh as [H1 H2]. rewrite Hw in H2.
  destruct i as [|i]; cbn [lookup list_lookup]; [intros [= <-]; by replace (p + Z.of_nat 0 * Z.of_nat w) with p by lia|].
  intros Hi. replace (p + Z.of_nat (S i) * Z.of_nat w) with (p + Z.of_nat w + Z.of_nat i * Z.of_nat w) by lia. by apply IHl.
Qed.

Lemma list_entries_list l : lua_list l = VTable (list_entries l). Proof. done. Qed.

(** Elements [vals] that [get] reads and that are all stored. *)
Lemma ints_array ud f get vals k : vals <> [] -> (length vals <= k)%nat -> du_array_tag ud <> Some (f_tag f) ->
  (forall i v, vals !! i = Some v -> exists x, get (Z.of_nat i) = Some x /\
    forall u, decode types mem (S d) (set_index (field_arg f) (Z.of_nat i + 1)) (DInt x) u =
      decode_store (set_index (field_arg f) (Z.of_nat i + 1)) v (decode_new_array (set_index (field_arg f) (Z.of_nat i + 1)) u)) ->
  decode_array_ints (decode types mem (S d)) k (field_arg f) get 0 (Z.of_nat (length vals)) ud = Ok (in_array ud f (list_entries vals)).
Proof.
  intros Hne Hk Hn Hget. pose proof (ints_ok ud f get vals Hn Hget vals [] k eq_refl Hk) as E. etransitivity; [exact E|]. by destruct vals.
Qed.

Lemma integer_array ud f zs vals p : mapM int_of vals = Some zs -> vals <> [] -> base_type f = SPROTO_TINTEGER -> du_array_tag ud <> Some (f_tag f) -> holds mem p (with_size (integers zs)) ->
  decode_array mem (decode types mem (S d)) (field_arg f) p ud = Ok (0, in_array ud f (list_entries vals)).
Proof.
  intros Hm Hne Hb Hn Hh. pose proof (holds_length _ _ _ Hh) as [Hlen _]. rewrite with_size_length in Hlen. destruct (with_size_holds _ _ _ Hh H31) as [E Hd].
  apply mapM_Some in Hm. pose proof (Forall2_length _ _ _ Hm) as Hl. unfold decode_array. rewrite E. cbn [lift].
  unfold integers in *. destruct zs as [|z0 zs']; [by destruct vals|]. set (zs := z0 :: zs') in *.
  assert (forall i v, vals !! i = Some v -> exists z, zs !! i = Some z /\ v = VInteger z /\ - 2 ^ 63 <= z < 2 ^ 63) as Hz.
  { intros i v Hi. apply (Forall2_lookup_l _ _ _ _ _ Hm) in Hi as (z & Hz & Ez). exists z. split; [done|]. destruct v; cbn in Ez; try done. destruct (_ && _) eqn:Er; [|done]. injection Ez as ->. zbool. split; [done | lia]. }
  destruct (forallb narrow zs) eqn:Enarrow.
  all: cbn [length] in *; rewrite ?concat_le32, ?concat_le64 in *; destruct (Z.eqb_spec (Z.of_nat (S (4 * length zs))) 0), (Z.eqb_spec (Z.of_nat (S (8 * length zs))) 0); try lia.
  all: apply holds_byte in Hd as [Eb Hd]; cbn [field_arg a_type]; rewrite Hb; cbn [Z.eqb SPROTO_TINTEGER]; unfold SIZEOF_LENGTH; rewrite Eb; cbn [lift Z.eqb Pos.eqb].
  - replace (Z.of_nat (S (4 * length zs)) - 1) with (4 * Z.of_nat (length zs)) by lia. rewrite Z.mul_comm, Z.mod_mul, Z.div_mul by lia. cbn [Z.eqb negb]. rewrite <- Hl.
    rewrite ints_array; [done | done | lia | done |]. intros i v Hi. destruct (Hz i v Hi) as (z & Hzi & -> & Hr). apply forallb_forall with (x := z) in Enarrow; [|by apply list_elem_of_In, list_elem_of_lookup; eauto].
    destruct (le32_holds mem (p + 4 + 1 + Z.of_nat i * 4) z) as (x & Ex & Hx); [by apply (concat_holds le32 4 _ zs) | done |].
    exists (expand64 x). split; [unfold get_word32; by rewrite Ex|]. intros u. apply decode_int; [done | cbn; lia | done].
  - replace (Z.of_nat (S (8 * length zs)) - 1) with (8 * Z.of_nat (length zs)) by lia. rewrite Z.mul_comm, Z.mod_mul, Z.div_mul by lia. cbn [Z.eqb negb]. rewrite <- Hl.
    rewrite ints_array; [done | done | lia | done |]. intros i v Hi. destruct (Hz i v Hi) as (z & Hzi & -> & Hr).
    destruct (le64_holds mem (p + 4 + 1 + Z.of_nat i * 8) z) as (low & hi & E1 & E2 & Ex); [by apply (concat_holds le64 8 _ zs) | done |].
    exists (Z.lor low (Z.shiftl hi 32)). split; [unfold get_word64; by rewrite E1, E2|]. intros u. apply decode_int; [done | cbn; lia | done].
Qed.

Lemma boolean_array ud f bs vals p : mapM bool_of vals = Some bs -> vals <> [] -> base_type f = SPROTO_TBOOLEAN -> du_array_tag ud <> Some (f_tag f) ->
  holds mem p (with_size (map (fun b : bool => if b then 1 else 0) bs)) -> decode_array mem (decode types mem (S d)) (field_arg f) p ud = Ok (0, in_array ud f (list_entries vals)).
Proof.
  intros Hm Hne Hb Hn Hh. pose proof (holds_length _ _ _ Hh) as [Hlen _]. rewrite with_size_length in Hlen. destruct (with_size_holds _ _ _ Hh H31) as [E Hd].
  apply mapM_Some in Hm. pose proof (Forall2_length _ _ _ Hm) as Hl. unfold decode_array. rewrite E, length_map, <- Hl in *. cbn [lift]. destruct (Z.eqb_spec (Z.of_nat (length vals)) 0); [by destruct vals|].
  cbn [field_arg a_type]. rewrite Hb. cbn [Z.eqb SPROTO_TINTEGER SPROTO_TBOOLEAN]. rewrite ints_array; [done | done | lia | done |].
  intros i v Hi. apply (Forall2_lookup_l _ _ _ _ _ Hm) in Hi as (b & Hbi & Eb). destruct v as [|b'| | | | |]; try done. injection Eb as ->. exists (if b then 1 else 0). split.
  - unfold SIZEOF_LENGTH. rewrite (holds_aget _ _ _ i Hd). by rewrite list_lookup_fmap, Hbi.
  - intros u. apply decode_bool; [done | cbn; lia].
Qed.

(** Objects whose callbacks go through the states [st]. *)
Lemma object_array ud f (st : nat -> decode_ud) items p : base_type f = SPROTO_TSTRING \/ base_type f = SPROTO_TSTRUCT -> items <> [] -> st O = ud ->
  (forall i it q, items !! i = Some it -> holds mem q (it_bytes it) ->
    decode types mem (S d) (set_index (field_arg f) (Z.of_nat i + 1)) (DData q (Z.of_nat (length (it_bytes it)))) (st i) = Ok (0, st (S i))) ->
  holds mem p (with_size (objects items)) -> decode_array mem (decode types mem (S d)) (field_arg f) p ud = Ok (0, st (length items)).
Proof.
  intros Hb Hne <- Hcb Hh. pose proof (holds_length _ _ _ Hh) as [Hlen _]. rewrite with_size_length in Hlen. destruct (with_size_holds _ _ _ Hh H31) as [E Hd].
  assert (length items <= length (objects items))%nat as Hi.
  { clear. induction items as [|it items IHi]; [cbn; lia|]. change (objects (it :: items)) with (with_size (it_bytes it) ++ objects items). rewrite length_app, with_size_length. cbn [length]. lia. }
  unfold decode_array. rewrite E. cbn [lift]. destruct (Z.eqb_spec (Z.of_nat (length (objects items))) 0); [destruct items; [done | cbn [length] in Hi; lia]|].
  cbn [field_arg a_type]. rewrite i32_small by lia.
  assert (forall A (x y z : A), (if base_type f =? SPROTO_TINTEGER then x else if base_type f =? SPROTO_TBOOLEAN then y else if (base_type f =? SPROTO_TSTRING) || (base_type f =? SPROTO_TSTRUCT) then z else x) = z) as Hz
    by (intros; by destruct Hb as [->| ->]).
  pose proof (objects_loop_ok (decode types mem (S d)) (field_arg f) st items 0 (length mem) (p + SIZEOF_LENGTH)) as Hloop.
  destruct Hb as [->| ->]; cbn [Z.eqb SPROTO_TINTEGER SPROTO_TBOOLEAN SPROTO_TSTRING SPROTO_TSTRUCT Pos.eqb orb]; (etransitivity; [apply Hloop; [|exact Hd | lia]; intros; by apply Hcb | done]).
Qed.

Lemma list_array ud f vals items p : mapM (object types (msg types d) f) vals = Some items -> base_type f = SPROTO_TSTRING \/ base_type f = SPROTO_TSTRUCT /\ f_key f < 0 ->
  items <> [] -> du_array_tag ud <> Some (f_tag f) -> holds mem p (with_size (objects items)) ->
  decode_array mem (decode types mem (S d)) (field_arg f) p ud = Ok (0, in_array ud f (list_entries (map it_lua items))).
Proof.
  intros Hm Hb Hne Hn Hh. apply mapM_Some in Hm. set (luas := map it_lua items).
  rewrite (object_array ud f (fun i => elem_state ud f (list_entries (take i luas)) i) items); [|tauto | done..| |done].
  - rewrite firstn_all2 by (subst luas; by rewrite length_map). by destruct items.
  - intros i it q Hi Hq. destruct (Forall2_lookup_r _ _ _ _ _ Hm Hi) as (v & _ & Ho). rewrite (decode_object _ _ f v it); try done; [|cbn; tauto | cbn; lia].
    apply lookup_lt_Some in Hi as Hlt. assert (length (take i luas) = i) as El by (subst luas; rewrite length_take, length_map; lia). rewrite new_array by (try done; by intros ->).
    pose proof (store_elem ud f (take i luas) (it_lua it)) as E. rewrite El in E. rewrite E. cbn [elem_state]. do 4 f_equal. symmetry. apply take_S_r. subst luas. by rewrite list_lookup_fmap, Hi.
Qed.

Lemma main_key_fields key fs k : Forall (fun p : field * lua => snd p <> VNil) fs -> main_key key fs = Some k -> k <> VNil.
Proof.
  intros Hf. unfold main_key. assert (forall o, (forall k, o = Some k -> k <> VNil) -> fold_left (key_step key) fs o = Some k -> k <> VNil) as Hg; [|by apply Hg].
  induction Hf as [|p fs Hp _ IHf]; intros o Ho; cbn [fold_left]; [apply Ho|]. apply IHf. unfold key_step. intros k'. destruct (_ && _); [by intros [= <-] | apply Ho].
Qed.

Lemma map_array ud f vals items p t : mapM (object types (msg types d) f) vals = Some items -> base_type f = SPROTO_TSTRUCT -> 0 <= f_key f -> keyed (f_key f) [] items = Some t ->
  (forall it k, it ∈ items -> main_key (f_key f) (it_fields it) = Some k -> k <> VNil) ->
  items <> [] -> du_array_tag ud <> Some (f_tag f) -> holds mem p (with_size (objects items)) ->
  decode_array mem (decode types mem (S d)) (field_arg f) p ud = Ok (0, in_array ud f t).
Proof.
  intros Hm Hb Hk Ht Hnil Hne Hn Hh. apply mapM_Some in Hm.
  rewrite (object_array ud f (fun i => elem_state ud f (default [] (keyed (f_key f) [] (take i items))) i) items); [|by right | done..| |done].
  - rewrite firstn_all, Ht. by destruct items.
  - intros i it q Hi Hq. destruct (Forall2_lookup_r _ _ _ _ _ Hm Hi) as (v & _ & Ho). pose proof (take_S_r _ _ _ Hi) as Es.
    assert (exists t', keyed (f_key f) [] (take (S i) items) = Some t') as [t' Et'].
    { clear - Ht. revert Ht. generalize ([] : entries). revert i. induction items as [|jt items IHi]; intros i e; [by destruct i; eauto|]. cbn [take keyed]. destruct (main_key _ _) as [k|]; [|done].
      destruct i as [|i]; [by cbn; eauto|]. apply IHi. }
    rewrite Es, keyed_snoc in *. destruct (keyed _ [] (take i items)) as [t0|] eqn:E0; [|done]. cbn beta iota in *. destruct (main_key _ (it_fields it)) as [k|] eqn:Ek; [|done]. cbn beta iota in *.
    etransitivity; [apply (decode_map_elem ud f v it q t0 i k); try done; [by intros ->; injection E0|]|done]. apply (Hnil it); [by apply list_elem_of_lookup; exists i | done].
Qed.

(** ** Fields *)

Lemma object_not_nil sub f v it : object types sub f v = Some it -> it_lua it <> VNil.
Proof.
  destruct v; cbn [object]; try done; destruct (_ =? _); try done; [by intros [= <-]|]. destruct (f_st f) as [i|]; [|done]. destruct (aget types i); [|done].
  destruct (sub _ _); [|done]. by intros [= <-].
Qed.

Lemma array_value_table sub f a fv : array_value types sub f a = Some fv -> exists b t need wide, fv = FBytes b (VTable t) need wide.
Proof.
  unfold array_value. destruct (field_values f a) as [vals|]; [|done].
  destruct (base_type f =? SPROTO_TINTEGER); [destruct (mapM _ vals); [|done]; intros [= <-]; by do 4 eexists|].
  destruct (base_type f =? SPROTO_TBOOLEAN); [destruct (mapM _ vals); [|done]; intros [= <-]; by do 4 eexists|].
  destruct (mapM _ vals) as [items|]; [|done]. destruct (_ && _); [destruct (keyed _ _ _); [|done]|]; intros [= <-]; by do 4 eexists.
Qed.

Lemma field_not_nil sub t f fv q : field_value types sub t f = Some (f, fv) -> lua_of (f, fv) = Some q -> snd q <> VNil.
Proof.
  unfold field_value. destruct (is_array f).
  - destruct (lua_getfield t (name_of f)) as [| | | | |a|]; try done; [by intros [= <-]|]. destruct (array_value _ _ _ _) as [fv'|] eqn:E; [|done].
    apply array_value_table in E as (b & t' & need & wide & ->). by intros [= <-] [= <-].
  - unfold scalar_value. destruct (lua_getfield t (name_of f)) as [| | | | |a|] eqn:Ev; try (by intros [= <-]);
      (destruct (base_type f =? SPROTO_TINTEGER); [destruct (int_of _); [|done]; repeat (destruct (_ && _)); try destruct (narrow _); intros [= <-] [= <-]; done|]);
      (destruct (base_type f =? SPROTO_TBOOLEAN); [destruct (bool_of _); [|done]; intros [= <-] [= <-]; done|]);
      (destruct (_ && _); [done|]); (destruct (object _ _ _ _) as [it|] eqn:Eo; [|done]); intros [= <-] [= <-]; by apply object_not_nil in Eo.
Qed.

Lemma fields_not_nil k st t m : msg types k st t = Some m -> Forall (fun p : field * lua => snd p <> VNil) (m_fields m).
Proof.
  destruct k as [|k]; [done|]. intros (l & Hl & ->)%msg_inv. cbn [m_fields]. unfold fields_of in Hl. induction Hl as [|f p fs l Hv _ IHl]; [done|]. pose proof (field_value_fst _ _ _ _ _ Hv) as E. rewrite E in *.
  cbn [omap list_omap]. destruct (lua_of (f, snd p)) as [q|] eqn:Eq; [|done]. apply Forall_cons. split; [by eapply field_not_nil | done].
Qed.

Lemma item_key sub f v it k : (forall st t m, sub st t = Some m -> Forall (fun p : field * lua => snd p <> VNil) (m_fields m)) ->
  object types sub f v = Some it -> main_key (f_key f) (it_fields it) = Some k -> k <> VNil.
Proof.
  intros Hsub Ho. apply main_key_fields. destruct v; cbn [object] in Ho; try done; destruct (_ =? _); try done; [by injection Ho as <-|].
  destruct (f_st f) as [i|]; [|done]. destruct (aget types i) as [st|]; [|done]. destruct (sub _ _) as [m|] eqn:Em; [|done]. injection Ho as <-. by apply Hsub in Em.
Qed.

Lemma array_decodes ud f a b v need wide p : field_ok n f -> is_array f = true -> array_value types (msg types d) f a = Some (FBytes b v need wide) ->
  du_array_tag ud <> Some (f_tag f) -> holds mem p (with_size b) ->
  exists ud', decode_array mem (decode types mem (S d)) (field_arg f) p ud = Ok (0, ud') /\ stored ud f v ud'.
Proof.
  intros Hf Ha Hv Hn Hh.
  assert (forall t, v = VTable t -> decode_array mem (decode types mem (S d)) (field_arg f) p ud = Ok (0, in_array ud f t) ->
    exists ud', decode_array mem (decode types mem (S d)) (field_arg f) p ud = Ok (0, ud') /\ stored ud f v ud') as Hfin
    by (intros t -> E; eexists; split; [exact E | by apply in_array_stored]).
  unfold array_value in Hv. destruct (field_values f a) as [vals|]; [|done].
  destruct (Z.eqb_spec (base_type f) SPROTO_TINTEGER) as [Eb|N1].
  { destruct (mapM int_of vals) as [zs|] eqn:Em; [|done]. injection Hv as <- <- _ _. eapply Hfin; [done|]. destruct vals as [|v0 vals]; [injection Em as <-; by apply empty_array | by apply (integer_array _ _ zs)]. }
  destruct (Z.eqb_spec (base_type f) SPROTO_TBOOLEAN) as [Eb|N2].
  { destruct (mapM bool_of vals) as [bs|] eqn:Em; [|done]. injection Hv as <- <- _ _. eapply Hfin; [done|]. destruct vals as [|v0 vals]; [injection Em as <-; by apply empty_array | by apply (boolean_array _ _ bs)]. }
  destruct (mapM _ vals) as [items|] eqn:Em; [|done]. destruct (_ && _) eqn:Ek; [destruct (keyed (f_key f) [] items) as [t|] eqn:Et; [|done]|].
  - injection Hv as <- <- _ _. zbool. eapply Hfin; [done|]. destruct items as [|it items]; [injection Et as <-; by apply empty_array|]. apply (map_array _ _ _ (it :: items) _ _ Em); try done.
    intros jt k Hjt. apply list_elem_of_lookup in Hjt as [i Hi]. apply mapM_Some in Em. destruct (Forall2_lookup_r _ _ _ _ _ Em Hi) as (w & _ & Ho).
    apply (item_key _ _ _ _ _ (fields_not_nil d) Ho).
  - injection Hv as <- <- _ _. eapply Hfin; [done|]. destruct items as [|it items]; [by apply empty_array|]. apply (list_array _ _ _ (it :: items) _ Em); try done.
    destruct (base_cases n f Hf []) as [E|[E|[E|E]]]; try done; [by left | right]. split; [done|]. rewrite E in Ek. cbn [Z.eqb SPROTO_TSTRUCT Pos.eqb andb] in Ek. lia.
Qed.

(** The value of a field that is not an array. *)
Lemma scalar_cases sub f v fv : scalar_value types sub f v = Some fv -> v <> VNil ->
  (base_type f = SPROTO_TINTEGER /\ exists z, v = VInteger z /\ - 2 ^ 63 <= z < 2 ^ 63 /\
    fv = if (0 <=? z) && (z <? 0x7fff) then FInline ((z + 1) * 2) v else if narrow z then FBytes (le32 z) v 8 false else FBytes (le64 z) v 12 false) \/
  (base_type f = SPROTO_TBOOLEAN /\ exists b : bool, v = VBoolean b /\ fv = FInline (if b then 4 else 2) v) \/
  (base_type f <> SPROTO_TINTEGER /\ base_type f <> SPROTO_TBOOLEAN /\ (base_type f = SPROTO_TSTRUCT -> f_key f < 0) /\
    exists it, object types sub f v = Some it /\ fv = FBytes (it_bytes it) (it_lua it) (4 + it_need it) (it_wide it)).
Proof. clear IH H31 mem.
  intros Hv Hnil. assert (scalar_value types sub f v =
      if base_type f =? SPROTO_TINTEGER then
        let! z := int_of v in
        Some (if (0 <=? z) && (z <? 0x7fff) then FInline ((z + 1) * 2) v else if narrow z then FBytes (le32 z) v 8 false else FBytes (le64 z) v 12 false)
      else if base_type f =? SPROTO_TBOOLEAN then let! b := bool_of v in Some (FInline (if b then 4 else 2) v)
      else if (base_type f =? SPROTO_TSTRUCT) && (0 <=? f_key f) then None
      else let! it := object types sub f v in Some (FBytes (it_bytes it) (it_lua it) (4 + it_need it) (it_wide it))) as E by (by destruct v).
  rewrite E in Hv. destruct (Z.eqb_spec (base_type f) SPROTO_TINTEGER); [|destruct (Z.eqb_spec (base_type f) SPROTO_TBOOLEAN)].
  - left. split; [done|]. destruct v as [| |z| | | |]; try done. cbn [int_of] in *. destruct (_ && _) eqn:Er in Hv; [|done]. injection Hv as <-. zbool. exists z. split; [done|]. split; [lia | done].
  - right; left. split; [done|]. destruct v as [|b| | | | |]; try done. injection Hv as <-. by exists b.
  - right; right. split; [done|]. split; [done|]. destruct (_ && _) eqn:Ek; [done|]. split; [intros Es; rewrite Es in Ek; cbn [Z.eqb SPROTO_TSTRUCT Pos.eqb andb] in Ek; lia|].
    destruct (object _ _ _ _) as [it|]; [|done]. injection Hv as <-. by exists it.
Qed.

Lemma data_decodes ud t f b v need wide p : field_ok n f -> field_value types (msg types d) t f = Some (f, FBytes b v need wide) ->
  du_array_tag ud <> Some (f_tag f) -> holds mem p (with_size b) ->
  exists ud', decode_data mem (decode types mem (S d)) f (field_arg f) p ud = Ok (0, ud') /\ stored ud f v ud'.
Proof.
  intros Hf Hv Hn Hh. unfold field_value in Hv. unfold decode_data. fold (is_array f). destruct (is_array f) eqn:Ea.
  - destruct (lua_getfield t (name_of f)) as [| | | | |a|]; try done. destruct (array_value _ _ _ _) as [fv|] eqn:E; [|done]. injection Hv as ->.
    destruct (array_decodes _ _ _ _ _ _ _ _ Hf Ea E Hn Hh) as (ud' & E' & Hs). rewrite E'. by exists ud'.
  - pose proof (scalar_arg n f Hf [] Ea) as Et. destruct (with_size_holds _ _ _ Hh H31) as [Esz Hb]. rewrite <- Et, Esz. cbn [lift].
    destruct (scalar_value _ _ f _) as [fv|] eqn:E; [|done]. injection Hv as ->. destruct (store_scalar f v ud Ea) as (ud' & Es & Hs).
    assert (lua_getfield t (name_of f) <> VNil) as Hnil by (intros E0; by rewrite E0 in E).
    exists ud'. split; [|done]. destruct (scalar_cases _ _ _ _ E Hnil) as [(Eb & z & Ez & Hz & Efv)|[(Eb & b' & Ez & Efv)|(N1 & N2 & Hk & it & Ho & Efv)]].
    + rewrite Eb. cbn [Z.eqb SPROTO_TINTEGER]. destruct (_ && _); [done|]. destruct (narrow z) eqn:En; injection Efv as -> -> _ _.
      * destruct (le32_holds _ _ _ Hb En) as (x & Ex & Hx). change (p + 4) with (p + SIZEOF_LENGTH) in Ex. rewrite le32_length. change (Z.of_nat 4) with 4. cbn [Z.eqb Pos.eqb].
        rewrite Ex. cbn [lift]. rewrite (decode_int _ _ z) by (try done; cbn; lia). rewrite <- Ez. unfold decode_new_array. cbn [field_arg a_index Z.eqb negb andb]. by rewrite Es.
      * destruct (le64_holds _ _ _ Hb Hz) as (low & hi & E1 & E2 & Ex). change (p + 4) with (p + SIZEOF_LENGTH) in E1, E2. rewrite le64_length. change (Z.of_nat 8) with 8. cbn [Z.eqb Pos.eqb negb].
        rewrite E1. cbn [lift]. rewrite E2. cbn [lift]. rewrite (decode_int _ _ z) by (try done; cbn; lia). rewrite <- Ez. unfold decode_new_array. cbn [field_arg a_index Z.eqb negb andb]. by rewrite Es.
    + done.
    + injection Efv as -> -> _ _. destruct (base_cases n f Hf []) as [Eb|[Eb|Eb]]; [done..|].
      assert ((base_type f =? SPROTO_TINTEGER) = false) as -> by (by apply Z.eqb_neq). assert ((base_type f =? SPROTO_TSTRING) || (base_type f =? SPROTO_TSTRUCT) = true) as -> by (by destruct Eb as [->| ->]).
      apply holds_length in Hb as Hl. rewrite i32_small by lia. change (p + 4) with (p + SIZEOF_LENGTH) in Hb.
      rewrite (decode_object _ _ f _ it _ Ho) by first [done | cbn; lia | destruct Eb as [Eb|Eb]; [by left | right; cbn; by apply Hk]].
      unfold decode_new_array. cbn [field_arg a_index Z.eqb negb andb]. by rewrite Es.
Qed.

(** A number in the header. *)
Lemma inline_decodes ud t f value v : field_ok n f -> field_value types (msg types d) t f = Some (f, FInline value v) ->
  2 <= value < 2 ^ 16 /\ Z.land value 1 = 0 /\ (f_type f = SPROTO_TINTEGER \/ f_type f = SPROTO_TBOOLEAN) /\
  exists ud', decode types mem (S d) (field_arg f) (DInt (value / 2 - 1)) ud = Ok (0, ud') /\ stored ud f v ud'.
Proof.
  intros Hf Hv. unfold field_value in Hv. destruct (is_array f) eqn:Ea.
  { destruct (lua_getfield t (name_of f)) as [| | | | |a|]; try done. destruct (array_value _ _ _ _) as [fv|] eqn:E; [|done]. apply array_value_table in E as (b & t' & need & wide & ->). done. }
  destruct (scalar_value _ _ f _) as [fv|] eqn:E; [|done]. injection Hv as ->. destruct (store_scalar f v ud Ea) as (ud' & Es & Hs). rewrite <- (scalar_arg n f Hf [] Ea).
  assert (lua_getfield t (name_of f) <> VNil) as Hnil by (intros E0; by rewrite E0 in E).
  destruct (scalar_cases _ _ _ _ E Hnil) as [(Eb & z & Ez & Hz & Efv)|[(Eb & b' & Ez & Efv)|(N1 & N2 & Hk & it & Ho & Efv)]]; [| |done].
  - destruct (_ && _) eqn:Er; [|by destruct (narrow z)]. injection Efv as -> ->. zbool. change (2 ^ 16) with 65536. split; [lia|].
    split; [rewrite (Z.land_ones _ 1) by lia; change (2 ^ 1) with 2; apply Z.mod_mul; lia|]. split; [by left|]. rewrite Z.div_mul by lia. exists ud'. split; [|done].
    replace (z + 1 - 1) with z by lia. rewrite (decode_int _ _ z) by first [done | cbn; lia | apply i64_small; lia]. rewrite <- Ez. exact Es.
  - injection Efv as -> ->. split; [destruct b'; lia|]. split; [by destruct b'|]. split; [by right|]. exists ud'. split; [|done].
    replace ((if b' then 4 else 2) / 2 - 1) with (if b' then 1 else 0) by (by destruct b'). rewrite decode_bool by (try done; cbn; lia). rewrite <- Ez. exact Es.
Qed.

(** ** The slots of the header *)

Lemma gap_decode st f w rest stream i ltag ds size ud : let s := gap_slot ltag f ++ [w] in
  0 <= w < 2 ^ 16 -> -1 <= ltag < f_tag f -> f_tag f <= 0x7ffe -> holds mem (stream + i * 2) (concat (map word_bytes (s ++ rest))) ->
  decode_slots mem (decode types mem (S d)) st stream (length (s ++ rest)) i (MkDecoding ltag ds size ud) =
    let* r := decode_slot mem (decode types mem (S d)) st w (MkDecoding (f_tag f - 1) ds size ud) in
    match r with None => Ok None | Some dc => decode_slots mem (decode types mem (S d)) st stream (length rest) (i + Z.of_nat (length s)) dc end.
Proof.
  intros s Hw Hlt Htag Hh.
  assert (forall j dc, holds mem (stream + j * 2) (concat (map word_bytes (w :: rest))) ->
    decode_slots mem (decode types mem (S d)) st stream (length (w :: rest)) j dc =
      let* r := decode_slot mem (decode types mem (S d)) st w dc in match r with None => Ok None | Some dc => decode_slots mem (decode types mem (S d)) st stream (length rest) (j + 1) dc end) as Hone.
  { intros j dc Hj. cbn [map concat] in Hj. apply holds_app in Hj as [Hj _]. cbn [length decode_slots]. unfold SIZEOF_FIELD. by rewrite (toword_holds _ _ _ Hj Hw). }
  subst s. unfold gap_slot in *. destruct (Z.ltb_spec 0 (f_tag f - ltag - 1)).
  - cbn [app map concat] in Hh. set (g := (f_tag f - ltag - 2) * 2 + 1) in *. apply holds_app in Hh as [H1 H2]. rewrite word_bytes_length in H2.
    replace (stream + i * 2 + Z.of_nat 2) with (stream + (i + 1) * 2) in H2 by lia.
    cbn [app]. change (length (g :: w :: rest)) with (S (length (w :: rest))). cbn [decode_slots]. unfold SIZEOF_FIELD. rewrite (toword_holds _ _ _ H1) by (change (2 ^ 16) with 65536; lia). cbn [lift].
    unfold decode_slot at 1. assert (Z.land g 1 = 1) as -> by (rewrite (Z.land_ones _ 1) by lia; change (2 ^ 1) with 2; subst g; Z.div_mod_to_equations; lia).
    cbn [Z.eqb negb]. replace (ltag + 1 + g / 2) with (f_tag f - 1) by (subst g; Z.div_mod_to_equations; lia). rewrite Hone by done. cbn [length]. by replace (i + Z.of_nat 2) with (i + 1 + 1) by lia.
  - cbn [app] in *. rewrite Hone by done. replace (f_tag f - 1) with ltag by lia. done.
Qed.

Lemma data_slot st t f b v need wide ds size ud : type_ok n st -> f ∈ t_f st -> field_value types (msg types d) t f = Some (f, FBytes b v need wide) ->
  du_array_tag ud <> Some (f_tag f) -> holds mem ds (with_size b) -> Z.of_nat (length (with_size b)) <= size < 2 ^ 31 ->
  exists ud', decode_slot mem (decode types mem (S d)) st 0 (MkDecoding (f_tag f - 1) ds size ud) =
      Ok (Some (MkDecoding (f_tag f) (ds + Z.of_nat (length (with_size b))) (size - Z.of_nat (length (with_size b))) ud')) /\ stored ud f v ud'.
Proof.
  intros Hst Hin Hv Hn Hh Hs. pose proof (proj1 (Forall_forall _ _) (to_fields _ _ Hst) f Hin) as Hf. destruct (data_decodes ud t f b v need wide ds Hf Hv Hn Hh) as (ud' & E & Hstored).
  exists ud'. split; [|done]. destruct (with_size_holds _ _ _ Hh H31) as [Esz _]. rewrite with_size_length in *. unfold decode_slot, SIZEOF_LENGTH. cbn [Z.land Z.eqb negb]. change (0 / 2 - 1) with (-1).
  cbn [Z.ltb Z.compare]. destruct (Z.ltb_spec size 4); [lia|]. rewrite Esz. cbn [lift]. rewrite !u32_small by (change (2 ^ 32) with (2 * 2 ^ 31); lia).
  destruct (Z.ltb_spec size (Z.of_nat (length b) + 4)); [lia|]. replace (f_tag f - 1 + 1) with (f_tag f) by lia. rewrite (findtag_found n) by done. cbn [lift].
  change (MkArg (default [] (f_name f)) (f_tag f) (Z.land (f_type f) (Z.lnot SPROTO_TARRAY)) (f_st f) 0 (f_key f)) with (field_arg f). rewrite E. cbn [Z.ltb Z.compare]. do 3 f_equal; lia.
Qed.

Lemma inline_slot st t f value v ds size ud : type_ok n st -> f ∈ t_f st -> field_value types (msg types d) t f = Some (f, FInline value v) ->
  0 <= value < 2 ^ 16 /\ exists ud', decode_slot mem (decode types mem (S d)) st value (MkDecoding (f_tag f - 1) ds size ud) = Ok (Some (MkDecoding (f_tag f) ds size ud')) /\ stored ud f v ud'.
Proof.
  intros Hst Hin Hv. pose proof (proj1 (Forall_forall _ _) (to_fields _ _ Hst) f Hin) as Hf. destruct (inline_decodes ud t f value v Hf Hv) as (Hr & Heven & Hty & ud' & E & Hstored).
  split; [lia|]. exists ud'. split; [|done]. unfold decode_slot. rewrite Heven. cbn [Z.eqb negb]. destruct (Z.ltb_spec (value / 2 - 1) 0); [Z.div_mod_to_equations; lia|].
  replace (f_tag f - 1 + 1) with (f_tag f) by lia. rewrite (findtag_found n) by done. cbn [lift].
  change (MkArg (default [] (f_name f)) (f_tag f) (Z.land (f_type f) (Z.lnot SPROTO_TARRAY)) (f_st f) 0 (f_key f)) with (field_arg f). rewrite E. by destruct Hty as [->| ->].
Qed.

(** The fields [l] have been read. *)
Definition read_fields (m : res (option (decoding decode_ud))) (l : list (field * lua)) (size : Z) (ud : decode_ud) : Prop :=
  exists tag ds ud', m = Ok (Some (MkDecoding tag ds size ud')) /\ du_result ud' = set_fields (du_result ud) l /\
    du_key ud' = fold_left (key_step (du_mainindex_tag ud)) l (du_key ud).

Lemma read_fields_cons m f v l size ud ud1 : stored ud f v ud1 -> read_fields m l size ud1 -> read_fields m ((f, v) :: l) size ud.
Proof.
  intros (Hr & Hm & Hk & _) (tag & ds & ud' & E & Hr' & Hk'). exists tag, ds, ud'. split; [done|]. rewrite Hr in Hr'. rewrite Hm, Hk in Hk'. done.
Qed.

Lemma decode_slots_ok st t fs : type_ok n st -> forall l last ltag stream i ds size ud, fields_of types d t fs l -> ascending last fs -> (forall f, f ∈ fs -> f ∈ t_f st) ->
  -1 <= ltag <= last -> (forall tag, du_array_tag ud = Some tag -> tag <= last) -> holds mem (stream + i * 2) (slot_bytes ltag l) -> holds mem ds (datas l) ->
  Z.of_nat (length (datas l)) <= size < 2 ^ 31 ->
  read_fields (decode_slots mem (decode types mem (S d)) st stream (length (slots ltag l)) i (MkDecoding ltag ds size ud)) (omap lua_of l) (size - Z.of_nat (length (datas l))) ud.
Proof.
  intros Hst. induction fs as [|f fs IHf]; intros l last ltag stream i ds size ud Hl Hasc Hin Hlt Htag Hslots Hdatas Hsize; inversion Hl as [|? p ? l' Hv Hl']; subst.
  - cbn. exists ltag, ds, ud. split; [do 3 f_equal; lia | done].
  - destruct p as [f' fv]. pose proof (field_value_fst _ _ _ _ _ Hv) as [= ->]. destruct Hasc as [Hft Hasc]. unfold slot_bytes, datas in *. cbn [map concat snd omap list_omap] in *.
    assert (f ∈ t_f st) as Hfin by (apply Hin; by left).
    assert (forall g, g ∈ fs -> g ∈ t_f st) as Hin' by (intros g Hg; apply Hin; by right).
    assert (du_array_tag ud <> Some (f_tag f)) as Hn by (intros E; apply Htag in E; lia).
    assert (forall v ud1, stored ud f v ud1 -> forall tag, du_array_tag ud1 = Some tag -> tag <= f_tag f) as Htag1.
    { intros v ud1 (_ & _ & _ & Hs) tag E. destruct (Hs _ E) as [|E']; [done|]. apply Htag in E'. lia. }
    destruct fv as [|value v|b v need wide]; cbn [slots data_of lua_of snd fst app] in *.
    + apply (IHf l' (f_tag f)); try done; [lia | intros tag E; apply Htag in E; lia].
    + destruct (inline_slot st t f value v ds size ud Hst Hfin Hv) as (Hr & ud1 & E & Hs).
      replace (gap_slot ltag f ++ value :: slots (f_tag f) l') with ((gap_slot ltag f ++ [value]) ++ slots (f_tag f) l') in * by (by rewrite <- app_assoc).
      rewrite gap_decode by (try done; lia). rewrite E. cbn beta iota. eapply read_fields_cons; [done|]. rewrite map_app, concat_app in Hslots. apply holds_app in Hslots as [_ Hslots].
      apply (IHf l' (f_tag f)); try done; [lia | by eapply Htag1|]. rewrite words_length in Hslots. by replace (stream + (i + Z.of_nat (length (gap_slot ltag f ++ [value]))) * 2) with (stream + i * 2 + Z.of_nat (2 * length (gap_slot ltag f ++ [value]))) by lia.
    + rewrite (length_app (with_size b)) in *. apply holds_app in Hdatas as [Hd1 Hd2]. destruct (data_slot st t f b v need wide ds size ud Hst Hfin Hv Hn Hd1) as (ud1 & E & Hs); [lia|].
      replace (gap_slot ltag f ++ 0 :: slots (f_tag f) l') with ((gap_slot ltag f ++ [0]) ++ slots (f_tag f) l') in * by (by rewrite <- app_assoc).
      rewrite gap_decode by (try done; lia). rewrite E. cbn beta iota. eapply read_fields_cons; [done|]. rewrite map_app, concat_app in Hslots. apply holds_app in Hslots as [_ Hslots].
      replace (size - Z.of_nat (length (with_size b) + length (concat (map (fun p => data_of p.2) l')))) with (size - Z.of_nat (length (with_size b)) - Z.of_nat (length (datas l'))) by (unfold datas; lia).
      apply (IHf l' (f_tag f)); try done; [lia | by eapply Htag1| | unfold datas; lia]. rewrite words_length in Hslots.
      by replace (stream + (i + Z.of_nat (length (gap_slot ltag f ++ [0]))) * 2) with (stream + i * 2 + Z.of_nat (2 * length (gap_slot ltag f ++ [0]))) by lia.
Qed.

Lemma decodes_S : decodes (S d).
Proof.
  intros st t m p ud Hst (l & Hl & ->)%msg_inv Hh Hud. cbn [m_bytes m_fields] in *. pose proof (holds_length _ _ _ Hh) as [Hlen _]. rewrite wire_length in *.
  set (k := length (slots (-1) l)) in *. unfold wire in Hh. apply holds_app in Hh as [H1 Hh]. apply holds_app in Hh as [H2 H3].
  unfold header in *. rewrite words_length, word_bytes_length in *. fold (datas l) in *. fold k in H1, H3. fold (slot_bytes (-1) l) in H2.
  assert (Z.of_nat k < 2 ^ 16) as Hk.
  { pose proof (slots_le _ _ _ _ _ (-1) (-1) Hl (to_ascending _ _ Hst) ltac:(lia)) as Hs. rewrite Z.ltb_irrefl in Hs. pose proof (slots_short _ _ (to_ascending _ _ Hst) ltac:(lia)). change (2 ^ 16) with 65536. lia. }
  unfold sproto_decode, SIZEOF_HEADER, SIZEOF_FIELD. destruct (Z.ltb_spec (Z.of_nat (2 + 2 * k + length (datas l))) 2); [lia|]. rewrite (toword_holds _ _ _ H1) by lia. cbn [lift].
  destruct (Z.ltb_spec (Z.of_nat (2 + 2 * k + length (datas l)) - 2) (Z.of_nat k * 2)); [lia|]. rewrite Nat2Z.id.
  destruct (decode_slots_ok st t (t_f st) Hst l (-1) (-1) (p + 2) 0 (p + 2 + Z.of_nat k * 2) (Z.of_nat (2 + 2 * k + length (datas l)) - 2 - Z.of_nat k * 2) ud) as (tag & ds & ud' & E & Hr & Hkey); try done; try lia.
  - apply (to_ascending _ _ Hst).
  - by rewrite Hud.
  - by rewrite Z.mul_0_l, Z.add_0_r.
  - by replace (p + 2 + Z.of_nat k * 2) with (p + Z.of_nat 2 + Z.of_nat (2 * k)) by lia.
  - fold k in E. rewrite E. cbn [d_size d_ud]. exists ud'. split; [do 2 f_equal; lia | done].
Qed.
End Depth.

Lemma decodes_all d : decodes d.
Proof. induction d as [|d IH]; [by intros ? ? ? ?|]. by apply decodes_S. Qed.
End Decode.
