(* ===== verification/SprotoTrip.v ===== *)
(** * A message comes back

    What [SprotoEncode] and [SprotoDecode] give for the functions called from Lua, and two inputs that write or read outside the memory. *)

From S2P Require Import Prelude CString Buffer LuaError Sproto SprotoSpec SprotoPack SprotoCode SprotoLua SprotoWire SprotoInts SprotoEncode SprotoDecode.

(** ** The fields of the decoded table *)

Lemma rawget_other (t : entries) s s' v : s <> s' -> lua_rawget (lua_rawset t (VString s) v) (VString s') = lua_rawget t (VString s').
Proof.
  intros Hne. induction t as [|[k w] t IH]; cbn [lua_rawset lua_rawget]; [cbn; by rewrite bool_decide_eq_false_2|].
  destruct (key_eq k (VString s)) eqn:E; cbn [lua_rawget]; [|by rewrite IH]. destruct (key_eq k (VString s')) eqn:E'; [|done].
  destruct k; try done. cbn in E, E'. apply bool_decide_eq_true in E, E'. congruence.
Qed.

Lemma set_fields_other (fs : list (field * lua)) name : forall t, name ∉ (fun p => name_of (fst p)) <$> fs -> lua_getfield (set_fields t fs) name = lua_getfield t name.
Proof.
  unfold lua_getfield, set_fields. induction fs as [|p fs IH]; intros t Hn; [done|]. cbn [fold_left]. rewrite fmap_cons in Hn. apply not_elem_of_cons in Hn as [Hp Hn].
  rewrite IH by done. by apply rawget_other.
Qed.

(** A field that is not an array and not a struct has the value it was given. *)
Lemma plain_value types sub t f fv : field_value types sub t f = Some (f, fv) -> is_array f = false -> base_type f <> SPROTO_TSTRUCT ->
  match lua_of (f, fv) with Some p => fst p = f /\ lua_getfield t (name_of f) = snd p | None => lua_getfield t (name_of f) = VNil end.
Proof.
  unfold field_value. intros Hv Ha Hb. rewrite Ha in Hv. destruct (scalar_value _ _ f _) as [fv'|] eqn:E; [|done]. injection Hv as ->.
  assert (lua_getfield t (name_of f) = VNil \/ lua_getfield t (name_of f) <> VNil) as [En|En] by (destruct (lua_getfield t (name_of f)); [by left | by right..]); [rewrite En in *; by injection E as <-|].
  destruct (scalar_cases _ _ _ _ _ E En) as [(_ & z & Ez & _ & ->)|[(_ & b & Ez & ->)|(_ & _ & _ & it & Ho & ->)]].
  - destruct (_ && _); [done|]. by destruct (narrow z).
  - done.
  - cbn. split; [done|]. destruct (lua_getfield t (name_of f)) as [| | | |s|a|]; cbn [object] in Ho; try done; [destruct (_ =? _); [by injection Ho as <- | done]|].
    by destruct (Z.eqb_spec (base_type f) SPROTO_TSTRUCT).
Qed.

Lemma message_value types d fs l t f : fields_of types d t fs l -> NoDup (name_of <$> fs) -> f ∈ fs -> is_array f = false -> base_type f <> SPROTO_TSTRUCT ->
  forall e, lua_getfield (set_fields e (omap lua_of l)) (name_of f) = match lua_getfield t (name_of f) with VNil => lua_getfield e (name_of f) | v => v end.
Proof.
  intros Hl. revert f. induction Hl as [|g p fs l Hv Hl IH]; intros f Hnd Hin Ha Hb e; [by apply not_elem_of_nil in Hin|].
  pose proof (field_value_fst _ _ _ _ _ Hv) as Ep. rewrite Ep in *. rewrite fmap_cons in Hnd. apply NoDup_cons in Hnd as [Hg Hnd].
  assert (forall name, name ∉ name_of <$> fs -> name ∉ (fun p : field * lua => name_of (fst p)) <$> omap lua_of l) as Hnames.
  { clear - Hl. intros name Hn Hin. apply Hn. apply list_elem_of_fmap in Hin as (q & -> & Hq). apply list_elem_of_fmap. apply list_elem_of_omap in Hq as (r & Hr & Eq).
    apply list_elem_of_lookup in Hr as [i Hi]. destruct (Forall2_lookup_r _ _ _ _ _ Hl Hi) as (h & Hh & Hfv). apply field_value_fst in Hfv. exists h. split; [|apply list_elem_of_lookup; by exists i].
    rewrite Hfv in Eq. unfold lua_of in Eq. cbn [snd fst] in Eq. destruct (snd r); [done|..]; by injection Eq as <-. }
  apply elem_of_cons in Hin as [->|Hin].
  - pose proof (plain_value _ _ _ _ _ Hv Ha Hb) as Hp. cbn [omap list_omap]. destruct (lua_of (g, snd p)) as [[q v]|] eqn:Eq.
    + destruct Hp as [<- Hp]. cbn [fst snd] in *. change (set_fields e ((q, v) :: omap lua_of l)) with (set_fields (lua_rawset e (VString (name_of q)) v) (omap lua_of l)).
      rewrite set_fields_other by (by apply Hnames). unfold lua_getfield at 1. rewrite rawget_rawset, Hp. pose proof (field_not_nil _ _ _ _ _ _ Hv Eq). by destruct v.
    + rewrite Hp. by apply set_fields_other, Hnames.
  - assert (name_of g <> name_of f) as Hne by (intros E; apply Hg; rewrite E; by apply list_elem_of_fmap_2).
    cbn [omap list_omap]. destruct (lua_of (g, snd p)) as [[q v]|] eqn:Eq; [|by apply IH].
    assert (q = g) as -> by (unfold lua_of in Eq; cbn [fst snd] in Eq; destruct (snd p); [done|..]; by injection Eq).
    change (set_fields e ((g, v) :: omap lua_of l)) with (set_fields (lua_rawset e (VString (name_of g)) v) (omap lua_of l)). rewrite (IH f Hnd Hin Ha Hb). unfold lua_getfield at 2 4. by rewrite rawget_other.
Qed.

(** ** Round trip *)

Definition plain (f : field) : bool := negb (is_array f) && negb (base_type f =? SPROTO_TSTRUCT).


(** A person with numbers and with children by name. *)
Definition person : sproto_type := MkType (str "Person") (-1) 7 [
  MkField 0 SPROTO_TSTRING (Some (str "name")) None (-1);
  MkField 1 SPROTO_TINTEGER (Some (str "id")) None (-1);
  MkField 2 SPROTO_TBOOLEAN (Some (str "ok")) None (-1);
  MkField 5 (SPROTO_TINTEGER + SPROTO_TARRAY) (Some (str "nums")) None (-1);
  MkField 6 (SPROTO_TSTRUCT + SPROTO_TARRAY) (Some (str "kids")) (Some 0) 0;
  MkField 7 (SPROTO_TSTRING + SPROTO_TARRAY) (Some (str "strs")) None (-1)].

Definition nums : list Z -> lua * lua := fun zs => (VString (str "nums"), lua_list (map VInteger zs)).
Definition alice : entries := [
  (VString (str "name"), VString (str "Alice")); (VString (str "id"), VInteger (-5)); nums [3; -7; 2 ^ 40];
  (VString (str "kids"), VTable [(VInteger 1, VTable [(VString (str "name"), VString (str "Bob")); (VString (str "ok"), VBoolean true)])]);
  (VString (str "strs"), VTable [])].

#[local] Instance no_numbers : LuaNumbers := {| float_tointeger _ := None; string_tointeger _ := None; number_tostring _ := [] |}.

Lemma person_ok : type_ok 1 person.
Proof.
  constructor; [cbn; lia | done | by left |]. unfold person. cbn [t_f]. repeat (apply Forall_cons; split; [constructor; [by eexists | reflexivity | vm_compute; repeat split; discriminate]|]). by apply Forall_nil_2.
Qed.


(** ** Two inputs that leave the memory *)

(** An array of integers whose first wide element comes when the buffer is nearly full writes past the end of the buffer of [lencode]: the size left becomes
    negative when the elements are widened, and the comparison with [sizeof(uint64_t)] takes it for a large unsigned number. *)
Theorem integer_array_overflow : lencode [person] (malloc 2050) person (VTable [nums (replicate 500 1 ++ [2 ^ 40])]) = Stuck.
Proof. vm_compute. reflexivity. Qed.

Definition flags : sproto_type := MkType (str "Flags") 0 1 [MkField 0 (SPROTO_TBOOLEAN + SPROTO_TARRAY) (Some (str "flags")) None (-1)].

(** The length of a field is compared after adding 4 to it in 32 bits, so that a message may give 2^32-1 as the length of its data, and
    [sproto_decode] reads past the end of the message. *)
Theorem decode_length_wraps : ldecode [flags] [1; 0; 0; 0; 0xff; 0xff; 0xff; 0xff] flags [] = Stuck.
Proof. vm_compute. reflexivity. Qed.
