(* ===== verification/SprotoDefault.v ===== *)
(** * The other functions of sproto for Lua ([lualib-src/sproto/lsproto.c])

    Looking protocols up, the global slots, and the table of default values, which [ldefault] makes by encoding with a callback that
    writes nothing. *)

From S2P Require Import Prelude CString LuaError Sproto SprotoSpec SprotoCode SprotoLua SprotoWire SprotoInts SprotoEncode SprotoDecode SprotoTrip.

Definition MAX_GLOBALSPROTO : Z := 16.

(** The result of [lnewproto]: a schema, or nothing. *)
Definition lnewproto (buffer : list Z) : res (option sproto) := lift (sproto_create buffer).

(** The index of the type; none is an empty result. *)
Definition lquerytype (sp : option sproto) (type_name : list Z) : res (option Z) :=
  match sp with
  | None => Raise (Text "Need a sproto object")
  | Some sp => let* name := lift (until_nul (type_name ++ [0])) in Ok (sproto_type_query sp name)
  end.

(** ** Protocols *)

Section Protocol.
Context `{LuaNumbers}.

(** [lua_tointeger] is 0 for what is not an integer; [tag] is an [int]. *)
Definition protocol_key (sp : sproto) (key : lua) : res (option (lua * Z)) :=
  match key with
  | VInteger _ | VFloat _ =>
      let tag := i32 (default 0 (lua_tointegerx key)) in
      let* name := lift (sproto_protoname sp tag) in
      Ok (match name with None => None | Some name => Some (VString name, tag) end)
  | _ =>
      match lua_tolstring key with
      | None => Raise (Text "Should be number or string")
      | Some s =>
          let* name := lift (until_nul (s ++ [0])) in
          let tag := sproto_prototag sp name in
          Ok (if tag <? 0 then None else Some (VInteger tag, tag))
      end
  end.

(** The name or the tag, and the types of the request and the response. *)
Definition lprotocol (sp : option sproto) (key : lua) : res (option (lua * option Z * option Z)) :=
  match sp with
  | None => Raise (Text "Need a sproto_type object")
  | Some sp =>
      let* k := protocol_key sp key in
      match k with
      | None => Ok None
      | Some (v, tag) =>
          let* request := lift (sproto_protoquery sp tag SPROTO_REQUEST) in
          let* response := lift (sproto_protoquery sp tag SPROTO_RESPONSE) in
          Ok (Some (v, request, response))
      end
  end.
End Protocol.

(** ** Global slots

    The array [G_sproto] of [MAX_GLOBALSPROTO] pointers; the index is 0 when it is not given. *)

Definition lsaveproto {A} (G_sproto : list (option A)) (sp : option A) (index : option Z) : res (list (option A)) :=
  let index := i32 (default 0 index) in
  if (index <? 0) || (MAX_GLOBALSPROTO <=? index) then Raise (Text "Invalid global slot index") else lift (aset G_sproto index sp).

Definition lloadproto {A} (G_sproto : list (option A)) (index : option Z) : res A :=
  let index := i32 (default 0 index) in
  if (index <? 0) || (MAX_GLOBALSPROTO <=? index) then Raise (Text "Invalid global slot index") else
  let* sp := lift (aget G_sproto index) in
  match sp with None => Raise (Text "nil sproto") | Some sp => Ok sp end.

(** ** Default values *)

Section Default.
Variable types : list sproto_type.

(** The name pushed before the value stays the value when the type is none of the four. *)
Definition default_value (args : sproto_arg) : res lua :=
  if a_type args =? SPROTO_TINTEGER then Ok (VInteger 0)
  else if a_type args =? SPROTO_TBOOLEAN then Ok (VBoolean false)
  else if a_type args =? SPROTO_TSTRING then Ok (VString [])
  else if a_type args =? SPROTO_TSTRUCT then
    let* st := lift (let! i := a_subtype args in aget types i) in
    Ok (VTable [(VString (str "__type"), VString (t_name st))])
  else Stuck.

Definition encode_default (args : sproto_arg) (t : entries) (value : list Z) : res (Z * list Z * entries) :=
  if 0 <? a_index args then Ok (SPROTO_CB_NOARRAY, value, lua_rawset t (VString (a_tagname args)) (VTable []))
  else
    let* v := default_value args in
    Ok (SPROTO_CB_NIL, value, lua_rawset t (VString (a_tagname args)) v).

(** Each pass doubles the buffer. *)
Fixpoint default_loop (fuel : nat) (st : sproto_type) (sz : Z) (t : entries) : res entries :=
  let* (ret, _, t) := sproto_encode encode_default st (malloc sz) t in
  if ret <? 0 then match fuel with O => Stuck | S fuel => let* sz := int (sz * 2) in default_loop fuel st sz t end
  else Ok t.

(** From 64 bytes, eleven doublings are enough for the most fields a type can have. *)
Definition ldefault (st : sproto_type) : res lua := let* t := default_loop 11 st 64 [] in Ok (VTable t).
End Default.

(** ** What [ldefault] makes *)

Definition base_default (types : list sproto_type) (f : field) : lua :=
  if base_type f =? SPROTO_TINTEGER then VInteger 0
  else if base_type f =? SPROTO_TBOOLEAN then VBoolean false
  else if base_type f =? SPROTO_TSTRING then VString []
  else VTable [(VString (str "__type"), VString (default [] (let! i := f_st f in let! st := aget types i in Some (t_name st))))].

Definition field_default (types : list sproto_type) (f : field) : lua := if is_array f then VTable [] else base_default types f.

Definition set_default (types : list sproto_type) (t : entries) (f : field) : entries := lua_rawset t (VString (name_of f)) (field_default types f).

Section Spec.
Variable types : list sproto_type.
Let n := Z.of_nat (length types).

Lemma default_value_ok f : field_ok n f -> default_value types (field_arg f) = Ok (base_default types f).
Proof.
  intros Hf. unfold default_value, base_default. cbn [field_arg a_type a_subtype]. destruct (base_cases n f Hf []) as [->|[->|[->|E]]]; try done.
  rewrite E. pose proof (fo_base _ _ Hf) as Hb. destruct (f_st f) as [i|]; [|unfold SPROTO_TSTRUCT in *; lia]. destruct Hb as [_ Hi].
  destruct (lookup_lt_is_Some_2 types (Z.to_nat i)) as [st Est]; [lia|]. replace i with (Z.of_nat (Z.to_nat i)) by lia. by rewrite aget_nat, Est.
Qed.

(** A call with the rest of the buffer as the value leaves its length. *)
Lemma quiet_call (cb : callback entries) arg t t' r buf off len : (forall region, cb arg t region = Ok (r, region, t')) -> 0 <= off -> 0 <= len -> off + len = Z.of_nat (length buf) ->
  exists buf', call_at cb arg t buf off len = Ok (r, buf', t') /\ length buf' = length buf.
Proof.
  intros Hcb H1 H2 H3. unfold call_at. rewrite memcpy_Some by lia. cbn [lift]. rewrite Hcb.
  destruct (memcpy_at_spec buf off (take (Z.to_nat len) (drop (Z.to_nat off) buf))) as (buf' & E & Hl & _); [lia | rewrite length_take, length_drop; lia|].
  rewrite E. by exists buf'.
Qed.

(** A field: nothing is written; below 8 bytes of room it may fail, and then the field may be set or not. *)
Lemma field_pass f buf t data size idx ltag : field_ok n f -> 0 <= data -> 0 <= size -> data + size = Z.of_nat (length buf) ->
  exists r buf' t', encode_field (encode_default types) f (MkEncoding buf t data size idx ltag) = Ok (r, buf', t') /\ length buf' = length buf /\
    ((r = FSkip \/ r = FData 0 0) /\ t' = set_default types t f \/ r = FData (-1) 0 /\ size < 8 /\ (t' = t \/ t' = set_default types t f)).
Proof.
  intros Hf Hd Hs Hl. pose proof (default_value_ok f Hf) as Hv. unfold encode_field. fold (is_array f). destruct (is_array f) eqn:Ea.
  - change (MkArg (default [] (f_name f)) (f_tag f) (Z.land (f_type f) (Z.lnot SPROTO_TARRAY)) (f_st f) 0 (f_key f)) with (field_arg f).
    assert (forall i region, 0 < i -> encode_default types (set_index (field_arg f) i) t region = Ok (SPROTO_CB_NOARRAY, region, set_default types t f)) as Hcb.
    { intros i region Hi. unfold encode_default. cbn [set_index a_index a_tagname field_arg]. destruct (Z.ltb_spec 0 i); [|lia]. unfold set_default, field_default. by rewrite Ea. }
    unfold encode_array, SIZEOF_LENGTH. destruct (Z.ltb_spec size 4) as [Hlt|Hge]; [exists (FData (-1) 0), buf, t; split; [done|]; split; [done|]; right; split_and!; try done; [lia | by left]|].
    destruct (base_cases n f Hf []) as [Eb|[Eb|Eb]].
    + cbn [field_arg a_type]. rewrite Eb. cbn [Z.eqb SPROTO_TINTEGER]. unfold encode_integer_array. destruct (Z.ltb_spec (size - 4) 1).
      { exists (FData (-1) 0), buf, t. split; [done|]. split; [done|]. right. split_and!; try done; [lia | by left]. }
      cbn [integer_loop ia_index ia_ud]. unfold call_local. rewrite Hcb by lia. cbn [Z.leb Z.compare SPROTO_CB_NOARRAY SPROTO_CB_NIL Z.eqb Pos.eqb ia_buffer ia_buf ia_ud ia_size ia_intlen ia_index].
      rewrite Z.eqb_refl. exists (FData 0 0), buf, (set_default types t f). split; [done|]. split; [done|]. left. split; [by right | done].
    + cbn [field_arg a_type]. rewrite Eb. cbn [Z.eqb SPROTO_TINTEGER SPROTO_TBOOLEAN boolean_loop]. unfold call_local. rewrite Hcb by lia.
      exists (FData 0 0), buf, (set_default types t f). split; [done|]. split; [done|]. left. split; [by right | done].
    + assert ((base_type f =? SPROTO_TINTEGER) = false /\ (base_type f =? SPROTO_TBOOLEAN) = false) as [E1 E2] by (by destruct Eb as [->| ->]).
      cbn [field_arg a_type] in *. rewrite E1, E2. cbn [object_loop]. unfold SIZEOF_LENGTH. destruct (Z.ltb_spec (size - 4) 4).
      { exists (FData (-1) 0), buf, t. split; [done|]. split; [done|]. right. split_and!; try done; [lia | by left]. }
      destruct (quiet_call (encode_default types) (set_index (field_arg f) 1) t (set_default types t f) SPROTO_CB_NOARRAY buf (data + 4 + 4) (size - 4 - 4)) as (buf' & E & Hb'); [intros; by apply Hcb | lia..|].
      rewrite E. exists (FData 0 0), buf', (set_default types t f). split; [done|]. split; [done|]. left. split; [by right | done].
  - pose proof (scalar_arg n f Hf [] Ea) as Et. rewrite <- Et. change (MkArg (default [] (f_name f)) (f_tag f) (base_type f) (f_st f) 0 (f_key f)) with (field_arg f).
    assert (forall region, encode_default types (field_arg f) t region = Ok (SPROTO_CB_NIL, region, set_default types t f)) as Hcb.
    { intros region. unfold encode_default. rewrite Hv. cbn. unfold set_default, field_default. by rewrite Ea. }
    destruct ((base_type f =? SPROTO_TINTEGER) || (base_type f =? SPROTO_TBOOLEAN)) eqn:E1.
    + unfold call_local. rewrite Hcb. exists FSkip, buf, (set_default types t f). split; [done|]. split; [done|]. left. split; [by left | done].
    + apply orb_false_elim in E1 as [N1 N2]. apply Z.eqb_neq in N1, N2. rewrite (base_object n f Hf []) by done. unfold encode_object, SIZEOF_LENGTH.
      destruct (Z.ltb_spec size 4); [exists (FData (-1) 0), buf, t; split; [done|]; split; [done|]; right; split_and!; try done; [lia | by left]|].
      destruct (quiet_call (encode_default types) (field_arg f) t (set_default types t f) SPROTO_CB_NIL buf (data + 4) (size - 4)) as (buf' & E & Hb'); [done | lia..|].
      rewrite E. exists (FData 0 0), buf', (set_default types t f). split; [done|]. split; [done|]. left. split; [by right | done].
Qed.

Definition all_defaults (t : entries) (fs : list field) : entries := fold_left (set_default types) fs t.

Lemma fields_pass fs : forall (buf : list Z) (t : entries) (data size idx ltag : Z), Forall (field_ok n) fs -> 0 <= data -> 0 <= size -> data + size = Z.of_nat (length buf) ->
  exists buf', length buf' = length buf /\
    (encode_fields (encode_default types) fs (MkEncoding buf t data size idx ltag) = Ok (inr (MkEncoding buf' (all_defaults t fs) data size idx ltag)) \/
     exists pre post, fs = pre ++ post /\ size < 8 /\ encode_fields (encode_default types) fs (MkEncoding buf t data size idx ltag) = Ok (inl (-1, buf', all_defaults t pre))).
Proof.
  induction fs as [|f fs IH]; intros buf t data size idx ltag Hok Hd Hs Hl; [exists buf; by split; [|left]|]. apply Forall_cons in Hok as [Hf Hok].
  destruct (field_pass f buf t data size idx ltag Hf Hd Hs Hl) as (r & buf1 & t1 & E & Hl1 & Hr). cbn [encode_fields]. rewrite E. cbn [e_data e_size e_index e_lasttag].
  destruct Hr as [[Hr ->]|(-> & Hlt & Ht)].
  - assert (forall X, match r with FReturn r => Ok (inl (r, buf1, set_default types t f)) | FSkip => X | FData sz value => if sz <? 0 then Ok (inl (-1, buf1, set_default types t f)) else
        if 0 <? sz then let* r := lift (put_record f sz value (MkEncoding buf1 (set_default types t f) data size idx ltag)) in
          match r with None => Ok (inl (-1, buf1, set_default types t f)) | Some st => encode_fields (encode_default types) fs st end else X end = X) as HX by (by destruct Hr as [->| ->]).
    rewrite HX. destruct (IH buf1 (set_default types t f) data size idx ltag Hok Hd Hs ltac:(lia)) as (buf' & Hl' & [E'|(pre & post & -> & Hlt & E')]); exists buf'; (split; [congruence|]).
    + left. exact E'.
    + right. exists (f :: pre), post. split; [done|]. split; [done|]. exact E'.
  - exists buf1. split; [done|]. right. cbn. destruct Ht as [->| ->]; [exists [], (f :: fs) | exists [f], fs]; done.
Qed.

(** One pass with a buffer sets all fields, or some of them when the buffer is too small. *)
Lemma default_pass st t sz : type_ok n st -> 64 <= sz -> exists r buf t', sproto_encode (encode_default types) st (malloc sz) t = Ok (r, buf, t') /\
    (0 <= r /\ t' = all_defaults t (t_f st) \/ r = -1 /\ sz < 10 + 2 * t_maxn st /\ exists pre post, t_f st = pre ++ post /\ t' = all_defaults t pre).
Proof.
  intros Hst Hsz. unfold sproto_encode, SIZEOF_HEADER, SIZEOF_FIELD, malloc. rewrite length_replicate, Z2Nat.id by lia. pose proof (slots_bound _ _ (to_ascending _ _ Hst)) as Hb. rewrite <- (to_maxn _ _ Hst) in Hb.
  destruct (Z.ltb_spec sz (2 + t_maxn st * 2)).
  { exists (-1), (replicate (Z.to_nat sz) 0), t. split; [done|]. right. split; [done|]. split; [lia|]. by exists [], (t_f st). }
  destruct (fields_pass (t_f st) (replicate (Z.to_nat sz) 0) t (2 + t_maxn st * 2) (sz - (2 + t_maxn st * 2)) 0 (-1)) as (buf & Hl & [E|(pre & post & Ef & Hlt & E)]);
    [apply (to_fields _ _ Hst) | lia | lia | rewrite length_replicate; lia | |]; rewrite length_replicate in Hl; rewrite E.
  - destruct (memcpy_at_spec buf 0 (word_bytes 0)) as (buf1 & E1 & Hl1 & _); [lia | rewrite word_bytes_length; lia|]. rewrite E1. cbn [lift]. rewrite Z.sub_diag.
    destruct (Z.eqb_spec 0 (t_maxn st)); cbn [negb].
    + exists 2, buf1, (all_defaults t (t_f st)). split; [done|]. left. by split.
    + rewrite memcpy_Some by lia. cbn [lift Z.to_nat take]. destruct (memcpy_at_spec buf1 (2 + 0 * 2) []) as (buf2 & E2 & _); [lia | cbn; lia|]. rewrite take_0, E2. cbn [lift].
      exists 2, buf2, (all_defaults t (t_f st)). split; [done|]. left. by split.
  - exists (-1), buf, (all_defaults t pre). split; [done|]. right. split; [done|]. split; [lia|]. by exists pre, post.
Qed.

Definition only_fields (st : sproto_type) (t : entries) : Prop := forall s, s ∉ name_of <$> t_f st -> lua_getfield t s = VNil.

Lemma all_defaults_set t fs : all_defaults t fs = set_fields t (map (fun f => (f, field_default types f)) fs).
Proof. revert t. induction fs as [|f fs IH]; intros t; [done|]. cbn [all_defaults fold_left map set_fields]. apply IH. Qed.

Lemma all_defaults_other t fs s : s ∉ name_of <$> fs -> lua_getfield (all_defaults t fs) s = lua_getfield t s.
Proof. intros Hs. rewrite all_defaults_set. apply set_fields_other. rewrite <- list_fmap_compose. exact Hs. Qed.

Lemma all_defaults_only st t pre post : t_f st = pre ++ post -> only_fields st t -> only_fields st (all_defaults t pre).
Proof. intros E Ht s Hs. rewrite all_defaults_other; [by apply Ht|]. intros Hin. apply Hs. rewrite E, fmap_app. apply elem_of_app. by left. Qed.

Lemma all_defaults_get fs f : NoDup (name_of <$> fs) -> f ∈ fs -> forall t, lua_getfield (all_defaults t fs) (name_of f) = field_default types f.
Proof.
  induction fs as [|g fs IH]; intros Hnd Hin t; [by apply not_elem_of_nil in Hin|]. rewrite fmap_cons in Hnd. apply NoDup_cons in Hnd as [Hg Hnd].
  change (all_defaults t (g :: fs)) with (all_defaults (set_default types t g) fs). apply elem_of_cons in Hin as [->|Hin]; [|by apply IH].
  rewrite all_defaults_other by done. unfold set_default, lua_getfield. apply rawget_rawset.
Qed.

Lemma default_loop_ok st fuel : type_ok n st -> forall sz t, 64 <= sz -> sz * 2 ^ Z.of_nat fuel <= 2 ^ 20 -> 10 + 2 * t_maxn st <= sz * 2 ^ Z.of_nat fuel -> only_fields st t ->
  exists t', default_loop types fuel st sz t = Ok (all_defaults t' (t_f st)) /\ only_fields st t'.
Proof.
  intros Hst. induction fuel as [|fuel IH]; intros sz t Hsz Hmax Hfit Ht; cbn [default_loop];
    destruct (default_pass st t sz Hst Hsz) as (r & buf & t1 & E & [[Hr ->]|(-> & Hlt & pre & post & Ef & ->)]); rewrite E.
  1,3: destruct (Z.ltb_spec r 0); [lia|]; by exists t.
  - change (2 ^ Z.of_nat 0) with 1 in Hfit. lia.
  - cbn [Z.ltb Z.compare]. rewrite Nat2Z.inj_succ, Z.pow_succ_r in Hmax, Hfit by lia. assert (1 <= 2 ^ Z.of_nat fuel) by (pose proof (Z.pow_pos_nonneg 2 (Z.of_nat fuel)); lia).
    rewrite int_Ok by (unfold INT_MAX; change (2 ^ 20) with 1048576 in Hmax; nia). apply IH; [lia | lia | lia |]. by apply (all_defaults_only _ _ _ post).
Qed.
End Spec.

(** [ldefault] ends for every type of a schema and gives the table of the default values: every field of the type with the value of its kind (0, false, the empty
    string, an empty table for an array, and for a struct a table with the name of its type), and no other field, also when the first buffer of 64 bytes is
    too small and the fields are set again. *)
Theorem ldefault_spec types st : type_ok (Z.of_nat (length types)) st -> exists t, ldefault types st = Ok (VTable t) /\
  (NoDup (name_of <$> t_f st) -> forall f, f ∈ t_f st -> lua_getfield t (name_of f) = field_default types f) /\
  (forall s, s ∉ name_of <$> t_f st -> lua_getfield t s = VNil).
Proof.
  intros Hst. unfold ldefault. destruct (default_loop_ok types st 11 Hst 64 []) as (t & E & Ht); try done.
  - pose proof (slots_short _ _ (to_ascending _ _ Hst) ltac:(lia)) as Hs. rewrite <- (to_maxn _ _ Hst) in Hs. change (64 * 2 ^ Z.of_nat 11) with 131072. lia.
  - rewrite E. eexists. split; [done|]. split; [intros; by apply all_defaults_get|]. intros s Hs. rewrite all_defaults_other by done. by apply Ht.
Qed.

Lemma ldefault_spec_witness : type_ok (Z.of_nat (length [person])) person /\ exists t, ldefault [person] person = Ok (VTable t) /\ lua_getfield t (str "id") = VInteger 0.
Proof.
  split; [exact person_ok|]. destruct (ldefault_spec [person] person person_ok) as (t & E & _). exists t. split; [exact E|]. vm_compute in E. injection E as <-. reflexivity.
Defined.
