(* ===== verification/Harbor.v ===== *)
(** * The harbor service ([service-src/service_harbor.c])

    It sends the messages for other nodes over one connection for each node and forwards what comes in.  Messages for a node that is not
    connected, or for a name that is not known, wait in queues.

    The state of the service and the memory of the blocks it handles are one record.  A pointer to a block is a number, 0 is [NULL]; freeing a block that is not
    allocated, or reading outside one, is undefined ([None]).  What the service asks of the rest of the system is logged in order, with the bytes it passes. *)

From stdpp Require Import gmap.
From S2P Require Import Prelude Message Handle CString.

Definition HASH_SIZE : Z := 4096.
Definition DEFAULT_QUEUE_SIZE : Z := 1024.
Definition HEADER_COOKIE_LENGTH : Z := 12.
Definition REMOTE_MAX : Z := 256.
Definition UINT32_MAX : Z := 2 ^ 32 - 1.
Definition STATUS_WAIT : Z := 0.
Definition STATUS_HANDSHAKE : Z := 1.
Definition STATUS_HEADER : Z := 2.
Definition STATUS_CONTENT : Z := 3.
Definition STATUS_DOWN : Z := 4.

(** ** Data *)

Record remote_message_header := MkRHeader { rh_source : Z; rh_destination : Z; rh_session : Z }.

Record harbor_msg := MkHMsg { hm_header : remote_message_header; hm_buffer : Z; hm_size : Z }.

(** [size] is the length of [data]; a cell is [None] until it is written. *)
Record harbor_msg_queue := MkHQueue { hq_head : Z; hq_tail : Z; hq_data : list (option harbor_msg) }.
Definition hq_size (q : harbor_msg_queue) : Z := Z.of_nat (length (hq_data q)).

Record keyvalue := MkKv { kv_key : list Z; kv_hash : Z; kv_value : Z; kv_queue : option harbor_msg_queue }.

Record slave := MkSlave {
  s_fd : Z;
  s_queue : option harbor_msg_queue;
  s_status : Z;
  s_length : Z;
  s_read : Z;
  s_size : list Z;
  s_recv_buffer : Z;
}.

(** [skynet_send] with the bytes of the message, [skynet_socket_close], [skynet_socket_start], [skynet_socket_send], [skynet_error]. *)
Inductive action :=
  | ASend (source destination type session : Z) (msg : list Z)
  | AClose (fd : Z)
  | AStart (fd : Z)
  | ASockSend (fd : Z) (msg : list Z)
  | AError (text : string).

(** The chains of the hash map; [h_blocks] are the allocated blocks and [h_next] is not used yet. *)
Record harbor := MkHarbor {
  h_id : Z;
  h_slave : Z;
  h_map : list (list keyvalue);
  h_s : list slave;
  h_blocks : gmap Z (list Z);
  h_next : Z;
  h_log : list action;
}.

Definition set_map (h : harbor) (m : list (list keyvalue)) : harbor := MkHarbor (h_id h) (h_slave h) m (h_s h) (h_blocks h) (h_next h) (h_log h).
Definition set_slaves (h : harbor) (s : list slave) : harbor := MkHarbor (h_id h) (h_slave h) (h_map h) s (h_blocks h) (h_next h) (h_log h).
Definition set_blocks (h : harbor) (b : gmap Z (list Z)) : harbor := MkHarbor (h_id h) (h_slave h) (h_map h) (h_s h) b (h_next h) (h_log h).
Definition act (a : action) (h : harbor) : harbor := MkHarbor (h_id h) (h_slave h) (h_map h) (h_s h) (h_blocks h) (h_next h) (h_log h ++ [a]).

Definition put_slave (h : harbor) (id : Z) (s : slave) : option harbor := let! l := aset (h_s h) id s in Some (set_slaves h l).

Definition set_fd (s : slave) (fd : Z) : slave := MkSlave fd (s_queue s) (s_status s) (s_length s) (s_read s) (s_size s) (s_recv_buffer s).
Definition set_queue (s : slave) (q : option harbor_msg_queue) : slave := MkSlave (s_fd s) q (s_status s) (s_length s) (s_read s) (s_size s) (s_recv_buffer s).
Definition set_status (s : slave) (status : Z) : slave := MkSlave (s_fd s) (s_queue s) status (s_length s) (s_read s) (s_size s) (s_recv_buffer s).
Definition set_receiving (s : slave) (status length read : Z) (size : list Z) (recv_buffer : Z) : slave := MkSlave (s_fd s) (s_queue s) status length read size recv_buffer.
Definition set_kv (kv : keyvalue) (value : Z) (q : option harbor_msg_queue) : keyvalue := MkKv (kv_key kv) (kv_hash kv) value q.

(** ** Blocks *)

Definition new_block (bytes : list Z) (h : harbor) : Z * harbor :=
  (h_next h, MkHarbor (h_id h) (h_slave h) (h_map h) (h_s h) (<[h_next h := bytes]> (h_blocks h)) (h_next h + 1) (h_log h)).

Definition skynet_free (p : Z) (h : harbor) : option harbor :=
  if p =? 0 then Some h else let! _ := h_blocks h !! p in Some (set_blocks h (delete p (h_blocks h))).

(** The [n] bytes at [off] of a block. *)
Definition read_block (p off n : Z) (h : harbor) : option (list Z) :=
  if n =? 0 then Some [] else let! b := h_blocks h !! p in memcpy b off n.

Definition write_block (p off : Z) (data : list Z) (h : harbor) : option harbor :=
  if bool_decide (data = []) then Some h else
  let! b := h_blocks h !! p in
  let! b := memcpy_at b off data in
  Some (set_blocks h (<[p := b]> (h_blocks h))).

(** ** Queues *)

Definition push_queue_msg (q : harbor_msg_queue) (m : harbor_msg) : option harbor_msg_queue :=
  let size := hq_size q in
  let! q :=
    if (hq_tail q + 1) mod size =? hq_head q then
      let! cells := mapM (fun i => aget (hq_data q) ((i + hq_head q) mod size)) (seqZ 0 (size - 1)) in
      Some (MkHQueue 0 (size - 1) (cells ++ replicate (Z.to_nat (size + 1)) None))
    else Some q in
  let! data := aset (hq_data q) (hq_tail q) (Some m) in
  Some (MkHQueue (hq_head q) ((hq_tail q + 1) mod hq_size q) data).

Definition push_queue (q : harbor_msg_queue) (buffer sz : Z) (header : remote_message_header) : option harbor_msg_queue :=
  push_queue_msg q (MkHMsg header buffer sz).

(** [Some None] is [NULL]. *)
Definition pop_queue (q : harbor_msg_queue) : option (option (harbor_msg * harbor_msg_queue)) :=
  if hq_head q =? hq_tail q then Some None else
  let! cell := aget (hq_data q) (hq_head q) in
  let! m := cell in
  Some (Some (m, MkHQueue ((hq_head q + 1) mod hq_size q) (hq_tail q) (hq_data q))).

Definition new_queue : harbor_msg_queue := MkHQueue 0 0 (replicate (Z.to_nat DEFAULT_QUEUE_SIZE) None).

(** [while ((m = pop_queue(queue)) != NULL) body]; a queue holds fewer messages than it has cells. *)
Fixpoint drain {St} (fuel : nat) (body : harbor_msg -> St -> option St) (q : harbor_msg_queue) (s : St) : option (harbor_msg_queue * St) :=
  let! r := pop_queue q in
  match r with
  | None => Some (q, s)
  | Some (m, q) =>
      match fuel with
      | O => None
      | S fuel => let! s := body m s in drain fuel body q s
      end
  end.

Definition drain_all {St} (body : harbor_msg -> St -> option St) (q : harbor_msg_queue) (s : St) : option (harbor_msg_queue * St) :=
  drain (length (hq_data q)) body q s.

Definition free_msg (m : harbor_msg) (h : harbor) : option harbor := skynet_free (hm_buffer m) h.

Definition release_queue (q : option harbor_msg_queue) (h : harbor) : option harbor :=
  match q with None => Some h | Some q => let! (_, h) := drain_all free_msg q h in Some h end.

(** ** Names *)

(** [ptr[i]] of the name read as words. *)
Definition name_word (name : list Z) (i : Z) : option Z :=
  let! b0 := aget name (4 * i) in
  let! b1 := aget name (4 * i + 1) in
  let! b2 := aget name (4 * i + 2) in
  let! b3 := aget name (4 * i + 3) in
  Some (b0 + Z.shiftl b1 8 + Z.shiftl b2 16 + Z.shiftl b3 24).

Definition name_hash (name : list Z) : option Z :=
  let! p0 := name_word name 0 in
  let! p1 := name_word name 1 in
  let! p2 := name_word name 2 in
  let! p3 := name_word name 3 in
  Some (Z.lxor (Z.lxor (Z.lxor p0 p1) p2) p3).

(** [strncmp(a, b, GLOBALNAME_LENGTH) == 0]: the bytes up to a NUL. *)
Fixpoint same_name (a b : list Z) : bool :=
  match a, b with
  | x :: a, y :: b => (x =? y) && ((x =? 0) || same_name a b)
  | _, _ => true
  end.

Definition is_node (hash : Z) (name : list Z) (kv : keyvalue) : bool := (kv_hash kv =? hash) && same_name (kv_key kv) name.

(** The bucket, the position in its chain and the node. *)
Definition hash_search (m : list (list keyvalue)) (name : list Z) : option (option (Z * nat * keyvalue)) :=
  let! h := name_hash name in
  let! chain := aget m (h mod HASH_SIZE) in
  Some match list_find (fun kv => is_node h name kv = true) chain with Some (i, kv) => Some (h mod HASH_SIZE, i, kv) | None => None end.

(** The new node is at the head of its chain. *)
Definition hash_insert (m : list (list keyvalue)) (name : list Z) : option (list (list keyvalue) * (Z * nat * keyvalue)) :=
  let! h := name_hash name in
  let! chain := aget m (h mod HASH_SIZE) in
  let kv := MkKv name h 0 None in
  let! m := aset m (h mod HASH_SIZE) (kv :: chain) in
  Some (m, (h mod HASH_SIZE, O, kv)).

Definition hash_new : list (list keyvalue) := replicate (Z.to_nat HASH_SIZE) [].

Definition put_node (h : harbor) (k : Z) (i : nat) (kv : keyvalue) : option harbor :=
  let! chain := aget (h_map h) k in
  let! m := aset (h_map h) k (<[i := kv]> chain) in
  Some (set_map h m).

(** The nodes in the order in which they are freed. *)
Fixpoint hash_delete (nodes : list keyvalue) (h : harbor) : option harbor :=
  match nodes with
  | [] => Some h
  | kv :: nodes => let! h := release_queue (kv_queue kv) h in hash_delete nodes h
  end.

(** ** Messages *)

Definition to_bigendian (n : Z) : list Z := [Z.land (Z.shiftr n 24) 0xff; Z.land (Z.shiftr n 16) 0xff; Z.land (Z.shiftr n 8) 0xff; Z.land n 0xff].

Definition header_to_message (header : remote_message_header) : list Z :=
  to_bigendian (rh_source header) ++ to_bigendian (rh_destination header) ++ to_bigendian (rh_session header).

(** The word at byte [4 * i]. *)
Definition from_bigendian (message : list Z) (i : Z) : option Z :=
  let! b0 := aget message (4 * i) in
  let! b1 := aget message (4 * i + 1) in
  let! b2 := aget message (4 * i + 2) in
  let! b3 := aget message (4 * i + 3) in
  Some (u32 (Z.lor (Z.lor (Z.lor (Z.shiftl b0 24) (Z.shiftl b1 16)) (Z.shiftl b2 8)) b3)).

Definition message_to_header (message : list Z) : option remote_message_header :=
  let! source := from_bigendian message 0 in
  let! destination := from_bigendian message 1 in
  let! session := from_bigendian message 2 in
  Some (MkRHeader source destination session).

(** The result of [skynet_send] depends on whether the destination takes the message: it is given by [accepts], from what happened so far.  With
    [PTYPE_TAG_DONTCOPY] it takes the block over, also when it fails. *)
Section Harbor.
Context (accepts : list action -> Z -> bool).

Definition skynet_send (source destination type session data sz : Z) (h : harbor) : option (Z * harbor) :=
  let! msg := read_block data 0 sz h in
  let h := act (ASend source destination (Z.land type 0xff) session msg) h in
  let! h := if negb (Z.land type PTYPE_TAG_DONTCOPY =? 0) then skynet_free data h else Some h in
  Some (if accepts (h_log h) destination then session else -1, h).

(** A text of the service itself, to the slave service. *)
Definition send_text (text : list Z) (h : harbor) : harbor := act (ASend 0 (h_slave h) PTYPE_TEXT 0 text) h.

Definition close_harbor (id : Z) (h : harbor) : option harbor :=
  let! s := aget (h_s h) id in
  let h := if negb (s_fd s =? 0) then act (AClose (s_fd s)) h else h in
  let! h := release_queue (s_queue s) h in
  put_slave h id (set_queue (set_status s STATUS_DOWN) None).

Definition report_harbor_down (id : Z) (h : harbor) : harbor := send_text (str "D " ++ decimal id) h.

Definition forward_local_messsage (msg sz : Z) (h : harbor) : option harbor :=
  let! cookie := read_block msg (sz - HEADER_COOKIE_LENGTH) HEADER_COOKIE_LENGTH h in
  let! header := message_to_header cookie in
  let type := Z.shiftr (rh_destination header) HANDLE_REMOTE_SHIFT in
  let destination := Z.lor (Z.land (rh_destination header) HANDLE_MASK) (u32 (Z.shiftl (h_id h) HANDLE_REMOTE_SHIFT)) in
  let! (r, h) := skynet_send (rh_source header) destination (Z.lor type PTYPE_TAG_DONTCOPY) (i32 (rh_session header)) msg (sz - HEADER_COOKIE_LENGTH) h in
  if r <? 0 then
    let! h :=
      if negb (type =? PTYPE_ERROR) then
        let! (_, h) := skynet_send destination (rh_source header) PTYPE_ERROR (i32 (rh_session header)) 0 0 h in Some h
      else Some h in
    Some (act (AError "Unknown destination") h)
  else Some h.

Definition send_remote (fd buffer sz : Z) (cookie : remote_message_header) (h : harbor) : option harbor :=
  let sz_header := sz + HEADER_COOKIE_LENGTH in
  if UINT32_MAX <? sz_header then Some (act (AError "remote message is too large") h) else
  let! msg := read_block buffer 0 sz h in
  Some (act (ASockSend fd (to_bigendian sz_header ++ msg ++ header_to_message cookie)) h).

(** [send_remote] and [skynet_free] of the message's block. *)
Definition flush_msg (fd : Z) (m : harbor_msg) (h : harbor) : option harbor :=
  let! h := send_remote fd (hm_buffer m) (hm_size m) (hm_header m) h in
  skynet_free (hm_buffer m) h.

Definition local_msg (handle : Z) (m : harbor_msg) (h : harbor) : option harbor :=
  let header := hm_header m in
  let type := Z.shiftr (rh_destination header) HANDLE_REMOTE_SHIFT in
  let! (_, h) := skynet_send (rh_source header) handle (Z.lor type PTYPE_TAG_DONTCOPY) (i32 (rh_session header)) (hm_buffer m) (hm_size m) h in
  Some h.

(** [m->header.destination |= handle & HANDLE_MASK]. *)
Definition address_msg (handle : Z) (m : harbor_msg) : harbor_msg :=
  let header := hm_header m in
  MkHMsg (MkRHeader (rh_source header) (Z.lor (rh_destination header) (Z.land handle HANDLE_MASK)) (rh_session header)) (hm_buffer m) (hm_size m).

(** The messages [queue] of a name that has become [handle]; [node->queue] afterwards. *)
Definition dispatch_name_queue (handle : Z) (queue : harbor_msg_queue) (h : harbor) : option (option harbor_msg_queue * harbor) :=
  let harbor_id := Z.shiftr handle HANDLE_REMOTE_SHIFT in
  let! s := aget (h_s h) harbor_id in
  if s_fd s =? 0 then
    if s_status s =? STATUS_DOWN then Some (Some queue, act (AError "Drop message") h) else
    let! (node_queue, squeue) :=
      match s_queue s with
      | None => Some (None, queue)
      | Some sq => let! (queue, sq) := drain_all (fun m sq => push_queue_msg sq m) queue sq in Some (Some queue, sq)
      end in
    if harbor_id =? Z.shiftr (h_slave h) HANDLE_REMOTE_SHIFT then
      let! (squeue, h) := drain_all (local_msg handle) squeue h in
      let! h := release_queue (Some squeue) h in
      let! h := put_slave h harbor_id (set_queue s None) in
      Some (node_queue, h)
    else
      let! h := put_slave h harbor_id (set_queue s (Some squeue)) in
      Some (node_queue, h)
  else
    let! (queue, h) := drain_all (fun m => flush_msg (s_fd s) (address_msg handle m)) queue h in
    Some (Some queue, h).

Definition dispatch_queue (id : Z) (h : harbor) : option harbor :=
  let! s := aget (h_s h) id in
  assert! (negb (s_fd s =? 0)) ;;
  match s_queue s with
  | None => Some h
  | Some queue =>
      let! (queue, h) := drain_all (flush_msg (s_fd s)) queue h in
      let! h := release_queue (Some queue) h in
      put_slave h id (set_queue s None)
  end.

(** ** Data from a connection *)

(** The first slave with the descriptor, from number 1. *)
Definition slave_of (h : harbor) (fd : Z) : option Z :=
  match list_find (fun s => s_fd s = fd) (tail (h_s h)) with Some (i, _) => Some (Z.of_nat i + 1) | None => None end.

(** What a pass of the loop over the data leaves: nothing to do, or the bytes for the next pass. *)
Definition pass : Type := option (list Z).

(** [case STATUS_CONTENT]. *)
Definition content_pass (id : Z) (buffer : list Z) (h : harbor) : option (pass * harbor) :=
  let! s := aget (h_s h) id in
  let need := s_length s - s_read s in
  let size := Z.of_nat (length buffer) in
  if size <? need then
    let! h := write_block (s_recv_buffer s) (s_read s) buffer h in
    let! h := put_slave h id (set_receiving s (s_status s) (s_length s) (s_read s + size) (s_size s) (s_recv_buffer s)) in
    Some (None, h)
  else
    let! data := memcpy buffer 0 need in
    let! h := write_block (s_recv_buffer s) (s_read s) data h in
    let! h := forward_local_messsage (s_recv_buffer s) (s_length s) h in
    let! h := put_slave h id (set_receiving s STATUS_HEADER 0 0 (s_size s) 0) in
    let rest := drop (Z.to_nat need) buffer in
    Some (if bool_decide (rest = []) then None else Some rest, h).

(** [case STATUS_HEADER], which goes through. *)
Definition header_pass (id : Z) (buffer : list Z) (h : harbor) : option (pass * harbor) :=
  let! s := aget (h_s h) id in
  let need := 4 - s_read s in
  let size := Z.of_nat (length buffer) in
  if size <? need then
    let! sz := memcpy_at (s_size s) (s_read s) buffer in
    let! h := put_slave h id (set_receiving s (s_status s) (s_length s) (s_read s + size) sz (s_recv_buffer s)) in
    Some (None, h)
  else
    let! data := memcpy buffer 0 need in
    let! sz := memcpy_at (s_size s) (s_read s) data in
    let! b0 := aget sz 0 in
    let! b1 := aget sz 1 in
    let! b2 := aget sz 2 in
    let! b3 := aget sz 3 in
    if negb (b0 =? 0) then
      let! h := put_slave h id (set_receiving s (s_status s) (s_length s) (s_read s) sz (s_recv_buffer s)) in
      let! h := close_harbor id (act (AError "Message is too long") h) in
      Some (None, h)
    else
      let length := Z.lor (Z.lor (Z.shiftl b1 16) (Z.shiftl b2 8)) b3 in
      let (recv_buffer, h) := new_block (malloc length) h in
      let! h := put_slave h id (set_receiving s STATUS_CONTENT length 0 sz recv_buffer) in
      let rest := drop (Z.to_nat need) buffer in
      if bool_decide (rest = []) then Some (None, h) else content_pass id rest h.

(** [case STATUS_HANDSHAKE], which goes through unless the data ends. *)
Definition handshake_pass (id : Z) (buffer : list Z) (h : harbor) : option (pass * harbor) :=
  let! s := aget (h_s h) id in
  let! remote_id := aget buffer 0 in
  if negb (remote_id =? id) then
    let! h := close_harbor id (act (AError "Invalid shakehand id") h) in
    Some (None, h)
  else
    let! h := put_slave h id (set_status s STATUS_HEADER) in
    let! h := dispatch_queue id h in
    let rest := tail buffer in
    if bool_decide (rest = []) then Some (Some rest, h) else header_pass id rest h.

Definition socket_pass (id : Z) (buffer : list Z) (h : harbor) : option (pass * harbor) :=
  let! s := aget (h_s h) id in
  if s_status s =? STATUS_HANDSHAKE then handshake_pass id buffer h
  else if s_status s =? STATUS_HEADER then header_pass id buffer h
  else if s_status s =? STATUS_CONTENT then content_pass id buffer h
  else Some (None, h).

(** A pass that comes back to the loop has taken a byte. *)
Fixpoint socket_loop (fuel : nat) (id : Z) (buffer : list Z) (h : harbor) : option harbor :=
  match fuel with
  | O => None
  | S fuel =>
      let! (r, h) := socket_pass id buffer h in
      match r with None => Some h | Some rest => socket_loop fuel id rest h end
  end.

(** The block [buffer] holds [ud] bytes. *)
Record skynet_socket_message := MkSockMsg { sm_type : Z; sm_id : Z; sm_ud : Z; sm_buffer : Z }.

Definition push_socket_data (m : skynet_socket_message) (h : harbor) : option harbor :=
  assert! (sm_type m =? SKYNET_SOCKET_TYPE_DATA) ;;
  match slave_of h (sm_id m) with
  | None =>
      let! h := skynet_free (sm_buffer m) h in
      Some (act (AError "Invalid socket fd data") h)
  | Some id =>
      let! buffer := read_block (sm_buffer m) 0 (sm_ud m) h in
      socket_loop (S (S (length buffer))) id buffer h
  end.

(** ** Sending to other nodes *)

Definition update_name (name : list Z) (handle : Z) (h : harbor) : option harbor :=
  let! r := hash_search (h_map h) name in
  let! (h, (k, i, kv)) :=
    match r with
    | Some x => Some (h, x)
    | None => let! (m, x) := hash_insert (h_map h) name in Some (set_map h m, x)
    end in
  match kv_queue kv with
  | None => put_node h k i (set_kv kv handle None)
  | Some queue =>
      let! (queue, h) := dispatch_name_queue handle queue h in
      let! h := release_queue queue h in
      put_node h k i (set_kv kv handle None)
  end.

(** Whether the block [msg] has been taken over, and the state. *)
Definition remote_send_handle (source destination type session msg sz : Z) (h : harbor) : option (bool * harbor) :=
  let harbor_id := Z.shiftr destination HANDLE_REMOTE_SHIFT in
  if harbor_id =? h_id h then
    let! (_, h) := skynet_send source destination (Z.lor type PTYPE_TAG_DONTCOPY) session msg sz h in Some (true, h)
  else
    let! s := aget (h_s h) harbor_id in
    let header := MkRHeader source (Z.lor (u32 (Z.shiftl type HANDLE_REMOTE_SHIFT)) (Z.land destination HANDLE_MASK)) (u32 session) in
    if (s_fd s =? 0) || (s_status s =? STATUS_HANDSHAKE) then
      if s_status s =? STATUS_DOWN then
        let! (_, h) := skynet_send destination source PTYPE_ERROR 0 0 0 h in
        Some (false, act (AError "Drop message to harbor") h)
      else
        let! queue := push_queue (default new_queue (s_queue s)) msg sz header in
        let! h := put_slave h harbor_id (set_queue s (Some queue)) in
        Some (true, h)
    else
      let! h := send_remote (s_fd s) msg sz header h in Some (false, h).

Definition remote_send_name (source : Z) (name : list Z) (type session msg sz : Z) (h : harbor) : option (bool * harbor) :=
  let! r := hash_search (h_map h) name in
  let! (h, (k, i, kv)) :=
    match r with
    | Some x => Some (h, x)
    | None => let! (m, x) := hash_insert (h_map h) name in Some (set_map h m, x)
    end in
  if kv_value kv =? 0 then
    let header := MkRHeader source (u32 (Z.shiftl type HANDLE_REMOTE_SHIFT)) (u32 session) in
    let! queue := push_queue (default new_queue (kv_queue kv)) msg sz header in
    let! h := put_node h k i (set_kv kv (kv_value kv) (Some queue)) in
    let! query := until_nul (str "Q " ++ name ++ [0]) in
    Some (true, send_text query h)
  else remote_send_handle source (kv_value kv) type session msg sz h.

Definition handshake (id : Z) (h : harbor) : option harbor :=
  let! s := aget (h_s h) id in
  Some (act (ASockSend (s_fd s) [u8 (h_id h)]) h).

(** [sscanf(buffer, "%d %d", &fd, &id)] with both 0 before. *)
Definition scan_two (text : list Z) : Z * Z :=
  let '(a, na, r) := scan_decimal text in
  let '(b, nb, _) := scan_decimal r in
  if (na =? 0)%nat then (0, 0) else if (nb =? 0)%nat then (i32 a, 0) else (i32 a, i32 b).

(** [msg] is a text of one byte at least. *)
Definition harbor_command (msg : list Z) (source : Z) (h : harbor) : option harbor :=
  let! c := aget msg 0 in
  let s := Z.of_nat (length msg) - 2 in
  if c =? 78 then
    if (s <=? 0) || (GLOBALNAME_LENGTH <=? s) then Some (act (AError "Invalid global name") h) else
    let name := drop 2 msg in
    update_name (name ++ replicate (Z.to_nat (GLOBALNAME_LENGTH - s)) 0) source h
  else if (c =? 83) || (c =? 65) then
    assert! (0 <=? s) ;;
    let! text := until_nul (drop 2 msg ++ [0]) in
    let '(fd, id) := scan_two text in
    if (fd =? 0) || (id <=? 0) || (REMOTE_MAX <=? id) then Some (act (AError "Invalid command") h) else
    let! slave := aget (h_s h) id in
    if negb (s_fd slave =? 0) then Some (act (AError "Harbor already exists") h) else
    let slave := set_fd slave fd in
    let! h := put_slave h id slave in
    let! h := handshake id (act (AStart fd) h) in
    if c =? 83 then put_slave h id (set_status slave STATUS_HANDSHAKE)
    else
      let! h := put_slave h id (set_status slave STATUS_HEADER) in
      dispatch_queue id h
  else Some (act (AError "Unknown command") h).

(** The slave with the descriptor, 0 for none. *)
Definition harbor_id (h : harbor) (fd : Z) : Z := default 0 (slave_of h fd).

(** ** The service *)

(** [struct remote_message]: the destination's name and handle, the block and its size. *)
Record remote_message := MkRemote { rm_name : list Z; rm_handle : Z; rm_message : Z; rm_sz : Z }.

(** What [msg] points to depends on the type. *)
Inductive payload := PSocket (m : skynet_socket_message) | PText (msg : list Z) | PRemote (m : remote_message).

Definition socket_message (m : skynet_socket_message) (h : harbor) : option harbor :=
  if sm_type m =? SKYNET_SOCKET_TYPE_DATA then
    let! h := push_socket_data m h in skynet_free (sm_buffer m) h
  else if (sm_type m =? SKYNET_SOCKET_TYPE_ERROR) || (sm_type m =? SKYNET_SOCKET_TYPE_CLOSE) then
    let id := harbor_id h (sm_id m) in
    Some (if negb (id =? 0) then report_harbor_down id h else act (AError "Unknown fd closed") h)
  else if sm_type m =? SKYNET_SOCKET_TYPE_CONNECT then Some h
  else if sm_type m =? SKYNET_SOCKET_TYPE_WARNING then
    Some (if negb (harbor_id h (sm_id m) =? 0) then act (AError "message hasn't been sent to harbor") h else h)
  else Some (act (AError "recv invalid socket message type") h).

Definition mainloop (type session source : Z) (msg : payload) (h : harbor) : option harbor :=
  if type =? PTYPE_SOCKET then match msg with PSocket m => socket_message m h | _ => None end
  else if type =? PTYPE_HARBOR then match msg with PText text => harbor_command text source h | _ => None end
  else
    match msg with
    | PRemote m =>
        let! (taken, h) :=
          if rm_handle m =? 0 then remote_send_name source (rm_name m) type session (rm_message m) (rm_sz m) h
          else remote_send_handle source (rm_handle m) type session (rm_message m) (rm_sz m) h in
        if taken : bool then Some h else skynet_free (rm_message m) h
    | _ => None
    end.

(** ** Start and end *)

Definition slave_new : slave := MkSlave 0 None STATUS_WAIT 0 0 [0; 0; 0; 0] 0.

(** Blocks the rest of the system has allocated are in [blocks], below [next]. *)
Definition harbor_create (blocks : gmap Z (list Z)) (next : Z) : harbor := MkHarbor 0 0 hash_new (replicate (Z.to_nat REMOTE_MAX) slave_new) blocks next [].

(** [sscanf(args, "%d %u", &harbor_id, &slave)]; [None] inside is a failure to start. *)
Definition harbor_init (args : list Z) (h : harbor) : option harbor :=
  let '(a, na, r) := scan_decimal args in
  let '(b, nb, _) := scan_decimal r in
  let slave := if (na =? 0)%nat || (nb =? 0)%nat then 0 else u32 b in
  let id := if (na =? 0)%nat then 0 else i32 a in
  if slave =? 0 then None else Some (MkHarbor id slave (h_map h) (h_s h) (h_blocks h) (h_next h) (h_log h)).

Fixpoint close_all (n : nat) (id : Z) (h : harbor) : option harbor :=
  match n with
  | O => Some h
  | S n =>
      let! s := aget (h_s h) id in
      let! h := if negb (s_fd s =? 0) && negb (s_status s =? STATUS_DOWN) then close_harbor id h else Some h in
      close_all n (id + 1) h
  end.

Definition harbor_release (h : harbor) : option harbor :=
  let! h := close_all (Z.to_nat (REMOTE_MAX - 1)) 1 h in
  hash_delete (concat (h_map h)) h.
End Harbor.
