(* ===== verification/HarborSpec.v ===== *)
(** * What the harbor service sends and forwards

    Queues are lists; the messages for a node leave in the order in which they were given, before and after the connection is made; what
    comes in over a connection is forwarded message by message, wherever it is cut. *)

From stdpp Require Import gmap.
From S2P Require Import Prelude Ring Message Handle CString Buffer Harbor.

(** ** Queues *)

Definition queue_rep (q : harbor_msg_queue) (l : list harbor_msg) : Prop := ring_rep (hq_data q) (hq_head q) (hq_tail q) l.

Lemma new_queue_rep : queue_rep new_queue [].
Proof. apply ring_rep_nil. unfold DEFAULT_QUEUE_SIZE. lia. Qed.

Lemma push_queue_rep q l m : queue_rep q l -> exists q', push_queue_msg q m = Some q' /\ queue_rep q' (l ++ [m]).
Proof.
  intros (Hseg & Hl & Et). unfold push_queue_msg, hq_size. set (n := Z.of_nat (length (hq_data q))) in *.
  pose proof Hseg as (Hh & _ & _). fold n in Hh.
  assert (forall q' l', ring_seg (hq_data q') (hq_head q') l' -> l' = l -> (S (length l) < length (hq_data q'))%nat -> hq_tail q' = (hq_head q' + Z.of_nat (length l)) mod Z.of_nat (length (hq_data q')) ->
    exists q2, (let! data := aset (hq_data q') (hq_tail q') (Some m) in Some (MkHQueue (hq_head q') ((hq_tail q' + 1) mod Z.of_nat (length (hq_data q'))) data)) = Some q2 /\ queue_rep q2 (l ++ [m])) as Hput.
  { intros q' l' Hs -> Hn Ht. destruct (aset (hq_data q') (hq_tail q') (Some m)) as [data|] eqn:E.
    2: { exfalso. assert (0 <= hq_tail q' < Z.of_nat (length (hq_data q'))) as Hr by (rewrite Ht; apply Z.mod_pos_bound; lia).
         by rewrite aset_Some in E. }
    eexists. split; [reflexivity|]. pose proof (aset_length _ _ _ _ E) as Hdl. unfold queue_rep, ring_rep. cbn [hq_data hq_head hq_tail]. rewrite Hdl.
    split; [|split; [rewrite length_app; cbn [length]; lia|]].
    - rewrite Ht in E. eapply ring_seg_snoc; [exact Hs | lia | exact E].
    - rewrite Ht, Z.add_mod_idemp_l, length_app by lia. f_equal. cbn [length]. lia. }
  destruct (Z.eqb_spec ((hq_tail q + 1) mod n) (hq_head q)) as [Efull|Efull].
  - destruct (mapM_seqZ (fun i => aget (hq_data q) ((i + hq_head q) mod n)) (n - 1)) as (cells & -> & Hlc & Hcell).
    { intros i _. apply aget_is_Some. apply Z.mod_pos_bound. lia. }
    assert (Z.of_nat (length l) = n - 1) as Hln.
    { rewrite Et, Z.add_mod_idemp_l in Efull by lia. rewrite mod_wrap in Efull by lia. destruct (Z.ltb_spec (hq_head q + Z.of_nat (length l) + 1) n); lia. }
    apply (Hput (MkHQueue 0 (n - 1) (cells ++ replicate (Z.to_nat (n + 1)) None)) l); cbn [hq_data hq_head hq_tail]; try done; rewrite ?length_app, ?length_replicate.
    + eapply ring_seg_copy; [exact Hseg | rewrite length_app, length_replicate; lia|]. intros i Hi. fold n. rewrite aget_nat, lookup_app_l by lia. rewrite <- aget_nat, Hcell by lia.
      by rewrite Z.add_comm.
    + lia.
    + rewrite Z.mod_small; lia.
  - apply (Hput q l); try done. destruct (decide (S (length l) = length (hq_data q))) as [E|]; [|lia]. exfalso. apply Efull. rewrite Et, Z.add_mod_idemp_l by lia. rewrite mod_wrap by lia.
    destruct (Z.ltb_spec (hq_head q + Z.of_nat (length l) + 1) n); lia.
Qed.

Lemma pop_queue_nil q : queue_rep q [] -> pop_queue q = Some None.
Proof. intros Hq. unfold pop_queue. apply ring_rep_empty in Hq as [_ Hq]. rewrite (Hq eq_refl), Z.eqb_refl. done. Qed.

Lemma pop_queue_cons q m l : queue_rep q (m :: l) -> exists q', pop_queue q = Some (Some (m, q')) /\ queue_rep q' l /\ length (hq_data q') = length (hq_data q).
Proof.
  intros Hq. unfold pop_queue. destruct (Z.eqb_spec (hq_head q) (hq_tail q)) as [E|]; [apply (ring_rep_empty _ _ _ _ Hq) in E; done|].
  destruct Hq as (Hs & Hl & Ht). rewrite (ring_seg_head _ _ _ _ Hs). eexists. split; [reflexivity|]. cbn [length] in *. split; [|done]. unfold queue_rep, ring_rep, hq_size. cbn [hq_data hq_head hq_tail].
  split; [by eapply ring_seg_rest|]. split; [lia|]. rewrite Ht, Z.add_mod_idemp_l by lia. f_equal. lia.
Qed.

(** A loop over all messages, as a fold. *)
Fixpoint each {St} (body : harbor_msg -> St -> option St) (l : list harbor_msg) (s : St) : option St :=
  match l with [] => Some s | m :: l => let! s := body m s in each body l s end.

Lemma drain_ok {St} (body : harbor_msg -> St -> option St) l : forall q s s' fuel, queue_rep q l -> (length l <= fuel)%nat -> each body l s = Some s' ->
  exists q', drain fuel body q s = Some (q', s') /\ queue_rep q' [].
Proof.
  induction l as [|m l IH]; intros q s s' fuel Hq Hf He.
  - exists q. injection He as <-. destruct fuel; cbn [drain]; by rewrite pop_queue_nil.
  - destruct (pop_queue_cons _ _ _ Hq) as (q1 & E & Hq1 & _). destruct fuel as [|fuel]; [cbn [length] in Hf; lia|]. cbn [drain each] in *. rewrite E.
    destruct (body m s) as [s1|]; [|done]. apply (IH q1); [done | cbn [length] in Hf; lia | done].
Qed.

Lemma drain_all_ok {St} (body : harbor_msg -> St -> option St) q l s s' : queue_rep q l -> each body l s = Some s' -> exists q', drain_all body q s = Some (q', s') /\ queue_rep q' [].
Proof. intros Hq. destruct Hq as (Hs & Hl & Ht). apply drain_ok; [done | lia]. Qed.

Lemma each_app {St} (body : harbor_msg -> St -> option St) l1 l2 s : each body (l1 ++ l2) s = let! s := each body l1 s in each body l2 s.
Proof. revert s. induction l1 as [|m l1 IH]; intros s; [done|]. cbn [app each]. destruct (body m s); [apply IH | done]. Qed.

(** ** The bytes of a message *)

Definition word32 (z : Z) : Prop := 0 <= z < 2 ^ 32.
Definition header_ok (hd : remote_message_header) : Prop := word32 (rh_source hd) /\ word32 (rh_destination hd) /\ word32 (rh_session hd).

(** A message for another node: header and payload. *)
Definition remote : Type := remote_message_header * list Z.
Definition content (m : remote) : list Z := snd m ++ header_to_message (fst m).
Definition frame (m : remote) : list Z := to_bigendian (Z.of_nat (length (snd m)) + HEADER_COOKIE_LENGTH) ++ content m.
Definition frame_ok (m : remote) : Prop := header_ok (fst m) /\ Z.of_nat (length (snd m)) + HEADER_COOKIE_LENGTH < 2 ^ 24.

Lemma header_length hd : length (header_to_message hd) = 12%nat. Proof. done. Qed.
Lemma content_length m : Z.of_nat (length (content m)) = Z.of_nat (length (snd m)) + 12.
Proof. unfold content. rewrite length_app, header_length. lia. Qed.

Lemma bigendian_bytes n : word32 n -> exists b0 b1 b2 b3, to_bigendian n = [b0; b1; b2; b3] /\
  (0 <= b0 < 256 /\ 0 <= b1 < 256 /\ 0 <= b2 < 256 /\ 0 <= b3 < 256) /\ n = b0 * 2 ^ 24 + b1 * 2 ^ 16 + b2 * 2 ^ 8 + b3.
Proof.
  intros Hn. unfold word32 in Hn. unfold to_bigendian. change 0xff with (Z.ones 8). rewrite !Z.land_ones, !Z.shiftr_div_pow2 by lia.
  do 4 eexists. split; [reflexivity|]. change (2 ^ 8) with 256. change (2 ^ 16) with 65536. change (2 ^ 24) with 16777216. change (2 ^ 32) with 4294967296 in Hn.
  split; [split_and!; apply Z.mod_pos_bound; lia | Z.div_mod_to_equations; lia].
Qed.

Lemma lor_sum a b k : 0 <= a < 2 ^ k -> 0 <= k -> Z.lor (Z.shiftl b k) a = b * 2 ^ k + a.
Proof. intros Ha Hk. rewrite Z.lor_comm, Z.shiftl_mul_pow2 by lia. rewrite lor_fields by lia. lia. Qed.

Lemma lor_bytes3 b1 b2 b3 : 0 <= b1 < 256 -> 0 <= b2 < 256 -> 0 <= b3 < 256 -> Z.lor (Z.lor (Z.shiftl b1 16) (Z.shiftl b2 8)) b3 = b1 * 2 ^ 16 + b2 * 2 ^ 8 + b3.
Proof.
  intros. rewrite <- Z.lor_assoc. change 256 with (2 ^ 8) in *. rewrite (lor_sum b3 b2 8) by lia. rewrite lor_sum by (change (2 ^ 8) with 256 in *; change (2 ^ 16) with 65536; lia). lia.
Qed.

Lemma lor_bytes4 b0 b1 b2 b3 : 0 <= b1 < 256 -> 0 <= b2 < 256 -> 0 <= b3 < 256 ->
  Z.lor (Z.lor (Z.lor (Z.shiftl b0 24) (Z.shiftl b1 16)) (Z.shiftl b2 8)) b3 = b0 * 2 ^ 24 + b1 * 2 ^ 16 + b2 * 2 ^ 8 + b3.
Proof.
  intros. rewrite <- !Z.lor_assoc, (Z.lor_assoc (Z.shiftl b1 16)), lor_bytes3 by lia.
  rewrite lor_sum by (change (2 ^ 8) with 256; change (2 ^ 16) with 65536; change (2 ^ 24) with 16777216; lia). lia.
Qed.

Lemma from_bigendian_at pre n post i : word32 n -> Z.of_nat (length pre) = 4 * i -> from_bigendian (pre ++ to_bigendian n ++ post) i = Some n.
Proof.
  intros Hn Hp. destruct (bigendian_bytes n Hn) as (b0 & b1 & b2 & b3 & -> & (H0 & H1 & H2 & H3) & En). unfold from_bigendian. rewrite <- Hp.
  assert (forall (k : nat) z, z = Z.of_nat k -> aget (pre ++ [b0; b1; b2; b3] ++ post) (Z.of_nat (length pre) + z) = ([b0; b1; b2; b3] ++ post) !! k) as Hk.
  { intros k z ->. rewrite <- Nat2Z.inj_add, aget_nat, lookup_app_r by lia. f_equal. lia. }
  pose proof (Hk 0%nat 0 eq_refl) as E0. rewrite Z.add_0_r in E0. rewrite E0, (Hk 1%nat 1 eq_refl), (Hk 2%nat 2 eq_refl), (Hk 3%nat 3 eq_refl).
  cbn [app lookup list_lookup]. f_equal. rewrite lor_bytes4 by lia. rewrite <- En. by apply u32_small.
Qed.

Lemma message_header_ok hd : header_ok hd -> message_to_header (header_to_message hd) = Some hd.
Proof.
  intros (H1 & H2 & H3). unfold message_to_header, header_to_message.
  pose proof (from_bigendian_at [] _ (to_bigendian (rh_destination hd) ++ to_bigendian (rh_session hd)) 0 H1 eq_refl) as E1. cbn [app] in E1.
  pose proof (from_bigendian_at (to_bigendian (rh_source hd)) _ (to_bigendian (rh_session hd)) 1 H2 eq_refl) as E2.
  pose proof (from_bigendian_at (to_bigendian (rh_source hd) ++ to_bigendian (rh_destination hd)) _ [] 2 H3 eq_refl) as E3. rewrite app_nil_r, <- app_assoc in E3.
  rewrite E1, E2, E3. by destruct hd.
Qed.

(** ** Blocks *)

Lemma read_block_some p (b : list Z) off n h : h_blocks h !! p = Some b -> 0 <= off -> 0 <= n -> off + n <= Z.of_nat (length b) ->
  read_block p off n h = Some (take (Z.to_nat n) (drop (Z.to_nat off) b)).
Proof. intros Hb H1 H2 H3. unfold read_block. destruct (Z.eqb_spec n 0) as [->|]; [done|]. rewrite Hb. by apply memcpy_Some. Qed.

Lemma read_block_all p (b : list Z) h : h_blocks h !! p = Some b -> read_block p 0 (Z.of_nat (length b)) h = Some b.
Proof. intros Hb. rewrite (read_block_some _ b) by (try done; lia). by rewrite Nat2Z.id, drop_0, firstn_all. Qed.

Lemma write_block_some p (b data : list Z) off h : h_blocks h !! p = Some b -> 0 <= off -> off + Z.of_nat (length data) <= Z.of_nat (length b) ->
  write_block p off data h = Some (set_blocks h (<[p := splice b (Z.to_nat off) data]> (h_blocks h))).
Proof.
  intros Hb H1 H2. unfold write_block. case_bool_decide as E.
  - subst data. assert (splice b (Z.to_nat off) [] = b) as -> by apply splice_nil. rewrite insert_id by done. by destruct h.
  - rewrite Hb. by rewrite memcpy_at_splice.
Qed.

Lemma free_some p (b : list Z) h : p <> 0 -> h_blocks h !! p = Some b -> skynet_free p h = Some (set_blocks h (delete p (h_blocks h))).
Proof. intros Hp Hb. unfold skynet_free. destruct (Z.eqb_spec p 0); [done|]. by rewrite Hb. Qed.

Lemma put_slave_some h id s s' : h_s h !! Z.to_nat id = Some s -> 0 <= id -> put_slave h id s' = Some (set_slaves h (<[Z.to_nat id := s']> (h_s h))).
Proof. intros Hs Hid. apply lookup_lt_Some in Hs. unfold put_slave. by rewrite aset_Some by lia. Qed.

Lemma get_slave h id s : h_s h !! Z.to_nat id = Some s -> 0 <= id -> aget (h_s h) id = Some s.
Proof. intros Hs Hid. rewrite <- Hs. replace id with (Z.of_nat (Z.to_nat id)) at 1 by lia. by apply aget_nat. Qed.

Section Harbor.
Context (accepts : list action -> Z -> bool).

(** ** Forwarding a message *)

(** The destination of a message on the node [id]. *)
Definition local_destination (id : Z) (hd : remote_message_header) : Z := Z.lor (Z.land (rh_destination hd) HANDLE_MASK) (u32 (Z.shiftl id HANDLE_REMOTE_SHIFT)).
Definition remote_type (hd : remote_message_header) : Z := Z.shiftr (rh_destination hd) HANDLE_REMOTE_SHIFT.

(** The log with the message forwarded; when it is not taken, its source gets an error. *)
Definition forwarded (id : Z) (log : list action) (m : remote) : list action :=
  let hd := fst m in
  let session := i32 (rh_session hd) in
  let destination := local_destination id hd in
  let log := log ++ [ASend (rh_source hd) destination (remote_type hd) session (snd m)] in
  if accepts log destination && (0 <=? session) then log
  else (if remote_type hd =? PTYPE_ERROR then log else log ++ [ASend destination (rh_source hd) PTYPE_ERROR session []]) ++ [AError "Unknown destination"].

Lemma type_bits t : 0 <= t < 256 -> Z.land (Z.lor t PTYPE_TAG_DONTCOPY) 0xff = t /\ (Z.land (Z.lor t PTYPE_TAG_DONTCOPY) PTYPE_TAG_DONTCOPY =? 0) = false.
Proof.
  intros Ht. unfold PTYPE_TAG_DONTCOPY. rewrite !Z.land_lor_distr_l. split.
  - change 0xff with (Z.ones 8). rewrite Z.land_ones, Z.mod_small by (change (2 ^ 8) with 256; lia). change (Z.land 65536 (Z.ones 8)) with 0. apply Z.lor_0_r.
  - apply Z.eqb_neq. rewrite Z.land_diag. intros E. apply Z.lor_eq_0_iff in E as [_ E]. lia.
Qed.

Lemma remote_type_range hd : header_ok hd -> 0 <= remote_type hd < 256.
Proof.
  intros (_ & Hd & _). unfold word32 in Hd. unfold remote_type, HANDLE_REMOTE_SHIFT. rewrite Z.shiftr_div_pow2 by lia. change (2 ^ 24) with 16777216. change (2 ^ 32) with 4294967296 in Hd.
  Z.div_mod_to_equations. lia.
Qed.

(** What the actions of the service change besides the log and the blocks. *)
Definition acted (h h' : harbor) (B : gmap Z (list Z)) (log : list action) : Prop :=
  h' = MkHarbor (h_id h) (h_slave h) (h_map h) (h_s h) B (h_next h) log.

Lemma send_block source destination type session p (b : list Z) n h : h_blocks h !! p = Some b -> p <> 0 -> 0 <= n <= Z.of_nat (length b) -> 0 <= type < 256 ->
  let log := h_log h ++ [ASend source destination type session (take (Z.to_nat n) b)] in
  skynet_send accepts source destination (Z.lor type PTYPE_TAG_DONTCOPY) session p n h =
    Some (if accepts log destination then session else -1, MkHarbor (h_id h) (h_slave h) (h_map h) (h_s h) (delete p (h_blocks h)) (h_next h) log).
Proof.
  intros Hb Hp Hn Ht log. unfold skynet_send. rewrite (read_block_some p b) by (try done; lia). destruct (type_bits type Ht) as [-> ->]. cbn [negb Z.to_nat]. rewrite drop_0.
  unfold act. rewrite (free_some p b) by done. done.
Qed.

Lemma forward_ok p m h : frame_ok m -> h_blocks h !! p = Some (content m) -> p <> 0 ->
  forward_local_messsage accepts p (Z.of_nat (length (content m))) h =
    Some (MkHarbor (h_id h) (h_slave h) (h_map h) (h_s h) (delete p (h_blocks h)) (h_next h) (forwarded (h_id h) (h_log h) m)).
Proof.
  intros [Hhd Hlen] Hb Hp. destruct m as [hd payload]. cbn [fst snd] in *. pose proof (content_length (hd, payload)) as Hcl. cbn [snd] in Hcl. unfold forward_local_messsage, HEADER_COOKIE_LENGTH.
  rewrite (read_block_some p _ _ _ h Hb) by lia. rewrite Hcl. replace (Z.of_nat (length payload) + 12 - 12) with (Z.of_nat (length payload)) by lia.
  assert (take (Z.to_nat 12) (drop (Z.to_nat (Z.of_nat (length payload))) (content (hd, payload))) = header_to_message hd) as ->
    by (unfold content; cbn [fst snd]; rewrite Nat2Z.id, drop_app_length; done).
  rewrite message_header_ok by done. fold (remote_type hd). fold (local_destination (h_id h) hd).
  rewrite (send_block _ _ _ _ p (content (hd, payload))) by first [done | lia | by apply remote_type_range].
  rewrite Nat2Z.id. assert (take (length payload) (content (hd, payload)) = payload) as -> by (unfold content; cbn [fst snd]; apply take_app_length). 
  unfold forwarded. cbn [fst snd]. set (log := h_log h ++ _). set (dest := local_destination (h_id h) hd). set (session := i32 (rh_session hd)).
  destruct (accepts log dest); cbn [andb]; [destruct (Z.leb_spec 0 session), (Z.ltb_spec session 0); try lia; [done|] | destruct (Z.ltb_spec (-1) 0); [|lia]].
  all: destruct (remote_type hd =? PTYPE_ERROR); cbn [negb]; [done|]; unfold skynet_send, read_block, skynet_free, act; cbn [Z.eqb h_log h_id h_slave h_map h_s h_blocks h_next];
    change (Z.land PTYPE_ERROR 0xff) with PTYPE_ERROR; change (negb (Z.land PTYPE_ERROR PTYPE_TAG_DONTCOPY =? 0)) with false; cbn beta iota; done.
Qed.

(** ** Receiving *)

(** Everything but the slave [id], the blocks and the log is as before. *)
Record others_same (id : Z) (h h' : harbor) : Prop := {
  os_id : h_id h' = h_id h;
  os_slave : h_slave h' = h_slave h;
  os_map : h_map h' = h_map h;
  os_length : length (h_s h') = length (h_s h);
  os_slaves : forall j, j <> Z.to_nat id -> h_s h' !! j = h_s h !! j;
  os_next : h_next h <= h_next h';
}.

Lemma others_refl id h : others_same id h h. Proof. by constructor. Qed.
Lemma others_trans id h1 h2 h3 : others_same id h1 h2 -> others_same id h2 h3 -> others_same id h1 h3.
Proof. intros [] []. constructor; try congruence; [|lia]. intros j Hj. rewrite os_slaves1 by done. auto. Qed.

(** The bytes [rest] of a message have come in over the connection [fd] of slave [id]; [B] are the blocks besides the buffer of that message. *)
Inductive receiving (id fd : Z) (B : gmap Z (list Z)) (rest : list Z) (h : harbor) : Prop :=
  | in_header s : h_s h !! Z.to_nat id = Some s -> s_fd s = fd -> s_queue s = None -> length (s_size s) = 4%nat ->
      (forall p, is_Some (B !! p) -> p < h_next h) -> 0 < h_next h ->
      (length rest < 4)%nat -> s_status s = STATUS_HEADER -> s_read s = Z.of_nat (length rest) -> take (length rest) (s_size s) = rest -> h_blocks h = B -> receiving id fd B rest h
  | in_content s block : h_s h !! Z.to_nat id = Some s -> s_fd s = fd -> s_queue s = None -> length (s_size s) = 4%nat ->
      (forall p, is_Some (B !! p) -> p < h_next h) -> 0 < h_next h ->
      (4 <= length rest)%nat -> s_status s = STATUS_CONTENT -> s_read s = Z.of_nat (length rest) - 4 -> take 4 rest = to_bigendian (s_length s) -> s_length s = Z.of_nat (length block) -> word32 (s_length s) ->
      take (length rest - 4) block = drop 4 rest -> B !! s_recv_buffer s = None -> 0 < s_recv_buffer s < h_next h -> h_blocks h = <[s_recv_buffer s := block]> B -> receiving id fd B rest h.

(** A pass over [buffer] after [rest]: the message [m] is not complete, or it is forwarded and [more] bytes are left. *)
Definition pass_ok (id fd : Z) (B : gmap Z (list Z)) (h : harbor) (rest buffer : list Z) (m : remote) (r : option (pass * harbor)) : Prop :=
  (forall y, rest ++ buffer ++ y = frame m -> y <> [] -> exists h', r = Some (None, h') /\ receiving id fd B (rest ++ buffer) h' /\ h_log h' = h_log h /\ others_same id h h') /\
  (forall x more, rest ++ x = frame m -> buffer = x ++ more -> exists h', r = Some (if bool_decide (more = []) then None else Some more, h') /\
     receiving id fd B [] h' /\ h_log h' = forwarded (h_id h) (h_log h) m /\ others_same id h h').

Lemma frame_length m : Z.of_nat (length (frame m)) = Z.of_nat (length (snd m)) + 16.
Proof. unfold frame. rewrite length_app. pose proof (content_length m). change (length (to_bigendian _)) with 4%nat. lia. Qed.

Lemma to_bigendian_inj a b : word32 a -> word32 b -> to_bigendian a = to_bigendian b -> a = b.
Proof.
  intros Ha Hb E. destruct (bigendian_bytes a Ha) as (a0 & a1 & a2 & a3 & Ea & _ & ->), (bigendian_bytes b Hb) as (b0 & b1 & b2 & b3 & Eb & _ & ->). rewrite Ea, Eb in E. by injection E as -> -> -> ->.
Qed.

#[local] Ltac solve_others := constructor; cbn; rewrite ?length_insert; try done; try lia; intros j Hj; rewrite ?list_lookup_insert_ne by done; done.

Lemma content_pass_ok id fd B rest h m buffer : 0 <= id -> frame_ok m -> receiving id fd B rest h -> (4 <= length rest)%nat -> (length rest < length (frame m))%nat -> take (length rest) (frame m) = rest ->
  pass_ok id fd B h rest buffer m (content_pass accepts id buffer h).
Proof.
  intros Hid Hm Hr H4 Hlt Hpre. destruct Hr as [s ? ? ? ? ? ? Hl|s block Hs Hfd Hq Hsz HB Hnext _ Hst Hread Hlen Hblock Hword Htake Hfresh Hp Hblocks]; [lia|].
  pose proof (frame_length m) as Hfl. pose proof (content_length m) as Hcl. destruct Hm as [Hhd Hsmall]. unfold HEADER_COOKIE_LENGTH in *.
  assert (s_length s = Z.of_nat (length (snd m)) + 12) as Hsl.
  { apply to_bigendian_inj; [done | unfold word32; change (2 ^ 32) with (2 ^ 24 * 256); lia |]. rewrite <- Hlen, <- Hpre, take_take, Nat.min_l by lia. done. }
  assert (forall x, rest ++ x = frame m -> drop 4 rest ++ x = content m) as Hcontent.
  { intros x E. rewrite <- drop_app_le by lia. rewrite E. done. }
  set (o := (length rest - 4)%nat) in *. unfold content_pass. rewrite (get_slave h id s) by done.
  assert (h_blocks h !! s_recv_buffer s = Some block) as Hb by (rewrite Hblocks; apply lookup_insert_eq).
  replace (s_length s - s_read s) with (Z.of_nat (length (frame m)) - Z.of_nat (length rest)) by lia.
  assert (Z.to_nat (s_read s) = o) as Ho by lia. split.
  - intros y E Hy. assert (length (frame m) = length rest + length buffer + length y)%nat as Hfm by (rewrite <- E, !length_app; lia). assert (0 < length y)%nat by (destruct y; [done | cbn; lia]).
    destruct (Z.ltb_spec (Z.of_nat (length buffer)) (Z.of_nat (length (frame m)) - Z.of_nat (length rest))); [|lia].
    rewrite (write_block_some _ block) by (try done; lia). rewrite Ho. set (h1 := set_blocks h _). rewrite (put_slave_some h1 id s) by done.
    eexists. split; [reflexivity|]. split; [|split; [done | solve_others]].
    apply lookup_lt_Some in Hs as Hsl'. eapply (in_content _ _ _ _ _ (set_receiving s (s_status s) (s_length s) (s_read s + Z.of_nat (length buffer)) (s_size s) (s_recv_buffer s)) (splice block o buffer)); cbn [set_slaves set_receiving h_s h_next h_blocks h1 set_blocks s_fd s_queue s_size s_status s_read s_length s_recv_buffer]; try done.
    + by apply list_lookup_insert_eq.
    + rewrite length_app. lia.
    + rewrite length_app. lia.
    + rewrite take_app_le by lia. done.
    + rewrite splice_length by lia. done.
    + rewrite length_app. replace (length rest + length buffer - 4)%nat with (o + length buffer)%nat by lia. rewrite splice_take by lia. rewrite Htake. by rewrite drop_app_le by lia.
    + rewrite Hblocks. by rewrite insert_insert_eq.
  - intros x more E ->. assert (length (frame m) = length rest + length x)%nat as Hfm by (rewrite <- E, !length_app; lia).
    rewrite length_app. destruct (Z.ltb_spec (Z.of_nat (length x + length more)) (Z.of_nat (length (frame m)) - Z.of_nat (length rest))); [lia|].
    replace (Z.of_nat (length (frame m)) - Z.of_nat (length rest)) with (Z.of_nat (length x)) by lia. rewrite memcpy_Some by (rewrite ?length_app; lia). cbn [Z.to_nat]. rewrite drop_0, Nat2Z.id, take_app_length, drop_app_length.
    rewrite (write_block_some _ block) by (try done; lia). rewrite Ho.
    assert (splice block o x = content m) as Hsp.
    { unfold splice. rewrite drop_ge by lia. rewrite app_nil_r, Htake. by apply Hcontent. }
    rewrite Hsp. set (h1 := set_blocks h _). replace (s_length s) with (Z.of_nat (length (content m))) by lia. rewrite (forward_ok _ m); [| by split | by apply lookup_insert_eq | lia].
    set (h2 := MkHarbor _ _ _ _ _ _ _). rewrite (put_slave_some h2 id s) by done. eexists. split; [reflexivity|].
    split; [|split; [done | solve_others]].
    apply lookup_lt_Some in Hs as Hsl'. eapply (in_header _ _ _ _ _ (set_receiving s STATUS_HEADER 0 0 (s_size s) 0)); cbn [set_slaves set_receiving h_s h_next h_blocks h1 h2 set_blocks s_fd s_queue s_size s_status s_read s_length s_recv_buffer]; try done.
    + by apply list_lookup_insert_eq.
    + cbn. lia.
    + rewrite Hblocks. rewrite insert_insert_eq. by rewrite delete_insert_id.
Qed.

(** The four bytes of the length are complete. *)
Lemma header_complete id fd B rest h m buffer : 0 <= id -> frame_ok m -> receiving id fd B rest h -> (length rest < 4)%nat -> (4 <= length rest + length buffer)%nat ->
  rest ++ take (4 - length rest) buffer = take 4 (frame m) -> exists h1,
    header_pass accepts id buffer h = (if bool_decide (drop (4 - length rest) buffer = []) then Some (None, h1) else content_pass accepts id (drop (4 - length rest) buffer) h1) /\
    receiving id fd B (take 4 (frame m)) h1 /\ h_log h1 = h_log h /\ others_same id h h1.
Proof.
  intros Hid Hm Hr H4 Hlb Hpre. destruct Hr as [s Hs Hfd Hq Hsz HB Hnext _ Hst Hread Htake Hblocks|s block ? ? ? ? ? ? ? ? ? ? ? ? ? ? ? ?]; [|lia].
  pose proof (frame_length m) as Hfl. destruct Hm as [Hhd Hsmall]. unfold HEADER_COOKIE_LENGTH in *. set (n := Z.of_nat (length (snd m)) + 12) in *.
  assert (word32 n) as Hn by (unfold word32; change (2 ^ 32) with (2 ^ 24 * 256); lia).
  assert (take 4 (frame m) = to_bigendian n) as Ef by done. destruct (bigendian_bytes n Hn) as (b0 & b1 & b2 & b3 & Eb & (H0 & H1 & H2 & H3) & En).
  assert (b0 = 0) as -> by (change (2 ^ 24) with 16777216 in *; change (2 ^ 16) with 65536 in *; change (2 ^ 8) with 256 in *; lia).
  unfold header_pass. rewrite (get_slave h id s) by done. rewrite Hread. destruct (Z.ltb_spec (Z.of_nat (length buffer)) (4 - Z.of_nat (length rest))); [lia|].
  replace (4 - Z.of_nat (length rest)) with (Z.of_nat (4 - length rest)) by lia. rewrite memcpy_Some by lia. rewrite Nat2Z.id. cbn [Z.to_nat]. rewrite drop_0. set (data := take (4 - length rest) buffer) in *.
  assert (length data = (4 - length rest)%nat) as Hd by (subst data; rewrite length_take; lia). rewrite memcpy_at_splice by lia. rewrite Nat2Z.id.
  assert (splice (s_size s) (length rest) data = [0; b1; b2; b3]) as Esp by (unfold splice; rewrite drop_ge by lia; rewrite app_nil_r, Htake, Hpre, Ef; exact Eb). rewrite Esp.
  change (aget [0; b1; b2; b3] 0) with (Some 0). change (aget [0; b1; b2; b3] 1) with (Some b1). change (aget [0; b1; b2; b3] 2) with (Some b2). change (aget [0; b1; b2; b3] 3) with (Some b3).
  cbn [Z.eqb negb]. rewrite lor_bytes3 by lia. replace (b1 * 2 ^ 16 + b2 * 2 ^ 8 + b3) with n by lia. unfold new_block. set (h1 := MkHarbor _ _ _ _ _ _ _). rewrite (put_slave_some h1 id s) by done.
  eexists. split; [reflexivity|]. split; [|split; [done | solve_others]]. apply lookup_lt_Some in Hs as Hsl.
  assert (B !! h_next h = None) as Hfresh by (destruct (B !! h_next h) eqn:EB; [specialize (HB (h_next h)); rewrite EB in HB; specialize (HB ltac:(by eexists)); lia | done]).
  rewrite Ef. eapply (in_content _ _ _ _ _ (set_receiving s STATUS_CONTENT n 0 [0; b1; b2; b3] (h_next h)) (malloc n)); cbn [set_slaves set_receiving h_s h_next h_blocks h1 s_fd s_queue s_size s_status s_read s_length s_recv_buffer]; try done.
  - by apply list_lookup_insert_eq.
  - intros p Hp. specialize (HB p Hp). lia.
  - lia.
  - unfold malloc. rewrite length_replicate. lia.
  - lia.
  - by rewrite Hblocks.
Qed.

Lemma header_pass_ok id fd B rest h m buffer : 0 <= id -> frame_ok m -> receiving id fd B rest h -> (length rest < 4)%nat -> take (length rest) (frame m) = rest ->
  pass_ok id fd B h rest buffer m (header_pass accepts id buffer h).
Proof.
  intros Hid Hm Hr H4 Hpre. pose proof (frame_length m) as Hfl. set (k := (4 - length rest)%nat).
  assert (length (take 4 (frame m)) = 4%nat) as Hl4 by (rewrite length_take; lia).
  assert ((4 <= length rest + length buffer)%nat -> rest ++ take k buffer = take 4 (frame m) -> exists h1,
    header_pass accepts id buffer h = (if bool_decide (drop k buffer = []) then Some (None, h1) else content_pass accepts id (drop k buffer) h1) /\
    receiving id fd B (take 4 (frame m)) h1 /\ h_log h1 = h_log h /\ others_same id h h1 /\
    pass_ok id fd B h1 (take 4 (frame m)) (drop k buffer) m (content_pass accepts id (drop k buffer) h1)) as Hfull.
  { intros Hlb E. destruct (header_complete id fd B rest h m buffer) as (h1 & E1 & Hr1 & Hlog & Hos); try done. exists h1. split_and!; try done.
    apply content_pass_ok; rewrite ?Hl4; try done; lia. }
  split.
  - intros y E Hy. destruct (decide (4 <= length rest + length buffer)%nat) as [Hge|Hlt].
    + assert (rest ++ take k buffer = take 4 (frame m)) as E4 by (rewrite <- E, app_assoc, take_app_le by (rewrite length_app; lia); rewrite take_app_ge by lia; done).
      destruct Hfull as (h1 & E1 & Hr1 & Hlog & Hos & Hpass); [done..|]. rewrite E1.
      assert (rest ++ buffer = take 4 (frame m) ++ drop k buffer) as Erb by (rewrite <- E4, <- app_assoc; by rewrite take_drop).
      case_bool_decide as Ed.
      * exists h1. rewrite Erb, Ed, app_nil_r. done.
      * destruct Hpass as [Ha _]. destruct (Ha y) as (h' & E' & Hr' & Hlog' & Hos'); [by rewrite app_assoc, <- Erb, <- app_assoc | done |].
        exists h'. rewrite Erb. split; [done|]. split; [done|]. split; [congruence | by eapply others_trans].
    + destruct Hr as [s Hs Hfd Hq Hsz HB Hnext _ Hst Hread Htake Hblocks|s block ? ? ? ? ? ? ? ? ? ? ? ? ? ? ? ?]; [|lia].
      unfold header_pass. rewrite (get_slave h id s) by done. rewrite Hread. destruct (Z.ltb_spec (Z.of_nat (length buffer)) (4 - Z.of_nat (length rest))); [|lia].
      rewrite memcpy_at_splice by lia. rewrite Nat2Z.id. rewrite (put_slave_some h id s) by done. eexists. split; [reflexivity|]. split; [|split; [done | solve_others]]. apply lookup_lt_Some in Hs as Hsl.
      eapply (in_header _ _ _ _ _ (set_receiving s (s_status s) (s_length s) (Z.of_nat (length rest) + Z.of_nat (length buffer)) (splice (s_size s) (length rest) buffer) (s_recv_buffer s)));
        cbn [set_slaves set_receiving h_s h_next h_blocks s_fd s_queue s_size s_status s_read s_length s_recv_buffer]; try done.
      * by apply list_lookup_insert_eq.
      * rewrite splice_length; lia.
      * rewrite length_app. lia.
      * rewrite length_app. lia.
      * rewrite length_app, splice_take by lia. by rewrite Htake.
  - intros x more E ->. assert (length (frame m) = length rest + length x)%nat as Hfm by (rewrite <- E, !length_app; lia).
    assert (rest ++ take k (x ++ more) = take 4 (frame m)) as E4 by (rewrite <- E, (take_app_ge rest x 4) by lia; rewrite take_app_le by lia; done).
    destruct Hfull as (h1 & E1 & Hr1 & Hlog & Hos & Hpass); [rewrite length_app; lia | done |]. rewrite E1.
    rewrite drop_app_le in * by lia. rewrite take_app_le in E4 by lia. case_bool_decide as Ed.
    + apply (f_equal length) in Ed. rewrite length_app, length_drop in Ed. cbn [length] in Ed. lia.
    + destruct Hpass as [_ Hb]. destruct (Hb (drop k x) more) as (h' & E' & Hr' & Hlog' & Hos'); [rewrite <- E4, <- app_assoc, take_drop; done | done |].
      exists h'. split; [done|]. split; [done|]. split; [rewrite Hlog', Hlog, (os_id _ _ _ Hos); done | by eapply others_trans].
Qed.

(** ** All that comes in *)

Lemma socket_pass_ok id fd B rest h m buffer : 0 <= id -> frame_ok m -> receiving id fd B rest h -> (length rest < length (frame m))%nat -> take (length rest) (frame m) = rest ->
  pass_ok id fd B h rest buffer m (socket_pass accepts id buffer h).
Proof.
  intros Hid Hm Hr Hlt Hpre. destruct (decide (length rest < 4)%nat) as [H4|H4].
  - assert (socket_pass accepts id buffer h = header_pass accepts id buffer h) as ->; [|by apply header_pass_ok].
    destruct Hr as [s Hs Hfd Hq Hsz HB Hnext _ Hst Hread Htake Hblocks|]; [|lia]. unfold socket_pass. rewrite (get_slave h id s) by done. by rewrite Hst.
  - assert (socket_pass accepts id buffer h = content_pass accepts id buffer h) as ->; [|apply content_pass_ok; try done; lia].
    destruct Hr as [|s block Hs Hfd Hq Hsz HB Hnext _ Hst]; [lia|]. unfold socket_pass. rewrite (get_slave h id s) by done. by rewrite Hst.
Qed.

(** A beginning of a message. *)
Definition incomplete (rest : list Z) : Prop := exists m y, frame_ok m /\ rest ++ y = frame m /\ y <> [].
Definition frames (ms : list remote) : list Z := concat (map frame ms).

Lemma incomplete_nil : incomplete [].
Proof. exists (MkRHeader 0 0 0, []), (frame (MkRHeader 0 0 0, [])). split; [|done]. split; [unfold header_ok, word32; cbn; lia | done]. Qed.

(** No message begins another one. *)
Lemma frame_not_begun m rest z : frame_ok m -> incomplete rest -> rest ++ z = frame m ++ drop (length (frame m)) (rest ++ z) -> (length rest < length (frame m))%nat.
Proof.
  intros [_ Hm] (m2 & y & [_ Hm2] & E & Hy) Ez. destruct (decide (length rest < length (frame m))%nat) as [|Hge]; [done|]. exfalso.
  pose proof (frame_length m). pose proof (frame_length m2). unfold HEADER_COOKIE_LENGTH in *.
  assert (take 4 (frame m) = take 4 (frame m2)) as E4.
  { rewrite <- E, take_app_le by lia. rewrite <- (take_app_le rest z) by lia. rewrite Ez, take_app_le by lia. done. }
  assert (Z.of_nat (length (snd m)) + 12 = Z.of_nat (length (snd m2)) + 12) as El.
  { apply to_bigendian_inj; [unfold word32; change (2 ^ 32) with (2 ^ 24 * 256); lia..|]. exact E4. }
  apply (f_equal length) in E. rewrite length_app in E. assert (0 < length y)%nat by (destruct y; [done | cbn; lia]). lia.
Qed.

Lemma socket_loop_ok id fd B ms : 0 <= id -> forall fuel rest buffer rest' h, Forall frame_ok ms -> receiving id fd B rest h -> incomplete rest -> incomplete rest' ->
  rest ++ buffer = frames ms ++ rest' -> (length buffer < fuel)%nat ->
  exists h', socket_loop accepts fuel id buffer h = Some h' /\ receiving id fd B rest' h' /\ h_log h' = fold_left (forwarded (h_id h)) ms (h_log h) /\ others_same id h h'.
Proof.
  intros Hid. induction ms as [|m ms IH]; intros fuel rest buffer rest' h Hms Hr Hrest Hrest' E Hf; (destruct fuel as [|fuel]; [lia|]); cbn [socket_loop].
  - destruct Hrest' as (m & y & Hm & Em & Hy). unfold frames in E. cbn [map concat app] in E.
    assert (rest ++ buffer ++ y = frame m) as Efull by (by rewrite app_assoc, E). assert (0 < length y)%nat by (destruct y; [done | cbn; lia]).
    pose proof (f_equal length Efull) as El. rewrite !length_app in El.
    destruct (socket_pass_ok id fd B rest h m buffer Hid Hm Hr) as [Ha _]; [lia | by rewrite <- Efull, take_app_length |].
    destruct (Ha y Efull Hy) as (h' & -> & Hr' & Hlog & Hos). exists h'. rewrite <- E. done.
  - apply Forall_cons in Hms as [Hm Hms]. unfold frames in E. cbn [map concat] in E. fold (frames ms) in E. rewrite <- app_assoc in E.
    assert (length rest < length (frame m))%nat as Hlt by (apply (frame_not_begun m rest buffer); try done; rewrite E, drop_app_length; done).
    set (x := take (length (frame m) - length rest) buffer). set (more := drop (length (frame m) - length rest) buffer).
    assert (buffer = x ++ more) as Ebuf by (subst x more; by rewrite take_drop).
    pose proof (f_equal length E) as El. rewrite !length_app in El.
    assert (length x = length (frame m) - length rest)%nat as Hx by (subst x; rewrite length_take; lia).
    assert (rest ++ x = frame m /\ more = frames ms ++ rest') as [Ex Emore].
    { rewrite Ebuf, app_assoc in E. apply app_inj_1 in E; [done|]. rewrite length_app. lia. }
    destruct (socket_pass_ok id fd B rest h m buffer Hid Hm Hr) as [_ Hb]; [lia | by rewrite <- Ex, take_app_length |].
    destruct (Hb x more Ex Ebuf) as (h1 & -> & Hr1 & Hlog & Hos). case_bool_decide as Ed.
    + rewrite Ed in Emore. assert (ms = [] /\ rest' = []) as [-> ->].
      { symmetry in Emore. apply app_nil in Emore as [E1 ->]. split; [|done]. destruct ms as [|m2 ms]; [done|]. apply (f_equal length) in E1. unfold frames in E1. cbn [map concat] in E1. rewrite length_app in E1.
        pose proof (frame_length m2). cbn [length] in E1. lia. }
      exists h1. split; [done|]. split; [done|]. split; [exact Hlog | done].
    + rewrite Ebuf, length_app in Hf. destruct (IH fuel [] more rest' h1) as (h' & E' & Hr' & Hlog' & Hos'); try done; [by apply incomplete_nil | lia |].
      exists h'. split; [done|]. split; [done|]. split; [|by eapply others_trans]. rewrite Hlog', Hlog. cbn [fold_left]. by rewrite (os_id _ _ _ Hos).
Qed.

(** ** Messages that wait in a queue *)

(** The blocks of the queued messages [hms] of the messages [ms], besides the blocks [B]. *)
Fixpoint queued (B : gmap Z (list Z)) (hms : list harbor_msg) (ms : list remote) (blocks : gmap Z (list Z)) : Prop :=
  match hms, ms with
  | [], [] => blocks = B
  | hm :: hms, m :: ms => hm_header hm = fst m /\ hm_size hm = Z.of_nat (length (snd m)) /\ hm_buffer hm <> 0 /\ blocks !! hm_buffer hm = Some (snd m) /\
      queued B hms ms (delete (hm_buffer hm) blocks)
  | _, _ => False
  end.

Lemma queued_snoc B hms ms blocks p hd payload : queued B hms ms blocks -> blocks !! p = None -> p <> 0 ->
  queued B (hms ++ [MkHMsg hd p (Z.of_nat (length payload))]) (ms ++ [(hd, payload)]) (<[p := payload]> blocks).
Proof.
  intros Hq Hp H0. revert ms blocks Hq Hp. induction hms as [|hm hms IH]; intros [|m ms] blocks Hq Hp; cbn [queued app] in *; try done.
  - subst B. cbn [hm_header hm_size hm_buffer fst snd]. split_and!; try done; [by rewrite lookup_insert_eq | by rewrite delete_insert_id].
  - destruct Hq as (E1 & E2 & E3 & E4 & Hq). assert (p <> hm_buffer hm) as Hne by (intros ->; congruence). split_and!; try done; [by rewrite lookup_insert_ne|].
    rewrite delete_insert_ne by done. apply IH; [done|]. by rewrite lookup_delete_ne.
Qed.

Definition sent (fd : Z) (m : remote) : action := ASockSend fd (frame m).
Definition sendable (m : remote) : Prop := Z.of_nat (length (snd m)) + HEADER_COOKIE_LENGTH <= UINT32_MAX.

Lemma send_remote_ok fd p (m : remote) h : sendable m -> h_blocks h !! p = Some (snd m) -> send_remote fd p (Z.of_nat (length (snd m))) (fst m) h = Some (act (sent fd m) h).
Proof.
  intros Hm Hb. unfold send_remote, sendable in *. destruct (Z.ltb_spec UINT32_MAX (Z.of_nat (length (snd m)) + HEADER_COOKIE_LENGTH)); [lia|]. by rewrite read_block_all.
Qed.

Lemma flush_ok fd B hms : forall ms h, queued B hms ms (h_blocks h) -> Forall sendable ms ->
  each (flush_msg fd) hms h = Some (MkHarbor (h_id h) (h_slave h) (h_map h) (h_s h) B (h_next h) (h_log h ++ map (sent fd) ms)).
Proof.
  induction hms as [|hm hms IH]; intros [|m ms] h Hq Hms; cbn [queued each] in *; try done.
  - subst B. cbn [map]. rewrite app_nil_r. by destruct h.
  - destruct Hq as (E1 & E2 & E3 & E4 & Hq). apply Forall_cons in Hms as [Hm Hms]. unfold flush_msg at 1. rewrite E1, E2, send_remote_ok by done. rewrite (free_some _ (snd m)) by done.
    rewrite (IH ms) by done. cbn [act set_blocks h_id h_slave h_map h_s h_next h_log map]. by rewrite <- app_assoc.
Qed.

(** The slave [id] holds the messages [ms] back. *)
Record holding (id fd status : Z) (ms : list remote) (B : gmap Z (list Z)) (h : harbor) : Prop := {
  ho_slave : exists s, h_s h !! Z.to_nat id = Some s /\ s_fd s = fd /\ s_status s = status /\ s_read s = 0 /\ length (s_size s) = 4%nat /\
    exists hms, queued B hms ms (h_blocks h) /\ match s_queue s with Some q => queue_rep q hms | None => hms = [] end;
  ho_blocks : forall p, is_Some (h_blocks h !! p) -> p < h_next h;
  ho_kept : forall p, is_Some (B !! p) -> p < h_next h;
  ho_next : 0 < h_next h;
}.

(** ** Requests of the node *)

(** A message for the handle [q_destination] of another node. *)
Record request := MkRequest { q_source : Z; q_destination : Z; q_type : Z; q_session : Z; q_payload : list Z }.

Definition as_remote (r : request) : remote :=
  (MkRHeader (q_source r) (Z.lor (u32 (Z.shiftl (q_type r) HANDLE_REMOTE_SHIFT)) (Z.land (q_destination r) HANDLE_MASK)) (u32 (q_session r)), q_payload r).

(** The node sends it, with a block for its payload. *)
Definition do_request (r : request) (h : harbor) : option harbor :=
  let (p, h) := new_block (q_payload r) h in
  mainloop accepts (q_type r) (q_session r) (q_source r) (PRemote (MkRemote [] (q_destination r) p (Z.of_nat (length (q_payload r))))) h.

Record request_ok (id : Z) (r : request) : Prop := {
  qo_node : Z.shiftr (q_destination r) HANDLE_REMOTE_SHIFT = id;
  qo_type : q_type r <> PTYPE_SOCKET /\ q_type r <> PTYPE_HARBOR;
  qo_size : sendable (as_remote r);
}.

Lemma request_handle id r h p : 0 < id -> request_ok id r ->
  mainloop accepts (q_type r) (q_session r) (q_source r) (PRemote (MkRemote [] (q_destination r) p (Z.of_nat (length (q_payload r))))) h =
  let! (taken, h) := remote_send_handle accepts (q_source r) (q_destination r) (q_type r) (q_session r) p (Z.of_nat (length (q_payload r))) h in
  if taken : bool then Some h else skynet_free p h.
Proof.
  intros Hid [Hn [Ht1 Ht2] _]. unfold mainloop. destruct (Z.eqb_spec (q_type r) PTYPE_SOCKET), (Z.eqb_spec (q_type r) PTYPE_HARBOR); try done. cbn [rm_handle rm_message rm_sz].
  destruct (Z.eqb_spec (q_destination r) 0) as [E|]; [|done]. rewrite E in Hn. unfold HANDLE_REMOTE_SHIFT in Hn. rewrite Z.shiftr_0_l in Hn. lia.
Qed.

Lemma request_held id fd status ms B h r : 0 < id -> id <> h_id h -> request_ok id r -> holding id fd status ms B h -> status = STATUS_WAIT /\ fd = 0 \/ status = STATUS_HANDSHAKE ->
  exists h', do_request r h = Some h' /\ holding id fd status (ms ++ [as_remote r]) B h' /\ h_log h' = h_log h /\ others_same id h h'.
Proof.
  intros Hid Hne Hr [(s & Hs & Hfd & Hst & Hread & Hsz & hms & Hq & Hrep) Hb Hk Hn] Hcase. unfold do_request, new_block. rewrite (request_handle id) by done. destruct Hr as [Hnode Htype Hsend].
  unfold remote_send_handle. rewrite Hnode. set (h1 := MkHarbor _ _ _ _ _ _ _). destruct (Z.eqb_spec id (h_id h1)); [done|]. rewrite (get_slave h1 id s) by (done || lia).
  assert ((s_fd s =? 0) || (s_status s =? STATUS_HANDSHAKE) = true) as -> by (rewrite Hfd, Hst; destruct Hcase as [[-> ->]| ->]; [done | apply orb_true_r]).
  assert ((s_status s =? STATUS_DOWN) = false) as -> by (rewrite Hst; by destruct Hcase as [[-> ->]| ->]).
  assert (queue_rep (default new_queue (s_queue s)) hms) as Hrep' by (destruct (s_queue s); [done | subst hms; apply new_queue_rep]).
  unfold push_queue. destruct (push_queue_rep _ _ (MkHMsg (fst (as_remote r)) (h_next h) (Z.of_nat (length (q_payload r)))) Hrep') as (q' & Eq & Hq'). cbn [fst as_remote] in Eq. rewrite Eq.
  rewrite (put_slave_some h1 id s) by (done || lia). eexists. split; [reflexivity|]. apply lookup_lt_Some in Hs as Hl. split; [|split; [done | solve_others]].
  assert (h_blocks h !! h_next h = None) as Hfresh by (destruct (h_blocks h !! h_next h) eqn:E; [specialize (Hb (h_next h)); rewrite E in Hb; specialize (Hb ltac:(by eexists)); lia | done]).
  constructor; cbn [set_slaves h_s h_blocks h_next h1].
  - exists (set_queue s (Some q')). split; [by apply list_lookup_insert_eq|]. cbn [set_queue s_fd s_status s_read s_size s_queue]. split_and!; try done.
    exists (hms ++ [MkHMsg (fst (as_remote r)) (h_next h) (Z.of_nat (length (q_payload r)))]). split; [|exact Hq']. apply queued_snoc; [done | done | lia].
  - intros p Hp. destruct (decide (p = h_next h)) as [->|Hpn]; [lia|]. rewrite lookup_insert_ne in Hp by done. specialize (Hb p Hp). lia.
  - intros p Hp. specialize (Hk p Hp). lia.
  - lia.
Qed.

(** ** Making the connection *)

(** The texts [S fd id] and [A fd id]. *)
Definition connects (c fd id : Z) (text : list Z) : Prop := exists t, text = c :: 32 :: t /\ (let! t := until_nul (t ++ [0]) in Some (scan_two t)) = Some (fd, id).

Lemma command_ok c id fd h s text source : c = 83 \/ c = 65 -> 0 < id < REMOTE_MAX -> fd <> 0 -> connects c fd id text -> h_s h !! Z.to_nat id = Some s -> s_fd s = 0 ->
  let after status := MkHarbor (h_id h) (h_slave h) (h_map h) (<[Z.to_nat id := set_status (set_fd s fd) status]> (h_s h)) (h_blocks h) (h_next h)
    (h_log h ++ [AStart fd; ASockSend fd [u8 (h_id h)]]) in
  mainloop accepts PTYPE_HARBOR 0 source (PText text) h = if c =? 83 then Some (after STATUS_HANDSHAKE) else dispatch_queue id (after STATUS_HEADER).
Proof.
  intros Hc Hid Hfd (t & -> & Et) Hs Hsfd after. unfold mainloop. cbn [Z.eqb PTYPE_HARBOR PTYPE_SOCKET Pos.eqb]. unfold harbor_command.
  change (aget (c :: 32 :: t) 0) with (Some c). change (drop 2 (c :: 32 :: t)) with t. cbn [length]. destruct (Z.leb_spec 0 (Z.of_nat (S (S (length t))) - 2)); [|lia].
  destruct (until_nul (t ++ [0])) as [w|]; [|done]. injection Et as ->. apply lookup_lt_Some in Hs as Hl.
  assert ((c =? 78) = false /\ (c =? 83) || (c =? 65) = true) as [-> ->] by (by destruct Hc as [->| ->]).
  destruct (Z.eqb_spec fd 0), (Z.leb_spec id 0), (Z.leb_spec REMOTE_MAX id); try lia. cbn [orb].
  rewrite (get_slave h id s) by (done || lia). rewrite Hsfd. cbn [Z.eqb negb]. rewrite (put_slave_some h id s) by (done || lia). unfold handshake, act. cbn [set_slaves h_s h_id].
  assert (aget (<[Z.to_nat id := set_fd s fd]> (h_s h)) id = Some (set_fd s fd)) as -> by (apply (get_slave (set_slaves h (<[Z.to_nat id := set_fd s fd]> (h_s h)))); [by apply list_lookup_insert_eq | lia]).
  rewrite !(put_slave_some _ id (set_fd s fd)) by (try lia; by apply list_lookup_insert_eq).
  unfold set_slaves. cbn [h_id h_slave h_map h_s h_blocks h_next h_log set_fd s_fd]. rewrite !list_insert_insert_eq, <- !app_assoc. done.
Qed.

Lemma connect_ok id fd ms B h text source : 0 < id < REMOTE_MAX -> fd <> 0 -> connects 83 fd id text -> holding id 0 STATUS_WAIT ms B h ->
  exists h', mainloop accepts PTYPE_HARBOR 0 source (PText text) h = Some h' /\ holding id fd STATUS_HANDSHAKE ms B h' /\
    h_log h' = h_log h ++ [AStart fd; ASockSend fd [u8 (h_id h)]] /\ others_same id h h'.
Proof.
  intros Hid Hfd Hc [(s & Hs & Hsfd & Hst & Hread & Hsz & hms & Hq & Hrep) Hb Hk Hn]. rewrite (command_ok 83 id fd h s) by (try done; by left). eexists. split; [reflexivity|].
  apply lookup_lt_Some in Hs as Hl. split; [|split; [done | solve_others]]. constructor; cbn [h_s h_blocks h_next]; try done.
  exists (set_status (set_fd s fd) STATUS_HANDSHAKE). split; [by apply list_lookup_insert_eq|]. cbn. split_and!; try done. by exists hms.
Qed.

(** The queue leaves when the connection is ready. *)
Lemma dispatch_queue_ok id fd ms B h : 0 < id -> fd <> 0 -> holding id fd STATUS_HEADER ms B h -> Forall sendable ms ->
  exists h', dispatch_queue id h = Some h' /\ receiving id fd B [] h' /\ h_log h' = h_log h ++ map (sent fd) ms /\ others_same id h h'.
Proof.
  intros Hid Hfd [(s & Hs & Hsfd & Hst & Hread & Hsz & hms & Hq & Hrep) Hb Hk Hn] Hms. unfold dispatch_queue. rewrite (get_slave h id s) by (done || lia). rewrite Hsfd. destruct (Z.eqb_spec fd 0); [done|]. cbn [negb].
  apply lookup_lt_Some in Hs as Hl. destruct (s_queue s) as [q|] eqn:Eq.
  - pose proof (flush_ok fd B hms ms h Hq Hms) as He. destruct (drain_all_ok _ _ _ _ _ Hrep He) as (q1 & -> & Hq1). cbn [release_queue]. destruct (drain_all_ok free_msg q1 [] (MkHarbor (h_id h) (h_slave h) (h_map h) (h_s h) B (h_next h) (h_log h ++ map (sent fd) ms)) _ Hq1 eq_refl) as (q2 & -> & _).
    rewrite (put_slave_some (MkHarbor _ _ _ _ _ _ _) id s) by (done || lia). eexists. split; [reflexivity|]. split; [|split; [done | solve_others]].
    eapply (in_header _ _ _ _ _ (set_queue s None)); cbn [set_slaves set_queue h_s h_next h_blocks s_fd s_queue s_size s_status s_read s_length s_recv_buffer]; try done; [by apply list_lookup_insert_eq | cbn; lia].
  - subst hms. destruct ms; [|done]. cbn [queued] in Hq. exists h. split; [done|]. split; [|split; [by rewrite app_nil_r | apply others_refl]].
    eapply (in_header _ _ _ _ _ s); try done. cbn. lia.
Qed.

Lemma accept_ok id fd ms B h text source : 0 < id < REMOTE_MAX -> fd <> 0 -> connects 65 fd id text -> holding id 0 STATUS_WAIT ms B h -> Forall sendable ms ->
  exists h', mainloop accepts PTYPE_HARBOR 0 source (PText text) h = Some h' /\ receiving id fd B [] h' /\
    h_log h' = h_log h ++ [AStart fd; ASockSend fd [u8 (h_id h)]] ++ map (sent fd) ms /\ others_same id h h'.
Proof.
  intros Hid Hfd Hc [(s & Hs & Hsfd & Hst & Hread & Hsz & hms & Hq & Hrep) Hb Hk Hn] Hms. rewrite (command_ok 65 id fd h s) by (try done; by right). cbn [Z.eqb Pos.eqb]. set (h1 := MkHarbor _ _ _ _ _ _ _).
  apply lookup_lt_Some in Hs as Hl. destruct (dispatch_queue_ok id fd ms B h1) as (h' & E & Hr & Hlog & Hos); try done; [lia| |].
  - constructor; cbn [h_s h_blocks h_next h1]; try done. exists (set_status (set_fd s fd) STATUS_HEADER). split; [by apply list_lookup_insert_eq|]. cbn. split_and!; try done. by exists hms.
  - exists h'. split; [done|]. split; [done|]. split; [rewrite Hlog; cbn [h1 h_log]; by rewrite <- app_assoc|]. eapply others_trans; [|exact Hos]. subst h1. solve_others.
Qed.

(** ** With the connection made *)

Lemma receiving_fresh id fd B rest h : receiving id fd B rest h -> h_blocks h !! h_next h = None /\ B !! h_next h = None /\ 0 < h_next h.
Proof.
  assert (forall (M : gmap Z (list Z)) n, (forall p, is_Some (M !! p) -> p < n) -> M !! n = None) as Hf.
  { intros M n HM. destruct (M !! n) eqn:E; [|done]. specialize (HM n). rewrite E in HM. specialize (HM ltac:(by eexists)). lia. }
  intros [s Hs Hfd Hq Hsz HB Hn Hl Hst Hr Ht Hb|s block Hs Hfd Hq Hsz HB Hn Hl Hst Hr Hlen Hblock Hw Ht Hfresh Hp Hb]; rewrite Hb.
  - split_and!; try done; by apply Hf.
  - rewrite lookup_insert_ne by lia. split_and!; try done; by apply Hf.
Qed.

(** A new block, and a block that is freed. *)
Lemma receiving_new id fd B rest h c : receiving id fd B rest h -> receiving id fd (<[h_next h := c]> B) rest (snd (new_block c h)).
Proof.
  intros H. pose proof (receiving_fresh _ _ _ _ _ H) as (Hf1 & Hf2 & Hf3).
  assert (forall p, is_Some (<[h_next h := c]> B !! p) -> (forall p, is_Some (B !! p) -> p < h_next h) -> p < h_next h + 1) as HB1.
  { intros p Hp HB. destruct (decide (p = h_next h)) as [->|Hne]; [lia|]. rewrite lookup_insert_ne in Hp by done. specialize (HB p Hp). lia. }
  destruct H as [s Hs Hfd Hq Hsz HB Hn Hl Hst Hr Ht Hb|s block Hs Hfd Hq Hsz HB Hn Hl Hst Hr Hlen Hblock Hw Ht Hfresh Hp Hb].
  - eapply (in_header _ _ _ _ _ s); cbn; try done; [intros p Hp; by apply HB1 | lia | by rewrite Hb].
  - eapply (in_content _ _ _ _ _ s block); cbn; try done; [intros p Hp'; by apply HB1 | lia | by rewrite lookup_insert_ne by lia | lia |].
    rewrite Hb. by rewrite insert_insert_ne by lia.
Qed.

Lemma receiving_free id fd B rest h p c : receiving id fd (<[p := c]> B) rest h -> B !! p = None -> p <> 0 ->
  exists h', skynet_free p h = Some h' /\ receiving id fd B rest h' /\ h_log h' = h_log h /\ others_same id h h'.
Proof.
  intros H Hp Hp0.
  assert (forall q, (forall p', is_Some (<[p := c]> B !! p') -> p' < h_next h) -> is_Some (B !! q) -> q < h_next h) as HB1.
  { intros q HB Hq. apply HB. destruct (decide (q = p)) as [->|Hne]; [by rewrite lookup_insert_eq | by rewrite lookup_insert_ne]. }
  destruct H as [s Hs Hfd Hq Hsz HB Hn Hl Hst Hr Ht Hb|s block Hs Hfd Hq Hsz HB Hn Hl Hst Hr Hlen Hblock Hw Ht Hfresh Hrp Hb].
  - rewrite (free_some p c) by (try done; by rewrite Hb, lookup_insert_eq). eexists. split; [reflexivity|]. split; [|split; [done | solve_others]].
    eapply (in_header _ _ _ _ _ s); cbn; try done; [intros q; by apply HB1|]. rewrite Hb. by apply delete_insert_id.
  - assert (s_recv_buffer s <> p) as Hne by (intros E; rewrite E, lookup_insert_eq in Hfresh; done). rewrite lookup_insert_ne in Hfresh by done.
    rewrite (free_some p c) by (try done; by rewrite Hb, lookup_insert_ne, lookup_insert_eq). eexists. split; [reflexivity|]. split; [|split; [done | solve_others]].
    eapply (in_content _ _ _ _ _ s block); cbn; try done; [intros q; by apply HB1|]. rewrite Hb, delete_insert_ne by done. by rewrite delete_insert_id.
Qed.

Lemma request_sent id fd B rest h r : 0 < id -> id <> h_id h -> fd <> 0 -> request_ok id r -> receiving id fd B rest h ->
  exists h', do_request r h = Some h' /\ receiving id fd B rest h' /\ h_log h' = h_log h ++ [sent fd (as_remote r)] /\ others_same id h h'.
Proof.
  intros Hid Hne Hfd Hr H. pose proof (receiving_fresh _ _ _ _ _ H) as (Hf1 & Hf2 & Hf3). pose proof (receiving_new _ _ _ _ _ (q_payload r) H) as H1.
  unfold do_request. destruct (new_block (q_payload r) h) as [p h1] eqn:En. injection En as <- <-. cbn [snd new_block] in H1. set (h1 := MkHarbor _ _ _ _ _ _ _) in *.
  rewrite (request_handle id) by done. destruct Hr as [Hnode Htype Hsend]. unfold remote_send_handle. rewrite Hnode. destruct (Z.eqb_spec id (h_id h1)); [done|].
  assert (exists s, h_s h1 !! Z.to_nat id = Some s /\ s_fd s = fd /\ (s_status s =? STATUS_HANDSHAKE) = false) as (s & Hs & Hsfd & Hst).
  { destruct H as [s Hs Hsfd _ _ _ _ _ Hst|s block Hs Hsfd _ _ _ _ _ Hst]; exists s; rewrite Hst; done. }
  rewrite (get_slave h1 id s) by (done || lia). rewrite Hsfd, Hst. destruct (Z.eqb_spec fd 0); [done|]. cbn [orb].
  assert (h_blocks h1 !! h_next h = Some (snd (as_remote r))) as Hb by apply lookup_insert_eq.
  change (MkRHeader (q_source r) _ (u32 (q_session r))) with (fst (as_remote r)). change (q_payload r) with (snd (as_remote r)) at 1. rewrite send_remote_ok by done.
  assert (receiving id fd (<[h_next h := q_payload r]> B) rest (act (sent fd (as_remote r)) h1)) as H2.
  { destruct H1 as [s1 ? ? ? ? ? ? ? ? ? ? ?|s1 block ? ? ? ? ? ? ? ? ? ? ? ? ? ? ? ?]; [by eapply (in_header _ _ _ _ _ s1) | by eapply (in_content _ _ _ _ _ s1 block)]. }
  destruct (receiving_free _ _ _ _ _ _ _ H2 Hf2) as (h' & -> & Hr' & Hlog & Hos); [lia|]. exists h'. split; [done|]. split; [done|]. split; [rewrite Hlog; done|].
  eapply others_trans; [|exact Hos]. subst h1. solve_others.
Qed.

(** ** Data from the connection *)

Definition receive (fd : Z) (chunk : list Z) (h : harbor) : option harbor :=
  let (p, h) := new_block chunk h in
  mainloop accepts PTYPE_SOCKET 0 0 (PSocket (MkSockMsg SKYNET_SOCKET_TYPE_DATA fd (Z.of_nat (length chunk)) p)) h.

(** The descriptor is the slave's alone. *)
Definition own_fd (id fd : Z) (h : harbor) : Prop := forall j s, j <> Z.to_nat id -> h_s h !! j = Some s -> s_fd s <> fd.

Lemma own_fd_same id fd h h' : others_same id h h' -> own_fd id fd h -> own_fd id fd h'.
Proof. intros Hos Hown j s Hj Hs. rewrite (os_slaves _ _ _ Hos) in Hs by done. by apply (Hown j). Qed.

Lemma slave_of_own id fd s h : 0 < id -> own_fd id fd h -> h_s h !! Z.to_nat id = Some s -> s_fd s = fd -> slave_of h fd = Some id.
Proof.
  intros Hid Hown Hs Hfd. unfold slave_of. assert (list_find (fun s => s_fd s = fd) (tail (h_s h)) = Some ((Z.to_nat id - 1)%nat, s)) as ->; [|f_equal; lia].
  apply list_find_Some. split; [|split; [done|]].
  - rewrite lookup_tail. rewrite <- Hs. f_equal. lia.
  - intros j y Hy Hj E. rewrite lookup_tail in Hy. by apply (Hown (S j) y); [lia | |].
Qed.

Lemma receive_loop id fd chunk h s : 0 < id -> own_fd id fd h -> h_s h !! Z.to_nat id = Some s -> s_fd s = fd ->
  receive fd chunk h = let! h' := socket_loop accepts (S (S (length chunk))) id chunk (snd (new_block chunk h)) in skynet_free (h_next h) h'.
Proof.
  intros Hid Hown Hs Hfd. unfold receive. destruct (new_block chunk h) as [p h1] eqn:En. injection En as <- <-. unfold mainloop, socket_message, push_socket_data. cbn [Z.eqb PTYPE_SOCKET Pos.eqb sm_type sm_id sm_ud sm_buffer SKYNET_SOCKET_TYPE_DATA snd].
  set (h1 := MkHarbor _ _ _ _ _ _ _). rewrite (slave_of_own id fd s h1) by done. rewrite (read_block_all _ chunk) by apply lookup_insert_eq. done.
Qed.

Lemma receive_ok id fd B ms rest chunk rest' h : 0 < id -> own_fd id fd h -> Forall frame_ok ms -> receiving id fd B rest h -> incomplete rest -> incomplete rest' -> rest ++ chunk = frames ms ++ rest' ->
  exists h', receive fd chunk h = Some h' /\ receiving id fd B rest' h' /\ h_log h' = fold_left (forwarded (h_id h)) ms (h_log h) /\ others_same id h h'.
Proof.
  intros Hid Hown Hms H Hrest Hrest' E. pose proof (receiving_fresh _ _ _ _ _ H) as (Hf1 & Hf2 & Hf3). pose proof (receiving_new _ _ _ _ _ chunk H) as H1.
  assert (exists s, h_s h !! Z.to_nat id = Some s /\ s_fd s = fd) as (s & Hs & Hsfd) by (destruct H as [s Hs Hsfd|s block Hs Hsfd]; by exists s).
  rewrite (receive_loop id fd chunk h s) by done.
  destruct (socket_loop_ok id fd _ ms ltac:(lia) (S (S (length chunk))) rest chunk rest' _ Hms H1 Hrest Hrest' E ltac:(lia)) as (h2 & -> & H2 & Hlog & Hos).
  destruct (receiving_free _ _ _ _ _ _ _ H2 Hf2) as (h' & -> & Hr' & Hlog' & Hos'); [lia|]. exists h'. split; [done|]. split; [done|]. split; [by rewrite Hlog', Hlog|].
  eapply others_trans; [|eapply others_trans; [exact Hos | exact Hos']]. cbn [new_block snd]. solve_others.
Qed.

Lemma queued_insert B hms : forall ms blocks p c, queued B hms ms blocks -> blocks !! p = None -> queued (<[p := c]> B) hms ms (<[p := c]> blocks).
Proof.
  induction hms as [|hm hms IH]; intros [|m ms] blocks p c Hq Hp; cbn [queued] in *; try done; [by subst|]. destruct Hq as (E1 & E2 & E3 & E4 & Hq).
  assert (p <> hm_buffer hm) as Hne by (intros ->; congruence). split_and!; try done; [by rewrite lookup_insert_ne|]. rewrite delete_insert_ne by done. apply IH; [done|]. by rewrite lookup_delete_ne.
Qed.

(** A free pointer is free in the blocks that are kept. *)
Lemma queued_none B hms : forall ms blocks p, queued B hms ms blocks -> blocks !! p = None -> B !! p = None.
Proof.
  induction hms as [|hm hms IH]; intros [|m ms] blocks p Hq Hp; cbn [queued] in *; try done; [by subst|]. destruct Hq as (_ & _ & _ & _ & Hq). apply (IH _ _ _ Hq).
  destruct (decide (p = hm_buffer hm)) as [->|Hne]; [by rewrite lookup_delete_eq | by rewrite lookup_delete_ne].
Qed.

(** The first data carries the number of the node; what was held back leaves. *)
Lemma receive_handshake id fd B held ms chunk rest' h : 0 < id -> fd <> 0 -> own_fd id fd h -> Forall sendable held -> Forall frame_ok ms -> holding id fd STATUS_HANDSHAKE held B h -> incomplete rest' ->
  chunk = frames ms ++ rest' ->
  exists h', receive fd (id :: chunk) h = Some h' /\ receiving id fd B rest' h' /\ h_log h' = fold_left (forwarded (h_id h)) ms (h_log h ++ map (sent fd) held) /\ others_same id h h'.
Proof.
  intros Hid Hfd Hown Hheld Hms [(s & Hs & Hsfd & Hst & Hread & Hsz & hms & Hq & Hrep) Hb Hk Hn] Hrest' E. set (B1 := <[h_next h := id :: chunk]> B). apply lookup_lt_Some in Hs as Hl.
  assert (forall (M : gmap Z (list Z)), (forall p, is_Some (M !! p) -> p < h_next h) -> M !! h_next h = None) as Hf.
  { intros M HM. destruct (M !! h_next h) eqn:EM; [|done]. specialize (HM (h_next h)). rewrite EM in HM. specialize (HM ltac:(by eexists)). lia. }
  rewrite (receive_loop id fd _ h s) by done. cbn [new_block snd]. set (h1 := MkHarbor _ _ _ _ _ _ _).
  set (h2 := set_slaves h1 (<[Z.to_nat id := set_status s STATUS_HEADER]> (h_s h1))).
  destruct (dispatch_queue_ok id fd held B1 h2) as (h3 & E3 & H3 & Hlog3 & Hos3); try done.
  { constructor; cbn [h2 h1 set_slaves h_s h_blocks h_next].
    - exists (set_status s STATUS_HEADER). split; [by apply list_lookup_insert_eq|]. cbn. split_and!; try done. exists hms. split; [|done]. apply queued_insert; [done | by apply Hf].
    - intros p Hp. destruct (decide (p = h_next h)) as [->|Hne]; [lia|]. rewrite lookup_insert_ne in Hp by done. specialize (Hb p Hp). lia.
    - intros p Hp. subst B1. destruct (decide (p = h_next h)) as [->|Hne]; [lia|]. rewrite lookup_insert_ne in Hp by done. specialize (Hk p Hp). lia.
    - lia. }
  assert (exists k, socket_loop accepts (S (S (length (id :: chunk)))) id (id :: chunk) h1 = socket_loop accepts k id chunk h3 /\ (length chunk < k)%nat) as (k & -> & Hk').
  { remember (S (length (id :: chunk))) as k0 eqn:Ek0. cbn [length] in Ek0. cbn [socket_loop]. unfold socket_pass at 1. rewrite (get_slave h1 id s) by (done || lia). rewrite Hst. cbn [Z.eqb STATUS_HANDSHAKE Pos.eqb]. unfold handshake_pass. rewrite (get_slave h1 id s) by (done || lia).
    change (aget (id :: chunk) 0) with (Some id). cbn beta iota. rewrite Z.eqb_refl. cbn [negb]. rewrite (put_slave_some h1 id s) by (done || lia). fold h2. rewrite E3. cbn [tail].
    case_bool_decide as Ec; [exists k0; split; [by rewrite Ec | lia]|].
    exists (S k0). split; [|lia]. cbn [socket_loop].
    assert (header_pass accepts id chunk h3 = socket_pass accepts id chunk h3) as ->; [|done]. unfold socket_pass. destruct H3 as [s3 Hs3 _ _ _ _ _ _ Hst3|s3 block _ _ _ _ _ _ Habs]; [|cbn in Habs; lia].
    rewrite (get_slave h3 id s3) by (done || lia). by rewrite Hst3. }
  destruct (socket_loop_ok id fd B1 ms ltac:(lia) k [] chunk rest' h3 Hms H3 incomplete_nil Hrest' E Hk') as (h4 & -> & H4 & Hlog4 & Hos4).
  destruct (receiving_free id fd B rest' h4 (h_next h) (id :: chunk) H4) as (h' & -> & Hr' & Hlog' & Hos'); [by apply Hf | lia |]. exists h'. split; [done|]. split; [done|]. split.
  - rewrite Hlog', Hlog4, Hlog3. cbn [h2 h1 set_slaves h_log]. rewrite (os_id _ _ _ Hos3). done.
  - eapply others_trans; [|eapply others_trans; [exact Hos3 | eapply others_trans; [exact Hos4 | exact Hos']]]. subst h2 h1. solve_others.
Qed.

(** ** The traffic of a connection *)

(** A message of the node for the other one, or data of the connection. *)
Inductive traffic := Out (r : request) | In (chunk : list Z).

Definition do_traffic (fd : Z) (e : traffic) (h : harbor) : option harbor := match e with Out r => do_request r h | In chunk => receive fd chunk h end.

Fixpoint run (fd : Z) (es : list traffic) (h : harbor) : option harbor :=
  match es with [] => Some h | e :: es => let! h := do_traffic fd e h in run fd es h end.

Definition outs (es : list traffic) : list remote := omap (fun e => match e with Out r => Some (as_remote r) | In _ => None end) es.
Definition ins (es : list traffic) : list Z := concat (map (fun e => match e with Out _ => [] | In chunk => chunk end) es).

(** What is written to the descriptor, and what goes to services of the node [id]. *)
Definition written (fd : Z) (log : list action) : list (list Z) := omap (fun a => match a with ASockSend fd' b => if fd' =? fd then Some b else None | _ => None end) log.
Definition delivered (id : Z) (log : list action) : list action :=
  List.filter (fun a => match a with ASend _ destination _ _ _ => Z.shiftr destination HANDLE_REMOTE_SHIFT =? id | _ => false end) log.
Definition delivery (id : Z) (m : remote) : action := ASend (rh_source (fst m)) (local_destination id (fst m)) (remote_type (fst m)) (i32 (rh_session (fst m))) (snd m).

Lemma written_app fd l1 l2 : written fd (l1 ++ l2) = written fd l1 ++ written fd l2. Proof. apply omap_app. Qed.
Lemma delivered_concat id l1 l2 : delivered id (l1 ++ l2) = delivered id l1 ++ delivered id l2. Proof. apply List.filter_app. Qed.
Lemma written_sent fd ms : written fd (map (sent fd) ms) = map frame ms.
Proof. induction ms as [|m ms IH]; [done|]. cbn [map written omap list_omap sent]. rewrite Z.eqb_refl. f_equal. exact IH. Qed.
Lemma delivered_sent id fd ms : delivered id (map (sent fd) ms) = [].
Proof. induction ms as [|m ms IH]; [done|]. exact IH. Qed.

(** Messages that come from another node than [id]. *)
Definition foreign (id : Z) (m : remote) : Prop := Z.shiftr (rh_source (fst m)) HANDLE_REMOTE_SHIFT <> id.

Lemma local_destination_node id hd : 0 <= id < 256 -> Z.shiftr (local_destination id hd) HANDLE_REMOTE_SHIFT = id.
Proof.
  intros Hid. unfold local_destination, HANDLE_REMOTE_SHIFT, HANDLE_MASK. rewrite Z.shiftr_lor. change 0xffffff with (Z.ones 24).
  rewrite Z.land_ones, !Z.shiftr_div_pow2, Z.shiftl_mul_pow2 by lia. rewrite u32_small by (change (2 ^ 24) with 16777216; change (2 ^ 32) with 4294967296; lia).
  rewrite Z.div_mul, (Z.div_small (_ mod _)) by (try lia; apply Z.mod_pos_bound; lia). done.
Qed.

Lemma forwarded_delivers id fd m log : 0 <= id < 256 -> foreign id m -> delivered id (forwarded id log m) = delivered id log ++ [delivery id m] /\ written fd (forwarded id log m) = written fd log.
Proof.
  intros Hid Hm. unfold forwarded, foreign, delivery in *. set (a := ASend (rh_source (fst m)) (local_destination id (fst m)) _ _ _).
  assert (delivered id [a] = [a]) as Ha by (subst a; unfold delivered; cbn [List.filter]; by rewrite local_destination_node, Z.eqb_refl).
  assert (forall t s b, delivered id [ASend (local_destination id (fst m)) (rh_source (fst m)) t s b] = []) as He
    by (intros; unfold delivered; cbn [List.filter]; by destruct (Z.eqb_spec (Z.shiftr (rh_source (fst m)) HANDLE_REMOTE_SHIFT) id)).
  destruct (_ && _); [|destruct (_ =? PTYPE_ERROR)]; rewrite ?delivered_concat, ?written_app, Ha, ?He; cbn; rewrite ?app_nil_r; done.
Qed.

Lemma forwarded_all id fd ms : 0 <= id < 256 -> Forall (foreign id) ms -> forall log,
  delivered id (fold_left (forwarded id) ms log) = delivered id log ++ map (delivery id) ms /\ written fd (fold_left (forwarded id) ms log) = written fd log.
Proof.
  intros Hid Hms. induction Hms as [|m ms Hm Hms IH]; intros log; cbn [fold_left map]; [by rewrite app_nil_r|]. destruct (IH (forwarded id log m)) as [-> ->].
  destruct (forwarded_delivers id fd m log Hid Hm) as [-> ->]. by rewrite <- app_assoc.
Qed.

(** Where data ends within the messages. *)
Lemma frames_split b rest' : incomplete rest' -> forall ms a, Forall frame_ok ms -> a ++ b = frames ms ++ rest' ->
  exists ms1 ms2 r, ms = ms1 ++ ms2 /\ a = frames ms1 ++ r /\ incomplete r /\ r ++ b = frames ms2 ++ rest'.
Proof.
  intros Hrest'. induction ms as [|m ms IH]; intros a Hms E.
  - exists [], [], a. split_and!; try done. destruct Hrest' as (m & y & Hm & Em & Hy). exists m, (b ++ y). split; [done|]. cbn in E. rewrite app_assoc, E. split; [done|].
    by intros [_ ->]%app_nil.
  - apply Forall_cons in Hms as [Hm Hms]. unfold frames in E. cbn [map concat] in E. fold (frames ms) in E. rewrite <- app_assoc in E.
    destruct (decide (length a < length (frame m))%nat) as [Hlt|Hge].
    + exists [], (m :: ms), a. split_and!; try done; [|by rewrite E; unfold frames; cbn [map concat]; rewrite <- app_assoc].
      exists m, (drop (length a) (frame m)). split; [done|]. pose proof (f_equal (take (length a)) E) as Et. rewrite take_app_length, take_app_le in Et by lia. split; [by rewrite Et at 1; rewrite take_drop|].
      intros En. apply (f_equal length) in En. rewrite length_drop in En. cbn [length] in En. lia.
    + pose proof (f_equal (take (length (frame m))) E) as Et. rewrite take_app_le, take_app_length in Et by lia.
      assert (a = frame m ++ drop (length (frame m)) a) as Ea by (by rewrite <- Et at 1; rewrite take_drop).
      rewrite Ea, <- app_assoc in E. apply app_inv_head in E. destruct (IH _ Hms E) as (ms1 & ms2 & r & -> & Er & Hr & Eb).
      exists (m :: ms1), ms2, r. split_and!; try done. rewrite Ea, Er. unfold frames. cbn [map concat]. by rewrite app_assoc.
Qed.

Definition traffic_ok (id : Z) (e : traffic) : Prop := match e with Out r => request_ok id r | In _ => True end.

Lemma traffic_run_ok id fd B es : 0 < id -> fd <> 0 -> Forall (traffic_ok id) es -> forall ms rest rest' h, id <> h_id h -> 0 <= h_id h < 256 -> own_fd id fd h ->
  receiving id fd B rest h -> incomplete rest -> incomplete rest' -> Forall frame_ok ms -> Forall (foreign (h_id h)) ms -> rest ++ ins es = frames ms ++ rest' ->
  exists h', run fd es h = Some h' /\ receiving id fd B rest' h' /\ written fd (h_log h') = written fd (h_log h) ++ map frame (outs es) /\
    delivered (h_id h) (h_log h') = delivered (h_id h) (h_log h) ++ map (delivery (h_id h)) ms.
Proof.
  intros Hid Hfd Hes. induction Hes as [|e es He Hes IH]; intros ms rest rest' h Hne Hself Hown H Hrest Hrest' Hms Hfor E.
  - cbn [ins map concat] in E. rewrite app_nil_r in E.
    assert (ms = []) as ->.
    { destruct ms as [|m ms]; [done|]. exfalso. apply Forall_cons in Hms as [Hm _]. unfold frames in E. cbn [map concat] in E. rewrite <- app_assoc in E.
      assert (length rest < length (frame m))%nat as Hlt by (apply (frame_not_begun m rest []); try done; by rewrite app_nil_r, E, drop_app_length).
      apply (f_equal length) in E. rewrite length_app in E. lia. }
    cbn in E. subst rest'. exists h. cbn. by rewrite !app_nil_r.
  - cbn [run]. destruct e as [r|chunk].
    + destruct (request_sent id fd B rest h r Hid Hne Hfd He H) as (h1 & E1 & H1 & Hlog & Hos). cbn [do_traffic]. rewrite E1.
      destruct (IH ms rest rest' h1) as (h' & E' & H' & Hw & Hd); try done; rewrite ?(os_id _ _ _ Hos); try done; [by eapply own_fd_same|].
      exists h'. split; [done|]. split; [done|]. rewrite (os_id _ _ _ Hos) in Hd. rewrite Hw, Hd, Hlog, written_app, delivered_concat. change [sent fd (as_remote r)] with (map (sent fd) [as_remote r]).
      rewrite written_sent, delivered_sent, app_nil_r, <- app_assoc. done.
    + cbn [ins map concat] in E. rewrite app_assoc in E. destruct (frames_split (ins es) rest' Hrest' ms (rest ++ chunk) Hms E) as (ms1 & ms2 & r & -> & Er & Hr & E2).
      apply Forall_app in Hms as [Hms1 Hms2], Hfor as [Hfor1 Hfor2]. destruct (receive_ok id fd B ms1 rest chunk r h Hid Hown Hms1 H Hrest Hr Er) as (h1 & E1 & H1 & Hlog & Hos). cbn [do_traffic]. rewrite E1.
      destruct (IH ms2 r rest' h1) as (h' & E' & H' & Hw & Hd); try done; rewrite ?(os_id _ _ _ Hos); try done; [by eapply own_fd_same|].
      exists h'. split; [done|]. split; [done|]. rewrite (os_id _ _ _ Hos) in Hd. rewrite Hw, Hd, Hlog. destruct (forwarded_all (h_id h) fd ms1 Hself Hfor1 (h_log h)) as [-> ->].
      rewrite map_app, <- app_assoc. done.
Qed.

Lemma run_held id fd fd' status B rs : 0 < id -> Forall (request_ok id) rs -> status = STATUS_WAIT /\ fd = 0 \/ status = STATUS_HANDSHAKE -> forall ms h, id <> h_id h -> holding id fd status ms B h ->
  exists h', run fd' (map Out rs) h = Some h' /\ holding id fd status (ms ++ map as_remote rs) B h' /\ h_log h' = h_log h /\ others_same id h h'.
Proof.
  intros Hid Hrs Hcase. induction Hrs as [|r rs Hr Hrs IH]; intros ms h Hne H; cbn [map run].
  - exists h. by rewrite app_nil_r.
  - destruct (request_held id fd status ms B h r Hid Hne Hr H Hcase) as (h1 & E1 & H1 & Hlog & Hos). cbn [do_traffic]. rewrite E1.
    destruct (IH (ms ++ [as_remote r]) h1) as (h' & E' & H' & Hlog' & Hos'); [by rewrite (os_id _ _ _ Hos) | done |]. rewrite <- app_assoc in H'.
    exists h'. split; [done|]. split; [done|]. split; [congruence | by eapply others_trans].
Qed.


(** Data for a descriptor that no slave has is freed by [push_socket_data] and then again by the service's callback. *)
Theorem unknown_fd_freed_twice session source fd ud p data h : slave_of h fd = None -> p <> 0 -> h_blocks h !! p = Some data ->
  mainloop accepts PTYPE_SOCKET session source (PSocket (MkSockMsg SKYNET_SOCKET_TYPE_DATA fd ud p)) h = None.
Proof.
  intros Hs Hp Hb. unfold mainloop, socket_message, push_socket_data. cbn [Z.eqb PTYPE_SOCKET Pos.eqb sm_type sm_id sm_buffer SKYNET_SOCKET_TYPE_DATA]. rewrite Hs, (free_some p data) by done.
  unfold skynet_free. destruct (Z.eqb_spec p 0); [done|]. cbn [act set_blocks h_blocks]. by rewrite lookup_delete_eq.
Qed.

(** A message shorter than its header: the header is read before the start of the block. *)
Lemma short_message p sz h : sz < HEADER_COOKIE_LENGTH -> forward_local_messsage accepts p sz h = None.
Proof.
  intros Hsz. unfold forward_local_messsage, read_block. cbn [HEADER_COOKIE_LENGTH Z.eqb]. destruct (h_blocks h !! p) as [b|]; [|done].
  unfold memcpy. destruct (Z.leb_spec 0 (sz - HEADER_COOKIE_LENGTH)); [unfold HEADER_COOKIE_LENGTH in *; lia | done].
Qed.
End Harbor.

(** ** Examples *)

(** The node 1, whose slave service has the handle 0x01000001. *)
Definition node1 : harbor := MkHarbor 1 0x01000001 hash_new (replicate 256 slave_new) ∅ 1 [].

Lemma node1_holding : holding 2 0 STATUS_WAIT [] ∅ node1.
Proof.
  constructor; cbn [node1 h_blocks h_next]; [|intros p [x Hp]; by rewrite lookup_empty in Hp..|lia]. exists slave_new. split; [reflexivity|]. split_and!; try done. by exists [].
Qed.

Lemma node1_own fd : fd <> 0 -> own_fd 2 fd node1.
Proof. intros Hfd j s _ Hs. apply lookup_replicate in Hs as [-> _]. cbn. congruence. Qed.

Definition hello : request := MkRequest 0x01000005 0x02000007 PTYPE_TEXT 3 (str "hello").
Definition answer : remote := (MkRHeader 0x02000007 (Z.lor (Z.shiftl PTYPE_RESPONSE 24) 5) 3, str "fine").
Definition takes : list action -> Z -> bool := fun _ _ => true.

Lemma hello_ok : request_ok 2 hello.
Proof. constructor; [reflexivity | split; discriminate | apply Z.leb_le; reflexivity]. Qed.
Lemma answer_ok : frame_ok answer.
Proof. split; [|apply Z.ltb_lt; reflexivity]. unfold header_ok, word32. split_and!; first [apply Z.leb_le; reflexivity | apply Z.ltb_lt; reflexivity]. Qed.


Lemma unknown_fd_freed_twice_witness : mainloop takes PTYPE_SOCKET 0 0 (PSocket (MkSockMsg SKYNET_SOCKET_TYPE_DATA 77 1 1)) (snd (new_block [0] node1)) = None.
Proof. apply (unknown_fd_freed_twice takes 0 0 77 1 1 [0]); [reflexivity | discriminate | reflexivity]. Defined.

(** The name "SERVER" of 16 bytes. *)
Definition server_name : list Z := str "SERVER" ++ replicate 10 0.

(** A message for a global name waits with the name; when the name becomes known (here as the handle 0x02000009) while its node is not connected, the message
    is moved to the queue of the node without the handle, so that it leaves for the handle 0 of the other node. *)
Theorem name_queue_loses_handle :
  (let (p, h) := new_block (str "hi") node1 in
   let! h := mainloop takes PTYPE_TEXT 3 0x01000005 (PRemote (MkRemote server_name 0 p 2)) h in
   let! h := mainloop takes PTYPE_HARBOR 0 0x02000009 (PText (str "N SERVER")) h in
   let! h := mainloop takes PTYPE_HARBOR 0 0 (PText (str "A 9 2")) h in
   Some (written 9 (h_log h))) = Some [[1]; frame (MkRHeader 0x01000005 0 3, str "hi")].
Proof. vm_compute. reflexivity. Qed.
