(* ===== verification/Sums.v ===== *)
(** * Sums over a list

    How often something holds in a list of threads, and how such a sum changes when one thread moves. *)

From S2P Require Import Prelude.

Definition sum {A} (f : A -> Z) (l : list A) : Z := foldr (fun x a => f x + a) 0 l.

Lemma sum_insert {A} (f : A -> Z) (l : list A) i x y : l !! i = Some x -> sum f (<[i := y]> l) = sum f l - f x + f y.
Proof.
  revert i. induction l as [|a l IH]; intros [|i] E; simplify_eq/=; [lia|]. unfold sum in *. rewrite (IH _ E). lia.
Qed.

Lemma sum_map {A} (f : A -> Z) (g : A -> A) (l : list A) : (forall x, f (g x) = f x) -> sum f (map g l) = sum f l.
Proof. intros E. induction l as [|a l IH]; simpl; [done|]. rewrite E. unfold sum in *. by rewrite IH. Qed.

Lemma sum_pos {A} (f : A -> Z) (l : list A) : (forall x, 0 <= f x) -> 0 <= sum f l.
Proof. intros P. induction l as [|a l IH]; simpl; [done|]. specialize (P a). unfold sum in *. lia. Qed.

Lemma sum_at {A} (f : A -> Z) (l : list A) i x : (forall x, 0 <= f x) -> l !! i = Some x -> f x <= sum f l.
Proof.
  intros P E. pose proof (sum_insert f l i x x E). revert i E H. induction l as [|a l IH]; intros [|i] E _; simplify_eq/=.
  - pose proof (sum_pos f l P). unfold sum in *. lia.
  - pose proof (P a). pose proof (IH _ E (sum_insert f l i x x E)). unfold sum in *. lia.
Qed.
