(* ===== verification/Start.v ===== *)
(** * The threads of a process ([skynet-src/skynet_start.c])

    The worker threads sleep on a condition variable when there is nothing to dispatch; the timer thread wakes one in each tick, the
    socket thread when all sleep, and when no service is left the timer makes all threads end.

    A thread is at a point of its program; each step is one access to what the threads share, or a call of the rest of the system, whose result is an
    argument of the step.  The mutex and the condition variable are those of POSIX: a signal wakes one of the waiting threads, which then takes
    the mutex again, and a thread may wake up without a signal. *)

From S2P Require Import Prelude.

(** ** State *)

(** [WWaiting] is in [pthread_cond_wait], [WWoken] wakes up there; from [WCounting] to [WDeciding] and from [WWaking] to [WUnlocking] the worker has the mutex. *)
Inductive worker := WLoop | WDispatch | WLock | WCounting | WDeciding | WWaiting | WWoken | WWaking | WUnlocking | WDone.

(** The timer: [TSignal] is the signal of [wakeup], [TClear] is after [signal_hup], [TExit] is [skynet_socket_exit], from [TQuit] to [TUnlock] it has the mutex. *)
Inductive timer := TUpdate | TCheck | TWake | TSignal | TSleep | TClear | TExit | TLock | TQuit | TBroadcast | TUnlock | TDone.

Inductive socket := SPoll | SCheck | SWake | SSignal | SDone.

(** The monitor thread: [MSleep n] is before the check of the pass with [n] still to go. *)
Inductive monitoring := MTop | MCheck | MSleep (n : nat) | MDone.

Inductive owner := OWorker (i : nat) | OTimer.

#[export] Instance timer_eq_dec : EqDecision timer.
Proof. solve_decision. Defined.
#[export] Instance socket_eq_dec : EqDecision socket.
Proof. solve_decision. Defined.

(** [struct monitor] (without the array of monitors), the program points of the threads, the number of contexts, whether [skynet_socket_exit] has been called and
    whether a SIGHUP has come. *)
Record threads := MkThreads {
  m_count : Z;
  m_sleep : Z;
  m_quit : bool;
  m_mutex : option owner;
  t_workers : list worker;
  t_timer : timer;
  t_socket : socket;
  t_monitor : monitoring;
  n_total : Z;
  n_exit : bool;
  n_sig : bool;
}.

Definition set_monitor (w : threads) (sleep : Z) (quit : bool) (mutex : option owner) (workers : list worker) : threads :=
  MkThreads (m_count w) sleep quit mutex workers (t_timer w) (t_socket w) (t_monitor w) (n_total w) (n_exit w) (n_sig w).
Definition set_workers (w : threads) (workers : list worker) : threads := set_monitor w (m_sleep w) (m_quit w) (m_mutex w) workers.
Definition set_timer (w : threads) (t : timer) : threads :=
  MkThreads (m_count w) (m_sleep w) (m_quit w) (m_mutex w) (t_workers w) t (t_socket w) (t_monitor w) (n_total w) (n_exit w) (n_sig w).
Definition set_socket (w : threads) (s : socket) : threads :=
  MkThreads (m_count w) (m_sleep w) (m_quit w) (m_mutex w) (t_workers w) (t_timer w) s (t_monitor w) (n_total w) (n_exit w) (n_sig w).
Definition set_monitoring (w : threads) (m : monitoring) : threads :=
  MkThreads (m_count w) (m_sleep w) (m_quit w) (m_mutex w) (t_workers w) (t_timer w) (t_socket w) m (n_total w) (n_exit w) (n_sig w).
Definition set_node (w : threads) (total : Z) (exit sig : bool) : threads :=
  MkThreads (m_count w) (m_sleep w) (m_quit w) (m_mutex w) (t_workers w) (t_timer w) (t_socket w) (t_monitor w) total exit sig.

(** [CHECK_ABORT]. *)
Definition check_abort (w : threads) : bool := n_total w =? 0.

(** ** Waking *)

(** [pthread_cond_signal]: [pick] is the thread that wakes up, if any waits. *)
Definition cond_signal (pick : nat) (w : threads) : option threads :=
  match t_workers w !! pick with
  | Some WWaiting => Some (set_workers w (<[pick := WWoken]> (t_workers w)))
  | _ => if existsb (fun p => match p with WWaiting => true | _ => false end) (t_workers w) then None else Some w
  end.

Definition cond_broadcast (w : threads) : threads := set_workers w (map (fun p => match p with WWaiting => WWoken | p => p end) (t_workers w)).

(** Whether [wakeup] signals: the test does not have the mutex. *)
Definition wakeup (busy : Z) (w : threads) : bool := m_count w - busy <=? m_sleep w.

(** ** The threads *)

(** A step of worker [i]; [found] is whether [skynet_context_message_dispatch] gives a queue.  [None] is a thread that waits, or has ended. *)
Definition thread_worker (i : nat) (found : bool) (w : threads) : option threads :=
  let! p := t_workers w !! i in
  let go p := <[i := p]> (t_workers w) in
  match p with
  | WLoop => Some (set_workers w (go (if m_quit w then WDone else WDispatch)))
  | WDispatch => Some (set_workers w (go (if found then WLoop else WLock)))
  | WLock => match m_mutex w with None => Some (set_monitor w (m_sleep w) (m_quit w) (Some (OWorker i)) (go WCounting)) | Some _ => None end
  | WCounting => Some (set_monitor w (m_sleep w + 1) (m_quit w) (m_mutex w) (go WDeciding))
  | WDeciding => if m_quit w then Some (set_workers w (go WWaking)) else Some (set_monitor w (m_sleep w) (m_quit w) None (go WWaiting))
  | WWaiting => None
  | WWoken => match m_mutex w with None => Some (set_monitor w (m_sleep w) (m_quit w) (Some (OWorker i)) (go WWaking)) | Some _ => None end
  | WWaking => Some (set_monitor w (m_sleep w - 1) (m_quit w) (m_mutex w) (go WUnlocking))
  | WUnlocking => Some (set_monitor w (m_sleep w) (m_quit w) None (go WLoop))
  | WDone => None
  end.

(** [signal_hup] sends the logger a message, in the step from [TSleep] to [TClear]. *)
Definition thread_timer (pick : nat) (w : threads) : option threads :=
  match t_timer w with
  | TUpdate => Some (set_timer w TCheck)
  | TCheck => Some (set_timer w (if check_abort w then TExit else TWake))
  | TWake => Some (set_timer w (if wakeup (m_count w - 1) w then TSignal else TSleep))
  | TSignal => let! w := cond_signal pick w in Some (set_timer w TSleep)
  | TSleep => Some (set_timer w (if n_sig w then TClear else TUpdate))
  | TClear => Some (set_timer (set_node w (n_total w) (n_exit w) false) TUpdate)
  | TExit => Some (set_timer (set_node w (n_total w) true (n_sig w)) TLock)
  | TLock => match m_mutex w with None => Some (set_timer (set_monitor w (m_sleep w) (m_quit w) (Some OTimer) (t_workers w)) TQuit) | Some _ => None end
  | TQuit => Some (set_timer (set_monitor w (m_sleep w) true (m_mutex w) (t_workers w)) TBroadcast)
  | TBroadcast => Some (set_timer (cond_broadcast w) TUnlock)
  | TUnlock => Some (set_timer (set_monitor w (m_sleep w) (m_quit w) None (t_workers w)) TDone)
  | TDone => None
  end.

(** [r] is the result of [skynet_socket_poll]. *)
Definition thread_socket (r : Z) (pick : nat) (w : threads) : option threads :=
  match t_socket w with
  | SPoll => Some (set_socket w (if r =? 0 then SDone else if r <? 0 then SCheck else SWake))
  | SCheck => Some (set_socket w (if check_abort w then SDone else SPoll))
  | SWake => Some (set_socket w (if wakeup 0 w then SSignal else SPoll))
  | SSignal => let! w := cond_signal pick w in Some (set_socket w SPoll)
  | SDone => None
  end.

Definition thread_monitor (w : threads) : option threads :=
  match t_monitor w with
  | MTop => Some (set_monitoring w (if check_abort w then MDone else MCheck))
  | MCheck => Some (set_monitoring w (MSleep 5))
  | MSleep O => Some (set_monitoring w MTop)
  | MSleep (S n) => Some (set_monitoring w (if check_abort w then MDone else MSleep n))
  | MDone => None
  end.

(** ** The process *)

(** [handle_hup]; the number of contexts changes with what the services do. *)
Inductive step (w : threads) : threads -> Prop :=
  | step_worker i found w' : thread_worker i found w = Some w' -> step w w'
  | step_timer pick w' : thread_timer pick w = Some w' -> step w w'
  | step_socket r pick w' : thread_socket r pick w = Some w' -> (r = 0 -> n_exit w = true) -> step w w'
  | step_monitor w' : thread_monitor w = Some w' -> step w w'
  | step_spurious i : t_workers w !! i = Some WWaiting -> step w (set_workers w (<[i := WWoken]> (t_workers w)))
  | step_services total : 0 <= total -> step w (set_node w total (n_exit w) (n_sig w))
  | step_handle_hup : step w (set_node w (n_total w) (n_exit w) true).

(** The weights of the workers. *)
Definition weights : list Z := [-1; -1; -1; -1; 0; 0; 0; 0; 1; 1; 1; 1; 1; 1; 1; 1; 2; 2; 2; 2; 2; 2; 2; 2; 3; 3; 3; 3; 3; 3; 3; 3].
Definition weight (i : nat) : Z := default 0 (weights !! i).

(** The threads [start] creates; it returns when all have ended. *)
Definition start (thread : nat) (total : Z) : threads := MkThreads (Z.of_nat thread) 0 false None (replicate thread WLoop) TUpdate SPoll MTop total false false.

Definition ended (w : threads) : bool :=
  forallb (fun p => match p with WDone => true | _ => false end) (t_workers w) &&
  match t_timer w, t_socket w, t_monitor w with TDone, SDone, MDone => true | _, _, _ => false end.

Inductive reachable (thread : nat) (total : Z) : threads -> Prop :=
  | reach_start : reachable thread total (start thread total)
  | reach_step w w' : reachable thread total w -> step w w' -> reachable thread total w'.
