(* ===== verification/StartSpec.v ===== *)
(** * What the threads of a process keep true

    The invariant of the mutex, of the count of sleeping workers and of the way to the end: that a tick of the timer wakes a sleeping worker when all sleep,
    and that once the timer has made the process quit no worker sleeps again and each comes to its end. *)

From S2P Require Import Prelude Sums Start.

(** ** The invariant *)

(** The worker has added itself to [sleep]. *)
Definition asleep (p : worker) : Z := match p with WDeciding | WWaiting | WWoken | WWaking => 1 | _ => 0 end.
Definition locks (p : worker) : bool := match p with WCounting | WDeciding | WWaking | WUnlocking => true | _ => false end.
Definition locks_timer (t : timer) : bool := match t with TQuit | TBroadcast | TUnlock => true | _ => false end.
Definition quitting (t : timer) : bool := match t with TBroadcast | TUnlock | TDone => true | _ => false end.
Definition exited (t : timer) : bool := match t with TLock | TQuit | TBroadcast | TUnlock | TDone => true | _ => false end.
Definition broadcast (t : timer) : bool := match t with TUnlock | TDone => true | _ => false end.

Record consistent (w : threads) : Prop := {
  con_count : m_count w = Z.of_nat (length (t_workers w));
  con_sleep : m_sleep w = sum asleep (t_workers w);
  con_worker i p : t_workers w !! i = Some p -> locks p = true <-> m_mutex w = Some (OWorker i);
  con_owner i : m_mutex w = Some (OWorker i) -> (i < length (t_workers w))%nat;
  con_timer : locks_timer (t_timer w) = true <-> m_mutex w = Some OTimer;
  con_quit : m_quit w = quitting (t_timer w);
  con_exit : n_exit w = exited (t_timer w);
  con_awake i : broadcast (t_timer w) = true -> t_workers w !! i <> Some WWaiting;
}.

(** What a step of worker [i] from [p] to [q] may do to the mutex. *)
Definition relocks (i : nat) (p q : worker) (before after : option owner) : Prop :=
  (locks p = locks q /\ after = before) \/ (locks p = false /\ locks q = true /\ before = None /\ after = Some (OWorker i)) \/
  (locks p = true /\ locks q = false /\ after = None).

Lemma consistent_move w i p q sleep quit mutex : consistent w -> t_workers w !! i = Some p -> sleep = m_sleep w - asleep p + asleep q ->
  relocks i p q (m_mutex w) mutex -> quit = m_quit w ->
  (q = WWaiting -> quit = false) -> consistent (set_monitor w sleep quit mutex (<[i := q]> (t_workers w))).
Proof.
  intros [C S W O T Q X A] E -> M -> F. pose proof (lookup_lt_Some _ _ _ E) as L. pose proof (W _ _ E) as Wi.
  constructor; simpl; rewrite ?length_insert; try done.
  - rewrite (sum_insert _ _ _ _ _ E). lia.
  - intros j r Ej. destruct (decide (i = j)) as [->|N].
    + rewrite list_lookup_insert_eq in Ej by done. simplify_eq. unfold relocks in M. naive_solver congruence.
    + rewrite list_lookup_insert_ne in Ej by done. specialize (W _ _ Ej). unfold relocks in M.
      destruct M as [[_ ->]|[(?&?&B&->)|(B&?&->)]]; [done| |]; rewrite W; [naive_solver congruence|].
      apply Wi in B. rewrite B. naive_solver congruence.
  - intros j Ej. unfold relocks in M. naive_solver congruence.
  - rewrite T. unfold relocks in M. naive_solver congruence.
  - intros j B Ej. destruct (decide (i = j)) as [->|N].
    + rewrite list_lookup_insert_eq in Ej by done. simplify_eq. specialize (F eq_refl). rewrite Q in F. by destruct (t_timer w).
    + rewrite list_lookup_insert_ne in Ej by done. by apply (A j).
Qed.

Lemma consistent_wake w i : consistent w -> t_workers w !! i = Some WWaiting -> consistent (set_workers w (<[i := WWoken]> (t_workers w))).
Proof. intros C E. apply (consistent_move w i WWaiting WWoken); simpl; [done|done|lia|by left|done|done]. Qed.

Lemma signal_wakes pick w w' : cond_signal pick w = Some w' ->
  (w' = w /\ forall i, t_workers w !! i <> Some WWaiting) \/ (t_workers w !! pick = Some WWaiting /\ w' = set_workers w (<[pick := WWoken]> (t_workers w))).
Proof.
  unfold cond_signal. intros H. assert (D : t_workers w !! pick = Some WWaiting \/
    (if existsb (fun p => match p with WWaiting => true | _ => false end) (t_workers w) then None else Some w) = Some w').
  { destruct (t_workers w !! pick) as [[]|]; auto. }
  destruct D as [D|D]; [rewrite D in H; simplify_eq; auto|]. destruct (existsb _ _) eqn:Ex; [done|]. simplify_eq. left. split; [done|].
  intros i E. apply list_elem_of_lookup_2 in E. apply not_true_iff_false in Ex. apply Ex, existsb_exists. exists WWaiting. split; [|done].
  by apply list_elem_of_In.
Qed.

Lemma consistent_signal pick w w' : consistent w -> cond_signal pick w = Some w' -> consistent w'.
Proof. intros C H. destruct (signal_wakes _ _ _ H) as [[-> _]|[E ->]]; [done|by apply consistent_wake]. Qed.

Lemma consistent_worker w i found w' : consistent w -> thread_worker i found w = Some w' -> consistent w'.
Proof.
  intros C H. unfold thread_worker in H. destruct (t_workers w !! i) as [p|] eqn:E; [|done].
  destruct p; simplify_eq/=; repeat case_match; simplify_eq; unfold set_workers; eapply (consistent_move w i _ _ _ _ _ C E); simpl; try lia; try done;
    try (left; done); try (right; right; done); right; left; auto.
Qed.

(** The steps of the other threads change the workers only by waking them. *)
Definition wakes (p : worker) : worker := match p with WWaiting => WWoken | p => p end.

Lemma wakes_waiting l i : map wakes l !! i <> Some WWaiting.
Proof. change (map wakes l) with (wakes <$> l). rewrite list_lookup_fmap. intros E. apply fmap_Some in E as (p & _ & E). by destruct p. Qed.

Lemma consistent_broadcast w : consistent w -> consistent (cond_broadcast w).
Proof.
  intros [C S W O T Q X A]. unfold cond_broadcast. constructor; simpl; rewrite ?length_map; try done.
  - rewrite S. symmetry. apply sum_map. by intros [].
  - intros i p E. change ((wakes <$> t_workers w) !! i = Some p) in E. rewrite list_lookup_fmap in E.
    apply fmap_Some in E as (r & E & ->). rewrite <- (W _ _ E). by destruct r.
  - intros i _. apply wakes_waiting.
Qed.

Lemma consistent_timer w t total exit sig : consistent w -> locks_timer t = locks_timer (t_timer w) -> quitting t = quitting (t_timer w) -> exit = exited t ->
  (broadcast t = true -> broadcast (t_timer w) = true \/ forall i, t_workers w !! i <> Some WWaiting) -> consistent (set_timer (set_node w total exit sig) t).
Proof.
  intros [C S W O T Q X A] L Eq -> B. constructor; simpl; rewrite ?L; try done; try congruence.
  - intros i Bt. destruct (B Bt); [by apply A|done].
Qed.

(** The steps of the timer that have to do with the end. *)
Lemma consistent_timer_end pick w w' : consistent w -> exited (t_timer w) = true -> thread_timer pick w = Some w' -> consistent w'.
Proof.
  intros C X H. pose proof (consistent_broadcast w C) as [_ _ _ _ _ _ _ _]. unfold thread_timer in H. destruct (t_timer w) eqn:Et; try done.
  - destruct (m_mutex w) eqn:Em; [done|]. simplify_eq. destruct C as [C S W O T Q X' A]. rewrite Et, Em in *. constructor; simpl; try done.
    intros i p E. rewrite (W _ _ E). naive_solver congruence.
  - simplify_eq. destruct C as [C S W O T Q X' A]. rewrite Et in *. constructor; simpl; try done.
  - simplify_eq. apply (consistent_timer (cond_broadcast w)); simpl; rewrite ?Et; try done.
    + by apply consistent_broadcast.
    + rewrite (con_exit _ C). by rewrite Et.
    + intros _. right. intros i. apply wakes_waiting.
  - simplify_eq. destruct C as [C S W O T Q X' A]. rewrite Et in *. pose proof (proj1 T eq_refl) as M. constructor; simpl; try done.
    intros i p E. rewrite (W _ _ E), M. done.
Qed.

Lemma consistent_thread_timer pick w w' : consistent w -> thread_timer pick w = Some w' -> consistent w'.
Proof.
  intros C H. destruct (exited (t_timer w)) eqn:X; [by eapply consistent_timer_end|]. pose proof (con_exit _ C) as Xw. rewrite X in Xw.
  destruct (decide (t_timer w = TSignal)) as [Et|N]; unfold thread_timer in H.
  - rewrite Et in H. destruct (cond_signal pick w) as [w1|] eqn:Es; [|done]. simplify_eq. pose proof (consistent_signal _ _ _ C Es) as C1.
    assert (t_timer w1 = TSignal /\ n_exit w1 = false) as [Et1 Xw1] by (destruct (signal_wakes _ _ _ Es) as [[-> _]|[_ ->]]; done).
    by apply (consistent_timer w1); rewrite ?Et1.
  - destruct (t_timer w) eqn:Et; try done; simplify_eq; repeat case_match; apply (consistent_timer w); simpl; rewrite ?Et; congruence || done.
Qed.

Lemma consistent_others w total sig s m : consistent w ->
  consistent (set_monitoring (set_socket (set_node w total (n_exit w) sig) s) m).
Proof. intros [C S W O T Q X A]. constructor; simpl; done. Qed.

Lemma consistent_step w w' : consistent w -> step w w' -> consistent w'.
Proof.
  intros C [i found w1 H|pick w1 H|r pick w1 H _|w1 H|i E|total _|].
  - by eapply consistent_worker.
  - by eapply consistent_thread_timer.
  - unfold thread_socket in H. destruct (t_socket w); try done; try (simplify_eq; apply (consistent_others w (n_total w) (n_sig w) _ (t_monitor w) C)).
    destruct (cond_signal pick w) as [w2|] eqn:Es; [|done]. simplify_eq.
    apply (consistent_others w2 (n_total w2) (n_sig w2) _ (t_monitor w2)). by eapply consistent_signal.
  - unfold thread_monitor in H. destruct (t_monitor w) as [| |[]|]; simplify_eq; apply (consistent_others w (n_total w) (n_sig w) (t_socket w) _ C).
  - by apply consistent_wake.
  - apply (consistent_others w total (n_sig w) (t_socket w) (t_monitor w) C).
  - apply (consistent_others w (n_total w) true (t_socket w) (t_monitor w) C).
Qed.

Lemma sum_loop n : sum asleep (replicate n WLoop) = 0.
Proof. induction n; [done|]. unfold sum in *. simpl. lia. Qed.

Lemma consistent_start thread total : consistent (start thread total).
Proof.
  constructor; simpl; try done.
  - by rewrite length_replicate.
  - by rewrite sum_loop.
  - intros i p E. apply lookup_replicate in E as [-> _]. done.
Qed.

Lemma reachable_consistent thread total w : reachable thread total w -> consistent w.
Proof. induction 1; [apply consistent_start|by eapply consistent_step]. Qed.

(** ** Waking *)

Lemma asleep_range p : 0 <= asleep p <= 1.
Proof. destruct p; simpl; lia. Qed.

Lemma asleep_all l : sum asleep l <= Z.of_nat (length l) /\ (Z.of_nat (length l) <= sum asleep l <-> forall i p, l !! i = Some p -> asleep p = 1).
Proof.
  induction l as [|p l [B IH]]; [done|]. unfold sum in *. simpl. pose proof (asleep_range p). split; [lia|]. split.
  - intros L [|i] q E; simplify_eq/=; [lia|]. apply (proj1 IH) with i; [lia|done].
  - intros A. pose proof (A 0%nat p eq_refl). assert (Z.of_nat (length l) <= foldr (fun x a => asleep x + a) 0 l) by (apply IH; intros i q E; by apply (A (S i))). lia.
Qed.

Lemma signal_picks w i : t_workers w !! i = Some WWaiting -> cond_signal i w = Some (set_workers w (<[i := WWoken]> (t_workers w))).
Proof. unfold cond_signal. by intros ->. Qed.

(** C21: A tick of the timer reaches a sleeping worker, and a socket message one when all sleep.  In every state the threads can reach: when a worker waits
    on the condition variable, the test of [wakeup(m, m->count - 1)] succeeds, so that the timer goes on to the signal, the signal can be given, and each way
    to give it takes a waiting worker, and only this one, out of the wait (the wake up that a worker misses between an empty queue and its wait comes with the next tick); and the test of the
    socket thread, [wakeup(m, 0)], succeeds exactly when every worker has counted itself as sleeping. *)
Theorem tick_wakes_worker thread total w : reachable thread total w ->
  (forall i, t_workers w !! i = Some WWaiting ->
    (t_timer w = TWake -> forall pick, thread_timer pick w = Some (set_timer w TSignal)) /\
    (t_timer w = TSignal -> is_Some (thread_timer i w) /\
      forall pick w', thread_timer pick w = Some w' -> t_workers w !! pick = Some WWaiting /\ t_workers w' = <[pick := WWoken]> (t_workers w))) /\
  (wakeup 0 w = true <-> forall i p, t_workers w !! i = Some p -> asleep p = 1).
Proof.
  intros R. pose proof (reachable_consistent _ _ _ R) as C. split.
  - intros i E. split.
    + intros Et pick. unfold thread_timer. rewrite Et. unfold wakeup. rewrite (con_sleep _ C).
      pose proof (sum_at asleep _ _ _ (fun p => proj1 (asleep_range p)) E) as L. simpl in L. destruct (Z.leb_spec (m_count w - (m_count w - 1)) (sum asleep (t_workers w))); [done|lia].
    + intros Et. unfold thread_timer. rewrite Et. split; [by rewrite (signal_picks _ _ E)|]. intros pick w' H.
      destruct (cond_signal pick w) as [w1|] eqn:Es; [|done]. simplify_eq. destruct (signal_wakes _ _ _ Es) as [[_ N]|[Ep ->]]; [by destruct (N i)|done].
  - unfold wakeup. rewrite (con_sleep _ C), (con_count _ C), Z.leb_le. rewrite <- (proj2 (asleep_all (t_workers w))). lia.
Qed.

(** ** The way to the end *)

(** How far a worker is from its end, when it does not go on to another dispatch. *)
Definition work (p : worker) : Z :=
  match p with WDone => 0 | WLoop => 1 | WUnlocking => 2 | WWaking => 3 | WWoken => 4 | WWaiting => 5 | WDeciding => 6 | WCounting => 7 | WLock => 8 | WDispatch => 9 end.
Definition work_timer (t : timer) : Z :=
  match t with TDone => 0 | TUnlock => 1 | TBroadcast => 2 | TQuit => 3 | TLock => 4 | TExit => 5 | TCheck => 6 | TUpdate => 7 | TClear => 8 | TSleep => 9 | TSignal => 10 | TWake => 11 end.
Definition work_socket (s : socket) : Z := match s with SDone => 0 | SCheck => 1 | SPoll => 2 | SSignal => 3 | SWake => 4 end.
Definition work_monitor (m : monitoring) : Z := match m with MDone => 0 | MTop => 1 | MSleep O => 2 | MSleep (S _) => 3 | MCheck => 4 end.
Definition workers_work (w : threads) : Z := sum work (t_workers w).
Definition work_left (w : threads) : Z := workers_work w + work_timer (t_timer w) + work_socket (t_socket w) + work_monitor (t_monitor w).

Lemma work_pos p : 0 <= work p.
Proof. by destruct p. Qed.

Lemma worker_works w i p found w' : t_workers w !! i = Some p -> (p = WLoop -> m_quit w = true) -> thread_worker i found w = Some w' ->
  workers_work w' < workers_work w /\ work_left w' < work_left w /\ n_total w' = n_total w /\ t_timer w' = t_timer w.
Proof.
  intros E Q H. unfold thread_worker in H. rewrite E in H. unfold work_left, workers_work.
  destruct p; simplify_eq/=; try rewrite (Q eq_refl) in *; repeat case_match; simplify_eq/=; rewrite (sum_insert _ _ _ _ _ E); simpl; repeat split; lia.
Qed.

(** The worker that has the mutex can go on, and any worker that is not waiting can when nobody has it. *)
Lemma worker_goes_on w i p : consistent w -> t_workers w !! i = Some p -> p <> WDone -> p <> WWaiting -> (m_mutex w = None \/ m_mutex w = Some (OWorker i)) ->
  forall found, is_Some (thread_worker i found w).
Proof.
  intros C E D N M found. pose proof (con_worker _ C _ _ E) as L. unfold thread_worker. rewrite E.
  destruct M as [M|M]; destruct p; simpl; rewrite ?M; try done; try (by case_match); by specialize (proj2 L M).
Qed.

(** A step to the end, with no service left. *)
Definition stops (w w' : threads) : Prop := step w w' /\ n_total w' = 0.

Lemma worker_stops w i p found w' : n_total w = 0 -> t_workers w !! i = Some p -> (p = WLoop -> m_quit w = true) -> thread_worker i found w = Some w' ->
  stops w w' /\ work_left w' < work_left w.
Proof. intros Z E Q H. destruct (worker_works _ _ _ _ _ E Q H) as (_&L&T&_). split; [|done]. split; [by eapply step_worker|lia]. Qed.

Lemma holder_stops w i : consistent w -> n_total w = 0 -> m_mutex w = Some (OWorker i) -> exists w', stops w w' /\ work_left w' < work_left w.
Proof.
  intros C Z M. destruct (lookup_lt_is_Some_2 _ _ (con_owner _ C _ M)) as [p E]. pose proof (proj2 (con_worker _ C _ _ E) M) as L.
  destruct (worker_goes_on w i p C E) with (found := false) as [w' H]; [by destruct p..|by right|]. exists w'. apply (worker_stops w i p false); try done. by destruct p.
Qed.

Lemma signal_can w : exists pick w', cond_signal pick w = Some w' /\ workers_work w' <= workers_work w /\ n_total w' = n_total w /\ t_socket w' = t_socket w /\ t_monitor w' = t_monitor w.
Proof.
  destruct (existsb (fun p => match p with WWaiting => true | _ => false end) (t_workers w)) eqn:Ex.
  - apply existsb_exists in Ex as (p & I & P). apply list_elem_of_In, list_elem_of_lookup_1 in I as [i E]. destruct p; try done.
    eexists i, _. split; [by apply signal_picks|]. unfold workers_work. simpl. rewrite (sum_insert _ _ _ _ _ E). simpl. repeat split; lia.
  - exists (length (t_workers w)), w. unfold cond_signal. rewrite Ex, lookup_ge_None_2 by lia. repeat split; lia.
Qed.

Lemma timer_stops w : consistent w -> n_total w = 0 -> t_timer w <> TDone -> exists w', stops w w' /\ work_left w' < work_left w.
Proof.
  intros C Z N. destruct (decide (t_timer w = TSignal)) as [Et|N1].
  { destruct (signal_can w) as (pick & w1 & Es & L & T & So & Mo). exists (set_timer w1 TSleep). split.
    - split; [|simpl; congruence]. apply (step_timer w pick). unfold thread_timer. by rewrite Et, Es.
    - unfold work_left in *. change (workers_work (set_timer w1 TSleep)) with (workers_work w1). simpl. rewrite Et, So, Mo. simpl. lia. }
  assert (B : workers_work (cond_broadcast w) <= workers_work w).
  { unfold workers_work, cond_broadcast. simpl. clear. induction (t_workers w) as [|p l IH]; [done|]. unfold sum in *. simpl. destruct p; simpl; lia. }
  assert (A : check_abort w = true) by (unfold check_abort; lia).
  destruct (decide (t_timer w = TLock /\ m_mutex w <> None)) as [[Et M]|N2].
  { destruct (m_mutex w) as [[i|]|] eqn:Em; [by apply (holder_stops w i)| |done]. apply (con_timer _ C) in Em. by rewrite Et in Em. }
  assert (exists w', thread_timer 0 w = Some w' /\ n_total w' = 0 /\ work_left w' < work_left w) as (w' & H & T & L).
  { unfold thread_timer, work_left in *. rewrite A. destruct (t_timer w) eqn:Et; try done; repeat case_match; try (destruct N2; done);
      (eexists; split; [reflexivity|]; split; [done|]; unfold workers_work in *; simpl in *; lia). }
  exists w'. split; [|done]. split; [by apply (step_timer w 0)|done].
Qed.

Lemma worker_left w : consistent w -> t_timer w = TDone ->
  (forall i p, t_workers w !! i = Some p -> p = WDone) \/ exists i p, t_workers w !! i = Some p /\ forall found, is_Some (thread_worker i found w).
Proof.
  intros C Et. destruct (m_mutex w) as [[i|]|] eqn:Em.
  - right. destruct (lookup_lt_is_Some_2 _ _ (con_owner _ C _ Em)) as [p E]. exists i, p. split; [done|].
    pose proof (proj2 (con_worker _ C _ _ E) Em). apply (worker_goes_on w i p C E); [by destruct p..|by right].
  - apply (con_timer _ C) in Em. by rewrite Et in Em.
  - destruct (decide (Forall (fun p => work p = 0) (t_workers w))) as [A|A].
    + left. intros i p E. rewrite Forall_lookup in A. specialize (A _ _ E). by destruct p.
    + right. apply not_Forall_Exists in A; [|intros p; apply _]. apply Exists_exists in A as (p & I & N). apply list_elem_of_lookup_1 in I as [i E].
      exists i, p. split; [done|]. apply (worker_goes_on w i p C E); [intros ->; by apply N| |by left].
      intros ->. apply (con_awake _ C i); [by rewrite Et|done].
Qed.

Lemma workers_stop w : consistent w -> n_total w = 0 -> t_timer w = TDone ->
  (forall i p, t_workers w !! i = Some p -> p = WDone) \/ exists w', stops w w' /\ work_left w' < work_left w.
Proof.
  intros C Z Et. pose proof (con_quit _ C) as Q. rewrite Et in Q. destruct (worker_left w C Et) as [|(i & p & E & H)]; [by left|].
  right. destruct (H false) as [w' H']. exists w'. by apply (worker_stops w i p false).
Qed.

Lemma others_stop w : consistent w -> n_total w = 0 -> t_timer w = TDone -> t_socket w <> SDone \/ t_monitor w <> MDone ->
  exists w', stops w w' /\ work_left w' < work_left w.
Proof.
  intros C Z Et N. assert (A : check_abort w = true) by (unfold check_abort; lia). unfold stops, work_left, workers_work.
  destruct (decide (work_socket (t_socket w) = 0)) as [So|So].
  - assert (Mo : t_monitor w <> MDone) by (destruct N; [by destruct (t_socket w)|done]).
    assert (exists w', thread_monitor w = Some w' /\ work_monitor (t_monitor w') < work_monitor (t_monitor w) /\ w' = set_monitoring w (t_monitor w')) as (w' & H & L & Ew).
    { unfold thread_monitor. rewrite A. destruct (t_monitor w) as [| |[]|]; try done; (eexists; split; [reflexivity|]; split; [simpl; lia|done]). }
    exists w'. split; [split; [by apply step_monitor|by rewrite Ew]|]. rewrite Ew. simpl. lia.
  - destruct (decide (t_socket w = SSignal)) as [Es|Ns].
    + destruct (signal_can w) as (pick & w1 & Hs & L & T & So1 & Mo1). exists (set_socket w1 SPoll). split; [split|].
      * apply (step_socket w 1 pick); [|lia]. unfold thread_socket. by rewrite Es, Hs.
      * simpl. lia.
      * destruct (signal_wakes _ _ _ Hs) as [[-> _]|[_ ->]]; unfold workers_work in L; simpl in *; rewrite Es; simpl; lia.
    + assert (exists w', thread_socket (-1) 0 w = Some w' /\ work_socket (t_socket w') < work_socket (t_socket w) /\ w' = set_socket w (t_socket w')) as (w' & H & L & Ew).
      { unfold thread_socket. rewrite A. destruct (t_socket w); try done; (eexists; split; [reflexivity|]; split; [|done]); simpl; repeat case_match; simpl; lia. }
      exists w'. split; [split; [by apply (step_socket w (-1) 0); [|lia]|by rewrite Ew]|]. rewrite Ew. simpl. lia.
Qed.

(** C15: Once the timer has made the process quit, every worker comes to its end.  In every state the threads can reach in which the timer thread has ended: no worker
    waits on the condition variable; while a worker is left, one of them can take a step whatever its dispatch finds (no wake up is lost and nobody keeps the mutex); and each step of
    the process leaves the timer ended and either does not change the workers or brings them nearer to their end by the measure [workers_work], so that the workers take only
    finitely many steps more. *)
Theorem quit_ends_workers thread total w : reachable thread total w -> t_timer w = TDone ->
  (forall i, t_workers w !! i <> Some WWaiting) /\
  (forall found, (forall i p, t_workers w !! i = Some p -> p = WDone) \/ exists i, is_Some (thread_worker i found w)) /\
  (forall i found w', thread_worker i found w = Some w' -> 0 <= workers_work w' < workers_work w) /\
  (forall w', step w w' -> t_timer w' = TDone /\ (t_workers w' = t_workers w \/ workers_work w' < workers_work w)).
Proof.
  intros R Et. pose proof (reachable_consistent _ _ _ R) as C. pose proof (con_quit _ C) as Q. rewrite Et in Q.
  assert (N : forall i, t_workers w !! i <> Some WWaiting) by (intros i; apply (con_awake _ C); by rewrite Et).
  assert (W : forall i found w', thread_worker i found w = Some w' -> t_timer w' = TDone /\ 0 <= workers_work w' < workers_work w).
  { intros i found w' H. destruct (t_workers w !! i) as [p|] eqn:E; [|by unfold thread_worker in H; rewrite E in H].
    destruct (worker_works _ _ _ _ _ E (fun _ => Q) H) as (L&_&_&T). rewrite T. split; [done|]. split; [|done]. apply sum_pos, work_pos. }
  assert (S : forall pick w1, cond_signal pick w = Some w1 -> w1 = w).
  { intros pick w1 Es. destruct (signal_wakes _ _ _ Es) as [[-> _]|[E _]]; [done|by destruct (N pick)]. }
  split; [done|]. split; [|split].
  - intros found. destruct (worker_left w C Et) as [|(i & p & _ & H)]; [by left|right; eauto].
  - intros i found w' H. by apply (W i found w').
  - intros w' [i found w1 H|pick w1 H|r pick w1 H _|w1 H|i E|n _|]; try (split; [done|by left]).
    + destruct (W _ _ _ H). split; [done|right; lia].
    + unfold thread_timer in H. by rewrite Et in H.
    + unfold thread_socket in H. destruct (t_socket w); try done; simplify_eq; try (split; [done|by left]).
      destruct (cond_signal pick w) as [w2|] eqn:Es; [|done]. apply S in Es as ->. simplify_eq. split; [done|by left].
    + unfold thread_monitor in H. destruct (t_monitor w) as [| |[]|]; simplify_eq; (split; [done|by left]).
    + by destruct (N i).
Qed.

Lemma work_left_pos w : 0 <= work_left w.
Proof.
  unfold work_left, workers_work. pose proof (sum_pos work (t_workers w) work_pos).
  assert (0 <= work_timer (t_timer w)) by (by destruct (t_timer w)). assert (0 <= work_socket (t_socket w)) by (by destruct (t_socket w)).
  assert (0 <= work_monitor (t_monitor w)) by (by destruct (t_monitor w) as [| |[]|]). lia.
Qed.

Lemma stops_or_ended w : consistent w -> n_total w = 0 -> ended w = true \/ exists w', stops w w' /\ work_left w' < work_left w.
Proof.
  intros C Z. destruct (decide (t_timer w = TDone)) as [Et|]; [|right; by apply timer_stops].
  destruct (workers_stop w C Z Et) as [D|]; [|by right].
  destruct (decide (work_socket (t_socket w) = 0)) as [So|So]; [|right; apply others_stop; try done; left; by intros E; rewrite E in So].
  destruct (decide (work_monitor (t_monitor w) = 0)) as [Mo|Mo]; [|right; apply others_stop; try done; right; by intros E; rewrite E in Mo].
  left. unfold ended. rewrite Et. apply andb_true_iff. split; [|by destruct (t_socket w), (t_monitor w) as [| |[]|]].
  apply forallb_forall. intros p I. apply list_elem_of_In, list_elem_of_lookup_1 in I as [i E]. by rewrite (D _ _ E).
Qed.


(** ** Examples *)

Inductive event := EWorker (i : nat) (found : bool) | ETimer | EServices (n : Z).

Definition take_event (e : event) (w : threads) : option threads :=
  match e with
  | EWorker i found => thread_worker i found w
  | ETimer => thread_timer 0 w
  | EServices n => if 0 <=? n then Some (set_node w n (n_exit w) (n_sig w)) else None
  end.

Fixpoint run_events (l : list event) (w : threads) : option threads :=
  match l with [] => Some w | e :: l => let! w := take_event e w in run_events l w end.

Lemma run_reachable thread total l w' : run_events l (start thread total) = Some w' -> reachable thread total w'.
Proof.
  assert (G : forall w, reachable thread total w -> run_events l w = Some w' -> reachable thread total w'); [|apply G, reach_start].
  induction l as [|e l IH]; simpl; intros w R H; [by simplify_eq|].
  destruct (take_event e w) as [w1|] eqn:E; [|done]. apply (IH w1); [|done]. eapply reach_step; [done|]. destruct e; simpl in E.
  - by eapply step_worker.
  - by eapply step_timer.
  - case_match; simplify_eq. apply step_services. lia.
Qed.

(** Two workers, of which the first finds nothing to do and waits, while the timer comes to its wake up. *)
Definition one_waits : threads := MkThreads 2 1 false None [WWaiting; WLoop] TWake SPoll MTop 3 false false.

Lemma one_waits_reachable : reachable 2 3 one_waits.
Proof. by apply (run_reachable _ _ ([ETimer; ETimer] ++ repeat (EWorker 0 false) 5)). Qed.

Lemma tick_wakes_worker_witness : (forall pick, thread_timer pick one_waits = Some (set_timer one_waits TSignal)) /\ wakeup 0 one_waits = false.
Proof.
  pose proof (tick_wakes_worker 2 3 one_waits one_waits_reachable) as [T W]. split.
  - apply (T 0%nat); reflexivity.
  - reflexivity.
Defined.

(** The same process after its services have ended and the timer has. *)
Definition timer_ended : threads := MkThreads 2 1 true None [WWoken; WLoop] TDone SPoll MTop 0 true false.

Lemma timer_ended_reachable : reachable 2 3 timer_ended.
Proof. by apply (run_reachable _ _ (repeat (EWorker 0 false) 5 ++ [EServices 0] ++ repeat ETimer 7)). Qed.

Lemma quit_ends_workers_witness : exists i, is_Some (thread_worker i false timer_ended).
Proof.
  destruct (quit_ends_workers 2 3 timer_ended timer_ended_reachable eq_refl) as (_ & H & _).
  destruct (H false) as [D|E]; [discriminate (D 1%nat WLoop eq_refl)|exact E].
Defined.

