(* ===== verification/Cluster.v ===== *)
(** * Messages between clusters ([lualib-src/lua-cluster.c])

    Requests and responses to another cluster as strings with a length of two bytes in front; a message of 32K and more is cut into parts, which the other side
    joins.  The functions called from Lua take their arguments from the stack and return the values they push; a block of memory is its bytes. *)

From stdpp Require Import pretty.
From S2P Require Import Prelude CString LuaError Sproto.

Definition TEMP_LENGTH : Z := 0x8200.
Definition MULTI_PART : Z := 0x8000.

(** The values of Lua: [VLight] is a light userdata that points to a block. *)
Inductive value := VNil | VBool (b : bool) | VInt (n : Z) | VStr (s : list Z) | VLight (block : list Z) | VTable (l : list value).

(** [%s] of a string of Lua. *)
Definition c_text (s : list Z) : string :=
  String.string_of_list_ascii (map (fun b => Ascii.ascii_of_N (Z.to_N b)) (default s (until_nul s))).

(** ** Writing *)

Definition fill_uint32 (buf : list Z) (p n : Z) : option (list Z) :=
  let! buf := aset buf p (Z.land n 0xff) in
  let! buf := aset buf (p + 1) (Z.land (Z.shiftr n 8) 0xff) in
  let! buf := aset buf (p + 2) (Z.land (Z.shiftr n 16) 0xff) in
  aset buf (p + 3) (Z.land (Z.shiftr n 24) 0xff).

Definition fill_header (buf : list Z) (sz : Z) : option (list Z) :=
  assert! sz <? 0x10000 ;;
  let! buf := aset buf 0 (Z.land (Z.shiftr sz 8) 0xff) in
  aset buf 1 (Z.land sz 0xff).

(** [memcpy(buf + p, msg + off, sz)]. *)
Definition copy_msg (buf : list Z) (p : Z) (msg : list Z) (off sz : Z) : option (list Z) :=
  let! part := memcpy msg off sz in memcpy_at buf p part.

Definition pushlstring (buf : list Z) (p n : Z) : option value := let! s := memcpy buf p n in Some (VStr s).

(** The string and the number of parts. *)
Definition packreq_number (n session : Z) (msg : list Z) (sz : Z) : option (value * Z) :=
  let addr := u32 n in
  let buf := malloc TEMP_LENGTH in
  if sz <? MULTI_PART then
    let! buf := fill_header buf (sz + 9) in
    let! buf := aset buf 2 0 in
    let! buf := fill_uint32 buf 3 addr in
    let! buf := fill_uint32 buf 7 (u32 session) in
    let! buf := copy_msg buf 11 msg 0 sz in
    let! s := pushlstring buf 0 (sz + 11) in
    Some (s, 0)
  else
    let part := (sz - 1) / MULTI_PART + 1 in
    let! buf := fill_header buf 13 in
    let! buf := aset buf 2 1 in
    let! buf := fill_uint32 buf 3 addr in
    let! buf := fill_uint32 buf 7 (u32 session) in
    let! buf := fill_uint32 buf 11 sz in
    let! s := pushlstring buf 0 15 in
    Some (s, part).

Definition name_ok (name : list Z) : bool := negb (Z.of_nat (length name) <? 1) && negb (255 <? Z.of_nat (length name)).

(** With a name that is one. *)
Definition packreq_name (name : list Z) (session : Z) (msg : list Z) (sz : Z) : option (value * Z) :=
  let namelen := Z.of_nat (length name) in
  let buf := malloc TEMP_LENGTH in
  if sz <? MULTI_PART then
    let! buf := fill_header buf (sz + 6 + namelen) in
    let! buf := aset buf 2 0x80 in
    let! buf := aset buf 3 (u8 namelen) in
    let! buf := memcpy_at buf 4 name in
    let! buf := fill_uint32 buf (4 + namelen) (u32 session) in
    let! buf := copy_msg buf (8 + namelen) msg 0 sz in
    let! s := pushlstring buf 0 (sz + 8 + namelen) in
    Some (s, 0)
  else
    let part := (sz - 1) / MULTI_PART + 1 in
    let! buf := fill_header buf (10 + namelen) in
    let! buf := aset buf 2 0x81 in
    let! buf := aset buf 3 (u8 namelen) in
    let! buf := memcpy_at buf 4 name in
    let! buf := fill_uint32 buf (4 + namelen) (u32 session) in
    let! buf := fill_uint32 buf (8 + namelen) sz in
    let! s := pushlstring buf 0 (12 + namelen) in
    Some (s, part).

(** [lua_tolstring] of the address; the error comes after [skynet_free(msg)]. *)
Definition packreq_string (addr : value) (session : Z) (msg : list Z) (sz : Z) : res (value * Z) :=
  match addr with
  | VStr name => if name_ok name then lift (packreq_name name session msg sz) else Raise (Text ("name is too long " +:+ c_text name))
  | _ => Raise (Text "name is too long (null)")
  end.

(** One part of [packreq_multi]: the string, and what is left of [sz] and [ptr]. *)
Definition multi_body (session : Z) (msg : list Z) (s : list Z * Z * Z * list value) : option (list Z * Z * Z * list value) :=
  let '(buf, sz, ptr, table) := s in
  let (s, kind) := if MULTI_PART <? sz then (MULTI_PART, 2) else (sz, 3) in
  let! buf := aset buf 2 kind in
  let! buf := fill_header buf (s + 5) in
  let! buf := fill_uint32 buf 3 (u32 session) in
  let! buf := copy_msg buf 7 msg ptr s in
  let! v := pushlstring buf 0 (s + 7) in
  Some (buf, sz - s, ptr + s, table ++ [v]).

Definition packreq_multi (session : Z) (msg : list Z) (sz : Z) : option value :=
  let part := (sz - 1) / MULTI_PART + 1 in
  let! (_, _, _, table) := for_loop (Z.to_nat part) 0 (fun _ => multi_body session msg) (malloc TEMP_LENGTH, sz, 0, []) in
  Some (VTable table).

(** What [lpackrequest] returns, and whether it frees the message. *)
Definition packed := (res (list value) * bool)%type.

(** The arguments [session] and [sz] are integers. *)
Definition lpackrequest (addr : value) (session : Z) (msg : value) (sz : Z) : packed :=
  match msg with
  | VLight msg =>
    let sz := u32 sz in
    let session := i32 session in
    if session <=? 0 then (Raise (Text ("Invalid request session " +:+ pretty session)), true) else
    (let* (s, multipak) := match addr with VInt n => lift (packreq_number n session msg sz) | _ => packreq_string addr session msg sz end in
     let current_session := session in
     let* session := int (session + 1) in
     let session := if session <? 0 then 1 else session in
     if multipak =? 0 then Ok [s; VInt session] else
     let* table := lift (packreq_multi current_session msg sz) in
     Ok [s; VInt session; table], true)
  | _ => (Raise (Text "Invalid request message"), false)
  end.

(** ** Reading *)

(** A string of Lua ends with a NUL that does not count. *)
Definition c_string (msg : list Z) : list Z := msg ++ [0].

Definition unpack_uint32 (buf : list Z) (p : Z) : option Z := todword buf p.

Definition invalid_size (sz : Z) : lua_error := Text ("Invalid cluster message (size=" +:+ pretty sz +:+ ")").

Definition unpackreq_number (buf : list Z) (sz : Z) : res (list value) :=
  if sz <? 9 then Raise (invalid_size sz) else
  let* address := lift (unpack_uint32 buf 1) in
  let* session := lift (unpack_uint32 buf 5) in
  let* s := lift (pushlstring buf 9 (sz - 9)) in
  Ok [VInt address; VInt session; s].

Definition unpackmreq_number (buf : list Z) (sz : Z) : res (list value) :=
  if negb (sz =? 13) then Raise (Text ("Invalid cluster message size " +:+ pretty sz +:+ " (multi req must be 13)")) else
  let* address := lift (unpack_uint32 buf 1) in
  let* session := lift (unpack_uint32 buf 5) in
  let* size := lift (unpack_uint32 buf 9) in
  Ok [VInt address; VInt session; VInt size; VBool true].

Definition unpackmreq_part (buf : list Z) (sz : Z) : res (list value) :=
  if sz <? 5 then Raise (Text "Invalid cluster multi part message") else
  let* b := lift (aget buf 0) in
  let padding := b =? 2 in
  let* session := lift (unpack_uint32 buf 1) in
  let* s := lift (pushlstring buf 5 (sz - 5)) in
  Ok [VBool false; VInt session; s; VBool padding].

Definition unpackreq_string (buf : list Z) (sz : Z) : res (list value) :=
  if sz <? 2 then Raise (invalid_size sz) else
  let* namesz := lift (aget buf 1) in
  if u64 sz <? namesz + 6 then Raise (invalid_size sz) else
  let* name := lift (pushlstring buf 2 namesz) in
  let* session := lift (unpack_uint32 buf (namesz + 2)) in
  let* s := lift (pushlstring buf (2 + namesz + 4) (sz - namesz - 6)) in
  Ok [name; VInt session; s].

Definition unpackmreq_string (buf : list Z) (sz : Z) : res (list value) :=
  if sz <? 2 then Raise (invalid_size sz) else
  let* namesz := lift (aget buf 1) in
  if u64 sz <? namesz + 10 then Raise (invalid_size sz) else
  let* name := lift (pushlstring buf 2 namesz) in
  let* session := lift (unpack_uint32 buf (namesz + 2)) in
  let* size := lift (unpack_uint32 buf (namesz + 6)) in
  Ok [name; VInt session; VInt size; VBool true].

Definition lunpackrequest (msg : list Z) : res (list value) :=
  let sz := i32 (Z.of_nat (length msg)) in
  let buf := c_string msg in
  let* b := lift (aget buf 0) in
  let kind := (b + 2 ^ 7) mod 2 ^ 8 - 2 ^ 7 in
  if kind =? 0 then unpackreq_number buf sz
  else if kind =? 1 then unpackmreq_number buf sz
  else if (kind =? 2) || (kind =? 3) then unpackmreq_part buf sz
  else if kind =? -128 then unpackreq_string buf sz
  else if kind =? -127 then unpackmreq_string buf sz
  else Raise (Text ("Invalid req package type " +:+ pretty kind)).

(** ** Responses *)

Definition response_body (session : Z) (msg : list Z) (s : list Z * Z * Z * list value) : option (list Z * Z * Z * list value) :=
  let '(buf, sz, ptr, table) := s in
  let (s, kind) := if MULTI_PART <? sz then (MULTI_PART, 3) else (sz, 4) in
  let! buf := aset buf 6 kind in
  let! buf := fill_header buf (s + 5) in
  let! buf := fill_uint32 buf 2 session in
  let! buf := copy_msg buf 7 msg ptr s in
  let! v := pushlstring buf 0 (s + 7) in
  Some (buf, sz - s, ptr + s, table ++ [v]).

Definition multi_response (session : Z) (msg : list Z) (sz : Z) : option value :=
  let part := (sz - 1) / MULTI_PART + 1 in
  let! buf := fill_header (malloc TEMP_LENGTH) 9 in
  let! buf := fill_uint32 buf 2 session in
  let! buf := aset buf 6 2 in
  let! buf := fill_uint32 buf 7 (u32 sz) in
  let! first := pushlstring buf 0 11 in
  let! (_, _, _, table) := for_loop (Z.to_nat (i32 part)) 0 (fun _ => response_body session msg) (buf, sz, 0, [first]) in
  Some (VTable table).

Definition short_response (session : Z) (ok : bool) (msg : list Z) (sz : Z) : option value :=
  let! buf := fill_header (malloc TEMP_LENGTH) (i32 (sz + 5)) in
  let! buf := fill_uint32 buf 2 session in
  let! buf := aset buf 6 (Z.b2z ok) in
  let! buf := copy_msg buf 7 msg 0 sz in
  pushlstring buf 0 (sz + 7).

(** [msg] is a string, or a light userdata with its size [n]. *)
Definition lpackresponse (session : Z) (ok : bool) (msg : value) (n : Z) : res (list value) :=
  let session := u32 session in
  let* (msg, sz) := match msg with VStr s => Ok (s, Z.of_nat (length s)) | VLight b => Ok (b, u64 n) | _ => Ok ([], u64 n) end in
  if ok && (MULTI_PART <? sz) then let* v := lift (multi_response session msg sz) in Ok [v]
  else
    let sz := if MULTI_PART <? sz then MULTI_PART else sz in
    let* v := lift (short_response session ok msg sz) in Ok [v].

Definition lunpackresponse (msg : list Z) : res (list value) :=
  let sz := Z.of_nat (length msg) in
  let buf := c_string msg in
  if sz <? 5 then Ok [] else
  let* session := lift (unpack_uint32 buf 0) in
  let* kind := lift (aget buf 4) in
  match kind with
  | 0 => let* s := lift (pushlstring buf 5 (sz - 5)) in Ok [VInt session; VBool false; s]
  | 1 | 4 => let* s := lift (pushlstring buf 5 (sz - 5)) in Ok [VInt session; VBool true; s]
  | 2 => if negb (sz =? 9) then Ok [] else let* sz := lift (unpack_uint32 buf 5) in Ok [VInt session; VBool true; VInt sz; VBool true]
  | 3 => let* s := lift (pushlstring buf 5 (sz - 5)) in Ok [VInt session; VBool true; s; VBool true]
  | _ => Ok []
  end.

(** ** Joining the parts *)

(** The strings of the table from [idx]; [None] is the return within the loop. *)
Fixpoint concat_loop (sz : Z) (l : list value) (buff : list Z) (offset : Z) : option (option (list Z * Z)) :=
  match l with
  | VStr str :: l =>
    let s := Z.of_nat (length str) in
    if u64 sz <? s + offset then Some None else
    let! buff := memcpy_at buff offset str in
    concat_loop sz l buff (offset + s)
  | _ => Some (Some (buff, offset))
  end.

(** [malloc] gives the size as [size_t], in which a negative one is huge: the allocation fails and the process ends, or, with the prefix added, wraps around to a few bytes. *)
Definition lconcat (table : value) : res (list value) :=
  match table with
  | VTable (VInt n :: l) =>
    let sz := i32 n in
    if sz <? 0 then Stuck else
    let* r := lift (concat_loop sz l (malloc sz) 0) in
    match r with
    | Some (buff, offset) => if offset =? sz then Ok [VLight buff; VInt sz] else Ok []
    | None => Ok []
    end
  | _ => Ok []
  end.
