(* ===== verification/ClusterSpec.v ===== *)
(** * Requests and responses reach another cluster

    What [lua-cluster.c] packs on one side is unpacked on the other, in one piece or in parts; unpacking never reads outside a string. *)

From stdpp Require Import pretty.
From S2P Require Import Prelude CString Buffer LuaError Sproto SprotoCode SprotoInts SprotoDecode Framing Cluster.

Lemma MULTI_PART_eq : MULTI_PART = 32768. Proof. reflexivity. Qed.
Lemma TEMP_LENGTH_eq : TEMP_LENGTH = 33280. Proof. reflexivity. Qed.
#[local] Opaque MULTI_PART TEMP_LENGTH.

(** ** The buffer *)

(** The bytes written so far. *)
Definition written (buf l : list Z) : Prop := Z.of_nat (length buf) = TEMP_LENGTH /\ exists rest, buf = l ++ rest.

Lemma written_aset buf l p x : written buf l -> p = Z.of_nat (length l) -> p < TEMP_LENGTH -> exists buf', aset buf p x = Some buf' /\ written buf' (l ++ [x]).
Proof.
  intros [L [rest ->]] -> H. rewrite length_app in L. destruct rest as [|r rest]; [simpl in L; lia|]. rewrite aset_Some by (rewrite length_app; simpl; lia).
  rewrite Nat2Z.id, insert_app_r_alt, Nat.sub_diag by lia. eexists. split; [done|]. split; [|exists rest; by rewrite <- app_assoc].
  rewrite length_app in *. simpl in *. lia.
Qed.

Lemma written_memcpy buf l p data : written buf l -> p = Z.of_nat (length l) -> p + Z.of_nat (length data) <= TEMP_LENGTH ->
  exists buf', memcpy_at buf p data = Some buf' /\ written buf' (l ++ data).
Proof.
  intros [L [rest ->]] -> H. rewrite memcpy_at_splice by lia. eexists. split; [done|]. rewrite Nat2Z.id. split.
  - rewrite splice_length by lia. done.
  - unfold splice. rewrite take_app_length. exists (drop (length l + length data) (l ++ rest)). by rewrite <- app_assoc.
Qed.

Lemma written_uint32 buf l p n : written buf l -> p = Z.of_nat (length l) -> p + 4 <= TEMP_LENGTH ->
  exists buf', fill_uint32 buf p n = Some buf' /\ written buf' (l ++ dword_bytes n).
Proof.
  intros W E H. unfold fill_uint32, dword_bytes.
  destruct (written_aset buf l p (Z.land n 0xff) W E ltac:(lia)) as (b1 & -> & W1).
  destruct (written_aset b1 _ (p + 1) (Z.land (Z.shiftr n 8) 0xff) W1) as (b2 & -> & W2); [rewrite length_app; simpl; lia|lia|].
  destruct (written_aset b2 _ (p + 2) (Z.land (Z.shiftr n 16) 0xff) W2) as (b3 & -> & W3); [rewrite !length_app; simpl; lia|lia|].
  destruct (written_aset b3 _ (p + 3) (Z.land (Z.shiftr n 24) 0xff) W3) as (b4 & -> & W4); [rewrite !length_app; simpl; lia|lia|].
  exists b4. split; [done|]. by rewrite <- !app_assoc in W4.
Qed.

Lemma header_bytes sz : 0 <= sz < 65536 -> [Z.land (Z.shiftr sz 8) 0xff; Z.land sz 0xff] = encode_header 2 sz.
Proof.
  intros H. unfold encode_header. cbn [Z.eqb Pos.eqb]. change 0xff with (Z.ones 8). rewrite !Z.land_ones, Z.shiftr_div_pow2 by lia.
  rewrite (Z.mod_small (_ / _)); [done|]. zpow. Z.div_mod_to_equations. lia.
Qed.

(** The header over whatever is in the first two bytes. *)
Lemma written_header buf x y l sz : written buf (x :: y :: l) -> 0 <= sz < 65536 -> exists buf', fill_header buf sz = Some buf' /\ written buf' (encode_header 2 sz ++ l).
Proof.
  intros [L [rest ->]] H. unfold fill_header. destruct (Z.ltb_spec sz 0x10000); [|lia]. rewrite aset_Some by (simpl; lia).
  rewrite aset_Some by (rewrite length_insert; simpl; lia). eexists. split; [done|]. rewrite <- header_bytes by done. split; [done|]. by exists rest.
Qed.

Lemma malloc_written : exists x y, written (malloc TEMP_LENGTH) [x; y].
Proof.
  exists 0, 0. split; [unfold malloc; rewrite length_replicate, TEMP_LENGTH_eq; lia|]. 
  exists (replicate (Z.to_nat 33278) 0). unfold malloc. rewrite TEMP_LENGTH_eq.
  assert (forall n m, n = S (S m) -> replicate n 0%Z = [0; 0] ++ replicate m 0) as E by (intros n m ->; done). apply E. lia.
Qed.

Lemma written_push buf l n : written buf l -> n = Z.of_nat (length l) -> pushlstring buf 0 n = Some (VStr l).
Proof. intros [_ [rest ->]] ->. unfold pushlstring. rewrite memcpy_Some by (rewrite ?length_app; lia). rewrite Nat2Z.id. change (Z.to_nat 0) with 0%nat. by rewrite drop_0, take_app_length. Qed.

Lemma written_copy buf l p msg off sz : written buf l -> p = Z.of_nat (length l) -> 0 <= off -> 0 <= sz -> off + sz <= Z.of_nat (length msg) -> p + sz <= TEMP_LENGTH ->
  exists buf', copy_msg buf p msg off sz = Some buf' /\ written buf' (l ++ take (Z.to_nat sz) (drop (Z.to_nat off) msg)).
Proof.
  intros W E Ho Hs Hm Hp. unfold copy_msg. rewrite memcpy_Some by lia. apply written_memcpy; [done|done|]. rewrite length_take, length_drop. lia.
Qed.

Lemma written_copy_all buf l p msg : written buf l -> p = Z.of_nat (length l) -> p + Z.of_nat (length msg) <= TEMP_LENGTH ->
  exists buf', copy_msg buf p msg 0 (Z.of_nat (length msg)) = Some buf' /\ written buf' (l ++ msg).
Proof.
  intros W E Hp. destruct (written_copy buf l p msg 0 (Z.of_nat (length msg)) W E) as (b & Eb & W'); [lia..|]. exists b. split; [done|].
  rewrite Nat2Z.id in W'. change (Z.to_nat 0) with 0%nat in W'. by rewrite drop_0, firstn_all in W'.
Qed.

(** Lengths of what is written, and bounds. *)
Ltac written_lia := rewrite ?length_app, ?dword_bytes_length; cbn [length encode_header Z.eqb Pos.eqb]; rewrite ?length_app, ?dword_bytes_length; cbn [length]; rewrite ?TEMP_LENGTH_eq; lia.

(** The next write of the goal, which goes on where the last one ended. *)
Ltac next_write :=
  let b := fresh "buf" in let W' := fresh "Written" in
  match goal with
  | W : written ?buf ?l |- context [aset ?buf ?p ?x] => destruct (written_aset buf l p x W) as (b & -> & W'); [written_lia..|]; clear W
  | W : written ?buf ?l |- context [fill_uint32 ?buf ?p ?x] => destruct (written_uint32 buf l p x W) as (b & -> & W'); [written_lia..|]; clear W
  | W : written ?buf ?l |- context [memcpy_at ?buf ?p ?x] => destruct (written_memcpy buf l p x W) as (b & -> & W'); [written_lia..|]; clear W
  | W : written ?buf ?l |- context [copy_msg ?buf ?p ?msg 0 (Z.of_nat (length ?msg))] => destruct (written_copy_all buf l p msg W) as (b & -> & W'); [written_lia..|]; clear W
  | W : written ?buf ?l |- context [copy_msg ?buf ?p ?msg ?off ?sz] => destruct (written_copy buf l p msg off sz W) as (b & -> & W'); [written_lia..|]; clear W
  | W : written ?buf ?l |- context [pushlstring ?buf 0 ?n] => rewrite (written_push buf l n W) by written_lia
  end.

Lemma written_uint32_over buf l w r p n : written buf (l ++ w ++ r) -> length w = 4%nat -> p = Z.of_nat (length l) -> exists buf', fill_uint32 buf p n = Some buf' /\ written buf' (l ++ dword_bytes n ++ r).
Proof.
  intros [L [rest ->]] Lw ->. destruct w as [|w0 [|w1 [|w2 [|w3 [|]]]]]; try done.
  assert (S : forall a i x, 0 <= i < Z.of_nat (length a) -> aset (l ++ a) (Z.of_nat (length l) + i) x = Some (l ++ <[Z.to_nat i := x]> a)).
  { intros a i x Hi. rewrite aset_Some by (rewrite length_app; lia). f_equal. rewrite insert_app_r_alt by lia. do 2 f_equal. lia. }
  rewrite <- !app_assoc in *. unfold fill_uint32, dword_bytes. set (tl := r ++ rest). change ([w0; w1; w2; w3] ++ tl) with (w0 :: w1 :: w2 :: w3 :: tl).
  pose proof (S (w0 :: w1 :: w2 :: w3 :: tl) 0) as S0. rewrite Z.add_0_r in S0. rewrite S0 by (simpl; lia). simpl.
  do 3 (match goal with |- context [aset (l ++ ?a) (_ + ?i) ?x] => rewrite (S a i x) by (simpl; lia) end; simpl).
  eexists. split; [done|]. split; [|exists rest; by rewrite <- !app_assoc].
  rewrite <- L. subst tl. rewrite !length_app. simpl. rewrite !length_app. lia.
Qed.

(** A new buffer with its header. *)
Lemma new_header sz : 0 <= sz < 65536 -> exists buf, fill_header (malloc TEMP_LENGTH) sz = Some buf /\ written buf (encode_header 2 sz).
Proof. intros H. destruct malloc_written as (x & y & W). destruct (written_header _ x y [] sz W H) as (b & E & W'). rewrite app_nil_r in W'. eauto. Qed.

(** ** Requests *)

(** The address as it is sent. *)
Definition address_bytes (addr : value) : list Z := match addr with VInt n => dword_bytes (u32 n) | VStr name => [u8 (Z.of_nat (length name))] ++ name | _ => [] end.
Definition address_kind (addr : value) : Z := match addr with VInt _ => 0 | _ => 0x80 end.
Definition address_ok (addr : value) : Prop := match addr with VInt n => True | VStr name => name_ok name = true | _ => False end.

Lemma name_ok_length name : name_ok name = true -> 1 <= Z.of_nat (length name) <= 255.
Proof. unfold name_ok. intros [A%negb_true_iff B%negb_true_iff]%andb_true_iff. lia. Qed.

Lemma name_ok_u8 name : name_ok name = true -> u8 (Z.of_nat (length name)) = Z.of_nat (length name).
Proof. intros H%name_ok_length. apply u8_small. change (2 ^ 8) with 256. lia. Qed.

(** A request in one piece, and the head of one in parts. *)
Definition request (addr : value) (session : Z) (msg : list Z) : list Z := [address_kind addr] ++ address_bytes addr ++ dword_bytes session ++ msg.
Definition request_head (addr : value) (session : Z) (sz : Z) : list Z := [address_kind addr + 1] ++ address_bytes addr ++ dword_bytes session ++ dword_bytes sz.

Lemma encode_app bytes sz : sz = Z.of_nat (length bytes) -> encode 2 bytes = encode_header 2 sz ++ bytes.
Proof. by intros ->. Qed.

Definition parts_of (sz : Z) : Z := (sz - 1) / MULTI_PART + 1.

Lemma number_short n session msg : Z.of_nat (length msg) < MULTI_PART -> 0 <= session < 2 ^ 32 ->
  packreq_number n session msg (Z.of_nat (length msg)) = Some (VStr (encode 2 (request (VInt n) session msg)), 0).
Proof.
  intros S Hs. rewrite MULTI_PART_eq in S. unfold packreq_number. destruct (Z.ltb_spec (Z.of_nat (length msg)) MULTI_PART); [|rewrite MULTI_PART_eq in *; lia].
  destruct (new_header (Z.of_nat (length msg) + 9)) as (b & -> & W); [lia|]. rewrite (u32_small session) by done. repeat next_write.
  rewrite (encode_app _ (Z.of_nat (length msg) + 9)) by (unfold request, address_bytes; written_lia). unfold request. by rewrite <- !app_assoc.
Qed.

Lemma number_long n session msg : MULTI_PART <= Z.of_nat (length msg) < 2 ^ 32 -> 0 <= session < 2 ^ 32 ->
  packreq_number n session msg (Z.of_nat (length msg)) =
    Some (VStr (encode 2 (request_head (VInt n) session (Z.of_nat (length msg)))), parts_of (Z.of_nat (length msg))).
Proof.
  intros S Hs. unfold packreq_number. destruct (Z.ltb_spec (Z.of_nat (length msg)) MULTI_PART); [lia|].
  destruct (new_header 13) as (b & -> & W); [lia|]. rewrite (u32_small session) by done. repeat next_write.
  rewrite (encode_app _ 13) by (unfold request_head, address_bytes; written_lia). unfold request_head, parts_of. by rewrite <- !app_assoc.
Qed.

Lemma name_short name session msg : name_ok name = true -> Z.of_nat (length msg) < MULTI_PART -> 0 <= session < 2 ^ 32 ->
  packreq_name name session msg (Z.of_nat (length msg)) = Some (VStr (encode 2 (request (VStr name) session msg)), 0).
Proof.
  intros N S Hs. pose proof (name_ok_length name N). rewrite MULTI_PART_eq in S. unfold packreq_name.
  destruct (Z.ltb_spec (Z.of_nat (length msg)) MULTI_PART); [|rewrite MULTI_PART_eq in *; lia].
  destruct (new_header (Z.of_nat (length msg) + 6 + Z.of_nat (length name))) as (b & -> & W); [lia|]. rewrite (u32_small session) by done. repeat next_write.
  rewrite (encode_app _ (Z.of_nat (length msg) + 6 + Z.of_nat (length name))) by (unfold request, address_bytes; written_lia). unfold request. by rewrite <- !app_assoc.
Qed.

Lemma name_long name session msg : name_ok name = true -> MULTI_PART <= Z.of_nat (length msg) < 2 ^ 32 -> 0 <= session < 2 ^ 32 ->
  packreq_name name session msg (Z.of_nat (length msg)) =
    Some (VStr (encode 2 (request_head (VStr name) session (Z.of_nat (length msg)))), parts_of (Z.of_nat (length msg))).
Proof.
  intros N S Hs. pose proof (name_ok_length name N). unfold packreq_name. destruct (Z.ltb_spec (Z.of_nat (length msg)) MULTI_PART); [lia|].
  destruct (new_header (10 + Z.of_nat (length name))) as (b & -> & W); [lia|]. rewrite (u32_small session) by done. repeat next_write.
  rewrite (encode_app _ (10 + Z.of_nat (length name))) by (unfold request_head, address_bytes; written_lia). unfold request_head, parts_of. by rewrite <- !app_assoc.
Qed.

(** ** Parts *)

(** The pieces of a message: whether more follow, and the bytes. *)
Fixpoint chunks (n : nat) (m : list Z) : list (bool * list Z) :=
  match n with
  | O => []
  | S n => if MULTI_PART <? Z.of_nat (length m) then (true, take (Z.to_nat MULTI_PART) m) :: chunks n (drop (Z.to_nat MULTI_PART) m) else [(false, m)]
  end.

Definition pieces (m : list Z) : list (bool * list Z) := chunks (Z.to_nat (parts_of (Z.of_nat (length m)))) m.

Lemma parts_one sz : 0 < sz <= MULTI_PART -> parts_of sz = 1.
Proof. rewrite MULTI_PART_eq. intros H. unfold parts_of. rewrite MULTI_PART_eq. rewrite Z.div_small by lia. done. Qed.

Lemma parts_more sz : MULTI_PART < sz -> parts_of sz = parts_of (sz - MULTI_PART) + 1.
Proof.
  unfold parts_of. rewrite MULTI_PART_eq. intros H. replace (sz - 1) with (sz - 32768 - 1 + 1 * 32768) by lia. rewrite Z.div_add by lia. lia.
Qed.

Lemma parts_pos sz : 0 < sz -> 0 < parts_of sz.
Proof. intros H. unfold parts_of. pose proof (Z.div_pos (sz - 1) MULTI_PART ltac:(lia)). rewrite MULTI_PART_eq in *. lia. Qed.

(** The recursion that the number of parts follows. *)
Lemma chunks_ind (P : nat -> list Z -> Prop) :
  (forall m, 0 < Z.of_nat (length m) <= MULTI_PART -> P 1%nat m) ->
  (forall n m, MULTI_PART < Z.of_nat (length m) -> P n (drop (Z.to_nat MULTI_PART) m) -> P (S n) m) ->
  forall m, m <> [] -> P (Z.to_nat (parts_of (Z.of_nat (length m)))) m.
Proof.
  intros Hone Hmore m. induction m as [m IH] using (well_founded_ind (Wf_nat.well_founded_ltof _ (@length Z))).
  intros Hne. assert (0 < Z.of_nat (length m)) by (destruct m; simpl; [done|lia]). pose proof MULTI_PART_eq as EM.
  destruct (Z.le_gt_cases (Z.of_nat (length m)) MULTI_PART) as [S|S].
  - rewrite parts_one by done. by apply Hone.
  - assert (L : Z.of_nat (length (drop (Z.to_nat MULTI_PART) m)) = Z.of_nat (length m) - MULTI_PART) by (rewrite length_drop; lia).
    rewrite parts_more by lia. pose proof (parts_pos (Z.of_nat (length m) - MULTI_PART)).
    rewrite Z2Nat.inj_add by lia. rewrite Nat.add_comm. apply Hmore; [lia|]. rewrite <- L. apply IH; [unfold Wf_nat.ltof; lia|].
    intros E. rewrite E in L. simpl in L. lia.
Qed.

Lemma pieces_concat m : m <> [] -> concat (map snd (pieces m)) = m.
Proof.
  unfold pieces. apply (chunks_ind (fun n m => concat (map snd (chunks n m)) = m)); clear m.
  - intros m H. simpl. destruct (Z.ltb_spec MULTI_PART (Z.of_nat (length m))); [lia|]. simpl. apply app_nil_r.
  - intros n m H IH. simpl. destruct (Z.ltb_spec MULTI_PART (Z.of_nat (length m))); [|lia]. simpl. rewrite IH. apply take_drop.
Qed.

(** All pieces but the last say that more follow, and none is too long for a string. *)
Lemma pieces_ok m : m <> [] -> Forall (fun p => Z.of_nat (length p.2) <= MULTI_PART) (pieces m) /\ exists ps p, pieces m = ps ++ [(false, p)] /\ Forall (fun p => p.1 = true) ps.
Proof.
  unfold pieces. apply (chunks_ind (fun n m => Forall (fun p => Z.of_nat (length p.2) <= MULTI_PART) (chunks n m) /\
    exists ps p, chunks n m = ps ++ [(false, p)] /\ Forall (fun p => p.1 = true) ps)); clear m.
  - intros m H. simpl. destruct (Z.ltb_spec MULTI_PART (Z.of_nat (length m))); [lia|]. split; [by repeat constructor; simpl|]. by exists [], m.
  - intros n m H (B & ps & p & E & F). simpl. destruct (Z.ltb_spec MULTI_PART (Z.of_nat (length m))); [|lia]. split.
    + constructor; [|done]. simpl. rewrite length_take. pose proof MULTI_PART_eq. lia.
    + exists ((true, take (Z.to_nat MULTI_PART) m) :: ps), p. rewrite E. split; [done|by constructor].
Qed.

Section PartsLoop.
Context (msg : list Z) (body : list Z * Z * Z * list value -> option (list Z * Z * Z * list value)) (piece : bool -> list Z -> list Z).

(** What one pass of the loops does. *)
Definition cuts : Prop := forall buf ptr table, Z.of_nat (length buf) = TEMP_LENGTH -> 0 <= ptr < Z.of_nat (length msg) ->
  let sz := Z.of_nat (length msg) - ptr in let s := Z.min MULTI_PART sz in
  exists buf', body (buf, sz, ptr, table) =
    Some (buf', sz - s, ptr + s, table ++ [VStr (encode 2 (piece (MULTI_PART <? sz) (take (Z.to_nat s) (drop (Z.to_nat ptr) msg))))]) /\
    Z.of_nat (length buf') = TEMP_LENGTH.

Lemma parts_loop (Hbody : cuts) m : m <> [] -> forall i buf ptr table, Z.of_nat (length buf) = TEMP_LENGTH -> 0 <= ptr -> drop (Z.to_nat ptr) msg = m ->
  exists buf' sz' ptr', for_loop (Z.to_nat (parts_of (Z.of_nat (length m)))) i (fun _ => body) (buf, Z.of_nat (length m), ptr, table) =
    Some (buf', sz', ptr', table ++ map (fun p => VStr (encode 2 (piece p.1 p.2))) (pieces m)).
Proof.
  unfold pieces. apply (chunks_ind (fun n m => forall i buf ptr table, Z.of_nat (length buf) = TEMP_LENGTH -> 0 <= ptr -> drop (Z.to_nat ptr) msg = m ->
    exists buf' sz' ptr', for_loop n i (fun _ => body) (buf, Z.of_nat (length m), ptr, table) =
      Some (buf', sz', ptr', table ++ map (fun p => VStr (encode 2 (piece p.1 p.2))) (chunks n m)))); clear m.
  - intros m H i buf ptr table L P D. assert (E : Z.of_nat (length m) = Z.of_nat (length msg) - ptr) by (pose proof (f_equal length D) as LD; rewrite length_drop in LD; pose proof MULTI_PART_eq; lia).
    destruct (Hbody buf ptr table L ltac:(lia)) as (b & Eb & Lb). cbn [for_loop chunks]. rewrite E, Eb, D, <- E.
    destruct (Z.ltb_spec MULTI_PART (Z.of_nat (length m))); [lia|]. rewrite Z.min_r, Nat2Z.id, firstn_all by lia. by eexists _, _, _.
  - intros n m H IH i buf ptr table L P D. assert (E : Z.of_nat (length m) = Z.of_nat (length msg) - ptr) by (pose proof (f_equal length D) as LD; rewrite length_drop in LD; pose proof MULTI_PART_eq; lia).
    pose proof MULTI_PART_eq as EM. destruct (Hbody buf ptr table L ltac:(lia)) as (b & Eb & Lb). cbn [for_loop chunks]. rewrite E, Eb, D, <- E.
    destruct (Z.ltb_spec MULTI_PART (Z.of_nat (length m))); [|lia]. rewrite Z.min_l by lia.
    replace (Z.of_nat (length m) - MULTI_PART) with (Z.of_nat (length (drop (Z.to_nat MULTI_PART) m))) by (rewrite length_drop; lia).
    destruct (IH (i + 1) b (ptr + MULTI_PART) (table ++ [VStr (encode 2 (piece true (take (Z.to_nat MULTI_PART) m)))]) Lb) as (b' & z & q & ->); [lia| |].
    + rewrite <- D, drop_drop. f_equal. lia.
    + eexists _, _, _. rewrite <- app_assoc. done.
Qed.
End PartsLoop.

(** The piece a pass is at, and its kind. *)
Lemma cut_choice (sz a b : Z) : (if MULTI_PART <? sz then (MULTI_PART, a) else (sz, b)) = (Z.min MULTI_PART sz, if MULTI_PART <? sz then a else b).
Proof. destruct (Z.ltb_spec MULTI_PART sz); f_equal; lia. Qed.

Lemma buffer_start buf n : Z.of_nat (length buf) = TEMP_LENGTH -> Z.of_nat n <= TEMP_LENGTH -> exists l, length l = n /\ written buf l.
Proof. intros L H. exists (take n buf). split; [rewrite length_take; lia|]. split; [done|]. exists (drop n buf). by rewrite take_drop. Qed.

Lemma multi_cuts session msg : 0 <= session < 2 ^ 32 -> cuts msg (multi_body session msg) (fun more p => [if more then 2 else 3] ++ dword_bytes session ++ p).
Proof.
  intros Hs buf ptr table L Hp sz s. pose proof MULTI_PART_eq as EM. pose proof TEMP_LENGTH_eq as ET. destruct (buffer_start buf 2 L) as (l & Ll & W); [lia|].
  destruct l as [|x [|y [|]]]; try done. unfold multi_body. rewrite u32_small by done. rewrite (cut_choice sz). fold s. set (kind := if MULTI_PART <? sz then 2 else 3).
  next_write. destruct (written_header _ x y [kind] (s + 5) Written) as (b & -> & W); [lia|].
  next_write. next_write. assert (length (take (Z.to_nat s) (drop (Z.to_nat ptr) msg)) = Z.to_nat s) as Ls by (rewrite length_take, length_drop; lia).
  match goal with W : written ?b _ |- _ => rewrite (written_push b _ (s + 7) W) by (rewrite !length_app, Ls; cbn; lia); eexists; split; [|apply W] end. rewrite (encode_app _ (s + 5)) by (rewrite !length_app, Ls; cbn; lia). by rewrite <- !app_assoc.
Qed.

Lemma response_cuts session msg : 0 <= session < 2 ^ 32 -> cuts msg (response_body session msg) (fun more p => dword_bytes session ++ [if more then 3 else 4] ++ p).
Proof.
  intros Hs buf ptr table L Hp sz s. pose proof MULTI_PART_eq as EM. pose proof TEMP_LENGTH_eq as ET. destruct (buffer_start buf 6 L) as (l & Ll & W); [lia|].
  destruct l as [|x [|y l]]; try done. unfold response_body. rewrite (cut_choice sz). fold s. set (kind := if MULTI_PART <? sz then 3 else 4).
  simpl in Ll. next_write. destruct (written_header _ x y (l ++ [kind]) (s + 5) Written) as (b & -> & W); [lia|].
  destruct (written_uint32_over b (encode_header 2 (s + 5)) l [kind] 2 session W) as (b' & -> & W'); [lia|done|].
  next_write. assert (length (take (Z.to_nat s) (drop (Z.to_nat ptr) msg)) = Z.to_nat s) as Ls by (rewrite length_take, length_drop; lia).
  match goal with W : written ?b _ |- _ => rewrite (written_push b _ (s + 7) W) by (rewrite !length_app, Ls; cbn; lia); eexists; split; [|apply W] end. rewrite (encode_app _ (s + 5)) by (rewrite !length_app, Ls; cbn; lia). by rewrite <- !app_assoc.
Qed.

Lemma short_response_spec session ok msg : 0 <= session < 2 ^ 32 -> Z.of_nat (length msg) <= MULTI_PART ->
  short_response session ok msg (Z.of_nat (length msg)) = Some (VStr (encode 2 (dword_bytes session ++ [Z.b2z ok] ++ msg))).
Proof.
  intros Hs H. rewrite MULTI_PART_eq in H. pose proof TEMP_LENGTH_eq. unfold short_response. rewrite (i32_small (_ + 5)) by lia.
  destruct (new_header (Z.of_nat (length msg) + 5)) as (b & -> & W); [lia|]. repeat next_write.
  rewrite (encode_app _ (Z.of_nat (length msg) + 5)) by written_lia. by rewrite <- !app_assoc.
Qed.

Lemma multi_response_spec session msg : 0 <= session < 2 ^ 32 -> msg <> [] -> Z.of_nat (length msg) < 2 ^ 31 ->
  multi_response session msg (Z.of_nat (length msg)) =
    Some (VTable (VStr (encode 2 (dword_bytes session ++ [2] ++ dword_bytes (Z.of_nat (length msg)))) ::
                  map (fun p : bool * list Z => VStr (encode 2 (dword_bytes session ++ [if p.1 then 3 else 4] ++ p.2))) (pieces msg))).
Proof.
  intros Hs Hne H. pose proof TEMP_LENGTH_eq. pose proof MULTI_PART_eq as EM. unfold multi_response. rewrite u32_small by lia.
  destruct (new_header 9) as (b & -> & W); [lia|]. repeat next_write. fold (parts_of (Z.of_nat (length msg))).
  assert (0 < Z.of_nat (length msg)) by (destruct msg; simpl; [done|lia]). pose proof (parts_pos (Z.of_nat (length msg)) ltac:(lia)).
  assert (parts_of (Z.of_nat (length msg)) < 2 ^ 31) by (unfold parts_of; rewrite EM; Z.div_mod_to_equations; lia). rewrite i32_small by lia.
  match goal with W : written ?b _ |- _ => destruct (parts_loop msg _ _ (response_cuts session msg Hs) msg Hne 0 b 0
    [VStr (encode_header 2 9 ++ dword_bytes session ++ [2] ++ dword_bytes (Z.of_nat (length msg)))] (proj1 W)) as (b' & z & q & E); [lia|done|] end.
  rewrite <- !app_assoc. rewrite E. simpl. rewrite (encode_app _ 9) by written_lia. done.
Qed.

Lemma packreq_multi_spec session msg : 0 <= session < 2 ^ 32 -> msg <> [] ->
  packreq_multi session msg (Z.of_nat (length msg)) =
    Some (VTable (map (fun p : bool * list Z => VStr (encode 2 ([if p.1 then 2 else 3] ++ dword_bytes session ++ p.2))) (pieces msg))).
Proof.
  intros Hs Hne. pose proof TEMP_LENGTH_eq as ET. unfold packreq_multi. fold (parts_of (Z.of_nat (length msg))).
  destruct (parts_loop msg _ _ (multi_cuts session msg Hs) msg Hne 0 (malloc TEMP_LENGTH) 0 []) as (b' & z & q & ->); [|lia|done|done].
  unfold malloc. rewrite length_replicate. lia.
Qed.

(** ** Reading back *)

Lemma holds_c_string s : holds (c_string s) 0 s.
Proof. exists [], [0]. done. Qed.

Lemma holds_push mem p l n : holds mem p l -> n = Z.of_nat (length l) -> pushlstring mem p n = Some (VStr l).
Proof. intros H ->. unfold pushlstring. by rewrite (holds_memcpy mem p l H). Qed.

(** The next word and the next string of the goal, of which [R] says where they are. *)
Ltac read_dword R :=
  match type of R with holds ?m ?p (dword_bytes ?v) =>
    match goal with |- context [todword m ?q] => replace p with q in R by (rewrite ?dword_bytes_length; lia); rewrite (todword_holds m q v R) by (apply u32_range || lia); cbn [lift] end
  end.
Ltac read_string R :=
  match type of R with holds ?m ?p ?l =>
    match goal with |- context [pushlstring m ?q ?n] => replace p with q in R by (rewrite ?dword_bytes_length; lia); rewrite (holds_push m q l n R) by lia; cbn [lift] end
  end.

Lemma request_read addr session msg : address_ok addr -> 0 <= session < 2 ^ 32 -> Z.of_nat (length msg) < MULTI_PART ->
  lunpackrequest (request addr session msg) = Ok [match addr with VInt n => VInt (u32 n) | v => v end; VInt session; VStr msg].
Proof.
  intros A Hs H. rewrite MULTI_PART_eq in H. pose proof (holds_c_string (request addr session msg)) as R. unfold lunpackrequest.
  destruct addr as [| |n|name| |]; try done; simpl address_ok in A.
  - set (buf := c_string _) in *. unfold request, address_bytes, address_kind in *.
    assert (Z.of_nat (length ([0] ++ dword_bytes (u32 n) ++ dword_bytes session ++ msg)) = 9 + Z.of_nat (length msg)) as -> by written_lia.
    rewrite (i32_small (9 + _)) by lia. apply holds_byte in R as [-> R]. apply holds_app in R as [Ra R]. apply holds_app in R as [Rs R].
    simpl. unfold unpackreq_number. destruct (Z.ltb_spec (9 + Z.of_nat (length msg)) 9); [lia|]. unfold unpack_uint32.
    read_dword Ra. read_dword Rs. read_string R. done.
  - pose proof (name_ok_length name A). set (buf := c_string _) in *. unfold request, address_bytes, address_kind in *. rewrite (name_ok_u8 name A) in *.
    assert (Z.of_nat (length ([128] ++ ([Z.of_nat (length name)] ++ name) ++ dword_bytes session ++ msg)) = Z.of_nat (length name) + 6 + Z.of_nat (length msg)) as -> by written_lia.
    rewrite (i32_small (_ + 6 + _)) by lia. rewrite <- !app_assoc in R. apply holds_byte in R as [-> R]. apply holds_byte in R as [E1 R].
    apply holds_app in R as [Ra R]. apply holds_app in R as [Rs R]. simpl. unfold unpackreq_string.
    destruct (Z.ltb_spec (Z.of_nat (length name) + 6 + Z.of_nat (length msg)) 2); [lia|]. change (0 + 1) with 1 in E1. rewrite E1. cbn [lift]. rewrite u64_small by lia.
    destruct (Z.ltb_spec (Z.of_nat (length name) + 6 + Z.of_nat (length msg)) (Z.of_nat (length name) + 6)); [lia|].
    unfold unpack_uint32. read_string Ra. read_dword Rs. read_string R. done.
Qed.

Lemma head_read addr session sz : address_ok addr -> 0 <= session < 2 ^ 32 -> 0 <= sz < 2 ^ 32 ->
  lunpackrequest (request_head addr session sz) = Ok [match addr with VInt n => VInt (u32 n) | v => v end; VInt session; VInt sz; VBool true].
Proof.
  intros A Hs H. pose proof (holds_c_string (request_head addr session sz)) as R. unfold lunpackrequest.
  destruct addr as [| |n|name| |]; try done; simpl address_ok in A.
  - set (buf := c_string _) in *. unfold request_head, address_bytes, address_kind in *.
    assert (Z.of_nat (length ([0 + 1] ++ dword_bytes (u32 n) ++ dword_bytes session ++ dword_bytes sz)) = 13) as -> by written_lia.
    rewrite (i32_small 13) by lia. apply holds_byte in R as [-> R]. apply holds_app in R as [Ra R]. apply holds_app in R as [Rs R].
    match goal with |- _ = ?r => change (unpackmreq_number buf 13 = r) end. unfold unpackmreq_number, unpack_uint32. cbn [Z.eqb Pos.eqb negb]. read_dword Ra. read_dword Rs. read_dword R. done.
  - pose proof (name_ok_length name A). set (buf := c_string _) in *. unfold request_head, address_bytes, address_kind in *. rewrite (name_ok_u8 name A) in *.
    assert (Z.of_nat (length ([128 + 1] ++ ([Z.of_nat (length name)] ++ name) ++ dword_bytes session ++ dword_bytes sz)) = Z.of_nat (length name) + 10) as -> by written_lia.
    rewrite (i32_small (_ + 10)) by lia. rewrite <- !app_assoc in R. apply holds_byte in R as [-> R]. apply holds_byte in R as [E1 R].
    apply holds_app in R as [Ra R]. apply holds_app in R as [Rs R]. 
    match goal with |- _ = ?r => change (unpackmreq_string buf (Z.of_nat (length name) + 10) = r) end. unfold unpackmreq_string.
    destruct (Z.ltb_spec (Z.of_nat (length name) + 10) 2); [lia|]. change (0 + 1) with 1 in E1. rewrite E1. cbn [lift]. rewrite u64_small by lia.
    rewrite Z.ltb_irrefl. unfold unpack_uint32. read_string Ra. read_dword Rs. read_dword R. done.
Qed.

Lemma part_read session (more : bool) p : 0 <= session < 2 ^ 32 -> Z.of_nat (length p) <= MULTI_PART ->
  lunpackrequest ([if more then 2 else 3] ++ dword_bytes session ++ p) = Ok [VBool false; VInt session; VStr p; VBool more].
Proof.
  intros Hs H. rewrite MULTI_PART_eq in H. pose proof (holds_c_string ([if more then 2 else 3] ++ dword_bytes session ++ p)) as R. unfold lunpackrequest. set (buf := c_string _) in *.
  assert (Z.of_nat (length ([if more then 2 else 3] ++ dword_bytes session ++ p)) = 5 + Z.of_nat (length p)) as -> by written_lia.
  rewrite (i32_small (5 + _)) by lia. apply holds_byte in R as [E0 R]. apply holds_app in R as [Rs R]. rewrite E0. cbn [lift].
  assert (unpackmreq_part buf (5 + Z.of_nat (length p)) = Ok [VBool false; VInt session; VStr p; VBool more]) as E.
  { unfold unpackmreq_part, unpack_uint32. destruct (Z.ltb_spec (5 + Z.of_nat (length p)) 5); [lia|]. rewrite E0. cbn [lift]. read_dword Rs. read_string R. by destruct more. }
  by destruct more.
Qed.

(** ** Joining *)

Lemma concat_spec sz ps pre tail : sz < 2 ^ 31 -> length tail = length (concat ps) -> Z.of_nat (length pre) + Z.of_nat (length tail) = sz ->
  concat_loop sz (map VStr ps) (pre ++ tail) (Z.of_nat (length pre)) = Some (Some (pre ++ concat ps, sz)).
Proof.
  intros Hsz. revert pre tail. induction ps as [|p ps IH]; intros pre tail Lt Es; cbn [map concat_loop concat] in *.
  - destruct tail; [|done]. simpl in *. do 2 f_equal. rewrite app_nil_r. f_equal. lia.
  - rewrite length_app in Lt. rewrite u64_small by lia. destruct (Z.ltb_spec sz (Z.of_nat (length p) + Z.of_nat (length pre))); [lia|].
    rewrite memcpy_at_splice by (rewrite ?length_app; lia). unfold splice. rewrite Nat2Z.id, take_app_length. rewrite drop_app_ge by lia.
    replace (length pre + length p - length pre)%nat with (length p) by lia. rewrite app_assoc. rewrite <- Nat2Z.inj_add, <- length_app.
    rewrite (IH (pre ++ p)) by (rewrite ?length_app, length_drop; lia). by rewrite <- app_assoc.
Qed.

Lemma lconcat_spec ps msg : concat ps = msg -> Z.of_nat (length msg) < 2 ^ 31 -> lconcat (VTable (VInt (Z.of_nat (length msg)) :: map VStr ps)) = Ok [VLight msg; VInt (Z.of_nat (length msg))].
Proof.
  intros <- H. unfold lconcat. rewrite i32_small by lia. destruct (Z.ltb_spec (Z.of_nat (length (concat ps))) 0); [lia|].
  change (concat_loop ?a ?b ?c 0) with (concat_loop a b ([] ++ c) (Z.of_nat (length (@nil Z)))).
  rewrite concat_spec by (unfold malloc; simpl; rewrite ?length_replicate; lia). simpl. by rewrite Z.eqb_refl.
Qed.

(** ** Round trips *)

(** The address as the other side reads it. *)
Definition address_read (addr : value) : value := match addr with VInt n => VInt (u32 n) | v => v end.

(** What a part of a request ([request]) or of a response reads as. *)
Definition part_values (request : bool) (session : Z) (p : bool * list Z) : list value :=
  if request then [VBool false; VInt session; VStr p.2; VBool p.1] else [VInt session; VBool true; VStr p.2] ++ (if p.1 then [VBool true] else []).

(** The answer to a message in parts: the head gives the size, each part its piece and whether more follow, and [lconcat] joins what has been read. *)
Definition joins (read : list Z -> res (list value)) (first : bool) (session : Z) (msg : list Z) (parts : list (list Z)) : Prop :=
  Forall (frame_ok 2) parts /\
  Forall2 (fun part p => read part = Ok (part_values first session p)) parts (pieces msg) /\
  (exists ps p, pieces msg = ps ++ [(false, p)] /\ Forall (fun p : bool * list Z => p.1 = true) ps) /\
  lconcat (VTable (VInt (Z.of_nat (length msg)) :: map (fun p : bool * list Z => VStr p.2) (pieces msg))) = Ok [VLight msg; VInt (Z.of_nat (length msg))].

Lemma frame_short bytes : Z.of_nat (length bytes) < 65536 -> frame_ok 2 bytes.
Proof. intros H. unfold frame_ok, length_ok. simpl. lia. Qed.

Lemma joins_pieces (read : list Z -> res (list value)) (first : bool) session msg (piece : bool * list Z -> list Z) : msg <> [] -> Z.of_nat (length msg) < 2 ^ 31 ->
  (forall p : bool * list Z, Z.of_nat (length p.2) <= MULTI_PART -> Z.of_nat (length (piece p)) <= 5 + Z.of_nat (length p.2) /\ read (piece p) = Ok (part_values first session p)) ->
  joins read first session msg (map piece (pieces msg)).
Proof.
  intros Hne H P. destruct (pieces_ok msg Hne) as [B (ps & p & E & F)]. rewrite Forall_forall in B. pose proof MULTI_PART_eq. split_and!.
  - apply Forall_map, Forall_forall. intros q Hq. specialize (B q Hq). apply frame_short. destruct (P q B). lia.
  - rewrite <- (map_id (pieces msg)) at 2. apply Forall2_fmap, Forall_Forall2_diag, Forall_forall. intros q Hq. by apply P, B.
  - eauto.
  - rewrite <- (map_map snd VStr). apply lconcat_spec; [by apply pieces_concat|done].
Qed.


Lemma memcpy_take msg sz : 0 <= sz <= Z.of_nat (length msg) -> memcpy msg 0 sz = memcpy (take (Z.to_nat sz) msg) 0 (Z.of_nat (length (take (Z.to_nat sz) msg))).
Proof.
  intros H. rewrite length_take. rewrite !memcpy_Some by (rewrite ?length_take; lia). f_equal. change (Z.to_nat 0) with 0%nat. rewrite !drop_0, take_take. f_equal. lia.
Qed.

Lemma short_response_take session ok msg sz : 0 <= session < 2 ^ 32 -> 0 <= sz <= Z.of_nat (length msg) -> sz <= MULTI_PART ->
  short_response session ok msg sz = Some (VStr (encode 2 (dword_bytes session ++ [Z.b2z ok] ++ take (Z.to_nat sz) msg))).
Proof.
  intros Hs H1 H2. assert (Z.of_nat (length (take (Z.to_nat sz) msg)) = sz) as L by (rewrite length_take; lia).
  rewrite <- short_response_spec by lia. unfold short_response, copy_msg. rewrite (memcpy_take msg sz) by lia. by rewrite L.
Qed.

(** A response is read as its kind says. *)
Lemma response_read session kind p : 0 <= session < 2 ^ 32 -> kind = 0 \/ kind = 1 \/ kind = 3 \/ kind = 4 -> Z.of_nat (length p) < 2 ^ 31 ->
  lunpackresponse (dword_bytes session ++ [kind] ++ p) = Ok ([VInt session; VBool (negb (kind =? 0)); VStr p] ++ (if kind =? 3 then [VBool true] else [])).
Proof.
  intros Hs Hk H. pose proof (holds_c_string (dword_bytes session ++ [kind] ++ p)) as R. unfold lunpackresponse. set (buf := c_string _) in *.
  assert (Z.of_nat (length (dword_bytes session ++ [kind] ++ p)) = 5 + Z.of_nat (length p)) as -> by written_lia.
  apply holds_app in R as [Rs R]. apply holds_byte in R as [Ek R]. rewrite dword_bytes_length in Ek. change (0 + Z.of_nat 4) with 4 in Ek.
  destruct (Z.ltb_spec (5 + Z.of_nat (length p)) 5); [lia|]. unfold unpack_uint32. read_dword Rs. rewrite Ek. cbn [lift].
  destruct Hk as [-> |[-> |[-> | ->]]]; read_string R; done.
Qed.

Lemma response_head_read session sz : 0 <= session < 2 ^ 32 -> 0 <= sz < 2 ^ 32 ->
  lunpackresponse (dword_bytes session ++ [2] ++ dword_bytes sz) = Ok [VInt session; VBool true; VInt sz; VBool true].
Proof.
  intros Hs H. pose proof (holds_c_string (dword_bytes session ++ [2] ++ dword_bytes sz)) as R. unfold lunpackresponse. set (buf := c_string _) in *.
  change (Z.of_nat (length (dword_bytes session ++ [2] ++ dword_bytes sz))) with 9.
  apply holds_app in R as [Rs R]. apply holds_byte in R as [Ek R]. rewrite dword_bytes_length in Ek. change (0 + Z.of_nat 4) with 4 in Ek.
  cbn [Z.ltb Z.compare Pos.compare Pos.compare_cont]. unfold unpack_uint32. read_dword Rs. rewrite Ek. cbn [lift Z.eqb Pos.eqb negb]. read_dword R. done.
Qed.

(** What [lpackresponse] packs, [lunpackresponse] on the other side reads back.  For a message below 2 GB, given as a string or as a block: an error is read as the first 32K of its message; a result of at most 32K as
    itself, in one frame; and a longer result is a table of frames, a head that reads as the size and parts that read as the pieces, which [lconcat] joins to the result. *)
Theorem cluster_response_roundtrip session ok arg msg : 0 <= session < 2 ^ 32 -> arg = VStr msg \/ arg = VLight msg -> Z.of_nat (length msg) < 2 ^ 31 ->
  if ok && (MULTI_PART <? Z.of_nat (length msg)) then
    exists head parts, lpackresponse session ok arg (Z.of_nat (length msg)) = Ok [VTable (map (fun part => VStr (encode 2 part)) (head :: parts))] /\ frame_ok 2 head /\
      lunpackresponse head = Ok [VInt session; VBool true; VInt (Z.of_nat (length msg)); VBool true] /\ joins lunpackresponse false session msg parts
  else
    exists body, lpackresponse session ok arg (Z.of_nat (length msg)) = Ok [VStr (encode 2 body)] /\ frame_ok 2 body /\
      lunpackresponse body = Ok [VInt session; VBool ok; VStr (take (Z.to_nat MULTI_PART) msg)].
Proof.
  intros Hs Harg H. pose proof MULTI_PART_eq as EM.
  assert (E : (match arg with VStr s => Ok (s, Z.of_nat (length s)) | VLight b => Ok (b, u64 (Z.of_nat (length msg))) | _ => Ok ([], u64 (Z.of_nat (length msg))) end : res (list Z * Z)) =
    Ok (msg, Z.of_nat (length msg))) by (destruct Harg as [->| ->]; [done|by rewrite u64_small by lia]).
  unfold lpackresponse. rewrite E, u32_small by done. destruct (ok && (MULTI_PART <? Z.of_nat (length msg))) eqn:Eb.
  - apply andb_true_iff in Eb as [-> Lt%Z.ltb_lt].
    assert (Hne : msg <> []) by (intros ->; simpl in *; lia). rewrite multi_response_spec by done.
    eexists _, (map (fun p : bool * list Z => dword_bytes session ++ [if p.1 then 3 else 4] ++ p.2) (pieces msg)). split; [cbn [lift map]; by rewrite map_map|].
    split; [apply frame_short; written_lia|]. split; [apply response_head_read; lia|].
    apply joins_pieces; [done..|]. intros [more p] Hp. cbn [fst snd] in *. split; [written_lia|].
    rewrite response_read; [|lia|destruct more; auto|lia]. by destruct more.
  - set (sz := if MULTI_PART <? Z.of_nat (length msg) then MULTI_PART else Z.of_nat (length msg)).
    assert (0 <= sz <= Z.of_nat (length msg) /\ sz <= MULTI_PART) as [S1 S2] by (subst sz; destruct (Z.ltb_spec MULTI_PART (Z.of_nat (length msg))); lia).
    rewrite short_response_take by done. eexists. split; [done|].
    assert (take (Z.to_nat sz) msg = take (Z.to_nat MULTI_PART) msg) as ->.
    { subst sz. destruct (Z.ltb_spec MULTI_PART (Z.of_nat (length msg))); [done|]. rewrite Nat2Z.id, firstn_all, take_ge by lia. done. }
    assert (Z.of_nat (length (take (Z.to_nat MULTI_PART) msg)) <= MULTI_PART) by (rewrite length_take; lia).
    split; [apply frame_short; written_lia|]. rewrite response_read; [|done|destruct ok; auto|lia]. by destruct ok.
Qed.

(** ** Any strings *)

Lemma todword_in mem p : 0 <= p -> p + 4 <= Z.of_nat (length mem) -> exists v, todword mem p = Some v /\ 0 <= v < 2 ^ 32.
Proof.
  intros H1 H2. unfold todword. do 4 (match goal with |- context [aget mem ?q] => destruct (aget_is_Some mem q ltac:(lia)) as [? ->] end). eexists. split; [done|apply u32_range].
Qed.

Lemma push_in mem p n : 0 <= p -> 0 <= n -> p + n <= Z.of_nat (length mem) -> exists s, pushlstring mem p n = Some (VStr s).
Proof. intros. unfold pushlstring. rewrite memcpy_Some by lia. eauto. Qed.

(** Each read of the goal is within the string. *)
Ltac read_in :=
  match goal with
  | |- context [unpack_uint32 ?m ?q] => let v := fresh "v" in let E := fresh "E" in let B := fresh "B" in destruct (todword_in m q) as (v & E & B); [lia|lia|]; unfold unpack_uint32 at 1; rewrite E; cbn [lift]; clear E
  | |- context [pushlstring ?m ?q ?n] => let s := fresh "s" in destruct (push_in m q n) as [s ->]; [lia|lia|lia|]; cbn [lift]
  end.

(** The test the goal comes to first. *)
Ltac case_if_first := match goal with |- res_ok _ (if ?c then _ else _) => destruct c end.

(** C38: Whatever bytes come from another cluster, they are read within the string.  For any string of bytes below 2 GB, [lunpackrequest] and [lunpackresponse] return values or raise a Lua error, never
    anything undefined; [lunpackrequest] returns three or four values, and a size it or [lunpackresponse] returns is below 2^32. *)
Theorem cluster_unpack_safe msg : Forall byte msg -> Z.of_nat (length msg) < 2 ^ 31 ->
  res_ok (fun l => (length l = 3 \/ length l = 4)%nat) (lunpackrequest msg) /\
  res_ok (fun l => forall n, nth_error l 2 = Some (VInt n) -> 0 <= n < 2 ^ 32) (lunpackresponse msg).
Proof.
  intros HB H. set (sz := Z.of_nat (length msg)) in *. assert (L : Z.of_nat (length (c_string msg)) = sz + 1) by (unfold c_string; rewrite length_app; simpl; lia).
  assert (HB' : Forall byte (c_string msg)) by (apply Forall_app; split; [done|]; repeat constructor; unfold byte; lia).
  assert (HG : forall i, 0 <= i <= sz -> exists b, aget (c_string msg) i = Some b /\ 0 <= b < 256).
  { intros i Hi. destruct (aget_is_Some (c_string msg) i ltac:(lia)) as [b E]. exists b. split; [done|]. apply aget_Some in E as [_ E]. rewrite Forall_lookup in HB'. by apply (HB' _ _ E). }
  set (buf := c_string msg) in *. split.
  - unfold lunpackrequest. fold sz buf. rewrite i32_small by lia. destruct (HG 0 ltac:(lia)) as (b & E0 & _). rewrite E0. cbn [lift].
    case_if_first; [|case_if_first; [|case_if_first; [|case_if_first; [|case_if_first; [|done]]]]].
    + unfold unpackreq_number. destruct (Z.ltb_spec sz 9); [done|]. repeat read_in. by left.
    + unfold unpackmreq_number. destruct (Z.eqb_spec sz 13); [|done]. cbn [negb]. repeat read_in. by right.
    + unfold unpackmreq_part. destruct (Z.ltb_spec sz 5); [done|]. rewrite E0. cbn [lift]. repeat read_in. by right.
    + unfold unpackreq_string. destruct (Z.ltb_spec sz 2); [done|]. destruct (HG 1 ltac:(lia)) as (c & -> & Hc). cbn [lift]. rewrite u64_small by lia.
      destruct (Z.ltb_spec sz (c + 6)); [done|]. repeat read_in. by left.
    + unfold unpackmreq_string. destruct (Z.ltb_spec sz 2); [done|]. destruct (HG 1 ltac:(lia)) as (c & -> & Hc). cbn [lift]. rewrite u64_small by lia.
      destruct (Z.ltb_spec sz (c + 10)); [done|]. repeat read_in. by right.
  - unfold lunpackresponse. fold sz buf. destruct (Z.ltb_spec sz 5); [by cbn; intros ? [=]|]. read_in. destruct (HG 4 ltac:(lia)) as (k & -> & _). cbn [lift].
    destruct (push_in buf 5 (sz - 5)) as [s E]; [lia|lia|lia|].
    destruct (decide (k = 2)) as [->|N2].
    + destruct (Z.eqb_spec sz 9); cbn -[unpack_uint32]; [|by intros ? [=]]. read_in. cbn. by intros ? [= <-].
    + rewrite E. cbn [lift]. repeat case_match; try done; by intros ? [=].
Qed.

(** A size of 2^31 or more, which a peer may send, is negative for [lconcat]. *)
Lemma lconcat_negative n parts : 2 ^ 31 <= n < 2 ^ 32 -> lconcat (VTable (VInt n :: parts)) = Stuck.
Proof. intros H. unfold lconcat. assert (i32 n < 0) by (unfold i32; Z.div_mod_to_equations; lia). destruct (Z.ltb_spec (i32 n) 0); [done|lia]. Qed.

(** ** Examples *)


Lemma cluster_response_roundtrip_witness : exists body, lpackresponse 9 true (VStr [104; 105]) 2 = Ok [VStr (encode 2 body)] /\ lunpackresponse body = Ok [VInt 9; VBool true; VStr [104; 105]].
Proof.
  pose proof (cluster_response_roundtrip 9 true (VStr [104; 105]) [104; 105]) as R. rewrite MULTI_PART_eq in R.
  destruct R as (body & E & _ & U); [lia|by left|simpl; lia|]. exists body. split; [exact E|]. rewrite U. do 4 f_equal.
Defined.

Lemma cluster_unpack_safe_witness : res_ok (fun l => (length l = 3 \/ length l = 4)%nat) (lunpackrequest [0x81; 200; 1]).
Proof. apply (cluster_unpack_safe [0x81; 200; 1]); [repeat constructor; unfold byte; lia|simpl; lia]. Defined.
