(* ===== verification/RwLock.v ===== *)
(** * The locks ([skynet-src/rwlock.h], [skynet-src/spinlock.h])

    The readers-writer lock and the spin lock of the runtime, each access to the memory of a lock being a step of a thread ([__sync_*] are full barriers, so the accesses of all
    threads have one order).  The other components take a critical section for one step; here is what they rely on. *)

From S2P Require Import Prelude Sums.

(** ** The readers-writer lock *)

Record rwlock := MkRwlock { l_write : Z; l_read : Z }.

Definition rwlock_init : rwlock := MkRwlock 0 0.

(** Where a thread is: outside; in [rwlock_rlock] before the test of the inner loop, the increment, the test after it and the decrement; with the lock for reading; in
    [rwlock_wlock] before the test-and-set and the test of [read]; with the lock for writing. *)
Inductive rw_point := Idle | RSpin | RAdd | RTest | RSub | Reading | WSet | WSpin | Writing.

(** One access.  From [Idle] a thread calls [rwlock_wlock] ([write]) or [rwlock_rlock]; from [Reading] and [Writing] it gives the lock back. *)
Definition rw_step (write : bool) (l : rwlock) (p : rw_point) : rwlock * rw_point :=
  match p with
  | Idle => (l, if write then WSet else RSpin)
  | RSpin => (l, if l_write l =? 0 then RAdd else RSpin)
  | RAdd => (MkRwlock (l_write l) (l_read l + 1), RTest)
  | RTest => (l, if l_write l =? 0 then Reading else RSub)
  | RSub => (MkRwlock (l_write l) (l_read l - 1), RSpin)
  | Reading => (MkRwlock (l_write l) (l_read l - 1), Idle)
  | WSet => (MkRwlock 1 (l_read l), if l_write l =? 0 then WSpin else WSet)
  | WSpin => (l, if l_read l =? 0 then Writing else WSpin)
  | Writing => (MkRwlock 0 (l_read l), Idle)
  end.

(** The lock and the threads that use it. *)
Definition rw_state := (rwlock * list rw_point)%type.

Definition rw_thread (i : nat) (write : bool) (s : rw_state) : option rw_state :=
  let! p := s.2 !! i in
  let (l, q) := rw_step write s.1 p in
  Some (l, <[i := q]> s.2).

Inductive rw_reachable (n : nat) : rw_state -> Prop :=
  | rw_start : rw_reachable n (rwlock_init, replicate n Idle)
  | rw_next s i write s' : rw_reachable n s -> rw_thread i write s = Some s' -> rw_reachable n s'.

(** ** Exclusion *)

Definition counted (p : rw_point) : Z := match p with RTest | RSub | Reading => 1 | _ => 0 end.
Definition marked (p : rw_point) : Z := match p with WSpin | Writing => 1 | _ => 0 end.

Record rw_ok (s : rw_state) : Prop := {
  ok_read : l_read s.1 = sum counted s.2;
  ok_write : l_write s.1 = sum marked s.2;
  ok_one : sum marked s.2 <= 1;
  ok_alone : Writing ∈ s.2 -> Reading ∉ s.2;
}.

Lemma counted_range p : 0 <= counted p. Proof. by destruct p. Qed.
Lemma marked_range p : 0 <= marked p. Proof. by destruct p. Qed.

Lemma rw_ok_init n : rw_ok (rwlock_init, replicate n Idle).
Proof.
  assert (forall f, f Idle = 0 -> sum f (replicate n Idle) = 0) as Z0 by (intros f E; induction n; simpl; [done|]; rewrite E; unfold sum in *; lia).
  constructor; simpl; rewrite ?Z0; try done. intros (i & H)%list_elem_of_lookup. apply lookup_replicate in H as [[=] _].
Qed.

Lemma elem_of_insert_point (p q : rw_point) (l : list rw_point) i : p ∈ <[i := q]> l -> p = q \/ exists j, j <> i /\ l !! j = Some p.
Proof.
  intros (j & H)%list_elem_of_lookup. destruct (decide (j = i)) as [->|N].
  - apply list_lookup_insert_Some in H as [(_ & -> & _)|(? & _)]; [by left|done].
  - right. exists j. by rewrite list_lookup_insert_ne in H.
Qed.

Lemma rw_ok_step s i write s' : rw_ok s -> rw_thread i write s = Some s' -> rw_ok s'.
Proof.
  destruct s as [[w r] ts]. intros [R W O A] H. unfold rw_thread in H. simpl in *. destruct (ts !! i) as [p|] eqn:E; [|done].
  pose proof (sum_at counted ts i p counted_range E) as Cp. pose proof (sum_at marked ts i p marked_range E) as Mp.
  assert (Up : forall q, q <> Writing -> q <> Reading -> Writing ∈ <[i := q]> ts -> Reading ∉ <[i := q]> ts).
  { intros q Nw Nr [Eq|(j & _ & Hj)]%elem_of_insert_point [Eq'|(k & _ & Hk)]%elem_of_insert_point; try congruence.
    apply A; eapply list_elem_of_lookup_2; eassumption. }
  assert (Nw : sum marked ts = 0 -> Writing ∉ ts).
  { intros S (j & Hj)%list_elem_of_lookup. pose proof (sum_at marked ts j Writing marked_range Hj). simpl in *. lia. }
  assert (Nr : sum counted ts = 0 -> Reading ∉ ts).
  { intros S (j & Hj)%list_elem_of_lookup. pose proof (sum_at counted ts j Reading counted_range Hj). simpl in *. lia. }
  destruct p; simpl in *; simplify_eq/=; repeat case_match; simplify_eq/=; (constructor; simpl; [rewrite (sum_insert _ _ _ _ _ E); simpl; lia..|]); try (by apply Up).
  - intros [[=]|(j & _ & Hj)]%elem_of_insert_point. destruct Nw; [lia|]. by eapply list_elem_of_lookup_2.
  - intros _ [[=]|(j & _ & Hj)]%elem_of_insert_point. destruct Nr; [lia|]. by eapply list_elem_of_lookup_2.
Qed.

Lemma rw_reachable_ok n s : rw_reachable n s -> rw_ok s.
Proof. induction 1; [apply rw_ok_init|by eapply rw_ok_step]. Qed.

(** [k] accesses of a thread that no other hinders. *)
Fixpoint rw_alone (k : nat) (l : rwlock) (p : rw_point) : rwlock * rw_point :=
  match k with O => (l, p) | S k => let (l, p) := rw_step true l p in rw_alone k l p end.



(** ** The spin lock *)

(** A thread outside, before the test-and-set of [spinlock_lock], and with the lock.  [spinlock_trylock] goes back when the lock is taken. *)
Inductive spin_point := Outside | Spinning | Inside.

Definition spinlock_init : Z := 0.

(** One access: the lock, the point, and the result of [spinlock_trylock], which a thread may call from [Outside] ([try]). *)
Definition spin_step (try : bool) (lock : Z) (p : spin_point) : Z * spin_point :=
  match p with
  | Outside => if try then (1, if lock =? 0 then Inside else Outside) else (lock, Spinning)
  | Spinning => (1, if lock =? 0 then Inside else Spinning)
  | Inside => (0, Outside)
  end.

Definition spin_thread (i : nat) (try : bool) (s : Z * list spin_point) : option (Z * list spin_point) :=
  let! p := s.2 !! i in
  let (l, q) := spin_step try s.1 p in
  Some (l, <[i := q]> s.2).

Inductive spin_reachable (n : nat) : Z * list spin_point -> Prop :=
  | spin_start : spin_reachable n (spinlock_init, replicate n Outside)
  | spin_next s i try s' : spin_reachable n s -> spin_thread i try s = Some s' -> spin_reachable n s'.

Definition inside (p : spin_point) : Z := match p with Inside => 1 | _ => 0 end.

(** The lock is the number of threads that have it, at most one. *)
Lemma spinlock_exclusion n s : spin_reachable n s -> s.1 = sum inside s.2 /\ 0 <= s.1 <= 1.
Proof.
  induction 1 as [|s i try s' _ [IH B] H].
  - simpl. split; [|unfold spinlock_init; lia]. symmetry. unfold spinlock_init. induction n; [done|]. unfold sum in *. simpl. lia.
  - destruct s as [l ts]. unfold spin_thread in H. simpl in *. destruct (ts !! i) as [p|] eqn:E; [|done].
    pose proof (sum_at inside ts i p (fun p => match p with Inside => Z.le_0_1 | _ => Z.le_refl 0 end) E) as Ip.
    destruct p, try; simplify_eq/=; repeat case_match; simplify_eq/=; rewrite (sum_insert _ _ _ _ _ E); simpl; lia.
Qed.
