(* ===== verification/Stm.v ===== *)
(** * Shared memory between services ([lualib-src/lua-stm.c])

    A writer publishes messages in an object; readers in other services take the newest one, each message being kept until nobody refers to it.  The object has a readers-writer lock ([RwLock] is about
    it) and a count of references, each copy of a message a count of its own.

    Each step of a thread is one access that other threads can see: taking a lock, giving it back, or what is done with it.  [stm_releasecopy] is one step, as the memory it frees is no other's. *)

From S2P Require Import Prelude.

(** ** State *)

(** [struct stm_copy] and [struct stm_object]; copies are named by their address.  The lock is the number of readers in it and whether the writer is. *)
Record stm_copy_t := MkCopy { c_reference : Z; c_sz : Z; c_msg : list Z }.
Record stm_object := MkObject { o_readers : Z; o_write : bool; o_reference : Z; o_copy : option nat }.

(** Where the service that has the writer is: between calls; in [lcopy] ([WGrab] to [WGrabUnlock]); in [lupdate] with the new copy, then the old; in [ldeletewriter]. *)
Inductive writer_point :=
  | WIdle
  | WGrab | WGrabIn | WGrabUnlock
  | WUpdate (copy : nat) | WUpdateIn (copy : nat) | WUpdateUnlock (oldcopy : option nat) | WUpdateDrop (oldcopy : option nat)
  | WRelease | WReleaseIn | WReleaseUnlock
  | WGone.

(** A reader with [lastcopy]: between calls; in [lread] ([RCopy] to [RRead], which has the result of [stm_copy]); in [ldeletereader]. *)
Inductive reader_point :=
  | RIdle (last : option nat)
  | RCopy (last : option nat) | RCopyIn (last : option nat) | RCopyUnlock (last ret : option nat) | RRead (last ret : option nat)
  | RDelete (last : option nat) | RDeleteIn (last : option nat) | RDeleteUnlock (last : option nat) | RDeleteDrop (last : option nat)
  | RGone.

(** [m_object] is [None] when it has been freed; [m_handles] are the references [lcopy] has returned and no [lnewreader] has taken yet. *)
Record stm := MkStm {
  m_object : option stm_object;
  m_copies : gmap nat stm_copy_t;
  m_writer : writer_point;
  m_handles : Z;
  m_readers : list reader_point;
}.

(** What a step gives: [Wait] when the lock is taken, [Fault] a failed assertion or an access to freed memory. *)
Inductive outcome (A : Type) := Next (a : A) | Wait | Fault.
#[global] Arguments Next {A} a.
#[global] Arguments Wait {A}.
#[global] Arguments Fault {A}.

Definition set_object (o : option stm_object) (w : stm) : stm := MkStm o (m_copies w) (m_writer w) (m_handles w) (m_readers w).
Definition set_copies (c : gmap nat stm_copy_t) (w : stm) : stm := MkStm (m_object w) c (m_writer w) (m_handles w) (m_readers w).
Definition set_writer (p : writer_point) (w : stm) : stm := MkStm (m_object w) (m_copies w) p (m_handles w) (m_readers w).
Definition set_handles (n : Z) (w : stm) : stm := MkStm (m_object w) (m_copies w) (m_writer w) n (m_readers w).
Definition set_reader (i : nat) (p : reader_point) (w : stm) : stm := MkStm (m_object w) (m_copies w) (m_writer w) (m_handles w) (<[i := p]> (m_readers w)).

(** ** Operations *)

(** An access to the object. *)
Definition with_object (w : stm) (f : stm_object -> outcome stm) : outcome stm :=
  match m_object w with Some o => f o | None => Fault end.

(** [sz] is passed as an [int32_t]. *)
Definition stm_newcopy (msg : list Z) : stm_copy_t := MkCopy 1 (u32 (i32 (Z.of_nat (length msg)))) msg.

Definition stm_releasecopy (copy : option nat) (w : stm) : outcome stm :=
  match copy with
  | None => Next w
  | Some c =>
    match m_copies w !! c with
    | Some k => Next (set_copies (if c_reference k - 1 =? 0 then delete c (m_copies w) else <[c := MkCopy (c_reference k - 1) (c_sz k) (c_msg k)]> (m_copies w)) w)
    | None => Fault
    end
  end.

(** [rwlock_rlock], [rwlock_runlock], [rwlock_wlock], [rwlock_wunlock]. *)
Definition rlock (w : stm) : outcome stm :=
  with_object w (fun o => if o_write o then Wait else Next (set_object (Some (MkObject (o_readers o + 1) false (o_reference o) (o_copy o))) w)).
Definition runlock (w : stm) : outcome stm :=
  with_object w (fun o => Next (set_object (Some (MkObject (o_readers o - 1) (o_write o) (o_reference o) (o_copy o))) w)).
Definition wlock (w : stm) : outcome stm :=
  with_object w (fun o => if o_write o || negb (o_readers o =? 0) then Wait else Next (set_object (Some (MkObject (o_readers o) true (o_reference o) (o_copy o))) w)).
Definition wunlock (w : stm) : outcome stm :=
  with_object w (fun o => Next (set_object (Some (MkObject (o_readers o) false (o_reference o) (o_copy o))) w)).

Definition then_ (m : outcome stm) (f : stm -> outcome stm) : outcome stm := match m with Next w => f w | Wait => Wait | Fault => Fault end.
Definition goto (p : writer_point) (w : stm) : outcome stm := Next (set_writer p w).
Definition goto_reader (i : nat) (p : reader_point) (w : stm) : outcome stm := Next (set_reader i p w).

(** What the writer's service calls next: [lcopy], [lupdate] with a message, for which [malloc] gives the address [new], or [ldeletewriter]. *)
Inductive stm_call := CCopy | CUpdate (new : nat) (msg : list Z) | CDelete.

(** [ATOM_FINC] of the object's count, the assertion on its result, which [stm_grab] makes after the unlock, taken with it. *)
Definition stm_grab_in (w : stm) : outcome stm :=
  with_object w (fun o => if 0 <? o_reference o then Next (set_object (Some (MkObject (o_readers o) (o_write o) (o_reference o + 1) (o_copy o))) w) else Fault).

Definition stm_update_in (copy : nat) (w : stm) : outcome stm :=
  with_object w (fun o => Next (set_writer (WUpdateUnlock (o_copy o)) (set_object (Some (MkObject (o_readers o) (o_write o) (o_reference o) (Some copy))) w))).

(** [assert(obj->copy)] comes before the lock. *)
Definition stm_release_begin (w : stm) : outcome stm :=
  with_object w (fun o => if o_copy o then then_ (wlock w) (goto WReleaseIn) else Fault).

Definition stm_release_in (w : stm) : outcome stm :=
  with_object w (fun o =>
    then_ (stm_releasecopy (o_copy o) w) (fun w =>
      let reference := o_reference o - 1 in
      if 0 <? reference then goto WReleaseUnlock (set_object (Some (MkObject (o_readers o) (o_write o) reference None)) w)
      else goto WGone (set_object None w))).

Definition writer_step (c : stm_call) (w : stm) : outcome stm :=
  match m_writer w with
  | WIdle =>
    match c with
    | CCopy => goto WGrab w
    | CUpdate new msg => match m_copies w !! new with None => goto (WUpdate new) (set_copies (<[new := stm_newcopy msg]> (m_copies w)) w) | Some _ => Wait end
    | CDelete => goto WRelease w
    end
  | WGrab => then_ (rlock w) (goto WGrabIn)
  | WGrabIn => then_ (stm_grab_in w) (goto WGrabUnlock)
  | WGrabUnlock => then_ (runlock w) (fun w => goto WIdle (set_handles (m_handles w + 1) w))
  | WUpdate copy => then_ (wlock w) (goto (WUpdateIn copy))
  | WUpdateIn copy => stm_update_in copy w
  | WUpdateUnlock old => then_ (wunlock w) (goto (WUpdateDrop old))
  | WUpdateDrop old => then_ (stm_releasecopy old w) (goto WIdle)
  | WRelease => stm_release_begin w
  | WReleaseIn => stm_release_in w
  | WReleaseUnlock => then_ (wunlock w) (goto WGone)
  | WGone => Wait
  end.

(** [ATOM_FINC] of the copy's count and its assertion. *)
Definition stm_copy_in (i : nat) (last : option nat) (w : stm) : outcome stm :=
  with_object w (fun o =>
    match o_copy o with
    | None => goto_reader i (RCopyUnlock last None) w
    | Some c =>
      match m_copies w !! c with
      | Some k => if 0 <? c_reference k then goto_reader i (RCopyUnlock last (Some c)) (set_copies (<[c := MkCopy (c_reference k + 1) (c_sz k) (c_msg k)]> (m_copies w)) w) else Fault
      | None => Fault
      end
    end).

Definition stm_releasereader_in (i : nat) (last : option nat) (w : stm) : outcome stm :=
  with_object w (fun o =>
    let reference := o_reference o - 1 in
    if reference =? 0 then (if o_copy o then Fault else goto_reader i (RDeleteDrop last) (set_object None w))
    else goto_reader i (RDeleteUnlock last) (set_object (Some (MkObject (o_readers o) (o_write o) reference (o_copy o))) w)).

(** Reader [i]; [delete] chooses between [ldeletereader] and [lread]. *)
Definition reader_step (i : nat) (delete : bool) (w : stm) : outcome stm :=
  match m_readers w !! i with
  | None => Wait
  | Some p =>
    match p with
    | RIdle last => goto_reader i (if delete then RDelete last else RCopy last) w
    | RCopy last => then_ (rlock w) (goto_reader i (RCopyIn last))
    | RCopyIn last => stm_copy_in i last w
    | RCopyUnlock last ret => then_ (runlock w) (goto_reader i (RRead last ret))
    | RRead last ret =>
      if decide (ret = last) then then_ (stm_releasecopy ret w) (goto_reader i (RIdle last))
      else then_ (stm_releasecopy last w) (goto_reader i (RIdle ret))
    | RDelete last => then_ (rlock w) (goto_reader i (RDeleteIn last))
    | RDeleteIn last => stm_releasereader_in i last w
    | RDeleteUnlock last => then_ (runlock w) (goto_reader i (RDeleteDrop last))
    | RDeleteDrop last => then_ (stm_releasecopy last w) (goto_reader i RGone)
    | RGone => Wait
    end
  end.

(** What [lread] hands to the function of the caller; [None] when it returns false. *)
Definition lread_value (w : stm) (p : reader_point) : option (list Z * Z) :=
  match p with
  | RRead last (Some c) => if decide (Some c = last) then None else let! k := m_copies w !! c in Some (c_msg k, c_sz k)
  | _ => None
  end.

(** [lnewreader]: a reference [lcopy] has returned is taken once. *)
Definition lnewreader (w : stm) : outcome stm :=
  if 0 <? m_handles w then Next (MkStm (m_object w) (m_copies w) (m_writer w) (m_handles w - 1) (m_readers w ++ [RIdle None])) else Wait.

(** [lnewwriter]; the copy is at the address [new]. *)
Definition lnewwriter (new : nat) (msg : list Z) : stm :=
  MkStm (Some (MkObject 0 false 1 (Some new))) {[new := stm_newcopy msg]} WIdle 0 [].

Inductive action := AWriter (c : stm_call) | AReader (i : nat) (delete : bool) | ANewReader.

Definition stm_act (a : action) (w : stm) : outcome stm :=
  match a with
  | AWriter c => writer_step c w
  | AReader i delete => reader_step i delete w
  | ANewReader => lnewreader w
  end.

Inductive stm_reachable : stm -> Prop :=
  | stm_start new msg : stm_reachable (lnewwriter new msg)
  | stm_next w a w' : stm_reachable w -> stm_act a w = Next w' -> stm_reachable w'.
