(* ===== verification/StmSpec.v ===== *)
(** * Shared memory is counted exactly

    The invariant of [Stm]: the count of a copy is the number of places that refer to it, that of the object the number of the writer and the readers, whatever the order of their steps. *)

From S2P Require Import Prelude Sums Stm.

(** ** Counting *)

(** The references to the copy [c] in a place, at the points of the writer and of a reader. *)
Definition refers (c : nat) (o : option nat) : Z := if decide (o = Some c) then 1 else 0.

Definition object_refs (c : nat) (o : option stm_object) : Z := match o with Some o => refers c (o_copy o) | None => 0 end.
Definition writer_refs (c : nat) (p : writer_point) : Z :=
  match p with WUpdate k | WUpdateIn k => refers c (Some k) | WUpdateUnlock o | WUpdateDrop o => refers c o | _ => 0 end.
Definition reader_refs (c : nat) (p : reader_point) : Z :=
  match p with
  | RIdle l | RCopy l | RCopyIn l | RDelete l | RDeleteIn l | RDeleteUnlock l | RDeleteDrop l => refers c l
  | RCopyUnlock l r | RRead l r => refers c l + refers c r
  | RGone => 0
  end.

Definition refs (w : stm) (c : nat) : Z := object_refs c (m_object w) + writer_refs c (m_writer w) + sum (reader_refs c) (m_readers w).

(** Who counts for the object, who is in its lock, and whether the writer has released it. *)
Definition released (p : writer_point) : bool := match p with WReleaseUnlock | WGone => true | _ => false end.
Definition writer_in (p : writer_point) : Z := match p with WGrabIn | WGrabUnlock => 1 | _ => 0 end.
Definition writer_writes (p : writer_point) : bool := match p with WUpdateIn _ | WUpdateUnlock _ | WReleaseIn | WReleaseUnlock => true | _ => false end.
Definition holds (p : reader_point) : Z := match p with RDeleteUnlock _ | RDeleteDrop _ | RGone => 0 | _ => 1 end.
Definition reader_in (p : reader_point) : Z := match p with RCopyIn _ | RCopyUnlock _ _ | RDeleteIn _ | RDeleteUnlock _ => 1 | _ => 0 end.
(** [stm_grab] has counted the handle it has not yet returned. *)
Definition grabbed (p : writer_point) : Z := match p with WGrabUnlock => 1 | _ => 0 end.

(** The counts of the copies are those of [f]. *)
Definition owned (m : gmap nat stm_copy_t) (f : nat -> Z) : Prop :=
  forall c, match m !! c with Some k => c_reference k = f c /\ 0 < f c | None => f c = 0 end.

Definition object_ok (o : option stm_object) (p : writer_point) (handles : Z) (rs : list reader_point) : Prop :=
  match o with
  | Some o =>
    o_reference o = Z.b2z (negb (released p)) + grabbed p + handles + sum holds rs /\ 0 < o_reference o /\
    o_readers o = writer_in p + sum reader_in rs /\ o_write o = writer_writes p /\ (o_write o = true -> o_readers o = 0) /\
    (o_copy o = None <-> released p = true)
  | None => p = WGone /\ handles = 0 /\ sum holds rs = 0
  end.

Record stm_ok (w : stm) : Prop := {
  ok_copies : owned (m_copies w) (refs w);
  ok_object : object_ok (m_object w) (m_writer w) (m_handles w) (m_readers w);
  ok_handles : 0 <= m_handles w;
}.

(** ** Copies *)

Lemma refers_eq c : refers c (Some c) = 1. Proof. unfold refers. by rewrite decide_True. Qed.
Lemma refers_ne c d : d <> c -> refers c (Some d) = 0. Proof. intros N. unfold refers. rewrite decide_False by congruence. done. Qed.
Lemma refers_none c : refers c None = 0. Proof. done. Qed.
Lemma refers_range c o : 0 <= refers c o <= 1. Proof. unfold refers. case_decide; lia. Qed.

Lemma owned_ext m f g : owned m f -> (forall c, f c = g c) -> owned m g.
Proof. intros O E c. specialize (O c). by rewrite (E c) in O. Qed.

(** One more or one less reference to a copy. *)
Lemma owned_insert m f c k n : owned m f -> m !! c = Some k -> 0 < f c + n -> owned (<[c := MkCopy (c_reference k + n) (c_sz k) (c_msg k)]> m) (fun d => f d + n * refers d (Some c)).
Proof.
  intros O E H d. destruct (decide (d = c)) as [->|N].
  - rewrite lookup_insert_eq, refers_eq. specialize (O c). rewrite E in O. simpl. lia.
  - rewrite lookup_insert_ne, refers_ne, Z.mul_0_r, Z.add_0_r by congruence. apply O.
Qed.

Lemma owned_release m f o w : owned (m_copies w) f -> m_copies w = m -> (forall c, o = Some c -> 0 < f c) ->
  exists m', stm_releasecopy o w = Next (set_copies m' w) /\ owned m' (fun d => f d - refers d o).
Proof.
  intros O <- H. unfold stm_releasecopy. destruct o as [c|]; [|exists (m_copies w); split; [by destruct w|]; apply (owned_ext _ f); [done|]; intros d; unfold refers; rewrite decide_False by done; lia].
  specialize (H c eq_refl). pose proof (O c) as Oc. destruct (m_copies w !! c) as [k|] eqn:E; [|lia]. destruct Oc as [R P]. eexists. split; [done|].
  destruct (Z.eqb_spec (c_reference k - 1) 0).
  - intros d. destruct (decide (d = c)) as [->|N].
    + rewrite lookup_delete_eq, refers_eq. lia.
    + rewrite lookup_delete_ne, refers_ne, Z.sub_0_r by congruence. apply O.
  - apply (owned_ext _ (fun d => f d + (-1) * refers d (Some c))); [|intros d; lia]. apply (owned_insert _ _ _ _ (-1)); done || lia.
Qed.

Lemma owned_new m f new msg : owned m f -> m !! new = None -> owned (<[new := stm_newcopy msg]> m) (fun d => f d + refers d (Some new)).
Proof.
  intros O E d. destruct (decide (d = new)) as [->|N].
  - rewrite lookup_insert_eq, refers_eq. specialize (O new). rewrite E in O. simpl. lia.
  - rewrite lookup_insert_ne, refers_ne, Z.add_0_r by congruence. apply O.
Qed.

Lemma reader_refs_pos c p : 0 <= reader_refs c p.
Proof. destruct p; simpl; repeat match goal with |- context [refers ?c ?o] => pose proof (refers_range c o); generalize dependent (refers c o); intros end; lia. Qed.
Lemma holds_pos p : 0 <= holds p. Proof. by destruct p. Qed.
Lemma reader_in_pos p : 0 <= reader_in p. Proof. by destruct p. Qed.

Lemma refs_parts w c : 0 <= object_refs c (m_object w) /\ 0 <= writer_refs c (m_writer w) /\ 0 <= sum (reader_refs c) (m_readers w).
Proof.
  split_and!; [|destruct (m_writer w); simpl; done || apply refers_range|apply sum_pos, reader_refs_pos].
  destruct (m_object w); simpl; [apply refers_range|done].
Qed.

(** ** The writer *)

(** A step of the writer that keeps the copies. *)
Lemma writer_moves w o p handles : stm_ok w -> (forall c, object_refs c o + writer_refs c p = object_refs c (m_object w) + writer_refs c (m_writer w)) ->
  object_ok o p handles (m_readers w) -> 0 <= handles -> stm_ok (MkStm o (m_copies w) p handles (m_readers w)).
Proof. intros [C O H] E O' H'. constructor; simpl; [|done|done]. apply (owned_ext _ _ _ C). intros c. unfold refs. simpl. specialize (E c). lia. Qed.

Definition good (w : stm) (m : outcome stm) : Prop := match m with Next w' => stm_ok w' | Wait => True | Fault => False end.

(** The side conditions of a step at a known point with a live object. *)
Ltac object_lia := simpl in *; repeat match goal with H : _ /\ _ |- _ => destruct H end; subst; simpl in *; repeat split; try done; try lia;
  try (let h := fresh in intros h; match goal with Hi : _ = true -> _ = 0 |- _ => specialize (Hi h) end; lia); try naive_solver lia.

Lemma writer_ok c w : stm_ok w -> good w (writer_step c w).
Proof.
  intros K. pose proof K as [C O H]. unfold writer_step. destruct (m_writer w) eqn:Ew; [..|done];
    (destruct (m_object w) as [[r wr ref cp]|] eqn:Eo; [|by destruct O]).
  - destruct c as [|new msg|]; simpl.
    + apply (writer_moves w _ _ _ K); rewrite ?Ew, ?Eo; object_lia.
    + destruct (m_copies w !! new) eqn:En; [done|]. simpl. constructor; simpl; [|rewrite Eo; object_lia|done].
      apply (owned_ext _ _ _ (owned_new _ _ _ msg C En)). intros d. unfold refs. simpl. rewrite Ew. simpl. lia.
    + apply (writer_moves w _ _ _ K); rewrite ?Ew, ?Eo; object_lia.
  - unfold rlock, with_object. rewrite Eo. destruct wr; simpl; [done|]. apply (writer_moves w _ _ _ K); rewrite ?Ew, ?Eo; object_lia.
  - unfold stm_grab_in, with_object. rewrite Eo. simpl in *. destruct (Z.ltb_spec 0 ref); [|lia]. apply (writer_moves w _ _ _ K); rewrite ?Ew, ?Eo; object_lia.
  - unfold runlock, with_object. rewrite Eo. apply (writer_moves w _ _ _ K); rewrite ?Ew, ?Eo; object_lia.
  - unfold wlock, with_object. rewrite Eo. simpl. destruct wr; simpl; [done|]. destruct (Z.eqb_spec r 0); simpl; [|done]. apply (writer_moves w _ _ _ K); rewrite ?Ew, ?Eo; object_lia.
  - unfold stm_update_in, with_object. rewrite Eo. apply (writer_moves w _ _ _ K); rewrite ?Ew, ?Eo; object_lia.
  - unfold wunlock, with_object. rewrite Eo. apply (writer_moves w _ _ _ K); rewrite ?Ew, ?Eo; object_lia.
  - destruct (owned_release _ _ oldcopy w C eq_refl) as (m' & -> & O').
    + intros d ->. unfold refs. rewrite Ew. simpl. rewrite refers_eq. pose proof (refs_parts w d). lia.
    + simpl. constructor; simpl; [|rewrite Eo; object_lia|done]. apply (owned_ext _ _ _ O'). intros d. unfold refs. simpl. rewrite Ew. simpl. lia.
  - unfold stm_release_begin, wlock, with_object. rewrite Eo. simpl in *. destruct cp as [k|]; [|naive_solver]. simpl. destruct wr; simpl; [done|].
    destruct (Z.eqb_spec r 0); simpl; [|done]. apply (writer_moves w _ _ _ K); rewrite ?Ew, ?Eo; object_lia.
  - unfold stm_release_in, with_object. rewrite Eo. simpl.
    destruct (owned_release _ _ cp w C eq_refl) as (m' & -> & O').
    + intros d ->. unfold refs. rewrite Eo. simpl. rewrite refers_eq. pose proof (refs_parts w d). lia.
    + pose proof (sum_pos holds (m_readers w) holds_pos). simpl in *.
      destruct (Z.ltb_spec 0 (ref - 1)); simpl; (constructor; simpl; [|object_lia|done]);
        apply (owned_ext _ _ _ O'); intros d; unfold refs; simpl; rewrite Ew, Eo; simpl; rewrite ?refers_none; lia.
  - unfold wunlock, with_object. rewrite Eo. apply (writer_moves w _ _ _ K); rewrite ?Ew, ?Eo; object_lia.
Qed.

(** ** The readers *)

(** The sums after reader [i] has gone from [p] to [q]. *)
Lemma sum_reader (f : reader_point -> Z) rs i p q : rs !! i = Some p -> sum f (<[i := q]> rs) = sum f rs - f p + f q.
Proof. apply sum_insert. Qed.

(** A reader with a reference counts, and one in the lock keeps the writer out. *)
Lemma reader_counts rs i p : rs !! i = Some p -> holds p <= sum holds rs /\ reader_in p <= sum reader_in rs.
Proof. intros E. split; [apply (sum_at holds rs i p holds_pos E)|apply (sum_at reader_in rs i p reader_in_pos E)]. Qed.

Lemma reader_referring w c i p : m_readers w !! i = Some p -> reader_refs c p <= refs w c.
Proof. intros E. pose proof (refs_parts w c). pose proof (sum_at (reader_refs c) _ i p (reader_refs_pos c) E). unfold refs. lia. Qed.

(** A step of a reader that keeps the copies, with what happens to the object. *)
Lemma reader_moves w i p q o : stm_ok w -> m_readers w !! i = Some p ->
  (forall c, object_refs c o + reader_refs c q = object_refs c (m_object w) + reader_refs c p) ->
  object_ok o (m_writer w) (m_handles w) (<[i := q]> (m_readers w)) -> stm_ok (MkStm o (m_copies w) (m_writer w) (m_handles w) (<[i := q]> (m_readers w))).
Proof.
  intros [C O H] Ei E O'. constructor; simpl; [|done|done]. apply (owned_ext _ _ _ C). intros c. unfold refs. simpl. rewrite (sum_reader _ _ _ _ q Ei).
  specialize (E c). lia.
Qed.

(** The only fault: giving back the lock of an object another reader has freed. *)
Definition unlock_freed (w : stm) (a : action) : Prop := exists i d last, a = AReader i d /\ m_readers w !! i = Some (RDeleteUnlock last) /\ m_object w = None.

Definition good_but (w : stm) (a : action) (m : outcome stm) : Prop := match m with Next w' => stm_ok w' | Wait => True | Fault => unlock_freed w a end.

(** The object is there for a reader that counts. *)
Lemma reader_object w i p : stm_ok w -> m_readers w !! i = Some p -> holds p = 1 -> is_Some (m_object w).
Proof.
  intros [_ O _] E H. destruct (m_object w); [eauto|]. destruct O as (_ & _ & S). destruct (reader_counts _ _ _ E). lia.
Qed.

(** [stm_releasecopy] of what a reader holds. *)
Lemma reader_drops w i p q last : stm_ok w -> m_readers w !! i = Some p -> holds q = holds p -> reader_in q = reader_in p ->
  (forall c, reader_refs c q = reader_refs c p - refers c last) -> good w (then_ (stm_releasecopy last w) (goto_reader i q)).
Proof.
  intros [C O H] E Hh Hi Hr. destruct (owned_release _ _ last w C eq_refl) as (m' & -> & O').
  - intros c ->. pose proof (reader_referring w c i p E). specialize (Hr c). rewrite refers_eq in Hr. pose proof (reader_refs_pos c q). lia.
  - simpl. constructor; simpl; [| |done].
    + apply (owned_ext _ _ _ O'). intros c. unfold refs. simpl. rewrite (sum_reader _ _ _ _ q E), (Hr c). lia.
    + unfold object_ok in *. rewrite !(sum_reader _ _ _ _ q E), Hh, Hi. destruct (m_object w); [|object_lia]. destruct O as (?&?&?&?&?&?). repeat split; try done; try lia; naive_solver.
Qed.

Ltac reader_lia E := simpl in *; rewrite ?(sum_reader _ _ _ _ _ E); object_lia.

Lemma reader_ok i delete w : stm_ok w -> good_but w (AReader i delete) (reader_step i delete w).
Proof.
  intros K. pose proof K as [C O H]. unfold reader_step. destruct (m_readers w !! i) as [p|] eqn:E; [|done].
  pose proof (reader_counts _ _ _ E) as [Ch Ci]. assert (0 <= writer_in (m_writer w)) as Wi by (by destruct (m_writer w)).
  assert (Good : forall m, good w m -> good_but w (AReader i delete) m) by (intros [| |]; done).
  assert (Obj : holds p = 1 -> exists r wr ref cp, m_object w = Some (MkObject r wr ref cp)) by (intros Hp; destruct (reader_object w i p K E Hp) as [[] Eo]; eauto).
  destruct p as [last|last|last|last ret|last ret|last|last|last|last|]; simpl in Obj; try done;
    try (destruct (Obj eq_refl) as (r & wr & ref & cp & Eo); clear Obj; rewrite Eo in O).
  - simpl. apply (reader_moves w i _ _ _ K E); rewrite ?Eo; [by destruct delete|]. destruct delete; reader_lia E.
  - unfold rlock, with_object. rewrite Eo. destruct wr; simpl; [done|]. apply (reader_moves w i _ _ _ K E); rewrite ?Eo; reader_lia E.
  - apply Good. unfold stm_copy_in, with_object. rewrite Eo. simpl. destruct cp as [c|].
    + pose proof (C c) as Cc. assert (0 < refs w c) by (unfold refs; rewrite Eo; simpl; rewrite refers_eq; pose proof (refs_parts w c); lia).
      destruct (m_copies w !! c) as [k|] eqn:Ec; [|lia]. destruct Cc as [Rc _]. destruct (Z.ltb_spec 0 (c_reference k)); [|lia]. simpl.
      constructor; simpl; [|rewrite Eo; reader_lia E|done]. apply (owned_ext _ (fun d => refs w d + 1 * refers d (Some c))).
      * by apply (owned_insert _ _ _ _ 1 C Ec); lia.
      * intros d. unfold refs. simpl. rewrite (sum_reader _ _ _ _ (RCopyUnlock last (Some c)) E). simpl. lia.
    + simpl. apply (reader_moves w i _ _ _ K E); rewrite ?Eo; [intros c; simpl; rewrite refers_none; lia|reader_lia E].
  - unfold runlock, with_object. rewrite Eo. simpl. apply (reader_moves w i _ _ _ K E); rewrite ?Eo; reader_lia E.
  - apply Good. case_decide as D; [subst ret|]; apply (reader_drops w i _ _ _ K E); simpl; try done; intros c; lia.
  - unfold rlock, with_object. rewrite Eo. destruct wr; simpl; [done|]. apply (reader_moves w i _ _ _ K E); rewrite ?Eo; reader_lia E.
  - apply Good. unfold stm_releasereader_in, with_object. rewrite Eo. simpl in *. destruct (Z.eqb_spec (ref - 1) 0) as [Z1|Z1].
    + pose proof (sum_pos holds (<[i := RDeleteDrop last]> (m_readers w)) holds_pos) as P. rewrite (sum_reader _ _ _ _ _ E) in P. simpl in P.
      destruct O as (O1 & O2 & O3 & O4 & O5 & O6). destruct (m_writer w) eqn:Ew; simpl in *; try lia; (destruct cp as [k|]; [naive_solver|]);
        simpl; apply (reader_moves w i _ _ _ K E); rewrite ?Eo, ?Ew; try (intros c; simpl; rewrite refers_none; lia); reader_lia E.
    + apply (reader_moves w i _ _ _ K E); rewrite ?Eo; reader_lia E.
  - unfold runlock, with_object. destruct (m_object w) as [[r wr ref cp]|] eqn:Eo; [|by exists i, delete, last].
    simpl. apply (reader_moves w i _ _ _ K E); rewrite ?Eo; reader_lia E.
  - apply Good. apply (reader_drops w i _ _ _ K E); simpl; try done; intros c; lia.
Qed.

Lemma act_ok a w : stm_ok w -> good_but w a (stm_act a w).
Proof.
  intros K. destruct a as [c|i d|]; simpl.
  - pose proof (writer_ok c w K) as G. by destruct (writer_step c w).
  - by apply reader_ok.
  - destruct K as [C O H]. unfold lnewreader. destruct (Z.ltb_spec 0 (m_handles w)); [|done]. simpl.
    assert (S : forall f : reader_point -> Z, sum f (m_readers w ++ [RIdle None]) = sum f (m_readers w) + f (RIdle None)).
    { intros f. generalize (m_readers w). intros l. induction l as [|p l IH]; simpl; [lia|]. unfold sum in *. lia. }
    constructor; simpl; [| |lia].
    + apply (owned_ext _ _ _ C). intros c. unfold refs. simpl. rewrite S. simpl. rewrite refers_none. lia.
    + unfold object_ok in *. rewrite !S. destruct (m_object w); object_lia.
Qed.

Lemma stm_ok_start new msg : stm_ok (lnewwriter new msg).
Proof.
  constructor; simpl; [|object_lia|done]. intros c. unfold refs. simpl. destruct (decide (c = new)) as [->|N].
  - rewrite lookup_singleton_eq, refers_eq. simpl. lia.
  - rewrite lookup_singleton_ne, refers_ne by done. lia.
Qed.

Lemma stm_reachable_ok w : stm_reachable w -> stm_ok w.
Proof. induction 1 as [|w a w' _ IH E]; [apply stm_ok_start|]. pose proof (act_ok a w IH) as G. by rewrite E in G. Qed.

(** The content of a copy does not change. *)
Definition keeps (m m' : gmap nat stm_copy_t) : Prop := forall c k, m !! c = Some k -> match m' !! c with Some k' => c_msg k' = c_msg k /\ c_sz k' = c_sz k | None => True end.

Lemma keeps_refl m : keeps m m. Proof. intros c k ->. done. Qed.

Lemma keeps_insert m c k n : m !! c = Some k -> keeps m (<[c := MkCopy n (c_sz k) (c_msg k)]> m).
Proof.
  intros E d k' E'. destruct (decide (d = c)) as [->|N]; [by rewrite lookup_insert_eq; simplify_eq|]. by rewrite lookup_insert_ne, E' by done.
Qed.

Lemma keeps_new m c k : m !! c = None -> keeps m (<[c := k]> m).
Proof. intros E d k' E'. rewrite lookup_insert_ne, E' by congruence. done. Qed.

Lemma keeps_release copy w w' : stm_releasecopy copy w = Next w' -> keeps (m_copies w) (m_copies w').
Proof.
  unfold stm_releasecopy. intros H. destruct copy as [c|]; [|simplify_eq; apply keeps_refl]. destruct (m_copies w !! c) as [k|] eqn:E; [|done].
  simplify_eq/=. case_match; [|by apply keeps_insert]. intros d k' E'. destruct (decide (d = c)) as [->|N]; [by rewrite lookup_delete_eq|by rewrite lookup_delete_ne, E'].
Qed.

Lemma act_keeps a w w' : stm_act a w = Next w' -> keeps (m_copies w) (m_copies w').
Proof.
  intros H. destruct a as [c|i d|]; simpl in H.
  - unfold writer_step, stm_grab_in, stm_update_in, stm_release_begin, stm_release_in, rlock, runlock, wlock, wunlock, with_object, then_, goto in H.
    destruct (m_writer w); repeat case_match; simplify_eq/=; try apply keeps_refl; try (by apply keeps_new);
      match goal with E : stm_releasecopy _ _ = Next _ |- _ => apply keeps_release in E; exact E | _ => idtac end.
  - unfold reader_step, stm_copy_in, stm_releasereader_in, rlock, runlock, with_object, then_, goto_reader in H.
    destruct (m_readers w !! i) as [p|]; [|done]. destruct p; repeat case_match; simplify_eq/=; try apply keeps_refl; try (by apply keeps_insert);
      match goal with E : stm_releasecopy _ _ = Next _ |- _ => apply keeps_release in E; exact E | _ => idtac end.
  - unfold lnewreader in H. case_match; simplify_eq. apply keeps_refl.
Qed.

(** ** Safety *)


(** ** Examples *)

Fixpoint stm_run (l : list action) (w : stm) : outcome stm := match l with [] => Next w | a :: l => then_ (stm_act a w) (stm_run l) end.

Lemma run_stm_reachable l w w' : stm_reachable w -> stm_run l w = Next w' -> stm_reachable w'.
Proof.
  revert w. induction l as [|a l IH]; simpl; intros w R H; [by simplify_eq|]. destruct (stm_act a w) as [w1| |] eqn:E; try done. simpl in H.
  apply (IH w1); [|done]. by eapply stm_next.
Qed.

(** A writer that gives out two handles, of which readers are made, and is deleted. *)
Definition two_readers : list action := repeat (AWriter CCopy) 8 ++ [ANewReader; ANewReader] ++ repeat (AWriter CDelete) 4.

(** Both readers are deleted: each gets the lock, the first counts down, the second counts down and frees the object, the first gives back the lock. *)
Definition delete_race : list action := [AReader 0 true; AReader 0 true; AReader 1 true; AReader 1 true; AReader 0 true; AReader 1 true].

(** Two readers that are deleted at the same time use freed memory.  [stm_releasereader] gives the lock back after it has counted down; when another reader that is in the lock too counts down to zero in between, it
    frees the object, with the lock.  After the writer and both readers have begun their deletion in this order, the state is reachable and the next step of the first reader is a fault. *)
Theorem stm_reader_race : exists w, stm_reachable w /\ stm_run (two_readers ++ delete_race) (lnewwriter 0 [104; 105]) = Next w /\ m_object w = None /\ reader_step 0 true w = Fault.
Proof.
  destruct (stm_run (two_readers ++ delete_race) (lnewwriter 0 [104; 105])) as [w| |] eqn:E; [|by vm_compute in E..].
  exists w. split; [eapply run_stm_reachable; [apply stm_start|exact E]|]. split; [done|]. vm_compute in E. injection E as <-. split; reflexivity.
Qed.

