(* ===== verification/SkynetSocket.v ===== *)
(** * The socket layer of a node ([skynet-src/skynet_socket.c], [skynet-src/skynet_socket.h])

    What the socket server reports becomes a message to the service that owns the socket; what a service asks for becomes a request to the socket server.  The node ([Node], [Server]) and the socket
    server ([Socket]) are the state; a block the socket server hands over enters the memory of the node when it does. *)

From S2P Require Import Prelude Message Handle CString Module Node Server Socket.

Definition SKYNET_SOCKET_TYPE_UDP : Z := 6.

(** The bytes of an integer of [n] bytes, little-endian. *)
Fixpoint int_bytes (n : nat) (v : Z) : list Z := match n with O => [] | S n => Z.land v 0xff :: int_bytes n (Z.shiftr v 8) end.

(** [struct skynet_socket_message] on a 64-bit host: [type], [id], [ud], four bytes of padding, [buffer]; the content of the padding is not specified, here zeros. *)
Definition SIZEOF_SOCKET_MESSAGE : Z := 24.
Definition socket_message_bytes (type id ud buffer : Z) : list Z :=
  int_bytes 4 (u32 type) ++ int_bytes 4 (u32 id) ++ int_bytes 4 (u32 ud) ++ [0; 0; 0; 0] ++ int_bytes 8 (u64 buffer).

Section SocketLayer.
Context `{Services} {K : Kernel}.
(** The texts of the C library for errors. *)
Context (strerror : errno -> list Z) (gai_strerror : Z -> list Z).

(** The text [data] points to, ["" ] for none; only a text is one. *)
Definition data_text (d : msg_data) : option (list Z) :=
  match d with
  | NoData => Some []
  | Str t => Some t
  | StrError e => Some (strerror e)
  | Gai s => Some (gai_strerror s)
  | Socket.Bytes _ => None
  end.

(** The block [data] points to, which the receiver frees. *)
Definition data_block (d : msg_data) (nd : node) : option (Z * node) :=
  match d with
  | NoData => Some (0, nd)
  | Socket.Bytes l => Some (alloc (Node.Bytes l) nd)
  | _ => None
  end.

(** The block of the message with its size, and the buffer it refers to. *)
Definition make_message (type : Z) (padding : bool) (m : socket_message) (nd : node) : option (Z * Z * Z * node) :=
  if padding then
    let! text := data_text (m_data m) in
    let msg_sz := Z.min (Z.of_nat (length text)) 128 in
    let '(sm, nd) := alloc (Node.Bytes (socket_message_bytes type (m_id m) (m_ud m) 0 ++ take (Z.to_nat msg_sz) text)) nd in
    Some (sm, SIZEOF_SOCKET_MESSAGE + msg_sz, 0, nd)
  else
    let! (buffer, nd) := data_block (m_data m) nd in
    let '(sm, nd) := alloc (Node.Bytes (socket_message_bytes type (m_id m) (m_ud m) buffer)) nd in
    Some (sm, SIZEOF_SOCKET_MESSAGE, buffer, nd).

Definition forward_message (type : Z) (padding : bool) (m : socket_message) (nd : node) : option node :=
  let! (sm, sz, buffer, nd) := make_message type padding m nd in
  let! (r, nd) := skynet_context_push (u32 (m_opaque m)) (Msg 0 0 sm (message_sz sz PTYPE_SOCKET)) nd in
  if r =? 0 then Some nd else Some (skynet_free sm (skynet_free buffer nd)).

(** The types of a report that become messages: the type of the message and whether it has a text behind it. *)
Definition message_kind (type : Z) : option (Z * bool) :=
  if type =? SOCKET_DATA then Some (SKYNET_SOCKET_TYPE_DATA, false)
  else if type =? SOCKET_CLOSE then Some (SKYNET_SOCKET_TYPE_CLOSE, false)
  else if type =? SOCKET_OPEN then Some (SKYNET_SOCKET_TYPE_CONNECT, true)
  else if type =? SOCKET_ERROR then Some (SKYNET_SOCKET_TYPE_ERROR, true)
  else if type =? SOCKET_ACCEPT then Some (SKYNET_SOCKET_TYPE_ACCEPT, true)
  else if type =? SOCKET_UDP then Some (SKYNET_SOCKET_TYPE_UDP, false)
  else None.

(** The switch on the result of [socket_server_poll]: a return value of the function. *)
Definition report (type : Z) (m : option socket_message) (more : Z) (nd : node) : option (Z * node) :=
  if type =? SOCKET_EXIT then Some (0, nd) else
  match message_kind type with
  | Some (t, padding) =>
      let! m := m in
      let! nd := forward_message t padding m nd in
      Some (if negb (more =? 0) then -1 else 1, nd)
  | None =>
      let! nd := skynet_error None (str "Unknown socket message type " ++ decimal type ++ str ".") nd in
      Some (-1, nd)
  end.

(** [SOCKET_SERVER] is [None] before [skynet_socket_init] and after [skynet_socket_free]. *)
Definition skynet_socket_init (k : kernel) : option socket_server := Some (socket_server_create k).

Definition skynet_socket_exit (ss : option socket_server) : option (option socket_server) := let! ss := ss in Some (Some (socket_server_exit ss)).

Definition skynet_socket_free (ss : option socket_server) : option (option socket_server * socket_server) :=
  let! ss := ss in let! ss := socket_server_release ss in Some (None, ss).

Definition skynet_socket_poll (fuel : nat) (ss : option socket_server) (nd : node) : option (Z * option socket_server * node) :=
  let! ss := ss in
  let! (type, m, more, ss) := socket_server_poll fuel 1 ss in
  let! (r, nd) := report type m more nd in
  Some (r, Some ss, nd).

(** ** Requests of services *)

(** A structure on the stack is memory for as long as the call. *)
Definition on_stack {A} (b : block) (f : Z -> node -> option (A * node)) (nd : node) : option (A * node) :=
  let '(p, nd) := alloc b nd in
  let! (a, nd) := f p nd in
  Some (a, set_mem (delete p (n_mem nd)) (n_brk nd) (n_freed nd) nd).

Definition check_wsz (c : ctx) (id wsz : Z) (nd : node) : option (Z * node) :=
  if wsz <? 0 then Some (-1, nd)
  else if 1024 * 1024 <? wsz then
    let! handle := skynet_context_handle c nd in
    let tmp := socket_message_bytes SKYNET_SOCKET_TYPE_WARNING id (i32 (wsz / 1024)) 0 in
    let! (_, nd) := on_stack (Node.Bytes tmp) (fun p => skynet_send (Some c) 0 handle PTYPE_SOCKET 0 p SIZEOF_SOCKET_MESSAGE) nd in
    Some (0, nd)
  else Some (0, nd).

Definition skynet_socket_send (c : ctx) (id buffer sz : Z) (ss : option socket_server) (nd : node) : option (Z * option socket_server * node) :=
  let! ss := ss in
  let '(wsz, ss) := socket_server_send id buffer sz ss in
  let! (r, nd) := check_wsz c id wsz nd in
  Some (r, Some ss, nd).

Definition skynet_socket_udp_send (c : ctx) (id : Z) (address : list Z) (buffer sz : Z) (ss : option socket_server) (nd : node) : option (Z * option socket_server * node) :=
  let! ss := ss in
  let! (wsz, ss) := socket_server_udp_send id address buffer sz ss in
  let! (r, nd) := check_wsz c id wsz nd in
  Some (r, Some ss, nd).

Definition skynet_socket_send_lowpriority (id buffer sz : Z) (ss : option socket_server) : option (option socket_server) :=
  let! ss := ss in Some (Some (socket_server_send_lowpriority id buffer sz ss)).

(** A call in the name of the service [c]. *)
Definition with_source {A} (c : ctx) (ss : option socket_server) (nd : node) (f : Z -> socket_server -> A * socket_server) : option (A * option socket_server) :=
  let! source := skynet_context_handle c nd in
  let! ss := ss in
  let '(r, ss) := f source ss in Some (r, Some ss).

Definition skynet_socket_listen (c : ctx) (host : list Z) (port backlog : Z) ss nd := with_source c ss nd (fun source => socket_server_listen source host port backlog).
Definition skynet_socket_connect (c : ctx) (host : list Z) (port : Z) ss nd := with_source c ss nd (fun source => socket_server_connect source host port).
Definition skynet_socket_bind (c : ctx) (fd : Z) ss nd := with_source c ss nd (fun source => socket_server_bind source fd).
Definition skynet_socket_close (c : ctx) (id : Z) ss nd := with_source c ss nd (fun source ss => (tt, socket_server_close source id ss)).
Definition skynet_socket_shutdown (c : ctx) (id : Z) ss nd := with_source c ss nd (fun source ss => (tt, socket_server_shutdown source id ss)).
Definition skynet_socket_start (c : ctx) (id : Z) ss nd := with_source c ss nd (fun source ss => (tt, socket_server_start source id ss)).
Definition skynet_socket_udp (c : ctx) (addr : option (list Z)) (port : Z) ss nd := with_source c ss nd (fun source => socket_server_udp source addr port).

Definition skynet_socket_nodelay (id : Z) (ss : option socket_server) : option (option socket_server) := let! ss := ss in Some (Some (socket_server_nodelay id ss)).
Definition skynet_socket_udp_connect (id : Z) (addr : list Z) (port : Z) (ss : option socket_server) : option (Z * option socket_server) :=
  let! ss := ss in let '(r, ss) := socket_server_udp_connect id addr port ss in Some (r, Some ss).

(** [buffer] is the content of the block of the message. *)
Definition skynet_socket_udp_address (type id ud : Z) (buffer : list Z) : option (list Z) :=
  if negb (type =? SKYNET_SOCKET_TYPE_UDP) then None else socket_server_udp_address (MkMsg id 0 ud (Socket.Bytes buffer)).
End SocketLayer.
