(* ===== verification/SkynetSocketSpec.v ===== *)
(** * What the socket server reports reaches the service

    Each result of the socket server carries what its type says; a report is appended as one message to the queue of the service that owns the socket, or all its memory is freed. *)

From S2P Require Import Prelude Message MQ Sched Handle HandleSpec CString Module Node Server NodeSafe ServerSpec Socket SocketSpec SkynetSocket.

(** ** Results are well typed *)

Section Typed.
Context {K : Kernel}.
Implicit Types ss : socket_server.

Definition is_text (d : msg_data) : Prop := match d with Socket.Bytes _ => False | _ => True end.

(** What the data of a result of this type is. *)
Definition data_typed (type : Z) (d : msg_data) : Prop :=
  if (type =? SOCKET_DATA) || (type =? SOCKET_UDP) then exists l, d = Socket.Bytes l
  else if (type =? SOCKET_CLOSE) || (type =? SOCKET_EXIT) then d = NoData
  else (type = SOCKET_OPEN \/ type = SOCKET_ERROR \/ type = SOCKET_ACCEPT) /\ is_text d.

Definition typed (type : Z) (m : option socket_message) : Prop := type = -1 \/ exists m', m = Some m' /\ data_typed type (m_data m').

Definition typed_out (r : option (Z * option socket_message * socket_server)) : Prop := match r with Some (t, m, _) => typed t m | None => True end.

Lemma force_close_data i ss m ss' : force_close i ss = Some (m, ss') -> m_data m = NoData.
Proof. unfold force_close. intros H. repeat case_match; simplify_eq/=; done. Qed.

Lemma typed_some t m : data_typed t (m_data m) -> typed t (Some m).
Proof. intros H. right. eauto. Qed.

Lemma typed_none m : typed (-1) m. Proof. by left. Qed.

Ltac typed_cases := repeat (case_match; simplify_eq/=); try done; try (by left); try (apply typed_some; simpl; unfold data_typed; simpl; eauto 10 using force_close_data);
  try (match goal with E : force_close _ _ = Some _ |- _ => apply force_close_data in E; rewrite ?E; done end).

Lemma close_typed i ss : typed_out (close_result i ss).
Proof. unfold close_result. typed_cases. Qed.

Lemma text_address a : is_text (address_text a). Proof. unfold address_text. by case_match. Qed.
Lemma text_peer a : is_text (peer_text a). Proof. unfold peer_text. by case_match. Qed.

Lemma open_typed id port opaque host ss : match open_socket id port opaque host ss with Some (t, m, _) => typed t (Some m) | None => True end.
Proof. unfold open_socket. pose proof text_address. typed_cases. Qed.

Lemma send_buffer_typed i ss : typed_out (send_buffer i ss).
Proof. pose proof (close_typed). unfold send_buffer. typed_cases. Qed.

Lemma send_socket_typed id sz buffer priority a ss : typed_out (send_socket id sz buffer priority a ss).
Proof. unfold send_socket. typed_cases. Qed.

Lemma listen_typed id fd opaque ss : typed_out (listen_socket id fd opaque ss).
Proof. unfold listen_socket. typed_cases. Qed.

Lemma close_socket_typed id shutdown opaque ss : typed_out (close_socket id shutdown opaque ss).
Proof.
  unfold close_socket. case_match; [by apply typed_some|]. pose proof (send_buffer_typed (HASH_ID id)) as B.
  typed_cases; match goal with E : send_buffer _ ?s0 = Some _ |- _ => specialize (B s0); by rewrite E in B end.
Qed.

Lemma bind_typed id fd opaque ss : typed_out (bind_socket id fd opaque ss).
Proof. unfold bind_socket. typed_cases. Qed.

Lemma start_typed id opaque ss : typed_out (start_socket id opaque ss).
Proof. unfold start_socket. typed_cases. Qed.

Lemma set_udp_typed id a ss : typed_out (set_udp_address id a ss).
Proof. unfold set_udp_address. typed_cases. Qed.

Lemma ctrl_typed ss : typed_out (ctrl_cmd ss).
Proof.
  unfold ctrl_cmd. destruct (block_readpipe ss) as [[p ss1]|]; [|done]. destruct (pk_request p); case_match; simpl; try done;
    try apply start_typed; try apply bind_typed; try apply listen_typed; try apply close_socket_typed; try apply send_socket_typed; try apply set_udp_typed; try (by left).
  - pose proof (open_typed id port opaque host ss1) as B. by destruct (open_socket id port opaque host ss1) as [[[t m] ss2]|].
  - case_match; [apply send_socket_typed|done].
  - typed_cases.
  - by apply typed_some.
Qed.

Lemma error_typed i e ss : typed_out (error_result i e ss).
Proof. unfold error_result. typed_cases. Qed.

Lemma tcp_typed i ss : typed_out (forward_message_tcp i ss).
Proof. pose proof error_typed. pose proof close_typed. unfold forward_message_tcp. typed_cases. Qed.

Lemma udp_typed i ss : typed_out (forward_message_udp i ss).
Proof. pose proof error_typed. unfold forward_message_udp. typed_cases. Qed.

Lemma connect_typed i ss : typed_out (report_connect i ss).
Proof. pose proof error_typed. pose proof text_address. unfold report_connect. typed_cases. Qed.

(** What a pass of [socket_server_poll] ends with. *)
Definition typed_pass (p : pass) : Prop := match p with Return t m => typed t m | Continue => True end.

Lemma return_typed type m : typed type m -> typed_pass (if type =? -1 then Continue else Return type m).
Proof. by case_match. Qed.

Lemma io_typed i index e ss : match handle_io i index e ss with Some (p, _) => typed_pass p | None => True end.
Proof.
  unfold handle_io. destruct (e_read e).
  - set (r := if s_protocol (slot_at ss i) =? PROTOCOL_TCP then forward_message_tcp i ss else forward_message_udp i ss).
    assert (typed_out r) as T by (subst r; case_match; [apply tcp_typed|apply udp_typed]).
    revert T. generalize r. clear r. intros r T. destruct r as [[[t m] ss1]|]; [|done].
    destruct (negb (s_protocol (slot_at ss i) =? PROTOCOL_TCP) && (t =? SOCKET_UDP)) eqn:E; [|by apply return_typed].
    apply andb_true_iff in E as [_ ->%Z.eqb_eq]. done.
  - destruct (e_write e); [|done]. pose proof (send_buffer_typed i ss) as B. destruct (send_buffer i ss) as [[[t m] s]|]; [|done]. by apply return_typed.
Qed.

Lemma accept_typed i ss : match report_accept i ss with
  | Some (ok, m, _) => typed_pass (if 0 <? ok then Return SOCKET_ACCEPT m else if ok <? 0 then Return SOCKET_ERROR m else Continue) | None => True end.
Proof. pose proof text_peer. unfold report_accept. repeat (case_match; simplify_eq/=); try done; apply typed_some; unfold data_typed; simpl; auto. Qed.

Lemma event_typed ss : match poll_event ss with Some (p, _) => typed_pass p | None => True end.
Proof.
  unfold poll_event. destruct (aget _ _) as [e|]; [|done]. destruct (e_s e) as [i|]; [|done].
  set (ss1 := set_events _ _ _ _). destruct (s_type (slot_at ss1 i) =? SOCKET_TYPE_CONNECTING).
  { pose proof (connect_typed i ss1) as T. destruct (report_connect i ss1) as [[[t m] s]|]; [exact T|done]. }
  destruct (s_type (slot_at ss1 i) =? SOCKET_TYPE_LISTEN).
  { pose proof (accept_typed i ss1) as T. destruct (report_accept i ss1) as [[[ok m] s]|]; [exact T|done]. }
  destruct (s_type (slot_at ss1 i) =? SOCKET_TYPE_INVALID); [done|apply io_typed].
Qed.

Lemma pass_typed more ss : match poll_pass more ss with Some (p, _, _) => typed_pass p | None => True end.
Proof.
  unfold poll_pass. destruct (ss_checkctrl ss && has_cmd ss).
  - pose proof (ctrl_typed ss) as T. destruct (ctrl_cmd ss) as [[[t m] s]|]; [|done]. destruct (negb (t =? -1)); [exact T|done].
  - set (ss1 := set_events false _ _ ss). destruct (ss_event_index ss1 =? Z.of_nat (length (ss_ev ss1))).
    + destruct (call _ _) as [ev s]. set (ss2 := set_events _ _ _ s). destruct (bool_decide _); [by left|].
      pose proof (event_typed ss2) as T. destruct (poll_event ss2) as [[p s1]|]; [exact T|done].
    + pose proof (event_typed ss1) as T. destruct (poll_event ss1) as [[p s1]|]; [exact T|done].
Qed.

(** Each result of [socket_server_poll] is typed. *)
Lemma poll_typed fuel more ss type m more' ss' : socket_server_poll fuel more ss = Some (type, m, more', ss') -> typed type m.
Proof.
  revert more ss. induction fuel as [|fuel IH]; intros more ss H; simpl in H; pose proof (pass_typed more ss) as T;
    destruct (poll_pass more ss) as [[[p more1] ss1]|]; try done; destruct p; simplify_eq; try done. by eapply IH.
Qed.
End Typed.

(** ** Forwarding *)

Section Forward.
Context `{ServicesOk} {K : Kernel}.
Context (strerror : errno -> list Z) (gai_strerror : Z -> list Z).

(** The addresses from [n_brk] on are free. *)
Definition mem_fresh (nd : node) : Prop := 0 < n_brk nd /\ forall p, n_brk nd <= p -> n_mem nd !! p = None.

(** The text behind a message with padding: what is shown of the data. *)
Definition shown (d : msg_data) : list Z := match data_text strerror gai_strerror d with Some text => take 128 text | None => [] end.

Definition is_block (d : msg_data) : Prop := match d with NoData | Socket.Bytes _ => True | _ => False end.

(** What has been allocated for the message: its block with the right content, and the block of the data. *)
Definition message_at (t : Z) (padding : bool) (m : socket_message) (sm sz buffer : Z) (mem : gmap Z block) : Prop :=
  mem !! sm = Some (Node.Bytes (socket_message_bytes t (m_id m) (m_ud m) buffer ++ (if padding then shown (m_data m) else []))) /\
  sz = SIZEOF_SOCKET_MESSAGE + Z.of_nat (length (if padding then shown (m_data m) else [])) /\
  match m_data m with Socket.Bytes l => buffer <> 0 /\ mem !! buffer = Some (Node.Bytes l) | _ => buffer = 0 end.

Lemma alloc_other b nd p nd1 : alloc b nd = (p, nd1) -> n_ctxs nd1 = n_ctxs nd /\ n_handles nd1 = n_handles nd /\ n_mq nd1 = n_mq nd /\ n_remote nd1 = n_remote nd /\ n_freed nd1 = n_freed nd.
Proof. by intros [= <- <-]. Qed.

Lemma kind_cases type t padding : message_kind type = Some (t, padding) ->
  (padding = false /\ (type = SOCKET_DATA \/ type = SOCKET_CLOSE \/ type = SOCKET_UDP)) \/ (padding = true /\ (type = SOCKET_OPEN \/ type = SOCKET_ERROR \/ type = SOCKET_ACCEPT)).
Proof.
  unfold message_kind. repeat match goal with |- context [type =? ?c] => destruct (Z.eqb_spec type c); [intros; simplify_eq; tauto|] end. done.
Qed.

Lemma make_message_spec type t padding m nd : mem_fresh nd -> data_typed type (m_data m) -> message_kind type = Some (t, padding) ->
  exists sm sz buffer mem brk, make_message strerror gai_strerror t padding m nd = Some (sm, sz, buffer, set_mem mem brk (n_freed nd) nd) /\ message_at t padding m sm sz buffer mem /\
    sm <> 0 /\ 0 <= sz < 2 ^ 56 /\ (if buffer =? 0 then delete sm mem else delete sm (delete buffer mem)) = n_mem nd.
Proof.
  intros [Hb Hf] T Kd. unfold make_message. assert (Eb : n_mem nd !! n_brk nd = None) by (apply Hf; lia). assert (Eb1 : n_mem nd !! (n_brk nd + 1) = None) by (apply Hf; lia).
  assert (P : if padding then exists text, data_text strerror gai_strerror (m_data m) = Some text else is_block (m_data m)).
  { destruct (kind_cases _ _ _ Kd) as [[-> [->|[->| ->]]]|[-> [->|[->| ->]]]]; unfold data_typed in T; simpl in T;
      [destruct T as [l ->]|rewrite T|destruct T as [l ->]|destruct T as [_ T]..]; try exact I; destruct (m_data m); simpl in *; (eauto; fail) || done. }
  destruct padding.
  - destruct P as [text Et]. unfold message_at, shown. rewrite Et. unfold alloc. cbn [n_brk n_mem n_freed].
    eexists _, _, 0, _, _. split; [done|].
    assert (Ew : take (Z.to_nat (Z.min (Z.of_nat (length text)) 128)) text = take 128 text).
    { destruct (Z.le_gt_cases (Z.of_nat (length text)) 128); [rewrite Z.min_l, Nat2Z.id, firstn_all, take_ge by lia; done|]. rewrite Z.min_r by lia. done. }
    rewrite Ew. split; [|split; [lia|split]].
    + split; [apply lookup_insert_eq|]. split; [rewrite length_take; unfold SIZEOF_SOCKET_MESSAGE; lia|]. by destruct (m_data m).
    + unfold SIZEOF_SOCKET_MESSAGE. lia.
    + simpl. by rewrite delete_insert_id.
  - unfold message_at, shown, SIZEOF_SOCKET_MESSAGE. destruct (m_data m) as [| | | |l] eqn:Ed; simpl in P; try done; simpl.
    + eexists _, _, 0, _, _. split; [done|]. rewrite ?app_nil_r. split; [|split; [lia|split; [lia|]]].
      * split; [apply lookup_insert_eq|]. split; [lia|done].
      * simpl. by rewrite delete_insert_id.
    + eexists _, _, (n_brk nd), _, _. split; [done|]. rewrite ?app_nil_r. split; [|split; [lia|split; [lia|]]].
      * split; [apply lookup_insert_eq|]. split; [lia|]. split; [lia|]. rewrite lookup_insert_ne by lia. apply lookup_insert_eq.
      * destruct (Z.eqb_spec (n_brk nd) 0); [lia|]. rewrite delete_insert_ne by lia. rewrite (delete_insert_id (n_mem nd) (n_brk nd)) by done. by rewrite delete_insert_id.
Qed.

Lemma message_mem nd mem brk : n_mem (set_mem mem brk (n_freed nd) nd) = mem. Proof. done. Qed.

(** C10: What the socket server reports reaches the service that owns the socket.  When a poll of the socket server gives anything but its end, and the memory of the node has room: the message has the
    data its type promises; if there is a service with the handle the socket was opened for, then [skynet_socket_poll] appends exactly one message of type [PTYPE_SOCKET] to its queue, from nobody and for no session, whose block holds the structure
    with type, id and number and, behind it, at most 128 bytes of a text, or the address of the block of data; no other queue changes and nothing is freed; if there is none, all that was allocated is freed and the node is as before.  The result
    is -1 when more is to be done at once, else 1. *)
Theorem socket_report_forwarded hd own g M N nd fuel ss type m more ss' :
  node_inv hd own g M N nd -> mem_fresh nd -> socket_server_poll fuel 1 ss = Some (type, m, more, ss') -> type <> SOCKET_EXIT -> type <> -1 ->
  exists t padding m' nd', m = Some m' /\ data_typed type (m_data m') /\ message_kind type = Some (t, padding) /\
    skynet_socket_poll strerror gai_strerror fuel (Some ss) nd = Some (if negb (more =? 0) then -1 else 1, Some ss', nd') /\
    match M !! u32 (m_opaque m') with
    | None => n_mem nd' = n_mem nd /\ n_mq nd' = n_mq nd /\ node_inv hd own g M N nd'
    | Some c => exists k g' sm sz buffer, n_ctxs nd !! c = Some k /\ c_handle k = u32 (m_opaque m') /\ node_inv hd own g' M N nd' /\
        message_at t padding m' sm sz buffer (n_mem nd') /\ n_freed nd' = n_freed nd /\
        waiting (n_mq nd') (c_queue k) = waiting (n_mq nd) (c_queue k) ++ [Msg 0 0 sm (sz + PTYPE_SOCKET * 2 ^ 56)] /\
        (forall p, p <> c_queue k -> payload (n_mq nd') p = payload (n_mq nd) p)
    end.
Proof.
  intros Hi Hm Hp Ne Nm. destruct (poll_typed _ _ _ _ _ _ _ Hp) as [|(m' & -> & T)]; [done|].
  assert (exists t padding, message_kind type = Some (t, padding)) as (t & padding & Kd).
  { unfold message_kind, data_typed in *. repeat case_match; eauto; naive_solver lia. }
  destruct (make_message_spec type t padding m' nd Hm T Kd) as (sm & sz & buffer & mem & brk & Em & Hat & Nsm & Hsz & Hback).
  set (nd1 := set_mem mem brk (n_freed nd) nd). assert (Hi1 : node_inv hd own g M N nd1) by (by apply (node_frame _ _ _ _ _ _ _ Hi)).
  pose proof (context_push_spec _ _ _ _ _ _ (u32 (m_opaque m')) (Msg 0 0 sm (message_sz sz PTYPE_SOCKET)) Hi1) as Hpush.
  assert (E : forall nd', forward_message strerror gai_strerror t padding m' nd = Some nd' ->
    skynet_socket_poll strerror gai_strerror fuel (Some ss) nd = Some (if negb (more =? 0) then -1 else 1, Some ss', nd')).
  { intros nd' Ef. unfold skynet_socket_poll. rewrite Hp. unfold report. destruct (Z.eqb_spec type SOCKET_EXIT); [done|]. by rewrite Kd, Ef. }
  unfold forward_message in E. rewrite Em in E. fold nd1 in E.
  destruct (M !! u32 (m_opaque m')) as [c|] eqn:EM.
  - destruct Hpush as (k & w & g' & Hk & Hh & Ep & Hi' & Hw & Hfr). rewrite Ep in E. exists t, padding, m', (set_mq w nd1). refine (conj eq_refl (conj T (conj Kd (conj (E _ eq_refl) _)))). rewrite EM.
    exists k, g', sm, sz, buffer. split_and!; try done. simpl. rewrite Hw. rewrite message_sz_add by (unfold PTYPE_SOCKET; lia). done.
  - rewrite Hpush in E. exists t, padding, m', (skynet_free sm (skynet_free buffer nd1)). refine (conj eq_refl (conj T (conj Kd (conj (E _ eq_refl) _)))). rewrite EM. split_and!.
    + rewrite <- Hback. unfold skynet_free. destruct (Z.eqb_spec sm 0); [done|]. by destruct (buffer =? 0).
    + unfold skynet_free. by repeat case_match.
    + apply (node_frame _ _ _ _ _ _ _ Hi1); unfold skynet_free; by repeat case_match.
Qed.
End Forward.

(** ** Example *)

(** A request to start a socket that is not there is answered with an error. *)
Definition asks : socket_server (K := scripted) := socket_server_start (K := scripted) (2 ^ 24 + 1) 5 (socket_server_create (K := scripted) []).

Lemma socket_report_forwarded_witness : exists m ss nd',
  skynet_socket_poll (K := scripted) (fun _ => []) (fun _ => []) 1 (Some asks) (w_node ex_world) = Some (-1, Some ss, nd') /\ m_opaque m = 2 ^ 24 + 1 /\ data_typed SOCKET_ERROR (m_data m).
Proof.
  destruct (node_reachable_inv _ _ _ _ ex_reachable) as (g & M & N & Hi).
  destruct (socket_server_poll (K := scripted) 1 1 asks) as [[[[type m] more] ss]|] eqn:E; [|vm_compute in E; discriminate E].
  assert (type = SOCKET_ERROR /\ more = 1 /\ exists m', m = Some m' /\ m_opaque m' = 2 ^ 24 + 1) as (-> & -> & m0 & -> & Eo) by (vm_compute in E; injection E as <- <- <- _; split; [|split; [|eexists; split]]; reflexivity).
  destruct (socket_report_forwarded (K := scripted) (fun _ => []) (fun _ => []) (w_refs ex_world) (w_own ex_world) g M N (w_node ex_world) 1 asks SOCKET_ERROR (Some m0) 1 ss) as (t & padding & m' & nd' & Em & T & _ & Ep & _).
  - exact Hi.
  - split; [vm_compute; reflexivity|]. intros p Hp. assert (n_mem (w_node ex_world) = ∅) as -> by (vm_compute; reflexivity). apply lookup_empty.
  - exact E.
  - discriminate.
  - discriminate.
  - injection Em as <-. exists m0, ss, nd'. split; [exact Ep|]. split; [exact Eo|exact T].
Defined.
