(* ===== verification/LuaSocket.v ===== *)
(** * Received data for Lua services ([lualib-src/lua-socket.c])

    A service keeps what it has received from a socket as a chain of blocks, each in a node of a pool the service shares between its sockets, and takes strings off it: so many bytes, up to a
    separator, or all.

    The chain from [head] to [tail] is a list, a node of it knowing which node of the pool it is; the free nodes, whose first is in the pool's table at index 1, are a list in the order of their links. *)

From S2P Require Import Prelude CString LuaError.

Definition LARGE_PAGE_NODE : Z := 12.

(** ** State *)

(** [n_msg] is the block [msg] points to, [n_sz] the size it came with. *)
Record buffer_node := MkNode { n_node : Z; n_msg : list Z; n_sz : Z }.
Record socket_buffer := MkSb { sb_size : Z; sb_offset : Z; sb_chain : list buffer_node }.

(** The table: its length without the free list, the number of nodes made, and the free ones. *)
Record lua_pool := MkPool { p_chunks : Z; p_nodes : Z; p_free : list Z }.

Definition lnewbuffer : socket_buffer := MkSb 0 0 [].
Definition pool_table : lua_pool := MkPool 0 0 [].

(** [lnewpool]: a chunk of nodes, linked in order. *)
Definition lnewpool (sz : Z) (p : lua_pool) : lua_pool := MkPool (p_chunks p + 1) (p_nodes p + sz) (p_free p ++ seqZ (p_nodes p) sz).

(** The size of the next chunk: [lua_rawlen] of the table is 0 when it is new, and then one more than the number of chunks. *)
Definition chunk_size (p : lua_pool) : Z :=
  let tsz := if p_chunks p =? 0 then 0 else p_chunks p + 1 in
  let tsz := if tsz =? 0 then tsz + 1 else tsz in
  if tsz <=? LARGE_PAGE_NODE - 3 then Z.shiftl 8 tsz else Z.shiftl 8 (LARGE_PAGE_NODE - 3).

Definition pool_alloc (p : lua_pool) : res (Z * lua_pool) :=
  let p := match p_free p with [] => lnewpool (chunk_size p) p | _ => p end in
  match p_free p with
  | n :: l => Ok (n, MkPool (p_chunks p) (p_nodes p) l)
  | [] => Stuck
  end.

(** ** Writing *)

Definition lpushbuffer (sb : socket_buffer) (p : lua_pool) (msg : option (list Z)) (sz : Z) : res (Z * socket_buffer * lua_pool) :=
  match msg with
  | None => Raise (Text "need message block at param 3")
  | Some msg =>
    let sz := i32 sz in
    let* (n, p) := pool_alloc p in
    let* size := int (sb_size sb + sz) in
    Ok (size, MkSb size (sb_offset sb) (sb_chain sb ++ [MkNode n msg sz]), p)
  end.

(** ** Reading *)

Definition return_free_node (sb : socket_buffer) (p : lua_pool) : res (socket_buffer * lua_pool) :=
  match sb_chain sb with
  | n :: l => Ok (MkSb (sb_size sb) 0 l, MkPool (p_chunks p) (p_nodes p) (n_node n :: p_free p))
  | [] => Stuck
  end.

(** [lua_pushlstring(L, current->msg + offset, n)], also [luaL_addlstring]. *)
Definition node_bytes (n : buffer_node) (offset sz : Z) : res (list Z) := lift (memcpy (n_msg n) offset sz).

(** The loop of [pop_lstring]: each pass but the last gives a node back. *)
Fixpoint pop_loop (fuel : nat) (sb : socket_buffer) (p : lua_pool) (sz skip : Z) : res (list Z * socket_buffer * lua_pool) :=
  match fuel, sb_chain sb with
  | S fuel, current :: _ =>
    let bytes := n_sz current - sb_offset sb in
    if sz <=? bytes then
      let* s := if skip <? sz then node_bytes current (sb_offset sb) (sz - skip) else Ok [] in
      let sb := MkSb (sb_size sb) (sb_offset sb + sz) (sb_chain sb) in
      let* (sb, p) := if bytes =? sz then return_free_node sb p else Ok (sb, p) in
      Ok (s, sb, p)
    else
      let real_sz := sz - skip in
      let* s := if 0 <? real_sz then node_bytes current (sb_offset sb) (if real_sz <? bytes then real_sz else bytes) else Ok [] in
      let* (sb, p) := return_free_node sb p in
      let sz := sz - bytes in
      if sz =? 0 then Ok (s, sb, p) else
      let* (r, sb, p) := pop_loop fuel sb p sz skip in
      Ok (s ++ r, sb, p)
  | _, _ => Stuck
  end.

Definition pop_lstring (sb : socket_buffer) (p : lua_pool) (sz skip : Z) : res (list Z * socket_buffer * lua_pool) :=
  match sb_chain sb with
  | [] => Stuck
  | current :: _ =>
    if sz <? n_sz current - sb_offset sb then
      let* s := node_bytes current (sb_offset sb) (sz - skip) in
      Ok (s, MkSb (sb_size sb) (sb_offset sb + sz) (sb_chain sb), p)
    else if sz =? n_sz current - sb_offset sb then
      let* s := node_bytes current (sb_offset sb) (sz - skip) in
      let* (sb, p) := return_free_node sb p in
      Ok (s, sb, p)
    else pop_loop (length (sb_chain sb)) sb p sz skip
  end.

Definition set_size (n : Z) (sb : socket_buffer) : socket_buffer := MkSb n (sb_offset sb) (sb_chain sb).

(** The string, [None] for nil, and the new size. *)
Definition lpopbuffer (sb : socket_buffer) (p : lua_pool) (sz : Z) : res (option (list Z) * Z * socket_buffer * lua_pool) :=
  let sz := i32 sz in
  if (sb_size sb <? sz) || (sz =? 0) then Ok (None, sb_size sb, sb, p) else
  let* (s, sb, p) := pop_lstring sb p sz 0 in
  let* size := int (sb_size sb - sz) in
  Ok (Some s, size, set_size size sb, p).

Fixpoint clear_loop (fuel : nat) (sb : socket_buffer) (p : lua_pool) : res (socket_buffer * lua_pool) :=
  match sb_chain sb, fuel with
  | [], _ => Ok (sb, p)
  | _, O => Stuck
  | _, S fuel => let* (sb, p) := return_free_node sb p in clear_loop fuel sb p
  end.

Definition lclearbuffer (sb : socket_buffer) (p : lua_pool) : res (socket_buffer * lua_pool) :=
  let* (sb, p) := clear_loop (length (sb_chain sb)) sb p in Ok (set_size 0 sb, p).

Fixpoint readall_loop (fuel : nat) (sb : socket_buffer) (p : lua_pool) : res (list Z * socket_buffer * lua_pool) :=
  match sb_chain sb, fuel with
  | [], _ => Ok ([], sb, p)
  | _, O => Stuck
  | current :: _, S fuel =>
    let* s := node_bytes current (sb_offset sb) (n_sz current - sb_offset sb) in
    let* (sb, p) := return_free_node sb p in
    let* (r, sb, p) := readall_loop fuel sb p in
    Ok (s ++ r, sb, p)
  end.

Definition lreadall (sb : socket_buffer) (p : lua_pool) : res (list Z * socket_buffer * lua_pool) :=
  let* (s, sb, p) := readall_loop (length (sb_chain sb)) sb p in Ok (s, set_size 0 sb, p).

(** ** Lines *)

(** Whether [sep] is at [from] in the first node of [l] and what follows; behind the last node is a null pointer, before [sep] no string. *)
Fixpoint check_sep (l : list buffer_node) (from : Z) (sep : list Z) : res bool :=
  match l with
  | [] => Stuck
  | node :: l =>
    let sz := n_sz node - from in
    if Z.of_nat (length sep) <=? sz then
      let* s := node_bytes node from (Z.of_nat (length sep)) in Ok (bool_decide (s = sep))
    else
      let* same := if 0 <? sz then let* s := node_bytes node from sz in Ok (bool_decide (s = take (Z.to_nat sz) sep)) else Ok true in
      if negb same then Ok false else
      if sz <? 0 then Stuck else check_sep l 0 (drop (Z.to_nat sz) sep)
  end.

(** The result of [lreadline]: nothing, [true], or the line. *)
Inductive line := NoLine | Found | Line (s : list Z).

(** The loop: the separator may begin at [i], which is at [from] in the first node of [l], with [bytes] left of it. *)
Fixpoint readline_loop (fuel : nat) (check : bool) (sb : socket_buffer) (p : lua_pool) (sep : list Z) (i : Z) (l : list buffer_node) (from bytes : Z) : res (line * socket_buffer * lua_pool) :=
  let seplen := Z.of_nat (length sep) in
  match fuel with
  | O => Ok (NoLine, sb, p)
  | S fuel =>
    let* here := check_sep l from sep in
    if here : bool then
      if check then Ok (Found, sb, p)
      else
        let* (s, sb, p) := pop_lstring sb p (i32 (i + seplen)) seplen in
        Ok (Line s, set_size (i32 (sb_size sb - (i + seplen))) sb, p)
    else
      let from := from + 1 in
      let bytes := bytes - 1 in
      if bytes =? 0 then
        match l with
        | _ :: ((next :: _) as l) => readline_loop fuel check sb p sep (i + 1) l 0 (n_sz next)
        | _ => Ok (NoLine, sb, p)
        end
      else readline_loop fuel check sb p sep (i + 1) l from bytes
  end.

(** [for (i=0; i<=sb->size - (int)seplen; i++)], for a separator shorter than 2^31 bytes. *)
Definition lreadline (check : bool) (sb : socket_buffer) (p : lua_pool) (sep : list Z) : res (line * socket_buffer * lua_pool) :=
  match sb_chain sb with
  | [] => Ok (NoLine, sb, p)
  | current :: _ =>
    let* seplen := int (Z.of_nat (length sep)) in
    let* last := int (sb_size sb - seplen) in
    readline_loop (Z.to_nat (last + 1)) check sb p sep 0 (sb_chain sb) (sb_offset sb) (n_sz current - sb_offset sb)
  end.

(** ** What a service does with its sockets *)

Inductive buffer_op := Push (msg : list Z) | Pop (sz : Z) | ReadLine (check : bool) (sep : list Z) | ReadAll | Clear.
Inductive buffer_result := Size (sz : Z) | Popped (s : option (list Z)) (sz : Z) | LineIs (l : line) | All (s : list Z) | Cleared.

Definition buffer_step (sb : socket_buffer) (p : lua_pool) (op : buffer_op) : res (buffer_result * socket_buffer * lua_pool) :=
  match op with
  | Push msg => let* (n, sb, p) := lpushbuffer sb p (Some msg) (Z.of_nat (length msg)) in Ok (Size n, sb, p)
  | Pop sz => let* (s, n, sb, p) := lpopbuffer sb p sz in Ok (Popped s n, sb, p)
  | ReadLine check sep => let* (l, sb, p) := lreadline check sb p sep in Ok (LineIs l, sb, p)
  | ReadAll => let* (s, sb, p) := lreadall sb p in Ok (All s, sb, p)
  | Clear => let* (sb, p) := lclearbuffer sb p in Ok (Cleared, sb, p)
  end.

(** Several sockets, one pool. *)
Fixpoint buffer_steps (sbs : list socket_buffer) (p : lua_pool) (ops : list (nat * buffer_op)) : res (list buffer_result * list socket_buffer * lua_pool) :=
  match ops with
  | [] => Ok ([], sbs, p)
  | (i, op) :: ops =>
    match sbs !! i with
    | None => Raise (Text "Need buffer object at param 1")
    | Some sb =>
      let* (r, sb, p) := buffer_step sb p op in
      let* (rs, sbs, p) := buffer_steps (<[i := sb]> sbs) p ops in
      Ok (r :: rs, sbs, p)
    end
  end.

(** ** Numbers *)

(** A big-endian number of one to four bytes. *)
Definition lheader (s : list Z) : res Z :=
  let len := Z.of_nat (length s) in
  if (4 <? len) || (len <? 1) then Raise (Text "Invalid read") else
  Ok (i64 (foldl (fun sz b => u64 (Z.lor (Z.shiftl sz 8) b)) 0 s)).
