(* ===== verification/LuaSocketSpec.v ===== *)
(** * Received data are a stream

    The chain of blocks of [LuaSocket] holds the bytes received and not yet read, in order; whatever takes a string off it takes a prefix, and no node of the pool is lost. *)

From S2P Require Import Prelude CString LuaError LuaSocket.

(** ** The bytes of a buffer *)

Definition bytes_of (l : list buffer_node) : list Z := concat (n_msg <$> l).
Definition contents (sb : socket_buffer) : list Z := drop (Z.to_nat (sb_offset sb)) (bytes_of (sb_chain sb)).
Definition used (sb : socket_buffer) : list Z := n_node <$> sb_chain sb.

(** A block in a node: not empty, as what is read from a socket is not. *)
Definition node_ok (n : buffer_node) : Prop := n_sz n = Z.of_nat (length (n_msg n)) /\ 0 < n_sz n.

(** The chain, and where the first byte is. *)
Definition chain_ok (sb : socket_buffer) : Prop :=
  Forall node_ok (sb_chain sb) /\ 0 <= sb_offset sb /\ (sb_offset sb = 0 \/ exists n l, sb_chain sb = n :: l /\ sb_offset sb < n_sz n).

Record buffer_ok (sb : socket_buffer) : Prop := {
  ok_chain : chain_ok sb;
  ok_size : sb_size sb = Z.of_nat (length (contents sb)) /\ sb_size sb <= INT_MAX;
}.

(** Every node of the pool is free or in use once. *)
Definition pool_ok (p : lua_pool) (used : list Z) : Prop := 0 <= p_chunks p /\ 0 <= p_nodes p /\ Permutation (p_free p ++ used) (seqZ 0 (p_nodes p)).

Lemma chain_contents_cons size o n l : node_ok n -> 0 <= o <= n_sz n -> contents (MkSb size o (n :: l)) = drop (Z.to_nat o) (n_msg n) ++ bytes_of l.
Proof. intros [E _] H. unfold contents, bytes_of. simpl. apply drop_app_le. lia. Qed.

Lemma chain_contents_0 size l : contents (MkSb size 0 l) = bytes_of l.
Proof. done. Qed.

Lemma node_bytes_ok n o sz : node_ok n -> 0 <= o -> 0 <= sz -> o + sz <= n_sz n -> node_bytes n o sz = Ok (take (Z.to_nat sz) (drop (Z.to_nat o) (n_msg n))).
Proof. intros [E _] H1 H2 H3. unfold node_bytes. by rewrite memcpy_Some by lia. Qed.

(** ** Taking a prefix *)

(** After [sz] bytes have been taken off. *)
Definition popped (sb : socket_buffer) (p : lua_pool) (sz : Z) (sb' : socket_buffer) (p' : lua_pool) : Prop :=
  contents sb' = drop (Z.to_nat sz) (contents sb) /\ chain_ok sb' /\ sb_size sb' = sb_size sb /\
  p_chunks p' = p_chunks p /\ p_nodes p' = p_nodes p /\ Permutation (p_free p' ++ used sb') (p_free p ++ used sb).

(** Within the first node. *)
Lemma popped_some size o n l p sz : chain_ok (MkSb size o (n :: l)) -> 0 <= sz -> o + sz < n_sz n -> popped (MkSb size o (n :: l)) p sz (MkSb size (o + sz) (n :: l)) p.
Proof.
  intros (F & O & _) H1 H2. simpl in *. apply Forall_cons in F as F'. destruct F' as [Hn _]. destruct Hn as [E P]. split; [|split; [|done]].
  - rewrite !chain_contents_cons by (done || lia). rewrite drop_app_le by (rewrite length_drop; lia). rewrite drop_drop. do 2 f_equal. lia.
  - split; [done|]. simpl. split; [lia|]. right. eauto.
Qed.

(** The whole first node. *)
Lemma popped_node size o n l p sz : chain_ok (MkSb size o (n :: l)) -> o <= n_sz n -> o + sz = n_sz n ->
  popped (MkSb size o (n :: l)) p sz (MkSb size 0 l) (LuaSocket.MkPool (p_chunks p) (p_nodes p) (n_node n :: p_free p)).
Proof.
  intros (F & O & _) H1 H2. simpl in *. apply Forall_cons in F as [Hn Fl]. destruct (Hn) as [E P]. split; [|split; [|split; [done|split; [done|split; [done|]]]]].
  - rewrite chain_contents_cons, chain_contents_0 by (done || lia). rewrite drop_app_ge by (rewrite length_drop; lia). rewrite length_drop.
    by replace (Z.to_nat sz - (length (n_msg n) - Z.to_nat o))%nat with 0%nat by lia.
  - split; [done|]. simpl. split; [lia|by left].
  - unfold used. simpl. by rewrite Permutation_middle.
Qed.

Lemma popped_trans sb p sz1 sb1 p1 sz2 sb2 p2 : 0 <= sz1 -> 0 <= sz2 -> popped sb p sz1 sb1 p1 -> popped sb1 p1 sz2 sb2 p2 -> popped sb p (sz1 + sz2) sb2 p2.
Proof.
  intros H1 H2 (C1 & _ & S1 & K1 & N1 & P1) (C2 & O2 & S2 & K2 & N2 & P2). split; [|split; [done|split; [congruence|split; [congruence|split; [congruence|by rewrite P2]]]]].
  rewrite C2, C1, drop_drop. f_equal. lia.
Qed.

Lemma pop_loop_ok fuel sb p sz skip : (length (sb_chain sb) <= fuel)%nat -> chain_ok sb -> 0 < sz <= Z.of_nat (length (contents sb)) -> 0 <= skip ->
  exists sb' p', pop_loop fuel sb p sz skip = Ok (take (Z.to_nat (sz - skip)) (contents sb), sb', p') /\ popped sb p sz sb' p'.
Proof.
  revert sb p sz. induction fuel as [|fuel IH]; intros [size o [|n l]] p sz Hf C Hsz Hk; simpl in Hf; try lia;
    try (unfold contents, bytes_of in Hsz; simpl in Hsz; rewrite drop_nil in Hsz; simpl in Hsz; lia).
  pose proof C as (F & O & On). simpl in F, O, On. apply Forall_cons in F as [Hn Fl]. destruct (Hn) as [E P].
  assert (Ho : o < n_sz n) by (destruct On as [->|(? & ? & [= -> ->] & ?)]; lia).
  assert (Ec : contents (MkSb size o (n :: l)) = drop (Z.to_nat o) (n_msg n) ++ bytes_of l) by (apply chain_contents_cons; [done|lia]).
  rewrite Ec, length_app, length_drop in Hsz. cbn [pop_loop sb_chain sb_offset sb_size]. destruct (Z.leb_spec sz (n_sz n - o)) as [L|L].
  - assert (Es : (if skip <? sz then node_bytes n o (sz - skip) else Ok []) = Ok (take (Z.to_nat (sz - skip)) (contents (MkSb size o (n :: l))))).
    { rewrite Ec. destruct (Z.ltb_spec skip sz).
      - rewrite node_bytes_ok by (done || lia). rewrite take_app_le by (rewrite length_drop; lia). done.
      - by replace (Z.to_nat (sz - skip)) with 0%nat by lia. }
    rewrite Es. destruct (Z.eqb_spec (n_sz n - o) sz) as [Eq|Ne].
    + eexists _, _. split; [done|]. apply (popped_node size o n l p sz C); lia.
    + eexists _, _. split; [done|]. apply popped_some; [done|lia|lia].
  - assert (Es : (if 0 <? sz - skip then node_bytes n o (if sz - skip <? n_sz n - o then sz - skip else n_sz n - o) else Ok []) =
      Ok (take (Z.to_nat (sz - skip)) (drop (Z.to_nat o) (n_msg n)))).
    { destruct (Z.ltb_spec 0 (sz - skip)); [|by replace (Z.to_nat (sz - skip)) with 0%nat by lia].
      destruct (Z.ltb_spec (sz - skip) (n_sz n - o)); rewrite node_bytes_ok by (done || lia); [done|].
      rewrite !take_ge by (rewrite length_drop; lia). done. }
    rewrite Es. cbn [return_free_node sb_chain sb_size]. destruct (Z.eqb_spec (sz - (n_sz n - o)) 0); [lia|].
    pose proof (popped_node size o n l p (n_sz n - o) C ltac:(lia) ltac:(lia)) as P1.
    destruct (IH (MkSb size 0 l) (LuaSocket.MkPool (p_chunks p) (p_nodes p) (n_node n :: p_free p)) (sz - (n_sz n - o))) as (sb' & p' & -> & P2); [simpl; lia|apply P1| |done|].
    { rewrite chain_contents_0. unfold bytes_of in *. lia. }
    eexists _, _. split; [|replace sz with ((n_sz n - o) + (sz - (n_sz n - o))) by lia; eapply popped_trans; [lia|lia|exact P1|exact P2]].
    rewrite Ec, chain_contents_0, take_app, length_drop.
    by replace (Z.to_nat (sz - skip) - (length (n_msg n) - Z.to_nat o))%nat with (Z.to_nat (sz - (n_sz n - o) - skip)) by lia.
Qed.

Lemma pop_lstring_ok sb p sz skip : chain_ok sb -> sb_chain sb <> [] -> 0 <= skip <= sz -> sz <= Z.of_nat (length (contents sb)) ->
  exists sb' p', pop_lstring sb p sz skip = Ok (take (Z.to_nat (sz - skip)) (contents sb), sb', p') /\ popped sb p sz sb' p'.
Proof.
  destruct sb as [size o [|n l]]; intros C N Hk Hsz; [done|]. pose proof C as (F & O & On). simpl in F, O, On. apply Forall_cons in F as [Hn Fl]. destruct (Hn) as [E P].
  assert (Ho : o < n_sz n) by (destruct On as [->|(? & ? & [= -> ->] & ?)]; lia).
  assert (Ec : contents (MkSb size o (n :: l)) = drop (Z.to_nat o) (n_msg n) ++ bytes_of l) by (apply chain_contents_cons; [done|lia]).
  unfold pop_lstring. cbn [sb_chain sb_offset sb_size]. destruct (Z.ltb_spec sz (n_sz n - o)) as [L|L]; [|destruct (Z.eqb_spec sz (n_sz n - o)) as [Eq|Ne]].
  - rewrite node_bytes_ok by (done || lia). eexists _, _. split; [|apply popped_some; [done|lia|lia]]. rewrite Ec, take_app_le by (rewrite length_drop; lia). done.
  - rewrite node_bytes_ok by (done || lia). eexists _, _. split; [|apply (popped_node size o n l p sz C); lia]. rewrite Ec, take_app_le by (rewrite length_drop; lia). done.
  - apply (pop_loop_ok _ (MkSb size o (n :: l))); [done|done|lia|lia].
Qed.

(** ** Taking everything *)

Lemma popped_refl sb p : chain_ok sb -> popped sb p 0 sb p.
Proof. done. Qed.

Lemma chain_tail size o n l : chain_ok (MkSb size o (n :: l)) -> chain_ok (MkSb size 0 l).
Proof. intros (F & _). simpl in F. apply Forall_cons in F as [_ F]. split; [done|]. simpl. split; [lia|by left]. Qed.

(** The first node, and then the rest. *)
Lemma popped_first size o n l p sb' p' : chain_ok (MkSb size o (n :: l)) ->
  (forall p1, p1 = LuaSocket.MkPool (p_chunks p) (p_nodes p) (n_node n :: p_free p) -> chain_ok (MkSb size 0 l) -> popped (MkSb size 0 l) p1 (Z.of_nat (length (bytes_of l))) sb' p') ->
  o <= n_sz n /\ contents (MkSb size o (n :: l)) = drop (Z.to_nat o) (n_msg n) ++ bytes_of l /\
  popped (MkSb size o (n :: l)) p (Z.of_nat (length (contents (MkSb size o (n :: l))))) sb' p'.
Proof.
  intros C K. pose proof C as (F & O & On). simpl in F, O, On. apply Forall_cons in F as [Hn _]. destruct (Hn) as [E P].
  assert (Ho : o <= n_sz n) by (destruct On as [->|(? & ? & [= -> ->] & ?)]; lia). split; [done|].
  assert (Ec : contents (MkSb size o (n :: l)) = drop (Z.to_nat o) (n_msg n) ++ bytes_of l) by (apply chain_contents_cons; [done|lia]). split; [done|].
  rewrite Ec, length_app, length_drop. pose proof (popped_node size o n l p (n_sz n - o) C ltac:(lia) ltac:(lia)) as P1.
  replace (Z.of_nat (length (n_msg n) - Z.to_nat o + length (bytes_of l))) with ((n_sz n - o) + Z.of_nat (length (bytes_of l))) by lia.
  eapply popped_trans; [lia|lia|exact P1|]. apply K; [done|apply P1].
Qed.

Lemma clear_loop_ok fuel sb p : (length (sb_chain sb) <= fuel)%nat -> chain_ok sb ->
  exists sb' p', clear_loop fuel sb p = Ok (sb', p') /\ popped sb p (Z.of_nat (length (contents sb))) sb' p'.
Proof.
  revert sb p. induction fuel as [|fuel IH]; intros [size o [|n l]] p Hf C; simpl in Hf; try lia;
    try (eexists _, _; split; [done|]; unfold contents, bytes_of; simpl; rewrite drop_nil; by apply popped_refl).
  cbn [clear_loop sb_chain return_free_node sb_size].
  destruct (IH (MkSb size 0 l) (LuaSocket.MkPool (p_chunks p) (p_nodes p) (n_node n :: p_free p))) as (sb' & p' & -> & P2);
    [simpl; lia|by eapply chain_tail|].
  eexists _, _. split; [done|]. apply popped_first; [done|]. by intros ? -> _.
Qed.

Lemma readall_loop_ok fuel sb p : (length (sb_chain sb) <= fuel)%nat -> chain_ok sb ->
  exists sb' p', readall_loop fuel sb p = Ok (contents sb, sb', p') /\ popped sb p (Z.of_nat (length (contents sb))) sb' p'.
Proof.
  revert sb p. induction fuel as [|fuel IH]; intros [size o [|n l]] p Hf C; simpl in Hf; try lia;
    try (eexists _, _; unfold contents, bytes_of; simpl; rewrite drop_nil; split; [done|by apply popped_refl]).
  cbn [readall_loop sb_chain return_free_node sb_size sb_offset].
  destruct (IH (MkSb size 0 l) (LuaSocket.MkPool (p_chunks p) (p_nodes p) (n_node n :: p_free p))) as (sb' & p' & E & P2); [simpl; lia|by eapply chain_tail|].
  destruct (popped_first size o n l p sb' p' C) as (Ho & Ec & Q); [by intros ? -> _|]. destruct C as (F & O & _). simpl in F, O. apply Forall_cons in F as [Hn _].
  rewrite node_bytes_ok by (done || lia). rewrite E. eexists _, _. split; [|exact Q]. rewrite Ec, chain_contents_0. destruct Hn as [En _].
  by rewrite take_ge by (rewrite length_drop; lia).
Qed.

(** A buffer with the size that was taken off. *)
Lemma popped_ok sb p sz sb' p' : buffer_ok sb -> 0 <= sz <= sb_size sb -> popped sb p sz sb' p' -> buffer_ok (set_size (sb_size sb - sz) sb').
Proof.
  intros [_ [E M]] H (C & K & S & _). unfold set_size. split; [exact K|]. split; [|simpl; lia]. change (contents (MkSb _ (sb_offset sb') (sb_chain sb'))) with (contents sb').
  rewrite C, length_drop. simpl. lia.
Qed.

(** ** Nodes *)

Lemma chunk_size_pos p : 0 <= p_chunks p -> 0 < chunk_size p.
Proof.
  intros H. unfold chunk_size, LARGE_PAGE_NODE. set (t := if p_chunks p =? 0 then 0 else p_chunks p + 1). assert (0 <= t) by (unfold t; destruct (Z.eqb_spec (p_chunks p) 0); lia).
  set (t' := if t =? 0 then t + 1 else t). assert (0 <= t') by (unfold t'; destruct (Z.eqb_spec t 0); lia).
  destruct (Z.leb_spec t' (12 - 3)); [|reflexivity]. rewrite Z.shiftl_mul_pow2 by lia. nia.
Qed.

(** A node of the pool that nothing uses. *)
Lemma pool_alloc_ok p o : pool_ok p o -> exists n p', pool_alloc p = Ok (n, p') /\ pool_ok p' (n :: o).
Proof.
  intros (C & N & P). unfold pool_alloc. destruct (p_free p) as [|n l] eqn:E.
  - pose proof (chunk_size_pos p C) as S. unfold lnewpool. cbn [p_free p_nodes p_chunks]. rewrite E. simpl app. rewrite (seqZ_cons (p_nodes p)) by done.
    eexists _, _. split; [done|]. split; [simpl; lia|]. split; [simpl; lia|]. cbn [p_free p_nodes]. rewrite seqZ_app by lia. rewrite <- P. simpl app.
    rewrite (seqZ_cons (0 + p_nodes p)) by done. rewrite Z.add_0_l. rewrite <- Permutation_middle, (Permutation_app_comm o). done.
  - rewrite E. eexists _, _. split; [done|]. split; [done|]. split; [done|]. cbn [p_free p_nodes]. by rewrite <- P, <- Permutation_middle.
Qed.

(** ** The first separator *)

(** Where [sep] occurs first in [s]. *)
Fixpoint find_sep (sep s : list Z) : option nat :=
  if bool_decide (take (length sep) s = sep) then Some 0%nat else
  match s with [] => None | _ :: s => S <$> find_sep sep s end.

Lemma find_sep_short sep s : (length s < length sep)%nat -> find_sep sep s = None.
Proof.
  induction s as [|b s IH]; intros H; simpl in H; simpl; rewrite bool_decide_eq_false_2.
  - done.
  - intros E. apply (f_equal length) in E. rewrite length_take in E. simpl in E. lia.
  - by rewrite IH by lia.
  - intros E. apply (f_equal length) in E. rewrite length_take in E. simpl in E. lia.
Qed.

Lemma find_sep_fits sep s k : find_sep sep s = Some k -> (k + length sep <= length s)%nat.
Proof.
  revert k. induction s as [|b s IH]; intros k; simpl; case_bool_decide as D; intros [= <-] || intros H; try (apply (f_equal length) in D; rewrite length_take in D; simpl in *; lia).
  destruct (find_sep sep s) as [j|]; [|done]. injection H as <-. specialize (IH j eq_refl). lia.
Qed.

(** It is there, and not before. *)
Lemma find_sep_at sep s k : find_sep sep s = Some k -> exists t, s = take k s ++ sep ++ t.
Proof.
  revert k. induction s as [|b s IH]; intros k; simpl; case_bool_decide as D; intros [= <-] || intros H.
  - exists []. destruct sep; [done|]. by rewrite take_nil in D.
  - exists (drop (length sep) (b :: s)). rewrite <- D at 1. simpl. by rewrite take_drop.
  - destruct (find_sep sep s) as [j|]; [|done]. injection H as <-. destruct (IH j eq_refl) as (t & E). exists t. simpl. by f_equal.
Qed.

Lemma find_sep_first sep s k j : find_sep sep s = Some k -> (j < k)%nat -> take (length sep) (drop j s) <> sep.
Proof.
  revert k j. induction s as [|b s IH]; intros k j; simpl; case_bool_decide as D; intros [= <-] || intros H; intros L; try lia.
  - destruct (find_sep sep s) as [i|]; [|done]. injection H as <-. destruct j as [|j]; [done|]. simpl. apply (IH i); [done|lia].
Qed.

Lemma find_sep_none sep s j : find_sep sep s = None -> take (length sep) (drop j s) <> sep.
Proof.
  revert j. induction s as [|b s IH]; intros j; simpl; case_bool_decide as D; intros H; try done.
  - by rewrite drop_nil.
  - destruct j as [|j]; [done|]. simpl. apply IH. by destruct (find_sep sep s).
Qed.

Lemma bytes_of_cons n l : bytes_of (n :: l) = n_msg n ++ bytes_of l.
Proof. done. Qed.

(** [check_sep] compares the separator with what follows, across the blocks. *)
Lemma check_sep_ok l from sep : Forall node_ok l -> l <> [] -> (forall n, head l = Some n -> 0 <= from < n_sz n) ->
  (length sep <= length (drop (Z.to_nat from) (bytes_of l)))%nat ->
  check_sep l from sep = Ok (bool_decide (take (length sep) (drop (Z.to_nat from) (bytes_of l)) = sep)).
Proof.
  revert from sep. induction l as [|n l IH]; intros from sep F N H L; [done|]. apply Forall_cons in F as [Hn F]. specialize (H n eq_refl). pose proof Hn as [E P].
  rewrite bytes_of_cons, drop_app_le in L by lia. rewrite bytes_of_cons, drop_app_le by lia. rewrite length_app, length_drop in L. cbn [check_sep].
  destruct (Z.leb_spec (Z.of_nat (length sep)) (n_sz n - from)).
  - rewrite node_bytes_ok by (done || lia). rewrite Nat2Z.id. cbn. by rewrite take_app_le by (rewrite length_drop; lia).
  - destruct (Z.ltb_spec 0 (n_sz n - from)); [|lia]. rewrite node_bytes_ok by (done || lia). cbn. set (m := drop (Z.to_nat from) (n_msg n)).
    assert (Lm : length m = Z.to_nat (n_sz n - from)) by (unfold m; rewrite length_drop; lia).
    rewrite (take_ge m) by lia. rewrite (take_app_ge m (bytes_of l)) by lia. rewrite <- Lm.
    case_bool_decide as D; cbn.
    + destruct (Z.ltb_spec (n_sz n - from) 0); [lia|]. rewrite IH; [|done| | |].
      * rewrite length_drop. change (drop (Z.to_nat 0) (bytes_of l)) with (bytes_of l). f_equal. apply bool_decide_ext.
        rewrite <- (take_drop (length m) sep) at 4. rewrite <- D. split; [by intros ->|apply app_inv_head].
      * intros ->. simpl in L. lia.
      * intros n' Hn'. destruct l; [done|]. injection Hn' as ->. apply Forall_cons in F as [[_ P'] _]. lia.
      * rewrite length_drop. change (drop (Z.to_nat 0) (bytes_of l)) with (bytes_of l). lia.
    + f_equal. symmetry. apply bool_decide_eq_false_2. intros K. apply D. rewrite <- K. by rewrite take_app_length.
Qed.

(** The loop of [lreadline]: [from] in the first block of [l] is [i] bytes into what is buffered. *)
Lemma readline_loop_ok fuel check sb p sep i l from bytes :
  buffer_ok sb -> sb_chain sb <> [] -> Forall node_ok l -> (exists n l', l = n :: l' /\ 0 <= from /\ bytes = n_sz n - from /\ 0 < bytes) ->
  0 <= i -> drop (Z.to_nat i) (contents sb) = drop (Z.to_nat from) (bytes_of l) -> fuel = Z.to_nat (sb_size sb - Z.of_nat (length sep) + 1 - i) ->
  match find_sep sep (drop (Z.to_nat i) (contents sb)) with
  | None => readline_loop fuel check sb p sep i l from bytes = Ok (NoLine, sb, p)
  | Some k => let n := i + Z.of_nat k in
    if check : bool then readline_loop fuel check sb p sep i l from bytes = Ok (Found, sb, p) else
    exists sb' p', readline_loop fuel check sb p sep i l from bytes = Ok (Line (take (Z.to_nat n) (contents sb)), set_size (sb_size sb - (n + Z.of_nat (length sep))) sb', p') /\
      popped sb p (n + Z.of_nat (length sep)) sb' p'
  end.
Proof.
  intros B N. pose proof (ok_chain _ B) as C. pose proof (ok_size _ B) as [ES MS]. unfold INT_MAX in MS.
  revert i l from bytes. induction fuel as [|fuel IH]; intros i l from bytes F (n & l' & -> & Hf & -> & Hb) Hi D Ef;
    pose proof F as F'; apply Forall_cons in F' as [Hn F']; destruct (Hn) as [En Pn];
    assert (Ld : length (drop (Z.to_nat from) (bytes_of (n :: l'))) = (length (contents sb) - Z.to_nat i)%nat) by (rewrite <- D, length_drop; done);
    assert (Lb : (0 < length (drop (Z.to_nat from) (bytes_of (n :: l'))))%nat) by (rewrite bytes_of_cons, length_drop, length_app; lia).
  { rewrite find_sep_short; [done|]. rewrite length_drop. lia. }
  cbn [readline_loop]. rewrite check_sep_ok; [|done|done|intros ? [= <-]; lia|rewrite Ld; lia]. rewrite <- D. cbn.
  destruct (drop (Z.to_nat i) (contents sb)) as [|b s] eqn:Es.
  { rewrite <- D in Lb. simpl in Lb. lia. }
  cbn [find_sep]. case_bool_decide as X; cbn.
  - rewrite Z.add_0_r. destruct check; [done|].
    assert (L : (length sep <= length (b :: s))%nat) by (apply (f_equal length) in X; rewrite length_take in X; lia).
    rewrite <- Es, length_drop in L. rewrite (i32_small (i + _)) by lia.
    destruct (pop_lstring_ok sb p (i + Z.of_nat (length sep)) (Z.of_nat (length sep))) as (sb' & p' & -> & Q); [done|done|lia|lia|]. cbn.
    eexists _, _. split; [|exact Q]. destruct Q as (_ & _ & -> & _). rewrite i32_small by lia. by replace (i + Z.of_nat (length sep) - Z.of_nat (length sep)) with i by lia.
  - assert (Es' : drop (Z.to_nat (i + 1)) (contents sb) = s) by (replace (Z.to_nat (i + 1)) with (1 + Z.to_nat i)%nat by lia; rewrite Nat.add_comm, <- drop_drop, Es; done).
    assert (D' : s = drop (Z.to_nat (from + 1)) (bytes_of (n :: l'))) by (replace (Z.to_nat (from + 1)) with (Z.to_nat from + 1)%nat by lia; rewrite <- drop_drop, <- D; done).
    destruct (Z.eqb_spec (n_sz n - from - 1) 0) as [E0|E0].
    + rewrite bytes_of_cons, drop_app_ge in D' by lia. replace (Z.to_nat (from + 1) - length (n_msg n))%nat with 0%nat in D' by lia. rewrite drop_0 in D'. destruct l' as [|n' l'].
      * rewrite D'. cbn in D' |- *. rewrite bool_decide_eq_false_2; [done|]. intros E. apply X. rewrite take_nil in E. by rewrite <- E.
      * specialize (IH (i + 1) (n' :: l') 0 (n_sz n')). apply Forall_cons in F' as F''. destruct F'' as [[_ P'] _]. rewrite Es' in IH.
        specialize (IH F' ltac:(exists n', l'; repeat split; lia) ltac:(lia) D' ltac:(lia)). destruct (find_sep sep s) as [k|]; cbn; [|exact IH]. cbn in IH. by replace (i + Z.of_nat (S k)) with (i + 1 + Z.of_nat k) by lia.
    + specialize (IH (i + 1) (n :: l') (from + 1) (n_sz n - from - 1)). rewrite Es' in IH.
      specialize (IH F ltac:(exists n, l'; repeat split; lia) ltac:(lia) D' ltac:(lia)). destruct (find_sep sep s) as [k|]; cbn; [|exact IH]. cbn in IH. by replace (i + Z.of_nat (S k)) with (i + 1 + Z.of_nat k) by lia.
Qed.

(** ** The stream *)

Definition stream_step (s : list Z) (op : buffer_op) : buffer_result * list Z :=
  let size := Z.of_nat (length s) in
  match op with
  | Push msg => (Size (size + Z.of_nat (length msg)), s ++ msg)
  | Pop sz => if (size <? sz) || (sz =? 0) then (Popped None size, s) else (Popped (Some (take (Z.to_nat sz) s)) (size - sz), drop (Z.to_nat sz) s)
  | ReadLine check sep =>
    match (match s with [] => None | _ => find_sep sep s end) with
    | None => (LineIs NoLine, s)
    | Some k => if check then (LineIs Found, s) else (LineIs (Line (take k s)), drop (k + length sep) s)
    end
  | ReadAll => (All s, [])
  | Clear => (Cleared, [])
  end.

(** What a service may ask: blocks of at least a byte, at most 2^31 - 1 bytes in all, a number of bytes, a separator of less than 2^31 bytes. *)
Definition op_ok (s : list Z) (op : buffer_op) : Prop :=
  match op with
  | Push msg => msg <> [] /\ Z.of_nat (length s) + Z.of_nat (length msg) <= INT_MAX
  | Pop sz => 0 <= sz <= INT_MAX
  | ReadLine _ sep => Z.of_nat (length sep) <= INT_MAX
  | ReadAll | Clear => True
  end.

(** [sb] holds [s], its nodes being of the pool, with [o] those of other sockets. *)
Definition holds (sb : socket_buffer) (p : lua_pool) (o : list Z) (s : list Z) : Prop := buffer_ok sb /\ contents sb = s /\ pool_ok p (used sb ++ o).

Lemma popped_holds sb p o s sz sb' p' : holds sb p o s -> 0 <= sz <= Z.of_nat (length s) -> popped sb p sz sb' p' -> holds (set_size (Z.of_nat (length s) - sz) sb') p' o (drop (Z.to_nat sz) s).
Proof.
  intros (B & E & (C & N & P)) H Q. pose proof (ok_size _ B) as [ES _]. split; [|split].
  - rewrite <- E, <- ES. by apply (popped_ok sb p sz sb' p'); [|rewrite ES, E|].
  - destruct Q as (Q & _). rewrite <- E, <- Q. done.
  - destruct Q as (_ & _ & _ & K & M & Q). split; [lia|]. split; [lia|]. rewrite M, <- P, !app_assoc. apply Permutation_app_tail, Q.
Qed.

Lemma push_holds sb p o s msg : holds sb p o s -> op_ok s (Push msg) ->
  exists sb' p', lpushbuffer sb p (Some msg) (Z.of_nat (length msg)) = Ok (Z.of_nat (length s) + Z.of_nat (length msg), sb', p') /\ holds sb' p' o (s ++ msg).
Proof.
  intros (B & E & P) [N L]. destruct (pool_alloc_ok p (used sb ++ o) P) as (n & p' & A & P'). pose proof (ok_chain _ B) as (F & O & On). pose proof (ok_size _ B) as [ES MS].
  rewrite E in ES. unfold INT_MAX in *. assert (0 < length msg)%nat by (destruct msg; [done|simpl; lia]). unfold lpushbuffer. rewrite i32_small by lia. rewrite A. cbn. rewrite int_Ok by (unfold INT_MAX; lia). cbn.
  rewrite ES. eexists _, _. split; [done|].
  assert (Hb : (Z.to_nat (sb_offset sb) <= length (bytes_of (sb_chain sb)))%nat).
  { destruct On as [->|(m & l & El & ?)]; [simpl; lia|]. rewrite El in *. apply Forall_cons in F as [[Em _] _]. rewrite bytes_of_cons, length_app. lia. }
  assert (Ec : contents (MkSb (Z.of_nat (length s) + Z.of_nat (length msg)) (sb_offset sb) (sb_chain sb ++ [MkNode n msg (Z.of_nat (length msg))])) = s ++ msg).
  { unfold contents, bytes_of. cbn [sb_chain sb_offset]. rewrite fmap_app, concat_app. simpl. rewrite app_nil_r, drop_app_le by exact Hb. by rewrite <- E. }
  split; [split|split; [exact Ec|]].
  - split; cbn [sb_chain sb_offset]; [|split; [done|]].
    + apply Forall_app. split; [done|]. repeat constructor; simpl; lia.
    + destruct On as [?|(m & l & El & ?)]; [by left|]. right. rewrite El. eauto.
  - rewrite Ec, length_app. cbn [sb_size]. unfold INT_MAX. lia.
  - destruct P' as (? & ? & P'). split; [done|]. split; [done|]. rewrite <- P'. apply Permutation_app_head. unfold used. cbn [sb_chain]. rewrite fmap_app, <- app_assoc. symmetry. apply Permutation_middle.
Qed.

Lemma contents_empty sb : sb_chain sb = [] -> contents sb = [].
Proof. unfold contents. intros ->. apply drop_nil. Qed.

(** Each operation is that of the stream. *)
Lemma buffer_step_ok sb p o s op : holds sb p o s -> op_ok s op ->
  exists sb' p', buffer_step sb p op = Ok ((stream_step s op).1, sb', p') /\ holds sb' p' o (stream_step s op).2.
Proof.
  intros H K. pose proof H as (B & E & P). pose proof (ok_chain _ B) as C. pose proof (ok_size _ B) as [ES MS]. rewrite E in ES. destruct op as [msg|sz|check sep| |]; cbn [buffer_step stream_step].
  - destruct (push_holds _ _ _ _ _ H K) as (sb' & p' & -> & Q). eexists _, _. split; [done|]. exact Q.
  - unfold lpopbuffer. simpl in K. unfold INT_MAX in *. rewrite i32_small by lia. rewrite ES. destruct (Z.ltb_spec (Z.of_nat (length s)) sz); cbn [orb]; [by eexists _, _|].
    destruct (Z.eqb_spec sz 0); [by eexists _, _|].
    destruct (pop_lstring_ok sb p sz 0) as (sb' & p' & -> & Q); [done|intros D%contents_empty; rewrite E in D; apply (f_equal length) in D; simpl in D; lia|lia|rewrite E; lia|].
    cbn. rewrite Z.sub_0_r. pose proof Q as (_ & _ & -> & _). rewrite ES, int_Ok by (unfold INT_MAX; lia). cbn. rewrite E. eexists _, _. split; [done|].
    eapply popped_holds; [done|lia|done].
  - unfold lreadline. destruct (sb_chain sb) as [|n l] eqn:El.
    { apply contents_empty in El. assert (s = []) as -> by congruence. by eexists _, _. }
    destruct (C) as (F & O & On). rewrite El in F, On. pose proof F as F'. apply Forall_cons in F' as [[En Pn] _].
    assert (Ho : sb_offset sb < n_sz n) by (destruct On as [->|(? & ? & [= -> ->] & ?)]; lia).
    simpl in K. unfold INT_MAX in *. rewrite int_Ok by (unfold INT_MAX; lia). cbn.
    assert (Hs : s <> []) by (rewrite <- E; unfold contents; rewrite El, bytes_of_cons, drop_app_le by lia; intros [D _]%app_nil; apply (f_equal length) in D; rewrite length_drop in D; simpl in D; lia).
    rewrite int_Ok by (unfold INT_MAX; lia). cbn.
    pose proof (readline_loop_ok (Z.to_nat (sb_size sb - Z.of_nat (length sep) + 1)) check sb p sep 0 (n :: l) (sb_offset sb) (n_sz n - sb_offset sb) B) as R.
    specialize (R ltac:(by rewrite El) F ltac:(exists n, l; repeat split; lia) ltac:(lia)). unfold contents in R at 1. rewrite El in R. specialize (R eq_refl ltac:(f_equal; lia)).
    change (drop (Z.to_nat 0) (contents sb)) with (contents sb) in R. rewrite E in R.
    replace (match s with [] => None | _ => find_sep sep s end) with (find_sep sep s) by (by destruct s). destruct (find_sep sep s) as [k|] eqn:Ek; cbn in R.
    + destruct check; [rewrite R; by eexists _, _|]. apply find_sep_fits in Ek. destruct R as (sb' & p' & -> & Q). cbn. rewrite Z.add_0_l, Nat2Z.id in *. eexists _, _. split; [done|].
      rewrite ES. replace (drop (k + length sep) s) with (drop (Z.to_nat (Z.of_nat k + Z.of_nat (length sep))) s) by (f_equal; lia). eapply popped_holds; [done|lia|done].
    + rewrite R. by eexists _, _.
  - unfold lreadall. destruct (readall_loop_ok (length (sb_chain sb)) sb p ltac:(lia) C) as (sb' & p' & -> & Q). cbn. rewrite E in *. eexists _, _. split; [done|].
    pose proof (popped_holds _ _ _ _ (Z.of_nat (length s)) _ _ H ltac:(lia) Q) as R. rewrite Z.sub_diag, Nat2Z.id, drop_all in R. exact R.
  - unfold lclearbuffer. destruct (clear_loop_ok (length (sb_chain sb)) sb p ltac:(lia) C) as (sb' & p' & -> & Q). cbn. rewrite E in *. eexists _, _. split; [done|].
    pose proof (popped_holds _ _ _ _ (Z.of_nat (length s)) _ _ H ltac:(lia) Q) as R. rewrite Z.sub_diag, Nat2Z.id, drop_all in R. exact R.
Qed.

(** ** Several sockets, one pool *)

Fixpoint stream_steps (ss : list (list Z)) (ops : list (nat * buffer_op)) : list buffer_result * list (list Z) :=
  match ops with
  | [] => ([], ss)
  | (i, op) :: ops =>
    let '(r, s) := stream_step (ss !!! i) op in
    let '(rs, ss) := stream_steps (<[i := s]> ss) ops in
    (r :: rs, ss)
  end.

Fixpoint ops_ok (ss : list (list Z)) (ops : list (nat * buffer_op)) : Prop :=
  match ops with
  | [] => True
  | (i, op) :: ops => (i < length ss)%nat /\ op_ok (ss !!! i) op /\ ops_ok (<[i := (stream_step (ss !!! i) op).2]> ss) ops
  end.

Definition all_used (sbs : list socket_buffer) : list Z := concat (used <$> sbs).
Definition all_hold (sbs : list socket_buffer) (p : lua_pool) (ss : list (list Z)) : Prop := Forall2 (fun sb s => buffer_ok sb /\ contents sb = s) sbs ss /\ pool_ok p (all_used sbs).

(** The nodes in use: those of socket [i], and the others'. *)
Lemma all_used_at sbs i sb : sbs !! i = Some sb -> Permutation (all_used sbs) (used sb ++ all_used (delete i sbs)).
Proof.
  intros H. unfold all_used. rewrite delete_take_drop, <- (take_drop_middle sbs i sb H) at 1. rewrite !fmap_app, !fmap_cons, !concat_app, concat_cons.
  rewrite !app_assoc. apply Permutation_app_tail, Permutation_app_comm.
Qed.

Lemma list_delete_insert_eq {A} (i : nat) (x : A) (l : list A) : delete i (<[i:=x]> l) = delete i l.
Proof. revert i. induction l as [|y l IH]; intros [|i]; try done. simpl. f_equal. apply IH. Qed.

Lemma pool_ok_perm p l l' : Permutation l l' -> pool_ok p l -> pool_ok p l'.
Proof. intros H (C & N & P). split; [done|]. split; [done|]. by rewrite <- H. Qed.

Lemma buffer_steps_ok sbs p ss ops : all_hold sbs p ss -> ops_ok ss ops ->
  exists sbs' p', buffer_steps sbs p ops = Ok ((stream_steps ss ops).1, sbs', p') /\ all_hold sbs' p' (stream_steps ss ops).2.
Proof.
  revert sbs p ss. induction ops as [|[i op] ops IH]; intros sbs p ss [H P] K; [by eexists _, _|]. destruct K as (Hi & Ko & K).
  destruct (lookup_lt_is_Some_2 _ _ Hi) as [s Es]. destruct (Forall2_lookup_r _ _ _ _ _ H Es) as (sb & Eb & B & E). rewrite (list_lookup_total_correct _ _ _ Es) in Ko, K.
  cbn [buffer_steps stream_steps]. rewrite Eb, (list_lookup_total_correct _ _ _ Es).
  destruct (buffer_step_ok sb p (all_used (delete i sbs)) s op) as (sb' & p' & -> & B' & E' & P'); [split; [done|split; [done|]]|done|].
  { by eapply pool_ok_perm; [apply all_used_at|]. }
  cbn. destruct (stream_step s op) as [r s'] eqn:Est. cbn in *. destruct (IH (<[i:=sb']> sbs) p' (<[i:=s']> ss)) as (sbs' & p2 & -> & Q); [split|done|].
  - by apply Forall2_insert.
  - eapply pool_ok_perm; [|exact P']. symmetry. rewrite (all_used_at _ i sb') by (apply list_lookup_insert_eq; by eapply lookup_lt_Some). by rewrite list_delete_insert_eq.
  - cbn. destruct (stream_steps (<[i:=s']> ss) ops) as [rs ss']. eexists _, _. split; [done|exact Q].
Qed.

(** C11: The sockets of a service are streams of bytes. After new buffers and an empty pool, whatever blocks arrive at whichever socket and however the service takes strings off them, each result is
    that of a stream per socket, and the pool has every node it made free or in the chain of one socket: a byte received is handed over once, in order, a line ends at the first separator, also one
    that blocks cut in two, and no node is lost or shared. *)
Theorem socket_buffers_are_streams k ops : ops_ok (replicate k []) ops ->
  exists sbs p, buffer_steps (replicate k lnewbuffer) pool_table ops = Ok ((stream_steps (replicate k []) ops).1, sbs, p) /\
    contents <$> sbs = (stream_steps (replicate k []) ops).2 /\ Permutation (p_free p ++ concat (used <$> sbs)) (seqZ 0 (p_nodes p)).
Proof.
  intros K. destruct (buffer_steps_ok (replicate k lnewbuffer) pool_table (replicate k []) ops) as (sbs & p & E & [H (_ & _ & P)]); [split| done |].
  - apply Forall2_replicate. split; [|done]. split; [split; [constructor|simpl; split; [lia|by left]]|]. split; [done|]. unfold INT_MAX. simpl. lia.
  - split; [simpl; lia|]. split; [simpl; lia|]. unfold all_used. rewrite fmap_replicate. simpl. clear K. by induction k.
  - exists sbs, p. split; [exact E|]. split; [|exact P]. clear -H. induction H as [|sb s sbs ss [_ <-] _ IH]; [done|]. rewrite fmap_cons. by f_equal.
Qed.

(** Two sockets; a separator cut in two. *)
Lemma socket_buffers_are_streams_witness :
  ops_ok (replicate 2 []) [(0%nat, Push [97; 98; 13]); (1%nat, Push [1; 2; 3; 4]); (0%nat, ReadLine false [13; 10]); (0%nat, Push [10; 99]); (0%nat, ReadLine false [13; 10]); (1%nat, Pop 3); (1%nat, Pop 2); (0%nat, ReadAll)] /\
  exists sbs p, buffer_steps (replicate 2 lnewbuffer) pool_table [(0%nat, Push [97; 98; 13]); (1%nat, Push [1; 2; 3; 4]); (0%nat, ReadLine false [13; 10]); (0%nat, Push [10; 99]); (0%nat, ReadLine false [13; 10]); (1%nat, Pop 3); (1%nat, Pop 2); (0%nat, ReadAll)] =
    Ok ([Size 3; Size 4; LineIs NoLine; Size 5; LineIs (Line [97; 98]); Popped (Some [1; 2; 3]) 1; Popped None 1; All [99]], sbs, p) /\ contents <$> sbs = [[]; [4]] /\ Permutation (p_free p ++ concat (used <$> sbs)) (seqZ 0 (p_nodes p)).
Proof.
  assert (K : ops_ok (replicate 2 []) [(0%nat, Push [97; 98; 13]); (1%nat, Push [1; 2; 3; 4]); (0%nat, ReadLine false [13; 10]); (0%nat, Push [10; 99]); (0%nat, ReadLine false [13; 10]); (1%nat, Pop 3); (1%nat, Pop 2); (0%nat, ReadAll)])
    by (cbn; unfold INT_MAX; repeat split; lia || done).
  split; [exact K|]. exact (socket_buffers_are_streams 2 _ K).
Defined.

(** ** Outside *)

(** A negative number of bytes passes both tests of [lpopbuffer], and an empty buffer has no first node. *)
Lemma lpopbuffer_negative p : lpopbuffer lnewbuffer p (-1) = Stuck.
Proof. reflexivity. Qed.

(** [lheader] is the big-endian number. *)
Lemma lheader_value s : (1 <= length s <= 4)%nat -> Forall (fun b => 0 <= b < 256) s -> lheader s = Ok (foldl (fun n b => n * 256 + b) 0 s).
Proof.
  intros L F. unfold lheader. destruct (Z.ltb_spec 4 (Z.of_nat (length s))); [lia|]. destruct (Z.ltb_spec (Z.of_nat (length s)) 1); [lia|]. cbn [orb].
  assert (K : forall n l, 0 <= n < 2 ^ (8 * (4 - Z.of_nat (length l))) -> (length l <= 4)%nat -> Forall (fun b => 0 <= b < 256) l ->
    foldl (fun sz b => u64 (Z.lor (Z.shiftl sz 8) b)) n l = foldl (fun n b => n * 256 + b) n l /\ 0 <= foldl (fun n b => n * 256 + b) n l < 2 ^ 32).
  { intros n l. revert n. induction l as [|b l IH]; intros n Hn Hl Fl; [done|]. apply Forall_cons in Fl as [Hb Fl]. simpl in Hl.
    assert (E : Z.lor (Z.shiftl n 8) b = n * 256 + b).
    { rewrite Z.shiftl_mul_pow2, Z.lor_comm, lor_fields by (lia || (change (2 ^ 8) with 256; lia)). change (2 ^ 8) with 256. lia. }
    assert (Hn' : n * 256 + b < 2 ^ (8 * (4 - Z.of_nat (length l)))).
    { replace (8 * (4 - Z.of_nat (length l))) with (8 + 8 * (4 - Z.of_nat (length (b :: l)))) by (simpl; lia). rewrite Z.pow_add_r by (simpl; lia). change (2 ^ 8) with 256. lia. }
    assert (2 ^ (8 * (4 - Z.of_nat (length l))) <= 2 ^ 32) by (apply Z.pow_le_mono_r; lia).
    cbn [foldl]. rewrite E, u64_small by (change (2 ^ 64) with 18446744073709551616; change (2 ^ 32) with 4294967296 in *; lia). apply IH; [lia|lia|done]. }
  destruct (K 0 s) as [-> B]; [|lia|done|].
  - split; [lia|]. apply Z.pow_pos_nonneg; lia.
  - by rewrite i64_small by (change (2 ^ 63) with 9223372036854775808; change (2 ^ 32) with 4294967296 in *; lia).
Qed.
