(* ===== verification/Multicast.v ===== *)
(** * Multicast packages ([lualib-src/lua-multicast.c])

    A message to a channel is one block for all the subscribers of a node: a package counts them, and the last one to close it frees it.  What the services send each other is the pointer to the
    package, in a message of its own.

    Memory is a finite map from addresses to what has been allocated there; [malloc] never gives an address again, so that an access to freed memory is an error of the model. *)

From S2P Require Import Prelude CString LuaError.

(** ** Memory *)

(** [struct mc_package]; the other blocks are a [struct mc_package *] and bytes. *)
Record mc_package := MkPackage { reference : Z; size : Z; data : Z }.
Inductive object := Package (p : mc_package) | Pointer (pack : Z) | Block (bytes : list Z).
Record heap := MkHeap { h_next : Z; h_objects : gmap Z object }.

Definition skynet_malloc (o : object) (h : heap) : Z * heap := (h_next h, MkHeap (h_next h + 1) (<[h_next h := o]> (h_objects h))).
Definition skynet_free (a : Z) (h : heap) : res heap := match h_objects h !! a with Some _ => Ok (MkHeap (h_next h) (delete a (h_objects h))) | None => Stuck end.
Definition load_package (a : Z) (h : heap) : res mc_package := match h_objects h !! a with Some (Package p) => Ok p | _ => Stuck end.
Definition load_pointer (a : Z) (h : heap) : res Z := match h_objects h !! a with Some (Pointer p) => Ok p | _ => Stuck end.
Definition load_block (a : Z) (h : heap) : res (list Z) := match h_objects h !! a with Some (Block b) => Ok b | _ => Stuck end.
Definition store_reference (a : Z) (p : mc_package) (n : Z) (h : heap) : heap := MkHeap (h_next h) (<[a := Package (MkPackage n (size p) (data p))]> (h_objects h)).

(** ** Operations *)

Definition sizeof_pointer : Z := 8.

(** The pointer to the new package; the size of the pointer is a constant. *)
Definition pack (d sz : Z) (h : heap) : Z * heap :=
  let '(p, h) := skynet_malloc (Package (MkPackage 0 (u32 sz) d)) h in
  skynet_malloc (Pointer p) h.

Definition mc_packlocal (d sz : Z) (h : heap) : res (Z * heap) :=
  let sz := u64 sz in
  if negb (sz =? u32 sz) then Raise (Text "Size should be 32bit integer") else Ok (pack d sz h).

Definition mc_packremote (d sz : Z) (h : heap) : res (Z * heap) :=
  let sz := u64 sz in
  if negb (sz =? u32 sz) then Raise (Text "Size should be 32bit integer") else
  let* b := load_block d h in
  let* b := lift (memcpy b 0 sz) in
  let '(msg, h) := skynet_malloc (Block b) h in
  Ok (pack msg sz h).

(** The package, its data and their size. *)
Definition mc_unpacklocal (pointer sz : Z) (h : heap) : res (Z * Z * Z) :=
  if negb (i32 sz =? sizeof_pointer) then Raise (Text "Invalid multicast package size") else
  let* a := load_pointer pointer h in
  let* p := load_package a h in
  Ok (a, data p, size p).

Definition mc_bindrefer (pointer ref : Z) (h : heap) : res (Z * heap) :=
  let* a := load_pointer pointer h in
  let* p := load_package a h in
  if negb (reference p =? 0) then Raise (Text "Can't bind a multicast package more than once") else
  let h := store_reference a p (i32 ref) h in
  let* h := skynet_free pointer h in
  Ok (a, h).

(** [mc_closelocal] in its two steps: [ATOM_DEC], and what is done with the count it gives; the error is raised after the memory is freed. *)
Definition mc_dec (a : Z) (h : heap) : res (Z * heap) :=
  let* p := load_package a h in
  let ref := i32 (reference p - 1) in
  Ok (ref, store_reference a p ref h).

Definition mc_drop (a ref : Z) (h : heap) : res (option lua_error * heap) :=
  if ref <=? 0 then
    let* p := load_package a h in
    let* h := skynet_free (data p) h in
    let* h := skynet_free a h in
    Ok (if ref <? 0 then Some (Text "Invalid multicast package reference") else None, h)
  else Ok (None, h).

Definition mc_closelocal (a : Z) (h : heap) : res (option lua_error * heap) :=
  let* (ref, h) := mc_dec a h in mc_drop a ref h.

(** The block and its size; it is the caller's now. *)
Definition mc_remote (pointer : Z) (h : heap) : res (Z * Z * heap) :=
  let* a := load_pointer pointer h in
  let* p := load_package a h in
  let* h := skynet_free a h in
  Ok (data p, size p, h).

Definition mc_nextid (id : Z) : Z := u32 (u32 id + 256).

(** ** Publishing ([publish] in multicastd.lua, [dispatch_subscribe] in multicast.lua) *)

(** Where a subscriber is with its message: it unpacks it, reads the data, closes the package in two steps, and the runtime frees the message. *)
Inductive subscriber := SUnpack | SRead (a d sz : Z) | SClose (a : Z) (got : list Z) | SDrop (a : Z) (got : list Z) (ref : Z) | SFree (got : list Z) | SDone (got : list Z).

(** A subscriber with the address of its message. *)
Record world := MkWorld { w_heap : heap; w_subs : list (Z * subscriber) }.

(** [skynet.redirect]: a copy of the pointer for each. *)
Fixpoint redirect (n : nat) (a : Z) (h : heap) : world :=
  match n with
  | O => MkWorld h []
  | S n => let '(m, h) := skynet_malloc (Pointer a) h in let w := redirect n a h in MkWorld (w_heap w) ((m, SUnpack) :: w_subs w)
  end.

(** A channel with [n] subscribers of this node. *)
Definition publish (pointer : Z) (n : nat) (h : heap) : res world :=
  match n with
  | O => let* (a, h) := mc_bindrefer pointer 1 h in let* (e, h) := mc_closelocal a h in match e with Some e => Raise e | None => Ok (MkWorld h []) end
  | _ => let* a := load_pointer pointer h in let* (_, h) := mc_bindrefer pointer (Z.of_nat n) h in Ok (redirect n a h)
  end.

Definition sub_step (m : Z) (s : subscriber) (h : heap) : res (subscriber * heap) :=
  match s with
  | SUnpack => let* (a, d, sz) := mc_unpacklocal m sizeof_pointer h in Ok (SRead a d sz, h)
  | SRead a d sz => let* b := load_block d h in let* got := lift (memcpy b 0 sz) in Ok (SClose a got, h)
  | SClose a got => let* (ref, h) := mc_dec a h in Ok (SDrop a got ref, h)
  | SDrop a got ref => let* (e, h) := mc_drop a ref h in match e with Some e => Raise e | None => Ok (SFree got, h) end
  | SFree got => let* h := skynet_free m h in Ok (SDone got, h)
  | SDone got => Ok (SDone got, h)
  end.

(** The next step of subscriber [i]. *)
Definition step (w : world) (i : nat) : res world :=
  match w_subs w !! i with
  | None => Ok w
  | Some (m, s) => let* (s, h) := sub_step m s (w_heap w) in Ok (MkWorld h (<[i := (m, s)]> (w_subs w)))
  end.

(** The subscribers in the order [sched]. *)
Fixpoint steps (w : world) (sched : list nat) : res world :=
  match sched with [] => Ok w | i :: sched => let* w := step w i in steps w sched end.
