(* ===== verification/MulticastSpec.v ===== *)
(** * A multicast message reaches every subscriber and is freed once

    The invariant of [Multicast]: the count of the package is the number of subscribers that have yet to close it, and exactly one of them frees it. *)

From S2P Require Import Prelude CString LuaError Sums Multicast.

(** ** The invariant *)

(** Who has not closed the package, and who is to free it. *)
Definition owes (s : subscriber) : Z := match s with SUnpack | SRead _ _ _ | SClose _ _ => 1 | _ => 0 end.
Definition drops (s : subscriber) : Z := match s with SDrop _ _ ref => Z.b2z (ref <=? 0) | _ => 0 end.
Definition is_done (s : subscriber) : bool := match s with SDone _ => true | _ => false end.

(** What a subscriber has read, when it has. *)
Definition got (s : subscriber) : option (list Z) := match s with SClose _ g | SDrop _ g _ | SFree g | SDone g => Some g | _ => None end.

Definition owing (subs : list (Z * subscriber)) : Z := sum (fun x => owes x.2) subs.
Definition dropping (subs : list (Z * subscriber)) : Z := sum (fun x => drops x.2) subs.

Section multicast.
(** The package at [a], its [bytes] at [d], and what else is in memory. *)
Context (a d : Z) (bytes : list Z) (rest : gmap Z object).

Definition point_ok (s : subscriber) : Prop :=
  match s with
  | SUnpack => True
  | SRead p x sz => p = a /\ x = d /\ sz = Z.of_nat (length bytes)
  | SClose p g => p = a /\ g = bytes
  | SDrop p g ref => p = a /\ g = bytes /\ 0 <= ref
  | SFree g | SDone g => g = bytes
  end.

(** The package and its data with [n] to close it and [k] to free it. *)
Definition shared_ok (m : gmap Z object) (n k : Z) : Prop :=
  if decide (0 < n + k) then m !! a = Some (Package (MkPackage n (Z.of_nat (length bytes)) d)) /\ m !! d = Some (Block bytes) else m !! a = None /\ m !! d = None.

Definition names (subs : list (Z * subscriber)) : list Z := a :: d :: subs.*1.

Record delivery (w : world) : Prop := {
  dv_points : Forall (fun x => point_ok x.2) (w_subs w);
  dv_names : NoDup (names (w_subs w));
  dv_few : Z.of_nat (length (w_subs w)) < 2 ^ 31;
  dv_once : dropping (w_subs w) <= 1 /\ (0 < dropping (w_subs w) -> owing (w_subs w) = 0);
  dv_shared : shared_ok (h_objects (w_heap w)) (owing (w_subs w)) (dropping (w_subs w));
  dv_messages : forall i m s, w_subs w !! i = Some (m, s) -> h_objects (w_heap w) !! m = if is_done s then None else Some (Pointer a);
  dv_rest : forall x, x ∉ names (w_subs w) -> h_objects (w_heap w) !! x = rest !! x;
}.

Lemma owes_pos (x : Z * subscriber) : 0 <= owes x.2. Proof. by destruct x as [? []]. Qed.
Lemma drops_pos (x : Z * subscriber) : 0 <= drops x.2. Proof. destruct x as [? []]; simpl; try done. by destruct (Z.leb_spec ref 0). Qed.

Lemma owing_few subs : owing subs <= Z.of_nat (length subs).
Proof. unfold owing. induction subs as [|[m s] subs IH]; simpl; [done|]. unfold sum in *. assert (owes s <= 1) by (by destruct s). lia. Qed.

Lemma names_insert subs i m s s' : subs !! i = Some (m, s) -> names (<[i := (m, s')]> subs) = names subs.
Proof. intros E. unfold names. rewrite list_fmap_insert. do 2 f_equal. apply list_insert_id. by rewrite list_lookup_fmap, E. Qed.

(** A message is not the package, nor another's. *)
Lemma message_fresh subs i m s : NoDup (names subs) -> subs !! i = Some (m, s) -> m <> a /\ m <> d /\ a <> d.
Proof.
  intros N E. assert (M : m ∈ subs.*1) by (apply list_elem_of_fmap; exists (m, s); split; [done|by eapply list_elem_of_lookup_2]).
  unfold names in N. apply NoDup_cons in N as [N1 N]. apply NoDup_cons in N as [N2 _]. repeat split; intros ->; [apply N1; by right|done|apply N1; by left].
Qed.

Lemma message_own subs i j m s m' s' : NoDup (names subs) -> subs !! i = Some (m, s) -> subs !! j = Some (m', s') -> i <> j -> m <> m'.
Proof.
  intros N E E' K ->. unfold names in N. apply NoDup_cons in N as [_ N]. apply NoDup_cons in N as [_ N]. apply K.
  apply (NoDup_lookup subs.*1 i j m'); [done|by rewrite list_lookup_fmap, E|by rewrite list_lookup_fmap, E'].
Qed.

(** What a step of one subscriber has to keep. *)
Lemma delivery_step w i m s s' h' : delivery w -> w_subs w !! i = Some (m, s) -> point_ok s' ->
  let n := owing (w_subs w) - owes s + owes s' in
  let k := dropping (w_subs w) - drops s + drops s' in
  k <= 1 -> (0 < k -> n = 0) -> shared_ok (h_objects h') n k ->
  h_objects h' !! m = (if is_done s' then None else Some (Pointer a)) ->
  (forall x, x <> a -> x <> d -> x <> m -> h_objects h' !! x = h_objects (w_heap w) !! x) ->
  delivery (MkWorld h' (<[i := (m, s')]> (w_subs w))).
Proof.
  intros [P N F O S M R] E P' n k K1 K2 S' M' R'. assert (EN := names_insert _ _ _ _ s' E).
  assert (En : owing (<[i := (m, s')]> (w_subs w)) = n) by (unfold owing; by rewrite (sum_insert _ _ _ _ _ E)).
  assert (Ek : dropping (<[i := (m, s')]> (w_subs w)) = k) by (unfold dropping; by rewrite (sum_insert _ _ _ _ _ E)).
  split; cbn [w_subs w_heap]; rewrite ?EN, ?En, ?Ek, ?length_insert; try done.
  - by apply Forall_insert.
  - intros j x t Ej. destruct (decide (j = i)) as [->|D].
    + rewrite list_lookup_insert_eq in Ej by (by eapply lookup_lt_Some). by injection Ej as <- <-.
    + rewrite list_lookup_insert_ne in Ej by done. rewrite <- (M _ _ _ Ej). destruct (message_fresh _ _ _ _ N Ej) as (? & ? & _). apply R'; [done|done|].
      by apply (message_own (w_subs w) j i x t m s).
  - intros x Hx. rewrite <- R by done. apply R'; intros ->; apply Hx; unfold names; [by left|right; by left|]. right. right. apply list_elem_of_fmap. exists (m, s). split; [done|]. by eapply list_elem_of_lookup_2.
Qed.

(** How far a subscriber is. *)
Definition rank (s : subscriber) : nat := match s with SUnpack => 0 | SRead _ _ _ => 1 | SClose _ _ => 2 | SDrop _ _ _ => 3 | SFree _ => 4 | SDone _ => 5 end.

(** A subscriber that still has to close the package finds it there. *)
Lemma shared_there w i m s : delivery w -> w_subs w !! i = Some (m, s) -> 0 < owes s + drops s ->
  let n := owing (w_subs w) in let k := dropping (w_subs w) in
  0 <= n < 2 ^ 31 /\ 0 <= k /\ owes s <= n /\ drops s <= k /\
  h_objects (w_heap w) !! a = Some (Package (MkPackage n (Z.of_nat (length bytes)) d)) /\ h_objects (w_heap w) !! d = Some (Block bytes).
Proof.
  intros [P N F O S M R] E H n k. pose proof (owing_few (w_subs w)). pose proof (sum_at _ _ _ _ owes_pos E) as Hn. pose proof (sum_at _ _ _ _ drops_pos E) as Hk. simpl in Hn, Hk.
  pose proof (sum_pos _ (w_subs w) owes_pos) as Pn. pose proof (sum_pos _ (w_subs w) drops_pos) as Pk. fold (owing (w_subs w)) in Hn, Pn. fold (dropping (w_subs w)) in Hk, Pk.
  unfold shared_ok in S. rewrite decide_True in S by lia. unfold n, k. repeat split; try lia; apply S.
Qed.

(** A step that leaves the counts as they are. *)
Lemma delivery_same w i m s s' h' : delivery w -> w_subs w !! i = Some (m, s) -> point_ok s' -> owes s' = owes s -> drops s' = drops s ->
  h_objects h' !! m = (if is_done s' then None else Some (Pointer a)) -> (forall x, x <> m -> h_objects h' !! x = h_objects (w_heap w) !! x) ->
  delivery (MkWorld h' (<[i := (m, s')]> (w_subs w))).
Proof.
  intros D E P' En Ek M' R'. destruct (message_fresh _ _ _ _ (dv_names _ D) E) as (Na & Nd & _). apply (delivery_step _ _ _ _ _ _ D E P'); rewrite ?En, ?Ek, ?Z.sub_simpl_r; try apply D; [|done|].
  - replace (owing (w_subs w) - owes s + owes s) with (owing (w_subs w)) by lia. replace (dropping (w_subs w) - drops s + drops s) with (dropping (w_subs w)) by lia.
    pose proof (dv_shared _ D) as S. unfold shared_ok in *. by rewrite !R' by congruence.
  - intros x _ _ Nx. by apply R'.
Qed.

Lemma sub_step_ok w i m s : delivery w -> w_subs w !! i = Some (m, s) -> Z.of_nat (length bytes) < 2 ^ 32 ->
  exists s' h', sub_step m s (w_heap w) = Ok (s', h') /\ delivery (MkWorld h' (<[i := (m, s')]> (w_subs w))) /\ rank s' = Nat.min 5 (S (rank s)).
Proof.
  intros D E Hb. pose proof (dv_messages _ D _ _ _ E) as Hm. pose proof (Forall_lookup_1 _ _ _ _ (dv_points _ D) E) as P. simpl in P.
  destruct (message_fresh _ _ _ _ (dv_names _ D) E) as (Na & Nd & Nad). destruct s as [|p x sz|p g|p g ref|g|g]; cbn [sub_step is_done] in *.
  - destruct (shared_there _ _ _ _ D E) as (_ & _ & _ & _ & Ea & Ed); [done|]. unfold mc_unpacklocal, load_pointer, load_package. change (i32 sizeof_pointer =? sizeof_pointer) with true. cbn.
    rewrite Hm, Ea. cbn. eexists _, _. split; [done|]. split; [|done]. by apply (delivery_same _ _ _ _ _ _ D E).
  - destruct P as (-> & -> & ->). destruct (shared_there _ _ _ _ D E) as (_ & _ & _ & _ & Ea & Ed); [done|]. unfold load_block. rewrite Ed. cbn. rewrite memcpy_Some by lia. cbn.
    eexists _, _. split; [done|]. split; [|done]. apply (delivery_same _ _ _ _ _ _ D E); try done. split; [done|]. rewrite Nat2Z.id. cbn. by rewrite firstn_all.
  - destruct P as (-> & ->). destruct (shared_there _ _ _ _ D E) as (Hn & Hk & H1 & _ & Ea & Ed); [done|]. unfold mc_dec, load_package. rewrite Ea. cbn [owes] in H1. cbn [reference]. rewrite i32_small by lia.
    eexists _, _. split; [done|]. split; [|done]. apply (delivery_step _ _ _ _ _ _ D E); cbn [owes drops point_ok is_done h_objects store_reference].
    + split; [done|]. split; [done|lia].
    + destruct (dv_once _ D) as [_ O]. destruct (Z.leb_spec (owing (w_subs w) - 1) 0); simpl; [|lia]. assert (dropping (w_subs w) <= 0) by (apply Z.nlt_ge; intros K%O; lia). lia.
    + destruct (dv_once _ D) as [_ O]. assert (dropping (w_subs w) <= 0) by (apply Z.nlt_ge; intros K%O; lia). destruct (Z.leb_spec (owing (w_subs w) - 1) 0); simpl; lia.
    + unfold shared_ok. rewrite decide_True by (destruct (Z.leb_spec (owing (w_subs w) - 1) 0); simpl; lia). rewrite lookup_insert_eq, lookup_insert_ne by done.
      split; [|done]. do 3 f_equal. lia.
    + by rewrite lookup_insert_ne by done.
    + intros x Xa _ _. by rewrite lookup_insert_ne by done.
  - destruct P as (-> & -> & P). unfold mc_drop. destruct (Z.leb_spec ref 0) as [L|L].
    + destruct (shared_there _ _ _ _ D E) as (Hn & Hk & _ & H1 & Ea & Ed); [simpl; by destruct (Z.leb_spec ref 0); simpl; lia|].
      cbn [drops] in H1. destruct (dv_once _ D) as [O1 O2]. assert (Z.b2z (ref <=? 0) = 1) as Eb by (by destruct (Z.leb_spec ref 0); [|lia]). rewrite Eb in H1.
      unfold load_package, skynet_free. rewrite Ea. cbn. rewrite Ed. cbn. rewrite lookup_delete_ne by done. rewrite Ea. cbn. destruct (Z.ltb_spec ref 0); [lia|].
      eexists _, _. split; [done|]. split; [|done]. apply (delivery_step _ _ _ _ _ _ D E); cbn [owes drops point_ok is_done h_objects]; rewrite ?Eb; try done; try lia.
      * unfold shared_ok. rewrite decide_False by lia. rewrite lookup_delete_eq, lookup_delete_ne, lookup_delete_eq by done. done.
      * by rewrite !lookup_delete_ne by done.
      * intros x Xa Xd _. by rewrite !lookup_delete_ne by done.
    + eexists _, _. split; [done|]. split; [|done]. apply (delivery_same _ _ _ _ _ _ D E); try done. simpl. by destruct (Z.leb_spec ref 0); [lia|].
  - unfold skynet_free. rewrite Hm. cbn. eexists _, _. split; [done|]. split; [|done]. apply (delivery_same _ _ _ _ _ _ D E); try done; cbn [h_objects is_done].
    + by rewrite lookup_delete_eq.
    + intros x Nx. by rewrite lookup_delete_ne by done.
  - eexists _, _. split; [done|]. split; [|done]. by apply (delivery_same _ _ _ _ _ _ D E).
Qed.
End multicast.

(** ** Any order of the subscribers *)

Lemma rank_le s : (rank s <= 5)%nat.
Proof. destruct s; simpl; lia. Qed.

Lemma steps_ok a d bytes rest w sched : Z.of_nat (length bytes) < 2 ^ 32 -> delivery a d bytes rest w ->
  exists w', steps w sched = Ok w' /\ delivery a d bytes rest w' /\ length (w_subs w') = length (w_subs w) /\
    (forall j m s, w_subs w !! j = Some (m, s) -> exists s', w_subs w' !! j = Some (m, s') /\ rank s' = Nat.min 5 (rank s + count_occ Nat.eq_dec sched j)).
Proof.
  intros Hb. revert w. induction sched as [|i sched IH]; intros w D; cbn [steps].
  { exists w. repeat split; try done; try apply D. intros j m s E. exists s. split; [done|]. pose proof (rank_le s). cbn [count_occ]. lia. }
  assert (H : exists w1, step w i = Ok w1 /\ delivery a d bytes rest w1 /\ length (w_subs w1) = length (w_subs w) /\
    forall j m s, w_subs w !! j = Some (m, s) -> exists s', w_subs w1 !! j = Some (m, s') /\ rank s' = Nat.min 5 (rank s + if decide (i = j) then 1 else 0)).
  { unfold step. destruct (w_subs w !! i) as [[m s]|] eqn:E.
    - destruct (sub_step_ok _ _ _ _ _ _ _ _ D E Hb) as (s' & h' & -> & D' & R). eexists. split; [done|]. split; [exact D'|]. cbn [w_subs]. rewrite length_insert. split; [done|].
      intros j m' t Ej. case_decide as Dij; [subst j|].
      + rewrite E in Ej. injection Ej as <- <-. exists s'. rewrite list_lookup_insert_eq by (by eapply lookup_lt_Some). split; [done|]. rewrite R. lia.
      + exists t. rewrite list_lookup_insert_ne by done. split; [done|]. pose proof (rank_le t). lia.
    - exists w. repeat split; try done; try apply D. intros j m s Ej. exists s. split; [done|]. rewrite decide_False by congruence. pose proof (rank_le s). lia. }
  destruct H as (w1 & -> & D1 & L1 & R1). destruct (IH w1 D1) as (w' & -> & D' & L' & R'). exists w'. split; [done|]. split; [done|]. split; [congruence|].
  intros j m s E. destruct (R1 _ _ _ E) as (s1 & E1 & K1). destruct (R' _ _ _ E1) as (s2 & E2 & K2). exists s2. split; [done|]. rewrite K2, K1. cbn [count_occ].
  destruct (Nat.eq_dec i j), (decide (i = j)); lia.
Qed.

(** ** Publishing *)

(** Every address in use has been given out. *)
Definition heap_ok (h : heap) : Prop := forall x o, h_objects h !! x = Some o -> x < h_next h.

(** What [pack] has made of the block at [d] in [rest]. *)
Record packed (h : heap) (pointer a d : Z) (bytes : list Z) (rest : gmap Z object) : Prop := {
  pk_objects : h_objects h = <[pointer := Pointer a]> (<[a := Package (MkPackage 0 (Z.of_nat (length bytes)) d)]> (<[d := Block bytes]> rest));
  pk_new : rest !! a = None /\ rest !! pointer = None /\ a <> d /\ pointer <> d /\ pointer <> a;
  pk_next : heap_ok h;
}.

Lemma packed_fresh h pointer a d bytes rest x : packed h pointer a d bytes rest -> h_next h <= x -> rest !! x = None.
Proof.
  intros [O _ K] Hx. destruct (h_objects h !! x) as [o|] eqn:E; [apply K in E; lia|]. rewrite O in E. apply lookup_insert_None in E as [E _]. apply lookup_insert_None in E as [E _].
  by apply lookup_insert_None in E as [E _].
Qed.

Lemma redirect_ok n a h : let w := redirect n a h in
  (w_subs w).*1 = seqZ (h_next h) (Z.of_nat n) /\ Forall (fun x => x.2 = SUnpack) (w_subs w) /\
  (forall x, h_objects (w_heap w) !! x = if decide (h_next h <= x < h_next h + Z.of_nat n) then Some (Pointer a) else h_objects h !! x).
Proof.
  revert h. induction n as [|n IH]; intros h; cbn [redirect skynet_malloc].
  - split; [done|]. split; [constructor|]. intros x. by rewrite decide_False by lia.
  - destruct (IH (MkHeap (h_next h + 1) (<[h_next h := Pointer a]> (h_objects h)))) as (E & F & O). cbn [h_next h_objects w_subs w_heap] in *. split; [|split].
    + rewrite fmap_cons, E, (seqZ_cons (h_next h)) by lia. cbn. f_equal. f_equal; lia.
    + by constructor.
    + intros x. rewrite O. destruct (decide (x = h_next h)) as [->|N].
      * rewrite decide_False, lookup_insert_eq, decide_True by lia. done.
      * rewrite lookup_insert_ne by done. do 2 case_decide; done || lia.
Qed.

Lemma sum_zero {A} (f : A -> Z) l : Forall (fun x => f x = 0) l -> sum f l = 0.
Proof. unfold sum. induction 1 as [|x l E _ IH]; simpl; lia. Qed.
Lemma sum_ones {A} (f : A -> Z) l : Forall (fun x => f x = 1) l -> sum f l = Z.of_nat (length l).
Proof. unfold sum. induction 1 as [|x l E _ IH]; simpl; lia. Qed.

Lemma publish_ok h pointer a d bytes rest n : packed h pointer a d bytes rest -> Z.of_nat n < 2 ^ 31 ->
  exists w, publish pointer n h = Ok w /\ length (w_subs w) = n /\ delivery a d bytes rest w /\ forall x, x ∈ (w_subs w).*1 -> rest !! x = None.
Proof.
  intros PK Hn. pose proof PK as [O (Na & Np & Nad & Npd & Npa) K].
  assert (Ep : h_objects h !! pointer = Some (Pointer a)) by (by rewrite O, lookup_insert_eq).
  assert (Ea : h_objects h !! a = Some (Package (MkPackage 0 (Z.of_nat (length bytes)) d))) by (by rewrite O, lookup_insert_ne, lookup_insert_eq).
  assert (Ed : h_objects h !! d = Some (Block bytes)) by (by rewrite O, !lookup_insert_ne, lookup_insert_eq by done).
  unfold publish, mc_bindrefer, mc_closelocal, mc_dec, mc_drop, load_pointer, load_package, skynet_free. destruct n as [|n].
  - rewrite Ep, Ea. cbn. rewrite lookup_insert_ne, Ep by done. cbn. rewrite lookup_delete_ne, lookup_insert_eq by done. cbn. rewrite lookup_insert_eq. cbn.
    rewrite lookup_insert_ne, lookup_delete_ne, lookup_insert_ne, Ed by done. cbn. rewrite lookup_delete_ne, lookup_insert_eq by done. cbn. eexists. split; [done|]. split; [done|]. split; [|by intros x ?%elem_of_nil].
    split; cbn; try done.
    + apply NoDup_cons. split; [by intros ?%list_elem_of_singleton|apply NoDup_singleton].
    + unfold shared_ok, owing, dropping. simpl. rewrite lookup_delete_eq, lookup_delete_ne, lookup_delete_eq by done. done.
    + intros x Hx. apply not_elem_of_cons in Hx as [Xa Hx]. apply not_elem_of_cons in Hx as [Xd _]. rewrite !lookup_delete_ne, lookup_insert_ne by done.
      destruct (decide (x = pointer)) as [->|Xp]; [by rewrite lookup_delete_eq|]. by rewrite lookup_delete_ne, lookup_insert_ne, O, !lookup_insert_ne by done.
  - rewrite Ep, Ea. cbn [reference Z.eqb negb]. unfold store_reference. cbn [h_objects size data h_next]. rewrite lookup_insert_ne, Ep by done. cbn [h_objects h_next].
    set (h1 := MkHeap _ _). destruct (redirect_ok (S n) a h1) as (E & F & L). set (w := redirect (S n) a h1) in *. cbn [h_objects h_next h1] in L. exists w. split; [done|].
    assert (El : length (w_subs w) = S n) by (rewrite <- (length_fmap fst), E, length_seqZ; lia). split; [done|].
    pose proof (K _ _ Ep). pose proof (K _ _ Ea). pose proof (K _ _ Ed). cbn [h_next h1] in E. rewrite i32_small in L by lia.
    split; [|intros x Hx; rewrite E, elem_of_seqZ in Hx; apply (packed_fresh _ _ _ _ _ _ _ PK); apply Hx].
    assert (Eo : owing (w_subs w) = Z.of_nat (S n)) by (unfold owing; rewrite sum_ones, El; [done|]; eapply Forall_impl; [exact F|]; by intros x ->).
    assert (Ez : dropping (w_subs w) = 0) by (unfold dropping; rewrite sum_zero; [done|]; eapply Forall_impl; [exact F|]; by intros x ->).
    split; rewrite ?Eo, ?Ez, ?El; try lia.
    + eapply Forall_impl; [exact F|]. by intros x ->.
    + unfold names. rewrite E. apply NoDup_cons. split; [|apply NoDup_cons; split; [|apply NoDup_seqZ]]; rewrite ?elem_of_cons, elem_of_seqZ; intros ?; [|lia]. destruct H2; [done|lia].
    + unfold shared_ok. rewrite decide_True, !L by lia. rewrite !decide_False by lia. rewrite lookup_delete_ne, lookup_insert_eq, lookup_delete_ne, lookup_insert_ne, Ed by done. done.
    + intros i m s Ei. pose proof (Forall_lookup_1 _ _ _ _ F Ei) as Es. simpl in Es. subst s. assert (M : m ∈ (w_subs w).*1) by (apply list_elem_of_fmap; exists (m, SUnpack); split; [done|by eapply list_elem_of_lookup_2]).
      rewrite E, elem_of_seqZ in M. cbn [is_done]. by rewrite L, decide_True.
    + intros x Hx. unfold names in Hx. rewrite E, !not_elem_of_cons, elem_of_seqZ in Hx. destruct Hx as (Xa & Xd & Hx). rewrite L, decide_False by done.
      destruct (decide (x = pointer)) as [->|Xp]; [by rewrite lookup_delete_eq|]. by rewrite lookup_delete_ne, lookup_insert_ne, O, !lookup_insert_ne by done.
Qed.

(** [mc_packlocal] takes over the block. *)
Lemma mc_packlocal_ok h d bytes : heap_ok h -> h_objects h !! d = Some (Block bytes) -> Z.of_nat (length bytes) < 2 ^ 32 ->
  exists pointer a h1, mc_packlocal d (Z.of_nat (length bytes)) h = Ok (pointer, h1) /\ packed h1 pointer a d bytes (h_objects h).
Proof.
  intros K Ed Hb. unfold mc_packlocal. rewrite u64_small, u32_small by (change (2 ^ 64) with 18446744073709551616; change (2 ^ 32) with 4294967296 in *; lia).
  rewrite Z.eqb_refl. cbn [negb]. unfold pack. cbn [skynet_malloc]. rewrite u32_small by lia. eexists _, (h_next h), _. split; [done|]. pose proof (K _ _ Ed).
  assert (F : forall x, h_next h <= x -> h_objects h !! x = None) by (intros x Hx; destruct (h_objects h !! x) eqn:E; [apply K in E; lia|done]).
  split; cbn [h_objects h_next].
  - by rewrite (insert_id (h_objects h) d).
  - repeat split; try apply F; lia.
  - intros x o Hx. cbn [h_next h_objects] in *. destruct (decide (x = h_next h + 1)) as [->|N1]; [lia|]. rewrite lookup_insert_ne in Hx by done.
    destruct (decide (x = h_next h)) as [->|N2]; [lia|]. rewrite lookup_insert_ne in Hx by done. apply K in Hx. lia.
Qed.

(** What is left when every subscriber has made its steps. *)
Lemma delivered a d bytes rest w : delivery a d bytes rest w -> (rest !! a = None) -> Forall (fun x => is_done x.2 = true) (w_subs w) -> (forall x, x ∈ (w_subs w).*1 -> rest !! x = None) ->
  h_objects (w_heap w) = delete d rest.
Proof.
  intros D Na F Nm.
  assert (En : owing (w_subs w) = 0) by (unfold owing; apply sum_zero; eapply Forall_impl; [exact F|]; by intros [? []]).
  assert (Ek : dropping (w_subs w) = 0) by (unfold dropping; apply sum_zero; eapply Forall_impl; [exact F|]; by intros [? []]).
  pose proof (dv_shared _ _ _ _ _ D) as S. unfold shared_ok in S. rewrite En, Ek, decide_False in S by lia. destruct S as [Sa Sd].
  apply map_eq. intros x. destruct (decide (x = d)) as [->|Xd]; [by rewrite lookup_delete_eq|]. rewrite lookup_delete_ne by done. destruct (decide (x = a)) as [->|Xa]; [by rewrite Sa|].
  destruct (decide (x ∈ (w_subs w).*1)) as [M|M].
  - rewrite Nm by done. apply list_elem_of_fmap in M as ([m s] & -> & M). apply list_elem_of_lookup in M as [i E]. simpl. rewrite (dv_messages _ _ _ _ _ D _ _ _ E).
    pose proof (Forall_lookup_1 _ _ _ _ F E) as K. simpl in K. by rewrite K.
  - apply (dv_rest _ _ _ _ _ D). unfold names. by rewrite !not_elem_of_cons.
Qed.

(** C17: A multicast message reaches every subscriber and is freed once. However the steps of the subscribers interleave, none reads freed memory or sees a wrong count; each has read the
    bytes published, not a copy of them; and when all have made their five steps the package, its data and the messages are freed, and the rest of memory is as before. *)
Theorem multicast_delivers h d bytes n : heap_ok h -> h_objects h !! d = Some (Block bytes) -> Z.of_nat (length bytes) < 2 ^ 32 -> Z.of_nat n < 2 ^ 31 ->
  exists pointer h1 w, mc_packlocal d (Z.of_nat (length bytes)) h = Ok (pointer, h1) /\ publish pointer n h1 = Ok w /\ length (w_subs w) = n /\
    forall sched, exists w', steps w sched = Ok w' /\ Forall (fun x => forall g, got x.2 = Some g -> g = bytes) (w_subs w') /\
      ((forall i, (i < n)%nat -> (5 <= count_occ Nat.eq_dec sched i)%nat) -> Forall (fun x => x.2 = SDone bytes) (w_subs w') /\ h_objects (w_heap w') = delete d (h_objects h)).
Proof.
  intros K Ed Hb Hn. destruct (mc_packlocal_ok h d bytes K Ed Hb) as (pointer & a & h1 & E1 & P). destruct (publish_ok _ _ _ _ _ _ n P Hn) as (w & E2 & L & D & F).
  exists pointer, h1, w. split; [done|]. split; [done|]. split; [done|]. intros sched. destruct (steps_ok _ _ _ _ w sched Hb D) as (w' & E3 & D' & L' & R). exists w'. split; [done|]. split.
  { eapply Forall_impl; [apply D'|]. intros [m []]; simpl; try done; intros H g [= <-]; apply H || (by destruct H as (_ & -> & _)). }
  intros Hs. assert (Dn : Forall (fun x => is_done x.2 = true) (w_subs w')).
  { apply Forall_lookup. intros i [m s] E. pose proof (lookup_lt_Some _ _ _ E) as Hi. rewrite L', L in Hi. destruct (lookup_lt_is_Some_2 (w_subs w) i ltac:(lia)) as [[m0 s0] E0].
    destruct (R _ _ _ E0) as (s' & E' & K'). rewrite E in E'. injection E' as -> ->. specialize (Hs i Hi). assert (rank s' = 5%nat) by lia. by destruct s'. }
  split.
  - apply Forall_lookup. intros i [m s] E. pose proof (Forall_lookup_1 _ _ _ _ (dv_points _ _ _ _ _ D') E) as Q. pose proof (Forall_lookup_1 _ _ _ _ Dn E) as N. destruct s; simpl in *; try done. by subst.
  - apply (delivered a d bytes _ w' D'); [apply P|done|]. intros x Hx. apply F. apply list_elem_of_fmap in Hx as ([m s] & -> & Hx). apply list_elem_of_lookup in Hx as [i E].
    pose proof (lookup_lt_Some _ _ _ E) as Hi. rewrite L' in Hi. destruct (lookup_lt_is_Some_2 (w_subs w) i Hi) as [[m0 s0] E0]. destruct (R _ _ _ E0) as (s' & E' & _). rewrite E in E'. injection E' as -> _.
    apply list_elem_of_fmap. exists (m0, s0). split; [done|by eapply list_elem_of_lookup_2].
Qed.

(** Two subscribers. *)
Lemma multicast_delivers_witness : let h := MkHeap 1 {[0 := Block [104; 105]]} in
  (heap_ok h /\ h_objects h !! 0 = Some (Block [104; 105])) /\
  exists pointer h1 w, mc_packlocal 0 2 h = Ok (pointer, h1) /\ publish pointer 2 h1 = Ok w /\ length (w_subs w) = 2%nat /\
    forall sched, exists w', steps w sched = Ok w' /\ Forall (fun x => forall g, got x.2 = Some g -> g = [104; 105]) (w_subs w') /\
      ((forall i, (i < 2)%nat -> (5 <= count_occ Nat.eq_dec sched i)%nat) -> Forall (fun x => x.2 = SDone [104; 105]) (w_subs w') /\ h_objects (w_heap w') = delete 0 (h_objects h)).
Proof.
  intros h. assert (K : heap_ok h) by (intros x o E; unfold h in E; cbn [h_objects] in E; apply lookup_singleton_Some in E as [<- _]; simpl; lia).
  split; [split; [exact K|done]|]. exact (multicast_delivers h 0 [104; 105] 2 K eq_refl ltac:(done) ltac:(done)).
Defined.

(** ** Other operations *)

(** For another node: the block is the caller's again, but the pointer stays allocated. *)
Lemma mc_remote_leaks h pointer a d bytes rest : packed h pointer a d bytes rest ->
  exists h', mc_remote pointer h = Ok (d, Z.of_nat (length bytes), h') /\ h_objects h' !! pointer = Some (Pointer a) /\ h_objects h' !! a = None /\ h_objects h' !! d = Some (Block bytes).
Proof.
  intros [O (Na & Np & Nad & Npd & Npa) K]. unfold mc_remote, load_pointer, load_package, skynet_free. rewrite O, lookup_insert_eq, !(lookup_insert_ne _ _ a), lookup_insert_eq by done. cbn.
  eexists. split; [done|]. cbn. split; [by rewrite lookup_delete_ne, lookup_insert_eq by done|]. split; [by rewrite lookup_delete_eq|]. by rewrite lookup_delete_ne, !lookup_insert_ne, lookup_insert_eq by done.
Qed.

(** A package is bound once. *)
Lemma mc_bindrefer_twice h pointer a p ref : h_objects h !! pointer = Some (Pointer a) -> h_objects h !! a = Some (Package p) -> reference p <> 0 ->
  mc_bindrefer pointer ref h = Raise (Text "Can't bind a multicast package more than once").
Proof. intros Ep Ea N. unfold mc_bindrefer, load_pointer, load_package. rewrite Ep, Ea. by destruct (Z.eqb_spec (reference p) 0). Qed.

(** The next channel of a node: its low eight bits are the node's. *)
Lemma mc_nextid_node id : 0 <= id < 2 ^ 32 -> mc_nextid id mod 256 = id mod 256 /\ mc_nextid id <> id.
Proof.
  intros H. unfold mc_nextid. rewrite (u32_small id) by done. unfold u32. change (2 ^ 32) with 4294967296 in *. split.
  - change 4294967296 with (256 * 16777216). rewrite Z.rem_mul_r by lia. rewrite Z.mul_comm, Z_mod_plus_full, Zmod_mod. replace (id + 256) with (id + 1 * 256) by lia. apply Z_mod_plus_full.
  - Z.div_mod_to_equations. lia.
Qed.
