(* ===== verification/Bson.v ===== *)
(** * BSON documents ([lualib-src/lua-bson.c])

    Documents of MongoDB: a Lua table is written to a buffer that grows, and read back as a table.  A value of a type Lua does not have is a string that begins with a NUL byte and the type.

    The host is little-endian; [int] has 32 bits, and overflowing it is undefined.  A [luaL_error] is a raised error, whatever memory it leaves behind; undefined behaviour is [Stuck], but
    shifting a byte into the sign of an [int] is what compilers make of it.  The stack of
    Lua and the depth of the C stack are not modelled. *)

From S2P Require Import Prelude CString LuaError.

Definition DEFAULT_CAP : Z := 64.
Definition MAX_DEPTH : Z := 128.
Definition MAXUNICODE : Z := 0x10FFFF.

Definition BSON_REAL : Z := 1.
Definition BSON_STRING : Z := 2.
Definition BSON_DOCUMENT : Z := 3.
Definition BSON_ARRAY : Z := 4.
Definition BSON_BINARY : Z := 5.
Definition BSON_OBJECTID : Z := 7.
Definition BSON_BOOLEAN : Z := 8.
Definition BSON_DATE : Z := 9.
Definition BSON_NULL : Z := 10.
Definition BSON_REGEX : Z := 11.
Definition BSON_DBPOINTER : Z := 12.
Definition BSON_JSCODE : Z := 13.
Definition BSON_SYMBOL : Z := 14.
Definition BSON_CODEWS : Z := 15.
Definition BSON_INT32 : Z := 16.
Definition BSON_TIMESTAMP : Z := 17.
Definition BSON_INT64 : Z := 18.
Definition BSON_MINKEY : Z := 255.
Definition BSON_MAXKEY : Z := 127.

(** ** Lua values *)

(** The key of a pair; a float is what Lua writes for it. *)
Inductive key := KStr (s : list Z) | KInt (n : Z) | KFloat (text : list Z) | KOther.

(** A float is its 64 bits; [Userdata] points to these bytes; an [Array] is a table with [__len] or one that [is_rawarray], a [Dict] any other with the pairs [__pairs] or [lua_next] yields;
    [Other] is a function or a thread. *)
Inductive value :=
  | Real (bits : Z)
  | Integer (n : Z)
  | Boolean (b : bool)
  | Str (s : list Z)
  | Userdata (bytes : list Z)
  | Array (l : list value)
  | Dict (l : list (key * value))
  | Nil
  | Other.

(** ** The buffer *)

Record bson := MkBson { b_size : Z; b_cap : Z; b_ptr : list Z }.

Definition bson_create : bson := MkBson 0 DEFAULT_CAP (malloc DEFAULT_CAP).

(** [do cap *= 2 while (cap <= need)]. *)
Fixpoint reserve_loop (fuel : nat) (cap need : Z) : res Z :=
  match fuel with
  | O => Stuck
  | S fuel => let* cap := int (cap * 2) in if cap <=? need then reserve_loop fuel cap need else Ok cap
  end.

Definition bson_reserve (b : bson) (sz : Z) : res bson :=
  let* need := int (b_size b + sz) in
  if need <=? b_cap b then Ok b else
  let* cap := reserve_loop 32 (b_cap b) need in
  Ok (MkBson (b_size b) cap (take (Z.to_nat (b_size b)) (b_ptr b) ++ malloc (cap - b_size b))).

(** [b->ptr[b->size++] = v], for each byte. *)
Fixpoint store_bytes (b : bson) (l : list Z) : res bson :=
  match l with
  | [] => Ok b
  | v :: l => let* p := lift (aset (b_ptr b) (b_size b) v) in store_bytes (MkBson (b_size b + 1) (b_cap b) p) l
  end.

Definition write_byte (b : bson) (v : Z) : res bson := let* b := bson_reserve b 1 in store_bytes b [u8 v].

Definition word_of (v : Z) : list Z := map (fun i => Z.land (Z.shiftr v i) 0xff) [0; 8; 16; 24].
Definition write_int32 (b : bson) (v : Z) : res bson := let* b := bson_reserve b 4 in store_bytes b (word_of (u32 v)).
Definition write_int64 (b : bson) (v : Z) : res bson := let* b := bson_reserve b 8 in store_bytes b (map (fun i => Z.land (Z.shiftr (u64 v) i) 0xff) [0; 8; 16; 24; 32; 40; 48; 56]).
Definition write_double (b : bson) (bits : Z) : res bson := write_int64 b bits.

Definition write_length (b : bson) (v off : Z) : res bson :=
  let uv := u32 v in
  let* p := lift (aset (b_ptr b) off (Z.land uv 0xff)) in
  let* p := lift (aset p (off + 1) (Z.land (Z.shiftr uv 8) 0xff)) in
  let* p := lift (aset p (off + 2) (Z.land (Z.shiftr uv 16) 0xff)) in
  let* p := lift (aset p (off + 3) (Z.land (Z.shiftr uv 24) 0xff)) in
  Ok (MkBson (b_size b) (b_cap b) p).

Definition reserve_length (b : bson) : res (Z * bson) :=
  let* b' := bson_reserve b 4 in
  let* size := int (b_size b' + 4) in
  Ok (b_size b, MkBson size (b_cap b') (b_ptr b')).

(** [memcpy(b->ptr + b->size, data, length data)] with the room reserved. *)
Definition write_block (b : bson) (data : list Z) : res bson :=
  let* b := bson_reserve b (i32 (Z.of_nat (length data))) in
  let* p := lift (memcpy_at (b_ptr b) (b_size b) data) in
  let* size := int (b_size b + Z.of_nat (length data)) in
  Ok (MkBson size (b_cap b) p).

(** ** Strings *)

(** A [char], which is signed. *)
Definition schar (b : Z) : Z := if b <? 128 then b else b - 256.

(** The loop of [utf8_copy] with [count] bytes accepted; behind the string is its NUL.  The result is [None] when a byte does not continue the character. *)
Fixpoint utf8_more (fuel : nat) (s : list Z) (c res : Z) (count : nat) : option (Z * Z * nat) :=
  if Z.land c 0x40 =? 0 then Some (c, res, count) else
  match fuel with
  | O => None
  | S fuel =>
    let cc := schar (default 0 (s !! S count)) in
    if (length s <=? S count)%nat || negb (Z.land cc 0xC0 =? 0x80) then None
    else utf8_more fuel s (u32 (Z.shiftl c 1)) (Z.lor (u32 (Z.shiftl res 6)) (Z.land cc 0x3F)) (S count)
  end.

Definition utf8_limit (count : nat) : Z := match count with O => 0xFF | 1%nat => 0x7F | 2%nat => 0x7FF | _ => 0xFFFF end.

(** The number of bytes of the first character of [s]; 0 when it is none. *)
Definition utf8_copy (s : list Z) : nat :=
  match s with
  | [] => 0%nat
  | b :: _ =>
    let c := u32 (schar b) in
    if c <? 0x80 then 1%nat else
    match utf8_more 8 s c 0 0 with
    | None => 0%nat
    | Some (c, res, count) =>
      let res := Z.lor res (u32 (Z.shiftl (Z.land c 0x7F) (5 * Z.of_nat count))) in
      if (3 <? count)%nat || (MAXUNICODE <? res) || (res <=? utf8_limit count) then 0%nat else S count
    end
  end.

(** The loop of [write_string]: [p] is the memory, [dst] where the next character goes. *)
Fixpoint string_loop (fuel : nat) (p : list Z) (dst : Z) (src : list Z) : res (list Z) :=
  match src, fuel with
  | [], _ => Ok p
  | _, O => Stuck
  | _, S fuel =>
    let c := utf8_copy src in
    if (c =? 0)%nat then Raise (Text "Invalid utf8 string") else
    let* p := lift (memcpy_at p dst (take c src)) in
    string_loop fuel p (dst + Z.of_nat c) (drop c src)
  end.

Definition write_string (b : bson) (s : list Z) : res bson :=
  let sz := Z.of_nat (length s) in
  let* b := bson_reserve b (i32 (sz + 1)) in
  let* p := string_loop (length s) (b_ptr b) (b_size b) s in
  let* p := lift (aset p (b_size b + sz) 0) in
  let* size := int (b_size b + sz + 1) in
  Ok (MkBson size (b_cap b) p).

(** ** Writing values *)

Definition append_key (b : bson) (type : Z) (k : list Z) : res bson := let* b := write_byte b type in write_string b k.

Definition is_32bit (v : Z) : bool := (- 2 ^ 31 <=? v) && (v <=? INT_MAX).

Definition append_integer (b : bson) (k : list Z) (n : Z) : res bson :=
  if is_32bit n then let* b := append_key b BSON_INT32 k in write_int32 b n else let* b := append_key b BSON_INT64 k in write_int64 b n.

Definition append_real (b : bson) (k : list Z) (bits : Z) : res bson := let* b := append_key b BSON_REAL k in write_double b bits.

(** [buffer] begins with the sub type, which the length does not count. *)
Definition write_binary (b : bson) (buffer : list Z) : res bson :=
  let* (length_, b) := reserve_length b in
  let* b := write_block b buffer in
  write_length b (i32 (Z.of_nat (length buffer) - 1)) length_.

(** The bytes of a number, read as the host has it. *)
Definition load_uint32 (m : list Z) (p : Z) : option Z :=
  let! b0 := aget m p in
  let! b1 := aget m (p + 1) in
  let! b2 := aget m (p + 2) in
  let! b3 := aget m (p + 3) in
  Some (Z.lor (Z.lor (Z.lor b0 (Z.shiftl b1 8)) (Z.shiftl b2 16)) (Z.shiftl b3 24)).

(** The text before the last NUL of [s], and behind it. *)
Fixpoint split_nul (s : list Z) : option (list Z * list Z) :=
  match s with
  | [] => None
  | b :: s => match split_nul s with Some (x, y) => Some (b :: x, y) | None => if b =? 0 then Some ([], s) else None end
  end.

(** A value of a type of BSON: [subt] and what follows it in the string. *)
Definition append_special (b : bson) (k : list Z) (subt : Z) (body : list Z) : res bson :=
  let* b := append_key b subt k in
  let len := Z.of_nat (length body) in
  if subt =? BSON_BINARY then write_binary b body else
  if subt =? BSON_OBJECTID then if negb (len =? 12) then Raise (Text "Invalid object id") else write_block b body else
  if (subt =? BSON_JSCODE) || (subt =? BSON_DBPOINTER) || (subt =? BSON_SYMBOL) || (subt =? BSON_CODEWS) then write_block b body else
  if subt =? BSON_DATE then
    if negb (len =? 4) then Raise (Text "Invalid date") else
    let* ts := lift (load_uint32 body 0) in write_int64 b (ts * 1000)
  else if subt =? BSON_TIMESTAMP then
    if negb (len =? 8) then Raise (Text "Invalid timestamp") else
    let* inc := lift (load_uint32 body 0) in
    let* ts := lift (load_uint32 body 4) in
    let* b := write_int32 b inc in write_int32 b ts
  else if subt =? BSON_REGEX then
    (* without the last byte; when no NUL is in front of it, a length wraps around *)
    match split_nul (take (length body - 1) body) with
    | None => Stuck
    | Some (regex, options) => let* b := write_string b regex in write_string b options
    end
  else if (subt =? BSON_MINKEY) || (subt =? BSON_MAXKEY) || (subt =? BSON_NULL) then Ok b
  else Raise (Text "Invalid subtype").

Definition append_string (b : bson) (k : list Z) (s : list Z) : res bson :=
  match s with
  | 0 :: subt :: body => append_special b k subt body
  | _ =>
    let* b := append_key b BSON_STRING k in
    let* (off, b) := reserve_length b in
    let* b := write_string b s in
    write_length b (i32 (Z.of_nat (length s) + 1)) off
  end.

(** A document that another [lencode] has made: its first four bytes are its size. *)
Definition append_userdata (b : bson) (k : list Z) (doc : list Z) : res bson :=
  let* b := append_key b BSON_DOCUMENT k in
  let* sz := lift (load_uint32 doc 0) in
  let* bytes := lift (memcpy doc 0 (i32 sz)) in
  write_block b bytes.

(** [bson_numstr]: the same text from a table or from [sprintf]. *)
Definition bson_numstr (i : Z) : list Z := decimal (u32 i).

(** What [lua_tolstring] gives for a key. *)
Definition key_text (k : key) : option (list Z) :=
  match k with KStr s => Some s | KInt n => Some (decimal n) | KFloat t => Some t | KOther => None end.

Section pack.
Context (append_one : value -> list Z -> bson -> res bson).

(** The loop of [pack_array] and that of [pack_simple_dict] and [pack_meta_dict]. *)
Fixpoint pack_array_data (i : Z) (l : list value) (b : bson) : res bson :=
  match l with
  | [] => Ok b
  | v :: l => let* b := append_one v (bson_numstr i) b in pack_array_data (i + 1) l b
  end.

Fixpoint pack_dict_data (l : list (key * value)) (b : bson) : res bson :=
  match l with
  | [] => Ok b
  | (k, v) :: l =>
    match key_text k with
    | None => Raise (Text "Invalid key type")
    | Some k => let* b := append_one v k b in pack_dict_data l b
    end
  end.
End pack.

(** What is around the loop: the length in front and a zero behind. *)
Definition pack_document (data : bson -> res bson) (b : bson) : res bson :=
  let* (length_, b) := reserve_length b in
  let* b := data b in
  let* b := write_byte b 0 in
  write_length b (b_size b - length_) length_.

Fixpoint append_one (depth : Z) (v : value) (k : list Z) (b : bson) : res bson :=
  match v with
  | Integer n => append_integer b k n
  | Real bits => append_real b k bits
  | Userdata doc => append_userdata b k doc
  | Str s => append_string b k s
  | Boolean x => let* b := append_key b BSON_BOOLEAN k in write_byte b (if x then 1 else 0)
  | Array l =>
    if MAX_DEPTH <? depth + 1 then Raise (Text "Too depth while encoding bson") else
    let* b := append_key b BSON_ARRAY k in
    pack_document (pack_array_data (append_one (depth + 1)) 0 l) b
  | Dict l =>
    if MAX_DEPTH <? depth + 1 then Raise (Text "Too depth while encoding bson") else
    let* b := append_key b BSON_DOCUMENT k in
    pack_document (pack_dict_data (append_one (depth + 1)) l) b
  | Nil | Other => Raise (Text "Invalid value type")
  end.

(** The document of the pairs of a table; also [lencode_order], with the pairs in its arguments. *)
Definition lencode (l : list (key * value)) : res (list Z) :=
  let* b := pack_document (pack_dict_data (append_one 0) l) bson_create in
  lift (memcpy (b_ptr b) 0 (b_size b)).

(** ** Reading *)

(** [r_ptr] is an offset into the memory [mem] that the document is in. *)
Record bson_reader := MkReader { r_ptr : Z; r_size : Z }.

Definition check_reader (br : bson_reader) (sz : Z) : res unit := if r_size br <? sz then Raise (Text "Invalid bson block") else Ok tt.

(** A string of [n] bytes for Lua; a negative [n] is too big as a [size_t]. *)
Definition to_string (mem : list Z) (ptr n : Z) : res (list Z) := if n <? 0 then Raise TooBig else lift (memcpy mem ptr n).

Definition make_object (type : Z) (bytes : list Z) : value := Str (0 :: type :: bytes).

Section reader.
Context (mem : list Z).

Definition read_byte (br : bson_reader) : res (Z * bson_reader) :=
  let* _ := check_reader br 1 in
  let* r := lift (aget mem (r_ptr br)) in
  Ok (r, MkReader (r_ptr br + 1) (r_size br - 1)).

Definition read_int32 (br : bson_reader) : res (Z * bson_reader) :=
  let* _ := check_reader br 4 in
  let* v := lift (load_uint32 mem (r_ptr br)) in
  Ok (i32 v, MkReader (r_ptr br + 4) (r_size br - 4)).

(** Eight bytes without a sign: [read_int64] takes them as an [int64_t], [read_double] as a [double]. *)
Definition read_uint64 (br : bson_reader) : res (Z * bson_reader) :=
  let* _ := check_reader br 8 in
  let* lo := lift (load_uint32 mem (r_ptr br)) in
  let* hi := lift (load_uint32 mem (r_ptr br + 4)) in
  Ok (Z.lor lo (Z.shiftl hi 32), MkReader (r_ptr br + 8) (r_size br - 8)).
Definition read_int64 (br : bson_reader) : res (Z * bson_reader) := let* (v, br) := read_uint64 br in Ok (i64 v, br).
Definition read_double (br : bson_reader) : res (Z * bson_reader) := read_uint64 br.

(** Where the bytes begin; a negative [sz] passes the check and goes back. *)
Definition read_bytes (br : bson_reader) (sz : Z) : res (Z * bson_reader) :=
  let* _ := check_reader br sz in
  let* size := int (r_size br - sz) in
  Ok (r_ptr br, MkReader (r_ptr br + sz) size).

Fixpoint cstring_loop (fuel : nat) (p : Z) : res (list Z) :=
  match fuel with
  | O => Raise (Text "Invalid bson block : cstring")
  | S fuel =>
    let* c := lift (aget mem p) in
    if c =? 0 then Ok [] else let* r := cstring_loop fuel (p + 1) in Ok (c :: r)
  end.

Definition read_cstring (br : bson_reader) : res (list Z * bson_reader) :=
  if r_size br <? 0 then Stuck else
  let* s := cstring_loop (Z.to_nat (r_size br)) (r_ptr br) in
  let n := Z.of_nat (length s) + 1 in
  Ok (s, MkReader (r_ptr br + n) (r_size br - n)).

(** The frame of [unpack_dict]: [items] reads what is between the length and the zero. *)
Definition unpack_document (items : bson_reader -> res (list (key * value))) (br : bson_reader) : res (value * bson_reader) :=
  let* (sz, br) := read_int32 br in
  let* n := int (sz - 5) in
  let* (bytes, br) := read_bytes br n in
  let* (e, br) := read_byte br in
  if negb (e =? 0) then Raise (Text "Invalid document end") else
  let* l := items (MkReader bytes n) in
  Ok (Dict l, br).

(** The value of type [bt]. *)
Definition unpack_value (items : bool -> bson_reader -> res (list (key * value))) (bt : Z) (t : bson_reader) : res (value * bson_reader) :=
  if bt =? BSON_REAL then let* (v, t) := read_double t in Ok (Real v, t) else
  if bt =? BSON_BOOLEAN then let* (v, t) := read_byte t in Ok (Boolean (negb (v =? 0)), t) else
  if bt =? BSON_STRING then
    let* (sz, t) := read_int32 t in
    if sz <=? 0 then Raise (Text "Invalid bson string") else
    let* (p, t) := read_bytes t sz in
    let* s := to_string mem p (sz - 1) in Ok (Str s, t)
  else if bt =? BSON_DOCUMENT then unpack_document (items false) t
  else if bt =? BSON_ARRAY then unpack_document (items true) t
  else if bt =? BSON_BINARY then
    let* (sz, t) := read_int32 t in
    let* (subtype, t) := read_byte t in
    let* (p, t) := read_bytes t sz in
    let* s := to_string mem p sz in Ok (make_object BSON_BINARY (subtype :: s), t)
  else if bt =? BSON_OBJECTID then
    let* (p, t) := read_bytes t 12 in
    let* s := to_string mem p 12 in Ok (make_object BSON_OBJECTID s, t)
  else if bt =? BSON_DATE then let* (date, t) := read_int64 t in Ok (make_object BSON_DATE (word_of (u32 (Z.quot date 1000))), t)
  else if (bt =? BSON_MINKEY) || (bt =? BSON_MAXKEY) || (bt =? BSON_NULL) then Ok (make_object bt [], t)
  else if bt =? BSON_REGEX then
    let* (r1, t) := read_cstring t in
    let* (r2, t) := read_cstring t in Ok (make_object BSON_REGEX (r1 ++ 0 :: r2 ++ [0]), t)
  else if bt =? BSON_INT32 then let* (v, t) := read_int32 t in Ok (Integer v, t)
  else if bt =? BSON_TIMESTAMP then
    let* (inc, t) := read_int32 t in
    let* (ts, t) := read_int32 t in Ok (make_object BSON_TIMESTAMP (word_of (u32 inc) ++ word_of (u32 ts)), t)
  else if bt =? BSON_INT64 then let* (v, t) := read_int64 t in Ok (Integer v, t)
  else if bt =? BSON_DBPOINTER then
    let* (sz, t') := read_int32 t in
    let* n := int (sz + 12) in
    let* (_, t') := read_bytes t' n in
    let* n := int (sz + 16) in
    let* s := to_string mem (r_ptr t) n in Ok (make_object bt s, t')
  else if (bt =? BSON_JSCODE) || (bt =? BSON_SYMBOL) then
    let* (sz, t') := read_int32 t in
    let* (_, t') := read_bytes t' sz in
    let* n := int (sz + 4) in
    let* s := to_string mem (r_ptr t) n in Ok (make_object bt s, t')
  else if bt =? BSON_CODEWS then
    let* (sz, t') := read_int32 t in
    let* n := int (sz - 4) in
    let* (_, t') := read_bytes t' n in
    let* s := to_string mem (r_ptr t) sz in Ok (make_object bt s, t')
  else Raise (Text "Invalid bson type").

(** [strtol(key, NULL, 10) + 1]. *)
Definition array_index (k : list Z) : res Z :=
  let id := strtol10 k in
  if id =? LONG_MAX then Stuck else Ok (i32 (id + 1)).

(** The pairs in the order they are set; the loop of [unpack_dict]. *)
Fixpoint unpack_items (fuel : nat) (array : bool) (t : bson_reader) : res (list (key * value)) :=
  match fuel with
  | O => Stuck
  | S fuel =>
    if r_size t =? 0 then Ok [] else
    let* (bt, t) := read_byte t in
    let* (k, t) := read_cstring t in
    let* k := if array then let* id := array_index k in Ok (KInt id) else Ok (KStr k) in
    let* (v, t) := unpack_value (unpack_items fuel) bt t in
    let* l := unpack_items fuel array t in
    Ok ((k, v) :: l)
  end.

(** The block at the start of [mem], whose size is in its first bytes. *)
Definition ldecode : res value :=
  let* len := lift (load_uint32 mem 0) in
  let len := i32 len in
  let* (v, _) := unpack_document (unpack_items (Z.to_nat len) false) (MkReader 0 len) in Ok v.

(** ** Replacing fields *)

(** The part of the loop of [lmakeindex] that depends on the type: the size of a field that can be replaced, of which nothing is read yet, and 0 for the others. *)
Definition index_field (bt : Z) (br : bson_reader) : res (Z * bson_reader) :=
  if (bt =? BSON_INT64) || (bt =? BSON_TIMESTAMP) || (bt =? BSON_DATE) || (bt =? BSON_REAL) then Ok (8, br) else
  if bt =? BSON_BOOLEAN then Ok (1, br) else
  if (bt =? BSON_JSCODE) || (bt =? BSON_SYMBOL) || (bt =? BSON_STRING) then
    let* (sz, br) := read_int32 br in let* (_, br) := read_bytes br sz in Ok (0, br)
  else if (bt =? BSON_CODEWS) || (bt =? BSON_ARRAY) || (bt =? BSON_DOCUMENT) then
    let* (sz, br) := read_int32 br in let* n := int (sz - 4) in let* (_, br) := read_bytes br n in Ok (0, br)
  else if bt =? BSON_BINARY then
    let* (sz, br) := read_int32 br in let* n := int (sz + 1) in let* (_, br) := read_bytes br n in Ok (0, br)
  else if bt =? BSON_OBJECTID then Ok (12, br)
  else if (bt =? BSON_MINKEY) || (bt =? BSON_MAXKEY) || (bt =? BSON_NULL) then Ok (0, br)
  else if bt =? BSON_REGEX then
    let* (_, br) := read_cstring br in let* (_, br) := read_cstring br in Ok (0, br)
  else if bt =? BSON_INT32 then Ok (4, br)
  else if bt =? BSON_DBPOINTER then
    let* (sz, br) := read_int32 br in let* n := int (sz + 12) in let* (_, br) := read_bytes br n in Ok (0, br)
  else Raise (Text "Invalid bson type").

Definition BSON_TYPE_SHIFT : Z := 5.

(** The keys of the fields with their type and offset in one [int]. *)
Fixpoint index_loop (fuel : nat) (br : bson_reader) : res (list (list Z * Z)) :=
  match fuel with
  | O => Stuck
  | S fuel =>
    if r_size br =? 0 then Ok [] else
    let* (bt, br) := read_byte br in
    let* (k, br) := read_cstring br in
    let* (field_size, br) := index_field bt br in
    if 0 <? field_size then
      let* offset := int (Z.shiftl (r_ptr br) BSON_TYPE_SHIFT) in
      let* (_, br) := read_bytes br field_size in
      let* l := index_loop fuel br in
      Ok ((k, Z.lor bt offset) :: l)
    else index_loop fuel br
  end.

Definition lmakeindex : res (list (list Z * Z)) :=
  let* len := lift (load_uint32 mem 0) in
  let* size := int (i32 len - 5) in
  index_loop (Z.to_nat (i32 len)) (MkReader 4 size).
End reader.

(** What the table has for a key that may have been set more than once. *)
Fixpoint table_get (l : list (list Z * Z)) (k : list Z) : option Z :=
  match l with
  | [] => None
  | (k', id) :: l => match table_get l k with Some id => Some id | None => if bool_decide (k' = k) then Some id else None end
  end.

Definition lua_toboolean (v : value) : bool := match v with Boolean b => b | Nil => false | _ => true end.

(** [bs] writes over the field. *)
Definition replace_object (type : Z) (v : value) (bs : bson) : res bson :=
  match v with
  | Str (z :: t :: body) =>
    if (Z.of_nat (length body) <? 4) || negb (z =? 0) || negb (schar t =? type) then Raise (Text "Type mismatch") else
    if type =? BSON_OBJECTID then
      if negb (Z.of_nat (length body) =? 12) then Raise (Text "Invalid object id") else
      let* p := lift (memcpy_at (b_ptr bs) 0 body) in Ok (MkBson (b_size bs) (b_cap bs) p)
    else if type =? BSON_DATE then
      if negb (Z.of_nat (length body) =? 4) then Raise (Text "Invalid date") else
      let* ts := lift (load_uint32 body 0) in write_int64 bs (ts * 1000)
    else if type =? BSON_TIMESTAMP then
      if negb (Z.of_nat (length body) =? 8) then Raise (Text "Invalid timestamp") else
      let* inc := lift (load_uint32 body 0) in
      let* ts := lift (load_uint32 body 4) in
      let* bs := write_int32 bs inc in write_int32 bs ts
    else Ok bs
  | _ => Raise (Text "Type mismatch")
  end.

(** The switch of [lreplace]; [checknumber] is [luaL_checknumber], the 64 bits of a number. *)
Definition write_field (checknumber : value -> option Z) (type : Z) (v : value) (b : bson) : res bson :=
  if type =? BSON_REAL then match checknumber v with Some bits => write_double b bits | None => Raise (Text "number expected") end else
  if type =? BSON_BOOLEAN then write_byte b (if lua_toboolean v then 1 else 0) else
  if (type =? BSON_OBJECTID) || (type =? BSON_DATE) || (type =? BSON_TIMESTAMP) then replace_object type v b else
  if type =? BSON_INT32 then match v with Integer n => write_int32 b (i32 n) | _ => Raise (Text "must be a 32bit integer") end else
  if type =? BSON_INT64 then match v with Integer n => write_int64 b n | _ => Raise (Text "must be a 64bit integer") end else
  Raise (Text "Can't replace type").

(** The block after the field of key [k] has been set to [v]; the 16 bytes of [b] are what the code takes for its capacity. *)
Definition lreplace (checknumber : value -> option Z) (mem : list Z) (index : list (list Z * Z)) (k : list Z) (v : value) : res (list Z) :=
  match table_get index k with
  | None => Raise (Text "Can't replace key")
  | Some id =>
    let type := Z.land id (2 ^ BSON_TYPE_SHIFT - 1) in
    let offset := Z.shiftr id BSON_TYPE_SHIFT in
    if (offset <? 0) || (Z.of_nat (length mem) <? offset) then Stuck else
    let* b := write_field checknumber type v (MkBson 0 16 (drop (Z.to_nat offset) mem)) in
    Ok (take (Z.to_nat offset) mem ++ b_ptr b)
  end.
