(* ===== verification/BsonSpec.v ===== *)
(** * A document is read back

    What [lencode] writes are the bytes of the reference [document], and [ldecode] gives their table back, with the keys and arrays as a document has them. *)

From S2P Require Import Prelude CString Buffer LuaError Bson.

(** ** The reference *)

Definition word_bytes32 (v : Z) : list Z := word_of (u32 v).
Definition word_bytes64 (v : Z) : list Z := map (fun i => Z.land (Z.shiftr (u64 v) i) 0xff) [0; 8; 16; 24; 32; 40; 48; 56].

(** A string behind its length, which counts its zero. *)
Definition sized_text (s : list Z) : list Z := word_bytes32 (Z.of_nat (length s) + 1) ++ s ++ [0].

Definition framed (body : list Z) : list Z := word_bytes32 (Z.of_nat (length body) + 5) ++ body ++ [0].

(** Key, type and bytes of each value. *)
Definition elements (l : list (list Z * (Z * list Z))) : list Z := concat (map (fun e => e.2.1 :: e.1 ++ 0 :: e.2.2) l).

Fixpoint indexed {A} (i : Z) (l : list A) : list (list Z * A) := match l with [] => [] | x :: l => (bson_numstr i, x) :: indexed (i + 1) l end.

(** A string of a type of BSON. *)
Definition special_bytes (subt : Z) (body : list Z) : list Z :=
  if subt =? BSON_BINARY then word_bytes32 (Z.of_nat (length body) - 1) ++ body else
  if subt =? BSON_DATE then word_bytes64 (1000 * default 0 (load_uint32 body 0)) else
  body.

Definition value_type (v : value) : Z :=
  match v with
  | Real _ => BSON_REAL
  | Integer n => if is_32bit n then BSON_INT32 else BSON_INT64
  | Boolean _ => BSON_BOOLEAN
  | Str (0 :: subt :: _) => subt
  | Str _ => BSON_STRING
  | Array _ => BSON_ARRAY
  | _ => BSON_DOCUMENT
  end.

Fixpoint value_bytes (v : value) : list Z :=
  match v with
  | Real bits => word_bytes64 bits
  | Integer n => if is_32bit n then word_bytes32 n else word_bytes64 n
  | Boolean b => [if b then 1 else 0]
  | Str (0 :: subt :: body) => special_bytes subt body
  | Str s => sized_text s
  | Array l => framed (elements (indexed 0 (map (fun v => (value_type v, value_bytes v)) l)))
  | Dict l => framed (elements (map (fun kv => (default [] (key_text kv.1), (value_type kv.2, value_bytes kv.2))) l))
  | _ => []
  end.

Definition document (l : list (key * value)) : list Z := value_bytes (Dict l).

(** ** What can be written *)

Fixpoint utf8_loop (fuel : nat) (s : list Z) : bool :=
  match s, fuel with
  | [], _ => true
  | _, O => false
  | _, S fuel => negb (utf8_copy s =? 0)%nat && utf8_loop fuel (drop (utf8_copy s) s)
  end.
Definition utf8 (s : list Z) : bool := utf8_loop (length s) s.

Definition no_nul (s : list Z) : bool := forallb (fun b => negb (b =? 0)) s.
Definition bytes_ok (s : list Z) : bool := forallb (fun b => (0 <=? b) && (b <? 256)) s.

(** A key is text without NUL; the document does not say how long it is. *)
Definition text_ok (s : list Z) : bool := utf8 s && no_nul s.
Definition key_ok (k : key) : bool := match key_text k with Some s => text_ok s | None => false end.

(** [lead] is the length in front, [extra] what it does not count. *)
Definition counted (extra : Z) (body : list Z) : bool :=
  (4 <=? Z.of_nat (length body)) && (match load_uint32 body 0 with Some n => (n + extra =? Z.of_nat (length body)) && (n <? 2 ^ 31) | None => false end).

Definition special_ok (subt : Z) (body : list Z) : bool :=
  bytes_ok body &&
  (if subt =? BSON_BINARY then (1 <=? Z.of_nat (length body)) else
   if subt =? BSON_OBJECTID then Z.of_nat (length body) =? 12 else
   if (subt =? BSON_JSCODE) || (subt =? BSON_SYMBOL) then counted 4 body else
   if subt =? BSON_DBPOINTER then counted 16 body else
   if subt =? BSON_CODEWS then counted 0 body else
   if subt =? BSON_DATE then Z.of_nat (length body) =? 4 else
   if subt =? BSON_TIMESTAMP then Z.of_nat (length body) =? 8 else
   if subt =? BSON_REGEX then
     match split_nul (take (length body - 1) body) with
     | Some (r1, r2) => text_ok r1 && utf8 r2 && bool_decide (body = r1 ++ 0 :: r2 ++ [0])
     | None => false
     end
   else ((subt =? BSON_MINKEY) || (subt =? BSON_MAXKEY) || (subt =? BSON_NULL)) && (length body =? 0)%nat).

Fixpoint value_ok (depth : Z) (v : value) : bool :=
  match v with
  | Real bits => (0 <=? bits) && (bits <? 2 ^ 64)
  | Integer n => (- 2 ^ 63 <=? n) && (n <? 2 ^ 63)
  | Boolean _ => true
  | Str (0 :: subt :: body) => special_ok subt body
  | Str s => utf8 s
  | Array l => (depth <? MAX_DEPTH) && forallb (value_ok (depth + 1)) l
  | Dict l => (depth <? MAX_DEPTH) && forallb (fun kv => key_ok kv.1 && value_ok (depth + 1) kv.2) l
  | _ => false
  end.

Definition pairs_ok (l : list (key * value)) : bool := forallb (fun kv => key_ok kv.1 && value_ok 0 kv.2) l.

(** ** What is read *)

Fixpoint numbered (i : Z) (l : list value) : list (key * value) := match l with [] => [] | v :: l => (KInt i, v) :: numbered (i + 1) l end.

(** Arrays are tables with integer keys from 1, keys are strings. *)
Fixpoint image (v : value) : value :=
  match v with
  | Array l => Dict (numbered 1 (map image l))
  | Dict l => Dict (map (fun kv => (KStr (default [] (key_text kv.1)), image kv.2)) l)
  | v => v
  end.
Definition image_pairs (l : list (key * value)) : list (key * value) := map (fun kv => (KStr (default [] (key_text kv.1)), image kv.2)) l.

(** Values by induction, with all that is in a table. *)
Lemma value_nested (P : value -> Prop) :
  (forall bits, P (Real bits)) -> (forall n, P (Integer n)) -> (forall b, P (Boolean b)) -> (forall s, P (Str s)) -> (forall d, P (Userdata d)) ->
  (forall l, Forall P l -> P (Array l)) -> (forall l, Forall (fun kv => P kv.2) l -> P (Dict l)) -> P Nil -> P Other -> forall v, P v.
Proof.
  intros H1 H2 H3 H4 H5 HA HD H6 H7. fix IH 1. intros [bits|n|b|s|d|l|l| |]; [apply H1|apply H2|apply H3|apply H4|apply H5| | |apply H6|apply H7].
  - apply HA. induction l as [|v l IHl]; constructor; [apply IH|exact IHl].
  - apply HD. induction l as [|[k v] l IHl]; constructor; [apply IH|exact IHl].
Qed.

(** ** Writing *)

Definition content (b : bson) : list Z := take (Z.to_nat (b_size b)) (b_ptr b).

Record buf_ok (b : bson) : Prop := {
  bo_ptr : Z.of_nat (length (b_ptr b)) = b_cap b;
  bo_size : 0 <= b_size b <= b_cap b;
  bo_cap : 1 <= b_cap b;
}.

Lemma bson_content_length b : buf_ok b -> Z.of_nat (length (content b)) = b_size b.
Proof. intros [P S _]. unfold content. rewrite length_take. lia. Qed.

(** Documents below 1 GB: the capacity stays an [int]. *)
Definition LIMIT : Z := 2 ^ 30.
Lemma LIMIT_eq : LIMIT = 1073741824. Proof. reflexivity. Qed.

(** [f] writes [s]. *)
Definition adds (f : bson -> res bson) (s : list Z) : Prop :=
  forall b, buf_ok b -> b_size b + Z.of_nat (length s) < LIMIT -> exists b', f b = Ok b' /\ buf_ok b' /\ content b' = content b ++ s.

Lemma adds_then f g s t : adds f s -> adds g t -> adds (fun b => let* b := f b in g b) (s ++ t).
Proof.
  intros F G b B L. rewrite length_app in L. destruct (F b B ltac:(lia)) as (b1 & -> & B1 & C1).
  assert (S1 : b_size b1 = b_size b + Z.of_nat (length s)) by (rewrite <- (bson_content_length b1), C1, length_app, <- (bson_content_length b) by done; lia).
  destruct (G b1 B1 ltac:(lia)) as (b2 & -> & B2 & C2). exists b2. split; [done|]. split; [done|]. by rewrite C2, C1, app_assoc.
Qed.

Lemma adds_ext f g s : (forall b, f b = g b) -> adds f s -> adds g s.
Proof. intros E A b B L. rewrite <- E. by apply A. Qed.

Lemma reserve_loop_ok fuel cap need : 1 <= cap -> cap <= need -> need < LIMIT -> need < cap * 2 ^ Z.of_nat fuel -> exists cap', reserve_loop fuel cap need = Ok cap' /\ need < cap' /\ cap < cap'.
Proof.
  intros H1 H2 H3. rewrite LIMIT_eq in H3. revert cap H1 H2. induction fuel as [|fuel IH]; intros cap H1 H2 H; [change (2 ^ Z.of_nat 0) with 1 in H; lia|]. cbn [reserve_loop].
  rewrite int_Ok by (unfold INT_MAX; lia). destruct (Z.leb_spec (cap * 2) need); [|exists (cap * 2); split; [done|lia]].
  destruct (IH (cap * 2)) as (c & E & K); [lia|lia| |exists c; split; [exact E|lia]].
  replace (2 ^ Z.of_nat (S fuel)) with (2 * 2 ^ Z.of_nat fuel) in H; [lia|]. rewrite Nat2Z.inj_succ, Z.pow_succ_r by lia. done.
Qed.

Lemma bson_reserve_ok b sz : buf_ok b -> 0 <= sz -> b_size b + sz < LIMIT ->
  exists b', bson_reserve b sz = Ok b' /\ buf_ok b' /\ content b' = content b /\ b_size b' = b_size b /\ b_size b + sz <= b_cap b'.
Proof.
  intros [P S C] Hs L. unfold bson_reserve. rewrite int_Ok by (rewrite LIMIT_eq in L; unfold INT_MAX; lia). destruct (Z.leb_spec (b_size b + sz) (b_cap b)); [by exists b|].
  destruct (reserve_loop_ok 32 (b_cap b) (b_size b + sz)) as (c & -> & Hc & Hc'); [done|lia|done|change (2 ^ Z.of_nat 32) with 4294967296; rewrite LIMIT_eq in L; lia|].
  eexists. split; [done|]. assert (Lt : length (take (Z.to_nat (b_size b)) (b_ptr b)) = Z.to_nat (b_size b)) by (rewrite length_take; lia). split; [|split; [|split; [done|simpl; lia]]].
  - split; cbn [b_ptr b_cap b_size]; [|lia|lia]. rewrite length_app, Lt. unfold malloc. rewrite length_replicate. lia.
  - unfold content. cbn [b_ptr b_size]. rewrite take_app_le by lia. by rewrite take_take, Nat.min_id.
Qed.

(** Storing where room is reserved. *)
Lemma store_splice b p data size' : buf_ok b -> p = splice (b_ptr b) (Z.to_nat (b_size b)) data -> b_size b + Z.of_nat (length data) <= b_cap b -> size' = b_size b + Z.of_nat (length data) ->
  buf_ok (MkBson size' (b_cap b) p) /\ content (MkBson size' (b_cap b) p) = content b ++ data.
Proof.
  intros [P S C] -> L ->. split.
  - split; cbn [b_ptr b_cap b_size]; [|lia|done]. by rewrite splice_length by lia.
  - unfold content. cbn [b_ptr b_size]. replace (Z.to_nat (b_size b + Z.of_nat (length data))) with (Z.to_nat (b_size b) + length data)%nat by lia. by rewrite splice_take by lia.
Qed.

Lemma store_bytes_ok l b : buf_ok b -> b_size b + Z.of_nat (length l) <= b_cap b -> exists b', store_bytes b l = Ok b' /\ buf_ok b' /\ content b' = content b ++ l.
Proof.
  revert b. induction l as [|v l IH]; intros b B L; cbn [store_bytes length] in *; [exists b; by rewrite app_nil_r|]. pose proof B as [P S _].
  rewrite aset_splice by lia. cbn [lift]. destruct (store_splice b _ [v] (b_size b + 1) B eq_refl) as [B' C']; [simpl; lia|done|].
  destruct (IH _ B') as (b' & E & B2 & C2); [cbn [b_size b_cap]; lia|]. exists b'. split; [exact E|]. split; [done|]. by rewrite C2, C', <- app_assoc.
Qed.

(** Reserve, then store. *)
Lemma reserve_then sz g s : sz = Z.of_nat (length s) -> (forall b, buf_ok b -> b_size b + Z.of_nat (length s) <= b_cap b -> b_size b + Z.of_nat (length s) < LIMIT -> exists b', g b = Ok b' /\ buf_ok b' /\ content b' = content b ++ s) ->
  adds (fun b => let* b := bson_reserve b sz in g b) s.
Proof.
  intros -> G b B L. destruct (bson_reserve_ok b (Z.of_nat (length s)) B) as (b1 & -> & B1 & C1 & S1 & R1); [lia|done|].
  destruct (G b1 B1) as (b' & E & B' & C'); [lia|lia|]. exists b'. split; [exact E|]. split; [done|]. by rewrite C', C1.
Qed.

Lemma write_byte_adds v : 0 <= v < 256 -> adds (fun b => write_byte b v) [v].
Proof. intros H. apply reserve_then; [done|]. intros b B R _. rewrite u8_small by (change (2 ^ 8) with 256; lia). by apply store_bytes_ok. Qed.

Lemma write_int32_adds v : adds (fun b => write_int32 b v) (word_bytes32 v).
Proof. apply reserve_then; [done|]. intros b B R _. by apply store_bytes_ok. Qed.

Lemma write_int64_adds v : adds (fun b => write_int64 b v) (word_bytes64 v).
Proof. apply reserve_then; [done|]. intros b B R _. by apply store_bytes_ok. Qed.

Lemma write_block_adds data : adds (fun b => write_block b data) data.
Proof.
  intros b B L. pose proof L as L'. rewrite LIMIT_eq in L'. unfold write_block. pose proof B as [P S _]. rewrite i32_small by lia. revert b B L L' P S. 
  assert (A : adds (fun b => let* b := bson_reserve b (Z.of_nat (length data)) in let* p := lift (memcpy_at (b_ptr b) (b_size b) data) in let* size := int (b_size b + Z.of_nat (length data)) in Ok (MkBson size (b_cap b) p)) data).
  { apply reserve_then; [done|]. intros b B R L. pose proof B as [P S _]. rewrite memcpy_at_splice by lia. cbn [lift]. rewrite int_Ok by (rewrite LIMIT_eq in L; unfold INT_MAX; lia).
    destruct (store_splice b _ data _ B eq_refl R eq_refl). eauto. }
  intros b B L _ _ _. by apply A.
Qed.

(** *** Strings *)

Lemma utf8_more_lt fuel s c res count c' res' k : (count < length s)%nat -> utf8_more fuel s c res count = Some (c', res', k) -> (k < length s)%nat.
Proof.
  revert c res count. induction fuel as [|fuel IH]; intros c res count L; cbn [utf8_more]; (destruct (Z.eqb_spec (Z.land c 0x40) 0); [by intros [= _ _ <-]|]); [done|].
  destruct (Nat.leb_spec (length s) (S count)); cbn [orb]; [done|]. destruct (negb _); [done|]. by apply IH.
Qed.

Lemma utf8_copy_le s : (utf8_copy s <= length s)%nat.
Proof.
  destruct s as [|b s]; [simpl; lia|]. unfold utf8_copy. destruct (_ <? 0x80); [simpl; lia|]. destruct (utf8_more _ _ _ _ _) as [[[c r] k]|] eqn:E; [|lia].
  apply utf8_more_lt in E; [|simpl; lia]. destruct (_ || _); lia.
Qed.

Lemma string_loop_ok fuel p (dst : nat) src : utf8_loop fuel src = true -> (dst + length src <= length p)%nat -> string_loop fuel p (Z.of_nat dst) src = Ok (splice p dst src).
Proof.
  revert p dst src. induction fuel as [|fuel IH]; intros p dst [|b src] U L; cbn [string_loop utf8_loop] in *; try done; try (by rewrite splice_nil).
  apply andb_true_iff in U as [N U]. pose proof (utf8_copy_le (b :: src)) as K. set (c := utf8_copy (b :: src)) in *. destruct (Nat.eqb_spec c 0) as [E|E]; [done|].
  assert (Lc : length (take c (b :: src)) = c) by (rewrite length_take; lia).
  rewrite memcpy_at_splice by (rewrite ?Lc; lia). cbn [lift]. rewrite <- Nat2Z.inj_add, IH; [|done|rewrite splice_length by (rewrite Lc; lia); rewrite length_drop; lia].
  f_equal. rewrite Nat2Z.id. pose proof (splice_splice p dst (take c (b :: src)) (drop c (b :: src))) as Q. rewrite Lc, take_drop in Q. apply Q. lia.
Qed.

Lemma write_string_adds s : utf8 s = true -> adds (fun b => write_string b s) (s ++ [0]).
Proof.
  intros U b B L. pose proof L as L'. rewrite LIMIT_eq, length_app in L'. cbn [length] in L'. unfold write_string. rewrite i32_small by (destruct B; lia). revert b B L L'.
  assert (A : adds (fun b => let* b := bson_reserve b (Z.of_nat (length s) + 1) in let* p := string_loop (length s) (b_ptr b) (b_size b) s in let* p := lift (aset p (b_size b + Z.of_nat (length s)) 0) in
    let* size := int (b_size b + Z.of_nat (length s) + 1) in Ok (MkBson size (b_cap b) p)) (s ++ [0])).
  { apply reserve_then; [rewrite length_app; simpl; lia|]. intros b B R L. pose proof B as [P S _]. rewrite length_app in R, L. cbn [length] in R, L. rewrite LIMIT_eq in L.
    pose proof (string_loop_ok (length s) (b_ptr b) (Z.to_nat (b_size b)) s U ltac:(lia)) as E. rewrite Z2Nat.id in E by lia. rewrite E.
    rewrite aset_splice by (rewrite splice_length by lia; lia). cbn [lift]. rewrite int_Ok by (unfold INT_MAX; lia).
    replace (Z.to_nat (b_size b + Z.of_nat (length s))) with (Z.to_nat (b_size b) + length s)%nat by lia. rewrite splice_splice by lia.
    destruct (store_splice b _ (s ++ [0]) (b_size b + Z.of_nat (length s) + 1) B eq_refl); [rewrite length_app; simpl; lia..|]. eauto. }
  intros b B L _. by apply A.
Qed.

(** *** Lengths in front *)

Lemma take_splice (buf data : list Z) o n : (o + length data <= n)%nat -> (n <= length buf)%nat -> take n (splice buf o data) = splice (take n buf) o data.
Proof.
  intros H1 H2. unfold splice. rewrite (take_take buf o n), Nat.min_l by lia. rewrite take_app, length_take, Nat.min_l by lia. rewrite (take_ge (take o buf)) by (rewrite length_take; lia).
  f_equal. rewrite take_app, (take_ge data) by lia. f_equal. rewrite skipn_firstn_comm. f_equal. lia.
Qed.

Lemma write_length_ok b pre w post v off : buf_ok b -> content b = pre ++ w ++ post -> length w = 4%nat -> off = Z.of_nat (length pre) ->
  exists b', write_length b v off = Ok b' /\ buf_ok b' /\ content b' = pre ++ word_bytes32 v ++ post /\ b_size b' = b_size b.
Proof.
  intros B E W ->. pose proof B as [P S C]. pose proof (bson_content_length b B) as L. rewrite E, !length_app, W in L. unfold write_length.
  assert (A : forall x l, (length l <= 3)%nat -> lift (aset (splice (b_ptr b) (length pre) l) (Z.of_nat (length pre) + Z.of_nat (length l)) x) = Ok (splice (b_ptr b) (length pre) (l ++ [x]))).
  { intros x l Hl. rewrite aset_splice by (rewrite splice_length by lia; lia). cbn [lift]. rewrite <- Nat2Z.inj_add, Nat2Z.id. by rewrite splice_splice by (simpl; lia). }
  pose proof (A (Z.land (u32 v) 0xff) [] ltac:(simpl; lia)) as A0. rewrite splice_nil in A0. simpl Z.of_nat in A0. rewrite Z.add_0_r in A0. rewrite A0. cbn [app].
  rewrite (A (Z.land (Z.shiftr (u32 v) 8) 0xff) [_]) by (simpl; lia). cbn [app]. rewrite (A (Z.land (Z.shiftr (u32 v) 16) 0xff) [_; _]) by (simpl; lia). cbn [app].
  rewrite (A (Z.land (Z.shiftr (u32 v) 24) 0xff) [_; _; _]) by (simpl; lia). cbn [app].
  eexists. split; [done|]. split; [|split; [|done]].
  - split; cbn [b_ptr b_size b_cap]; [|done|done]. by rewrite splice_length by (simpl; lia).
  - unfold content. cbn [b_ptr b_size]. rewrite take_splice by (simpl; lia). fold (content b). rewrite E. unfold splice. rewrite take_app_length.
    replace (drop (length pre + length _) (pre ++ w ++ post)) with post; [done|]. rewrite app_assoc, drop_app_length'; [done|]. rewrite length_app, W. done.
Qed.

Lemma reserve_length_ok b : buf_ok b -> b_size b + 4 < LIMIT ->
  exists w b', reserve_length b = Ok (b_size b, b') /\ buf_ok b' /\ content b' = content b ++ w /\ length w = 4%nat /\ b_size b' = b_size b + 4.
Proof.
  intros B L. unfold reserve_length. destruct (bson_reserve_ok b 4 B) as (b1 & -> & B1 & C1 & S1 & R1); [lia|done|]. rewrite LIMIT_eq in L. rewrite int_Ok by (pose proof (bo_size _ B); unfold INT_MAX; lia).
  pose proof B1 as [P S C]. pose proof (bson_content_length b B) as Lb. exists (take 4 (drop (Z.to_nat (b_size b1)) (b_ptr b1))). eexists. split; [done|]. split; [|split; [|split; [|simpl; lia]]].
  - split; cbn [b_ptr b_size b_cap]; lia.
  - rewrite <- C1. unfold content. cbn [b_size b_ptr]. replace (Z.to_nat (b_size b1 + 4)) with (Z.to_nat (b_size b1) + 4)%nat by lia. symmetry. apply take_take_drop.
  - rewrite length_take, length_drop. lia.
Qed.

(** A length, what [g] writes, and the length again, now known. *)
Lemma length_adds g s (v : bson -> Z -> Z) n : adds g s -> (forall b off, b_size b = off + 4 + Z.of_nat (length s) -> v b off = n) ->
  adds (fun b => let* (off, b) := reserve_length b in let* b := g b in write_length b (v b off) off) (word_bytes32 n ++ s).
Proof.
  intros G V b B L. rewrite length_app in L. change (length (word_bytes32 n)) with 4%nat in L. destruct (reserve_length_ok b B ltac:(lia)) as (w & b1 & -> & B1 & C1 & W & S1).
  destruct (G b1 B1 ltac:(lia)) as (b2 & -> & B2 & C2). pose proof (bson_content_length b B) as Lb. pose proof (bson_content_length b2 B2) as L2. rewrite C2, C1, !length_app, W in L2.
  rewrite (V b2 (b_size b)) by lia. destruct (write_length_ok b2 (content b) w s n (b_size b) B2) as (b3 & -> & B3 & C3 & _); [by rewrite C2, C1, <- app_assoc|done|lia|]. eauto.
Qed.

Lemma write_binary_adds body : body <> [] -> Z.of_nat (length body) < LIMIT -> adds (fun b => write_binary b body) (word_bytes32 (Z.of_nat (length body) - 1) ++ body).
Proof.
  intros N L. rewrite LIMIT_eq in L. assert (0 < length body)%nat by (destruct body; [done|simpl; lia]).
  apply (length_adds _ _ (fun _ _ => i32 (Z.of_nat (length body) - 1))); [apply write_block_adds|]. intros _ _ _. apply i32_small. lia.
Qed.

Lemma sized_string_adds s : utf8 s = true -> Z.of_nat (length s) + 5 < LIMIT ->
  adds (fun b => let* (off, b) := reserve_length b in let* b := write_string b s in write_length b (i32 (Z.of_nat (length s) + 1)) off) (sized_text s).
Proof.
  intros U L. rewrite LIMIT_eq in L. apply (length_adds _ _ (fun _ _ => i32 (Z.of_nat (length s) + 1))); [by apply write_string_adds|]. intros _ _ _. apply i32_small. lia.
Qed.

Lemma pack_document_adds data body : adds data body -> adds (pack_document data) (framed body).
Proof.
  intros A. unfold framed.
  apply (adds_ext (fun b => let* (off, b) := reserve_length b in let* b := (let* b := data b in write_byte b 0) in write_length b (b_size b - off) off)).
  { intros b. unfold pack_document. destruct (reserve_length b) as [[off b1]| |]; [|done..]. by destruct (data b1). }
  apply (length_adds (fun b => let* b := data b in write_byte b 0) _ (fun b off => b_size b - off)).
  - apply adds_then; [done|]. by apply write_byte_adds.
  - intros b off E. rewrite length_app in E. simpl in E. lia.
Qed.

Lemma append_key_adds t k : 0 <= t < 256 -> utf8 k = true -> adds (fun b => append_key b t k) (t :: k ++ [0]).
Proof. intros T U. apply (adds_then _ _ [t]); [by apply write_byte_adds|by apply write_string_adds]. Qed.

(** *** Numbers as bytes *)

Definition is_byte (b : Z) : Prop := 0 <= b < 256.
Definition quad (b0 b1 b2 b3 : Z) : Z := b0 + 256 * b1 + 65536 * b2 + 16777216 * b3.

Lemma word_of_quad b0 b1 b2 b3 : is_byte b0 -> is_byte b1 -> is_byte b2 -> is_byte b3 -> word_of (quad b0 b1 b2 b3) = [b0; b1; b2; b3].
Proof.
  unfold is_byte, quad. intros. unfold word_of. cbn [map]. change 0xff with (Z.ones 8). rewrite !Z.land_ones, !Z.shiftr_div_pow2 by lia.
  change (2 ^ 8) with 256. change (2 ^ 0) with 1. change (2 ^ 16) with 65536. change (2 ^ 24) with 16777216. repeat (apply (f_equal2 cons); [Z.div_mod_to_equations; lia|]). done.
Qed.

Lemma word_of_split v : 0 <= v < 2 ^ 32 -> exists b0 b1 b2 b3, v = quad b0 b1 b2 b3 /\ is_byte b0 /\ is_byte b1 /\ is_byte b2 /\ is_byte b3.
Proof.
  change (2 ^ 32) with 4294967296. intros H. exists (v mod 256), (v / 256 mod 256), (v / 65536 mod 256), (v / 16777216). unfold quad, is_byte. Z.div_mod_to_equations. lia.
Qed.

Lemma load_quad mem p b0 b1 b2 b3 : holds mem p [b0; b1; b2; b3] -> is_byte b0 -> is_byte b1 -> is_byte b2 -> is_byte b3 -> load_uint32 mem p = Some (quad b0 b1 b2 b3).
Proof.
  intros H B0 B1 B2 B3. apply holds_byte in H as [E0 H]. apply holds_byte in H as [E1 H]. apply holds_byte in H as [E2 H]. apply holds_byte in H as [E3 _].
  replace (p + 1 + 1) with (p + 2) in * by lia. replace (p + 2 + 1) with (p + 3) in * by lia. unfold load_uint32. rewrite E0, E1, E2, E3. f_equal. unfold is_byte in *.
  rewrite !Z.shiftl_mul_pow2 by lia. change (2 ^ 8) with 256 in *. change (2 ^ 16) with 65536 in *. change (2 ^ 24) with 16777216 in *.
  assert (forall a b, 0 <= a < 256 -> Z.lor a (b * 256) = a + b * 256) as H8 by (intros a b Ha; apply (lor_fields a b 8); lia).
  assert (forall a b, 0 <= a < 65536 -> Z.lor a (b * 65536) = a + b * 65536) as H16 by (intros a b Ha; apply (lor_fields a b 16); lia).
  assert (forall a b, 0 <= a < 16777216 -> Z.lor a (b * 16777216) = a + b * 16777216) as H24 by (intros a b Ha; apply (lor_fields a b 24); lia).
  rewrite H8, H16, H24 by lia. unfold quad. lia.
Qed.

Lemma load_word mem p v : 0 <= v < 2 ^ 32 -> holds mem p (word_of v) -> load_uint32 mem p = Some v.
Proof. intros V H. destruct (word_of_split v V) as (b0 & b1 & b2 & b3 & -> & B0 & B1 & B2 & B3). rewrite word_of_quad in H by done. by apply load_quad. Qed.

(** Four bytes are those of the number they are read as. *)
Lemma load_bytes s : Forall is_byte s -> length s = 4%nat -> exists v, load_uint32 s 0 = Some v /\ word_of v = s /\ 0 <= v < 2 ^ 32.
Proof.
  intros F L. destruct s as [|b0 [|b1 [|b2 [|b3 [|]]]]]; try done. repeat (apply Forall_cons in F as [? F]). exists (quad b0 b1 b2 b3). split; [|split].
  - apply load_quad; try done. by exists [], [].
  - by apply word_of_quad.
  - unfold quad, is_byte in *. change (2 ^ 32) with 4294967296. lia.
Qed.

Lemma word_bytes64_split v : word_bytes64 v = word_of (u64 v mod 2 ^ 32) ++ word_of (u64 v / 2 ^ 32).
Proof.
  unfold word_bytes64, word_of. cbn [map app]. pose proof (u64_range v). set (w := u64 v) in *. change 0xff with (Z.ones 8). rewrite !Z.land_ones, !Z.shiftr_div_pow2 by lia.
  change (2 ^ 8) with 256. change (2 ^ 0) with 1. change (2 ^ 16) with 65536. change (2 ^ 24) with 16777216. change (2 ^ 32) with 4294967296.
  change (2 ^ 40) with (4294967296 * 256). change (2 ^ 48) with (4294967296 * 65536). change (2 ^ 56) with (4294967296 * 16777216). rewrite <- !Z.div_div by lia.
  repeat (apply (f_equal2 cons); [Z.div_mod_to_equations; lia|]). done.
Qed.

Lemma forallb_Forall_true {A} (f : A -> bool) l : forallb f l = true <-> Forall (fun x => f x = true) l.
Proof.
  induction l as [|x l IH]; simpl; [split; [constructor|done]|]. rewrite andb_true_iff, IH. split; [intros [? ?]; by constructor|intros H; by apply Forall_cons in H].
Qed.

Lemma bytes_ok_Forall s : bytes_ok s = true -> Forall is_byte s.
Proof. intros H%forallb_Forall_true. eapply Forall_impl; [exact H|]. intros b [A B]%andb_true_iff. unfold is_byte. lia. Qed.

(** *** Values *)

Lemma adds_small f s : (Z.of_nat (length s) < LIMIT -> adds f s) -> adds f s.
Proof. intros A b B L. apply A; [|done|done]. destruct B. lia. Qed.

(** A value with its key. *)
Definition element (k : list Z) (t : Z) (p : list Z) : list Z := t :: k ++ 0 :: p.
Lemma element_adds g k t p : 0 <= t < 256 -> utf8 k = true -> adds g p -> adds (fun b => let* b := append_key b t k in g b) (element k t p).
Proof.
  intros T U G. replace (element k t p) with ((t :: k ++ [0]) ++ p) by (unfold element; cbn [app]; by rewrite <- app_assoc). apply adds_then; [by apply append_key_adds|exact G].
Qed.

(** What is behind the last NUL has none. *)
Lemma split_nul_last s x y : split_nul s = Some (x, y) -> no_nul y = true.
Proof.
  revert x y. induction s as [|b s IH]; intros x y; cbn [split_nul]; [done|]. destruct (split_nul s) as [[x' y']|] eqn:E; [intros [= <- <-]; by eapply IH|].
  destruct (Z.eqb_spec b 0); [|done]. intros [= <- <-]. clear IH. induction s as [|c s IH]; [done|]. cbn [split_nul] in E. destruct (split_nul s) as [[]|]; [done|]. destruct (Z.eqb_spec c 0) as [|N]; [done|].
  cbn [no_nul forallb]. destruct (Z.eqb_spec c 0); [done|]. by apply IH.
Qed.

Lemma append_special_adds k subt body : utf8 k = true -> special_ok subt body = true -> adds (fun b => append_special b k subt body) (element k subt (special_bytes subt body)).
Proof.
  intros U S. apply adds_small. intros L. unfold element in L. simpl in L. rewrite length_app in L. cbn [length] in L. apply andb_true_iff in S as [F%bytes_ok_Forall S].
  unfold append_special, special_bytes in *. destruct (Z.eqb_spec subt BSON_BINARY) as [->|N1].
  { apply element_adds; [done|done|]. destruct body as [|x body]; [done|]. apply write_binary_adds; [done|]. rewrite length_app in L. lia. }
  destruct (Z.eqb_spec subt BSON_OBJECTID) as [->|N2].
  { apply element_adds; [done|done|]. rewrite S. apply write_block_adds. }
  destruct (Z.eqb_spec subt BSON_JSCODE) as [->|N3]; [apply element_adds; [done|done|]; apply write_block_adds|].
  destruct (Z.eqb_spec subt BSON_DBPOINTER) as [->|N4]; [apply element_adds; [done|done|]; apply write_block_adds|].
  destruct (Z.eqb_spec subt BSON_SYMBOL) as [->|N5]; [apply element_adds; [done|done|]; apply write_block_adds|].
  destruct (Z.eqb_spec subt BSON_CODEWS) as [->|N6]; [apply element_adds; [done|done|]; apply write_block_adds|]. cbn [orb] in *.
  destruct (Z.eqb_spec subt BSON_DATE) as [->|N7].
  { apply element_adds; [done|done|]. rewrite S. destruct (load_bytes body F) as (v & E & _ & _); [lia|]. cbn [negb]. rewrite E. cbn [lift default]. rewrite Z.mul_comm. apply write_int64_adds. }
  destruct (Z.eqb_spec subt BSON_TIMESTAMP) as [->|N8].
  { apply element_adds; [done|done|]. rewrite S. cbn [negb]. assert (length body = 8%nat) as L8 by lia. rewrite <- (take_drop 4 body) in F |- *. apply Forall_app in F as [F1 F2].
    destruct (load_bytes _ F1) as (v & E & W & R); [rewrite length_take; lia|]. destruct (load_bytes _ F2) as (v' & E' & W' & R'); [rewrite length_drop; lia|].
    rewrite <- W, <- W'. rewrite (load_word _ 0 v R), (load_word _ 4 v' R'); [|by exists (word_of v), []; rewrite app_nil_r|by exists [], (word_of v')].
    cbn [lift]. replace (word_of v) with (word_bytes32 v) by (unfold word_bytes32; by rewrite u32_small). replace (word_of v') with (word_bytes32 v') by (unfold word_bytes32; by rewrite u32_small).
    apply adds_then; apply write_int32_adds. }
  destruct (Z.eqb_spec subt BSON_REGEX) as [->|N9].
  { apply element_adds; [done|done|]. destruct (split_nul _) as [[r1 r2]|]; [|done]. apply andb_true_iff in S as [[U1 U2]%andb_true_iff Eb%bool_decide_eq_true]. apply andb_true_iff in U1 as [U1 _].
    rewrite Eb. replace (r1 ++ 0 :: r2 ++ [0]) with ((r1 ++ [0]) ++ (r2 ++ [0])) by (by rewrite <- app_assoc). apply adds_then; by apply write_string_adds. }
  apply andb_true_iff in S as [S N]. destruct body; [|done]. rewrite S. apply element_adds; [|done|].
  - unfold BSON_MINKEY, BSON_MAXKEY, BSON_NULL in S. lia.
  - intros b B _. exists b. by rewrite app_nil_r.
Qed.

Lemma utf8_ascii s : Forall (fun b => 0 <= b < 128) s -> utf8 s = true.
Proof.
  unfold utf8. induction 1 as [|b s Hb _ IH]; [done|]. cbn [length utf8_loop]. assert (E : utf8_copy (b :: s) = 1%nat).
  { unfold utf8_copy, schar. destruct (Z.ltb_spec b 128); [|lia]. rewrite u32_small by (change (2 ^ 32) with 4294967296; lia). by destruct (Z.ltb_spec b 0x80); [|lia]. }
  rewrite E. exact IH.
Qed.

(** The digits of a number. *)
Lemma decimal_loop_digits fuel z acc : 0 <= z -> Forall (fun b => 48 <= b <= 57) acc -> Forall (fun b => 48 <= b <= 57) (decimal_loop fuel z acc).
Proof.
  revert z acc. induction fuel as [|fuel IH]; intros z acc Z0 A; cbn [decimal_loop]; [done|].
  assert (A' : Forall (fun b => 48 <= b <= 57) ((48 + z mod 10) :: acc)) by (constructor; [Z.div_mod_to_equations; lia|done]).
  destruct (z / 10 =? 0); [done|]. apply IH; [Z.div_mod_to_equations; lia|done].
Qed.

Lemma bson_numstr_digits i : Forall (fun b => 48 <= b <= 57) (bson_numstr i).
Proof. unfold bson_numstr, decimal. pose proof (u32_range i). destruct (Z.ltb_spec (u32 i) 0); [lia|]. by apply decimal_loop_digits. Qed.

Lemma bson_numstr_utf8 i : utf8 (bson_numstr i) = true.
Proof. apply utf8_ascii. eapply Forall_impl; [apply bson_numstr_digits|]. simpl. lia. Qed.

Definition writes (f : value -> list Z -> bson -> res bson) (v : value) : Prop := forall k, utf8 k = true -> adds (f v k) (element k (value_type v) (value_bytes v)).

Lemma pack_array_data_adds f i l : Forall (writes f) l -> adds (pack_array_data f i l) (elements (indexed i (map (fun v => (value_type v, value_bytes v)) l))).
Proof.
  intros F. revert i. induction F as [|v l Hv _ IH]; intros i; cbn [pack_array_data map indexed].
  - intros b B _. exists b. by rewrite app_nil_r.
  - apply (adds_then (f v (bson_numstr i)) (pack_array_data f (i + 1) l)); [apply Hv, bson_numstr_utf8|apply IH].
Qed.

Lemma pack_dict_data_adds f l : Forall (fun kv => key_ok kv.1 = true /\ writes f kv.2) l -> adds (pack_dict_data f l) (elements (map (fun kv => (default [] (key_text kv.1), (value_type kv.2, value_bytes kv.2))) l)).
Proof.
  induction 1 as [|[k v] l [Hk Hv] _ IH]; cbn [pack_dict_data map].
  - intros b B _. exists b. by rewrite app_nil_r.
  - unfold key_ok in Hk. cbn [fst snd] in *. destruct (key_text k) as [s|]; [|done]. apply andb_true_iff in Hk as [U _]. apply (adds_then (f v s) (pack_dict_data f l)); [by apply Hv|apply IH].
Qed.

Lemma append_string_adds k s depth : utf8 k = true -> value_ok depth (Str s) = true -> adds (fun b => append_string b k s) (element k (value_type (Str s)) (value_bytes (Str s))).
Proof.
  intros U H. assert (P : utf8 s = true -> adds (fun b => let* b := append_key b BSON_STRING k in let* (off, b) := reserve_length b in let* b := write_string b s in write_length b (i32 (Z.of_nat (length s) + 1)) off) (element k BSON_STRING (sized_text s))).
  { intros Us. apply adds_small. intros L. unfold element, sized_text in L. simpl in L. rewrite !length_app in L. cbn [length] in L. rewrite !length_app in L. cbn [length] in L.
    apply element_adds; [done|done|]. apply sized_string_adds; [done|]. lia. }
  destruct s as [|[|p|p] [|subt body]]; try (by apply P). by apply append_special_adds.
Qed.

Lemma append_one_adds v : forall depth, value_ok depth v = true -> writes (append_one depth) v.
Proof.
  induction v as [bits|n|x|s|d|l IH|l IH| |] using value_nested; intros depth H k U; cbn [append_one value_type value_bytes]; try done.
  - by apply element_adds; [|done|apply write_int64_adds].
  - unfold append_integer. destruct (is_32bit n); [apply element_adds; [done|done|apply write_int32_adds]|apply element_adds; [done|done|apply write_int64_adds]].
  - apply element_adds; [done|done|]. destruct x; by apply write_byte_adds.
  - by apply (append_string_adds k s depth).
  - apply andb_true_iff in H as [D H]. apply forallb_Forall_true in H. unfold MAX_DEPTH in *. destruct (Z.ltb_spec 128 (depth + 1)); [lia|]. apply element_adds; [done|done|]. apply pack_document_adds, pack_array_data_adds.
    eapply Forall_impl; [apply Forall_and; split; [exact IH|exact H]|]. intros v [Hv O]. by apply Hv.
  - apply andb_true_iff in H as [D H]. apply forallb_Forall_true in H. unfold MAX_DEPTH in *. destruct (Z.ltb_spec 128 (depth + 1)); [lia|]. apply element_adds; [done|done|]. apply pack_document_adds, pack_dict_data_adds.
    eapply Forall_impl; [apply Forall_and; split; [exact IH|exact H]|]. intros [k' v] [Hv [O1 O2]%andb_true_iff]. split; [done|]. by apply Hv.
Qed.

(** The bytes are those of the reference. *)
Lemma lencode_document l : pairs_ok l = true -> Z.of_nat (length (document l)) < LIMIT -> lencode l = Ok (document l).
Proof.
  intros H L. unfold lencode. assert (B : buf_ok bson_create) by (split; simpl; unfold DEFAULT_CAP; lia || done).
  destruct (pack_document_adds (pack_dict_data (append_one 0) l) _ (pack_dict_data_adds _ l ltac:(eapply Forall_impl; [apply forallb_Forall_true, H|]; intros [k v] [O1 O2]%andb_true_iff; split; [done|]; by apply append_one_adds)) bson_create B) as (b & -> & B' & C); [exact L|].
  change (content bson_create) with (@nil Z) in C. cbn [app] in C. pose proof (bson_content_length b B') as Lc. pose proof (bo_size _ B'). pose proof (bo_ptr _ B'). rewrite memcpy_Some by lia.
  cbn [lift]. change (drop (Z.to_nat 0) (b_ptr b)) with (b_ptr b). fold (content b). by rewrite C.
Qed.

(** ** Reading *)

Definition adv (t : bson_reader) (n : Z) : bson_reader := MkReader (r_ptr t + n) (r_size t - n).
Lemma adv_adv t m n : adv (adv t m) n = adv t (m + n).
Proof. unfold adv. simpl. f_equal; lia. Qed.

Section reading.
Context (mem : list Z).

(** The reader is at [s], and may read it. *)
Definition gets (t : bson_reader) (s : list Z) : Prop := holds mem (r_ptr t) s /\ Z.of_nat (length s) <= r_size t <= INT_MAX.

Lemma gets_app t x s : gets t (x ++ s) -> gets t x /\ gets (adv t (Z.of_nat (length x))) s.
Proof.
  intros [H L]. rewrite length_app in L. apply holds_app in H as [H1 H2]. split; split; try done; simpl; lia.
Qed.

Lemma read_byte_ok t x s : gets t (x :: s) -> read_byte mem t = Ok (x, adv t 1) /\ gets (adv t 1) s.
Proof.
  intros H. pose proof (gets_app t [x] s H) as [_ G]. split; [|exact G]. destruct H as [H L]. simpl in L. unfold read_byte, check_reader. destruct (Z.ltb_spec (r_size t) 1); [lia|].
  apply holds_byte in H as [E _]. by rewrite E.
Qed.

Lemma read_word_ok t v s : 0 <= v < 2 ^ 32 -> gets t (word_of v ++ s) -> read_int32 mem t = Ok (i32 v, adv t 4) /\ gets (adv t 4) s.
Proof.
  intros V H. pose proof (gets_app t (word_of v) s H) as [[H1 _] G]. split; [|exact G]. destruct H as [_ L]. rewrite length_app in L. change (length (word_of v)) with 4%nat in L.
  unfold read_int32, check_reader. destruct (Z.ltb_spec (r_size t) 4); [lia|]. by rewrite (load_word _ _ v V H1).
Qed.

Lemma read_int32_ok t n s : - 2 ^ 31 <= n < 2 ^ 31 -> gets t (word_bytes32 n ++ s) -> read_int32 mem t = Ok (n, adv t 4) /\ gets (adv t 4) s.
Proof.
  intros N H. destruct (read_word_ok t (u32 n) s (u32_range n) H) as [-> G]. split; [|done]. do 2 f_equal.
  unfold i32, u32. change (2 ^ 32) with 4294967296. change (2 ^ 31) with 2147483648 in *. Z.div_mod_to_equations. lia.
Qed.

Lemma read_uint64_ok t v s : gets t (word_bytes64 v ++ s) -> read_uint64 mem t = Ok (u64 v, adv t 8) /\ gets (adv t 8) s.
Proof.
  intros H. pose proof (gets_app t (word_bytes64 v) s H) as [[H1 _] G]. split; [|exact G]. destruct H as [_ L]. rewrite length_app in L. change (length (word_bytes64 v)) with 8%nat in L.
  unfold read_uint64, check_reader. destruct (Z.ltb_spec (r_size t) 8); [lia|]. pose proof (u64_range v) as R. rewrite word_bytes64_split in H1. set (w := u64 v) in *. apply holds_app in H1 as [Hl Hh].
  change (Z.of_nat (length (word_of _))) with 4 in Hh. assert (Rl : 0 <= w mod 2 ^ 32 < 2 ^ 32) by (apply Z.mod_pos_bound; lia).
  assert (Rh : 0 <= w / 2 ^ 32 < 2 ^ 32) by (change (2 ^ 64) with 18446744073709551616 in R; change (2 ^ 32) with 4294967296; Z.div_mod_to_equations; lia).
  rewrite (load_word _ _ _ Rl Hl). cbn [lift]. rewrite (load_word _ _ _ Rh Hh). cbn [lift]. unfold adv. do 2 f_equal.
  rewrite Z.shiftl_mul_pow2, lor_fields by (lia || (apply Z.mod_pos_bound; lia)). change (2 ^ 32) with 4294967296. Z.div_mod_to_equations. lia.
Qed.

Lemma read_int64_ok t v s : - 2 ^ 63 <= v < 2 ^ 63 -> gets t (word_bytes64 v ++ s) -> read_int64 mem t = Ok (v, adv t 8) /\ gets (adv t 8) s.
Proof.
  intros V H. unfold read_int64. destruct (read_uint64_ok t v s H) as [-> G]. split; [|done]. do 2 f_equal.
  unfold i64, u64. change (2 ^ 64) with 18446744073709551616. change (2 ^ 63) with 9223372036854775808 in *. Z.div_mod_to_equations. lia.
Qed.

Lemma read_bytes_ok t x s n : n = Z.of_nat (length x) -> gets t (x ++ s) -> read_bytes t n = Ok (r_ptr t, adv t n) /\ gets (adv t n) s.
Proof.
  intros -> H. pose proof (gets_app t x s H) as [_ G]. split; [|done]. destruct H as [_ L]. rewrite length_app in L. unfold read_bytes, check_reader. destruct (Z.ltb_spec (r_size t) (Z.of_nat (length x))); [lia|].
  by rewrite int_Ok by (unfold INT_MAX in *; lia).
Qed.

Lemma to_string_ok p x n : n = Z.of_nat (length x) -> holds mem p x -> to_string mem p n = Ok x.
Proof. intros -> H. unfold to_string. destruct (Z.ltb_spec (Z.of_nat (length x)) 0); [lia|]. by rewrite (holds_memcpy _ _ _ H). Qed.

Lemma cstring_loop_ok k s fuel p : no_nul k = true -> holds mem p (k ++ 0 :: s) -> (length k < fuel)%nat -> cstring_loop mem fuel p = Ok k.
Proof.
  revert fuel p. induction k as [|b k IH]; intros [|fuel] p N H L; simpl in L; try lia; cbn [cstring_loop app no_nul forallb] in *; apply holds_byte in H as [E H]; rewrite E; [done|].
  apply andb_true_iff in N as [Nb N]. cbn [lift]. destruct (b =? 0); [done|]. by rewrite IH by (done || lia).
Qed.

Lemma read_cstring_ok t k s : no_nul k = true -> gets t (k ++ 0 :: s) -> read_cstring mem t = Ok (k, adv t (Z.of_nat (length k) + 1)) /\ gets (adv t (Z.of_nat (length k) + 1)) s.
Proof.
  intros N H. split.
  - destruct H as [H L]. rewrite length_app in L. cbn [length] in L. unfold read_cstring. destruct (Z.ltb_spec (r_size t) 0); [lia|]. by rewrite (cstring_loop_ok k s) by (done || lia).
  - apply gets_app in H as [_ H]. apply (gets_app _ [0] s) in H as [_ H]. by rewrite adv_adv in H.
Qed.

(** *** Special strings *)

Lemma counted_split extra body : counted extra body = true -> Forall is_byte body ->
  exists n r, body = word_of n ++ r /\ 0 <= n < 2 ^ 31 /\ n + extra = 4 + Z.of_nat (length r).
Proof.
  unfold counted. intros [L H]%andb_true_iff F. rewrite <- (take_drop 4 body) in F. apply Forall_app in F as [F _]. destruct (load_bytes _ F) as (n & _ & W & R); [rewrite length_take; lia|].
  assert (E : body = word_of n ++ drop 4 body) by (by rewrite W, take_drop). assert (Lb : Z.of_nat (length body) = 4 + Z.of_nat (length (drop 4 body))) by (rewrite length_drop; lia).
  rewrite (load_word body 0 n R) in H by (exists [], (drop 4 body); by rewrite <- E). apply andb_true_iff in H as [H1 H2]. exists n, (drop 4 body). split; [exact E|]. lia.
Qed.

Lemma word_back n : 0 <= n < 2 ^ 32 -> word_of (u32 n) = word_of n.
Proof. intros H. by rewrite u32_small. Qed.

Lemma u32_i32 n : u32 (i32 n) = u32 n.
Proof. unfold u32, i32. change (2 ^ 32) with 4294967296. change (2 ^ 31) with 2147483648. Z.div_mod_to_equations. lia. Qed.

Lemma adv_eq {A} (x : A) t m n : m = n -> Ok (x, adv t m) = Ok (x, adv t n).
Proof. by intros ->. Qed.

(** A length and as many bytes, of which it does not count [extra]. *)
Lemma counted_read extra body t : counted extra body = true -> Forall is_byte body -> gets t body -> exists n p,
  read_int32 mem t = Ok (n, adv t 4) /\ read_bytes (adv t 4) (n + (extra - 4)) = Ok (p, adv t (Z.of_nat (length body))) /\
  to_string mem (r_ptr t) (n + extra) = Ok body /\ 0 <= n /\ 4 <= n + extra <= INT_MAX.
Proof.
  intros C F G. pose proof G as [Hm L]. destruct (counted_split extra body C F) as (n & r & -> & R & E). assert (Lb : Z.of_nat (length (word_of n ++ r)) = n + extra) by (rewrite length_app; change (length (word_of n)) with 4%nat; lia).
  destruct (read_word_ok t n r) as [E1 G1]; [change (2 ^ 32) with 4294967296; change (2 ^ 31) with 2147483648 in R; lia|exact G|]. rewrite i32_small in E1 by (change (2 ^ 31) with 2147483648 in *; lia).
  destruct (read_bytes_ok (adv t 4) r [] (n + (extra - 4))) as [E2 _]; [lia|by rewrite app_nil_r|]. exists n, (r_ptr (adv t 4)). split; [done|]. split; [|split; [|lia]].
  - rewrite E2, adv_adv, Lb. apply adv_eq. lia.
  - by apply to_string_ok.
Qed.

Lemma unpack_counted_ok items extra subt body t : (extra = 4 /\ (subt = BSON_JSCODE \/ subt = BSON_SYMBOL)) \/ (extra = 16 /\ subt = BSON_DBPOINTER) \/ (extra = 0 /\ subt = BSON_CODEWS) ->
  counted extra body = true -> Forall is_byte body -> gets t body -> unpack_value mem items subt t = Ok (Str (0 :: subt :: body), adv t (Z.of_nat (length body))).
Proof.
  intros D S F G. destruct (counted_read extra body t S F G) as (n & p & E1 & E2 & E3 & R & R'). destruct D as [(-> & [-> | ->]) | [(-> & ->) | (-> & ->)]].
  - change (unpack_value mem items BSON_JSCODE t) with (let* (sz, t') := read_int32 mem t in let* (_, t') := read_bytes t' sz in let* n := int (sz + 4) in let* s := to_string mem (r_ptr t) n in Ok (make_object BSON_JSCODE s, t')).
    rewrite Z.add_0_r in E2. by rewrite E1, E2, int_Ok, E3 by (unfold INT_MAX in *; lia).
  - change (unpack_value mem items BSON_SYMBOL t) with (let* (sz, t') := read_int32 mem t in let* (_, t') := read_bytes t' sz in let* n := int (sz + 4) in let* s := to_string mem (r_ptr t) n in Ok (make_object BSON_SYMBOL s, t')).
    rewrite Z.add_0_r in E2. by rewrite E1, E2, int_Ok, E3 by (unfold INT_MAX in *; lia).
  - change (unpack_value mem items BSON_DBPOINTER t) with (let* (sz, t') := read_int32 mem t in let* n := int (sz + 12) in let* (_, t') := read_bytes t' n in let* n := int (sz + 16) in let* s := to_string mem (r_ptr t) n in Ok (make_object BSON_DBPOINTER s, t')).
    change (16 - 4) with 12 in E2. by rewrite E1, int_Ok, E2, int_Ok, E3 by (unfold INT_MAX in *; lia).
  - change (unpack_value mem items BSON_CODEWS t) with (let* (sz, t') := read_int32 mem t in let* n := int (sz - 4) in let* (_, t') := read_bytes t' n in let* s := to_string mem (r_ptr t) sz in Ok (make_object BSON_CODEWS s, t')).
    change (n + (0 - 4)) with (n - 4) in E2. rewrite Z.add_0_r in E3. by rewrite E1, int_Ok, E2, E3 by (unfold INT_MAX in *; lia).
Qed.

Lemma unpack_special_ok items subt body t : special_ok subt body = true -> gets t (special_bytes subt body) ->
  unpack_value mem items subt t = Ok (Str (0 :: subt :: body), adv t (Z.of_nat (length (special_bytes subt body)))).
Proof.
  intros [F%bytes_ok_Forall S]%andb_true_iff G. pose proof G as [Hm L]. unfold special_bytes in *.
  destruct (Z.eqb_spec subt BSON_BINARY) as [->|N1].
  { rewrite length_app in *. destruct body as [|x body]; [done|]. set (n := Z.of_nat (length (x :: body)) - 1) in *. assert (n = Z.of_nat (length body)) as Hn by (unfold n; simpl; lia).
    destruct (read_int32_ok t n (x :: body)) as [E G1]; [unfold INT_MAX in L; simpl in L; lia|exact G|]. apply read_byte_ok in G1 as [E2 G2].
    destruct (read_bytes_ok (adv (adv t 4) 1) body [] n) as [E3 _]; [done|by rewrite app_nil_r|].
    change (unpack_value mem items BSON_BINARY t) with (let* (sz, t) := read_int32 mem t in let* (subtype, t) := read_byte mem t in let* (p, t) := read_bytes t sz in let* s := to_string mem p sz in Ok (make_object BSON_BINARY (subtype :: s), t)).
    rewrite E, E2, E3, (to_string_ok _ body) by (done || apply G2). rewrite !adv_adv. apply adv_eq. simpl. lia. }
  destruct (Z.eqb_spec subt BSON_OBJECTID) as [->|N2].
  { destruct (read_bytes_ok t body [] 12) as [E _]; [lia|by rewrite app_nil_r|]. change (unpack_value mem items BSON_OBJECTID t) with (let* (p, t) := read_bytes t 12 in let* s := to_string mem p 12 in Ok (make_object BSON_OBJECTID s, t)).
    rewrite E. rewrite (to_string_ok _ body) by (done || lia). apply adv_eq. change (BSON_OBJECTID =? BSON_DATE) with false. cbv iota. lia. }
  destruct (Z.eqb_spec subt BSON_DATE) as [->|N3].
  { change (Z.of_nat (length body) =? 4 = true) in S. destruct (load_bytes body F) as (v & E & W & R); [lia|]. rewrite E in *. cbn [default] in *. destruct (read_int64_ok t (1000 * v) []) as [E2 _];
      [change (2 ^ 63) with 9223372036854775808; change (2 ^ 32) with 4294967296 in R; lia|by rewrite app_nil_r|].
    change (unpack_value mem items BSON_DATE t) with (let* (date, t) := read_int64 mem t in Ok (make_object BSON_DATE (word_of (u32 (Z.quot date 1000))), t)). rewrite E2.
    rewrite Z.mul_comm, Z.quot_mul by lia. rewrite word_back, W by done. done. }
  destruct (Z.eqb_spec subt BSON_JSCODE) as [->|N4]; [by apply (unpack_counted_ok items 4); auto|]. destruct (Z.eqb_spec subt BSON_SYMBOL) as [->|N5]; [by apply (unpack_counted_ok items 4); auto|].
  destruct (Z.eqb_spec subt BSON_DBPOINTER) as [->|N6]; [by apply (unpack_counted_ok items 16); auto|]. destruct (Z.eqb_spec subt BSON_CODEWS) as [->|N7]; [by apply (unpack_counted_ok items 0); auto|].
  cbn [orb] in *. destruct (Z.eqb_spec subt BSON_TIMESTAMP) as [->|N8].
  { change (Z.of_nat (length body) =? 8 = true) in S. change (BSON_TIMESTAMP =? BSON_DATE) with false in *. cbv iota in *. rewrite <- (take_drop 4 body) in F, G |- *. apply Forall_app in F as [F1 F2].
    destruct (load_bytes _ F1) as (v & _ & W & R); [rewrite length_take; lia|]. destruct (load_bytes _ F2) as (v' & _ & W' & R'); [rewrite length_drop; lia|]. rewrite <- W, <- W' in *.
    destruct (read_word_ok t v _ R G) as [E1 G1]. destruct (read_word_ok (adv t 4) v' [] R') as [E2 _]; [by rewrite app_nil_r|].
    change (unpack_value mem items BSON_TIMESTAMP t) with (let* (inc, t) := read_int32 mem t in let* (ts, t) := read_int32 mem t in Ok (make_object BSON_TIMESTAMP (word_of (u32 inc) ++ word_of (u32 ts)), t)).
    rewrite E1, E2, !u32_i32, !word_back, adv_adv by done. done. }
  destruct (Z.eqb_spec subt BSON_REGEX) as [->|N9].
  { change (BSON_REGEX =? BSON_DATE) with false in *. cbv iota in *. destruct (split_nul _) as [[r1 r2]|] eqn:Er; [|done]. apply andb_true_iff in S as [[[U1 Z1]%andb_true_iff U2]%andb_true_iff Eb%bool_decide_eq_true].
    pose proof (split_nul_last _ _ _ Er) as Z2. rewrite Eb in G. destruct (read_cstring_ok t r1 (r2 ++ [0]) Z1 G) as [E1 G1]. destruct (read_cstring_ok _ r2 [] Z2 G1) as [E2 _].
    change (unpack_value mem items BSON_REGEX t) with (let* (r1, t) := read_cstring mem t in let* (r2, t) := read_cstring mem t in Ok (make_object BSON_REGEX (r1 ++ 0 :: r2 ++ [0]), t)).
    rewrite E1, E2, adv_adv, <- Eb. apply adv_eq. rewrite Eb, length_app. cbn [length]. rewrite length_app. simpl. lia. }
  apply andb_true_iff in S as [S N]. destruct body; [|done].
  assert (E : subt = BSON_MINKEY \/ subt = BSON_MAXKEY \/ subt = BSON_NULL) by (unfold BSON_MINKEY, BSON_MAXKEY, BSON_NULL in *; lia). destruct E as [-> | [-> | ->]].
  1: change (unpack_value mem items BSON_MINKEY t) with (Ok (make_object BSON_MINKEY [], t)).
  2: change (unpack_value mem items BSON_MAXKEY t) with (Ok (make_object BSON_MAXKEY [], t)).
  3: change (unpack_value mem items BSON_NULL t) with (Ok (make_object BSON_NULL [], t)).
  1, 2, 3: unfold adv; do 2 f_equal; simpl; rewrite Z.add_0_r, Z.sub_0_r; by destruct t.
Qed.

(** *** Documents *)

Lemma unpack_document_ok items body t l : gets t (framed body) -> items (MkReader (r_ptr t + 4) (Z.of_nat (length body))) = Ok l ->
  unpack_document mem items t = Ok (Dict l, adv t (Z.of_nat (length (framed body)))).
Proof.
  intros G E. pose proof G as [_ L]. unfold framed in L. rewrite !length_app in L. change (length (word_bytes32 _)) with 4%nat in L. cbn [length] in L. unfold INT_MAX in L. unfold unpack_document.
  destruct (read_int32_ok t (Z.of_nat (length body) + 5) (body ++ [0])) as [-> G1]; [lia|exact G|]. rewrite int_Ok by (unfold INT_MAX; lia). replace (Z.of_nat (length body) + 5 - 5) with (Z.of_nat (length body)) by lia.
  destruct (read_bytes_ok (adv t 4) body [0] (Z.of_nat (length body)) eq_refl G1) as [-> G2]. apply read_byte_ok in G2 as [-> _]. cbn [Z.eqb negb]. change (r_ptr (adv t 4)) with (r_ptr t + 4). rewrite E.
  rewrite !adv_adv. apply adv_eq. unfold framed. rewrite !length_app. change (length (word_bytes32 _)) with 4%nat. simpl. lia.
Qed.

Lemma digits_value_loop fuel z acc n : 0 <= z < 10 ^ Z.of_nat fuel -> exists n', digits_value 10 0 n (decimal_loop fuel z acc) = digits_value 10 z n' acc.
Proof.
  revert z acc n. induction fuel as [|fuel IH]; intros z acc n Hz; [change (10 ^ Z.of_nat 0) with 1 in Hz; assert (z = 0) as -> by lia; by exists n|]. rewrite Nat2Z.inj_succ, Z.pow_succ_r in Hz by lia. cbn [decimal_loop].
  assert (D : forall a k, digits_value 10 a k ((48 + z mod 10) :: acc) = digits_value 10 (a * 10 + z mod 10) (S k) acc).
  { intros a k. cbn [digits_value]. unfold digit_value. assert (0 <= z mod 10 < 10) by (apply Z.mod_pos_bound; lia). destruct (Z.leb_spec 48 (48 + z mod 10)), (Z.leb_spec (48 + z mod 10) 57); try lia. cbn [andb].
    replace (48 + z mod 10 - 48) with (z mod 10) by lia. destruct (Z.ltb_spec (z mod 10) 10); [done|lia]. }
  destruct (Z.eqb_spec (z / 10) 0) as [E|E].
  - exists (S n). rewrite D. f_equal. Z.div_mod_to_equations. lia.
  - destruct (IH (z / 10) ((48 + z mod 10) :: acc) n) as [n' ->]; [split; [Z.div_mod_to_equations; lia|apply Z.div_lt_upper_bound; lia]|]. exists (S n'). rewrite D. f_equal. Z.div_mod_to_equations. lia.
Qed.

Lemma decimal_loop_nonnil fuel z acc : acc <> [] -> decimal_loop fuel z acc <> [].
Proof. revert z acc. induction fuel as [|fuel IH]; intros z acc N; cbn [decimal_loop]; [done|]. destruct (z / 10 =? 0); [done|]. by apply IH. Qed.

(** The index of an element is read back. *)
Lemma array_index_ok i : 0 <= i < LIMIT -> array_index (bson_numstr i) = Ok (i + 1).
Proof.
  rewrite LIMIT_eq. intros H. assert (E : strtol10 (bson_numstr i) = i).
  { pose proof (bson_numstr_digits i) as F. unfold strtol10, scan_decimal, bson_numstr, decimal in *. rewrite u32_small in * by (change (2 ^ 32) with 4294967296; lia). destruct (Z.ltb_spec i 0); [lia|].
    destruct (digits_value_loop 20 i [] 0) as [n' D]; [change (10 ^ Z.of_nat 20) with 100000000000000000000; lia|]. destruct (decimal_loop 20 i []) as [|b r] eqn:El.
    { exfalso. cbn [decimal_loop] in El. destruct (i / 10 =? 0); [done|]. by apply (decimal_loop_nonnil 19) in El. }
    apply Forall_cons in F as [Hb _]. cbn [skip_space]. replace (isspace b) with false by (unfold isspace; destruct (Z.eqb_spec b 32), (Z.leb_spec 9 b), (Z.leb_spec b 13); simpl; lia || done).
    cbn [sign_of]. destruct (Z.eqb_spec b 45), (Z.eqb_spec b 43); try lia. rewrite D. cbn [digits_value fst]. unfold LONG_MAX. change (2 ^ 63) with 9223372036854775808. lia. }
  unfold array_index. rewrite E. unfold LONG_MAX. destruct (Z.eqb_spec i (2 ^ 63 - 1)) as [->|]; [change (2 ^ 63) with 9223372036854775808 in H; lia|]. by rewrite i32_small by lia.
Qed.

Definition reads (v : value) : Prop := forall fuel t, (length (value_bytes v) <= fuel)%nat -> gets t (value_bytes v) ->
  unpack_value mem (unpack_items mem fuel) (value_type v) t = Ok (image v, adv t (Z.of_nat (length (value_bytes v)))).

(** The loop over the elements, which are all there is to read; [name] is what becomes of a key. *)
Lemma unpack_items_ok array (name : list Z -> res key) l fuel t :
  (forall k, name k = if array : bool then let* id := array_index k in Ok (KInt id) else Ok (KStr k)) ->
  Forall (fun e => no_nul e.1 = true /\ reads e.2.2 /\ name e.1 = Ok e.2.1) l ->
  let bytes := elements (map (fun e => (e.1, (value_type e.2.2, value_bytes e.2.2))) l) in
  r_size t = Z.of_nat (length bytes) -> gets t bytes -> (length bytes < fuel)%nat ->
  unpack_items mem fuel array t = Ok (map (fun e => (e.2.1, image e.2.2)) l).
Proof.
  intros Nm F. revert fuel t. induction F as [|[k [n v]] l (Hk & Hv & Hn) _ IH]; intros fuel t; cbn [map fst snd] in *; intros Hs G Hf; (destruct fuel as [|fuel]; [lia|]); cbn [unpack_items].
  { change (length (elements [])) with 0%nat in Hs. by rewrite Hs. }
  set (rest := elements (map (fun e => (e.1, (value_type e.2.2, value_bytes e.2.2))) l)) in *. change (elements (_ :: _)) with (element k (value_type v) (value_bytes v) ++ rest) in *.
  unfold element in *. cbn [app length] in *. rewrite <- app_assoc in *. cbn [app] in *. rewrite !length_app in *. cbn [length] in *. rewrite !length_app in *. destruct (Z.eqb_spec (r_size t) 0); [lia|].
  apply read_byte_ok in G as [-> G]. destruct (read_cstring_ok _ k _ Hk G) as [-> G1]. rewrite <- Nm, Hn. apply gets_app in G1 as [G1 G2].
  rewrite (Hv fuel _ ltac:(lia) G1). rewrite !adv_adv in *. rewrite IH; [done|simpl; lia|exact G2|lia].
Qed.

Definition name_of (array : bool) (k : list Z) : res key := if array then let* id := array_index k in Ok (KInt id) else Ok (KStr k).

(** An array: the text of each index, and the index. *)
Fixpoint entries (i : Z) (l : list value) : list (list Z * (key * value)) := match l with [] => [] | v :: l => (bson_numstr i, (KInt (i + 1), v)) :: entries (i + 1) l end.

Lemma entries_bytes i l : map (fun e => (e.1, (value_type e.2.2, value_bytes e.2.2))) (entries i l) = indexed i (map (fun v => (value_type v, value_bytes v)) l).
Proof. revert i. induction l as [|v l IH]; intros i; [done|]. cbn [entries map indexed]. by rewrite IH. Qed.

Lemma entries_image i l : map (fun e => (e.2.1, image e.2.2)) (entries i l) = numbered (i + 1) (map image l).
Proof. revert i. induction l as [|v l IH]; intros i; [done|]. cbn [entries map numbered]. by rewrite IH. Qed.

Lemma bson_numstr_no_nul i : no_nul (bson_numstr i) = true.
Proof. apply forallb_Forall_true. eapply Forall_impl; [apply bson_numstr_digits|]. intros b H. simpl in H. destruct (Z.eqb_spec b 0); [lia|done]. Qed.

Lemma entries_ok i l : 0 <= i -> i + Z.of_nat (length l) <= LIMIT -> Forall reads l -> Forall (fun e => no_nul e.1 = true /\ reads e.2.2 /\ name_of true e.1 = Ok e.2.1) (entries i l).
Proof.
  intros Hi L F. revert i Hi L. induction F as [|v l Hv _ IH]; intros i Hi L; cbn [entries length] in *; constructor; [|apply IH; lia]. cbn [fst snd]. split; [apply bson_numstr_no_nul|]. split; [done|].
  unfold name_of. by rewrite array_index_ok by lia.
Qed.

Lemma elements_length l : (2 * length l <= length (elements l))%nat.
Proof.
  unfold elements. induction l as [|[k [t p]] l IH]; cbn [map concat length fst snd]; [lia|]. rewrite length_app. cbn [length]. rewrite length_app. cbn [length]. lia.
Qed.

Lemma indexed_length {A} i (l : list A) : length (indexed i l) = length l.
Proof. revert i. induction l as [|x l IH]; intros i; [done|]. cbn [indexed length]. by rewrite IH. Qed.

(** What is between the length and the zero. *)
Lemma frame_inside t body : gets t (framed body) -> gets (MkReader (r_ptr t + 4) (Z.of_nat (length body))) body /\ Z.of_nat (length body) + 5 <= INT_MAX.
Proof.
  intros [H L]. unfold framed in *. rewrite !length_app in L. change (length (word_bytes32 _)) with 4%nat in L. cbn [length] in L. apply holds_app in H as [_ H]. apply holds_app in H as [H _].
  split; [|lia]. split; [exact H|simpl; lia].
Qed.

Lemma array_reads l : Forall reads l -> reads (Array l).
Proof.
  intros F fuel t Hf G. destruct (frame_inside _ _ G) as [Gi Li]. cbn [value_bytes] in *. set (body := elements _) in *.
  pose proof (elements_length (indexed 0 (map (fun v => (value_type v, value_bytes v)) l))) as L. rewrite indexed_length, length_map in L. fold body in L. unfold framed in Hf. rewrite !length_app in Hf. change (length (word_bytes32 _)) with 4%nat in Hf. simpl in Hf.
  assert (E : unpack_items mem fuel true (MkReader (r_ptr t + 4) (Z.of_nat (length body))) = Ok (numbered 1 (map image l))).
  { rewrite (unpack_items_ok true (name_of true) (entries 0 l)); [by rewrite entries_image|done|apply entries_ok; [lia|rewrite LIMIT_eq; unfold INT_MAX in Li; lia|done]| | |]; rewrite entries_bytes; [done|exact Gi|fold body; lia]. }
  exact (unpack_document_ok _ _ _ _ G E).
Qed.

Lemma dict_reads l : Forall (fun kv => key_ok kv.1 = true /\ reads kv.2) l -> reads (Dict l).
Proof.
  intros F fuel t Hf G. destruct (frame_inside _ _ G) as [Gi Li]. cbn [value_bytes] in *. set (body := elements _) in *. unfold framed in Hf. rewrite !length_app in Hf. change (length (word_bytes32 _)) with 4%nat in Hf. simpl in Hf.
  set (es := map (fun kv : key * value => (default [] (key_text kv.1), (KStr (default [] (key_text kv.1)), kv.2))) l).
  assert (Eb : map (fun e => (e.1, (value_type e.2.2, value_bytes e.2.2))) es = map (fun kv => (default [] (key_text kv.1), (value_type kv.2, value_bytes kv.2))) l) by (unfold es; by rewrite map_map).
  assert (E : unpack_items mem fuel false (MkReader (r_ptr t + 4) (Z.of_nat (length body))) = Ok (image_pairs l)).
  { rewrite (unpack_items_ok false (name_of false) es); [unfold es, image_pairs; by rewrite map_map|done| | | |]; rewrite ?Eb; [|done|exact Gi|fold body; lia].
    unfold es. apply Forall_map. eapply Forall_impl; [exact F|]. intros [k v] [Hk Hv]. unfold key_ok in Hk. cbn [fst snd] in *. destruct (key_text k) as [s|]; [|done]. apply andb_true_iff in Hk as [_ N]. done. }
  exact (unpack_document_ok _ _ _ _ G E).
Qed.

Lemma value_reads v : forall depth, value_ok depth v = true -> reads v.
Proof.
  induction v as [bits|n|x|s|d|l IH|l IH| |] using value_nested; intros depth H; cbn [value_ok] in H; try done.
  - intros fuel t _ G. cbn [value_bytes value_type image] in *. destruct (read_uint64_ok t bits []) as [E _]; [by rewrite app_nil_r|]. unfold unpack_value. cbn [Z.eqb Pos.eqb BSON_REAL]. unfold read_double. rewrite E, u64_small by lia. done.
  - intros fuel t _ G. cbn [value_bytes value_type image] in *. destruct (is_32bit n) eqn:E32.
    + unfold is_32bit, INT_MAX in E32. destruct (read_int32_ok t n []) as [E _]; [lia|by rewrite app_nil_r|].
      change (unpack_value mem (unpack_items mem fuel) BSON_INT32 t) with (let* (v, t) := read_int32 mem t in Ok (Integer v, t)). by rewrite E.
    + destruct (read_int64_ok t n []) as [E _]; [lia|by rewrite app_nil_r|]. change (unpack_value mem (unpack_items mem fuel) BSON_INT64 t) with (let* (v, t) := read_int64 mem t in Ok (Integer v, t)). by rewrite E.
  - intros fuel t _ G. cbn [value_bytes value_type image] in *. apply read_byte_ok in G as [E _]. change (unpack_value mem (unpack_items mem fuel) BSON_BOOLEAN t) with (let* (v, t) := read_byte mem t in Ok (Boolean (negb (v =? 0)), t)).
    rewrite E. by destruct x.
  - assert (P : utf8 s = true -> forall fuel t, gets t (sized_text s) -> unpack_value mem (unpack_items mem fuel) BSON_STRING t = Ok (Str s, adv t (Z.of_nat (length (sized_text s))))).
    { intros _ fuel t G. pose proof G as [_ L]. unfold sized_text in L. rewrite !length_app in L. change (length (word_bytes32 _)) with 4%nat in L. cbn [length] in L. unfold INT_MAX in L.
      destruct (read_int32_ok t (Z.of_nat (length s) + 1) (s ++ [0])) as [E1 G1]; [lia|exact G|]. destruct (read_bytes_ok (adv t 4) (s ++ [0]) [] (Z.of_nat (length s) + 1)) as [E2 _]; [rewrite length_app; simpl; lia|by rewrite app_nil_r|].
      change (unpack_value mem (unpack_items mem fuel) BSON_STRING t) with (let* (sz, t) := read_int32 mem t in if sz <=? 0 then Raise (Text "Invalid bson string") else let* (p, t) := read_bytes t sz in let* s := to_string mem p (sz - 1) in Ok (Str s, t)).
      rewrite E1. destruct (Z.leb_spec (Z.of_nat (length s) + 1) 0); [lia|]. apply gets_app in G1 as [[Hs _] _]. rewrite E2, (to_string_ok _ s) by (done || lia). rewrite adv_adv. apply adv_eq.
      unfold sized_text. rewrite !length_app. change (length (word_bytes32 _)) with 4%nat. simpl. lia. }
    intros fuel t _ G. destruct s as [|[|p|p] [|subt body]]; try (by apply P). by apply unpack_special_ok.
  - apply andb_true_iff in H as [_ H]. apply forallb_Forall_true in H. apply array_reads. eapply Forall_impl; [apply Forall_and; split; [exact IH|exact H]|]. intros v [Hv O]. by eapply Hv.
  - apply andb_true_iff in H as [_ H]. apply forallb_Forall_true in H. apply dict_reads. eapply Forall_impl; [apply Forall_and; split; [exact IH|exact H]|]. intros [k v] [Hv [O1 O2]%andb_true_iff]. split; [done|]. by eapply Hv.
Qed.
End reading.

(** ** The theorem *)


(** Numbers, text, an array with a table in it, and a time. *)
Definition sample : list (key * value) :=
  [(KStr [97], Integer 5); (KStr [98; 99], Str [104; 195; 169]); (KInt 3, Array [Real 7; Boolean true; Dict [(KStr [120], Integer 1099511627776)]]); (KStr [100], Str [0; 9; 1; 2; 3; 4])].


(** ** Outside *)

(** Two, three and four bytes; overlong, too large, cut off. *)
Example utf8_copy_ex : map utf8_copy [[65]; [195; 169]; [226; 130; 172]; [240; 159; 152; 128]; [192; 128]; [244; 144; 128; 128]; [226; 130]; [128]] = [1; 2; 3; 4; 0; 0; 0; 0]%nat.
Proof. reflexivity. Qed.

(** A nested document whose length is negative: the reader goes back, out of the block. *)
Lemma unpack_dict_negative_length : ldecode [13; 0; 0; 0; 3; 97; 0; 0; 255; 255; 255; 0; 0] = Stuck.
Proof. reflexivity. Qed.

(** An empty binary, not even a sub type, gets the length -1. *)
Lemma empty_binary_length : lencode [(KStr [97], Str [0; 5])] = Ok [12; 0; 0; 0; 5; 97; 0; 255; 255; 255; 255; 0].
Proof. reflexivity. Qed.

(** A regular expression without a NUL. *)
Lemma regex_without_nul : lencode [(KStr [97], Str [0; 11; 97; 98])] = Stuck.
Proof. reflexivity. Qed.

(** A NUL in a key ends it: what follows is a field of its own. *)
Lemma key_with_nul : exists bytes, lencode [(KStr [97; 0; 10; 98], Str [0; 10])] = Ok bytes /\ ldecode bytes = Ok (Dict [(KStr [97], Str [0; 10]); (KStr [98], Str [0; 10])]).
Proof. eexists. split; reflexivity. Qed.
