(* ===== verification/BsonIndex.v ===== *)
(** * Fields of a document are replaced in place

    [lmakeindex] finds the fields of fixed size in what [lencode] has written, and [lreplace] makes of the document the one with the new value. *)

From S2P Require Import Prelude CString Buffer LuaError Bson BsonSpec.

(** ** The index of a document *)

(** The size of the values of a type, when it is the same for all. *)
Definition fixed_size (t : Z) : Z :=
  if (t =? BSON_INT64) || (t =? BSON_TIMESTAMP) || (t =? BSON_DATE) || (t =? BSON_REAL) then 8 else
  if t =? BSON_BOOLEAN then 1 else
  if t =? BSON_OBJECTID then 12 else
  if t =? BSON_INT32 then 4 else 0.

Definition text_of (k : key) : list Z := default [] (key_text k).
Definition pairs_bytes (l : list (key * value)) : list Z := elements (map (fun kv => (text_of kv.1, (value_type kv.2, value_bytes kv.2))) l).

(** The fields behind offset [off]. *)
Fixpoint index_of (off : Z) (l : list (key * value)) : list (list Z * Z) :=
  match l with
  | [] => []
  | (k, v) :: l =>
    let at_ := off + Z.of_nat (length (text_of k)) + 2 in
    let rest := index_of (at_ + Z.of_nat (length (value_bytes v))) l in
    if 0 <? fixed_size (value_type v) then (text_of k, value_type v + 32 * at_) :: rest else rest
  end.

Lemma special_fixed subt body : special_ok subt body = true -> 0 < fixed_size subt -> Z.of_nat (length (special_bytes subt body)) = fixed_size subt.
Proof.
  intros [_ S]%andb_true_iff H. unfold special_bytes. destruct (Z.eqb_spec subt BSON_BINARY) as [->|N1]; [done|]. destruct (Z.eqb_spec subt BSON_OBJECTID) as [->|N2]; [unfold fixed_size; simpl; lia|].
  destruct (Z.eqb_spec subt BSON_DATE) as [->|N3]; [done|]. destruct ((subt =? BSON_JSCODE) || (subt =? BSON_SYMBOL)) eqn:E1; [unfold BSON_JSCODE, BSON_SYMBOL in E1; assert (subt = 13 \/ subt = 14) as [-> | ->] by lia; done|].
  destruct (Z.eqb_spec subt BSON_DBPOINTER) as [->|N5]; [done|]. destruct (Z.eqb_spec subt BSON_CODEWS) as [->|N6]; [done|]. destruct (Z.eqb_spec subt BSON_TIMESTAMP) as [->|N7]; [unfold fixed_size; simpl; lia|].
  destruct (Z.eqb_spec subt BSON_REGEX) as [->|N8]; [done|]. apply andb_true_iff in S as [S _]. unfold BSON_MINKEY, BSON_MAXKEY, BSON_NULL in S. assert (subt = 255 \/ subt = 127 \/ subt = 10) as [-> | [-> | ->]] by lia; done.
Qed.

Lemma value_fixed depth v : value_ok depth v = true -> 0 < fixed_size (value_type v) -> Z.of_nat (length (value_bytes v)) = fixed_size (value_type v).
Proof.
  destruct v as [bits|n|x|s|d|l|l| |]; cbn [value_ok value_type value_bytes]; try done.
  - by destruct (is_32bit n).
  - intros H F. destruct s as [|[|p|p] [|subt body]]; try done. by apply special_fixed.
Qed.

Section index.
Context (mem : list Z).
Notation gets := (gets mem).

(** A value is skipped, or left where it is when its size is fixed. *)
Definition skips (t0 : Z) (bytes : list Z) (t : bson_reader) : Prop :=
  index_field mem t0 t = Ok (fixed_size t0, if 0 <? fixed_size t0 then t else adv t (Z.of_nat (length bytes))).

Lemma skip_counted extra body t : counted extra body = true -> Forall is_byte body -> gets t body -> exists n p,
  read_int32 mem t = Ok (n, adv t 4) /\ read_bytes (adv t 4) (n + (extra - 4)) = Ok (p, adv t (Z.of_nat (length body))) /\ 0 <= n /\ 4 <= n + extra <= INT_MAX.
Proof. intros C F G. destruct (counted_read mem extra body t C F G) as (n & p & E1 & E2 & _ & R & R'). by exists n, p. Qed.

Lemma skip_special subt body t : special_ok subt body = true -> gets t (special_bytes subt body) -> skips subt (special_bytes subt body) t.
Proof.
  intros H G. pose proof H as [F%bytes_ok_Forall S]%andb_true_iff. unfold skips, special_bytes in *.
  destruct (Z.eqb_spec subt BSON_BINARY) as [->|N1].
  { pose proof G as [_ L]. rewrite length_app in *. change (length (word_bytes32 _)) with 4%nat in *. change (1 <=? Z.of_nat (length body) = true) in S. unfold INT_MAX in L.
    destruct (read_int32_ok mem t (Z.of_nat (length body) - 1) body) as [E G1]; [change (2 ^ 31) with 2147483648; lia|exact G|]. destruct (read_bytes_ok mem (adv t 4) body [] (Z.of_nat (length body))) as [E2 _]; [done|by rewrite app_nil_r|].
    change (index_field mem BSON_BINARY t) with (let* (sz, br) := read_int32 mem t in let* n := int (sz + 1) in let* (_, br) := read_bytes br n in Ok (0, br)). rewrite E, int_Ok by (unfold INT_MAX; lia).
    replace (Z.of_nat (length body) - 1 + 1) with (Z.of_nat (length body)) by lia. rewrite E2, adv_adv. apply adv_eq. lia. }
  destruct (Z.eqb_spec subt BSON_OBJECTID) as [->|N2]; [done|]. destruct (Z.eqb_spec subt BSON_DATE) as [->|N3]; [done|].
  destruct (Z.eqb_spec subt BSON_JSCODE) as [->|N4].
  { destruct (skip_counted 4 body t S F G) as (n & p & E1 & E2 & R & R'). rewrite Z.add_0_r in E2. change (index_field mem BSON_JSCODE t) with (let* (sz, br) := read_int32 mem t in let* (_, br) := read_bytes br sz in Ok (0, br)). by rewrite E1, E2. }
  destruct (Z.eqb_spec subt BSON_SYMBOL) as [->|N5].
  { destruct (skip_counted 4 body t S F G) as (n & p & E1 & E2 & R & R'). rewrite Z.add_0_r in E2. change (index_field mem BSON_SYMBOL t) with (let* (sz, br) := read_int32 mem t in let* (_, br) := read_bytes br sz in Ok (0, br)). by rewrite E1, E2. }
  destruct (Z.eqb_spec subt BSON_DBPOINTER) as [->|N6].
  { destruct (skip_counted 16 body t S F G) as (n & p & E1 & E2 & R & R'). change (16 - 4) with 12 in E2.
    change (index_field mem BSON_DBPOINTER t) with (let* (sz, br) := read_int32 mem t in let* n := int (sz + 12) in let* (_, br) := read_bytes br n in Ok (0, br)). by rewrite E1, int_Ok, E2 by (unfold INT_MAX in *; lia). }
  destruct (Z.eqb_spec subt BSON_CODEWS) as [->|N7].
  { destruct (skip_counted 0 body t S F G) as (n & p & E1 & E2 & R & R'). change (n + (0 - 4)) with (n - 4) in E2.
    change (index_field mem BSON_CODEWS t) with (let* (sz, br) := read_int32 mem t in let* n := int (sz - 4) in let* (_, br) := read_bytes br n in Ok (0, br)). by rewrite E1, int_Ok, E2 by (unfold INT_MAX in *; lia). }
  cbn [orb] in *. destruct (Z.eqb_spec subt BSON_TIMESTAMP) as [->|N8]; [done|]. destruct (Z.eqb_spec subt BSON_REGEX) as [->|N9].
  { destruct (split_nul _) as [[r1 r2]|] eqn:Er; [|done]. apply andb_true_iff in S as [[[U1 Z1]%andb_true_iff U2]%andb_true_iff Eb%bool_decide_eq_true].
    pose proof (split_nul_last _ _ _ Er) as Z2. change (BSON_REGEX =? BSON_DATE) with false in *. cbv iota in *. rewrite Eb in G |- *. destruct (read_cstring_ok mem t r1 (r2 ++ [0]) Z1 G) as [E1 G1]. destruct (read_cstring_ok mem _ r2 [] Z2 G1) as [E2 _].
    change (index_field mem BSON_REGEX t) with (let* (_, br) := read_cstring mem t in let* (_, br) := read_cstring mem br in Ok (0, br)). rewrite E1, E2, adv_adv. apply adv_eq. rewrite length_app. cbn [length]. rewrite length_app. simpl. lia. }
  apply andb_true_iff in S as [S N]. destruct body; [|done]. replace (adv t (Z.of_nat (length []))) with t by (unfold adv; simpl; rewrite Z.add_0_r, Z.sub_0_r; by destruct t).
  unfold BSON_MINKEY, BSON_MAXKEY, BSON_NULL in *. assert (E : subt = 255 \/ subt = 127 \/ subt = 10) by lia. by destruct E as [-> | [-> | ->]].
Qed.

Lemma skip_framed bt body t : bt = BSON_ARRAY \/ bt = BSON_DOCUMENT -> gets t (framed body) -> skips bt (framed body) t.
Proof.
  intros D G. pose proof G as [_ L]. unfold framed in L. rewrite !length_app in L. change (length (word_bytes32 _)) with 4%nat in L. cbn [length] in L. unfold INT_MAX in L. unfold skips.
  destruct (read_int32_ok mem t (Z.of_nat (length body) + 5) (body ++ [0])) as [E G1]; [lia|exact G|].
  destruct (read_bytes_ok mem (adv t 4) (body ++ [0]) [] (Z.of_nat (length body) + 1)) as [E2 _]; [rewrite length_app; simpl; lia|by rewrite app_nil_r|].
  assert (Ei : index_field mem bt t = (let* (sz, br) := read_int32 mem t in let* n := int (sz - 4) in let* (_, br) := read_bytes br n in Ok (0, br))) by (by destruct D as [-> | ->]).
  assert (Ef : fixed_size bt = 0) by (by destruct D as [-> | ->]). rewrite Ei, Ef, E, int_Ok by (unfold INT_MAX; lia). replace (Z.of_nat (length body) + 5 - 4) with (Z.of_nat (length body) + 1) by lia. rewrite E2, adv_adv. apply adv_eq.
  unfold framed. rewrite !length_app. change (length (word_bytes32 _)) with 4%nat. simpl. lia.
Qed.

Lemma skip_value depth v t : value_ok depth v = true -> gets t (value_bytes v) -> skips (value_type v) (value_bytes v) t.
Proof.
  destruct v as [bits|n|x|s|d|l|l| |]; intros H G; try done.
  - cbn [value_type value_bytes] in *. by destruct (is_32bit n).
  - assert (P : gets t (sized_text s) -> skips BSON_STRING (sized_text s) t).
    { clear G. intros G. pose proof G as [_ L]. unfold sized_text in L. rewrite !length_app in L. change (length (word_bytes32 _)) with 4%nat in L. cbn [length] in L. unfold INT_MAX in L.
      destruct (read_int32_ok mem t (Z.of_nat (length s) + 1) (s ++ [0])) as [E1 G1]; [lia|exact G|]. destruct (read_bytes_ok mem (adv t 4) (s ++ [0]) [] (Z.of_nat (length s) + 1)) as [E2 _]; [rewrite length_app; simpl; lia|by rewrite app_nil_r|].
      unfold skips. change (index_field mem BSON_STRING t) with (let* (sz, br) := read_int32 mem t in let* (_, br) := read_bytes br sz in Ok (0, br)). rewrite E1, E2, adv_adv. apply adv_eq.
      unfold sized_text. rewrite !length_app. change (length (word_bytes32 _)) with 4%nat. simpl. lia. }
    destruct s as [|[|p|p] [|subt body]]; try (by apply P). by apply skip_special.
  - apply skip_framed; [by left|exact G].
  - apply skip_framed; [by right|exact G].
Qed.

Lemma fixed_type t : 0 < fixed_size t -> 0 <= t < 32.
Proof.
  unfold fixed_size, BSON_INT64, BSON_TIMESTAMP, BSON_DATE, BSON_REAL, BSON_BOOLEAN, BSON_OBJECTID, BSON_INT32. intros H.
  destruct ((t =? 18) || (t =? 17) || (t =? 9) || (t =? 1)) eqn:E; [lia|]. destruct (Z.eqb_spec t 8); [lia|]. destruct (Z.eqb_spec t 7); [lia|]. destruct (Z.eqb_spec t 16); lia.
Qed.

(** Documents below 64 MB: offset and type fit an [int]. *)
Lemma index_loop_ok l fuel t : Forall (fun kv => key_ok kv.1 = true /\ exists depth, value_ok depth kv.2 = true) l ->
  r_size t = Z.of_nat (length (pairs_bytes l)) -> gets t (pairs_bytes l) -> (length (pairs_bytes l) < fuel)%nat -> r_ptr t + Z.of_nat (length (pairs_bytes l)) < 2 ^ 26 ->
  index_loop mem fuel t = Ok (index_of (r_ptr t) l).
Proof.
  intros F. revert fuel t. induction F as [|[k v] l [Hk [depth Hv]] _ IH]; intros fuel t Hs G Hf Hp; (destruct fuel as [|fuel]; [lia|]); cbn [index_loop index_of].
  { change (length (pairs_bytes [])) with 0%nat in Hs. by rewrite Hs. }
  assert (Nk : no_nul (text_of k) = true) by (unfold key_ok in Hk; cbn [fst] in Hk; unfold text_of; destruct (key_text k); [by apply andb_true_iff in Hk as [_ ?]|done]). cbn [fst snd] in *.
  change (pairs_bytes ((k, v) :: l)) with (element (text_of k) (value_type v) (value_bytes v) ++ pairs_bytes l) in *. set (kt := text_of k) in *. set (rest := pairs_bytes l) in *.
  unfold element in *. cbn [app length] in *. rewrite <- app_assoc in *. cbn [app] in *. rewrite !length_app in *. cbn [length] in *. rewrite !length_app in *. destruct (Z.eqb_spec (r_size t) 0); [lia|].
  assert (Hr : 0 <= r_ptr t) by (destruct G as [H0 _]; apply holds_length in H0; lia). apply read_byte_ok in G as [-> G]. destruct (read_cstring_ok mem _ kt _ Nk G) as [-> G1]. pose proof (gets_app mem _ _ _ G1) as [Gv G2]. rewrite (skip_value depth v _ Hv Gv). rewrite !adv_adv in *.
  replace (1 + (Z.of_nat (length kt) + 1 + Z.of_nat (length (value_bytes v)))) with (1 + (Z.of_nat (length kt) + 1) + Z.of_nat (length (value_bytes v))) in G2 by lia.
  replace (r_ptr t + Z.of_nat (length kt) + 2) with (r_ptr t + (1 + (Z.of_nat (length kt) + 1))) by lia.
  destruct (Z.ltb_spec 0 (fixed_size (value_type v))) as [P|P].
  - pose proof (fixed_type _ P). pose proof (value_fixed depth v Hv P) as Lv. cbn [adv r_ptr]. unfold BSON_TYPE_SHIFT. rewrite Z.shiftl_mul_pow2 by lia. change (2 ^ 26) with 67108864 in Hp. change (2 ^ 5) with 32.
    rewrite int_Ok by (unfold INT_MAX; lia). destruct (read_bytes_ok mem _ _ _ (fixed_size (value_type v)) (eq_sym Lv) G1) as [-> G3]. rewrite !adv_adv in *. rewrite IH; [|simpl; lia|by rewrite Lv in G2|lia|simpl; lia].
    cbn [adv r_ptr]. change 32 with (2 ^ 5) at 1. rewrite lor_fields by (change (2 ^ 5) with 32; lia). change (2 ^ 5) with 32. do 3 f_equal; [f_equal; lia|lia].
  - rewrite IH; [|simpl; lia|exact G2|lia|simpl; lia]. cbn [adv r_ptr]. do 2 f_equal. lia.
Qed.
End index.

(** ** The field of a key *)

Lemma pairs_bytes_app l1 l2 : pairs_bytes (l1 ++ l2) = pairs_bytes l1 ++ pairs_bytes l2.
Proof. unfold pairs_bytes, elements. by rewrite !map_app, concat_app. Qed.

Lemma index_of_app off l1 l2 : index_of off (l1 ++ l2) = index_of off l1 ++ index_of (off + Z.of_nat (length (pairs_bytes l1))) l2.
Proof.
  revert off. induction l1 as [|[k v] l1 IH]; intros off; cbn [app index_of].
  - change (length (pairs_bytes [])) with 0%nat. by rewrite Z.add_0_r.
  - change (pairs_bytes ((k, v) :: l1)) with (element (text_of k) (value_type v) (value_bytes v) ++ pairs_bytes l1). unfold element. rewrite length_app. cbn [length]. rewrite length_app. cbn [length]. rewrite IH.
    replace (off + Z.of_nat (length (text_of k)) + 2 + Z.of_nat (length (value_bytes v)) + Z.of_nat (length (pairs_bytes l1))) with
      (off + Z.of_nat (S (length (text_of k) + S (length (value_bytes v))) + length (pairs_bytes l1))) by lia. by destruct (0 <? _).
Qed.

Lemma table_get_app a b k : table_get (a ++ b) k = match table_get b k with Some id => Some id | None => table_get a k end.
Proof. induction a as [|[k' id] a IH]; cbn [app table_get]; [by destruct (table_get b k)|]. rewrite IH. by destruct (table_get b k). Qed.

Lemma table_get_none off l k : Forall (fun kv => text_of kv.1 <> k) l -> table_get (index_of off l) k = None.
Proof.
  intros F. revert off. induction F as [|[k' v] l N _ IH]; intros off; cbn [index_of]; [done|]. destruct (0 <? _); [|apply IH]. cbn [table_get]. rewrite IH. by rewrite bool_decide_eq_false_2.
Qed.

Lemma store_bytes_splice l b : 0 <= b_size b -> b_size b + Z.of_nat (length l) <= Z.of_nat (length (b_ptr b)) ->
  store_bytes b l = Ok (MkBson (b_size b + Z.of_nat (length l)) (b_cap b) (splice (b_ptr b) (Z.to_nat (b_size b)) l)).
Proof.
  revert b. induction l as [|v l IH]; intros [size cap ptr] H L; cbn [store_bytes length b_size b_ptr b_cap] in *; [rewrite splice_nil, Z.add_0_r; done|].
  rewrite aset_splice by lia. cbn [lift]. rewrite IH; cbn [b_size b_ptr b_cap]; [|lia|rewrite splice_length by (simpl; lia); lia].
  replace (Z.to_nat (size + 1)) with (Z.to_nat size + length [v])%nat by (simpl; lia). rewrite splice_splice by (simpl; lia). do 2 f_equal. lia.
Qed.

(** [n] bytes over a field. *)
Lemma write_over size p n s : 0 <= size -> n = Z.of_nat (length s) -> size + n <= 16 -> size + n <= Z.of_nat (length p) ->
  (let* b := bson_reserve (MkBson size 16 p) n in store_bytes b s) = Ok (MkBson (size + n) 16 (splice p (Z.to_nat size) s)).
Proof.
  intros H -> H1 H2. unfold bson_reserve. cbn [b_size b_cap b_ptr]. rewrite int_Ok by (unfold INT_MAX; lia). destruct (Z.leb_spec (size + Z.of_nat (length s)) 16); [|lia]. by rewrite store_bytes_splice.
Qed.

(** ** Replacing *)

Section replace.
(** What is relied on of [luaL_checknumber]: a float is itself. *)
Context (checknumber : value -> option Z) (checknumber_real : forall bits, checknumber (Real bits) = Some bits).

Lemma write_field_ok depth v p : value_ok depth v = true -> 0 < fixed_size (value_type v) -> Z.of_nat (length (value_bytes v)) <= Z.of_nat (length p) ->
  exists b, write_field checknumber (value_type v) v (MkBson 0 16 p) = Ok b /\ b_ptr b = splice p 0 (value_bytes v).
Proof.
  intros H P L. pose proof (value_fixed depth v H P) as Lv. assert (L' : fixed_size (value_type v) <= Z.of_nat (length p)) by lia. destruct v as [bits|n|x|s|d|l|l| |]; cbn [value_type value_bytes value_ok] in *; try done.
  - change (write_field checknumber BSON_REAL (Real bits) (MkBson 0 16 p)) with (match checknumber (Real bits) with Some bits => write_double (MkBson 0 16 p) bits | None => Raise (Text "number expected") end).
    change (fixed_size BSON_REAL) with 8 in L'. rewrite checknumber_real. eexists. split; [exact (write_over 0 p 8 (word_bytes64 bits) ltac:(done) ltac:(done) ltac:(done) ltac:(lia))|done].
  - destruct (is_32bit n) eqn:E.
    + change (fixed_size BSON_INT32) with 4 in L'. change (write_field checknumber BSON_INT32 (Integer n) (MkBson 0 16 p)) with (write_int32 (MkBson 0 16 p) (i32 n)). unfold is_32bit, INT_MAX in E. rewrite i32_small by lia. 
      eexists. split; [exact (write_over 0 p 4 (word_bytes32 n) ltac:(done) ltac:(done) ltac:(done) ltac:(lia))|done].
    + change (fixed_size BSON_INT64) with 8 in L'. change (write_field checknumber BSON_INT64 (Integer n) (MkBson 0 16 p)) with (write_int64 (MkBson 0 16 p) n). eexists. split; [exact (write_over 0 p 8 (word_bytes64 n) ltac:(done) ltac:(done) ltac:(done) ltac:(lia))|done].
  - change (write_field checknumber BSON_BOOLEAN (Boolean x) (MkBson 0 16 p)) with (write_byte (MkBson 0 16 p) (if x then 1 else 0)). unfold write_byte. replace (u8 (if x then 1 else 0)) with (if x then 1 else 0) by (by destruct x).
    rewrite (write_over 0 p 1 [if x then 1 else 0]) by (done || (simpl; lia)). by eexists.
  - destruct s as [|[|q|q] [|subt body]]; try done. apply andb_true_iff in H as [F%bytes_ok_Forall S]. unfold special_bytes in *.
    destruct (Z.eqb_spec subt BSON_BINARY) as [->|N1]; [done|]. destruct (Z.eqb_spec subt BSON_OBJECTID) as [->|N2].
    { change (BSON_OBJECTID =? BSON_DATE) with false in *. cbv iota in *. change (write_field checknumber BSON_OBJECTID (Str (0 :: BSON_OBJECTID :: body)) (MkBson 0 16 p)) with
        (if (Z.of_nat (length body) <? 4) || false || false then Raise (Text "Type mismatch") else if negb (Z.of_nat (length body) =? 12) then Raise (Text "Invalid object id") else
         let* p := lift (memcpy_at p 0 body) in Ok (MkBson 0 16 p)).
      destruct (Z.ltb_spec (Z.of_nat (length body)) 4); [lia|]. rewrite S. cbn [orb negb]. rewrite memcpy_at_splice by lia. by eexists. }
    destruct (Z.eqb_spec subt BSON_DATE) as [->|N3].
    { change (fixed_size BSON_DATE) with 8 in L'. change (Z.of_nat (length body) =? 4 = true) in S. destruct (load_bytes body F) as (v & E & W & R); [lia|]. change (write_field checknumber BSON_DATE (Str (0 :: BSON_DATE :: body)) (MkBson 0 16 p)) with
        (if (Z.of_nat (length body) <? 4) || false || false then Raise (Text "Type mismatch") else if negb (Z.of_nat (length body) =? 4) then Raise (Text "Invalid date") else
         let* ts := lift (load_uint32 body 0) in write_int64 (MkBson 0 16 p) (ts * 1000)).
      destruct (Z.ltb_spec (Z.of_nat (length body)) 4); [lia|]. rewrite S. cbn [orb negb]. rewrite E in *. cbn [lift default] in *. rewrite Z.mul_comm.
      eexists. split; [exact (write_over 0 p 8 (word_bytes64 (1000 * v)) ltac:(done) ltac:(done) ltac:(done) ltac:(lia))|done]. }
    destruct ((subt =? BSON_JSCODE) || (subt =? BSON_SYMBOL)) eqn:E1; [unfold BSON_JSCODE, BSON_SYMBOL in E1; assert (subt = 13 \/ subt = 14) as [-> | ->] by lia; done|].
    destruct (Z.eqb_spec subt BSON_DBPOINTER) as [->|N5]; [done|]. destruct (Z.eqb_spec subt BSON_CODEWS) as [->|N6]; [done|]. destruct (Z.eqb_spec subt BSON_TIMESTAMP) as [->|N7].
    { assert (length body = 8%nat) as L8 by lia. rewrite <- (take_drop 4 body) in F. apply Forall_app in F as [F1 F2].
      destruct (load_bytes _ F1) as (v & _ & W & R); [rewrite length_take; lia|]. destruct (load_bytes _ F2) as (v' & _ & W' & R'); [rewrite length_drop; lia|].
      assert (Eb : body = word_of v ++ word_of v') by (by rewrite W, W', take_drop). change (write_field checknumber BSON_TIMESTAMP (Str (0 :: BSON_TIMESTAMP :: body)) (MkBson 0 16 p)) with
        (if (Z.of_nat (length body) <? 4) || false || false then Raise (Text "Type mismatch") else if negb (Z.of_nat (length body) =? 8) then Raise (Text "Invalid timestamp") else
         let* inc := lift (load_uint32 body 0) in let* ts := lift (load_uint32 body 4) in let* bs := write_int32 (MkBson 0 16 p) inc in write_int32 bs ts).
      destruct (Z.ltb_spec (Z.of_nat (length body)) 4); [lia|]. rewrite S. cbn [orb negb]. rewrite (load_word body 0 v R) by (exists [], (word_of v'); by rewrite Eb). cbn [lift].
      rewrite (load_word body 4 v' R') by (exists (word_of v), []; rewrite app_nil_r; by split). cbn [lift]. 
      assert (W1 : write_int32 (MkBson 0 16 p) v = Ok (MkBson 4 16 (splice p 0 (word_of v)))) by (unfold write_int32; rewrite word_back by done; apply (write_over 0 p 4 (word_of v)); done || lia).
      assert (W2 : write_int32 (MkBson 4 16 (splice p 0 (word_of v))) v' = Ok (MkBson 8 16 (splice (splice p 0 (word_of v)) 4 (word_of v')))).
      { unfold write_int32. rewrite word_back by done. apply (write_over 4 _ 4 (word_of v')); try done. rewrite splice_length by (change (length (word_of v)) with 4%nat; lia). lia. }
      rewrite W1, W2. eexists. split; [done|]. cbn [b_ptr]. rewrite Eb. by apply (splice_splice p 0 (word_of v) (word_of v')); change (length (word_of v)) with 4%nat; lia. }
    destruct (Z.eqb_spec subt BSON_REGEX) as [->|N8]; [done|]. apply andb_true_iff in S as [S _]. unfold BSON_MINKEY, BSON_MAXKEY, BSON_NULL in S. assert (subt = 255 \/ subt = 127 \/ subt = 10) as [-> | [-> | ->]] by lia; done.
Qed.

Lemma document_pairs l : document l = framed (pairs_bytes l).
Proof. done. Qed.

Lemma framed_length body : Z.of_nat (length (framed body)) = Z.of_nat (length body) + 5.
Proof. unfold framed. rewrite !length_app. change (length (word_bytes32 _)) with 4%nat. simpl. lia. Qed.

(** The index of what [lencode] has written. *)
Lemma lmakeindex_ok l : pairs_ok l = true -> Z.of_nat (length (document l)) < 2 ^ 26 -> lmakeindex (document l) = Ok (index_of 4 l).
Proof.
  intros H L. rewrite document_pairs in *. set (body := pairs_bytes l). pose proof (framed_length body) as Lb. fold body in L. change (2 ^ 26) with 67108864 in L. unfold lmakeindex.
  assert (Hd : holds (framed body) 0 (framed body)) by (exists [], []; by rewrite app_nil_r). pose proof Hd as Hw. unfold framed in Hw at 2. apply holds_app in Hw as [Hw Hb]. apply holds_app in Hb as [Hb _]. change (0 + Z.of_nat (length (word_bytes32 _))) with 4 in Hb.
  rewrite (load_word _ 0 _ (u32_range _) Hw). cbn [lift]. rewrite u32_small, i32_small by lia. rewrite int_Ok by (unfold INT_MAX; lia).
  apply (index_loop_ok (framed body) l); [|simpl; fold body; lia|split; [exact Hb|simpl; fold body; unfold INT_MAX; lia]|fold body; lia|simpl; fold body; change (2 ^ 26) with 67108864; lia].
  apply forallb_Forall_true in H. eapply Forall_impl; [exact H|]. intros [k v] [O1 O2]%andb_true_iff. split; [done|by exists 0].
Qed.

Lemma replaced_document l1 k v v' l2 : length (value_bytes v') = length (value_bytes v) -> value_type v' = value_type v ->
  let at_ := (4 + length (pairs_bytes l1) + length (text_of k) + 2)%nat in
  document (l1 ++ (k, v) :: l2) = take at_ (document (l1 ++ (k, v) :: l2)) ++ drop at_ (document (l1 ++ (k, v) :: l2)) /\
  document (l1 ++ (k, v') :: l2) = splice (document (l1 ++ (k, v) :: l2)) at_ (value_bytes v') /\ (at_ + length (value_bytes v) <= length (document (l1 ++ (k, v) :: l2)))%nat.
Proof.
  intros E T at_. split; [by rewrite take_drop|]. rewrite !document_pairs, !pairs_bytes_app. change (pairs_bytes ((k, v) :: l2)) with (element (text_of k) (value_type v) (value_bytes v) ++ pairs_bytes l2).
  change (pairs_bytes ((k, v') :: l2)) with (element (text_of k) (value_type v') (value_bytes v') ++ pairs_bytes l2). rewrite T.
  assert (A : forall w, length (value_bytes w) = length (value_bytes v) -> framed (pairs_bytes l1 ++ element (text_of k) (value_type v) (value_bytes w) ++ pairs_bytes l2) =
    (word_bytes32 (Z.of_nat (length (pairs_bytes l1 ++ element (text_of k) (value_type v) (value_bytes v) ++ pairs_bytes l2)) + 5) ++ pairs_bytes l1 ++ value_type v :: text_of k ++ [0]) ++ value_bytes w ++ pairs_bytes l2 ++ [0]).
  { intros w Ew. unfold framed, element. cbn [app]. rewrite !length_app. cbn [length]. rewrite !length_app. cbn [length]. rewrite Ew. rewrite <- !app_assoc. cbn [app]. rewrite <- !app_assoc. cbn [app]. by rewrite <- !app_assoc. }
  rewrite (A v eq_refl), (A v' E). set (hd := word_bytes32 _ ++ _). assert (Lh : length hd = at_).
  { unfold hd, at_. rewrite !length_app. change (length (word_bytes32 _)) with 4%nat. cbn [length]. rewrite length_app. simpl. lia. }
  rewrite <- Lh. split; [symmetry; by eapply splice_mid|]. rewrite !length_app. lia.
Qed.

(** A field is replaced in place. In a document of [lencode] below 64 MB, [lmakeindex] finds the fields of fixed size; setting one of them, the last of its key, to a value of its type makes of the
    document the one [lencode] writes for the new value, every other field as it was and nothing written outside the field. *)
Theorem bson_replace l1 k v v' l2 : pairs_ok (l1 ++ (k, v) :: l2) = true -> value_ok 0 v' = true -> value_type v' = value_type v -> 0 < fixed_size (value_type v) ->
  Forall (fun kv => text_of kv.1 <> text_of k) l2 -> Z.of_nat (length (document (l1 ++ (k, v) :: l2))) < 2 ^ 26 ->
  exists index, lmakeindex (document (l1 ++ (k, v) :: l2)) = Ok index /\
    lreplace checknumber (document (l1 ++ (k, v) :: l2)) index (text_of k) v' = Ok (document (l1 ++ (k, v') :: l2)).
Proof.
  intros H H' T P N L. exists (index_of 4 (l1 ++ (k, v) :: l2)). split; [by apply lmakeindex_ok|]. assert (Hv : value_ok 0 v = true).
  { apply forallb_Forall_true, Forall_app in H as [_ H]. apply Forall_cons in H as [[_ H]%andb_true_iff _]. exact H. }
  pose proof (value_fixed 0 v Hv P) as Lv. pose proof (value_fixed 0 v' H' ltac:(by rewrite T)) as Lv'. rewrite T, <- Lv in Lv'. apply Nat2Z.inj in Lv'.
  destruct (replaced_document l1 k v v' l2 Lv' T) as (_ & Ed & Ld). set (at_ := (4 + length (pairs_bytes l1) + length (text_of k) + 2)%nat) in *. set (doc := document (l1 ++ (k, v) :: l2)) in *.
  pose proof (fixed_type _ P) as Ht. unfold lreplace. rewrite index_of_app, table_get_app. cbn [index_of]. destruct (Z.ltb_spec 0 (fixed_size (value_type v))); [|lia]. cbn [table_get]. rewrite table_get_none by done. rewrite bool_decide_eq_true_2 by done.
  replace (4 + Z.of_nat (length (pairs_bytes l1)) + Z.of_nat (length (text_of k)) + 2) with (Z.of_nat at_) by (unfold at_; lia). unfold BSON_TYPE_SHIFT.
  rewrite land_low by lia. rewrite Z.shiftr_div_pow2 by lia. change (2 ^ 5) with 32. replace ((value_type v + 32 * Z.of_nat at_) mod 32) with (value_type v) by (Z.div_mod_to_equations; lia).
  replace ((value_type v + 32 * Z.of_nat at_) / 32) with (Z.of_nat at_) by (Z.div_mod_to_equations; lia). destruct (Z.ltb_spec (Z.of_nat at_) 0); [lia|]. destruct (Z.ltb_spec (Z.of_nat (length doc)) (Z.of_nat at_)); [lia|]. cbn [orb].
  rewrite Nat2Z.id. destruct (write_field_ok 0 v' (drop at_ doc) H') as (b & Eb & Ep); [by rewrite T|rewrite length_drop; lia|]. rewrite T in Eb. rewrite Eb, Ep, Ed. f_equal. unfold splice. simpl. rewrite drop_drop. by rewrite Nat.add_comm.
Qed.
End replace.

(** The [Integer] of [sample], with another field behind it. *)
Lemma bson_replace_witness : let ck v := match v with Real bits => Some bits | _ => None end in
  ((forall bits, ck (Real bits) = Some bits) /\ pairs_ok sample = true /\ value_ok 0 (Integer 7) = true /\ Forall (fun kv => text_of kv.1 <> text_of (KStr [97])) (tail sample) /\ Z.of_nat (length (document sample)) < 2 ^ 26) /\
  exists index, lmakeindex (document sample) = Ok index /\ lreplace ck (document sample) index [97] (Integer 7) = Ok (document ((KStr [97], Integer 7) :: tail sample)).
Proof.
  intros ck. assert (C : forall bits, ck (Real bits) = Some bits) by done. assert (H : pairs_ok sample = true) by reflexivity. assert (L : Z.of_nat (length (document sample)) < 2 ^ 26) by reflexivity.
  assert (N : Forall (fun kv => text_of kv.1 <> text_of (KStr [97])) (tail sample)) by (repeat constructor; discriminate).
  split; [repeat split; done|]. exact (bson_replace ck C [] (KStr [97]) (Integer 5) (Integer 7) (tail sample) H eq_refl eq_refl ltac:(done) N L).
Defined.
