(* ===== verification/ShareData.v ===== *)
(** * Shared configuration ([lualib-src/lua-sharedata.c])

    A Lua table is copied once into C tables that all the services of the process read: the array part as an array, the rest in a hash table with as many slots as keys, in which a key that does not get
    the slot of its hash is chained to the one that has.  Strings are kept in a Lua state, by an index on its stack.

    Memory allocation succeeds, and the table has fewer strings and is nested less deeply than the stacks of Lua allow. *)

From S2P Require Import Prelude CString LuaError.

(** ** The table to copy *)

(** What a float, a table or another object is does not matter for a key. *)
Inductive lkey := KInt (n : Z) | KStr (s : list Z) | KFloat | KTable | KOther.

(** A table is its [lua_rawlen] and its pairs in the order of [lua_next]; a float is its 64 bits; [LOther] is a function, a userdata or a thread. *)
Inductive lua_value := LNil | LInteger (n : Z) | LReal (bits : Z) | LString (s : list Z) | LBoolean (b : bool) | LTable (rawlen : Z) (pairs : list (lkey * lua_value)) | LOther.

(** ** The copy *)

Definition KEYTYPE_INTEGER : Z := 0.
Definition KEYTYPE_STRING : Z := 1.

(** [struct table] with [array] and [arraytype] in one list, [struct node], [union value] with its type.  A slot of the hash table whose fields have not been set is [None]; [VString] is the index of
    a string. *)
Inductive cvalue := VNil | VReal (bits : Z) | VString (index : Z) | VBoolean (b : bool) | VTable (t : table) | VInteger (n : Z)
with table := MkTable (t_array : list cvalue) (t_hash : list (option node))
with node := MkNode (n_v : cvalue) (n_key n_next n_keyhash n_keytype : Z) (n_nocolliding : bool).

Definition t_array (t : table) : list cvalue := let 'MkTable a _ := t in a.
Definition t_hash (t : table) : list (option node) := let 'MkTable _ h := t in h.
Definition sizearray (t : table) : Z := Z.of_nat (length (t_array t)).
Definition sizehash (t : table) : Z := Z.of_nat (length (t_hash t)).

Definition n_v (n : node) : cvalue := let 'MkNode v _ _ _ _ _ := n in v.
Definition n_key (n : node) : Z := let 'MkNode _ k _ _ _ _ := n in k.
Definition n_next (n : node) : Z := let 'MkNode _ _ x _ _ _ := n in x.
Definition n_keyhash (n : node) : Z := let 'MkNode _ _ _ h _ _ := n in h.
Definition n_keytype (n : node) : Z := let 'MkNode _ _ _ _ t _ := n in t.
Definition n_nocolliding (n : node) : bool := let 'MkNode _ _ _ _ _ c := n in c.

(** [valuetype == VALUETYPE_NIL]. *)
Definition vt_nil (v : cvalue) : bool := match v with VNil => true | _ => false end.
Definition slot_nil (s : option node) : bool := match s with Some n => vt_nil (n_v n) | None => true end.

(** ** Strings *)

(** The strings from index 2 on, in the order they came; [string_index] is one more than their number. *)
Definition strings : Type := list (list Z).

Fixpoint index_in (l : strings) (s : list Z) : option nat :=
  match l with [] => None | x :: l => if bool_decide (x = s) then Some 0%nat else S <$> index_in l s end.

Definition stringindex (sm : strings) (s : list Z) : Z * strings :=
  match index_in sm s with Some i => (Z.of_nat i + 2, sm) | None => (Z.of_nat (length sm) + 2, sm ++ [s]) end.

(** [lua_tolstring(sL, index)]. *)
Definition string_at (sm : strings) (index : Z) : option (list Z) := aget sm (index - 2).

Fixpoint hash_loop (fuel : nat) (str : list Z) (l1 step h : Z) : Z :=
  match fuel with
  | O => h
  | S fuel =>
    if l1 <? step then h else
    let c := default 0 (aget str (l1 - 1)) in
    hash_loop fuel str (l1 - step) step (Z.lxor h (u32 (u32 (Z.shiftl h 5) + Z.shiftr h 2 + c)))
  end.

Definition calchash (str : list Z) : Z :=
  let l := Z.of_nat (length str) in
  hash_loop (length str) str l (Z.shiftr l 5 + 1) (u32 l).

(** ** Copying *)

(** The number of keys that are not in the array. *)
Fixpoint countsize (pairs : list (lkey * lua_value)) (sizearray : Z) : res Z :=
  match pairs with
  | [] => Ok 0
  | (k, _) :: pairs =>
    let* one :=
      match k with
      | KInt nkey => Ok (if (0 <? nkey) && (nkey <=? sizearray) then 0 else 1)
      | KStr _ | KTable => Ok 1
      | KFloat => Raise (Text "Invalid key")
      | KOther => Raise (Text "Invalid key type")
      end in
    let* n := countsize pairs sizearray in int (n + one)
  end.

(** The array index of a key, or key, hash and type for the hash table. *)
Definition ishashkey (sizearray : Z) (k : lkey) (sm : strings) : res ((Z + Z * Z * Z) * strings) :=
  let text s := let '(index, sm) := stringindex sm s in Ok (inr (index, calchash s, KEYTYPE_STRING), sm) in
  match k with
  | KInt n => let key := i32 n in if (0 <? key) && (key <=? sizearray) then Ok (inl key, sm) else Ok (inr (key, u32 key, KEYTYPE_INTEGER), sm)
  | KStr s => text s
  | KTable => text []
  | KFloat | KOther => Stuck
  end.

Record filling := MkFill { f_strings : strings; f_array : list cvalue; f_hash : list (option node) }.

Section fill.
Context (setvalue : lua_value -> strings -> res (cvalue * strings)).

Definition setarray (st : filling) (v : lua_value) (key : Z) : res filling :=
  let* (cv, sm) := setvalue v (f_strings st) in
  let* array := lift (aset (f_array st) (key - 1) cv) in
  Ok (MkFill sm array (f_hash st)).

(** The slot of a hash; the table is not empty. *)
Definition mainpos (st : filling) (keyhash : Z) : Z := keyhash mod Z.of_nat (length (f_hash st)).

(** One pair in [fillnocolliding]. *)
Definition fill_main (st : filling) (k : lkey) (v : lua_value) : res filling :=
  let* (pos, sm) := ishashkey (Z.of_nat (length (f_array st))) k (f_strings st) in
  let st := MkFill sm (f_array st) (f_hash st) in
  match pos with
  | inl key => setarray st v key
  | inr (key, keyhash, keytype) =>
    let* slot := lift (aget (f_hash st) (mainpos st keyhash)) in
    if slot_nil slot then
      let* (cv, sm) := setvalue v (f_strings st) in
      let* hash := lift (aset (f_hash st) (mainpos st keyhash) (Some (MkNode cv key (-1) keyhash keytype true))) in
      Ok (MkFill sm (f_array st) hash)
    else Ok st
  end.

Fixpoint fillnocolliding (pairs : list (lkey * lua_value)) (st : filling) : res filling :=
  match pairs with [] => Ok st | (k, v) :: pairs => let* st := fill_main st k v in fillnocolliding pairs st end.

(** The first slot without a value. *)
Fixpoint first_nil (h : list (option node)) : option nat :=
  match h with [] => None | s :: h => if slot_nil s then Some 0%nat else S <$> first_nil h end.

(** One pair in [fillcolliding]; a slot that is not set cannot be read. *)
Definition fill_collided (st : filling) (k : lkey) (v : lua_value) : res filling :=
  let* (pos, sm) := ishashkey (Z.of_nat (length (f_array st))) k (f_strings st) in
  let st := MkFill sm (f_array st) (f_hash st) in
  match pos with
  | inl _ => Ok st
  | inr (key, keyhash, keytype) =>
    let p := mainpos st keyhash in
    let* slot := lift (aget (f_hash st) p) in
    let* main := lift slot in
    if (n_keytype main =? keytype) && (n_key main =? key) then Ok st else
    let* e := lift (first_nil (f_hash st)) in
    let main' := MkNode (n_v main) (n_key main) (Z.of_nat e) (n_keyhash main) (n_keytype main) false in
    let* hash := lift (aset (f_hash st) p (Some main')) in
    let* (cv, sm) := setvalue v (f_strings st) in
    let* hash := lift (aset hash (Z.of_nat e) (Some (MkNode cv key (n_next main) keyhash keytype false))) in
    Ok (MkFill sm (f_array st) hash)
  end.

Fixpoint fillcolliding (pairs : list (lkey * lua_value)) (st : filling) : res filling :=
  match pairs with [] => Ok st | (k, v) :: pairs => let* st := fill_collided st k v in fillcolliding pairs st end.

(** [lua_rawgeti] and [setarray]; there is nothing to copy for nil. *)
Fixpoint copy_item (pairs : list (lkey * lua_value)) (i : Z) (sm : strings) : res (cvalue * strings) :=
  match pairs with
  | [] => Ok (VNil, sm)
  | (k, v) :: pairs => if match k with KInt n => n =? i | _ => false end then setvalue v sm else copy_item pairs i sm
  end.

Definition copy_array (pairs : list (lkey * lua_value)) : nat -> Z -> filling -> res filling :=
  fix loop n i st :=
    match n with
    | O => Ok st
    | S n =>
      let* (cv, sm) := copy_item pairs i (f_strings st) in
      let* array := lift (aset (f_array st) (i - 1) cv) in
      loop n (i + 1) (MkFill sm array (f_hash st))
    end.

Definition convtable (rawlen : Z) (pairs : list (lkey * lua_value)) (sm : strings) : res (table * strings) :=
  let* sizearray := int rawlen in
  let array := replicate (Z.to_nat sizearray) VNil in
  let* sizehash := countsize pairs sizearray in
  let st := MkFill sm array (replicate (Z.to_nat sizehash) None) in
  let* st := if negb (sizehash =? 0) then let* st := fillnocolliding pairs st in fillcolliding pairs st else copy_array pairs (Z.to_nat sizearray) 1 st in
  Ok (MkTable (f_array st) (f_hash st), f_strings st).
End fill.

Fixpoint setvalue (v : lua_value) (sm : strings) : res (cvalue * strings) :=
  match v with
  | LNil => Ok (VNil, sm)
  | LInteger n => Ok (VInteger n, sm)
  | LReal bits => Ok (VReal bits, sm)
  | LString s => let '(index, sm) := stringindex sm s in Ok (VString index, sm)
  | LBoolean b => Ok (VBoolean b, sm)
  | LTable rawlen pairs => let* (t, sm) := convtable setvalue rawlen pairs sm in Ok (VTable t, sm)
  | LOther => Raise (Text "Unsupport value type")
  end.

(** The table and the strings, which [convert_stringmap] has put on the stack. *)
Definition lnewconf (rawlen : Z) (pairs : list (lkey * lua_value)) : res (table * strings) := convtable setvalue rawlen pairs [].

(** ** Reading *)

(** What is pushed: [PTable] is a light userdata; no value is nil. *)
Inductive pushed := PNil | PReal (bits : Z) | PInteger (n : Z) | PString (s : list Z) | PBoolean (b : bool) | PTable (t : table).

Section read.
Context (sm : strings) (t : table).

Definition pushvalue (v : cvalue) : res pushed :=
  match v with
  | VReal n => Ok (PReal n)
  | VInteger n => Ok (PInteger n)
  | VString i => let* s := lift (string_at sm i) in Ok (PString s)
  | VBoolean b => Ok (PBoolean b)
  | VTable t => Ok (PTable t)
  | VNil => Ok PNil
  end.

(** The comparison in [lookup_key], for a node that has the hash. *)
Definition same_key (n : node) (key keytype : Z) (str : list Z) : res bool :=
  if n_keytype n =? KEYTYPE_INTEGER then Ok ((keytype =? KEYTYPE_INTEGER) && (n_key n =? key))
  else if keytype =? KEYTYPE_STRING then let* str2 := lift (string_at sm (n_key n)) in Ok (bool_decide (str = str2)) else Ok false.

(** The node at a slot; its fields are read. *)
Definition node_at (i : Z) : res node := let* slot := lift (aget (t_hash t) i) in lift slot.

Fixpoint key_loop (fuel : nat) (i keyhash key keytype : Z) (str : list Z) : res (option Z) :=
  match fuel with
  | O => Stuck
  | S fuel =>
    let* n := node_at i in
    let* same := if keyhash =? n_keyhash n then same_key n key keytype str else Ok false in
    if same : bool then Ok (Some i) else
    if n_next n <? 0 then Ok None else key_loop fuel (n_next n) keyhash key keytype str
  end.

(** The slot of the key. *)
Definition lookup_key (keyhash key keytype : Z) (str : list Z) : res (option Z) :=
  if sizehash t =? 0 then Ok None else
  let i := keyhash mod sizehash t in
  let* n := node_at i in
  if negb (keyhash =? n_keyhash n) && n_nocolliding n then Ok None else key_loop (length (t_hash t)) i keyhash key keytype str.

Definition lindexconf (k : lkey) : res pushed :=
  let hash keyhash key keytype str :=
    let* i := lookup_key keyhash key keytype str in
    match i with Some i => let* n := node_at i in pushvalue (n_v n) | None => Ok PNil end in
  match k with
  | KInt n =>
    let key := i32 n in
    if (0 <? key) && (key <=? sizearray t) then let* v := lift (aget (t_array t) (key - 1)) in pushvalue v
    else hash (u32 key) key KEYTYPE_INTEGER []
  | KStr s => hash (calchash s) 0 KEYTYPE_STRING s
  | KFloat => Raise (Text "Invalid key")
  | KTable | KOther => Raise (Text "string expected")
  end.

Definition pushkey (n : node) : res lkey := if n_keytype n =? KEYTYPE_INTEGER then Ok (KInt (n_key n)) else let* s := lift (string_at sm (n_key n)) in Ok (KStr s).

Definition pushfirsthash : res (option lkey) := if sizehash t =? 0 then Ok None else let* n := node_at 0 in let* k := pushkey n in Ok (Some k).

(** The first item of the array from index [i] on, counted from 0. *)
Fixpoint first_item (l : list cvalue) (i : Z) : option Z :=
  match l with [] => None | v :: l => if vt_nil v then first_item l (i + 1) else Some (i + 1) end.
Definition next_item (i : Z) : option Z := first_item (drop (Z.to_nat i) (t_array t)) i.

Definition lnextkey (k : option lkey) : res (option lkey) :=
  let array i := match next_item i with Some key => Ok (Some (KInt key)) | None => pushfirsthash end in
  let hash keyhash key keytype str :=
    let* i := lookup_key keyhash key keytype str in
    match i with
    | Some i => if i + 1 =? sizehash t then Ok None else let* n := node_at (i + 1) in let* k := pushkey n in Ok (Some k)
    | None => Ok None
    end in
  match k with
  | None => array 0
  | Some (KInt n) => let key := i32 n in if (0 <? key) && (key <=? sizearray t) then array key else hash (u32 key) key KEYTYPE_INTEGER []
  | Some (KStr s) => hash (calchash s) 0 KEYTYPE_STRING s
  | Some KFloat => Ok None
  | Some (KTable | KOther) => Raise (Text "string expected")
  end.

Definition llen : Z := sizearray t.
Definition lhashlen : Z := sizehash t.
End read.
