(* ===== verification/ShareHash.v ===== *)
(** * The hash table of shared configuration, as keys and links

    What [fillnocolliding] and [fillcolliding] of [ShareData] do to the slots, without the strings and the copies of the values: an entry is a key and its value with the links of the node.  When both
    loops are done every slot is taken, and every key is on the chain from the slot of its hash. *)

From S2P Require Import Prelude CString LuaError ShareData.

#[global] Instance lkey_eq_dec : EqDecision lkey.
Proof. solve_decision. Defined.

Record entry := MkEntry { e_key : lkey; e_val : lua_value; e_next : Z; e_nocolliding : bool }.
Notation slots := (list (option entry)).

(** The hash of a key. *)
Definition key_hash (k : lkey) : Z := match k with KInt n => u32 n | KStr s => calchash s | _ => 0 end.

Section slots.
(** The pairs that go to the hash table, which has as many slots. *)
Context (pairs : list (lkey * lua_value)) (distinct : NoDup pairs.*1) (some : pairs <> []).

Definition size : nat := length pairs.
Definition pos (k : lkey) : nat := Z.to_nat (key_hash k mod Z.of_nat size).

Lemma size_pos : (0 < size)%nat.
Proof. clear distinct. unfold size. destruct pairs; [done|simpl; lia]. Qed.

Lemma pos_lt k : (pos k < size)%nat.
Proof. pose proof size_pos. unfold pos. pose proof (Z.mod_pos_bound (key_hash k) (Z.of_nat size)). lia. Qed.

(** The two loops. *)
Definition main_step (g : slots) (kv : lkey * lua_value) : slots :=
  match g !! pos kv.1 with Some None => <[pos kv.1 := Some (MkEntry kv.1 kv.2 (-1) true)]> g | _ => g end.

Fixpoint first_none (g : slots) : option nat := match g with [] => None | None :: _ => Some 0%nat | Some _ :: g => S <$> first_none g end.

Definition rest_step (g : slots) (kv : lkey * lua_value) : slots :=
  match g !! pos kv.1 with
  | Some (Some m) =>
    if decide (e_key m = kv.1) then g else
    match first_none g with
    | Some e => <[e := Some (MkEntry kv.1 kv.2 (e_next m) false)]> (<[pos kv.1 := Some (MkEntry (e_key m) (e_val m) (Z.of_nat e) false)]> g)
    | None => g
    end
  | _ => g
  end.

Definition filled : slots := foldl rest_step (foldl main_step (replicate size None) pairs) pairs.

(** ** Chains *)

Inductive path (g : slots) : Z -> list nat -> Prop :=
  | path_end : path g (-1) []
  | path_at i e l : g !! i = Some (Some e) -> path g (e_next e) l -> path g (Z.of_nat i) (i :: l).

Definition has (g : slots) (i : nat) (e : entry) : Prop := g !! i = Some (Some e).

Record chained (g : slots) : Prop := {
  ch_size : length g = size;
  ch_pairs : forall i e, has g i e -> (e_key e, e_val e) ∈ pairs;
  ch_inj : forall i j e e', has g i e -> has g j e' -> e_key e = e_key e' -> i = j;
  ch_path : forall i e, has g i e -> exists l, path g (Z.of_nat i) l /\ NoDup l;
  ch_next : forall i e, has g i e -> e_next e = -1 \/ exists j e', e_next e = Z.of_nat j /\ has g j e' /\ pos (e_key e') <> j;
  ch_reach : forall i e, has g i e -> exists l, path g (Z.of_nat (pos (e_key e))) l /\ i ∈ l;
  ch_alone : forall i e, has g i e -> e_nocolliding e = true -> e_next e = -1;
}.

Lemma path_filled g z l i : path g z l -> i ∈ l -> exists e, has g i e.
Proof. induction 1 as [|j e l E _ IH]; intros H; [by apply elem_of_nil in H|]. apply elem_of_cons in H as [->|H]; [by exists e|by apply IH]. Qed.

Lemma path_head g i l : path g (Z.of_nat i) l -> exists e l', l = i :: l' /\ has g i e /\ path g (e_next e) l'.
Proof. intros H. remember (Z.of_nat i) as z eqn:Ez. destruct H as [|j e l E P]; [lia|]. apply Nat2Z.inj in Ez as ->. eauto. Qed.

Lemma path_unique g z l l' : path g z l -> path g z l' -> l = l'.
Proof.
  intros P. revert l'. induction P as [|i e l E P IH]; intros l' P'.
  - inversion P' as [|i e l0 E P0 Ez]; [done|]. lia.
  - destruct (path_head _ _ _ P') as (e' & l0 & -> & E' & P0). unfold has in E'. rewrite E in E'. injection E' as <-. f_equal. by apply IH.
Qed.

(** Behind its first slot a path has only slots that a link leads to. *)
Lemma path_linked g i l j : path g (Z.of_nat i) (i :: l) -> j ∈ l -> exists x e, has g x e /\ e_next e = Z.of_nat j.
Proof.
  intros H. remember (i :: l) as l0 eqn:El. remember (Z.of_nat i) as z eqn:Ez. clear Ez. revert i l El.
  induction H as [|x e l1 E P IH]; intros i l El Hj; [done|]. injection El as <- <-. destruct l1 as [|y l2]; [by apply elem_of_nil in Hj|].
  apply elem_of_cons in Hj as [->|Hj]; [|by apply (IH y l2)]. exists x, e. split; [done|]. by inversion P.
Qed.

(** ** The first loop *)

(** So far every entry is at the slot of its hash, alone. *)
Definition mains (g : slots) (done : list (lkey * lua_value)) : Prop :=
  length g = size /\
  (forall i e, has g i e -> pos (e_key e) = i /\ e_next e = -1 /\ e_nocolliding e = true /\ (e_key e, e_val e) ∈ done) /\
  (forall kv, kv ∈ done -> exists e, has g (pos kv.1) e).

Lemma main_step_mains g kv l : mains g l -> mains (main_step g kv) (l ++ [kv]).
Proof.
  intros (L & H & D). unfold main_step. destruct (lookup_lt_is_Some_2 g (pos kv.1)) as [o Eo]; [rewrite L; apply pos_lt|]. rewrite Eo. destruct o as [m|].
  - split; [done|]. split; [intros i e Hi; destruct (H i e Hi) as (? & ? & ? & ?); repeat split; try done; apply elem_of_app; by left|].
    intros kv' [Hk|Hk%list_elem_of_singleton]%elem_of_app; [by apply D|]. subst kv'. by exists m.
  - assert (Hp : (pos kv.1 < length g)%nat) by (rewrite L; apply pos_lt). split; [by rewrite length_insert|]. split.
    + intros i e Hi. destruct (decide (i = pos kv.1)) as [->|Ni].
      * unfold has in Hi. rewrite list_lookup_insert_eq in Hi by done. injection Hi as <-. cbn. repeat split; try done. apply elem_of_app. right. destruct kv. by apply list_elem_of_singleton.
      * unfold has in Hi. rewrite list_lookup_insert_ne in Hi by done. destruct (H i e Hi) as (? & ? & ? & ?). repeat split; try done. apply elem_of_app. by left.
    + intros kv' Hk. destruct (decide (pos kv'.1 = pos kv.1)) as [->|Np].
      * eexists. unfold has. by rewrite list_lookup_insert_eq.
      * apply elem_of_app in Hk as [Hk|Hk%list_elem_of_singleton]; [|by subst]. destruct (D _ Hk) as [e He]. exists e. unfold has. by rewrite list_lookup_insert_ne.
Qed.

Lemma foldl_mains g l l' : mains g l -> mains (foldl main_step g l') (l ++ l').
Proof.
  revert g l. induction l' as [|kv l' IH]; intros g l M; simpl; [by rewrite app_nil_r|]. rewrite (cons_middle kv l l'), app_assoc. apply IH. by apply main_step_mains.
Qed.

Lemma mains_pairs : mains (foldl main_step (replicate size None) pairs) pairs.
Proof.
  apply (foldl_mains _ []). split; [apply length_replicate|]. split; [|by intros kv ?%elem_of_nil]. intros i e H. unfold has in H. by apply lookup_replicate in H as [? _].
Qed.

Lemma mains_chained g : mains g pairs -> chained g.
Proof.
  intros (L & H & D). split; try done.
  - intros i e He. by destruct (H i e He) as (_ & _ & _ & ?).
  - intros i j e e' He He' E. destruct (H i e He) as (<- & _). destruct (H j e' He') as (<- & _). by rewrite E.
  - intros i e He. destruct (H i e He) as (_ & N & _). exists [i]. split; [|apply NoDup_singleton]. apply (path_at g i e []); [done|]. rewrite N. constructor.
  - intros i e He. left. apply (H i e He).
  - intros i e He. destruct (H i e He) as (E & N & _). exists [i]. rewrite E. split; [|by apply list_elem_of_singleton]. apply (path_at g i e []); [done|]. rewrite N. constructor.
  - intros i e He _. apply (H i e He).
Qed.

(** ** The second loop *)

Lemma first_none_some g e : first_none g = Some e -> g !! e = Some None.
Proof.
  revert e. induction g as [|[x|] g IH]; intros e; cbn [first_none]; [done| |by intros [= <-]]. destruct (first_none g) as [i|]; [|done]. intros [= <-]. by apply IH.
Qed.

Lemma first_none_none g i : first_none g = None -> (i < length g)%nat -> exists e, has g i e.
Proof.
  revert i. induction g as [|[x|] g IH]; intros i; cbn [first_none length]; [lia| |done]. destruct (first_none g); [done|]. intros _ Hi. destruct i as [|i]; [by exists x|]. apply IH; [done|lia].
Qed.

(** The entries' keys, in the order of the slots. *)
Definition keys (g : slots) : list lkey := e_key <$> omap id g.

Lemma elem_of_keys g k : k ∈ keys g <-> exists i e, has g i e /\ e_key e = k.
Proof.
  unfold keys, has. rewrite list_elem_of_fmap. split.
  - intros (e & -> & H). apply list_elem_of_omap in H as (o & H & Ho). simpl in Ho. subst o. apply list_elem_of_lookup in H as [i H]. eauto.
  - intros (i & e & H & <-). exists e. split; [done|]. apply list_elem_of_omap. exists (Some e). split; [by eapply list_elem_of_lookup_2|done].
Qed.

Lemma keys_nodup g : (forall i j e e', has g i e -> has g j e' -> e_key e = e_key e' -> i = j) -> NoDup (keys g).
Proof.
  unfold has. induction g as [|[x|] g IH]; intros H; [constructor| |].
  - unfold keys. cbn [omap list_omap id fmap list_fmap]. constructor.
    + intros (i & e & He & Hk)%elem_of_keys. by pose proof (H 0%nat (S i) x e eq_refl He (eq_sym Hk)).
    + apply IH. intros i j e e' He He' E. by pose proof (H (S i) (S j) e e' He He' E) as [= ->].
  - apply IH. intros i j e e' He He' E. by pose proof (H (S i) (S j) e e' He He' E) as [= ->].
Qed.

Lemma keys_full g : (forall i, (i < length g)%nat -> exists e, has g i e) -> length (keys g) = length g.
Proof.
  unfold has, keys. induction g as [|[x|] g IH]; intros H; [done| |].
  - cbn. f_equal. apply IH. intros i Hi. apply (H (S i)). simpl. lia.
  - destruct (H 0%nat) as [e He]; [simpl; lia|done].
Qed.

Lemma keys_permutation g : chained g -> (forall i, (i < length g)%nat -> exists e, has g i e) -> Permutation (keys g) pairs.*1.
Proof.
  intros C F. assert (N := keys_nodup g (ch_inj g C)). apply submseteq_length_Permutation.
  - apply NoDup_submseteq; [done|]. intros k (i & e & He & <-)%elem_of_keys. apply list_elem_of_fmap. exists (e_key e, e_val e). split; [done|]. by apply (ch_pairs g C i).
  - rewrite keys_full by done. rewrite (ch_size g C), length_fmap. done.
Qed.

(** A link from the slot [p], which a key has by its hash, to the new slot [e], and on from there. *)
Section link.
Context (g : slots) (C : chained g) (p e : nat) (m : entry) (kv : lkey * lua_value).
Context (Hp : has g p m) (Hm : pos (e_key m) = p) (Hk : pos kv.1 = p) (He : g !! e = Some None) (Hnew : forall i x, has g i x -> e_key x <> kv.1) (Hkv : kv ∈ pairs).

Definition linked : slots := <[e := Some (MkEntry kv.1 kv.2 (e_next m) false)]> (<[p := Some (MkEntry (e_key m) (e_val m) (Z.of_nat e) false)]> g).

Lemma link_ne : p <> e.
Proof. intros ->. unfold has in Hp. by rewrite He in Hp. Qed.

Lemma linked_e : has linked e (MkEntry kv.1 kv.2 (e_next m) false).
Proof. unfold has, linked. rewrite list_lookup_insert_eq; [done|]. rewrite length_insert. by eapply lookup_lt_Some. Qed.

Lemma linked_p : has linked p (MkEntry (e_key m) (e_val m) (Z.of_nat e) false).
Proof. pose proof link_ne. unfold has, linked. rewrite list_lookup_insert_ne by done. rewrite list_lookup_insert_eq; [done|]. by eapply lookup_lt_Some. Qed.

Lemma linked_other i : i <> p -> i <> e -> linked !! i = g !! i.
Proof. intros. unfold linked. by rewrite !list_lookup_insert_ne by done. Qed.

(** What a slot has, up to its links. *)
Lemma linked_has i x : has linked i x -> (i = e /\ x = MkEntry kv.1 kv.2 (e_next m) false) \/ (i = p /\ x = MkEntry (e_key m) (e_val m) (Z.of_nat e) false) \/ (i <> p /\ i <> e /\ has g i x).
Proof.
  intros H. destruct (decide (i = e)) as [->|Ne]; [left; pose proof linked_e as E; unfold has in *; rewrite H in E; by injection E|]. right.
  destruct (decide (i = p)) as [->|Np]; [left; pose proof linked_p as E; unfold has in *; rewrite H in E; by injection E|]. right. unfold has in H. by rewrite linked_other in H.
Qed.

Lemma path_kept z l : path g z l -> p ∉ l -> path linked z l.
Proof.
  induction 1 as [|i x l E P IH]; intros N; [constructor|]. apply not_elem_of_cons in N as [Ni N]. apply (path_at linked i x); [|by apply IH]. rewrite linked_other; [done|done|]. intros ->. by rewrite He in E.
Qed.

(** No link leads to the slot of a hash. *)
Lemma path_from_p i l : path g (Z.of_nat i) l -> p ∈ l -> exists l', l = p :: l' /\ i = p.
Proof.
  intros P H. destruct (path_head _ _ _ P) as (x & l' & -> & _ & _). apply elem_of_cons in H as [->|H]; [by exists l'|]. destruct (path_linked _ _ _ _ P H) as (y & w & Hy & Ey).
  destruct (ch_next g C y w Hy) as [N|(j & w' & Ej & Hj & Nj)]; [lia|]. assert (j = p) as -> by lia. unfold has in *. rewrite Hp in Hj. by injection Hj as <-.
Qed.

(** The chain from [p] has the new slot as its second. *)
Lemma path_p_linked l : path g (Z.of_nat p) (p :: l) -> NoDup (p :: l) -> path linked (Z.of_nat p) (p :: e :: l) /\ NoDup (p :: e :: l) /\ path linked (Z.of_nat e) (e :: l) /\ NoDup (e :: l).
Proof.
  intros P N. pose proof link_ne as Ne. destruct (path_head _ _ _ P) as (x & l' & [= <-] & Hx & P'). unfold has in Hx, Hp. rewrite Hp in Hx. injection Hx as <-. pose proof N as N'. apply NoDup_cons in N' as [Np Nl].
  assert (Ee : e ∉ l) by (intros H; destruct (path_filled _ _ _ _ P' H) as [y Hy]; unfold has in Hy; by rewrite He in Hy).
  assert (Pe : path linked (Z.of_nat e) (e :: l)) by (apply (path_at linked e _ l linked_e); cbn [e_next]; by apply path_kept).
  split; [by apply (path_at linked p _ (e :: l) linked_p)|]. split; [|split; [exact Pe|by constructor]]. constructor; [|by constructor]. rewrite not_elem_of_cons. done.
Qed.

Lemma path_linked_all i l : path g (Z.of_nat i) l -> NoDup l -> exists l', path linked (Z.of_nat i) l' /\ NoDup l' /\ forall j, j ∈ l -> j ∈ l'.
Proof.
  intros P N. destruct (decide (p ∈ l)) as [H|H]; [|exists l; split; [by apply path_kept|done]]. destruct (path_from_p _ _ P H) as (l' & -> & ->). destruct (path_p_linked l' P N) as (P' & N' & _ & _).
  exists (p :: e :: l'). split; [done|]. split; [done|]. intros j [->|Hj]%elem_of_cons; [by left|]. right. by right.
Qed.

Lemma linked_chained : chained linked.
Proof.
  pose proof link_ne as Ne. destruct (ch_path g C p m Hp) as (lp & Pp & Np). destruct (path_head _ _ _ Pp) as (x & lp' & -> & _ & _). destruct (path_p_linked lp' Pp Np) as (Ppl & Npl & Pel & Nel). split.
  - unfold linked. rewrite !length_insert. apply C.
  - intros i y [[-> ->]|[[-> ->]|(_ & _ & H)]]%linked_has; [by destruct kv|by apply (ch_pairs g C p m)|by apply (ch_pairs g C i)].
  - intros i j y y' [[-> ->]|[[-> ->]|(Ni & Ni' & H)]]%linked_has [[-> ->]|[[-> ->]|(Nj & Nj' & H')]]%linked_has E; cbn [e_key] in E; try done.
    + by destruct (Hnew p m Hp).
    + by destruct (Hnew j y' H').
    + by destruct (Hnew p m Hp).
    + by apply (ch_inj g C p j m y').
    + by destruct (Hnew i y H).
    + by apply (ch_inj g C i p y m).
    + by apply (ch_inj g C i j y y').
  - intros i y [[-> ->]|[[-> ->]|(_ & _ & H)]]%linked_has; [by exists (e :: lp')|by exists (p :: e :: lp')|]. destruct (ch_path g C i y H) as (l & P & N). destruct (path_linked_all i l P N) as (l' & P' & N' & _). by exists l'.
  - intros i y Hi. assert (K : forall x, has g i x \/ True -> e_next x = -1 \/ (exists j e', e_next x = Z.of_nat j /\ has g j e' /\ pos (e_key e') <> j) -> e_next x = -1 \/ (exists j e', e_next x = Z.of_nat j /\ has linked j e' /\ pos (e_key e') <> j)).
    { intros w _ [N|(j & e' & Ej & Hj & Nj)]; [by left|]. right. exists j, e'. split; [done|]. split; [|done]. unfold has. rewrite linked_other; [done| |]; intros ->; unfold has in *; [|by rewrite He in Hj]. rewrite Hp in Hj. by injection Hj as <-. }
    apply linked_has in Hi as [[-> ->]|[[-> ->]|(_ & _ & H)]]; cbn [e_next].
    + apply (K m); [by right|]. by apply (ch_next g C p).
    + right. exists e, (MkEntry kv.1 kv.2 (e_next m) false). split; [done|]. split; [apply linked_e|]. cbn [e_key]. by rewrite Hk.
    + apply (K y); [by left|]. by apply (ch_next g C i).
  - intros i y [[-> ->]|[[-> ->]|(_ & _ & H)]]%linked_has; cbn [e_key].
    + exists (p :: e :: lp'). rewrite Hk. split; [done|]. right. by left.
    + exists (p :: e :: lp'). rewrite Hm. split; [done|]. by left.
    + destruct (ch_reach g C i y H) as (l & P & Hi). destruct (path_head _ _ _ P) as (w & l1 & -> & Hw & _). destruct (ch_path g C _ _ Hw) as (l2 & P2 & N2).
      assert (E2 : l2 = pos (e_key y) :: l1) by (by eapply path_unique). subst l2. destruct (path_linked_all _ _ P N2) as (l' & P' & _ & S'). exists l'. split; [done|]. by apply S'.
  - intros i y [[-> ->]|[[-> ->]|(_ & _ & H)]]%linked_has; cbn [e_nocolliding]; try done. by apply (ch_alone g C i).
Qed.
End link.

(** While the second loop is at [todo]: the keys before have a slot, a key that comes later has none but that of its hash, and the slot of every hash has an entry of that hash. *)
Record filling_rest (g : slots) (todo : list (lkey * lua_value)) : Prop := {
  fr_chained : chained g;
  fr_done : forall kv, kv ∈ pairs -> kv ∈ todo \/ exists i e, has g i e /\ e_key e = kv.1;
  fr_todo : forall kv i e, kv ∈ todo -> has g i e -> e_key e = kv.1 -> i = pos kv.1;
  fr_main : forall kv, kv ∈ pairs -> exists m, has g (pos kv.1) m /\ pos (e_key m) = pos kv.1;
}.

Lemma mains_filling_rest g : mains g pairs -> filling_rest g pairs.
Proof.
  intros M. pose proof M as (L & H & D). split.
  - by apply mains_chained.
  - intros kv Hk. by left.
  - intros kv i e _ He <-. symmetry. apply (H i e He).
  - intros kv Hk. destruct (D kv Hk) as [m Hm]. exists m. split; [done|]. apply (H _ _ Hm).
Qed.

(** A key that is not at the slot of its hash when its turn comes finds a free slot. *)
Lemma rest_step_new g kv todo m : filling_rest g (kv :: todo) -> kv ∈ pairs -> has g (pos kv.1) m -> e_key m <> kv.1 ->
  (forall i x, has g i x -> e_key x <> kv.1) /\ exists e, first_none g = Some e.
Proof.
  intros F Hk Hm Nm. assert (New : forall i x, has g i x -> e_key x <> kv.1).
  { intros i x Hx Ex. assert (i = pos kv.1) as -> by (apply (fr_todo _ _ F kv i x); [by left|done|done]). unfold has in *. rewrite Hm in Hx. by injection Hx as <-. }
  split; [done|]. destruct (first_none g) as [e|] eqn:Ef; [by exists e|]. pose proof (keys_permutation g (fr_chained _ _ F) (fun i => first_none_none g i Ef)) as P.
  assert (H : kv.1 ∈ keys g) by (rewrite P; by apply list_elem_of_fmap_2). apply elem_of_keys in H as (i & x & Hx & Ex). by destruct (New i x Hx).
Qed.

Lemma rest_step_ok g kv todo : filling_rest g (kv :: todo) -> kv ∈ pairs -> kv.1 ∉ todo.*1 -> filling_rest (rest_step g kv) todo.
Proof.
  intros F Hk Nk. destruct (fr_main _ _ F kv Hk) as (m & Hm & Em). unfold rest_step. pose proof Hm as Hm'. unfold has in Hm'. rewrite Hm'. destruct (decide (e_key m = kv.1)) as [Ek|Nm].
  - split; [apply F| |intros kv' i e H; apply (fr_todo _ _ F); by right|apply F].
    intros kv' H. destruct (fr_done _ _ F kv' H) as [[->|H']%elem_of_cons|H']; [right; by exists (pos kv.1), m|by left|by right].
  - destruct (rest_step_new g kv todo m F Hk Hm Nm) as (New & e & Ef). rewrite Ef. apply first_none_some in Ef as He.
    assert (Ne := link_ne g (pos kv.1) e m kv Hm Em eq_refl He). assert (Lp := linked_p g (pos kv.1) e m kv Hm Em eq_refl He). assert (Le := linked_e g (pos kv.1) e m kv He).
    assert (Lo := linked_other g (pos kv.1) e m kv). assert (Lh := linked_has g (pos kv.1) e m kv Hm Em eq_refl He). change (filling_rest (linked g (pos kv.1) e m kv) todo). split.
    + by apply linked_chained; try apply F.
    + intros kv' H. destruct (fr_done _ _ F kv' H) as [[->|H']%elem_of_cons|(i & x & Hx & Ex)]; [right; eauto|by left|right]. destruct (decide (i = pos kv.1)) as [->|Ni].
      * unfold has in Hx. rewrite Hm' in Hx. injection Hx as <-. eauto.
      * exists i, x. split; [|done]. unfold has. rewrite Lo; [done|done|]. intros ->. unfold has in Hx. by rewrite He in Hx.
    + intros kv' i x H [[-> ->]|[[-> ->]|(_ & _ & Hx)]]%Lh Ex; cbn [e_key] in Ex.
      * destruct Nk. rewrite Ex. by apply list_elem_of_fmap_2.
      * apply (fr_todo _ _ F kv' _ m); [by right|done|done].
      * apply (fr_todo _ _ F kv' _ x); [by right|done|done].
    + intros kv' H. destruct (fr_main _ _ F kv' H) as (m' & Hm2 & E'). destruct (decide (pos kv'.1 = pos kv.1)) as [->|Np]; [eexists; by split|].
      exists m'. split; [|done]. unfold has. rewrite Lo; [done|done|]. intros E. rewrite E in Hm2. unfold has in Hm2. by rewrite He in Hm2.
Qed.

Lemma foldl_rest g todo : filling_rest g todo -> todo ⊆ pairs -> NoDup todo.*1 -> filling_rest (foldl rest_step g todo) [].
Proof.
  revert g. induction todo as [|kv todo IH]; intros g F S N; [done|]. simpl in *. apply NoDup_cons in N as [Nk N]. apply IH; [|set_solver|done]. apply rest_step_ok; [done|set_solver|done].
Qed.

(** At the end the slots have exactly the keys, each once, and there is no slot without one. *)
Theorem filled_slots : chained filled /\ Permutation (keys filled) pairs.*1 /\ forall i, (i < size)%nat -> exists e, has filled i e.
Proof.
  assert (F : filling_rest filled []) by (apply foldl_rest; [apply mains_filling_rest, mains_pairs|done|done]). assert (C := fr_chained _ _ F). split; [done|].
  assert (P : Permutation (keys filled) pairs.*1).
  { apply NoDup_Permutation; [apply keys_nodup, C|done|]. intros k. rewrite elem_of_keys, list_elem_of_fmap. split.
    - intros (i & e & He & <-). exists (e_key e, e_val e). split; [done|]. by apply (ch_pairs _ C i).
    - intros (kv & -> & Hk). destruct (fr_done _ _ F kv Hk) as [H%elem_of_nil|H]; [done|exact H]. }
  split; [done|]. intros i Hi. destruct (first_none filled) as [j|] eqn:Ej.
  - exfalso. apply first_none_some in Ej. assert (H : (length (keys filled) < length filled)%nat).
    { clear -Ej. unfold keys. revert j Ej. induction filled as [|[x|] g IH]; intros j Ej; [done| |].
      - destruct j as [|j]; [done|]. specialize (IH j Ej). cbn in *. lia.
      - cbn. rewrite length_fmap. clear. induction g as [|[x|] g IH]; cbn in *; lia. }
    rewrite P, length_fmap, (ch_size _ C) in H. unfold size in H. lia.
  - apply (first_none_none filled i Ej). by rewrite (ch_size _ C).
Qed.
End slots.
