(* ===== verification/ShareDataSpec.v ===== *)
(** * A shared table reads like the table it was copied from

    What [lindexconf] finds and what [lnextkey] walks over, after [lnewconf]. *)

From S2P Require Import Prelude CString LuaError ShareData ShareHash.

(** ** What a copy has to be *)

(** A key that [lindexconf] can be asked for without loss. *)
Definition key_good (k : lkey) : bool := match k with KInt n => (- 2 ^ 31 <=? n) && (n <? 2 ^ 31) | KStr _ => true | _ => false end.

(** A value that can be shared: all keys are strings or fit in an [int]; no pair has nil, and no key comes twice. *)
Fixpoint value_good (v : lua_value) : bool :=
  match v with
  | LNil | LOther => false
  | LTable rawlen pairs => (0 <=? rawlen) && (rawlen <=? INT_MAX) && (Z.of_nat (length pairs) <=? INT_MAX) && bool_decide (NoDup pairs.*1) && forallb (fun kv => key_good kv.1 && value_good kv.2) pairs
  | _ => true
  end.

(** The keys that follow a key, as a loop over [lnextkey] meets them. *)
Inductive walk (sm : strings) (t : table) : option lkey -> list lkey -> Prop :=
  | walk_end k : lnextkey sm t k = Ok None -> walk sm t k []
  | walk_next k k' ks : lnextkey sm t k = Ok (Some k') -> walk sm t (Some k') ks -> walk sm t k (k' :: ks).

(** Is the key one of the array? *)
Definition in_array (n : Z) (k : lkey) : bool := match k with KInt i => (0 <? i) && (i <=? n) | _ => false end.
Definition hash_pairs (n : Z) (pairs : list (lkey * lua_value)) : list (lkey * lua_value) := List.filter (fun kv => negb (in_array n kv.1)) pairs.

Definition each_pair (R : lkey -> lua_value -> Prop) : list (lkey * lua_value) -> Prop := fix each l := match l with [] => True | (k, v) :: l => R k v /\ each l end.

Lemma each_pair_forall R l : each_pair R l <-> forall k v, (k, v) ∈ l -> R k v.
Proof.
  induction l as [|[k v] l IH]; cbn; [split; [by intros _ k v ?%elem_of_nil|done]|]. rewrite IH. split.
  - intros [H1 H2] k' v' [[= -> ->]|H]%elem_of_cons; [done|by apply H2].
  - intros H. split; [apply H; by left|]. intros k' v' Hk. apply H. by right.
Qed.

(** What Lua gets is the value: for a table, every key has its value, another key has none, a walk meets every key once, and the two lengths are those of the table. *)
Fixpoint reads (sm : strings) (v : lua_value) (p : pushed) : Prop :=
  match v, p with
  | LInteger n, PInteger m => m = n
  | LReal b, PReal c => c = b
  | LString s, PString x => x = s
  | LBoolean b, PBoolean c => c = b
  | LTable rawlen pairs, PTable t =>
    each_pair (fun k v => exists q, lindexconf sm t k = Ok q /\ reads sm v q) pairs /\
    (forall k, key_good k = true -> k ∉ pairs.*1 -> lindexconf sm t k = Ok PNil) /\
    (exists ks, walk sm t None ks /\ Permutation ks pairs.*1) /\
    llen t = rawlen /\ lhashlen t = Z.of_nat (length (hash_pairs rawlen pairs))
  | _, _ => False
  end.

Lemma reads_table sm rawlen pairs t : reads sm (LTable rawlen pairs) (PTable t) <->
  (forall k v, (k, v) ∈ pairs -> exists q, lindexconf sm t k = Ok q /\ reads sm v q) /\
  (forall k, key_good k = true -> k ∉ pairs.*1 -> lindexconf sm t k = Ok PNil) /\
  (exists ks, walk sm t None ks /\ Permutation ks pairs.*1) /\
  llen t = rawlen /\ lhashlen t = Z.of_nat (length (hash_pairs rawlen pairs)).
Proof.
  cbn [reads]. by rewrite each_pair_forall.
Qed.

(** Induction over a value and the values in it. *)
Lemma lvalue_nested_ind (P : lua_value -> Prop) :
  (forall v, match v with LTable _ _ => False | _ => True end -> P v) -> (forall rawlen pairs, (forall kv, kv ∈ pairs -> P kv.2) -> P (LTable rawlen pairs)) -> forall v, P v.
Proof.
  intros H1 H2. fix IH 1. intros [|n|b|s|b|rawlen pairs|]; try (by apply H1). apply H2. assert (F : Forall (fun kv => P kv.2) pairs); [|by rewrite Forall_forall in F].
  induction pairs as [|[k v] pairs IHp]; constructor; [apply IH|exact IHp].
Qed.

(** ** Strings *)

Lemma index_in_lookup l s j : index_in l s = Some j -> l !! j = Some s.
Proof.
  revert j. induction l as [|x l IH]; intros j; cbn [index_in]; [done|]. case_bool_decide as E; [intros [= <-]; by rewrite E|]. destruct (index_in l s) as [i|]; [|done]. intros [= <-]. by apply IH.
Qed.

Lemma index_in_app l l' s j : index_in l s = Some j -> index_in (l ++ l') s = Some j.
Proof.
  revert j. induction l as [|x l IH]; intros j; cbn [index_in app]; [done|]. case_bool_decide; [done|]. destruct (index_in l s) as [i|]; [|done]. intros [= <-]. by rewrite (IH i).
Qed.

Lemma index_in_new l s : index_in l s = None -> index_in (l ++ [s]) s = Some (length l).
Proof.
  induction l as [|x l IH]; cbn [index_in app length]; [by rewrite bool_decide_true|]. case_bool_decide; [done|]. destruct (index_in l s); [done|]. intros _. by rewrite IH.
Qed.

Lemma index_in_prefix l l' s j : l `prefix_of` l' -> index_in l s = Some j -> index_in l' s = Some j.
Proof. intros [l2 ->]. apply index_in_app. Qed.

Lemma stringindex_ok l s : exists j l', stringindex l s = (Z.of_nat j + 2, l') /\ l `prefix_of` l' /\ index_in l' s = Some j.
Proof.
  unfold stringindex. destruct (index_in l s) as [j|] eqn:E; [by exists j, l|]. exists (length l), (l ++ [s]). split; [done|]. split; [by exists [s]|by apply index_in_new].
Qed.

Lemma string_at_index l s j : index_in l s = Some j -> string_at l (Z.of_nat j + 2) = Some s.
Proof. intros H%index_in_lookup. unfold string_at. rewrite Z.add_simpl_r. by rewrite aget_nat. Qed.

(** ** Keys and values *)

(** How a key is kept in a node. *)
Definition keyrel (sm : strings) (k : lkey) (key keyhash keytype : Z) : Prop :=
  keyhash = key_hash k /\
  match k with
  | KInt n => key = n /\ keytype = KEYTYPE_INTEGER
  | KStr s => keytype = KEYTYPE_STRING /\ exists j, index_in sm s = Some j /\ key = Z.of_nat j + 2
  | _ => False
  end.

Lemma keyrel_mono sm sm' k key h ty : sm `prefix_of` sm' -> keyrel sm k key h ty -> keyrel sm' k key h ty.
Proof. intros P [-> H]. split; [done|]. destruct k; try done. destruct H as (-> & j & E & ->). split; [done|]. exists j. split; [by eapply index_in_prefix|done]. Qed.

(** The comparison of [fillcolliding] is that of keys. *)
Lemma keyrel_eq sm k key h ty k' key' h' ty' : keyrel sm k key h ty -> keyrel sm k' key' h' ty' -> (ty =? ty') && (key =? key') = bool_decide (k = k').
Proof.
  intros [_ H] [_ H']. destruct k as [n|s| | |], k' as [n'|s'| | |]; try done.
  - destruct H as [-> ->], H' as [-> ->]. cbn. case_bool_decide as E; [injection E as ->; apply Z.eqb_refl|]. apply Z.eqb_neq. congruence.
  - destruct H as [-> ->], H' as (-> & _). cbn. by rewrite bool_decide_false.
  - destruct H as (-> & _), H' as [-> ->]. cbn. by rewrite bool_decide_false.
  - destruct H as (-> & j & E & ->), H' as (-> & j' & E' & ->). cbn. case_bool_decide as D.
    + injection D as ->. rewrite E in E'. injection E' as ->. apply Z.eqb_refl.
    + apply Z.eqb_neq. intros D'. assert (j = j') as -> by lia. apply D. apply index_in_lookup in E, E'. rewrite E in E'. by injection E' as ->.
Qed.

Definition val_ok (sm : strings) (v : lua_value) (cv : cvalue) : Prop :=
  vt_nil cv = false /\ forall sm', sm `prefix_of` sm' -> exists p, pushvalue sm' cv = Ok p /\ reads sm' v p.

Lemma val_ok_mono sm sm' v cv : sm `prefix_of` sm' -> val_ok sm v cv -> val_ok sm' v cv.
Proof. intros P [N H]. split; [done|]. intros sm2 P2. apply H. by etrans. Qed.

Definition node_ok (sm : strings) (e : entry) (x : node) : Prop :=
  keyrel sm (e_key e) (n_key x) (n_keyhash x) (n_keytype x) /\ val_ok sm (e_val e) (n_v x) /\ n_next x = e_next e /\ n_nocolliding x = e_nocolliding e.

Definition slot_ok (sm : strings) (o : option entry) (s : option node) : Prop := match o, s with Some e, Some x => node_ok sm e x | None, None => True | _, _ => False end.

Lemma slot_ok_mono sm sm' o s : sm `prefix_of` sm' -> slot_ok sm o s -> slot_ok sm' o s.
Proof.
  intros P. destruct o as [e|], s as [x|]; try done. intros (K & V & H). split; [by eapply keyrel_mono|]. split; [by eapply val_ok_mono|done].
Qed.

(** The item at an index of the array, counted from 0, after the pairs of [done]. *)
Definition item_ok (sm : strings) (done : list (lkey * lua_value)) (i : nat) (cv : cvalue) : Prop :=
  (exists v, (KInt (Z.of_nat i + 1), v) ∈ done /\ val_ok sm v cv) \/ (cv = VNil /\ KInt (Z.of_nat i + 1) ∉ done.*1).

Definition array_ok (sm : strings) (n : Z) (done : list (lkey * lua_value)) (array : list cvalue) : Prop :=
  length array = Z.to_nat n /\ forall i cv, array !! i = Some cv -> item_ok sm done i cv.

Lemma item_ok_mono sm sm' done i cv : sm `prefix_of` sm' -> item_ok sm done i cv -> item_ok sm' done i cv.
Proof. intros P [(v & Hv & V)|H]; [left|by right]. exists v. split; [done|by eapply val_ok_mono]. Qed.

Lemma array_ok_mono sm sm' n done array : sm `prefix_of` sm' -> array_ok sm n done array -> array_ok sm' n done array.
Proof. intros P [L H]. split; [done|]. intros i cv E. eapply item_ok_mono; [done|by apply H]. Qed.

Lemma slots_mono sm sm' g h : sm `prefix_of` sm' -> Forall2 (slot_ok sm) g h -> Forall2 (slot_ok sm') g h.
Proof. intros P H. eapply Forall2_impl; [exact H|]. intros o s. by apply slot_ok_mono. Qed.

Lemma first_nil_none sm g h : Forall2 (slot_ok sm) g h -> first_nil h = first_none g.
Proof.
  induction 1 as [|o s g h S _ IH]; [done|]. destruct o as [e|], s as [x|]; try done; cbn in *. destruct S as (_ & [N _] & _). by rewrite N, IH.
Qed.

(** ** Copying a table *)

Lemma ishashkey_in n k sm : key_good k = true -> in_array n k = true -> exists i, k = KInt i /\ 0 < i <= n /\ ishashkey n k sm = Ok (inl i, sm).
Proof.
  intros G H. destruct k as [i| | | |]; try done. exists i. cbn in G, H. split; [done|]. split; [lia|]. cbn. rewrite i32_small by lia. by rewrite H.
Qed.

Lemma ishashkey_out n k sm : key_good k = true -> in_array n k = false ->
  exists key h ty sm', ishashkey n k sm = Ok (inr (key, h, ty), sm') /\ sm `prefix_of` sm' /\ keyrel sm' k key h ty.
Proof.
  intros G H. destruct k as [i|s| | |]; try done; cbn in G, H |- *.
  - rewrite i32_small by lia. rewrite H. by exists i, (u32 i), KEYTYPE_INTEGER, sm.
  - destruct (stringindex_ok sm s) as (j & sm' & E & P & I). rewrite E. exists (Z.of_nat j + 2), (calchash s), KEYTYPE_STRING, sm'. split; [done|]. split; [done|]. split; [done|]. split; [done|]. by exists j.
Qed.

Lemma length_main_step pairs g kv : length (main_step pairs g kv) = length g.
Proof. unfold main_step. destruct (g !! pos pairs kv.1) as [[m|]|]; [done|apply length_insert|done]. Qed.

Lemma length_foldl_main pairs g l : length (foldl (main_step pairs) g l) = length g.
Proof. revert g. induction l as [|kv l IH]; intros g; [done|]. simpl. by rewrite IH, length_main_step. Qed.

Lemma hash_pairs_app n l kv : hash_pairs n (l ++ [kv]) = hash_pairs n l ++ (if in_array n kv.1 then [] else [kv]).
Proof. unfold hash_pairs. rewrite List.filter_app. cbn. by destruct (in_array n kv.1). Qed.

Lemma elem_of_hash_pairs n l kv : kv ∈ hash_pairs n l <-> kv ∈ l /\ in_array n kv.1 = false.
Proof. unfold hash_pairs. rewrite !list_elem_of_In, filter_In. destruct (in_array n kv.1); cbn; naive_solver. Qed.

Lemma hash_pairs_cons n l kv : hash_pairs n (kv :: l) = if in_array n kv.1 then hash_pairs n l else kv :: hash_pairs n l.
Proof. unfold hash_pairs. cbn. by destruct (in_array n kv.1). Qed.

Lemma hash_pairs_distinct n (pairs : list (lkey * lua_value)) : NoDup pairs.*1 -> NoDup (hash_pairs n pairs).*1.
Proof.
  intros distinct. unfold hash_pairs. induction pairs as [|kv l IH]; [done|]. simpl in distinct. apply NoDup_cons in distinct as [Nk N]. cbn. destruct (negb (in_array n kv.1)); [|by apply IH].
  simpl. apply NoDup_cons. split; [|by apply IH]. intros (kv' & E & H)%list_elem_of_fmap. rewrite list_elem_of_In, filter_In, <- list_elem_of_In in H. apply Nk. destruct H as [H _]. rewrite E. by apply list_elem_of_fmap_2.
Qed.

Section table.
Context (sv : lua_value -> strings -> res (cvalue * strings)) (n : Z) (pairs : list (lkey * lua_value)).
Context (Hn : 0 <= n <= INT_MAX) (distinct : NoDup pairs.*1) (good : forall kv, kv ∈ pairs -> key_good kv.1 = true).
Context (Hsv : forall kv sm, kv ∈ pairs -> exists cv sm', sv kv.2 sm = Ok (cv, sm') /\ sm `prefix_of` sm' /\ val_ok sm' kv.2 cv).

Notation hp := (hash_pairs n pairs).

Record copied (done : list (lkey * lua_value)) (g : slots) (st : filling) : Prop := {
  fo_array : array_ok (f_strings st) n done (f_array st);
  fo_slots : Forall2 (slot_ok (f_strings st)) g (f_hash st);
}.

Lemma copied_strings done g st sm : copied done g st -> f_strings st `prefix_of` sm -> copied done g (MkFill sm (f_array st) (f_hash st)).
Proof. intros [A S] P. split; cbn; [by eapply array_ok_mono|by eapply slots_mono]. Qed.

Lemma array_length done g st : copied done g st -> Z.of_nat (length (f_array st)) = n.
Proof. intros [[L _] _]. rewrite L. lia. Qed.

(** A pair of the hash table does not matter for the array. *)
Lemma array_ok_skip sm done array kv : array_ok sm n done array -> in_array n kv.1 = false -> array_ok sm n (done ++ [kv]) array.
Proof.
  intros [L H] N. split; [done|]. intros i cv E. pose proof (lookup_lt_Some _ _ _ E) as Hi. destruct (H i cv E) as [(v & Hv & V)|[-> Ha]]; [left; exists v; split; [apply elem_of_app; by left|done]|right].
  split; [done|]. rewrite fmap_app, elem_of_app. intros [?|Hk%list_elem_of_singleton]; [done|]. rewrite <- Hk in N. cbn in N. lia.
Qed.

Lemma setarray_ok done g st k v i : copied done g st -> (k, v) ∈ pairs -> k ∉ done.*1 -> k = KInt i -> 0 < i <= n ->
  exists st', setarray sv st v i = Ok st' /\ f_strings st `prefix_of` f_strings st' /\ copied (done ++ [(k, v)]) g st'.
Proof.
  intros F Hk Nk -> Hi. destruct (Hsv (KInt i, v) (f_strings st) Hk) as (cv & sm & E & P & V). cbn in E, V. unfold setarray. rewrite E. pose proof (array_length done g st F) as La.
  rewrite aset_Some by lia. cbn. eexists. split; [done|]. split; [done|]. destruct (copied_strings _ _ _ _ F P) as [[L H] S]. cbn in *. split; cbn; [|done]. split; [by rewrite length_insert|].
  intros j cv' Ej. destruct (decide (j = Z.to_nat (i - 1))) as [->|Nj].
  - rewrite list_lookup_insert_eq in Ej by lia. injection Ej as <-. left. exists v. replace (Z.of_nat (Z.to_nat (i - 1)) + 1) with i by lia. split; [|done]. apply elem_of_app. right. by left.
  - rewrite list_lookup_insert_ne in Ej by done. destruct (H j cv' Ej) as [(v' & Hv & V')|[-> Ha]]; [left; exists v'; split; [apply elem_of_app; by left|done]|right]. split; [done|].
    rewrite fmap_app, elem_of_app. intros [?|Hj%list_elem_of_singleton]; [done|]. cbn in Hj. injection Hj as Hj. lia.
Qed.

Lemma mainpos_pos st k : length (f_hash st) = size hp -> hp <> [] -> mainpos st (key_hash k) = Z.of_nat (pos hp k).
Proof.
  intros L E. unfold mainpos, pos. rewrite L. pose proof (size_pos hp E). pose proof (Z.mod_pos_bound (key_hash k) (Z.of_nat (size hp))). lia.
Qed.

Lemma fill_main_ok done g st k v : copied done g st -> length g = size hp -> (k, v) ∈ pairs -> k ∉ done.*1 ->
  exists st', fill_main sv st k v = Ok st' /\ f_strings st `prefix_of` f_strings st' /\ copied (done ++ [(k, v)]) (if in_array n k then g else main_step hp g (k, v)) st'.
Proof.
  intros F Lg Hk Nk. pose proof (array_length done g st F) as La. unfold fill_main. rewrite La. destruct (in_array n k) eqn:Ek.
  - destruct (ishashkey_in n k (f_strings st) (good _ Hk) Ek) as (i & -> & Hi & ->). destruct st as [sm array hash]. by apply setarray_ok.
  - destruct (ishashkey_out n k (f_strings st) (good _ Hk) Ek) as (key & h & ty & sm & E & P & K). rewrite E. pose proof (copied_strings _ _ _ _ F P) as F'. destruct st as [sm0 array hash]. cbn [f_strings f_array f_hash] in *.
    assert (Hh : (k, v) ∈ hp) by (by apply elem_of_hash_pairs). assert (Ne : hp <> []) by (intros E0; rewrite E0 in Hh; by apply elem_of_nil in Hh).
    pose proof (Forall2_length _ _ _ (fo_slots _ _ _ F')) as Lh. cbn in Lh. destruct K as [-> K]. rewrite mainpos_pos by (cbn; congruence || done). cbn [f_hash f_strings f_array].
    pose proof (pos_lt hp Ne k) as Hp. destruct F' as [A S]. cbn in A, S. destruct (lookup_lt_is_Some_2 g (pos hp k)) as [o Eo]; [lia|]. destruct (Forall2_lookup_l _ _ _ _ _ S Eo) as (s & Es & So).
    rewrite aget_nat, Es. cbn [lift]. unfold main_step. cbn [fst snd]. rewrite Eo. destruct o as [e|], s as [x|]; try done; cbn [slot_nil].
    + destruct So as (_ & [N _] & _). rewrite N. eexists. split; [done|]. split; [done|]. split; [by apply array_ok_skip|done].
    + destruct (Hsv (k, v) sm Hk) as (cv & sm' & E' & P' & V). cbn in E', V. rewrite E', aset_Some by lia. cbn. eexists. split; [done|]. cbn. split; [by etrans|]. rewrite Nat2Z.id.
      split; cbn; [apply array_ok_skip; [by eapply array_ok_mono|done]|]. apply Forall2_insert; [by eapply slots_mono|]. split; cbn; [|done]. eapply keyrel_mono; [done|]. by split.
Qed.

Lemma fillnocolliding_ok todo done g st : done ++ todo = pairs -> copied done g st -> length g = size hp ->
  exists st', fillnocolliding sv todo st = Ok st' /\ f_strings st `prefix_of` f_strings st' /\ copied pairs (foldl (main_step hp) g (hash_pairs n todo)) st'.
Proof.
  revert done g st. induction todo as [|[k v] todo IH]; intros done g st E F Lg; [rewrite app_nil_r in E; subst; by exists st|]. cbn [fillnocolliding].
  destruct (fill_main_ok done g st k v F Lg) as (st1 & E1 & P1 & F1); [rewrite <- E; set_solver| |].
  { rewrite <- E in distinct. rewrite fmap_app in distinct. apply NoDup_app in distinct as (_ & D & _). intros H. apply (D k H). by left. }
  rewrite E1. destruct (IH (done ++ [(k, v)]) (if in_array n k then g else main_step hp g (k, v)) st1) as (st2 & E2 & P2 & F2); [by rewrite <- app_assoc|done| |].
  - destruct (in_array n k); [done|by rewrite length_main_step].
  - exists st2. split; [done|]. split; [by etrans|]. unfold hash_pairs in *. cbn. destruct (in_array n k); cbn; exact F2.
Qed.

Lemma fill_collided_ok g st k v : copied pairs g st -> (k, v) ∈ pairs -> (in_array n k = false -> exists todo, filling_rest hp g ((k, v) :: todo)) ->
  exists st', fill_collided sv st k v = Ok st' /\ f_strings st `prefix_of` f_strings st' /\ copied pairs (if in_array n k then g else rest_step hp g (k, v)) st'.
Proof.
  intros F Hk R. pose proof (array_length _ g st F) as La. unfold fill_collided. rewrite La. destruct (in_array n k) eqn:Ek.
  - destruct (ishashkey_in n k (f_strings st) (good _ Hk) Ek) as (i & -> & Hi & ->). destruct st as [sm array hash]. by eexists.
  - destruct (R eq_refl) as [todo R']. clear R. destruct (ishashkey_out n k (f_strings st) (good _ Hk) Ek) as (key & h & ty & sm & E & P & K). rewrite E. pose proof (copied_strings _ _ _ _ F P) as F'. destruct st as [sm0 array hash]. cbn [f_strings f_array f_hash] in *.
    assert (Hh : (k, v) ∈ hp) by (by apply elem_of_hash_pairs). assert (Ne : hp <> []) by (intros E0; rewrite E0 in Hh; by apply elem_of_nil in Hh).
    pose proof (Forall2_length _ _ _ (fo_slots _ _ _ F')) as Lh. cbn in Lh. assert (Lg := ch_size _ _ (fr_chained _ _ _ R')). pose proof K as [Eh _]. subst h. rewrite mainpos_pos by (cbn; congruence || done). cbn [f_hash f_strings f_array].
    pose proof (pos_lt hp Ne k) as Hp. destruct F' as [A S]. cbn in A, S. destruct (fr_main _ _ _ R' _ Hh) as (m & Hm & Em). cbn in Hm, Em. unfold has in Hm. destruct (Forall2_lookup_l _ _ _ _ _ S Hm) as ([x|] & Es & So); [|done].
    rewrite aget_nat, Es. cbn [lift]. unfold rest_step. cbn [fst snd]. rewrite Hm. pose proof So as (Kx & Vx & Nx & Cx). rewrite (keyrel_eq _ _ _ _ _ _ _ _ _ Kx K). case_bool_decide as D.
    + rewrite decide_True by done. by eexists.
    + rewrite decide_False by done. destruct (rest_step_new hp g (k, v) todo m R' Hh Hm D) as (_ & e & Ee). rewrite (first_nil_none _ _ _ S), Ee. cbn [lift]. rewrite aset_Some by lia.
      destruct (Hsv (k, v) sm Hk) as (cv & sm' & E' & P' & V). cbn in E', V. cbn [lift]. rewrite E'. pose proof (first_none_some _ _ Ee) as He. pose proof (lookup_lt_Some _ _ _ He). rewrite aset_Some by (rewrite length_insert; lia).
      cbn [lift]. rewrite !Nat2Z.id. eexists. split; [done|]. cbn. split; [by etrans|]. split; cbn; [by eapply array_ok_mono|]. apply Forall2_insert; [apply Forall2_insert; [by eapply slots_mono|]|].
      * split; [by eapply keyrel_mono|]. split; [by eapply val_ok_mono|]. done.
      * split; [by eapply keyrel_mono|]. split; [done|]. by cbn.
Qed.

Lemma fillcolliding_ok todo g st : todo ⊆ pairs -> NoDup todo.*1 -> copied pairs g st -> filling_rest hp g (hash_pairs n todo) ->
  exists st', fillcolliding sv todo st = Ok st' /\ f_strings st `prefix_of` f_strings st' /\ copied pairs (foldl (rest_step hp) g (hash_pairs n todo)) st'.
Proof.
  revert g st. induction todo as [|[k v] todo IH]; intros g st S N F R; [by exists st|]. cbn [fillcolliding]. rewrite hash_pairs_cons in R |- *. cbn [fst] in *. simpl in N. apply NoDup_cons in N as [Nk N].
  assert (Hk : (k, v) ∈ pairs) by (apply S; by left). destruct (fill_collided_ok g st k v F Hk) as (st1 & E1 & P1 & F1); [intros Ek; rewrite Ek in R; by eexists|]. rewrite E1. destruct (in_array n k) eqn:Ek.
  - destruct (IH g st1) as (st2 & E2 & P2 & F2); [set_solver|done|done|done|]. exists st2. split; [done|]. split; [by etrans|done].
  - destruct (IH (rest_step hp g (k, v)) st1) as (st2 & E2 & P2 & F2); [set_solver|done|done| |].
    + apply rest_step_ok; [done|by apply elem_of_hash_pairs|]. cbn. intros (kv & -> & H)%list_elem_of_fmap. apply elem_of_hash_pairs in H as [H _]. apply Nk. by apply list_elem_of_fmap_2.
    + exists st2. split; [done|]. split; [by etrans|done].
Qed.

Lemma countsize_ok l : l ⊆ pairs -> Z.of_nat (length l) <= INT_MAX -> countsize l n = Ok (Z.of_nat (length (hash_pairs n l))).
Proof.
  induction l as [|[k v] l IH]; intros S Hl; [done|]. cbn [length] in Hl. assert (G : key_good k = true) by (apply (good (k, v)), S; by left). cbn [countsize].
  assert (E : match k with KInt nkey => Ok (if (0 <? nkey) && (nkey <=? n) then 0 else 1) | KStr _ | KTable => Ok 1 | KFloat => Raise (Text "Invalid key") | KOther => Raise (Text "Invalid key type") end = Ok (if in_array n k then 0 else 1)).
  { destruct k; try done. }
  rewrite E, IH by (set_solver || lia). rewrite hash_pairs_cons. cbn [fst]. assert (Hf : (length (hash_pairs n l) <= length l)%nat) by (apply List.filter_length_le).
  rewrite int_Ok by (unfold INT_MAX in *; destruct (in_array n k); lia). f_equal. destruct (in_array n k); cbn [length]; lia.
Qed.

Lemma copy_item_ok l (i : nat) sm : l ⊆ pairs -> exists cv sm', copy_item sv l (Z.of_nat i + 1) sm = Ok (cv, sm') /\ sm `prefix_of` sm' /\ item_ok sm' l i cv.
Proof.
  induction l as [|[k v] l IH]; intros S; cbn [copy_item]; [exists VNil, sm; split; [done|]; split; [done|]; right; split; [done|]; by intros ?%elem_of_nil|].
  destruct (decide (k = KInt (Z.of_nat i + 1))) as [->|N].
  - rewrite Z.eqb_refl. destruct (Hsv (KInt (Z.of_nat i + 1), v) sm) as (cv & sm' & E & P & V); [apply S; by left|]. exists cv, sm'. split; [done|]. split; [done|]. left. exists v. split; [by left|done].
  - replace (match k with KInt n => n =? Z.of_nat i + 1 | _ => false end) with false by (destruct k as [m| | | |]; try done; symmetry; apply Z.eqb_neq; intros ->; by apply N).
    destruct (IH ltac:(set_solver)) as (cv & sm' & E & P & [(v' & Hv & V)|[-> H]]); exists cv, sm' || exists VNil, sm'; (split; [done|]); (split; [done|]); [left; exists v'; split; [by right|done]|right]. split; [done|]. simpl. rewrite not_elem_of_cons. split; [by intros <-|done].
Qed.

Lemma copy_array_ok m (i : nat) st : Z.of_nat i + Z.of_nat m = n -> Z.of_nat (length (f_array st)) = n -> (forall j cv, (j < i)%nat -> f_array st !! j = Some cv -> item_ok (f_strings st) pairs j cv) ->
  exists st', copy_array sv pairs m (Z.of_nat i + 1) st = Ok st' /\ f_strings st `prefix_of` f_strings st' /\ f_hash st' = f_hash st /\ array_ok (f_strings st') n pairs (f_array st').
Proof.
  revert i st. induction m as [|m IH]; intros i st E L H; cbn [copy_array].
  - exists st. do 3 (split; [done|]). split; [lia|]. intros j cv Ej. apply H; [|done]. apply lookup_lt_Some in Ej. lia.
  - destruct (copy_item_ok pairs i (f_strings st)) as (cv & sm & E1 & P1 & V1); [done|]. rewrite E1, Z.add_simpl_r, aset_Some by lia. cbn [lift]. rewrite Nat2Z.id.
    destruct (IH (S i) (MkFill sm (<[i:=cv]> (f_array st)) (f_hash st))) as (st' & E2 & P2 & H2 & A2); cbn [f_array f_strings] in *; [lia|by rewrite length_insert| |].
    + intros j cv' Hj Ej. destruct (decide (j = i)) as [->|Nj].
      * rewrite list_lookup_insert_eq in Ej by lia. by injection Ej as <-.
      * rewrite list_lookup_insert_ne in Ej by done. eapply item_ok_mono; [exact P1|]. apply H; [lia|done].
    + replace (Z.of_nat (S i) + 1) with (Z.of_nat i + 1 + 1) in E2 by lia. exists st'. split; [done|]. split; [by etrans|]. done.
Qed.

(** A table and the entries of its slots. *)
Record built (sm : strings) (t : table) (g : slots) : Prop := {
  bt_array : array_ok sm n pairs (t_array t);
  bt_slots : Forall2 (slot_ok sm) g (t_hash t);
  bt_chained : chained hp g;
  bt_keys : Permutation (keys g) hp.*1;
  bt_full : forall i, (i < size hp)%nat -> exists e, has g i e;
}.

Lemma built_mono sm sm' t g : sm `prefix_of` sm' -> built sm t g -> built sm' t g.
Proof. intros P [A S C K F]. split; [by eapply array_ok_mono|by eapply slots_mono|done..]. Qed.

Lemma array_ok_start sm : array_ok sm n [] (replicate (Z.to_nat n) VNil).
Proof. split; [apply length_replicate|]. intros i cv [-> _]%lookup_replicate. right. split; [done|]. by intros ?%elem_of_nil. Qed.

Lemma convtable_ok sm : Z.of_nat (length pairs) <= INT_MAX -> exists t sm' g, convtable sv n pairs sm = Ok (t, sm') /\ sm `prefix_of` sm' /\ built sm' t g.
Proof.
  intros Hl. unfold convtable. rewrite int_Ok by lia. rewrite countsize_ok by done. rewrite Nat2Z.id. destruct hp as [|kv0 hp0] eqn:Ehp.
  - cbn [length Z.of_nat Z.eqb negb]. destruct (copy_array_ok (Z.to_nat n) 0 (MkFill sm (replicate (Z.to_nat n) VNil) [])) as (st & E & P & H & A); cbn; [lia|rewrite length_replicate; lia|lia|].
    cbn [replicate]. change (Z.of_nat 0 + 1) with 1 in E. rewrite E. destruct st as [sm' array hash]. cbn in *. subst hash. exists (MkTable array []), sm', []. split; [done|]. split; [done|]. split; rewrite ?Ehp; try done.
    intros i Hi. cbn in Hi. lia.
  - replace (negb (Z.of_nat (length (kv0 :: hp0)) =? 0)) with true by (cbn [length]; symmetry; apply negb_true_iff, Z.eqb_neq; lia). rewrite <- Ehp. assert (Ne : hp <> []) by (rewrite Ehp; done).
    destruct (fillnocolliding_ok pairs [] (replicate (size hp) None) (MkFill sm (replicate (Z.to_nat n) VNil) (replicate (size hp) None))) as (st1 & E1 & P1 & F1).
    + done.
    + split; [apply array_ok_start|]. cbn. by apply Forall2_replicate.
    + apply length_replicate.
    + unfold size in E1. rewrite E1. destruct (fillcolliding_ok pairs _ st1 ltac:(done) distinct F1) as (st2 & E2 & P2 & F2); [apply mains_filling_rest; by apply mains_pairs|].
      rewrite E2. destruct (filled_slots hp (hash_pairs_distinct n pairs distinct) Ne) as (C & K & Fu). destruct F2 as [A S]. exists (MkTable (f_array st2) (f_hash st2)), (f_strings st2), (filled hp). split; [done|]. split; [by etrans|].
      by split.
Qed.
End table.

(** ** Reading a table *)

(** What [lookup_key] is given for a key. *)
Definition p_key (k : lkey) : Z := match k with KInt n => n | _ => 0 end.
Definition p_type (k : lkey) : Z := match k with KInt _ => KEYTYPE_INTEGER | _ => KEYTYPE_STRING end.
Definition p_str (k : lkey) : list Z := match k with KStr s => s | _ => [] end.
Definition find_key (sm : strings) (t : table) (k : lkey) : res (option Z) := lookup_key sm t (key_hash k) (p_key k) (p_type k) (p_str k).

Section built.
Context (n : Z) (pairs : list (lkey * lua_value)) (sm : strings) (t : table) (g : slots) (B : built n pairs sm t g).
Context (Hn : 0 <= n <= INT_MAX) (distinct : NoDup pairs.*1) (good : forall kv, kv ∈ pairs -> key_good kv.1 = true).

Notation hp := (hash_pairs n pairs).

Lemma slots_length : length (t_hash t) = size hp.
Proof. rewrite <- (Forall2_length _ _ _ (bt_slots _ _ _ _ _ B)). apply (ch_size _ _ (bt_chained _ _ _ _ _ B)). Qed.

Lemma sizehash_hp : sizehash t = Z.of_nat (size hp).
Proof. unfold sizehash. by rewrite slots_length. Qed.

Lemma sizearray_n : sizearray t = n.
Proof. unfold sizearray. destruct (bt_array _ _ _ _ _ B) as [-> _]. lia. Qed.

Lemma node_at_ok i e : has g i e -> exists x, node_at t (Z.of_nat i) = Ok x /\ node_ok sm e x.
Proof.
  intros H. destruct (Forall2_lookup_l _ _ _ _ _ (bt_slots _ _ _ _ _ B) H) as ([x|] & Ex & S); [|done]. exists x. unfold node_at. rewrite aget_nat, Ex. done.
Qed.

Lemma same_key_ok e x k : node_ok sm e x -> key_good k = true ->
  (if key_hash k =? n_keyhash x then same_key sm x (p_key k) (p_type k) (p_str k) else Ok false) = Ok (bool_decide (e_key e = k)).
Proof.
  intros ([Eh K] & _) G. rewrite Eh. destruct (Z.eqb_spec (key_hash k) (key_hash (e_key e))) as [E|E]; [|rewrite bool_decide_false; [done|congruence]]. unfold same_key. destruct (e_key e) as [m|s| | |], k as [m'|s'| | |]; try done; cbn [p_key p_type p_str] in *.
  - destruct K as [-> ->]. cbn. f_equal. destruct (Z.eqb_spec m m') as [->|N]; [by rewrite bool_decide_true|]. rewrite bool_decide_false; [done|congruence].
  - destruct K as [-> ->]. cbn. by rewrite bool_decide_false.
  - destruct K as (-> & _). cbn. by rewrite bool_decide_false.
  - destruct K as (-> & j & Ej & ->). cbn. rewrite (string_at_index _ _ _ Ej). cbn. f_equal. apply bool_decide_ext. split; congruence.
Qed.

(** The loop returns the slot of the key on the path, or that it is not there. *)
Lemma key_loop_ok i l k fuel : path g (Z.of_nat i) l -> (length l <= fuel)%nat -> key_good k = true ->
  (forall j e, j ∈ l -> has g j e -> e_key e = k -> key_loop sm t fuel (Z.of_nat i) (key_hash k) (p_key k) (p_type k) (p_str k) = Ok (Some (Z.of_nat j))) /\
  ((forall j e, has g j e -> e_key e <> k) -> key_loop sm t fuel (Z.of_nat i) (key_hash k) (p_key k) (p_type k) (p_str k) = Ok None).
Proof.
  intros P. remember (Z.of_nat i) as z eqn:Ez. revert i Ez fuel. induction P as [|x e l E P IH]; intros i Ez fuel Hf G; [lia|]. apply Nat2Z.inj in Ez as <-. destruct fuel as [|fuel]; [cbn in Hf; lia|]. cbn [length] in Hf.
  destruct (node_at_ok x e E) as (nd & En & K). cbn [key_loop]. rewrite En, (same_key_ok e nd k K G). destruct K as (_ & _ & Nx & _). rewrite Nx. case_bool_decide as D.
  - split; [|intros H; by destruct (H x e E)]. intros j e' _ He' Ek. do 3 f_equal. apply (ch_inj _ _ (bt_chained _ _ _ _ _ B) x j e e'); [done|done|congruence].
  - destruct (ch_next _ _ (bt_chained _ _ _ _ _ B) x e E) as [N|(y & e2 & Ey & Hy & _)].
    + rewrite N. cbn [Z.ltb]. split; [|done]. rewrite N in P. assert (l = []) as -> by (inversion P; [done|lia]). intros j e' ->%list_elem_of_singleton He' Ek. unfold has in *. rewrite E in He'. injection He' as <-. done.
    + assert ((e_next e <? 0) = false) as -> by (apply Z.ltb_ge; lia). destruct (IH y Ey fuel ltac:(lia) G) as [I1 I2]. split; [|done]. intros j e' [->|Hj]%elem_of_cons He' Ek; [|by eapply I1]. unfold has in *. rewrite E in He'. injection He' as <-. done.
Qed.

(** A path without repetition is no longer than the table. *)
Lemma path_short z l : path g z l -> NoDup l -> (length l <= length (t_hash t))%nat.
Proof.
  intros P N. rewrite slots_length. rewrite <- (length_seq (size hp) 0). apply submseteq_length, NoDup_submseteq; [done|]. intros i Hi. destruct (path_filled _ _ _ _ P Hi) as [e He%lookup_lt_Some]. rewrite (ch_size _ _ (bt_chained _ _ _ _ _ B)) in He. apply elem_of_seq. lia.
Qed.

Lemma slot_zero i e : has g i e -> hp <> [].
Proof. intros H%lookup_lt_Some. rewrite (ch_size _ _ (bt_chained _ _ _ _ _ B)) in H. unfold size in H. intros E. rewrite E in H. cbn in H. lia. Qed.

Lemma find_key_ok k : key_good k = true -> (forall j e, has g j e -> e_key e = k -> find_key sm t k = Ok (Some (Z.of_nat j))) /\ (k ∉ hp.*1 -> find_key sm t k = Ok None).
Proof.
  intros G. unfold find_key, lookup_key. rewrite sizehash_hp. destruct (decide (hp = [])) as [E|Ne].
  - rewrite E. cbn. split; [|done]. intros j e H%slot_zero. by rewrite E in H.
  - pose proof (size_pos hp Ne). assert ((Z.of_nat (size hp) =? 0) = false) as -> by (apply Z.eqb_neq; lia). assert (Ep : key_hash k mod Z.of_nat (size hp) = Z.of_nat (pos hp k)).
    { unfold pos. pose proof (Z.mod_pos_bound (key_hash k) (Z.of_nat (size hp))). lia. }
    rewrite Ep. destruct (bt_full _ _ _ _ _ B (pos hp k) (pos_lt hp Ne k)) as [m Hm]. destruct (node_at_ok _ _ Hm) as (x & Ex & Kx). rewrite Ex. destruct (ch_path _ _ (bt_chained _ _ _ _ _ B) _ _ Hm) as (l & P & N).
    destruct (key_loop_ok (pos hp k) l k (length (t_hash t)) P (path_short _ _ P N) G) as [I1 I2].
    assert (A : k ∉ hp.*1 -> forall j e, has g j e -> e_key e <> k) by (intros A j e He Ek; apply A; rewrite <- (bt_keys _ _ _ _ _ B); apply elem_of_keys; eauto). split.
    + intros j e He Ek. destruct (ch_reach _ _ (bt_chained _ _ _ _ _ B) _ _ He) as (l' & P' & Hj). rewrite Ek in P'. rewrite (path_unique _ _ _ _ P' P) in Hj. rewrite (I1 j e Hj He Ek).
      destruct (negb (key_hash k =? n_keyhash x) && n_nocolliding x) eqn:Eq; [exfalso|done]. apply andb_true_iff in Eq as [Eq%negb_true_iff%Z.eqb_neq Nc]. destruct Kx as ([Kh _] & _ & _ & Kc). rewrite Kc in Nc.
      pose proof (ch_alone _ _ (bt_chained _ _ _ _ _ B) _ _ Hm Nc) as Na. destruct (path_head _ _ _ P) as (m' & l2 & -> & Hm' & P2). unfold has in Hm, Hm', He. rewrite Hm in Hm'. injection Hm' as <-. rewrite Na in P2. assert (l2 = []) as -> by (inversion P2; [done|lia]).
      apply list_elem_of_singleton in Hj as ->. rewrite Hm in He. injection He as <-. congruence.
    + intros Hk. destruct (_ && _); [done|]. apply I2. by apply A.
Qed.

Lemma pair_unique (l : list (lkey * lua_value)) k v v' : NoDup l.*1 -> (k, v) ∈ l -> (k, v') ∈ l -> v = v'.
Proof.
  intros N [i Hi]%list_elem_of_lookup [j Hj]%list_elem_of_lookup. assert (i = j) as -> by (eapply (NoDup_lookup l.*1); [done| |]; rewrite list_lookup_fmap; [by rewrite Hi|by rewrite Hj]). rewrite Hi in Hj. by injection Hj.
Qed.

Lemma entry_good i e : has g i e -> (e_key e, e_val e) ∈ pairs /\ in_array n (e_key e) = false /\ key_good (e_key e) = true.
Proof. intros H%(ch_pairs _ _ (bt_chained _ _ _ _ _ B)). apply elem_of_hash_pairs in H as [H1 H2]. do 2 (split; [done|]). by apply (good (e_key e, e_val e)). Qed.

(** What both readers do with a key that is not one of the array. *)
Lemma lindexconf_hash k : key_good k = true -> in_array n k = false ->
  lindexconf sm t k = let* i := find_key sm t k in match i with Some i => let* x := node_at t i in pushvalue sm (n_v x) | None => Ok PNil end.
Proof. intros G N. destruct k as [i|s| | |]; try done. cbn in G, N. unfold lindexconf. rewrite i32_small by lia. rewrite sizearray_n, N. done. Qed.

Lemma lnextkey_hash k : key_good k = true -> in_array n k = false ->
  lnextkey sm t (Some k) = let* i := find_key sm t k in
    match i with Some i => if i + 1 =? sizehash t then Ok None else let* x := node_at t (i + 1) in let* k := pushkey sm x in Ok (Some k) | None => Ok None end.
Proof. intros G N. destruct k as [i|s| | |]; try done. cbn in G, N. unfold lnextkey. rewrite i32_small by lia. rewrite sizearray_n, N. done. Qed.

Lemma array_at k : key_good k = true -> in_array n k = true ->
  exists cv, lindexconf sm t k = pushvalue sm cv /\ ((exists v, (k, v) ∈ pairs /\ val_ok sm v cv) \/ (cv = VNil /\ k ∉ pairs.*1)).
Proof.
  intros G N. destruct k as [i|s| | |]; try done. cbn in G, N. destruct (bt_array _ _ _ _ _ B) as [L A]. unfold lindexconf. rewrite i32_small by lia. rewrite sizearray_n, N.
  destruct (aget_is_Some (t_array t) (i - 1)) as [cv Ecv]; [lia|]. rewrite Ecv. exists cv. split; [done|]. apply aget_Some in Ecv as [_ Ecv]. pose proof (A _ _ Ecv) as H. unfold item_ok in H. by replace (Z.of_nat (Z.to_nat (i - 1)) + 1) with i in H by lia.
Qed.

Lemma index_present k v : (k, v) ∈ pairs -> exists q, lindexconf sm t k = Ok q /\ reads sm v q.
Proof.
  intros Hk. assert (G : key_good k = true) by (by apply (good (k, v))). destruct (in_array n k) eqn:N.
  - destruct (array_at k G N) as (cv & -> & [(v' & Hv & [_ V])|[_ H]]); [|destruct H; by apply (list_elem_of_fmap_2 fst) in Hk]. rewrite (pair_unique pairs k v v' distinct Hk Hv). by apply V.
  - assert (Hh : (k, v) ∈ hp) by (by apply elem_of_hash_pairs). assert (Ke : k ∈ keys g) by (rewrite (bt_keys _ _ _ _ _ B); by apply (list_elem_of_fmap_2 fst) in Hh). apply elem_of_keys in Ke as (j & e & He & Ek).
    rewrite lindexconf_hash by done. destruct (find_key_ok k G) as [I1 _]. rewrite (I1 j e He Ek). destruct (node_at_ok j e He) as (x & Ex & _ & [_ V] & _). rewrite Ex. destruct (entry_good j e He) as (Hp & _). rewrite Ek in Hp. rewrite (pair_unique pairs k v (e_val e) distinct Hk Hp). by apply V.
Qed.

Lemma index_absent k : key_good k = true -> k ∉ pairs.*1 -> lindexconf sm t k = Ok PNil.
Proof.
  intros G Hk. destruct (in_array n k) eqn:N.
  - destruct (array_at k G N) as (cv & -> & [(v' & Hv & _)|[-> _]]); [|done]. by apply (list_elem_of_fmap_2 fst) in Hv.
  - rewrite lindexconf_hash by done. destruct (find_key_ok k G) as [_ I2]. rewrite I2; [done|]. intros (kv & -> & H)%list_elem_of_fmap. apply elem_of_hash_pairs in H as [H _]. by apply Hk, list_elem_of_fmap_2.
Qed.

(** ** The walk *)

Lemma pushkey_ok e x : node_ok sm e x -> pushkey sm x = Ok (e_key e).
Proof.
  intros ([_ K] & _). unfold pushkey. destruct (e_key e) as [m|s| | |]; try done; [by destruct K as [-> ->]|]. destruct K as (-> & j & Ej & ->). cbn. by rewrite (string_at_index _ _ _ Ej).
Qed.

Lemma entries_full i : g !! i = Some <$> (omap id g !! i).
Proof.
  assert (F : forall i, (i < length g)%nat -> exists e, has g i e) by (intros j Hj; apply (bt_full _ _ _ _ _ B); by rewrite <- (ch_size _ _ (bt_chained _ _ _ _ _ B))). clear -F. revert i F. induction g as [|o l IH]; intros i F; [done|].
  destruct (F 0%nat ltac:(cbn; lia)) as [e He]. unfold has in He. cbn in He. injection He as ->. destruct i as [|i]; [done|]. cbn. apply IH. intros j Hj. apply (F (S j)). cbn. lia.
Qed.

Lemma next_slot i e : has g i e -> lnextkey sm t (Some (e_key e)) = Ok (e_key <$> omap id g !! S i).
Proof.
  intros He. destruct (entry_good i e He) as (_ & N & G). destruct (find_key_ok (e_key e) G) as [I1 _]. rewrite lnextkey_hash, (I1 i e He eq_refl) by done. rewrite sizehash_hp, <- (ch_size _ _ (bt_chained _ _ _ _ _ B)).
  replace (Z.of_nat i + 1) with (Z.of_nat (S i)) by lia. pose proof (entries_full (S i)) as F. pose proof (lookup_lt_Some _ _ _ He) as Hi. destruct (omap id g !! S i) as [e'|] eqn:E; cbn in F |- *.
  - destruct (node_at_ok _ _ F) as (x & Ex & Kx). pose proof (lookup_lt_Some _ _ _ F). destruct (Z.eqb_spec (Z.of_nat (S i)) (Z.of_nat (length g))); [lia|]. by rewrite Ex, (pushkey_ok _ _ Kx).
  - apply lookup_ge_None in F. destruct (Z.eqb_spec (Z.of_nat (S i)) (Z.of_nat (length g))); [done|lia].
Qed.

Lemma walk_slots l i e : drop i (omap id g) = e :: l -> walk sm t (Some (e_key e)) (e_key <$> l).
Proof.
  revert i e. induction l as [|e' l IH]; intros i e D; assert (He : has g i e) by (unfold has; rewrite entries_full, <- (Nat.add_0_r i), <- lookup_drop, D; done); pose proof (next_slot i e He) as Nx;
    assert (Di : forall j, omap id g !! (i + j)%nat = (e :: drop 1 (e :: _)) !! j) by (intros j; by rewrite <- lookup_drop, D); pose proof (Di 1%nat) as D1; rewrite Nat.add_1_r in D1; rewrite D1 in Nx; cbn in Nx.
  - by apply walk_end.
  - eapply walk_next; [exact Nx|]. apply (IH (S i)). rewrite <- Nat.add_1_r, <- drop_drop, D. done.
Qed.

Lemma walk_hash k : lnextkey sm t k = pushfirsthash sm t -> walk sm t k (keys g).
Proof.
  unfold pushfirsthash, keys. rewrite sizehash_hp, <- (ch_size _ _ (bt_chained _ _ _ _ _ B)). intros H. pose proof (entries_full 0) as F. destruct (omap id g) as [|e l] eqn:E; cbn in F.
  - apply lookup_ge_None in F. assert (g = []) as Eg by (destruct g; [done|cbn in F; lia]). rewrite Eg in H. by apply walk_end.
  - pose proof (lookup_lt_Some _ _ _ F). destruct (Z.eqb_spec (Z.of_nat (length g)) 0); [lia|]. destruct (node_at_ok 0 e F) as (x & Ex & Kx). change (Z.of_nat 0) with 0 in Ex. rewrite Ex, (pushkey_ok _ _ Kx) in H. eapply walk_next; [exact H|].
    apply (walk_slots l 0). by rewrite E.
Qed.

(** The keys of the items from an index on. *)
Fixpoint array_keys (l : list cvalue) (i : Z) : list lkey := match l with [] => [] | v :: l => if vt_nil v then array_keys l (i + 1) else KInt (i + 1) :: array_keys l (i + 1) end.

Lemma walk_array l i k : 0 <= i -> drop (Z.to_nat i) (t_array t) = l -> lnextkey sm t k = match first_item l i with Some key => Ok (Some (KInt key)) | None => pushfirsthash sm t end ->
  walk sm t k (array_keys l i ++ keys g).
Proof.
  revert i k. induction l as [|v l IH]; intros i k Hi D H; [by apply walk_hash|]. assert (D' : drop (Z.to_nat (i + 1)) (t_array t) = l) by (rewrite Z2Nat.inj_add, <- drop_drop, D by lia; done). cbn [first_item array_keys] in *.
  destruct (vt_nil v); [by apply IH; [lia|..]|]. eapply walk_next; [exact H|]. apply IH; [lia|done|]. assert (L : i < n).
  { rewrite <- sizearray_n. unfold sizearray. assert ((Z.to_nat i < length (t_array t))%nat); [|lia]. apply (lookup_lt_Some _ _ v). rewrite <- (Nat.add_0_r (Z.to_nat i)), <- lookup_drop, D. done. }
  unfold lnextkey. unfold INT_MAX in *. rewrite i32_small by lia. rewrite sizearray_n. assert ((0 <? i + 1) && (i + 1 <=? n) = true) as -> by lia. unfold next_item. by rewrite D'.
Qed.

Lemma elem_of_array_keys l i k : k ∈ array_keys l i <-> exists j v, k = KInt (i + Z.of_nat j + 1) /\ l !! j = Some v /\ vt_nil v = false.
Proof.
  revert i. induction l as [|v l IH]; intros i; cbn [array_keys]; [split; [by intros ?%elem_of_nil|by intros (j & v & _ & ? & _)]|].
  assert (E : k ∈ array_keys l (i + 1) <-> exists j w, k = KInt (i + Z.of_nat (S j) + 1) /\ l !! j = Some w /\ vt_nil w = false).
  { rewrite IH. split; intros (j & w & -> & H); exists j, w; (split; [f_equal; lia|done]). }
  assert (E2 : k ∈ (if vt_nil v then array_keys l (i + 1) else KInt (i + 1) :: array_keys l (i + 1)) <-> (k = KInt (i + 1) /\ vt_nil v = false) \/ k ∈ array_keys l (i + 1)).
  { destruct (vt_nil v); [naive_solver|]. rewrite elem_of_cons. naive_solver. }
  rewrite E2, E. split.
  - intros [[-> Hv]|(j & w & -> & H)]; [exists 0%nat, v; split; [f_equal; lia|done]|by exists (S j), w].
  - intros ([|j] & w & -> & Hj & Hw); cbn in Hj; [left; injection Hj as ->; split; [f_equal; lia|done]|right; by exists j, w].
Qed.

Lemma array_keys_nodup l i : NoDup (array_keys l i).
Proof.
  revert i. induction l as [|v l IH]; intros i; cbn [array_keys]; [constructor|]. destruct (vt_nil v); [apply IH|]. constructor; [|apply IH]. intros (j & w & E & _)%elem_of_array_keys. injection E. lia.
Qed.

Lemma elem_of_all_keys k : k ∈ array_keys (t_array t) 0 ++ keys g <-> k ∈ pairs.*1.
Proof.
  destruct (bt_array _ _ _ _ _ B) as [L A]. rewrite elem_of_app, elem_of_array_keys, (bt_keys _ _ _ _ _ B). split.
  - intros [(j & cv & -> & Hj & Nj)|(kv & -> & H)%list_elem_of_fmap].
    + destruct (A j cv Hj) as [(v & Hv & _)|[-> _]]; [|done]. apply (list_elem_of_fmap_2 fst) in Hv. by replace (0 + Z.of_nat j + 1) with (Z.of_nat j + 1) by lia.
    + apply elem_of_hash_pairs in H as [H _]. by apply list_elem_of_fmap_2.
  - intros (kv & -> & H)%list_elem_of_fmap. destruct (in_array n kv.1) eqn:N; [left|right; apply list_elem_of_fmap_2; by apply elem_of_hash_pairs]. destruct kv as [[i| | | |] v]; try done. cbn in N |- *.
    destruct (lookup_lt_is_Some_2 (t_array t) (Z.to_nat (i - 1))) as [cv Ecv]; [lia|]. exists (Z.to_nat (i - 1)), cv. split; [f_equal; lia|]. split; [done|]. replace i with (Z.of_nat (Z.to_nat (i - 1)) + 1) in H by lia.
    destruct (A _ _ Ecv) as [(w & _ & [Nw _])|[_ Na]]; [done|]. destruct Na. by apply (list_elem_of_fmap_2 fst) in H.
Qed.

Lemma walk_all : exists ks, walk sm t None ks /\ Permutation ks pairs.*1.
Proof.
  exists (array_keys (t_array t) 0 ++ keys g). split; [by apply walk_array|]. apply NoDup_Permutation; [|done|apply elem_of_all_keys]. apply NoDup_app. split; [apply array_keys_nodup|]. split; [|apply keys_nodup, (bt_chained _ _ _ _ _ B)].
  intros k (j & cv & -> & Hj & _)%elem_of_array_keys (i & e & He & Ek)%elem_of_keys. destruct (entry_good i e He) as (_ & N & _). rewrite Ek in N. apply lookup_lt_Some in Hj. destruct (bt_array _ _ _ _ _ B) as [L _]. cbn in N. lia.
Qed.

Lemma built_reads : reads sm (LTable n pairs) (PTable t).
Proof.
  apply reads_table. split; [apply index_present|]. split; [apply index_absent|]. split; [apply walk_all|]. split; [apply sizearray_n|apply sizehash_hp].
Qed.
End built.

(** ** Whole values *)

Lemma setvalue_ok v : value_good v = true -> forall sm, exists cv sm', setvalue v sm = Ok (cv, sm') /\ sm `prefix_of` sm' /\ val_ok sm' v cv.
Proof.
  induction v as [v Hv|n pairs IH] using lvalue_nested_ind; intros G sm.
  - destruct v; try done; cbn [setvalue].
    1, 2, 4: eexists _, sm; split; [done|]; split; [done|]; split; [done|]; intros sm' _; eexists; by split.
    destruct (stringindex_ok sm s) as (j & sm' & E & P & I). rewrite E. eexists _, sm'. split; [done|]. split; [done|]. split; [done|]. intros sm2 P2. exists (PString s). split; [|done]. cbn. by rewrite (string_at_index sm2 s j (index_in_prefix _ _ _ _ P2 I)).
  - cbn [value_good] in G. rewrite !andb_true_iff in G. destruct G as ((((G1 & G2) & G3) & G4) & G5). apply bool_decide_eq_true in G4. rewrite forallb_forall in G5.
    assert (G6 : forall kv, kv ∈ pairs -> key_good kv.1 = true /\ value_good kv.2 = true) by (intros kv Hk; apply andb_true_iff, G5; by apply list_elem_of_In).
    destruct (convtable_ok setvalue n pairs) with (sm := sm) as (t & sm' & g & E & P & B); [lia|done|by intros kv Hk; apply G6|intros kv sm0 Hk; by apply IH, G6|lia|].
    cbn [setvalue]. rewrite E. exists (VTable t), sm'. split; [done|]. split; [done|]. split; [done|]. intros sm2 P2. exists (PTable t). split; [done|]. apply (built_reads n pairs sm2 t g); [by eapply built_mono|lia|done|by intros kv Hk; apply G6].
Qed.

(** C18: a Lua table of values that can be shared (keys that are strings or fit in an [int]; numbers, strings, booleans and such tables as values) is copied without failure whatever its keys hash to, and the copy reads like
    it, to any depth: every key has its value, no other key has one, a walk with [lnextkey] meets every key exactly once and ends, and the lengths are those of the array and of the rest. *)
Theorem sharedata_reads rawlen pairs : value_good (LTable rawlen pairs) = true -> exists t sm, lnewconf rawlen pairs = Ok (t, sm) /\ reads sm (LTable rawlen pairs) (PTable t).
Proof.
  intros G. destruct (setvalue_ok _ G []) as (cv & sm & E & _ & [_ V]). cbn [setvalue] in E. unfold lnewconf. destruct (convtable _ _ _ _) as [[t sm']|e|]; [|done..]. injection E as <- <-. exists t, sm'. split; [done|].
  destruct (V sm') as (p & Ep & R); [done|]. cbn in Ep. by injection Ep as <-.
Qed.

(** Three levels, a string that is shared, negative and large keys, an empty table, a hole in the array, keys whose hashes meet. *)
Definition sample_pairs : list (lkey * lua_value) :=
  [(KInt 1, LInteger 10); (KInt 3, LString [104; 105]); (KStr [97], LTable 0 []); (KInt (-1), LBoolean true); (KInt 100, LReal 4607182418800017408);
   (KStr [104; 105], LTable 2 [(KInt 1, LString [97]); (KInt 2, LTable 0 [(KStr [98], LInteger 1); (KInt 7, LInteger 2); (KInt 9, LString [104; 105])])])].

Lemma sharedata_reads_witness : value_good (LTable 3 sample_pairs) = true /\ exists t sm, lnewconf 3 sample_pairs = Ok (t, sm) /\ reads sm (LTable 3 sample_pairs) (PTable t).
Proof. split; [vm_compute; reflexivity|]. apply (sharedata_reads 3 sample_pairs). vm_compute. reflexivity. Defined.

(** The key is cast to [int] after it has been counted: the value of [2^32 + 1] becomes item 1, and the slot that was counted for it is never set. *)
Lemma wide_key_overwrites : exists t sm, lnewconf 1 [(KInt 1, LInteger 10); (KInt (2 ^ 32 + 1), LInteger 20)] = Ok (t, sm) /\ lindexconf sm t (KInt 1) = Ok (PInteger 20) /\ lnextkey sm t (Some (KInt 1)) = Stuck.
Proof. eexists _, _. split; [vm_compute; reflexivity|]. split; vm_compute; reflexivity. Qed.

(** A table is accepted as a key and is kept as the empty string. *)
Lemma table_key_is_empty_string : exists t sm, lnewconf 0 [(KTable, LInteger 1)] = Ok (t, sm) /\ lindexconf sm t (KStr []) = Ok (PInteger 1).
Proof. eexists _, _. split; [vm_compute; reflexivity|]. vm_compute; reflexivity. Qed.
